(* ===== verification/_CoqProject ===== *)
-Q . S2P
Prelude.v
Runes.v
MatrixDsl.v
MatrixProgram.v
MatrixBase.v
MatrixEval.v
MatrixSolve.v
Stores.v
Swappers.v
Tier.v
SchedTypes.v
KvWarm.v
Grace.v
Fifo.v
SchedExample.v
FifoBase.v
FifoDecide.v
FifoConserve.v
FifoOrder.v
FifoSafety.v
FifoGrace.v
FifoBooks.v
FifoSpec.v
FifoLive.v
SlotBind.v
Serving.v
ServingSlots.v
ServingRuns.v
ServingBooks.v
ServingSpec.v
Float64.v
LoopTrack.v
LoopRuns.v
LoopGuard.v
MonoDeque.v
Brake.v
BrakeGate.v
Process.v
ProcessInv.v
ProcessAnswers.v
ProcessSpec.v
SlotAffinity.v
SlotPlacement.v
SlotLanes.v
AdmissionScan.v
PingWriter.v
PingSpec.v
RequestLoop.v
RequestSpec.v
RequestMessages.v
RequestKeepalive.v
PrefillStall.v
PrefillSpec.v
PrefillLife.v
Inflight.v
InflightView.v
RecordSet.v
SessionRows.v
Sessions.v
SessionsBase.v
SessionsListed.v
SessionsSlots.v
SessionsZero.v
SessionsSpec.v
SessionsView.v
SessionLine.v
SessionsHub.v
ModelNames.v
Selectors.v
SelectorSpill.v
Macros.v
MacroSpec.v
ConfigMerge.v
RefusalHold.v
RouterOps.v
ConfigLoad.v
ConfigSpec.v
Events.v
BodyFilters.v
Responses.v
