(* ===== verification/Prelude.v ===== *)
(** * llama-swap (macos-extended): a verification library

    llama-swap is an HTTP proxy in front of local model servers.  One goroutine,
    the run loop, feeds requests to a scheduler; the scheduler decides which
    requests are served, queued, refused or cut short and which models are
    loaded and evicted; goroutines serve the granted requests in the slots of a
    child process and report back; a memory brake kills everything when the
    file cache grows too fast.  In front of the run loop each request looks for
    the model it means, is pinned to a slot, is kept alive while it waits and is
    replayed when it was preempted; beside it the server keeps a table of the
    requests in flight and one of the sessions behind them.  All of it runs on a
    configuration that is merged from files, has its macros expanded and is checked
    once, and reports what happens on an event bus.  This library models these
    decisions and proves them correct.  File names below are relative to
    [src/internal/].

    ** Parts, files, and the code they model

    - Scheduler ([router/scheduler/]).  SchedTypes.v holds the data: requests,
      events, effects and the record [FIFO] with one field per field of the Go
      struct.  KvWarm.v is [kvwarm.go], Grace.v is the swap grace and the
      snapshots ([grace.go], [capacity.go], part of [fifo.go]), Fifo.v the rest
      of [fifo.go], with one function per event ([OnRequest], [OnCancel],
      [OnSwapDone], [OnServeDone], [OnTick], [OnUnload], [OnShutdown]) and
      [step] for one event of the run loop.  [reachable] is any sequence of
      events, each in any world.
    - Eviction policies (Swappers.v, with Tier.v for tiers).  The Go interface
      [Swapper] is the class [Swapper]; the scheduler's theorems hold for every
      instance.  [Group.group_policy] ([router/group.go]) and
      [MatrixPolicy] ([router/matrix.go]) are instances.
    - Matrix routing ([matrix/]).  Runes.v decodes strings, MatrixDsl.v is the
      lexer and parser ([dsl.go]), MatrixProgram.v the compiler and the solver
      ([program.go], [router/matrix_solver.go]).
    - Serving ([router/base.go], [router/slotbind.go]).  SlotBind.v is the slot
      table, Serving.v the run loop with the goroutines that serve granted
      requests, as a transition system: an [Action] is one atomic step of one
      goroutine, [act] is partial and fails when the step is not enabled, [run]
      is any interleaving (restricted to [allowed] where a theorem says so).
    - Loop guard ([swaputil/looptrack.go]): LoopTrack.v, over Go's [float64]
      (Float64.v).
    - Memory brake ([membrake/brake.go]): MonoDeque.v (the rolling minimum) and
      Brake.v (samples, trip, gate, purge).
    - Child processes ([process/process_command.go], the retry of [reclaim.go],
      the registry of [live_registry.go]): Process.v, a transition system of the
      run goroutine, the starting goroutine, the idle timer, the restart after
      compute errors and the served requests.
    - Requests ([ServeHTTP] of [router/base.go], [router/pinging.go],
      [sseadmission.go], [preempt.go], part of [peerstall.go]).  AdmissionScan.v
      scans an SSE stream byte by byte, PingWriter.v is the keepalive writer
      shared by the upstream copy and the ping loop, RequestLoop.v the goroutine
      of one request with its attempts; both are transition systems.
    - Prefill watch ([router/prefillstall.go]): PrefillStall.v, per model the
      samples, the tracks and the requests a flat slot may belong to.
    - Session lanes ([server/slot_affinity.go]): SlotAffinity.v, the store of
      lanes and the middleware that pins a request to a slot.
    - Requests in flight ([server/inflight.go]): Inflight.v, the table as
      functions, the outbox and its publisher as a transition system.  It feeds
      the loop guard.
    - Session table ([server/sessions.go], [sessions_line.go]).  SessionRows.v has
      the rows and the stamps, Sessions.v one build and the throttle,
      SessionLine.v the text of a row, SessionsHub.v the tick that reads the
      children, feeds the slot table (SlotBind.v) and builds.  RecordSet.v is the
      notation for updating a field of a record.
    - Names and selectors ([config/peer.go], [config/selectors.go],
      [server/selector.go]).  ModelNames.v resolves names, Selectors.v checks
      selectors (with [CanContainAll] of MatrixProgram.v) and chooses targets,
      SelectorSpill.v is the middleware, whose requests interleave.
    - Forwarding ([forward] of [router/base.go], [router/refusalhold.go]):
      RefusalHold.v, the writer that withholds a child's refusal and the loop that
      tries again.
    - Router operations (other parts of [base.go]): RouterOps.v, the pins with their
      leases, and the requests an unload sends.
    - Configuration ([config/]).  ConfigMerge.v merges the documents of several files
      ([merge.go]), Macros.v expands the macros of the decoded tree ([macros.go],
      [commands.go]), ConfigLoad.v is the rest of the loading, from the decoded values
      to the record the routers are built from ([load.go], [config.go], [matrix.go],
      [menubar.go], and the models of [model_config.go]).
    - Requests and responses at the edge ([config/filters.go]; [server/filters.go],
      [filters_image.go], [sampling_headers.go], [metrics.go]).  BodyFilters.v is what the
      proxy changes in a body: its model's name, parameters, images, sampling headers.
      Responses.v is the copier beside the client's writer, with the buffer of the last
      bytes, and the tokens, rates and slot read from what it kept.
    - Stores (Stores.v): [ring/buffer.go], [cache/cache.go].
    - Events and logs (Events.v): the bus with its registry, publishers and listeners
      ([event/event.go]), and the log monitor with its circular buffer and its
      broadcast ([logmon/logging.go]).  Both are transition systems.

    ** How effects, time and shared state are modelled

    The scheduler calls back into the router.  Each call is appended to [log] in
    the order it is made, and everything the outside answers (process states,
    the clock, whether a caller was still there to receive a handler) is read
    from an [Env], whose answers may depend on all that was logged before: a
    theorem that holds for every [Env] holds for every behaviour of the outside.
    Log lines are left out.  Channels, contexts, cancel functions and handles
    are identities: the code only compares them or passes them on.  Where Go
    shares an object through pointers the sharing is kept: the holders of the
    slot table live in a heap because a request keeps its holder after the table
    forgot it.

    Go maps are [gmap]s.  Where the iteration order of a map can be observed,
    the model fixes an order only if the code sorts; otherwise the order is a
    parameter ([range] in MatrixProgram.v, Sessions.v, ModelNames.v and
    ConfigLoad.v, a permutation of the entries) or [map_to_list], and the theorems do not depend
    on it.  A [time.Time] is a number of nanoseconds with the zero
    time at 0 and [Sub] saturating ([time_sub]); formatted times keep the moment
    they denote.  Token estimates and counters are unbounded integers; [i64]
    gives the wrap-around where the code's arithmetic can reach it.

    Mutexes make the operations of the slot table, the cache, the loop guard, the
    lanes and the brake atomic, so these are functions on their state; the
    concurrency of the router, of a child process, of one request and its writer,
    of the in-flight publisher, of the selector middleware, of the pins and their
    readers, of the event bus and of the log monitor is in their [run] relations or
    functions, over every list of atomic steps.

    ** What is proved

    - Scheduler: swaps in progress are compatible and evict only models with
      nothing in flight (FifoSafety.v, by an invariant over [reachable]); no
      request is lost, duplicated or answered twice (FifoConserve.v, as a
      permutation for each event); the queue stays ordered and nothing passes a
      waiting request of a higher rank (FifoOrder.v); the grace of a model is
      respected (FifoGrace.v); on runs whose completions match their grants the
      counters are exact and every limit holds (FifoBooks.v); preemption and the
      slot cooldown do what they specify (FifoSpec.v); an idle router makes
      progress (FifoLive.v).  FifoBase.v has the frame lemmas, FifoDecide.v turns
      the decision tree that [OnRequest] and [drainQueue] share into the relation
      [outcome], SchedExample.v the runs at which the theorems are instantiated.
    - Serving: ServingSlots.v proves that the slot table and the served requests
      agree after every operation, ServingRuns.v that they agree in every
      interleaving, ServingBooks.v that every router run without the release
      race is one of the lawful runs of FifoBooks.v, and ServingSpec.v concludes:
      exact counts, no eviction of a model that serves, no shared slot, a slot
      for every grant; and it exhibits the race, and the stale orphan, in which
      these fail.
    - Matrix: the topological sort and the bit masks (MatrixBase.v), the projecting evaluator against the full expansion (MatrixEval.v), and the
      optimality of [Solve] and exactness of [CanContainAll] (MatrixSolve.v);
      printing and parsing are inverse (MatrixDsl.v); the decision cache never
      changes an answer (Swappers.v).
    - Loop guard: the run measure is the longest trailing cycle (LoopRuns.v); the
      strike ladder and the holds (LoopGuard.v).
    - Brake: the deque holds the minimum of the window (MonoDeque.v); the gate,
      the trip and the purge (BrakeGate.v).
    - Child processes: one child at a time and lawful states (ProcessInv.v), true
      answers to every caller and a run goroutine that always comes back
      (ProcessAnswers.v); ProcessSpec.v states the promises and the race of the
      idle timer.
    - Requests: what the client of a keepalive writer reads in every interleaving
      (PingSpec.v); the answer of a request without one and the bound on its
      attempts (RequestSpec.v); what it tells the scheduler (RequestMessages.v);
      and that a request with a keepalive writer only ever drives it lawfully
      (RequestKeepalive.v), so that PingSpec.v speaks of whole requests.
    - Prefill watch: a sample is judged alike in every order of iteration
      (PrefillSpec.v); every cut and restart is justified by the samples of a
      whole budget, and the poll loop lives as long as a request
      (PrefillLife.v).
    - Lanes: placement and the repair of collisions (SlotPlacement.v); the store
      over any sequence of operations (SlotLanes.v).
    - In flight: updates reach a subscriber, responses are counted whatever their
      chunks (InflightView.v).
    - Session table: a build refines a machine with one state per session
      (SessionsListed.v); slot counters appear once (SessionsSlots.v); no zero
      that was not measured (SessionsZero.v); kept DECODEs and rates were real
      (SessionsSpec.v); order, queue and throttle (SessionsView.v); the readings
      behind a build (SessionsHub.v).  SessionsBase.v and SessionsZero.v have the
      frame lemmas and the induction over the steps of one build.
    - Names and selectors: who a name leads to, and that qualified names clash with
      nothing (ModelNames.v); reservations of a spillover selector are exact in
      every interleaving and each choice spreads the load (SelectorSpill.v).
    - Forwarding: the client sees one try, whatever was withheld before it, and the
      loop returns (RefusalHold.v).  Router operations: a model is pinned exactly when
      what was asked for last says so, and where the two halves of a read err
      (RouterOps.v).
    - Configuration: a merge keeps everything and overrides nothing (ConfigMerge.v);
      the substitution of macros is their expansion, and an accepted configuration
      holds none (MacroSpec.v); what is loaded is well formed, every name leads to its
      owner and every model has a group (ConfigSpec.v).
    - Edge: a request goes on with exactly the parameters the settings mean, and without
      images for a model that takes none (BodyFilters.v); the copier is invisible, and
      what is recorded from the bytes it keeps is what the whole response says
      (Responses.v).
    - Stores: the ring keeps the last entries, the cache its byte budget.
    - Events and logs: consumers lose nothing while they live, and a dead one stalls
      publishers once; the log keeps the last bytes, blocks nobody and accounts for
      what it drops; the live consumer that does lose an event, and the notice that
      comes early, are exhibited (Events.v).

    ** Fuel

    Only recursion that Rocq cannot see to be structural runs on fuel, and each
    such function has a theorem that the fuel supplied is enough: the lexer and
    the parser get a multiple of the input's length ([parseDSL_terminates]), the
    topological sort the number of sets ([topologicalOrder_correct]), and the
    solver's evaluator the number of compiled sets, whose references the
    topological order makes well-founded ([Solve_optimal]), and the binary search of
    the event registry the number of its keys ([bisect_spec]).  The retries of a
    refused request are a recursion over the answers of the child; [forward_returns]
    bounds how many it takes.  Every loop of the scheduler, the slot table, the loop guard and the brake is a fold or
    structural recursion and needs none.

    ** Conventions

    The Go name is kept unless Rocq reserves it ([admit_], [Record_], [set_] for
    a field update).  A theorem numbered [C<n>] states a property of the program;
    a lemma ending in [_witness] applies it to a concrete run.

    ** Not modelled

    HTTP: parsing of requests, the API, captures and their store, the text streamed
    while a model loads.  Bodies and responses: the text of JSON, which a library reads
    and edits (its functions are parameters of BodyFilters.v and Responses.v), forms,
    and compression.  Processes: command lines, health requests, signals.
    Configuration: reading the YAML (its decoded values are the input), environment
    variables, which are replaced in the text before it is parsed, and the check of
    Tailcat keys.  Stores on SQLite, hardware probes, tray and menu-bar front ends.
    These are input/output around the decisions above.  Of [base.go] [doSwap] and
    [handleShutdown] are left out: they start and stop processes, whose goroutines
    Process.v has one by one; of [sessions.go] the log lines and the JSON of a body;
    of the log monitor levels and formats; of the event bus its closing. *)

From Stdlib Require Export ZArith Lia.
From stdpp Require Export base decidable option list numbers strings gmap fin_maps fin_sets sorting relations.

#[global] Set Default Goal Selector "!".
#[global] Open Scope Z_scope.

#[global] Arguments Nat.modulo : simpl never.
#[global] Arguments Nat.div : simpl never.
#[global] Arguments Z.add : simpl never.
#[global] Arguments Z.sub : simpl never.
#[global] Arguments Z.mul : simpl never.
#[global] Arguments Z.pow : simpl never.

(** ** Go integers *)

(** Two's complement wrap-around of Go's 64-bit [int], [int64] and
    [time.Duration]. *)
Definition i64 (z : Z) : Z := (z + 2 ^ 63) mod 2 ^ 64 - 2 ^ 63.

Definition max_int64 : Z := 2 ^ 63 - 1.
Definition min_int64 : Z := - 2 ^ 63.

Lemma i64_id z : min_int64 <= z <= max_int64 -> i64 z = z.
Proof.
  unfold i64, min_int64, max_int64. intros Hz.
  rewrite Z.mod_small; lia.
Qed.

Lemma i64_range z : min_int64 <= i64 z <= max_int64.
Proof.
  unfold i64, min_int64, max_int64.
  pose proof (Z.mod_pos_bound (z + 2 ^ 63) (2 ^ 64) eq_refl). lia.
Qed.

(** ** Go times

    A [time.Time] is the number of nanoseconds since the zero time
    (1 January of year 1), so the zero value [time.Time{}] is [0]; a
    [time.Duration] is a number of nanoseconds. *)
Definition nsec_second : Z := 1000000000.
Definition nsec_minute : Z := 60 * nsec_second.

Definition is_zero_time (t : Z) : bool := t =? 0.
Definition before (t u : Z) : bool := t <? u.
Definition after (t u : Z) : bool := u <? t.

(** [t.Sub(u)] saturates at the ends of the [time.Duration] range. *)
Definition time_sub (t u : Z) : Z :=
  if max_int64 <? t - u then max_int64
  else if t - u <? min_int64 then min_int64
  else t - u.

(** Every comparison of the code against a representable duration reads the
    exact difference: the saturation is invisible below the bound. *)
Lemma time_sub_ltb t u d :
  min_int64 < d <= max_int64 -> (time_sub t u <? d) = (t - u <? d).
Proof.
  unfold time_sub. intros Hd.
  destruct (Z.ltb_spec max_int64 (t - u)).
  - destruct (Z.ltb_spec max_int64 d), (Z.ltb_spec (t - u) d); lia.
  - destruct (Z.ltb_spec (t - u) min_int64); [|done].
    destruct (Z.ltb_spec min_int64 d), (Z.ltb_spec (t - u) d); lia.
Qed.

(** ** Go maps: reading an absent key gives the zero value *)
Definition get0 `{Countable K} (m : gmap K Z) (k : K) : Z := default 0 (m !! k).

Lemma get0_insert_eq `{Countable K} (m : gmap K Z) k v : get0 (<[k:=v]> m) k = v.
Proof. unfold get0. by rewrite lookup_insert_eq. Qed.

Lemma get0_insert_ne `{Countable K} (m : gmap K Z) k j v :
  k <> j -> get0 (<[k:=v]> m) j = get0 m j.
Proof. intros. unfold get0. by rewrite lookup_insert_ne. Qed.

Lemma get0_delete_eq `{Countable K} (m : gmap K Z) k : get0 (delete k m) k = 0.
Proof. unfold get0. by rewrite lookup_delete_eq. Qed.

Lemma get0_delete_ne `{Countable K} (m : gmap K Z) k j :
  k <> j -> get0 (delete k m) j = get0 m j.
Proof. intros. unfold get0. by rewrite lookup_delete_ne. Qed.

Create HintDb get0.
#[export] Hint Rewrite @get0_insert_eq @get0_delete_eq : get0.
#[export] Hint Rewrite @get0_insert_ne @get0_delete_ne using done : get0.

(** The scheduler's frame lemmas ([FifoBase]). *)
Create HintDb sched.

(** ** Errors as values: [(T, error)] results *)
Inductive result (E A : Type) : Type :=
| Ok (a : A)
| Err (e : E).
Arguments Ok {E A} a.
Arguments Err {E A} e.

Definition rbind {E A B} (m : result E A) (f : A -> result E B) : result E B :=
  match m with Ok a => f a | Err e => Err e end.

Declare Scope result_scope.
Delimit Scope result_scope with result.
Notation "'let?' x ':=' m 'in' k" := (rbind m (fun x => k))
  (at level 10, x pattern, m at level 100, k at level 200) : result_scope.

Lemma rbind_Ok {E A B} (m : result E A) (f : A -> result E B) b :
  rbind m f = Ok b <-> exists a, m = Ok a /\ f a = Ok b.
Proof.
  destruct m as [a|e]; simpl; split.
  - by eauto.
  - by intros (a' & [= ->] & Hf).
  - done.
  - by intros (a' & ? & _).
Qed.

(** ** Sorting strings ([sort.Strings]: by bytes) *)
Definition sort_strings (l : list string) : list string := merge_sort String.le l.

Lemma sort_strings_perm l : sort_strings l ≡ₚ l.
Proof. apply merge_sort_Permutation. Qed.

Lemma sort_strings_elem l x : x ∈ sort_strings l <-> x ∈ l.
Proof. by rewrite sort_strings_perm. Qed.

Lemma sort_strings_NoDup l : NoDup l -> NoDup (sort_strings l).
Proof. by rewrite sort_strings_perm. Qed.

Lemma sort_strings_sorted l : StronglySorted String.le (sort_strings l).
Proof. apply (StronglySorted_merge_sort _). Qed.

(** ** Lists *)
Lemma lookup_map {A B} (f : A -> B) (l : list A) i : map f l !! i = f <$> l !! i.
Proof. apply list_lookup_fmap. Qed.

Lemma elem_of_map {A B} (f : A -> B) (l : list A) y : y ∈ map f l <-> exists x, x ∈ l /\ y = f x.
Proof. rewrite list_elem_of_fmap. naive_solver. Qed.

Lemma elem_of_filterb {A} (f : A -> bool) (l : list A) x : x ∈ List.filter f l <-> x ∈ l /\ f x = true.
Proof. by rewrite !list_elem_of_In, filter_In. Qed.

Lemma filterb_ext {A} (f g : A -> bool) (l : list A) :
  (forall x, x ∈ l -> f x = g x) -> List.filter f l = List.filter g l.
Proof. intros H. apply List.filter_ext_in. intros x Hx. by apply H, list_elem_of_In. Qed.

Lemma StronglySorted_impl {A} (R S : A -> A -> Prop) (l : list A) :
  (forall a b, R a b -> S a b) -> StronglySorted R l -> StronglySorted S l.
Proof.
  intros HRS. induction 1 as [|x l Hl IH Hx]; constructor; [done|].
  eapply Forall_impl; [exact Hx|auto].
Qed.

(** ** Sums over lists *)
Definition sumZ (l : list Z) : Z := foldr Z.add 0 l.

Lemma sumZ_app l k : sumZ (l ++ k) = sumZ l + sumZ k.
Proof. induction l; simpl; lia. Qed.

Lemma sumZ_nonneg l : Forall (fun z => 0 <= z) l -> 0 <= sumZ l.
Proof. induction 1; simpl; lia. Qed.

(** ** Lengths of filtered lists *)
Lemma filter_length_le {A} (P Q : A -> Prop) `{!forall x, Decision (P x), !forall x, Decision (Q x)} l :
  (forall x, P x -> Q x) -> (length (filter P l) <= length (filter Q l))%nat.
Proof.
  intros HPQ. induction l as [|x l IH]; [done|]. rewrite !filter_cons.
  repeat case_decide; simpl; try lia. naive_solver.
Qed.

Lemma filter_length_lt {A} (P Q : A -> Prop) `{!forall x, Decision (P x), !forall x, Decision (Q x)} l y :
  (forall x, P x -> Q x) -> y ∈ l -> Q y -> ~ P y ->
  (length (filter P l) < length (filter Q l))%nat.
Proof.
  intros HPQ Hy HQ HP. induction l as [|x l IH]; [by apply elem_of_nil in Hy|].
  rewrite !filter_cons. pose proof (filter_length_le P Q l HPQ).
  apply elem_of_cons in Hy as [<-|Hy].
  - rewrite decide_False, decide_True by done. simpl. lia.
  - specialize (IH Hy). repeat case_decide; simpl; try lia. naive_solver.
Qed.

(** ** Tactics *)

(** Case analysis on every comparison of integers used as a boolean. *)
Ltac zcases :=
  repeat match goal with
  | |- context [?a <? ?b] => destruct (Z.ltb_spec a b)
  | |- context [?a <=? ?b] => destruct (Z.leb_spec a b)
  | |- context [?a =? ?b] => destruct (Z.eqb_spec a b)
  end.

Ltac zcases_in H :=
  repeat match type of H with
  | context [?a <? ?b] => destruct (Z.ltb_spec a b)
  | context [?a <=? ?b] => destruct (Z.leb_spec a b)
  | context [?a =? ?b] => destruct (Z.eqb_spec a b)
  end.

(** Decide by [lia] every integer comparison whose outcome is forced. *)
Ltac zdecide :=
  repeat match goal with
  | |- context [?a <? ?b] =>
    first [ replace (a <? b) with true by (symmetry; apply Z.ltb_lt; lia)
          | replace (a <? b) with false by (symmetry; apply Z.ltb_ge; lia) ]
  | |- context [?a <=? ?b] =>
    first [ replace (a <=? b) with true by (symmetry; apply Z.leb_le; lia)
          | replace (a <=? b) with false by (symmetry; apply Z.leb_gt; lia) ]
  | |- context [?a =? ?b] =>
    first [ replace (a =? b) with true by (symmetry; apply Z.eqb_eq; lia)
          | replace (a =? b) with false by (symmetry; apply Z.eqb_neq; lia) ]
  end; simpl.
