(* ===== verification/Runes.v ===== *)
(** Go strings and runes: the UTF-8 conversions [[]rune(s)] and
    [string(runes)], and the [unicode] predicates the matrix lexer calls.

    The letter and digit tables of Go's [unicode] package are a parameter
    (class [UnicodeTables]) with the laws the lexer relies on; the white-space
    property is small and is written out.  [latin1] is a concrete instance. *)

From S2P Require Import Prelude.

Definition rune_error : Z := 65533.

(** ** Bytes of a Go string *)
Definition bytes_of_string (s : string) : list Z :=
  map (fun a => Z.of_N (Ascii.N_of_ascii a)) (String.list_ascii_of_string s).

Definition string_of_bytes (bs : list Z) : string :=
  String.string_of_list_ascii (map (fun b => Ascii.ascii_of_N (Z.to_N b)) bs).

Lemma string_of_bytes_of_string s : string_of_bytes (bytes_of_string s) = s.
Proof.
  unfold string_of_bytes, bytes_of_string. rewrite map_map.
  rewrite <- (String.string_of_list_ascii_of_string s) at 2. f_equal.
  rewrite <- (map_id (String.list_ascii_of_string s)) at 2. apply map_ext.
  intros a. by rewrite N2Z.id, Ascii.ascii_N_embedding.
Qed.

Lemma bytes_of_string_of_bytes bs :
  Forall (fun b => 0 <= b < 256) bs -> bytes_of_string (string_of_bytes bs) = bs.
Proof.
  intros H. unfold string_of_bytes, bytes_of_string.
  rewrite String.list_ascii_of_string_of_list_ascii, map_map.
  induction H as [|b bs Hb H IH]; simpl; [done|]. f_equal; [|exact IH].
  rewrite Ascii.N_ascii_embedding; lia.
Qed.

(** ** Decoding: an invalid or truncated sequence yields U+FFFD for one byte *)
Definition cont (lo hi b : Z) : bool := (lo <=? b) && (b <=? hi).

Definition lo2 (b0 : Z) : Z :=
  if b0 =? 0xE0 then 0xA0 else if b0 =? 0xF0 then 0x90 else 0x80.
Definition hi2 (b0 : Z) : Z :=
  if b0 =? 0xED then 0x9F else if b0 =? 0xF4 then 0x8F else 0xBF.

Fixpoint decode_runes (bs : list Z) : list Z :=
  match bs with
  | [] => []
  | b0 :: t0 =>
    if b0 <? 0x80 then b0 :: decode_runes t0
    else if (0xC2 <=? b0) && (b0 <=? 0xDF) then
      match t0 with
      | b1 :: t1 =>
        if cont 0x80 0xBF b1
        then (b0 - 0xC0) * 64 + (b1 - 0x80) :: decode_runes t1
        else rune_error :: decode_runes t0
      | [] => rune_error :: decode_runes t0
      end
    else if (0xE0 <=? b0) && (b0 <=? 0xEF) then
      match t0 with
      | b1 :: ((b2 :: t2) as t1) =>
        if cont (lo2 b0) (hi2 b0) b1 && cont 0x80 0xBF b2
        then (b0 - 0xE0) * 4096 + (b1 - 0x80) * 64 + (b2 - 0x80) :: decode_runes t2
        else rune_error :: decode_runes t0
      | _ => rune_error :: decode_runes t0
      end
    else if (0xF0 <=? b0) && (b0 <=? 0xF4) then
      match t0 with
      | b1 :: ((b2 :: ((b3 :: t3) as t2)) as t1) =>
        if cont (lo2 b0) (hi2 b0) b1 && cont 0x80 0xBF b2 && cont 0x80 0xBF b3
        then (b0 - 0xF0) * 262144 + (b1 - 0x80) * 4096 + (b2 - 0x80) * 64 + (b3 - 0x80)
             :: decode_runes t3
        else rune_error :: decode_runes t0
      | _ => rune_error :: decode_runes t0
      end
    else rune_error :: decode_runes t0
  end.

Definition runes_of_string (s : string) : list Z := decode_runes (bytes_of_string s).

(** ** Encoding *)
Definition valid_rune (r : Z) : Z :=
  if (r <? 0) || (0x10FFFF <? r) || ((0xD800 <=? r) && (r <=? 0xDFFF))
  then rune_error else r.

Definition encode_rune (r : Z) : list Z :=
  let r := valid_rune r in
  if r <? 0x80 then [r]
  else if r <? 0x800 then [0xC0 + r / 64; 0x80 + r mod 64]
  else if r <? 0x10000 then [0xE0 + r / 4096; 0x80 + r / 64 mod 64; 0x80 + r mod 64]
  else [0xF0 + r / 262144; 0x80 + r / 4096 mod 64; 0x80 + r / 64 mod 64; 0x80 + r mod 64].

Definition string_of_runes (rs : list Z) : string :=
  string_of_bytes (concat (map encode_rune rs)).

(** Unicode scalar values: the runes that survive a round trip. *)
Definition scalar (r : Z) : Prop := 0 <= r < 0xD800 \/ 0xDFFF < r <= 0x10FFFF.

Ltac decode_step :=
  match goal with |- context [decode_runes (_ :: ?t)] =>
    let t' := fresh "t" in
    remember t as t' eqn:Et; cbn [decode_runes]; zdecide; subst t'
  end;
  unfold cont, lo2, hi2; zdecide.

Lemma decode_1 b0 t : 0 <= b0 < 0x80 -> decode_runes (b0 :: t) = b0 :: decode_runes t.
Proof. intros. by decode_step. Qed.

Lemma decode_2 b0 b1 t :
  0xC2 <= b0 <= 0xDF -> 0x80 <= b1 <= 0xBF ->
  decode_runes (b0 :: b1 :: t) = (b0 - 0xC0) * 64 + (b1 - 0x80) :: decode_runes t.
Proof. intros. by decode_step. Qed.

Lemma decode_3 b0 b1 b2 t :
  0xE0 <= b0 <= 0xEF -> lo2 b0 <= b1 <= hi2 b0 -> 0x80 <= b2 <= 0xBF ->
  decode_runes (b0 :: b1 :: b2 :: t)
  = (b0 - 0xE0) * 4096 + (b1 - 0x80) * 64 + (b2 - 0x80) :: decode_runes t.
Proof.
  intros H0 H1 H2. remember (lo2 b0) as l. remember (hi2 b0) as h.
  remember (b1 :: b2 :: t) as t0. cbn [decode_runes]. zdecide. subst t0.
  rewrite <- Heql, <- Heqh. unfold cont. by zdecide.
Qed.

Lemma decode_4 b0 b1 b2 b3 t :
  0xF0 <= b0 <= 0xF4 -> lo2 b0 <= b1 <= hi2 b0 ->
  0x80 <= b2 <= 0xBF -> 0x80 <= b3 <= 0xBF ->
  decode_runes (b0 :: b1 :: b2 :: b3 :: t)
  = (b0 - 0xF0) * 262144 + (b1 - 0x80) * 4096 + (b2 - 0x80) * 64 + (b3 - 0x80)
    :: decode_runes t.
Proof.
  intros H0 H1 H2 H3. remember (lo2 b0) as l. remember (hi2 b0) as h.
  remember (b1 :: b2 :: b3 :: t) as t0. cbn [decode_runes]. zdecide. subst t0.
  rewrite <- Heql, <- Heqh. unfold cont. by zdecide.
Qed.

Lemma decode_encode_rune r bs :
  scalar r -> decode_runes (encode_rune r ++ bs) = r :: decode_runes bs.
Proof.
  intros Hr. unfold encode_rune.
  replace (valid_rune r) with r by (unfold valid_rune, scalar in *; zcases; simpl; lia).
  cbv zeta. unfold scalar in Hr.
  pose proof (Z.div_mod r 64 ltac:(lia)) as E1. pose proof (Z.mod_pos_bound r 64 ltac:(lia)).
  pose proof (Z.div_mod (r / 64) 64 ltac:(lia)) as E2.
  pose proof (Z.mod_pos_bound (r / 64) 64 ltac:(lia)).
  pose proof (Z.div_mod (r / 64 / 64) 64 ltac:(lia)) as E3.
  pose proof (Z.mod_pos_bound (r / 64 / 64) 64 ltac:(lia)).
  assert (r / 4096 = r / 64 / 64) as -> by (rewrite Z.div_div by lia; done).
  assert (r / 262144 = r / 64 / 64 / 64) as -> by (rewrite !Z.div_div by lia; done).
  set (q1 := r / 64) in *. set (q2 := q1 / 64) in *. set (q3 := q2 / 64) in *.
  set (m1 := r mod 64) in *. set (m2 := q1 mod 64) in *. set (m3 := q2 mod 64) in *.
  clearbody q1 q2 q3 m1 m2 m3.
  destruct (Z.ltb_spec r 0x80); [|destruct (Z.ltb_spec r 0x800);
    [|destruct (Z.ltb_spec r 0x10000)]]; cbn [app].
  - by rewrite decode_1 by lia.
  - rewrite decode_2 by lia. f_equal; lia.
  - rewrite decode_3; [f_equal; lia|lia|unfold lo2, hi2; zcases; lia|lia].
  - rewrite decode_4; [f_equal; lia|lia|unfold lo2, hi2; zcases; lia|lia|lia].
Qed.

Lemma encode_rune_bytes r : Forall (fun b => 0 <= b < 256) (encode_rune r).
Proof.
  unfold encode_rune.
  assert (0 <= valid_rune r <= 0x10FFFF) as Hr.
  { unfold valid_rune, rune_error. zcases; simpl; lia. }
  generalize dependent (valid_rune r). intros r' Hr.
  pose proof (Z.mod_pos_bound r' 64 ltac:(lia)).
  pose proof (Z.mod_pos_bound (r' / 64) 64 ltac:(lia)).
  pose proof (Z.mod_pos_bound (r' / 4096) 64 ltac:(lia)).
  zcases; repeat constructor; try lia.
  all: Z.div_mod_to_equations; lia.
Qed.

Lemma runes_of_string_of_runes rs :
  Forall scalar rs -> runes_of_string (string_of_runes rs) = rs.
Proof.
  intros H. unfold runes_of_string, string_of_runes.
  rewrite bytes_of_string_of_bytes.
  - induction H as [|r rs Hr H IH]; simpl; [done|].
    by rewrite decode_encode_rune, IH.
  - clear H. induction rs as [|r rs IH]; simpl; [done|].
    apply Forall_app; split; [apply encode_rune_bytes|done].
Qed.

(** ** The [unicode] predicates *)

(** [unicode.IsSpace]: the White_Space property. *)
Definition is_space (r : Z) : bool :=
  ((9 <=? r) && (r <=? 13)) || (r =? 0x20) || (r =? 0x85) || (r =? 0xA0)
  || (r =? 0x1680) || ((0x2000 <=? r) && (r <=? 0x200a))
  || (r =? 0x2028) || (r =? 0x2029) || (r =? 0x202f) || (r =? 0x205f) || (r =? 0x3000).

(** [unicode.IsLetter] and [unicode.IsDigit]: tables L and Nd. *)
Class UnicodeTables := {
  is_letter : Z -> bool;
  is_digit : Z -> bool;
  ascii_letter : forall r, 0 <= r < 128 ->
    is_letter r = ((65 <=? r) && (r <=? 90)) || ((97 <=? r) && (r <=? 122));
  ascii_digit : forall r, 0 <= r < 128 -> is_digit r = (48 <=? r) && (r <=? 57);
  letter_scalar : forall r, is_letter r = true -> scalar r;
  digit_scalar : forall r, is_digit r = true -> scalar r;
  letter_not_space : forall r, is_letter r = true -> is_space r = false;
  digit_not_space : forall r, is_digit r = true -> is_space r = false;
}.

(** The tables restricted to Latin-1. *)
Definition latin1_letter (r : Z) : bool :=
  ((65 <=? r) && (r <=? 90)) || ((97 <=? r) && (r <=? 122))
  || (r =? 0xAA) || (r =? 0xB5) || (r =? 0xBA)
  || ((0xC0 <=? r) && (r <=? 0xD6)) || ((0xD8 <=? r) && (r <=? 0xF6))
  || ((0xF8 <=? r) && (r <=? 0xFF)).

#[export] Instance latin1 : UnicodeTables.
Proof.
  refine {| is_letter := latin1_letter;
            is_digit := fun r => (48 <=? r) && (r <=? 57) |};
    unfold latin1_letter, is_space, scalar; intros r; lia.
Defined.

(** [strings.TrimSpace], on runes. *)
Fixpoint trim_left (rs : list Z) : list Z :=
  match rs with
  | r :: t => if is_space r then trim_left t else rs
  | [] => []
  end.
Definition trim_space (rs : list Z) : list Z := rev (trim_left (rev (trim_left rs))).
