(* ===== verification/MatrixDsl.v ===== *)
(** The matrix routing DSL: lexer and recursive-descent parser
    ([internal/matrix/dsl.go]).

    A string is decoded to runes (Runes.v); the parser state ([tokens], [pos])
    is the list of the tokens from [pos] on.  [print] writes a tree back to
    DSL text; [parse_print] is the round trip.  Lexer and parser run on fuel,
    and [parseDSL] supplies enough of it for every input
    ([parseDSL_terminates]). *)

From S2P Require Import Prelude Runes.

Module Dsl.
#[local] Open Scope result_scope.

Inductive tokenType := tokIdent | tokAnd | tokOr | tokLParen | tokRParen | tokRef | tokEOF.

#[export] Instance tokenType_eq_dec : EqDecision tokenType.
Proof. solve_decision. Defined.

Record token := mkToken { typ : tokenType; val : string }.

(** [type node struct]: the [kind] field is the constructor.  The [ref] link of
    a reference is the entry of its name in the compiled program's [links]. *)
#[local] Set Warnings "-register-all".
Inductive node :=
| nodeLeaf (name : string)
| nodeRef (name : string)
| nodeAnd (children : list node)
| nodeOr (children : list node).

(** The errors of the lexer and the parser ([fmt.Errorf] messages). *)
Inductive dsl_error :=
| ErrEmptyExpression
| ErrExpectedSetName (pos : nat)
| ErrUnexpectedCharacter (ch : Z) (pos : nat)
| ErrUnexpectedAfter (val : string)
| ErrMissingParen
| ErrUnexpectedToken (val : string)
| ErrUnknownModel (set name : string)
| ErrUndefinedSet (set name : string)
| ErrNoSets
| ErrCircular (set : string).

Abbreviation res := (result dsl_error).

Section tables.
Context `{UnicodeTables}.

Definition isIdentChar (ch : Z) : bool :=
  is_letter ch || is_digit ch || (ch =? 95) || (ch =? 45) || (ch =? 46).

(** The inner loops [for i < len(runes) && isIdentChar(runes[i])]: the
    identifier at the front of the remaining runes and what follows it. *)
Fixpoint scanIdent (rs : list Z) : list Z * list Z :=
  match rs with
  | ch :: t =>
    if isIdentChar ch then let '(w, rest) := scanIdent t in (ch :: w, rest) else ([], rs)
  | [] => ([], [])
  end.

(** The loop of [tokenize] over the runes from position [i] on; [None] is out
    of fuel. *)
Fixpoint tokenize_loop (fuel : nat) (i : nat) (rs : list Z) (tokens : list token)
  : option (res (list token)) :=
  match fuel with
  | O => None
  | S fuel =>
    match rs with
    | [] => Some (Ok (tokens ++ [mkToken tokEOF ""]))
    | ch :: t =>
      if is_space ch then tokenize_loop fuel (S i) t tokens
      else if ch =? 38 then tokenize_loop fuel (S i) t (tokens ++ [mkToken tokAnd "&"])
      else if ch =? 124 then tokenize_loop fuel (S i) t (tokens ++ [mkToken tokOr "|"])
      else if ch =? 40 then tokenize_loop fuel (S i) t (tokens ++ [mkToken tokLParen "("])
      else if ch =? 41 then tokenize_loop fuel (S i) t (tokens ++ [mkToken tokRParen ")"])
      else if ch =? 43 then
        match scanIdent t with
        | ([], _) => Some (Err (ErrExpectedSetName (S i)))
        | (w, rest) =>
          tokenize_loop fuel (S i + length w) rest (tokens ++ [mkToken tokRef (string_of_runes w)])
        end
      else if negb (isIdentChar ch) then Some (Err (ErrUnexpectedCharacter ch i))
      else
        let '(w, rest) := scanIdent rs in
        tokenize_loop fuel (i + length w) rest (tokens ++ [mkToken tokIdent (string_of_runes w)])
    end
  end.

Definition tokenize (rs : list Z) : option (res (list token)) :=
  tokenize_loop (S (length rs)) 0 rs [].

(** *** The parser *)

Definition peek (p : list token) : token :=
  match p with t :: _ => t | [] => mkToken tokEOF "" end.

Definition next (p : list token) : token * list token :=
  let t := peek p in
  if decide (typ t = tokEOF) then (t, p) else (t, tail p).

(** [and_loop] and [or_loop] are the [for p.peek().typ == ...] loops. *)
Fixpoint parseOrExpr (fuel : nat) (p : list token) : option (res (node * list token)) :=
  match fuel with
  | O => None
  | S fuel =>
    match parseAndExpr fuel p with
    | None => None
    | Some (Err e) => Some (Err e)
    | Some (Ok (lhs, p)) =>
      if decide (typ (peek p) = tokOr) then
        match or_loop fuel p [lhs] with
        | None => None
        | Some (Err e) => Some (Err e)
        | Some (Ok (children, p)) => Some (Ok (nodeOr children, p))
        end
      else Some (Ok (lhs, p))
    end
  end
with or_loop (fuel : nat) (p : list token) (children : list node)
  : option (res (list node * list token)) :=
  match fuel with
  | O => None
  | S fuel =>
    if decide (typ (peek p) = tokOr) then
      match parseAndExpr fuel (snd (next p)) with
      | None => None
      | Some (Err e) => Some (Err e)
      | Some (Ok (rhs, p)) => or_loop fuel p (children ++ [rhs])
      end
    else Some (Ok (children, p))
  end
with parseAndExpr (fuel : nat) (p : list token) : option (res (node * list token)) :=
  match fuel with
  | O => None
  | S fuel =>
    match parseAtom fuel p with
    | None => None
    | Some (Err e) => Some (Err e)
    | Some (Ok (lhs, p)) =>
      if decide (typ (peek p) = tokAnd) then
        match and_loop fuel p [lhs] with
        | None => None
        | Some (Err e) => Some (Err e)
        | Some (Ok (children, p)) => Some (Ok (nodeAnd children, p))
        end
      else Some (Ok (lhs, p))
    end
  end
with and_loop (fuel : nat) (p : list token) (children : list node)
  : option (res (list node * list token)) :=
  match fuel with
  | O => None
  | S fuel =>
    if decide (typ (peek p) = tokAnd) then
      match parseAtom fuel (snd (next p)) with
      | None => None
      | Some (Err e) => Some (Err e)
      | Some (Ok (rhs, p)) => and_loop fuel p (children ++ [rhs])
      end
    else Some (Ok (children, p))
  end
with parseAtom (fuel : nat) (p : list token) : option (res (node * list token)) :=
  match fuel with
  | O => None
  | S fuel =>
    let '(t, p) := next p in
    match typ t with
    | tokIdent => Some (Ok (nodeLeaf (val t), p))
    | tokRef => Some (Ok (nodeRef (val t), p))
    | tokLParen =>
      match parseOrExpr fuel p with
      | None => None
      | Some (Err e) => Some (Err e)
      | Some (Ok (root, p)) =>
        let '(t, p) := next p in
        if decide (typ t = tokRParen) then Some (Ok (root, p))
        else Some (Err ErrMissingParen)
      end
    | _ => Some (Err (ErrUnexpectedToken (val t)))
    end
  end.

Definition parse_fuel (p : list token) : nat := 3 * length p + 3.

Definition parseDSL (input : string) : option (res node) :=
  let input := trim_space (runes_of_string input) in
  match input with
  | [] => Some (Err ErrEmptyExpression)
  | _ =>
    match tokenize input with
    | None => None
    | Some (Err e) => Some (Err e)
    | Some (Ok tokens) =>
      match parseOrExpr (parse_fuel tokens) tokens with
      | None => None
      | Some (Err e) => Some (Err e)
      | Some (Ok (root, p)) =>
        if decide (typ (peek p) = tokEOF) then Some (Ok root)
        else Some (Err (ErrUnexpectedAfter (val (peek p))))
      end
    end
  end.

(** [walk root visit], with the state the closure captures threaded through:
    [visit] sees the leaves and references in pre-order and may rename them
    (the code assigns [n.name] in place). *)
Fixpoint walk {S : Type} (visit : node -> S -> res (node * S)) (n : node) (s : S)
  : res (node * S) :=
  let walk_children :=
    fix go (cs : list node) (s : S) : res (list node * S) :=
      match cs with
      | [] => Ok ([], s)
      | c :: cs =>
        let? (c', s) := walk visit c s in
        let? (cs', s) := go cs s in
        Ok (c' :: cs', s)
      end in
  match n with
  | nodeLeaf _ | nodeRef _ => visit n s
  | nodeAnd cs => let? (cs', s) := walk_children cs s in Ok (nodeAnd cs', s)
  | nodeOr cs => let? (cs', s) := walk_children cs s in Ok (nodeOr cs', s)
  end.

(** *** Printing a tree back to DSL text

    [lvl] is the grammar level the text is read at: 0 for an OR expression, 1
    for an AND expression, 2 for an atom.  A compound tree below its own level
    is parenthesised. *)
Definition parens (b : bool) (rs : list Z) : list Z :=
  if b then [40] ++ rs ++ [41] else rs.

Definition joinZ (sep : list Z) (ls : list (list Z)) : list Z :=
  match ls with
  | [] => []
  | l :: ls => l ++ concat (map (fun l => sep ++ l) ls)
  end.

Fixpoint print (lvl : nat) (n : node) : list Z :=
  match n with
  | nodeLeaf name => runes_of_string name
  | nodeRef name => [43] ++ runes_of_string name
  | nodeAnd cs => parens (1 <? lvl)%nat (joinZ [32; 38; 32] (map (print 2) cs))
  | nodeOr cs => parens (0 <? lvl)%nat (joinZ [32; 124; 32] (map (print 1) cs))
  end.

(** Names the lexer can produce, and trees the parser can produce. *)
Definition valid_name (name : string) : Prop :=
  exists w, w <> [] /\ Forall (fun ch => isIdentChar ch = true) w /\ name = string_of_runes w.

Fixpoint wf_node (n : node) : Prop :=
  match n with
  | nodeLeaf name | nodeRef name => valid_name name
  | nodeAnd cs | nodeOr cs =>
    (2 <= length cs)%nat /\ (fix go cs := match cs with [] => True | c :: cs => wf_node c /\ go cs end) cs
  end.

(** The tokens of a tree, as [print] lays them out. *)
Definition tparens (b : bool) (ts : list token) : list token :=
  if b then [mkToken tokLParen "("] ++ ts ++ [mkToken tokRParen ")"] else ts.

Definition joinT (sep : token) (ls : list (list token)) : list token :=
  match ls with
  | [] => []
  | l :: ls => l ++ concat (map (fun l => sep :: l) ls)
  end.

Definition andT : token := mkToken tokAnd "&".
Definition orT : token := mkToken tokOr "|".

Fixpoint toks (lvl : nat) (n : node) : list token :=
  match n with
  | nodeLeaf name => [mkToken tokIdent name]
  | nodeRef name => [mkToken tokRef name]
  | nodeAnd cs => tparens (1 <? lvl)%nat (joinT andT (map (toks 2) cs))
  | nodeOr cs => tparens (0 <? lvl)%nat (joinT orT (map (toks 1) cs))
  end.

(** *** Induction on trees *)
Lemma node_ind' (P : node -> Prop) :
  (forall name, P (nodeLeaf name)) -> (forall name, P (nodeRef name)) ->
  (forall cs, Forall P cs -> P (nodeAnd cs)) -> (forall cs, Forall P cs -> P (nodeOr cs)) ->
  forall n, P n.
Proof.
  intros Hl Hr Ha Ho. fix IH 1. intros [name|name|cs|cs]; [apply Hl|apply Hr|apply Ha|apply Ho];
    (induction cs as [|c cs IHcs]; constructor; [apply IH|apply IHcs]).
Qed.

Lemma wf_children cs :
  (fix go cs := match cs with [] => True | c :: cs => wf_node c /\ go cs end) cs <-> Forall wf_node cs.
Proof. induction cs; rewrite ?Forall_cons, ?Forall_nil; naive_solver. Qed.

(** *** Fuel: more of it never changes a result *)
Lemma tokenize_mono f f' i rs acc r :
  (f <= f')%nat -> tokenize_loop f i rs acc = Some r -> tokenize_loop f' i rs acc = Some r.
Proof.
  revert f' i rs acc. induction f as [|f IH]; intros [|f'] i rs acc Hle Hr; try (lia || done).
  simpl in *. repeat case_match; eauto with lia.
Qed.

Definition parsers_mono (f : nat) : Prop :=
  forall f' p cs, (f <= f')%nat ->
  (forall r, parseOrExpr f p = Some r -> parseOrExpr f' p = Some r) /\
  (forall r, or_loop f p cs = Some r -> or_loop f' p cs = Some r) /\
  (forall r, parseAndExpr f p = Some r -> parseAndExpr f' p = Some r) /\
  (forall r, and_loop f p cs = Some r -> and_loop f' p cs = Some r) /\
  (forall r, parseAtom f p = Some r -> parseAtom f' p = Some r).

Ltac use_mono IH f' :=
  repeat match goal with
  | E : parseOrExpr ?f ?p = Some _ |- context [parseOrExpr f' ?p] =>
    rewrite (proj1 (IH f' p [] ltac:(lia)) _ E)
  | E : parseAndExpr ?f ?p = Some _ |- context [parseAndExpr f' ?p] =>
    rewrite (proj1 (proj2 (proj2 (IH f' p [] ltac:(lia)))) _ E)
  | E : parseAtom ?f ?p = Some _ |- context [parseAtom f' ?p] =>
    rewrite (proj2 (proj2 (proj2 (proj2 (IH f' p [] ltac:(lia))))) _ E)
  | E : or_loop ?f ?p ?cs = Some _ |- context [or_loop f' ?p ?cs] =>
    rewrite (proj1 (proj2 (IH f' p cs ltac:(lia))) _ E)
  | E : and_loop ?f ?p ?cs = Some _ |- context [and_loop f' ?p ?cs] =>
    rewrite (proj1 (proj2 (proj2 (proj2 (IH f' p cs ltac:(lia))))) _ E)
  end.

Lemma parse_mono f : parsers_mono f.
Proof.
  induction f as [|f IH]; intros [|f'] p cs Hle; try lia; [by repeat split|by repeat split|].
  repeat split; intros r Hr; simpl in *.
  all: repeat (case_match; simplify_eq; use_mono IH f'; try done).
Qed.

(** *** The lexer terminates *)
Lemma scanIdent_spec rs w rest :
  scanIdent rs = (w, rest) ->
  rs = w ++ rest /\ Forall (fun ch => isIdentChar ch = true) w /\
  match rest with ch :: _ => isIdentChar ch = false | [] => True end.
Proof.
  revert w rest. induction rs as [|ch rs IH]; simpl; intros w rest Heq.
  - simplify_eq. done.
  - destruct (isIdentChar ch) eqn:Hch; [|by simplify_eq].
    destruct (scanIdent rs) as [w' rest'] eqn:Hs. simplify_eq.
    destruct (IH _ _ eq_refl) as (-> & Hw & Hr). repeat split; eauto.
Qed.

Lemma tokenize_total f i rs acc :
  (length rs < f)%nat -> is_Some (tokenize_loop f i rs acc).
Proof.
  revert i rs acc. induction f as [|f IH]; intros i rs acc Hlt; [lia|]. simpl.
  destruct rs as [|ch rs]; [by eauto|]. simpl in Hlt.
  repeat (case_match; [by apply IH; lia|]).
  destruct (ch =? 43).
  - destruct (scanIdent rs) as [[|c w] rest] eqn:Hs; [by eauto|].
    apply scanIdent_spec in Hs as (-> & _). simpl in Hlt. rewrite length_app in Hlt.
    apply IH. lia.
  - destruct (isIdentChar ch) eqn:Hch; simpl; [|by eauto].
    rewrite Hch. destruct (scanIdent rs) as [w rest] eqn:Hs.
    apply scanIdent_spec in Hs as (-> & _). rewrite length_app in Hlt.
    apply IH. lia.
Qed.

(** *** The parser terminates: every atom consumes a token *)
Definition parsers_total (f : nat) : Prop :=
  forall p cs,
  ((3 * length p + 3 <= f)%nat -> exists r, parseOrExpr f p = Some r /\
     (forall n p', r = Ok (n, p') -> (length p' < length p)%nat)) /\
  ((3 * length p + 1 <= f)%nat -> exists r, or_loop f p cs = Some r /\
     (forall n p', r = Ok (n, p') -> (length p' <= length p)%nat)) /\
  ((3 * length p + 2 <= f)%nat -> exists r, parseAndExpr f p = Some r /\
     (forall n p', r = Ok (n, p') -> (length p' < length p)%nat)) /\
  ((3 * length p + 1 <= f)%nat -> exists r, and_loop f p cs = Some r /\
     (forall n p', r = Ok (n, p') -> (length p' <= length p)%nat)) /\
  ((3 * length p + 1 <= f)%nat -> exists r, parseAtom f p = Some r /\
     (forall n p', r = Ok (n, p') -> (length p' < length p)%nat)).

Lemma peek_next p :
  typ (peek p) <> tokEOF -> p = peek p :: tail p /\ next p = (peek p, tail p).
Proof.
  intros Hp. destruct p as [|t p]; [done|]. split; [done|].
  unfold next. cbn [peek] in *. by rewrite decide_False.
Qed.

Lemma next_cons t p : typ t <> tokEOF -> next (t :: p) = (t, p).
Proof. intros Ht. by destruct (peek_next (t :: p)). Qed.

Lemma next_cases p :
  (typ (peek p) = tokEOF /\ next p = (peek p, p)) \/
  (p = peek p :: tail p /\ next p = (peek p, tail p)).
Proof.
  destruct (decide (typ (peek p) = tokEOF)) as [E|E].
  - left. split; [done|]. unfold next. by rewrite decide_True.
  - right. by apply peek_next.
Qed.

Ltac ok_inv :=
  eexists; split; [reflexivity|]; intros ? ?;
  first [ discriminate | let E := fresh in intros E; injection E as <- <-; simpl in *; lia ].

Ltac use_total H :=
  let r := fresh "r" in let E := fresh "E" in let L := fresh "L" in
  destruct H as (r & E & L); [simpl in *; lia|]; rewrite E;
  destruct r as [[? ?]|?]; [specialize (L _ _ eq_refl)|ok_inv].

Lemma parse_total f : parsers_total f.
Proof.
  induction f as [|f IH]; intros p cs; [repeat split; lia|].
  repeat split; intros Hf; cbn [parseOrExpr or_loop parseAndExpr and_loop parseAtom].
  - use_total (proj1 (proj2 (proj2 (IH p [])))). case_decide; [|ok_inv].
    use_total (proj1 (proj2 (IH l [n]))). ok_inv.
  - case_decide as Hp; [|ok_inv].
    destruct (peek_next p) as [Ep ->]; [congruence|]. rewrite Ep in Hf |- *. simpl in Hf |- *.
    use_total (proj1 (proj2 (proj2 (IH (tail p) [])))).
    destruct (proj1 (proj2 (IH l (cs ++ [n])))) as (r & -> & L2); [simpl in *; lia|].
    eexists; split; [done|]. intros ? ? ->. specialize (L2 _ _ eq_refl). simpl in *. lia.
  - use_total (proj2 (proj2 (proj2 (proj2 (IH p []))))). case_decide; [|ok_inv].
    use_total (proj1 (proj2 (proj2 (proj2 (IH l [n]))))). ok_inv.
  - case_decide as Hp; [|ok_inv].
    destruct (peek_next p) as [Ep ->]; [congruence|]. rewrite Ep in Hf |- *. simpl in Hf |- *.
    use_total (proj2 (proj2 (proj2 (proj2 (IH (tail p) []))))).
    destruct (proj1 (proj2 (proj2 (proj2 (IH l (cs ++ [n])))))) as (r & -> & L2);
      [simpl in *; lia|].
    eexists; split; [done|]. intros ? ? ->. specialize (L2 _ _ eq_refl). simpl in *. lia.
  - destruct (next_cases p) as [[Ht ->]|[Ep ->]]; [rewrite Ht; ok_inv|].
    rewrite Ep in Hf |- *. simpl in Hf |- *.
    destruct (typ (peek p)); try ok_inv.
    use_total (proj1 (IH (tail p) [])).
    destruct (next_cases l) as [[_ ->]|[El ->]]; case_decide; try ok_inv.
    rewrite El in L. ok_inv.
Qed.

Lemma parseDSL_total (input : string) : is_Some (parseDSL input).
Proof.
  unfold parseDSL. destruct (trim_space _) as [|c rs]; [by eauto|].
  destruct (tokenize_total (S (length (c :: rs))) 0 (c :: rs) []) as [r Hr]; [lia|].
  unfold tokenize. rewrite Hr. destruct r as [ts|e]; [|by eauto].
  destruct (proj1 (parse_total (parse_fuel ts) ts [])) as (r & -> & _); [done|].
  destruct r as [[n p]|e]; [case_decide|]; by eauto.
Qed.

(** The lexer and the parser terminate on every input: the fuel [parseDSL]
    supplies is always enough, so it always returns a tree or an error. *)
Theorem parseDSL_terminates (input : string) : is_Some (parseDSL input).
Proof. apply parseDSL_total. Qed.

(** *** Lexing printed text *)
Lemma ident_class ch :
  isIdentChar ch = true ->
  scalar ch /\ is_space ch = false /\ (ch =? 38) = false /\ (ch =? 124) = false /\
  (ch =? 40) = false /\ (ch =? 41) = false /\ (ch =? 43) = false.
Proof.
  unfold isIdentChar. intros Hc.
  assert (scalar ch /\ is_space ch = false) as [Hs Hsp].
  { rewrite !orb_true_iff, !Z.eqb_eq in Hc. destruct Hc as [[[[Hc|Hc]| ->]| ->]| ->].
    - split; [by apply letter_scalar|by apply letter_not_space].
    - split; [by apply digit_scalar|by apply digit_not_space].
    - split; [unfold scalar; lia|done].
    - split; [unfold scalar; lia|done].
    - split; [unfold scalar; lia|done]. }
  repeat split; [done..| | | | |]; apply Z.eqb_neq; intros ->;
    rewrite ascii_letter, ascii_digit in Hc by lia; done.
Qed.

Definition stop (rs : list Z) : Prop :=
  match rs with ch :: _ => isIdentChar ch = false | [] => True end.

Definition Lexes (rs : list Z) (ts : list token) : Prop :=
  forall i acc, exists f, tokenize_loop f i rs acc = Some (Ok (acc ++ ts)).

Lemma scanIdent_app w rest :
  Forall (fun ch => isIdentChar ch = true) w -> stop rest ->
  scanIdent (w ++ rest) = (w, rest).
Proof.
  intros Hw Hr. induction Hw as [|c w Hc Hw IH]; simpl.
  - destruct rest as [|c rest]; [done|]. simpl in *. by rewrite Hr.
  - by rewrite Hc, IH.
Qed.

Lemma lex_nil : Lexes [] [mkToken tokEOF ""].
Proof. intros i acc. by exists 1%nat. Qed.

Lemma lex_skip rs ts : Lexes rs ts -> Lexes (32 :: rs) ts.
Proof. intros H0 i acc. destruct (H0 (S i) acc) as [f Hf]. by exists (S f). Qed.

Lemma lex_punct ch t rs ts :
  (ch, t) ∈ [(38, andT); (124, orT); (40, mkToken tokLParen "("); (41, mkToken tokRParen ")")] ->
  Lexes rs ts -> Lexes (ch :: rs) (t :: ts).
Proof.
  intros Hin H0 i acc. destruct (H0 (S i) (acc ++ [t])) as [f Hf]. exists (S f).
  rewrite <- app_assoc in Hf.
  repeat (apply elem_of_cons in Hin as [[= -> ->]|Hin]; [exact Hf|]).
  by apply elem_of_nil in Hin.
Qed.

Lemma lex_ident w rest ts :
  w <> [] -> Forall (fun ch => isIdentChar ch = true) w -> stop rest ->
  Lexes rest ts -> Lexes (w ++ rest) (mkToken tokIdent (string_of_runes w) :: ts).
Proof.
  intros Hne Hw Hs H0 i acc. destruct w as [|c w]; [done|].
  inversion Hw as [|? ? Hc Hw']; subst.
  destruct (ident_class c Hc) as (_ & Hsp & E1 & E2 & E3 & E4 & E5).
  set (t := mkToken tokIdent _).
  destruct (H0 (i + length (c :: w))%nat (acc ++ [t])) as [f Hf]. exists (S f).
  simpl app. cbn [tokenize_loop]. rewrite Hsp, E1, E2, E3, E4, E5, Hc. simpl negb. cbv iota.
  change (c :: w ++ rest) with ((c :: w) ++ rest). rewrite scanIdent_app by done.
  rewrite <- app_assoc in Hf. exact Hf.
Qed.

Lemma lex_ref w rest ts :
  w <> [] -> Forall (fun ch => isIdentChar ch = true) w -> stop rest ->
  Lexes rest ts -> Lexes (43 :: w ++ rest) (mkToken tokRef (string_of_runes w) :: ts).
Proof.
  intros Hne Hw Hs H0 i acc. set (t := mkToken tokRef _).
  destruct (H0 (S i + length w)%nat (acc ++ [t])) as [f Hf]. exists (S f).
  cbn [tokenize_loop]. change (is_space 43) with false. simpl Z.eqb. cbv iota.
  rewrite scanIdent_app by done. destruct w as [|c w]; [done|].
  rewrite <- app_assoc in Hf. exact Hf.
Qed.

Lemma valid_name_runes name :
  valid_name name ->
  runes_of_string name <> [] /\
  Forall (fun ch => isIdentChar ch = true) (runes_of_string name) /\
  string_of_runes (runes_of_string name) = name.
Proof.
  intros (w & Hne & Hw & ->). rewrite runes_of_string_of_runes; [done|].
  eapply Forall_impl; [exact Hw|]. intros c Hc. by apply ident_class.
Qed.

Definition lexes_at (n : node) : Prop :=
  forall lvl rest ts, stop rest -> Lexes rest ts -> Lexes (print lvl n ++ rest) (toks lvl n ++ ts).

Lemma lex_joined sep t k cs rest ts :
  (sep, t) ∈ [(38, andT); (124, orT)] -> Forall lexes_at cs -> stop rest -> Lexes rest ts ->
  Lexes (concat (map (fun l => [32; sep; 32] ++ l) (map (print k) cs)) ++ rest)
        (concat (map (fun l => t :: l) (map (toks k) cs)) ++ ts).
Proof.
  intros Hsep Hcs Hs H0. induction Hcs as [|c cs Hc Hcs IH]; simpl; [done|].
  rewrite <- !app_assoc. apply lex_skip.
  apply lex_punct; [set_solver|].
  apply lex_skip, Hc; [|exact IH]. destruct cs; simpl; [done|].
  unfold isIdentChar. by rewrite ascii_letter, ascii_digit by lia.
Qed.

Lemma lex_parens b rs ts rest us :
  (forall rest us, stop rest -> Lexes rest us -> Lexes (rs ++ rest) (ts ++ us)) ->
  stop rest -> Lexes rest us -> Lexes (parens b rs ++ rest) (tparens b ts ++ us).
Proof.
  intros H0 Hs Hr. destruct b; simpl; [|by apply H0].
  apply lex_punct; [set_solver|]. rewrite <- !app_assoc. apply H0.
  - simpl. unfold isIdentChar. by rewrite ascii_letter, ascii_digit by lia.
  - apply lex_punct; [set_solver|done].
Qed.

Lemma lex_compound b sep t k cs :
  (sep, t) ∈ [(38, andT); (124, orT)] -> (2 <= length cs)%nat -> Forall lexes_at cs ->
  forall rest us, stop rest -> Lexes rest us ->
  Lexes (parens b (joinZ [32; sep; 32] (map (print k) cs)) ++ rest)
        (tparens b (joinT t (map (toks k) cs)) ++ us).
Proof.
  intros Hsep Hlen Hcs rest us Hs Hr. apply lex_parens; [|done..]. clear rest us Hs Hr.
  intros rest us Hs Hr. destruct Hcs as [|c cs Hc Hcs]; simpl in *; [lia|].
  rewrite <- !app_assoc. apply Hc; [|by apply lex_joined].
  destruct cs; simpl in *; [lia|].
  unfold isIdentChar. by rewrite ascii_letter, ascii_digit by lia.
Qed.

Lemma lex_print n : wf_node n -> lexes_at n.
Proof.
  induction n as [name|name|cs IH|cs IH] using node_ind'; simpl; intros Hwf lvl rest ts Hs Hr.
  - apply valid_name_runes in Hwf as (Hne & Hw & E). rewrite <- E at 2. by apply lex_ident.
  - apply valid_name_runes in Hwf as (Hne & Hw & E). rewrite <- E at 2. by apply lex_ref.
  - destruct Hwf as [Hlen Hwf%wf_children]. apply lex_compound; [set_solver|done| |done..].
    rewrite Forall_forall in IH, Hwf |- *. eauto.
  - destruct Hwf as [Hlen Hwf%wf_children]. apply lex_compound; [set_solver|done| |done..].
    rewrite Forall_forall in IH, Hwf |- *. eauto.
Qed.

(** *** Parsing printed tokens *)
Definition Parses {A} (g : nat -> list token -> option (res A)) (p : list token) (r : A) : Prop :=
  exists f, g f p = Some (Ok r).

Definition parses_at (n : node) : Prop :=
  (forall k, Parses parseAtom (toks 2 n ++ k) (n, k)) /\
  (forall k, typ (peek k) <> tokAnd -> Parses parseAndExpr (toks 1 n ++ k) (n, k)) /\
  (forall k, typ (peek k) <> tokAnd -> typ (peek k) <> tokOr ->
             Parses parseOrExpr (toks 0 n ++ k) (n, k)).

Ltac mono_at f :=
  match goal with
  | E : parseAtom ?g ?p = Some ?r |- context [parseAtom f ?p] =>
    rewrite (proj2 (proj2 (proj2 (proj2 (parse_mono g f p [] ltac:(lia))))) _ E)
  | E : parseAndExpr ?g ?p = Some ?r |- context [parseAndExpr f ?p] =>
    rewrite (proj1 (proj2 (proj2 (parse_mono g f p [] ltac:(lia)))) _ E)
  | E : parseOrExpr ?g ?p = Some ?r |- context [parseOrExpr f ?p] =>
    rewrite (proj1 (parse_mono g f p [] ltac:(lia)) _ E)
  | E : and_loop ?g ?p ?cs = Some ?r |- context [and_loop f ?p ?cs] =>
    rewrite (proj1 (proj2 (proj2 (proj2 (parse_mono g f p cs ltac:(lia))))) _ E)
  | E : or_loop ?g ?p ?cs = Some ?r |- context [or_loop f ?p ?cs] =>
    rewrite (proj1 (proj2 (parse_mono g f p cs ltac:(lia))) _ E)
  end.

(** An atom that is not followed by an operator is an AND expression, and so
    on up. *)
Lemma and_of_atom p n k :
  Parses parseAtom p (n, k) -> typ (peek k) <> tokAnd -> Parses parseAndExpr p (n, k).
Proof.
  intros [f Hf] Hk. exists (S f). cbn [parseAndExpr]. rewrite Hf. by rewrite decide_False.
Qed.

Lemma or_of_and p n k :
  Parses parseAndExpr p (n, k) -> typ (peek k) <> tokOr -> Parses parseOrExpr p (n, k).
Proof.
  intros [f Hf] Hk. exists (S f). cbn [parseOrExpr]. rewrite Hf. by rewrite decide_False.
Qed.

Lemma atom_of_or p n k :
  Parses parseOrExpr p (n, mkToken tokRParen ")" :: k) ->
  Parses parseAtom (mkToken tokLParen "(" :: p) (n, k).
Proof. intros [f Hf]. exists (S f). simpl. rewrite Hf. done. Qed.

Lemma and_loop_parses cs k acc :
  Forall (fun c => forall k, Parses parseAtom (toks 2 c ++ k) (c, k)) cs ->
  typ (peek k) <> tokAnd ->
  Parses (fun f p => and_loop f p acc)
    (concat (map (fun l => andT :: l) (map (toks 2) cs)) ++ k) (acc ++ cs, k).
Proof.
  intros Hcs Hk. revert acc. induction Hcs as [|c cs Hc Hcs IH]; intros acc; simpl.
  - exists 1%nat. simpl. rewrite decide_False by done. by rewrite app_nil_r.
  - rewrite <- app_assoc. set (p := concat _ ++ k) in *.
    destruct (Hc p) as [f1 E1]. destruct (IH (acc ++ [c])) as [f2 E2].
    rewrite <- app_assoc in E2. simpl in E2.
    exists (S (f1 + f2)). cbn [and_loop]. simpl peek. simpl typ.
    rewrite decide_True by done. rewrite next_cons by done. simpl snd.
    mono_at (f1 + f2)%nat. by mono_at (f1 + f2)%nat.
Qed.

Lemma or_loop_parses cs k acc :
  Forall (fun c => forall k, typ (peek k) <> tokAnd ->
                   Parses parseAndExpr (toks 1 c ++ k) (c, k)) cs ->
  typ (peek k) <> tokAnd -> typ (peek k) <> tokOr ->
  Parses (fun f p => or_loop f p acc)
    (concat (map (fun l => orT :: l) (map (toks 1) cs)) ++ k) (acc ++ cs, k).
Proof.
  intros Hcs Hk Hk'. revert acc. induction Hcs as [|c cs Hc Hcs IH]; intros acc; simpl.
  - exists 1%nat. simpl. rewrite decide_False by done. by rewrite app_nil_r.
  - rewrite <- app_assoc. set (p := concat _ ++ k) in *.
    destruct (Hc p) as [f1 E1]; [subst p; destruct cs; simpl; done|].
    destruct (IH (acc ++ [c])) as [f2 E2].
    rewrite <- app_assoc in E2. simpl in E2.
    exists (S (f1 + f2)). cbn [or_loop]. simpl peek. simpl typ.
    rewrite decide_True by done. rewrite next_cons by done. simpl snd.
    mono_at (f1 + f2)%nat. by mono_at (f1 + f2)%nat.
Qed.

Lemma parses_leaf n t :
  toks 0 n = [t] -> toks 1 n = [t] -> toks 2 n = [t] ->
  (forall k, Parses parseAtom (t :: k) (n, k)) -> parses_at n.
Proof.
  intros E0 E1 E2 Ha. unfold parses_at. rewrite E0, E1, E2. split_and!; simpl.
  - done.
  - intros k Hk. by apply and_of_atom.
  - intros k Hk Hk'. by apply or_of_and; [apply and_of_atom|].
Qed.

Lemma parses_and cs k :
  (2 <= length cs)%nat -> Forall parses_at cs -> typ (peek k) <> tokAnd ->
  Parses parseAndExpr (joinT andT (map (toks 2) cs) ++ k) (nodeAnd cs, k).
Proof.
  intros Hlen IH Hk. destruct cs as [|c cs]; [simpl in *; lia|].
  rewrite Forall_cons in IH. destruct IH as [[IHc _] IH]. simpl. rewrite <- app_assoc.
  destruct (IHc (concat (map (fun l => andT :: l) (map (toks 2) cs)) ++ k)) as [f1 E1].
  destruct (and_loop_parses cs k [c]) as [f2 E2]; [|done|].
  { eapply Forall_impl; [exact IH|]. by intros x [Hx _]. }
  exists (S (f1 + f2)). cbn [parseAndExpr]. mono_at (f1 + f2)%nat.
  rewrite decide_True by (destruct cs; [simpl in *; lia|done]).
  by mono_at (f1 + f2)%nat.
Qed.

Lemma parses_or cs k :
  (2 <= length cs)%nat -> Forall parses_at cs ->
  typ (peek k) <> tokAnd -> typ (peek k) <> tokOr ->
  Parses parseOrExpr (joinT orT (map (toks 1) cs) ++ k) (nodeOr cs, k).
Proof.
  intros Hlen IH Hk Hk'. destruct cs as [|c cs]; [simpl in *; lia|].
  rewrite Forall_cons in IH. destruct IH as [(_ & IHc & _) IH]. simpl. rewrite <- app_assoc.
  destruct (IHc (concat (map (fun l => orT :: l) (map (toks 1) cs)) ++ k)) as [f1 E1];
    [destruct cs; simpl; done|].
  destruct (or_loop_parses cs k [c]) as [f2 E2]; [|done..|].
  { eapply Forall_impl; [exact IH|]. by intros x (_ & Hx & _). }
  exists (S (f1 + f2)). cbn [parseOrExpr]. mono_at (f1 + f2)%nat.
  rewrite decide_True by (destruct cs; [simpl in *; lia|done]).
  by mono_at (f1 + f2)%nat.
Qed.

Lemma parse_toks n : wf_node n -> parses_at n.
Proof.
  induction n as [name|name|cs IH|cs IH] using node_ind'; simpl; intros Hwf.
  - apply (parses_leaf _ (mkToken tokIdent name)); [done..|]. intros k. by exists 1%nat.
  - apply (parses_leaf _ (mkToken tokRef name)); [done..|]. intros k. by exists 1%nat.
  - destruct Hwf as [Hlen Hwf%wf_children].
    assert (Forall parses_at cs) as Hcs by (rewrite Forall_forall in *; eauto).
    split_and!; intros; simpl.
    + apply atom_of_or. rewrite <- app_assoc. apply or_of_and; [|done]. by apply parses_and.
    + by apply parses_and.
    + apply or_of_and; [|done]. by apply parses_and.
  - destruct Hwf as [Hlen Hwf%wf_children].
    assert (Forall parses_at cs) as Hcs by (rewrite Forall_forall in *; eauto).
    assert (forall k, Parses parseAtom (toks 2 (nodeOr cs) ++ k) (nodeOr cs, k)) as Ha.
    { intros k. simpl. apply atom_of_or. rewrite <- app_assoc. by apply parses_or. }
    split_and!; intros; [apply Ha|apply and_of_atom; [apply Ha|done]|by apply parses_or].
Qed.

(** *** Printed text is trimmed and made of scalars *)
Definition solid (rs : list Z) : Prop :=
  Forall scalar rs /\
  (exists c t, rs = c :: t /\ is_space c = false) /\
  (exists c t, rs = t ++ [c] /\ is_space c = false).

Lemma solid_app a b m : solid a -> solid b -> Forall scalar m -> solid (a ++ m ++ b).
Proof.
  intros (Ha & (c & t & -> & Hc) & _) (Hb & _ & (d & u & -> & Hd)) Hm.
  split_and!; [apply Forall_app; split; [done|]; apply Forall_app; by split| |].
  - by eexists _, _.
  - exists d, ((c :: t) ++ m ++ u). by rewrite !app_assoc.
Qed.

Lemma solid_ident w :
  w <> [] -> Forall (fun ch => isIdentChar ch = true) w -> solid w.
Proof.
  intros Hne Hw. split_and!.
  - eapply Forall_impl; [exact Hw|]. intros c Hc. by apply ident_class.
  - destruct Hw as [|c w Hc Hw]; [done|]. eexists _, _; split; [done|]. by apply ident_class.
  - destruct (exists_last Hne) as (w' & c & ->). exists c, w'. split; [done|].
    apply Forall_app in Hw as [_ Hw]. inversion Hw; subst. by apply ident_class.
Qed.

Lemma solid_joined sep cs :
  Forall scalar sep -> cs <> [] -> Forall solid cs -> solid (joinZ sep cs).
Proof.
  intros Hsep Hne Hcs. destruct Hcs as [|c cs Hc Hcs]; [done|]. clear Hne. simpl.
  revert c Hc. induction Hcs as [|d cs Hd Hcs IH]; intros c Hc; simpl; [by rewrite app_nil_r|].
  rewrite <- app_assoc, app_assoc, app_assoc. apply IH.
  rewrite <- app_assoc. by apply solid_app.
Qed.

Lemma solid_parens b rs : solid rs -> solid (parens b rs).
Proof.
  intros Hs. destruct b; [|done]. destruct Hs as (Hs & _).
  split_and!.
  - simpl. constructor; [unfold scalar; lia|]. apply Forall_app; split; [done|].
    constructor; [unfold scalar; lia|done].
  - by eexists _, _.
  - exists 41, (40 :: rs). done.
Qed.

Lemma print_solid n lvl : wf_node n -> solid (print lvl n).
Proof.
  revert lvl. induction n as [name|name|cs IH|cs IH] using node_ind'; simpl; intros lvl Hwf.
  - apply valid_name_runes in Hwf as (Hne & Hw & _). by apply solid_ident.
  - apply valid_name_runes in Hwf as (Hne & Hw & _).
    destruct (solid_ident _ Hne Hw) as (Hs & _ & (c & t & E & Hc)). rewrite E in *.
    split_and!; [constructor; [unfold scalar; lia|done]|by eexists _, _|].
    by exists c, (43 :: t).
  - destruct Hwf as [Hlen Hwf%wf_children]. apply solid_parens, solid_joined.
    + repeat constructor; unfold scalar; lia.
    + destruct cs; simpl in *; [lia|done].
    + apply Forall_map. rewrite Forall_forall in *. simpl. eauto.
  - destruct Hwf as [Hlen Hwf%wf_children]. apply solid_parens, solid_joined.
    + repeat constructor; unfold scalar; lia.
    + destruct cs; simpl in *; [lia|done].
    + apply Forall_map. rewrite Forall_forall in *. simpl. eauto.
Qed.

Lemma trim_solid rs : solid rs -> trim_space rs = rs.
Proof.
  intros (_ & (c & t & -> & Hc) & (d & u & E & Hd)). unfold trim_space.
  simpl. rewrite Hc, E, rev_app_distr. simpl. rewrite Hd. simpl. by rewrite rev_involutive.
Qed.

(** With the fuel the code supplies, the result is the one any run gives. *)
Lemma tokenize_at rs f r : tokenize_loop f 0 rs [] = Some r -> tokenize rs = Some r.
Proof.
  intros Hf. unfold tokenize. set (g := S (length rs)).
  destruct (tokenize_total g 0 rs []) as [r' Hr]; [lia|]. rewrite Hr.
  apply (tokenize_mono g (f + g)) in Hr; [|lia].
  apply (tokenize_mono f (f + g)) in Hf; [|lia]. congruence.
Qed.

Lemma parse_at ts f r : parseOrExpr f ts = Some r -> parseOrExpr (parse_fuel ts) ts = Some r.
Proof.
  intros Hf. set (g := parse_fuel ts).
  destruct (proj1 (parse_total g ts [])) as (r' & Hr & _); [done|]. rewrite Hr.
  apply (proj1 (parse_mono g (f + g)%nat ts [] ltac:(lia))) in Hr.
  apply (proj1 (parse_mono f (f + g)%nat ts [] ltac:(lia))) in Hf. congruence.
Qed.

(** C26. Round trip: printing any tree the grammar can denote and parsing the
    text gives the tree back, so no two trees share a spelling and
    parenthesisation and operator precedence are read the way they are
    written. *)
Theorem parse_print (n : node) :
  wf_node n -> parseDSL (string_of_runes (print 0 n)) = Some (Ok n).
Proof.
  intros Hwf. pose proof (print_solid n 0 Hwf) as Hs. unfold parseDSL.
  rewrite runes_of_string_of_runes by apply Hs. rewrite trim_solid by done.
  assert (print 0 n <> []) as Hne by (destruct Hs as (_ & (c & t & -> & _) & _); done).
  destruct (lex_print n Hwf 0%nat [] _ I lex_nil 0%nat []) as [f1 E1]. rewrite app_nil_r in E1.
  destruct (parse_toks n Hwf) as (_ & _ & Hp).
  destruct (Hp [mkToken tokEOF ""] ltac:(done) ltac:(done)) as [f2 E2].
  set (ts := toks 0 n ++ [mkToken tokEOF ""]) in *. simpl in E1.
  rewrite (tokenize_at _ _ _ E1), (parse_at _ _ _ E2).
  destruct (print 0 n); [done|]. simpl. done.
Qed.

End tables.

Definition ex_tree : node :=
  nodeOr [nodeAnd [nodeLeaf "a"; nodeOr [nodeLeaf "b.1"; nodeRef "c"]]; nodeLeaf "d"].

Example ex_text :
  string_of_runes (print 0 ex_tree) = "a & (b.1 | +c) | d"%string.
Proof. vm_compute. reflexivity. Qed.

Lemma parse_print_witness :
  wf_node ex_tree /\ parseDSL (string_of_runes (print 0 ex_tree)) = Some (Ok ex_tree).
Proof.
  assert (wf_node ex_tree) as Hwf.
  { simpl. repeat split; try lia;
      match goal with |- valid_name ?s =>
        exists (runes_of_string s); split_and!; [done|repeat constructor|done] end. }
  split; [exact Hwf|exact (parse_print ex_tree Hwf)].
Defined.
End Dsl.
