(* ===== verification/MatrixProgram.v ===== *)
(** Compiling and solving matrix programs ([internal/matrix/program.go],
    [internal/router/matrix_solver.go]): definitions.

    Pointers between expression nodes are the entries of [links] (set name to
    root).  The per-query memo tables of [evaluate] and [collect] are keyed by
    node pointer and cache a pure function of an immutable graph, so the model
    recomputes instead.  Go's iteration order over a map is the parameter
    [range]. *)

From S2P Require Import Prelude Runes MatrixDsl.

Module Matrix.
Import Dsl.
#[local] Open Scope result_scope.

(** *** Bit masks: [type bitMask []uint64] *)
Abbreviation bitMask := (list N).

Definition word (m : bitMask) (i : nat) : N := default 0%N (m !! i).

Definition bit_of (bit : nat) : N := N.shiftl 1 (N.of_nat (bit `mod` 64)).

(** [m[bit/64] & (1 << (bit%64)) != 0] *)
Definition has (m : bitMask) (bit : nat) : bool :=
  negb (N.land (word m (bit `div` 64)) (bit_of bit) =? 0)%N.

(** [m[i] &^ other[i] != 0] for some [i] is a counterexample. *)
Definition subsetOf (m other : bitMask) : bool :=
  forallb (fun i => (N.ldiff (word m i) (word other i) =? 0)%N) (seq 0 (length m)).

Definition unionMask (l r : bitMask) : bitMask :=
  (fun i => N.lor (word l i) (word r i)) <$> seq 0 (length l).

Definition zeroMask (words : nat) : bitMask := replicate words 0%N.

(** [mask[bit/64] |= 1 << (bit%64)] *)
Definition setBit (m : bitMask) (bit : nat) : bitMask :=
  alter (fun w => N.lor w (bit_of bit)) (bit `div` 64)%nat m.

Definition words_for (n : nat) : nat := ((n + 63) `div` 64)%nat.

(** *** Programs *)
Record Definition_ := mkDefinition { Name : string; DSL : string }.

Definition Resolver := string -> option string.

Record compiledSet := mkSet { cs_name : string; cs_dsl : string; root : node; support : bitMask }.

Record Program := mkProgram {
  sets : list compiledSet;
  modelBits : gmap string nat;
  words : nat;
  links : gmap string node;
}.

Record Decision_ := mkDecision {
  Evict : list string;
  TargetSet : list string;
  SetName : string;
  DecDSL : string;
  TotalCost : Z;
}.

(** *** Topological order: white = absent or 0, grey = 1, black = 2 *)
Record topo := mkTopo { tstate : gmap string Z; torder : list string }.

Fixpoint visit (fuel : nat) (deps : gmap string (list string)) (name : string) (s : topo)
  : option (result dsl_error topo) :=
  match fuel with
  | O => None
  | S fuel =>
    if get0 (tstate s) name =? 1 then Some (Err (ErrCircular name))
    else if get0 (tstate s) name =? 2 then Some (Ok s)
    else
      let s := mkTopo (<[name := 1]> (tstate s)) (torder s) in
      let visit_deps :=
        fix go (ds : list string) (s : topo) : option (result dsl_error topo) :=
          match ds with
          | [] => Some (Ok s)
          | d :: ds =>
            match visit fuel deps d s with
            | Some (Ok s) => go ds s
            | r => r
            end
          end in
      match visit_deps (default [] (deps !! name)) s with
      | Some (Ok s) => Some (Ok (mkTopo (<[name := 2]> (tstate s)) (torder s ++ [name])))
      | r => r
      end
  end.

Fixpoint topo_roots (fuel : nat) (deps : gmap string (list string)) (names : list string) (s : topo)
  : option (result dsl_error topo) :=
  match names with
  | [] => Some (Ok s)
  | name :: names =>
    if get0 (tstate s) name =? 0 then
      match visit fuel deps name s with
      | Some (Ok s) => topo_roots fuel deps names s
      | r => r
      end
    else topo_roots fuel deps names s
  end.

Definition topologicalOrder (definitions : list Definition_) (deps : gmap string (list string))
  : option (result dsl_error (list string)) :=
  match topo_roots (S (length definitions)) deps (map Name definitions) (mkTopo ∅ []) with
  | Some (Ok s) => Some (Ok (torder s))
  | Some (Err e) => Some (Err e)
  | None => None
  end.

Section compile.
Context `{UnicodeTables}.
Variable resolve : Resolver.
Variable range : gset string -> list string.

(** The closure of the first [walk]: resolve a leaf in place, check a
    reference and collect it once. *)
Definition resolve_visit (set : string) (setNames : gset string) (n : node) (refs : list string)
  : result dsl_error (node * list string) :=
  match n with
  | nodeLeaf name =>
    match resolve name with
    | None => Err (ErrUnknownModel set name)
    | Some model => Ok (nodeLeaf model, refs)
    end
  | nodeRef name =>
    if decide (name ∈ setNames) then
      Ok (n, if decide (name ∈ refs) then refs else refs ++ [name])
    else Err (ErrUndefinedSet set name)
  | _ => Ok (n, refs)
  end.

Record tables := mkTables {
  roots : gmap string node;
  dslByName : gmap string string;
  deps : gmap string (list string);
}.

(** The loop of [Compile] over the definitions: parse, resolve, record. *)
Fixpoint compile_defs (setNames : gset string) (ds : list Definition_) (t : tables)
  : option (result dsl_error tables) :=
  match ds with
  | [] => Some (Ok t)
  | d :: ds =>
    match parseDSL (DSL d) with
    | None => None
    | Some (Err e) => Some (Err e)
    | Some (Ok r) =>
      match walk (resolve_visit (Name d) setNames) r [] with
      | Err e => Some (Err e)
      | Ok (r, refs) =>
        compile_defs setNames ds
          {| roots := <[Name d := r]> (roots t);
             dslByName := <[Name d := DSL d]> (dslByName t);
             deps := <[Name d := refs]> (deps t) |}
      end
    end
  end.

(** *** Support: every model an expression can mention *)
Fixpoint collect (fuel : nat) (links : gmap string node) : node -> option (gset string) :=
  fix go (n : node) : option (gset string) :=
    match n with
    | nodeLeaf name => Some {[ name ]}
    | nodeRef name =>
      match fuel with
      | O => None
      | S fuel => match links !! name with Some r => collect fuel links r | None => None end
      end
    | nodeAnd cs | nodeOr cs =>
      (fix children (cs : list node) (models : gset string) : option (gset string) :=
         match cs with
         | [] => Some models
         | c :: cs =>
           match go c with
           | Some ms => children cs (models ∪ ms)
           | None => None
           end
         end) cs ∅
    end.

(** [for model := range setModels[i]]: a new model takes the next bit. *)
Definition add_bits (bits : gmap string nat) (ms : list string) : gmap string nat :=
  foldl (fun bits m => match bits !! m with Some _ => bits | None => <[m := size bits]> bits end)
        bits ms.

Definition support_mask (bits : gmap string nat) (words : nat) (ms : list string) : bitMask :=
  foldl (fun m model => setBit m (default 0%nat (bits !! model))) (zeroMask words) ms.

Definition computeSupport (p : Program) : option Program :=
  match mapM (fun s => collect (length (sets p)) (links p) (root s)) (sets p) with
  | None => None
  | Some setModels =>
    let bits := foldl (fun bits ms => add_bits bits (range ms)) ∅ setModels in
    let words := words_for (size bits) in
    Some {| sets := zip_with (fun s ms =>
                      mkSet (cs_name s) (cs_dsl s) (root s) (support_mask bits words (range ms)))
                    (sets p) setModels;
            modelBits := bits;
            words := words;
            links := links p |}
  end.

Definition Compile (definitions : list Definition_) : option (result dsl_error Program) :=
  match definitions with
  | [] => Some (Err ErrNoSets)
  | _ =>
    let setNames : gset string := list_to_set (map Name definitions) in
    match compile_defs setNames definitions {| roots := ∅; dslByName := ∅; deps := ∅ |} with
    | None => None
    | Some (Err e) => Some (Err e)
    | Some (Ok t) =>
      match topologicalOrder definitions (deps t) with
      | None => None
      | Some (Err e) => Some (Err e)
      | Some (Ok order) =>
        let sets := map (fun name =>
          mkSet name (default ""%string (dslByName t !! name))
                (default (nodeOr []) (roots t !! name)) []) order in
        match computeSupport (mkProgram sets ∅ 0 (roots t)) with
        | Some p => Some (Ok p)
        | None => None
        end
      end
    end
  end.

End compile.

(** *** Solving *)

(** [type witness struct]; a nil pointer is [WNil], and an inner node has the
    zero value "" for [model]. *)
Inductive witness :=
| WNil
| WNode (model : string) (left right : witness).

Record projectedState := mkState { mask : bitMask; wit : witness }.

Record evaluator := mkEvaluator { ev_bits : gmap string nat; ev_words : nat }.

Definition newEvaluator (relevant : list string) : evaluator :=
  let bits := add_bits ∅ relevant in
  {| ev_bits := bits; ev_words := words_for (size bits) |}.

Definition fullMask (e : evaluator) : bitMask :=
  foldl setBit (zeroMask (ev_words e)) (seq 0 (size (ev_bits e))).

Definition addToFrontier (states : list projectedState) (candidate : projectedState)
  : list projectedState :=
  if existsb (fun state => subsetOf (mask candidate) (mask state)) states then states
  else List.filter (fun state => negb (subsetOf (mask state) (mask candidate))) states ++ [candidate].

(** One child of an AND: every state so far combined with every state of the
    child. *)
Definition combine (states child : list projectedState) : list projectedState :=
  foldl (fun combined l =>
    foldl (fun combined r =>
      addToFrontier combined
        {| mask := unionMask (mask l) (mask r); wit := WNode "" (wit l) (wit r) |})
      combined child)
    [] states.

Fixpoint evaluate (fuel : nat) (links : gmap string node) (e : evaluator)
  : node -> option (list projectedState) :=
  fix go (n : node) : option (list projectedState) :=
    match n with
    | nodeLeaf name =>
      let m := zeroMask (ev_words e) in
      let m := match ev_bits e !! name with Some bit => setBit m bit | None => m end in
      Some [{| mask := m; wit := WNode name WNil WNil |}]
    | nodeRef name =>
      match fuel with
      | O => None
      | S fuel => match links !! name with Some r => evaluate fuel links e r | None => None end
      end
    | nodeOr cs =>
      (fix children (cs : list node) (states : list projectedState) :=
         match cs with
         | [] => Some states
         | c :: cs =>
           match go c with
           | Some ss => children cs (foldl addToFrontier states ss)
           | None => None
           end
         end) cs []
    | nodeAnd cs =>
      (fix children (cs : list node) (states : list projectedState) :=
         match cs with
         | [] => Some states
         | c :: cs =>
           match go c with
           | Some ss => children cs (combine states ss)
           | None => None
           end
         end) cs [{| mask := zeroMask (ev_words e); wit := WNil |}]
    end.

Definition eval_set (p : Program) (e : evaluator) (s : compiledSet) : option (list projectedState) :=
  evaluate (length (sets p)) (links p) e (root s).

(** [flattenWitness]: the distinct model names, sorted. *)
Fixpoint witness_models (w : witness) (models : list string) : list string :=
  match w with
  | WNil => models
  | WNode model l r =>
    let models :=
      if decide (model <> ""%string /\ model ∉ models) then models ++ [model] else models in
    witness_models r (witness_models l models)
  end.

Definition flattenWitness (w : witness) : list string := sort_strings (witness_models w []).

Definition evictionCost (costs : gmap string Z) (model : string) : Z :=
  default 1 (costs !! model).

Definition bitOf (e : evaluator) (model : string) : nat := default 0%nat (ev_bits e !! model).

(** [cost += evictionCost(...)] over the running models outside the mask, in
    Go's 64-bit [int]. *)
Definition stateCost (e : evaluator) (costs : gmap string Z) (running : list string)
    (m : bitMask) : Z :=
  foldl (fun cost model =>
    if has m (bitOf e model) then cost else i64 (cost + evictionCost costs model)) 0 running.

Record best := mkBest { bestCost : Z; bestSet : compiledSet; bestState : projectedState }.

Definition consider (e : evaluator) (costs : gmap string Z) (running : list string)
    (targetBit : nat) (s : compiledSet) (b : option best) (state : projectedState) : option best :=
  if has (mask state) targetBit then
    let cost := stateCost e costs running (mask state) in
    match b with
    | None => Some (mkBest cost s state)
    | Some b => Some (if (bestCost b <? 0) || (cost <? bestCost b) then mkBest cost s state else b)
    end
  else b.

Fixpoint solve_sets (p : Program) (e : evaluator) (costs : gmap string Z) (running : list string)
    (targetBit : nat) (globalTargetBit : option nat) (ss : list compiledSet) (b : option best)
  : option (option best) :=
  match ss with
  | [] => Some b
  | s :: ss =>
    match globalTargetBit with
    | Some g =>
      if has (support s) g then
        match eval_set p e s with
        | None => None
        | Some states =>
          solve_sets p e costs running targetBit globalTargetBit ss
            (foldl (consider e costs running targetBit s) b states)
        end
      else solve_sets p e costs running targetBit globalTargetBit ss b
    | None => solve_sets p e costs running targetBit globalTargetBit ss b
    end
  end.

Definition supportsAll (p : Program) (s : compiledSet) (models : list string) : bool :=
  forallb (fun m => match modelBits p !! m with Some bit => has (support s) bit | None => false end)
          models.

(** The common loop of [CanContainAll] and [findContaining]: the first set with
    a state that covers every model. *)
Fixpoint first_containing (p : Program) (e : evaluator) (models : list string)
    (ss : list compiledSet) : option (option compiledSet) :=
  match ss with
  | [] => Some None
  | s :: ss =>
    if supportsAll p s models then
      match eval_set p e s with
      | None => None
      | Some states =>
        if existsb (fun state => subsetOf (fullMask e) (mask state)) states then Some (Some s)
        else first_containing p e models ss
      end
    else first_containing p e models ss
  end.

Definition CanContainAll (p : Program) (models : list string) : option bool :=
  match models with
  | [] => Some true
  | _ =>
    match first_containing p (newEvaluator models) models (sets p) with
    | Some (Some _) => Some true
    | Some None => Some false
    | None => None
    end
  end.

Definition findContaining (p : Program) (models : list string) : option (string * string) :=
  match models with
  | [] => Some (""%string, ""%string)
  | _ =>
    match first_containing p (newEvaluator models) models (sets p) with
    | Some (Some s) => Some (cs_name s, cs_dsl s)
    | Some None => Some (""%string, ""%string)
    | None => None
    end
  end.

Definition contains (items : list string) (target : string) : bool :=
  existsb (fun item => String.eqb item target) items.

Definition Solve (p : Program) (target : string) (running : list string) (costs : gmap string Z)
  : option Decision_ :=
  if contains running target then
    match findContaining p running with
    | None => None
    | Some (setName, dsl) => Some (mkDecision [] running setName dsl 0)
    end
  else
    let e := newEvaluator (target :: running) in
    match solve_sets p e costs running (bitOf e target) (modelBits p !! target) (sets p) None with
    | None => None
    | Some None => Some (mkDecision running [target] "" "" 0)
    | Some (Some b) =>
      Some (mkDecision
        (List.filter (fun model => negb (has (mask (bestState b)) (bitOf e model))) running)
        (flattenWitness (wit (bestState b)))
        (cs_name (bestSet b)) (cs_dsl (bestSet b)) (bestCost b))
    end.

End Matrix.
