(* ===== verification/MatrixBase.v ===== *)
(** Two pieces of the matrix ([internal/matrix/program.go]).  The topological sort
    terminates, lists every set after the sets it refers to, and fails exactly when the
    references are cyclic.  The bit masks are sets of bit positions. *)

From S2P Require Import Prelude Runes MatrixDsl MatrixProgram.

Module Topo.
Import Dsl Matrix.

Section topo.
Variable deps : gmap string (list string).
Variable U : list string.

Definition deps_of (n : string) : list string := default [] (deps !! n).
Definition dep (n d : string) : Prop := d ∈ deps_of n.
Definition cyclic : Prop := exists n, tc dep n n.

Definition white (st : gmap string Z) (n : string) : Prop := get0 st n = 0.
Definition grey (st : gmap string Z) (n : string) : Prop := get0 st n = 1.
Definition black (st : gmap string Z) (n : string) : Prop := get0 st n = 2.

#[local] Instance white_dec st n : Decision (white st n).
Proof. unfold white. apply _. Defined.

Definition whites (st : gmap string Z) : nat := length (filter (white st) U).

(** Every name comes after the names it refers to. *)
Definition topo_sorted (order : list string) : Prop :=
  forall i n d, order !! i = Some n -> dep n d -> d ∈ take i order.

Record inv (s : topo) : Prop := {
  inv_vals : forall n, white (tstate s) n \/ grey (tstate s) n \/ black (tstate s) n;
  inv_black : forall n, black (tstate s) n <-> n ∈ torder s;
  inv_nodup : NoDup (torder s);
  inv_sorted : topo_sorted (torder s);
  inv_known : forall n, n ∈ torder s -> n ∈ U;
}.

(** What a visit does to the state: blackens, and leaves the grey path alone. *)
Record extends (s s' : topo) : Prop := {
  ext_inv : inv s';
  ext_grey : forall n, grey (tstate s') n <-> grey (tstate s) n;
  ext_black : forall n, black (tstate s) n -> black (tstate s') n;
  ext_whites : (whites (tstate s') <= whites (tstate s))%nat;
}.

Lemma extends_refl s : inv s -> extends s s.
Proof. intros. split; naive_solver. Qed.

Lemma extends_trans s1 s2 s3 : extends s1 s2 -> extends s2 s3 -> extends s1 s3.
Proof. intros [] []. split; [done|..]; [naive_solver|naive_solver|lia]. Qed.

(** Result of a search from [s]: never out of fuel, extends the state so that
    [done] is black, or exhibits a cycle. *)
Definition good (s : topo) (names : list string) (r : option (result dsl_error topo)) : Prop :=
  match r with
  | None => False
  | Some (Err _) => cyclic
  | Some (Ok s') => extends s s' /\ Forall (black (tstate s')) names
  end.

Hypothesis closed : forall n d, dep n d -> d ∈ U.

Lemma white_insert st n v m : v <> 0 -> white (<[n := v]> st) m -> white st m.
Proof.
  intros Hv. unfold white. destruct (decide (n = m)) as [->|].
  - by rewrite get0_insert_eq.
  - by rewrite get0_insert_ne.
Qed.

Lemma whites_grey st n :
  n ∈ U -> white st n -> (whites (<[n := 1%Z]> st) < whites st)%nat.
Proof.
  intros Hn Hw. apply (filter_length_lt _ _ _ n); [|done..|].
  - intros m. by apply white_insert.
  - unfold white. by rewrite get0_insert_eq.
Qed.

Lemma whites_black st n : (whites (<[n := 2%Z]> st) <= whites st)%nat.
Proof. apply filter_length_le. intros m. by apply white_insert. Qed.

Lemma whites_le st : (whites st <= length U)%nat.
Proof. apply length_filter. Qed.

Lemma inv_enter s n : inv s -> white (tstate s) n -> inv (mkTopo (<[n := 1]> (tstate s)) (torder s)).
Proof.
  intros [Hv Hb Hn Hs Hk] Hw. split; simpl; try done.
  - intros m. unfold white, grey, black in *. destruct (decide (m = n)) as [->|].
    + rewrite get0_insert_eq. auto.
    + rewrite get0_insert_ne by done. apply Hv.
  - intros m. unfold black in *. destruct (decide (m = n)) as [->|].
    + rewrite get0_insert_eq, <- Hb. unfold white in Hw. lia.
    + rewrite get0_insert_ne by done. apply Hb.
Qed.

(** Leaving [n]: its dependencies are black, so appending it keeps the order. *)
Lemma inv_leave s n :
  n ∈ U -> inv s -> grey (tstate s) n -> Forall (black (tstate s)) (deps_of n) ->
  inv (mkTopo (<[n := 2]> (tstate s)) (torder s ++ [n])).
Proof.
  intros HU [Hv Hb Hn Hs Hk] Hg Hd.
  assert (n ∉ torder s) as Hnot. { rewrite <- Hb. unfold grey, black in *. lia. }
  split; simpl.
  - intros m. unfold white, grey, black in *. destruct (decide (m = n)) as [->|].
    + rewrite get0_insert_eq. auto.
    + rewrite get0_insert_ne by done. apply Hv.
  - intros m. rewrite elem_of_app, list_elem_of_singleton. unfold black in *.
    destruct (decide (m = n)) as [->|].
    + rewrite get0_insert_eq. naive_solver.
    + rewrite get0_insert_ne by done. rewrite Hb. naive_solver.
  - apply NoDup_app. split_and!; [done|set_solver|apply NoDup_singleton].
  - intros i m d Hi Hdep. destruct (decide (i < length (torder s))%nat) as [Hlt|Hge].
    + rewrite lookup_app_l in Hi by done. rewrite take_app_le by lia. eauto.
    + rewrite lookup_app_r in Hi by lia. apply list_lookup_singleton_Some in Hi as [Hi ->].
      rewrite take_app_ge by lia. apply elem_of_app. left. apply Hb.
      rewrite Forall_forall in Hd. by apply Hd.
  - set_solver.
Qed.

Definition visit_deps fuel :=
  fix go (ds : list string) (s : topo) : option (result dsl_error topo) :=
    match ds with
    | [] => Some (Ok s)
    | d :: ds => match visit fuel deps d s with Some (Ok s) => go ds s | r => r end
    end.

Definition visit_good (fuel : nat) : Prop :=
  forall name s, inv s -> name ∈ U -> (whites (tstate s) < fuel)%nat ->
  (forall g, grey (tstate s) g -> tc dep g name) ->
  good s [name] (visit fuel deps name s).

Lemma visit_deps_good fuel ds s :
  visit_good fuel -> inv s -> (whites (tstate s) < fuel)%nat ->
  (forall g d, d ∈ ds -> grey (tstate s) g -> tc dep g d) -> (forall d, d ∈ ds -> d ∈ U) ->
  good s ds (visit_deps fuel ds s).
Proof.
  intros Hv. revert s. induction ds as [|d ds IH]; intros s Hs Hw Hg HU; simpl.
  - split; [by apply extends_refl|done].
  - assert (good s [d] (visit fuel deps d s)) as H1 by (apply Hv; set_solver).
    destruct (visit fuel deps d s) as [[s1|e]|]; simpl in *; try done.
    destruct H1 as [He Hb]. inversion Hb as [|? ? Hd _]; subst.
    assert (good s1 ds (visit_deps fuel ds s1)) as H2.
    { apply IH; [apply He|pose proof (ext_whites _ _ He); lia| |set_solver].
      intros g d' Hd' Hgr. apply (ext_grey _ _ He) in Hgr. set_solver. }
    unfold good in *. destruct (visit_deps fuel ds s1) as [[s2|e]|]; try done.
    destruct H2 as [He2 Hb2]. split; [by eapply extends_trans|].
    constructor; [|done]. by apply (ext_black _ _ He2).
Qed.

Lemma visit_total fuel : visit_good fuel.
Proof.
  induction fuel as [|fuel IH]; intros name s Hs HU Hw Hg; [lia|]. simpl.
  destruct (Z.eqb_spec (get0 (tstate s) name) 1) as [E1|N1].
  { exists name. by apply Hg. }
  destruct (Z.eqb_spec (get0 (tstate s) name) 2) as [E2|N2].
  { split; [by apply extends_refl|]. by repeat constructor. }
  assert (white (tstate s) name) as Hwh.
  { pose proof (inv_vals _ Hs name) as Hv. unfold white, grey, black in *. lia. }
  set (s1 := mkTopo (<[name := 1]> (tstate s)) (torder s)).
  assert (inv s1) as Hs1 by by apply inv_enter.
  pose proof (whites_grey (tstate s) name HU Hwh) as Hlt.
  assert (good s1 (deps_of name) (visit_deps fuel (deps_of name) s1)) as H1.
  { apply visit_deps_good; [done|done|simpl; lia| |intros d Hd; by eapply closed].
    intros g d Hd. unfold grey. simpl. destruct (decide (g = name)) as [->|].
    - intros _. by apply tc_once.
    - rewrite get0_insert_ne by done. intros Hgr. eapply tc_r; [by apply Hg|done]. }
  change (default [] (deps !! name)) with (deps_of name).
  unfold visit_deps in H1. unfold good in *.
  destruct ((fix go (ds : list string) (s : topo) {struct ds} := _) (deps_of name) s1)
    as [[s2|e]|]; try done.
  destruct H1 as [[Hi Hgr Hbl Hwt] Hb].
  assert (grey (tstate s2) name) as Hg2.
  { apply Hgr. unfold grey. simpl. by rewrite get0_insert_eq. }
  split; [split|].
  - by apply inv_leave.
  - intros n. unfold grey. simpl. specialize (Hgr n). unfold grey in *. simpl in Hgr.
    destruct (decide (n = name)) as [->|].
    + rewrite !get0_insert_eq in *. unfold white in Hwh. lia.
    + rewrite get0_insert_ne in * by done. done.
  - intros n Hn. unfold black. simpl. destruct (decide (n = name)) as [->|].
    + by rewrite get0_insert_eq.
    + rewrite get0_insert_ne by done. apply Hbl. unfold black. simpl.
      by rewrite get0_insert_ne.
  - simpl. pose proof (whites_black (tstate s2) name). simpl in Hwt. lia.
  - repeat constructor. unfold black. simpl. by rewrite get0_insert_eq.
Qed.

Lemma topo_roots_good fuel names s :
  inv s -> (whites (tstate s) < fuel)%nat -> (forall g, ~ grey (tstate s) g) ->
  (forall n, n ∈ names -> n ∈ U) ->
  good s names (topo_roots fuel deps names s).
Proof.
  revert s. induction names as [|n names IH]; intros s Hs Hw Hg HU; simpl.
  - split; [by apply extends_refl|done].
  - destruct (Z.eqb_spec (get0 (tstate s) n) 0) as [E|N].
    + assert (good s [n] (visit fuel deps n s)) as H1.
      { apply visit_total; [done|set_solver|done|]. intros g Hgr. by destruct (Hg g). }
      destruct (visit fuel deps n s) as [[s1|e]|]; simpl in *; try done.
      destruct H1 as [He Hb]. inversion Hb as [|? ? Hn _]; subst.
      assert (good s1 names (topo_roots fuel deps names s1)) as H2.
      { apply IH; [apply He|pose proof (ext_whites _ _ He); lia| |set_solver].
        intros g Hgr. by apply (Hg g), (ext_grey _ _ He). }
      unfold good in *. destruct (topo_roots fuel deps names s1) as [[s2|e]|]; try done.
      destruct H2 as [He2 Hb2]. split; [by eapply extends_trans|].
      constructor; [|done]. by apply (ext_black _ _ He2).
    + assert (black (tstate s) n) as Hb.
      { destruct (inv_vals _ Hs n) as [?|[Hgr|?]]; [done| |done]. by destruct (Hg n). }
      assert (good s names (topo_roots fuel deps names s)) as H2 by (apply IH; set_solver).
      unfold good in *. destruct (topo_roots fuel deps names s) as [[s2|e]|]; try done.
      destruct H2 as [He2 Hb2]. split; [done|]. constructor; [|done].
      by apply (ext_black _ _ He2).
Qed.

(** A sorted order has no cycle: along a path positions decrease. *)
Lemma sorted_path order n m :
  topo_sorted order -> NoDup order -> tc dep n m ->
  forall i, order !! i = Some n -> exists j, (j < i)%nat /\ order !! j = Some m.
Proof.
  intros Hs Hnd Hp. induction Hp as [n m Hd|n k m Hd Hp IH]; intros i Hi.
  - specialize (Hs i n m Hi Hd). apply list_elem_of_lookup in Hs as [j Hj].
    apply lookup_take_Some in Hj as [Hj Hlt]. eauto.
  - specialize (Hs i n k Hi Hd). apply list_elem_of_lookup in Hs as [j Hj].
    apply lookup_take_Some in Hj as [Hj Hlt]. destruct (IH j Hj) as (j' & Hlt' & Hj').
    exists j'. split; [lia|done].
Qed.

Lemma sorted_acyclic order :
  topo_sorted order -> NoDup order -> (forall n d, dep n d -> n ∈ order) -> ~ cyclic.
Proof.
  intros Hs Hnd Hin [n Hn].
  assert (n ∈ order) as Ho.
  { assert (exists d, dep n d) as [d Hd] by (inversion Hn; eauto). by eapply Hin. }
  apply list_elem_of_lookup in Ho as [i Hi].
  destruct (sorted_path order n n Hs Hnd Hn i Hi) as (j & Hlt & Hj).
  pose proof (NoDup_lookup _ _ _ _ Hnd Hi Hj). lia.
Qed.

End topo.

Lemma topologicalOrder_good (definitions : list Definition_) (deps : gmap string (list string))
    (Hclosed : forall n d, dep deps n d -> n ∈ map Name definitions /\ d ∈ map Name definitions) :
  match topologicalOrder definitions deps with
  | None => False
  | Some (Err _) => cyclic deps
  | Some (Ok order) =>
    ~ cyclic deps /\ NoDup order /\ topo_sorted deps order /\
    (forall n, n ∈ order <-> n ∈ map Name definitions)
  end.
Proof.
  set (U := map Name definitions) in *.
  assert (inv deps U (mkTopo ∅ [])) as Hi.
  { split; simpl.
    - intros n. by left.
    - intros n. unfold black. split; [done|by intros ?%elem_of_nil].
    - constructor.
    - intros i n d Hn. done.
    - by intros n ?%elem_of_nil. }
  pose proof (topo_roots_good deps U (fun n d Hd => proj2 (Hclosed n d Hd))
                (S (length definitions)) U (mkTopo ∅ []) Hi) as Hg.
  unfold topologicalOrder. fold U. unfold good in Hg.
  assert (whites U ∅ < S (length definitions))%nat as Hw.
  { pose proof (whites_le U ∅) as Hl. unfold U in *. rewrite length_map in Hl. lia. }
  specialize (Hg Hw ltac:(intros g; done) ltac:(done)).
  destruct (topo_roots _ deps U _) as [[s|e]|]; try done.
  destruct Hg as [[Hs _ _ _] Hb].
  assert (forall n, n ∈ torder s <-> n ∈ U) as Hin.
  { intros n. split; [apply (inv_known _ _ _ Hs)|]. intros Hn. apply (inv_black _ _ _ Hs).
    rewrite Forall_forall in Hb. by apply Hb. }
  split_and!; [|apply Hs|apply Hs|done].
  eapply sorted_acyclic; [apply Hs|apply Hs|]. intros n d Hd. apply Hin, (Hclosed n d Hd).
Qed.

(** [topologicalOrder] terminates on every reference graph over the defined
    names; it returns an order exactly when the references are acyclic, and the
    order lists each defined set once, after every set it refers to. *)
Theorem topologicalOrder_correct (definitions : list Definition_) (deps : gmap string (list string))
    (Hclosed : forall n d, dep deps n d -> n ∈ map Name definitions /\ d ∈ map Name definitions) :
  match topologicalOrder definitions deps with
  | None => False
  | Some (Err _) => cyclic deps
  | Some (Ok order) =>
    ~ cyclic deps /\ NoDup order /\ topo_sorted deps order /\
    (forall n, n ∈ order <-> n ∈ map Name definitions)
  end.
Proof. by apply topologicalOrder_good. Qed.

(** The diamond [d -> b, c -> a] is ordered; a two-cycle is rejected. *)
Definition ex_defs : list Definition_ :=
  [mkDefinition "d" ""; mkDefinition "b" ""; mkDefinition "c" ""; mkDefinition "a" ""].
Definition ex_deps : gmap string (list string) :=
  <["d" := ["b"; "c"]]> (<["b" := ["a"]]> (<["c" := ["a"]]> (<["a" := []]> ∅))).

Lemma topologicalOrder_correct_witness :
  topologicalOrder ex_defs ex_deps = Some (Ok ["a"; "b"; "c"; "d"]) /\ ~ cyclic ex_deps.
Proof.
  assert (topologicalOrder ex_defs ex_deps = Some (Ok ["a"; "b"; "c"; "d"])) as E
    by (vm_compute; reflexivity).
  split; [exact E|].
  assert (forall n d, dep ex_deps n d -> n ∈ map Name ex_defs /\ d ∈ map Name ex_defs) as Hc.
  { intros n d. unfold dep, deps_of, ex_deps. intros Hd.
    repeat match type of Hd with context [<[?k := _]> _ !! n] =>
      destruct (decide (n = k)) as [->|];
        [rewrite lookup_insert_eq in Hd; set_solver|rewrite lookup_insert_ne in Hd by done]
    end.
    rewrite lookup_empty in Hd. by apply elem_of_nil in Hd. }
  pose proof (topologicalOrder_correct ex_defs ex_deps Hc) as Hm. rewrite E in Hm. apply Hm.
Defined.
End Topo.

(** ** Bit masks of the matrix solver: the word-level operations of
    [type bitMask []uint64] are the set operations on bit positions. *)

Module Mask.
Import Matrix.
#[local] Open Scope nat_scope.

(** Words of a mask stay inside 64 bits. *)
Definition wf_mask (m : bitMask) : Prop := Forall (fun w => (w < 2 ^ 64)%N) m.

Lemma testbit_bit_of bit i :
  (i < 64)%N -> N.testbit (bit_of bit) i = (N.of_nat (bit `mod` 64) =? i)%N.
Proof. intros Hi. unfold bit_of. by rewrite N.shiftl_1_l, N.pow2_bits_eqb. Qed.

Lemma land_bit w k :
  negb (N.land w (N.shiftl 1 k) =? 0)%N = N.testbit w k.
Proof.
  rewrite N.shiftl_1_l. destruct (N.testbit w k) eqn:Hk.
  - apply negb_true_iff, N.eqb_neq. intros E.
    apply (f_equal (fun x => N.testbit x k)) in E.
    by rewrite N.land_spec, N.pow2_bits_true, Hk, N.bits_0 in E.
  - apply negb_false_iff, N.eqb_eq, N.bits_inj. intros i.
    rewrite N.land_spec, N.bits_0. destruct (decide (i = k)) as [->|].
    + by rewrite Hk.
    + by rewrite N.pow2_bits_false, andb_false_r by done.
Qed.

Lemma has_testbit m b : has m b = N.testbit (word m (b `div` 64)) (N.of_nat (b `mod` 64)).
Proof. unfold has, bit_of. apply land_bit. Qed.

Lemma word_out m i : length m <= i -> word m i = 0%N.
Proof. intros Hi. unfold word. by rewrite lookup_ge_None_2. Qed.

Lemma has_zero n b : has (zeroMask n) b = false.
Proof.
  rewrite has_testbit. unfold word, zeroMask.
  destruct (decide (b `div` 64 < n)).
  - by rewrite lookup_replicate_2.
  - rewrite lookup_ge_None_2; [done|rewrite length_replicate; lia].
Qed.

Lemma length_setBit m b : length (setBit m b) = length m.
Proof. apply length_alter. Qed.

Lemma has_setBit m b c :
  b `div` 64 < length m -> has (setBit m b) c = (b =? c) || has m c.
Proof.
  intros Hlen. rewrite !has_testbit. unfold word, setBit.
  destruct (decide (b `div` 64 = c `div` 64)) as [E|N].
  - rewrite <- E, list_lookup_alter_eq.
    destruct (m !! (b `div` 64)) as [w|] eqn:Hw; [|apply lookup_ge_None in Hw; lia].
    simpl. rewrite N.lor_spec, testbit_bit_of.
    2:{ pose proof (Nat.mod_upper_bound c 64 ltac:(lia)). lia. }
    rewrite orb_comm. f_equal.
    pose proof (Nat.div_mod_eq b 64). pose proof (Nat.div_mod_eq c 64).
    destruct (Nat.eqb_spec b c) as [->|]; [by rewrite N.eqb_refl|].
    apply N.eqb_neq. lia.
  - rewrite list_lookup_alter_ne by done.
    rewrite (proj2 (Nat.eqb_neq b c)) by congruence. done.
Qed.

Lemma length_union l r : length (unionMask l r) = length l.
Proof. unfold unionMask. by rewrite length_fmap, length_seq. Qed.

Lemma word_union l r i :
  length l = length r -> word (unionMask l r) i = N.lor (word l i) (word r i).
Proof.
  intros Hlen. destruct (decide (i < length l)).
  - unfold word at 1, unionMask.
    rewrite list_lookup_fmap, lookup_seq_lt by done. done.
  - by rewrite !word_out by (rewrite ?length_union; lia).
Qed.

Lemma has_union l r b :
  length l = length r -> has (unionMask l r) b = has l b || has r b.
Proof. intros Hlen. by rewrite !has_testbit, word_union, N.lor_spec. Qed.

Lemma wf_word m i : wf_mask m -> (word m i < 2 ^ 64)%N.
Proof.
  intros Hwf. unfold word. destruct (m !! i) as [w|] eqn:Hi; simpl; [|done].
  unfold wf_mask in Hwf. rewrite Forall_lookup in Hwf. eauto.
Qed.

Lemma wf_zero n : wf_mask (zeroMask n).
Proof. unfold wf_mask, zeroMask. by apply Forall_replicate. Qed.

Lemma lor_bound a b : (a < 2 ^ 64)%N -> (b < 2 ^ 64)%N -> (N.lor a b < 2 ^ 64)%N.
Proof.
  intros Ha Hb. destruct (decide (N.lor a b = 0%N)) as [->|Hne]; [done|].
  apply N.log2_lt_pow2; [lia|]. rewrite N.log2_lor.
  destruct (decide (a = 0%N)) as [->|], (decide (b = 0%N)) as [->|]; simpl; try done.
  - rewrite N.max_r by (simpl; lia). apply N.log2_lt_pow2; lia.
  - rewrite N.max_l by (simpl; lia). apply N.log2_lt_pow2; lia.
  - apply N.max_lub_lt; apply N.log2_lt_pow2; lia.
Qed.

Lemma wf_union l r : wf_mask l -> wf_mask r -> wf_mask (unionMask l r).
Proof.
  intros Hl Hr. unfold wf_mask, unionMask. apply Forall_fmap, Forall_true. intros i.
  by apply lor_bound; apply wf_word.
Qed.

Lemma bit_of_bound b : (bit_of b < 2 ^ 64)%N.
Proof.
  unfold bit_of. rewrite N.shiftl_1_l.
  pose proof (Nat.mod_upper_bound b 64 ltac:(lia)). apply N.pow_lt_mono_r; lia.
Qed.

Lemma wf_setBit m b : wf_mask m -> wf_mask (setBit m b).
Proof.
  intros Hm. unfold wf_mask, setBit. apply Forall_lookup. intros i w.
  rewrite list_lookup_alter. intros Hw. unfold wf_mask in Hm. rewrite Forall_lookup in Hm.
  case_decide; [|by eauto]. apply fmap_Some in Hw as (v & Hv & ->).
  apply lor_bound; [by eauto|apply bit_of_bound].
Qed.

(** Mask inclusion is inclusion of the bit sets. *)
Lemma subsetOf_spec m o :
  length m = length o -> wf_mask m ->
  subsetOf m o = true <-> forall b, has m b = true -> has o b = true.
Proof.
  intros Hlen Hwf. unfold subsetOf. rewrite forallb_forall. split.
  - intros H b Hb. rewrite has_testbit in *.
    destruct (decide (b `div` 64 < length m)) as [Hlt|];
      [|rewrite word_out, N.bits_0 in Hb by lia; done].
    specialize (H (b `div` 64)). rewrite in_seq, N.eqb_eq in H.
    specialize (H ltac:(lia)). apply (f_equal (fun x => N.testbit x (N.of_nat (b `mod` 64)))) in H.
    rewrite N.ldiff_spec, N.bits_0, Hb in H. simpl in H. by apply negb_false_iff in H.
  - intros H i Hi. apply in_seq in Hi. apply N.eqb_eq, N.bits_inj. intros k.
    rewrite N.ldiff_spec, N.bits_0. destruct (N.testbit (word m i) k) eqn:Hk; [|done].
    assert (k < 64)%N as Hk64.
    { apply N.nle_gt. intros Hge. pose proof (wf_word m i Hwf) as Hb.
      rewrite N.bits_above_log2 in Hk; [done|].
      destruct (decide (word m i = 0%N)) as [->|]; [simpl; lia|].
      apply N.log2_lt_pow2 in Hb; lia. }
    specialize (H (64 * i + N.to_nat k)). rewrite !has_testbit in H.
    replace ((64 * i + N.to_nat k) `div` 64) with i in H
      by (apply (Nat.div_unique _ _ _ (N.to_nat k)); lia).
    replace ((64 * i + N.to_nat k) `mod` 64) with (N.to_nat k) in H
      by (apply (Nat.mod_unique _ _ i); lia).
    rewrite N2Nat.id in H. simpl. by rewrite H.
Qed.

(** The bits below [n] fit the words the code allocates for [n] bits. *)
Lemma words_for_bound b n : b < n -> b `div` 64 < words_for n.
Proof.
  intros Hb. unfold words_for. apply Nat.Div0.div_lt_upper_bound.
  pose proof (Nat.div_mod_eq (n + 63) 64). pose proof (Nat.mod_upper_bound (n + 63) 64 ltac:(lia)). lia.
Qed.

(** *** Numbering models: a fresh model takes the next bit *)
Record wf_bits (bits : gmap string nat) : Prop := {
  bits_range : forall m b, bits !! m = Some b -> b < size bits;
  bits_inj : forall m m' b, bits !! m = Some b -> bits !! m' = Some b -> m = m';
  bits_onto : forall b, b < size bits -> exists m, bits !! m = Some b;
}.

Lemma wf_bits_empty : wf_bits ∅.
Proof. split; intros; rewrite ?lookup_empty, ?map_size_empty in *; [done|done|lia]. Qed.

Lemma wf_bits_insert bits m :
  wf_bits bits -> bits !! m = None -> wf_bits (<[m := size bits]> bits).
Proof.
  intros [Hr Hi Ho] Hm. split; rewrite ?map_size_insert_None by done.
  - intros m' b Hb. apply lookup_insert_Some in Hb as [[<- <-]|[_ Hb]]; [lia|].
    specialize (Hr _ _ Hb). lia.
  - intros m1 m2 b H1 H2.
    apply lookup_insert_Some in H1 as [[<- <-]|[? H1]];
      apply lookup_insert_Some in H2 as [[<- E]|[? H2]]; try done.
    + specialize (Hr _ _ H2). lia.
    + specialize (Hr _ _ H1). lia.
    + eauto.
  - intros b Hb. destruct (decide (b = size bits)) as [->|].
    + exists m. by rewrite lookup_insert_eq.
    + destruct (Ho b) as [m' Hm']; [lia|]. exists m'.
      rewrite lookup_insert_ne by congruence. done.
Qed.

Lemma add_bits_spec ms bits :
  wf_bits bits ->
  wf_bits (add_bits bits ms) /\
  (forall m, is_Some (add_bits bits ms !! m) <-> is_Some (bits !! m) \/ m ∈ ms).
Proof.
  unfold add_bits. revert bits. induction ms as [|x ms IH]; intros bits Hwf; simpl.
  - split; [done|]. intros m. set_solver.
  - destruct (bits !! x) as [b|] eqn:Hx.
    + destruct (IH bits Hwf) as [H1 H2]. split; [done|]. intros m. rewrite H2, elem_of_cons.
      split; [tauto|]. intros [?|[->|?]]; [by left|left; by rewrite Hx|by right].
    + destruct (IH _ (wf_bits_insert bits x Hwf Hx)) as [H1 H2]. split; [done|].
      intros m. rewrite H2, elem_of_cons, lookup_insert_is_Some.
      destruct (decide (x = m)); naive_solver.
Qed.

(** Folding [setBit] over bits sets exactly those bits. *)
Lemma setBits_spec bs m :
  Forall (fun b => b `div` 64 < length m) bs ->
  length (foldl setBit m bs) = length m /\
  (wf_mask m -> wf_mask (foldl setBit m bs)) /\
  (forall c, has (foldl setBit m bs) c = true <-> c ∈ bs \/ has m c = true).
Proof.
  revert m. induction bs as [|b bs IH]; intros m Hbs; simpl.
  - split_and!; [done|done|]. intros c. set_solver.
  - inversion Hbs as [|? ? Hb Hbs']; subst.
    destruct (IH (setBit m b)) as (H1 & H2 & H3); [by rewrite length_setBit|].
    rewrite length_setBit in H1. split_and!; [done|intros; by apply H2, wf_setBit|].
    intros c. rewrite H3, has_setBit, orb_true_iff, Nat.eqb_eq, elem_of_cons by done.
    naive_solver.
Qed.

End Mask.
