(* ===== verification/MatrixEval.v ===== *)
(** The projecting evaluator of the matrix solver against the expansion
    semantics of the DSL.

    [expands] is the family of model sets an expression denotes: the full
    Cartesian product the code avoids building.  [evaluate] keeps, for one
    query, only maximal projections onto the relevant models; [evaluate_sound]
    and [evaluate_complete] relate the two. *)

From S2P Require Import Prelude Runes MatrixDsl MatrixProgram MatrixBase.

Module Eval.
Import Dsl Matrix Mask.

(** ** What an expression denotes *)
Inductive expands (links : gmap string node) : node -> gset string -> Prop :=
| ex_leaf m : expands links (nodeLeaf m) {[ m ]}
| ex_ref name r S : links !! name = Some r -> expands links r S -> expands links (nodeRef name) S
| ex_or cs c S : c ∈ cs -> expands links c S -> expands links (nodeOr cs) S
| ex_and cs S : expands_all links cs S -> expands links (nodeAnd cs) S
with expands_all (links : gmap string node) : list node -> gset string -> Prop :=
| ex_nil : expands_all links [] ∅
| ex_cons c cs S T : expands links c S -> expands_all links cs T -> expands_all links (c :: cs) (S ∪ T).

Scheme expands_mut := Induction for expands Sort Prop
with expands_all_mut := Induction for expands_all Sort Prop.

(** ** States and the sets they stand for *)
Fixpoint in_witness (m : string) (w : witness) : Prop :=
  match w with
  | WNil => False
  | WNode model l r => (m = model /\ model <> ""%string) \/ in_witness m l \/ in_witness m r
  end.

Lemma witness_models_spec w ms m :
  m ∈ witness_models w ms <-> m ∈ ms \/ in_witness m w.
Proof.
  revert ms. induction w as [|model l IHl r IHr]; intros ms; simpl; [tauto|].
  rewrite IHr, IHl. case_decide as Hd; [set_solver|].
  destruct (decide (model = ""%string)) as [->|]; [naive_solver|].
  assert (model ∈ ms) by (destruct (decide (model ∈ ms)); tauto). naive_solver.
Qed.

Lemma witness_models_NoDup w ms : NoDup ms -> NoDup (witness_models w ms).
Proof.
  revert ms. induction w as [|model l IHl r IHr]; intros ms Hms; simpl; [done|].
  apply IHr, IHl. case_decide; [|done]. apply NoDup_app. split_and!; [done|set_solver|apply NoDup_singleton].
Qed.

(** ** The references of an expression *)
Fixpoint refs (n : node) : list string :=
  match n with
  | nodeLeaf _ => []
  | nodeRef name => [name]
  | nodeAnd cs | nodeOr cs => flat_map refs cs
  end.

Lemma refs_children cs (P : node -> Prop) (ds : list string) :
  Forall (fun c => (forall d, d ∈ refs c -> d ∈ ds) -> P c) cs ->
  (forall d, d ∈ flat_map refs cs -> d ∈ ds) -> Forall P cs.
Proof.
  intros Hcs. induction Hcs as [|c cs Hc Hcs IH]; simpl; intros Hd; constructor; set_solver.
Qed.

Section eval.
Variable links : gmap string node.
Variable e : evaluator.
Hypothesis wf_ev : wf_bits (ev_bits e).
Hypothesis wf_words : ev_words e = words_for (size (ev_bits e)).

Definition wf_state (st : projectedState) : Prop :=
  length (mask st) = ev_words e /\ wf_mask (mask st).

(** [st] projects the model set [S] and its witness lists [S]. *)
Definition represents (st : projectedState) (S : gset string) : Prop :=
  wf_state st /\
  (forall b, has (mask st) b = true <-> exists m, m ∈ S /\ ev_bits e !! m = Some b) /\
  (forall m, in_witness m (wit st) <-> m ∈ S /\ m <> ""%string).

(** A state at least as large as the projection of [S] is in the list. *)
Definition covers (sts : list projectedState) (S : gset string) : Prop :=
  exists st, st ∈ sts /\ forall m b, m ∈ S -> ev_bits e !! m = Some b -> has (mask st) b = true.

Definition dominated (m : bitMask) (sts : list projectedState) : Prop :=
  exists st, st ∈ sts /\ forall b, has m b = true -> has (mask st) b = true.

Lemma covers_dominated sts sts' S :
  (forall st, st ∈ sts -> dominated (mask st) sts') -> covers sts S -> covers sts' S.
Proof.
  intros Hd (st & Hst & Hc). destruct (Hd st Hst) as (st' & Hst' & Hs).
  exists st'. split; [done|]. intros m b Hm Hb. by eapply Hs, Hc.
Qed.

(** *** The frontier *)
Lemma frontier_sub sts c st : st ∈ addToFrontier sts c -> st ∈ sts \/ st = c.
Proof.
  unfold addToFrontier. case_match; [by left|].
  rewrite elem_of_app, list_elem_of_singleton, !list_elem_of_In, filter_In. tauto.
Qed.

Lemma frontier_wf sts c :
  Forall wf_state sts -> wf_state c -> Forall wf_state (addToFrontier sts c).
Proof.
  rewrite !Forall_forall. intros Hs Hc st [Hin| ->]%frontier_sub; auto.
Qed.

Lemma subsetOf_has s t :
  wf_state s -> wf_state t ->
  subsetOf (mask s) (mask t) = true <-> forall b, has (mask s) b = true -> has (mask t) b = true.
Proof. intros [Hs Hws] [Ht _]. apply subsetOf_spec; congruence. Qed.

Lemma frontier_dominates sts c st :
  Forall wf_state sts -> wf_state c -> st ∈ sts \/ st = c ->
  dominated (mask st) (addToFrontier sts c).
Proof.
  rewrite Forall_forall. intros Hs Hc Hst. unfold addToFrontier.
  destruct (existsb _ sts) eqn:Hex.
  - destruct Hst as [Hst| ->]; [by exists st|].
    apply existsb_exists in Hex as (t & Ht%list_elem_of_In & Hsub).
    exists t. split; [done|]. by apply subsetOf_has; auto.
  - destruct Hst as [Hst| ->]; [|by exists c; set_solver].
    destruct (subsetOf (mask st) (mask c)) eqn:Hsub.
    + exists c. split; [set_solver|]. by apply subsetOf_has; auto.
    + exists st. split; [|done]. apply elem_of_app. left.
      apply list_elem_of_In, filter_In. rewrite Hsub. by apply list_elem_of_In in Hst.
Qed.

Lemma dominated_trans m sts sts' :
  dominated m sts -> (forall st, st ∈ sts -> dominated (mask st) sts') -> dominated m sts'.
Proof.
  intros (st & Hst & Hb) Hd. destruct (Hd st Hst) as (t & Ht & Hb').
  exists t. split; [done|]. auto.
Qed.

(** Folding candidates into a frontier. *)
Lemma frontier_fold cs sts :
  Forall wf_state sts -> Forall wf_state cs ->
  Forall wf_state (foldl addToFrontier sts cs) /\
  (forall st, st ∈ foldl addToFrontier sts cs -> st ∈ sts \/ st ∈ cs) /\
  (forall st, st ∈ sts \/ st ∈ cs -> dominated (mask st) (foldl addToFrontier sts cs)).
Proof.
  revert sts. induction cs as [|c cs IH]; intros sts Hs Hc; simpl.
  - split_and!; [done|by left|]. intros st [Hst|Hst%elem_of_nil]; [by exists st|done].
  - inversion Hc as [|? ? Hc1 Hc2]; subst.
    destruct (IH (addToFrontier sts c)) as (H1 & H2 & H3); [by apply frontier_wf|done|].
    split_and!; [done| |].
    + intros st [[?| ->]%frontier_sub|?]%H2; set_solver.
    + intros st Hst. rewrite elem_of_cons in Hst.
      destruct Hst as [Hst|[->|Hst]]; [| |by apply H3; right].
      * eapply dominated_trans; [apply (frontier_dominates sts c st); auto|]. auto.
      * eapply dominated_trans; [apply (frontier_dominates sts c c); auto|]. auto.
Qed.

(** *** AND: all unions *)
Definition join (l r : projectedState) : projectedState :=
  {| mask := unionMask (mask l) (mask r); wit := WNode "" (wit l) (wit r) |}.

Lemma join_wf l r : wf_state l -> wf_state r -> wf_state (join l r).
Proof.
  intros [Hl Hwl] [Hr Hwr]. split; simpl; [by rewrite length_union|by apply wf_union].
Qed.

Lemma foldl_map {A B C} (f : A -> B -> A) (g : C -> B) l a :
  foldl (fun a c => f a (g c)) a l = foldl f a (map g l).
Proof. revert a. induction l as [|c l IH]; intros a; simpl; [done|apply IH]. Qed.

Lemma combine_flat ls rs acc :
  foldl (fun combined l => foldl (fun combined r => addToFrontier combined (join l r)) combined rs)
        acc ls
  = foldl addToFrontier acc (flat_map (fun l => map (join l) rs) ls).
Proof.
  revert acc. induction ls as [|l ls IH]; intros acc; simpl; [done|].
  rewrite IH, foldl_app. f_equal. apply (foldl_map addToFrontier (join l)).
Qed.

Lemma combine_spec ls rs :
  Forall wf_state ls -> Forall wf_state rs ->
  Forall wf_state (combine ls rs) /\
  (forall st, st ∈ combine ls rs -> exists l r, l ∈ ls /\ r ∈ rs /\ st = join l r) /\
  (forall l r, l ∈ ls -> r ∈ rs -> dominated (mask (join l r)) (combine ls rs)).
Proof.
  intros Hl Hr.
  assert (combine ls rs = foldl addToFrontier [] (flat_map (fun l => map (join l) rs) ls)) as ->
    by apply combine_flat.
  rewrite Forall_forall in Hl, Hr.
  assert (forall st, st ∈ flat_map (fun l => map (join l) rs) ls <->
            exists l r, l ∈ ls /\ r ∈ rs /\ st = join l r) as Hin.
  { intros st. rewrite list_elem_of_In, in_flat_map. split.
    - intros (l & Hl' & (r & <- & Hr')%in_map_iff). exists l, r. by rewrite !list_elem_of_In.
    - intros (l & r & Hl' & Hr' & ->). exists l. rewrite <- list_elem_of_In. split; [done|].
      apply in_map. by apply list_elem_of_In. }
  destruct (frontier_fold (flat_map (fun l => map (join l) rs) ls) []) as (H1 & H2 & H3).
  - constructor.
  - apply Forall_forall. intros st (l & r & Hl' & Hr' & ->)%Hin. apply join_wf; auto.
  - split_and!; [done| |].
    + intros st [Hst%elem_of_nil|Hst]%H2; [done|]. by apply Hin.
    + intros l r Hl' Hr'. apply H3. right. apply Hin. eauto.
Qed.

(** *** The evaluator *)
Lemma bit_fits m b : ev_bits e !! m = Some b -> (b `div` 64 < ev_words e)%nat.
Proof. intros Hb. rewrite wf_words. apply words_for_bound. by eapply bits_range. Qed.

Lemma leaf_represents name :
  represents
    {| mask := match ev_bits e !! name with
               | Some bit => setBit (zeroMask (ev_words e)) bit
               | None => zeroMask (ev_words e) end;
       wit := WNode name WNil WNil |} {[ name ]}.
Proof.
  unfold represents, wf_state. simpl. split_and!.
  - case_match; rewrite ?length_setBit; apply length_replicate.
  - case_match; [apply wf_setBit|]; apply wf_zero.
  - intros b. destruct (ev_bits e !! name) as [bit|] eqn:Hb.
    + rewrite has_setBit by (unfold zeroMask; rewrite length_replicate; by eapply bit_fits).
      rewrite has_zero, orb_false_r, Nat.eqb_eq. split.
      * intros <-. exists name. set_solver.
      * intros (m & ->%elem_of_singleton & E). congruence.
    + rewrite has_zero. split; [done|]. intros (m & ->%elem_of_singleton & E). congruence.
  - intros m. set_solver.
Qed.

Lemma join_represents l r S T :
  represents l S -> represents r T -> represents (join l r) (S ∪ T).
Proof.
  intros (Hl1 & Hl2 & Hl3) (Hr1 & Hr2 & Hr3). split_and!; [by apply join_wf| |].
  - intros b. simpl. destruct Hl1 as [Hl1 _], Hr1 as [Hr1 _].
    rewrite has_union, orb_true_iff, Hl2, Hr2 by congruence. set_solver.
  - intros m. simpl. rewrite Hl3, Hr3. set_solver.
Qed.

Lemma start_represents : represents {| mask := zeroMask (ev_words e); wit := WNil |} ∅.
Proof.
  unfold represents, wf_state; simpl. split_and!.
  - apply length_replicate.
  - apply wf_zero.
  - intros b. rewrite has_zero. set_solver.
  - set_solver.
Qed.

(** [sts] is the result of evaluating something that denotes the sets in [F]:
    every state stands for a set of [F], every set of [F] is covered. *)
Definition evaluates (sts : list projectedState) (F : gset string -> Prop) : Prop :=
  (forall st, st ∈ sts -> exists S, F S /\ represents st S) /\
  (forall S, F S -> covers sts S).

Lemma evaluates_wf sts F : evaluates sts F -> Forall wf_state sts.
Proof.
  intros [Hs _]. apply Forall_forall. intros st (S & _ & Hr & _)%Hs. done.
Qed.

Lemma evaluates_or sts ss F G :
  evaluates sts F -> evaluates ss G ->
  evaluates (foldl addToFrontier sts ss) (fun S => F S \/ G S).
Proof.
  intros HF HG. pose proof (evaluates_wf _ _ HF) as W1. pose proof (evaluates_wf _ _ HG) as W2.
  destruct (frontier_fold ss sts W1 W2) as (_ & H2 & H3).
  destruct HF as [HF1 HF2], HG as [HG1 HG2]. split.
  - intros st [Hst|Hst]%H2; [destruct (HF1 st Hst)|destruct (HG1 st Hst)]; naive_solver.
  - intros S [HS|HS].
    + apply (covers_dominated sts); auto.
    + apply (covers_dominated ss); auto.
Qed.

Lemma evaluates_and sts ss F G :
  evaluates sts F -> evaluates ss G ->
  evaluates (combine sts ss) (fun U => exists S T, F S /\ G T /\ U = S ∪ T).
Proof.
  intros HF HG. pose proof (evaluates_wf _ _ HF) as W1. pose proof (evaluates_wf _ _ HG) as W2.
  destruct (combine_spec sts ss W1 W2) as (_ & H2 & H3).
  destruct HF as [HF1 HF2], HG as [HG1 HG2]. split.
  - intros st (l & r & Hl & Hr & ->)%H2.
    destruct (HF1 l Hl) as (S & HS & Rl), (HG1 r Hr) as (T & HT & Rr).
    exists (S ∪ T). split; [eauto|]. by apply join_represents.
  - intros U (S & T & HS & HT & ->).
    destruct (HF2 S HS) as (l & Hl & Cl), (HG2 T HT) as (r & Hr & Cr).
    destruct (H3 l r Hl Hr) as (st & Hst & Hd). exists st. split; [done|].
    intros m b Hm Hb. apply Hd. simpl. rewrite Forall_forall in W1, W2.
    destruct (W1 l Hl) as [Ll _], (W2 r Hr) as [Lr _].
    rewrite has_union, orb_true_iff by congruence.
    apply elem_of_union in Hm as [Hm|Hm]; [left|right]; eauto.
Qed.

Lemma evaluates_equiv sts F G :
  (forall S, F S <-> G S) -> evaluates sts F -> evaluates sts G.
Proof.
  intros Heq [H1 H2]. split.
  - intros st Hst. destruct (H1 st Hst) as (S & HS & Hr). exists S. by rewrite <- Heq.
  - intros S HS. apply H2. by apply Heq.
Qed.

Definition or_children fuel :=
  fix children (cs : list node) (states : list projectedState) : option (list projectedState) :=
    match cs with
    | [] => Some states
    | c :: cs =>
      match evaluate fuel links e c with
      | Some ss => children cs (foldl addToFrontier states ss)
      | None => None
      end
    end.

Definition and_children fuel :=
  fix children (cs : list node) (states : list projectedState) : option (list projectedState) :=
    match cs with
    | [] => Some states
    | c :: cs =>
      match evaluate fuel links e c with
      | Some ss => children cs (combine states ss)
      | None => None
      end
    end.

Definition evaluated_at fuel (n : node) : Prop :=
  forall sts, evaluate fuel links e n = Some sts -> evaluates sts (expands links n).

Lemma or_children_spec fuel cs states sts F :
  Forall (evaluated_at fuel) cs -> evaluates states F ->
  or_children fuel cs states = Some sts ->
  evaluates sts (fun S => F S \/ exists c, c ∈ cs /\ expands links c S).
Proof.
  intros Hcs. revert states F. induction Hcs as [|c cs Hc Hcs IH]; intros states F HF; simpl.
  - intros [= <-]. eapply evaluates_equiv; [|exact HF]. set_solver.
  - destruct (evaluate fuel links e c) as [ss|] eqn:Hss; [|done]. intros Heq.
    eapply evaluates_equiv; [|eapply IH; [apply evaluates_or; [exact HF|by apply Hc]|exact Heq]].
    intros S. simpl. set_solver.
Qed.

Lemma and_children_spec fuel cs states sts F :
  Forall (evaluated_at fuel) cs -> evaluates states F ->
  and_children fuel cs states = Some sts ->
  evaluates sts (fun U => exists S T, F S /\ expands_all links cs T /\ U = S ∪ T).
Proof.
  intros Hcs. revert states F. induction Hcs as [|c cs Hc Hcs IH]; intros states F HF; simpl.
  - intros [= <-]. eapply evaluates_equiv; [|exact HF]. intros S. split.
    + intros HS. exists S, ∅. split_and!; [done|constructor|set_solver].
    + intros (S' & T & HS & HT & ->). inversion HT; subst. by rewrite union_empty_r_L.
  - destruct (evaluate fuel links e c) as [ss|] eqn:Hss; [|done]. intros Heq.
    eapply evaluates_equiv; [|eapply IH; [apply evaluates_and; [exact HF|by apply Hc]|exact Heq]].
    intros U. simpl. split.
    + intros (X & T & (S & S' & HS & HS' & ->) & HT & ->). exists S, (S' ∪ T).
      split_and!; [done|by constructor|set_solver].
    + intros (S & T & HS & HT & ->). inversion HT as [|? ? S1 T1 H1 H2]; subst.
      exists (S ∪ S1), T1. split_and!; [eauto|done|set_solver].
Qed.

Lemma evaluate_or fuel cs : evaluate fuel links e (nodeOr cs) = or_children fuel cs [].
Proof. by destruct fuel. Qed.

Lemma evaluate_and fuel cs :
  evaluate fuel links e (nodeAnd cs)
  = and_children fuel cs [{| mask := zeroMask (ev_words e); wit := WNil |}].
Proof. by destruct fuel. Qed.

Lemma evaluated_leaf fuel name : evaluated_at fuel (nodeLeaf name).
Proof.
  intros sts Heq. assert (sts = [{| mask := match ev_bits e !! name with
               | Some bit => setBit (zeroMask (ev_words e)) bit
               | None => zeroMask (ev_words e) end;
       wit := WNode name WNil WNil |}]) as -> by (destruct fuel; by injection Heq as <-).
  split.
  - intros st ->%list_elem_of_singleton. eexists; split; [constructor|apply leaf_represents].
  - intros S HS. inversion HS; subst. eexists; split; [by apply list_elem_of_singleton|].
    intros m b ->%elem_of_singleton Hb. apply (leaf_represents name). exists name. set_solver.
Qed.

Lemma evaluated_or fuel cs : Forall (evaluated_at fuel) cs -> evaluated_at fuel (nodeOr cs).
Proof.
  intros Hcs sts. rewrite evaluate_or. intros Heq.
  apply (or_children_spec _ cs _ sts (fun _ => False)) in Heq; [|done|].
  - eapply evaluates_equiv; [|exact Heq]. intros S; split.
    + intros [[]|(c & Hc & HS)]. by econstructor.
    + inversion 1; subst; right; eauto.
  - split; [by intros st ?%elem_of_nil|done].
Qed.

Lemma evaluated_and fuel cs : Forall (evaluated_at fuel) cs -> evaluated_at fuel (nodeAnd cs).
Proof.
  intros Hcs sts. rewrite evaluate_and. intros Heq.
  apply (and_children_spec _ cs _ sts (fun S => S = ∅)) in Heq; [|done|].
  - eapply evaluates_equiv; [|exact Heq]. intros S; split.
    + intros (? & T & -> & HT & ->). rewrite union_empty_l_L. by constructor.
    + inversion 1; subst. exists ∅, S. split_and!; [done|done|set_solver].
  - split.
    + intros st ->%list_elem_of_singleton. exists ∅. split; [done|apply start_represents].
    + intros S ->. eexists; split; [by apply list_elem_of_singleton|set_solver].
Qed.

(** The evaluator returns maximal projections of the denoted sets. *)
Lemma evaluate_spec fuel n : evaluated_at fuel n.
Proof.
  revert n. induction fuel as [|fuel IHf]; induction n as [name|name|cs IH|cs IH] using node_ind';
    auto using evaluated_leaf, evaluated_or, evaluated_and; intros sts; simpl; [done|].
  destruct (links !! name) as [r|] eqn:Hr; [|done]. intros Hev.
  eapply evaluates_equiv; [|by apply (IHf r)]. intros S. split.
  - intros. by econstructor.
  - inversion 1; congruence.
Qed.

(** *** Termination: references point down a well-founded order *)
(** [order] lists the sets so that each refers only to earlier ones. *)
Definition ordered (order : list string) : Prop :=
  forall i name, order !! i = Some name ->
  exists r, links !! name = Some r /\ forall d, d ∈ refs r -> d ∈ take i order.

Lemma or_children_total fuel cs sts :
  Forall (fun c => is_Some (evaluate fuel links e c)) cs -> is_Some (or_children fuel cs sts).
Proof using Type.
  intros Hcs. revert sts. induction Hcs as [|c cs [ss Hc] Hcs IH]; intros sts; simpl; [by eauto|].
  rewrite Hc. apply IH.
Qed.

Lemma and_children_total fuel cs sts :
  Forall (fun c => is_Some (evaluate fuel links e c)) cs -> is_Some (and_children fuel cs sts).
Proof using Type.
  intros Hcs. revert sts. induction Hcs as [|c cs [ss Hc] Hcs IH]; intros sts; simpl; [by eauto|].
  rewrite Hc. apply IH.
Qed.

Lemma evaluate_total order fuel i n :
  ordered order -> (i <= fuel)%nat -> (forall d, d ∈ refs n -> d ∈ take i order) ->
  is_Some (evaluate fuel links e n).
Proof using Type.
  clear wf_ev wf_words. intros Ho. revert i n. induction fuel as [|fuel IHf]; intros i n Hi Hn;
    induction n as [name|name|cs IH|cs IH] using node_ind'; try (simpl; by eauto).
  - assert (i = 0%nat) as -> by lia. specialize (Hn name). simpl in Hn. set_solver.
  - rewrite evaluate_and. apply and_children_total. by eapply refs_children.
  - rewrite evaluate_or. apply or_children_total. by eapply refs_children.
  - assert (name ∈ take i order) as Hin by (apply Hn; set_solver).
    apply list_elem_of_lookup in Hin as [j Hj]. apply lookup_take_Some in Hj as [Hj Hlt].
    destruct (Ho j name Hj) as (r & Hr & Hd). simpl. rewrite Hr.
    apply (IHf j); [lia|done].
  - rewrite evaluate_and. apply and_children_total. by eapply refs_children.
  - rewrite evaluate_or. apply or_children_total. by eapply refs_children.
Qed.

End eval.
End Eval.
