(* ===== verification/MatrixSolve.v ===== *)
(** Correctness of [Compile], [Solve] and [CanContainAll]
    ([internal/matrix/program.go]): compiled programs are well-founded, a
    decision is a cheapest one over the full expansion of every set, and
    containment queries are exact. *)

From S2P Require Import Prelude Runes MatrixDsl MatrixProgram MatrixBase MatrixEval.

Module Solve.
Import Dsl Matrix Topo Mask Eval.

(** ** Compiled programs *)
Record wf_program (p : Program) : Prop := {
  wp_order : ordered (links p) (map cs_name (sets p));
  wp_root : forall s, s ∈ sets p -> links p !! cs_name s = Some (root s);
  wp_support : forall s S m, s ∈ sets p -> expands (links p) (root s) S -> m ∈ S ->
    exists g, modelBits p !! m = Some g /\ has (support s) g = true;
}.

Section compile.
Context `{UnicodeTables}.
Variable resolve : Resolver.
Variable range : gset string -> list string.
Hypothesis range_spec : forall s x, x ∈ range s <-> x ∈ s.

(** *** The first walk: what it collects is what the tree refers to *)
Definition walk_children set names :=
  fix go (cs : list node) (s : list string) : result dsl_error (list node * list string) :=
    match cs with
    | [] => Ok ([], s)
    | c :: cs =>
      rbind (walk (resolve_visit resolve set names) c s) (fun '(c', s) =>
      rbind (go cs s) (fun '(cs', s) => Ok (c' :: cs', s)))
    end.

Definition walked set names (n : node) : Prop :=
  forall s n' s', walk (resolve_visit resolve set names) n s = Ok (n', s') ->
  (forall d, d ∈ s' <-> d ∈ s \/ d ∈ refs n') /\ (forall d, d ∈ refs n' -> d ∈ names).

Lemma walk_children_spec set names cs s cs' s' :
  Forall (walked set names) cs -> walk_children set names cs s = Ok (cs', s') ->
  (forall d, d ∈ s' <-> d ∈ s \/ d ∈ flat_map refs cs') /\ (forall d, d ∈ flat_map refs cs' -> d ∈ names).
Proof.
  intros Hcs. revert s cs' s'. induction Hcs as [|c cs Hc Hcs IH]; intros s cs' s'; simpl.
  - intros [= <- <-]. set_solver.
  - intros ([c1 s1] & H1 & ([cs1 s2] & H2 & [= <- <-])%rbind_Ok)%rbind_Ok.
    apply Hc in H1 as [H1 H1']. apply IH in H2 as [H2 H2']. simpl. split; intros d.
    + rewrite H2, H1, elem_of_app. tauto.
    + intros [?|?]%elem_of_app; eauto.
Qed.

Lemma walk_spec set names n : walked set names n.
Proof.
  induction n as [name|name|cs IH|cs IH] using node_ind'; intros s n' s'; simpl.
  - destruct (resolve name); [|done]. intros [= <- <-]. set_solver.
  - case_decide; [|done]. intros [= <- <-]. simpl. case_decide; set_solver.
  - intros ([cs' s1] & H1 & [= <- <-])%rbind_Ok.
    by apply (walk_children_spec set names cs s cs' s1).
  - intros ([cs' s1] & H1 & [= <- <-])%rbind_Ok.
    by apply (walk_children_spec set names cs s cs' s1).
Qed.

(** *** The definition loop *)
Record wf_tables (names : gset string) (t : tables) : Prop := {
  wt_refs : forall n r, roots t !! n = Some r ->
    exists ds, deps t !! n = Some ds /\ (forall d, d ∈ ds <-> d ∈ refs r) /\
               (forall d, d ∈ refs r -> d ∈ names);
  wt_dom : forall n, is_Some (deps t !! n) <-> is_Some (roots t !! n);
}.

Lemma compile_defs_spec names ds t :
  wf_tables names t ->
  match compile_defs resolve names ds t with
  | None => False
  | Some (Err _) => True
  | Some (Ok t') => wf_tables names t' /\
      forall n, is_Some (roots t' !! n) <-> is_Some (roots t !! n) \/ n ∈ map Name ds
  end.
Proof.
  revert t. induction ds as [|d ds IH]; intros t Ht; simpl; [set_solver|].
  destruct (parseDSL_total (DSL d)) as [r Hr]. rewrite Hr.
  destruct r as [r|e]; [|done].
  destruct (walk _ r []) as [[r' rs]|e] eqn:Hw; [|done].
  apply walk_spec in Hw as [Hw1 Hw2].
  set (t1 := {| roots := _ |}). assert (wf_tables names t1) as Ht1.
  { destruct Ht as [Hr1 Hd]. subst t1. split; simpl.
    - intros n r0. destruct (decide (Name d = n)) as [<-|].
      + rewrite !lookup_insert_eq. intros [= <-]. exists rs.
        split_and!; [done| |done]. intros d0. rewrite Hw1, elem_of_nil. tauto.
      + rewrite !lookup_insert_ne by done. eauto.
    - intros n. rewrite !lookup_insert_is_Some, Hd. tauto. }
  specialize (IH t1 Ht1). destruct (compile_defs _ _ _ _) as [[t2|e]|]; try done.
  destruct IH as [H1 H2]. split; [done|]. intros n. rewrite H2. subst t1. simpl.
  rewrite lookup_insert_is_Some, elem_of_cons. destruct (decide (Name d = n)); naive_solver.
Qed.

(** *** Support *)
Definition collect_children links fuel :=
  fix children (cs : list node) (models : gset string) : option (gset string) :=
    match cs with
    | [] => Some models
    | c :: cs =>
      match collect fuel links c with
      | Some ms => children cs (models ∪ ms)
      | None => None
      end
    end.

Lemma collect_compound links fuel cs :
  collect fuel links (nodeAnd cs) = collect_children links fuel cs ∅ /\
  collect fuel links (nodeOr cs) = collect_children links fuel cs ∅.
Proof. by destruct fuel. Qed.

Definition collected links fuel n : Prop :=
  forall ms S, collect fuel links n = Some ms -> expands links n S -> S ⊆ ms.

Lemma collect_children_spec links fuel cs models ms :
  Forall (collected links fuel) cs -> collect_children links fuel cs models = Some ms ->
  models ⊆ ms /\ (forall c S, c ∈ cs -> expands links c S -> S ⊆ ms) /\
  (forall T, expands_all links cs T -> T ⊆ ms).
Proof.
  intros Hcs. revert models. induction Hcs as [|c cs Hc Hcs IH]; intros models; simpl.
  - intros [= <-]. split_and!; [done|by intros ? ? ?%elem_of_nil|].
    intros T HT. inversion HT; subst. set_solver.
  - destruct (collect fuel links c) as [mc|] eqn:Emc; [|done].
    intros (H1 & H2 & H3)%IH. split_and!.
    + set_solver.
    + intros c' S [->|Hc']%elem_of_cons HS; [|by eauto].
      specialize (Hc mc S Emc HS). set_solver.
    + intros T HT. inversion HT as [|? ? S T' HS HT']; subst.
      specialize (Hc mc S Emc HS). specialize (H3 T' HT'). set_solver.
Qed.

Lemma collect_covers links fuel n : collected links fuel n.
Proof.
  revert n. induction fuel as [|fuel IHf]; induction n as [name|name|cs IH|cs IH] using node_ind';
    intros ms S Hc HS; inversion HS; subst;
    rewrite ?(proj1 (collect_compound _ _ _)), ?(proj2 (collect_compound _ _ _)) in Hc;
    try (destruct (collect_children_spec _ _ _ _ _ IH Hc) as (_ & K1 & K2); by eauto);
    simpl in Hc.
  - by injection Hc as <-.
  - done.
  - by injection Hc as <-.
  - simplify_option_eq. by eapply IHf.
Qed.

Lemma collect_children_total links fuel cs models :
  Forall (fun c => is_Some (collect fuel links c)) cs ->
  is_Some (collect_children links fuel cs models).
Proof.
  intros Hcs. revert models. induction Hcs as [|c cs [ms Hc] Hcs IH]; intros models; simpl;
    [by eauto|]. rewrite Hc. apply IH.
Qed.

Lemma collect_total links order fuel i n :
  ordered links order -> (i <= fuel)%nat -> (forall d, d ∈ refs n -> d ∈ take i order) ->
  is_Some (collect fuel links n).
Proof.
  intros Ho. revert i n. induction fuel as [|fuel IHf]; intros i n Hi Hn;
    induction n as [name|name|cs IH|cs IH] using node_ind';
    rewrite ?(proj1 (collect_compound _ _ _)), ?(proj2 (collect_compound _ _ _)); try (simpl; by eauto).
  - assert (i = 0%nat) as -> by lia. specialize (Hn name). simpl in Hn. set_solver.
  - apply collect_children_total. by eapply refs_children.
  - apply collect_children_total. by eapply refs_children.
  - assert (name ∈ take i order) as Hin by (apply Hn; set_solver).
    apply list_elem_of_lookup in Hin as [j Hj]. apply lookup_take_Some in Hj as [Hj Hlt].
    destruct (Ho j name Hj) as (r & Hr & Hd). simpl. rewrite Hr.
    apply (IHf j); [lia|done].
  - apply collect_children_total. by eapply refs_children.
  - apply collect_children_total. by eapply refs_children.
Qed.

Lemma fold_bits_spec mss bits :
  wf_bits bits ->
  wf_bits (foldl (fun bits ms => add_bits bits (range ms)) bits mss) /\
  (forall m, is_Some (bits !! m) \/ (exists ms, ms ∈ mss /\ m ∈ ms) ->
     is_Some (foldl (fun bits ms => add_bits bits (range ms)) bits mss !! m)).
Proof.
  revert bits. induction mss as [|ms mss IH]; intros bits Hb; simpl.
  - split; [done|]. intros m [?|(ms & ?%elem_of_nil & _)]; done.
  - destruct (add_bits_spec (range ms) bits Hb) as [H1 H2].
    destruct (IH _ H1) as [H3 H4]. split; [done|]. intros m Hm. apply H4. rewrite H2, range_spec.
    destruct Hm as [?|(ms' & [->|?]%elem_of_cons & ?)]; eauto.
Qed.

Lemma support_mask_spec bits ms m b :
  wf_bits bits -> (forall x, x ∈ ms -> is_Some (bits !! x)) -> m ∈ ms -> bits !! m = Some b ->
  has (support_mask bits (words_for (size bits)) ms) b = true.
Proof.
  intros Hb Hms Hm Hbit. unfold support_mask. rewrite (foldl_map setBit (fun x => default 0%nat (bits !! x))).
  apply setBits_spec.
  - apply Forall_map, Forall_forall. intros x Hx. destruct (Hms x Hx) as [c Hc]. rewrite Hc. simpl.
    unfold zeroMask. rewrite length_replicate. apply words_for_bound. by eapply bits_range.
  - left. apply list_elem_of_In, in_map_iff. exists m. rewrite Hbit. split; [done|].
    by apply list_elem_of_In.
Qed.

Lemma computeSupport_spec p :
  ordered (links p) (map cs_name (sets p)) ->
  (forall s, s ∈ sets p -> links p !! cs_name s = Some (root s)) ->
  exists p', computeSupport range p = Some p' /\ wf_program p'.
Proof.
  intros Ho Hroot. unfold computeSupport.
  assert (is_Some (mapM (fun s => collect (length (sets p)) (links p) (root s)) (sets p))) as [mss Hmss].
  { apply mapM_is_Some_2, Forall_forall. intros s Hs. apply list_elem_of_lookup in Hs as [i Hi].
    destruct (Ho i (cs_name s)) as (r & Hr & Hd).
    { by rewrite lookup_map, Hi. }
    rewrite Hroot in Hr by (by eapply list_elem_of_lookup_2). simplify_eq.
    eapply (collect_total _ _ _ i); [done| |done].
    apply lookup_lt_Some in Hi. lia. }
  rewrite Hmss. eexists; split; [reflexivity|]. apply mapM_Some in Hmss.
  destruct (fold_bits_spec mss ∅ wf_bits_empty) as [Hb Hdom].
  set (bits := foldl _ ∅ mss) in *.
  set (mk := fun s ms => mkSet (cs_name s) (cs_dsl s) (root s) _).
  assert (map cs_name (zip_with mk (sets p) mss) = map cs_name (sets p)) as Enames.
  { clearbody bits. clear Hb Hdom. induction Hmss as [|s0 ms ss mss' _ _ IH]; simpl; [done|]. by rewrite IH. }
  assert (forall s, s ∈ zip_with mk (sets p) mss -> exists s0 ms, s = mk s0 ms /\ s0 ∈ sets p /\
            ms ∈ mss /\ collect (length (sets p)) (links p) (root s0) = Some ms) as Hin.
  { intros s Hs. apply list_elem_of_lookup in Hs as [i Hi].
    apply lookup_zip_with_Some in Hi as (s0 & ms & -> & H1 & H2). exists s0, ms.
    split; [done|]. split; [by eapply list_elem_of_lookup_2|].
    split; [by eapply list_elem_of_lookup_2|].
    exact (Forall2_lookup_lr _ _ _ i _ _ Hmss H1 H2). }
  split; simpl.
  - by rewrite Enames.
  - intros s (s0 & ms & -> & H1 & _)%Hin. exact (Hroot s0 H1).
  - intros s S m (s0 & ms & -> & H1 & H2 & H3)%Hin HS Hm. simpl in *.
    assert (m ∈ ms) as Hms by exact (collect_covers _ _ _ _ _ H3 HS m Hm).
    destruct (Hdom m) as [b Hbit]; [by eauto|]. exists b. split; [done|].
    apply (support_mask_spec bits _ m); [done| |by apply range_spec|done].
    intros x Hx%range_spec. apply Hdom. eauto.
Qed.

(** *** [Compile] *)
Lemma Compile_good definitions :
  match Compile resolve range definitions with
  | None => False
  | Some (Err _) => True
  | Some (Ok p) => wf_program p
  end.
Proof.
  unfold Compile. destruct definitions as [|d ds]; [done|]. set (defs := d :: ds) in *.
  set (names := list_to_set (map Name defs) : gset string).
  set (t0 := {| roots := ∅; dslByName := ∅; deps := ∅ |}).
  assert (wf_tables names t0) as Ht0.
  { split; simpl; [done|]. intros n. by rewrite !lookup_empty. }
  pose proof (compile_defs_spec names defs t0 Ht0) as Hc.
  destruct (compile_defs resolve names defs t0) as [[t|e]|]; try done.
  destruct Hc as [[Hrefs Hdom] Hnames].
  assert (forall n x, dep (deps t) n x -> n ∈ map Name defs /\ x ∈ map Name defs) as Hcl.
  { intros n x. unfold dep, deps_of. destruct (deps t !! n) as [l|] eqn:Hl; simpl; [|set_solver].
    intros Hx. destruct (proj1 (Hdom n)) as [r Hr]; [by eauto|].
    destruct (Hrefs n r Hr) as (l' & Hl' & Hd1 & Hd2). simplify_eq. split.
    - destruct (proj1 (Hnames n)) as [H0|H0]; [by eauto| |done]. simpl in H0.
      rewrite lookup_empty in H0. by destruct H0.
    - apply Hd1, Hd2 in Hx. unfold names in Hx. by apply elem_of_list_to_set in Hx. }
  pose proof (topologicalOrder_good defs (deps t) Hcl) as Ht.
  destruct (topologicalOrder defs (deps t)) as [[order|e]|]; try done.
  destruct Ht as (_ & Hnd & Hsorted & Hord).
  set (mk := fun name => mkSet name _ _ _).
  assert (map cs_name (map mk order) = order) as Enames.
  { rewrite map_map. apply map_id. }
  assert (forall n, n ∈ order -> is_Some (roots t !! n)) as Hsome.
  { intros n Hn. apply Hnames. right. by apply Hord. }
  destruct (computeSupport_spec (mkProgram (map mk order) ∅ 0 (roots t))) as (p' & -> & Hp'); simpl.
  - rewrite Enames. intros i n Hi. destruct (Hsome n) as [r Hr]; [by eapply list_elem_of_lookup_2|].
    exists r. split; [done|]. intros x Hx. apply (Hsorted i n); [done|].
    destruct (Hrefs n r Hr) as (l & Hl & Hd1 & _). unfold dep, deps_of. rewrite Hl. simpl.
    by apply Hd1.
  - intros s Hs. apply elem_of_map in Hs as (n & Hn & ->).
    simpl. destruct (Hsome n Hn) as [r ->]. done.
  - done.
Qed.

End compile.

(** ** Queries on a compiled program *)
Section solve.
Variable p : Program.
Hypothesis wf : wf_program p.

(** [S] is one of the model sets that the set [s] of the program allows. *)
Definition allows (s : compiledSet) (S : gset string) : Prop :=
  s ∈ sets p /\ expands (links p) (root s) S.

Lemma eval_set_total e s : s ∈ sets p -> is_Some (eval_set p e s).
Proof.
  intros Hs. apply list_elem_of_lookup in Hs as [i Hi].
  destruct (wp_order p wf i (cs_name s)) as (r & Hr & Hd).
  { by rewrite lookup_map, Hi. }
  rewrite (wp_root p wf) in Hr by (by eapply list_elem_of_lookup_2). simplify_eq.
  apply (evaluate_total _ e (map cs_name (sets p)) _ i); [apply wf| |done].
  apply lookup_lt_Some in Hi. lia.
Qed.

Lemma newEvaluator_wf relevant :
  wf_bits (ev_bits (newEvaluator relevant)) /\
  ev_words (newEvaluator relevant) = words_for (size (ev_bits (newEvaluator relevant))) /\
  forall m, m ∈ relevant -> is_Some (ev_bits (newEvaluator relevant) !! m).
Proof.
  destruct (add_bits_spec relevant ∅ wf_bits_empty) as [H1 H2]. split_and!; [done|done|].
  intros m Hm. apply H2. by right.
Qed.

(** What the states of a set stand for. *)
Lemma eval_set_spec relevant s states :
  s ∈ sets p -> eval_set p (newEvaluator relevant) s = Some states ->
  evaluates (newEvaluator relevant) states (allows s).
Proof.
  intros Hs Hev. destruct (newEvaluator_wf relevant) as (H1 & H2 & _).
  eapply evaluates_equiv;
    [|exact (evaluate_spec (links p) _ H1 H2 (length (sets p)) (root s) states Hev)].
  intros S. unfold allows. tauto.
Qed.

Lemma represents_bit relevant st S m :
  represents (newEvaluator relevant) st S -> m ∈ relevant ->
  has (mask st) (bitOf (newEvaluator relevant) m) = true <-> m ∈ S.
Proof.
  intros (_ & Hb & _) Hm. destruct (newEvaluator_wf relevant) as (H1 & _ & H3).
  destruct (H3 m Hm) as [b Hbm]. unfold bitOf. rewrite Hbm. simpl. rewrite Hb. split.
  - intros (m' & Hm' & Hb'). by rewrite (bits_inj _ H1 m m' b).
  - eauto.
Qed.

Lemma covers_bit relevant states S :
  covers (newEvaluator relevant) states S ->
  exists st, st ∈ states /\ forall m, m ∈ relevant -> m ∈ S ->
    has (mask st) (bitOf (newEvaluator relevant) m) = true.
Proof.
  intros (st & Hst & Hc). exists st. split; [done|]. intros m Hm HS.
  destruct (newEvaluator_wf relevant) as (_ & _ & H3). destruct (H3 m Hm) as [b Hbm].
  unfold bitOf. rewrite Hbm. simpl. by apply (Hc m).
Qed.

End solve.

(** ** The cost of a decision *)
Section cost.
Variable costs : gmap string Z.

(** The cost of stopping every running model that [keep] rejects. *)
Definition costOf (keep : string -> bool) (ms : list string) : Z :=
  sumZ (map (evictionCost costs) (List.filter (fun m => negb (keep m)) ms)).

Lemma costOf_nonneg keep ms : (forall m, m ∈ ms -> 0 <= evictionCost costs m) -> 0 <= costOf keep ms.
Proof.
  unfold costOf. intros Hms. apply sumZ_nonneg, Forall_map, Forall_forall.
  intros m Hm. apply elem_of_filterb in Hm as [Hm _]. by apply Hms.
Qed.

Lemma costOf_mono k k' ms :
  (forall m, m ∈ ms -> 0 <= evictionCost costs m) ->
  (forall m, m ∈ ms -> k' m = true -> k m = true) -> costOf k ms <= costOf k' ms.
Proof.
  unfold costOf. induction ms as [|m ms IH]; simpl; intros Hn Hk; [lia|].
  assert (sumZ (map (evictionCost costs) (List.filter (fun m => negb (k m)) ms)) <=
          sumZ (map (evictionCost costs) (List.filter (fun m => negb (k' m)) ms))).
  { apply IH; intros x Hx; [apply Hn|apply Hk]; set_solver. }
  assert (0 <= evictionCost costs m) by (apply Hn; set_solver).
  specialize (Hk m ltac:(set_solver)).
  destruct (k m), (k' m); simpl; try lia; by discriminate Hk.
Qed.

Variable running : list string.
Hypothesis costs_nonneg : forall m, m ∈ running -> 0 <= evictionCost costs m.
Hypothesis costs_fit : costOf (fun _ => false) running <= max_int64.

(** The 64-bit accumulation is the mathematical sum. *)
Lemma stateCost_spec e m :
  stateCost e costs running m = costOf (fun x => has m (bitOf e x)) running.
Proof.
  unfold stateCost. set (keep := fun x => has m (bitOf e x)).
  assert (forall ms acc, (forall x, x ∈ ms -> 0 <= evictionCost costs x) -> 0 <= acc ->
            acc + costOf (fun _ => false) ms <= max_int64 ->
            foldl (fun cost x => if keep x then cost else i64 (cost + evictionCost costs x)) acc ms
            = acc + costOf keep ms) as Hgen.
  { induction ms as [|x ms IH]; intros acc Hn Ha Hfit; [unfold costOf; simpl; lia|].
    assert (0 <= evictionCost costs x) by (apply Hn; set_solver).
    assert (0 <= costOf (fun _ => false) ms) by (apply costOf_nonneg; set_solver).
    assert (costOf (fun _ => false) (x :: ms) = evictionCost costs x + costOf (fun _ => false) ms)
      as E by done. rewrite E in Hfit.
    assert (costOf keep (x :: ms) = (if keep x then 0 else evictionCost costs x) + costOf keep ms) as ->.
    { unfold costOf. simpl. by destruct (keep x). }
    simpl. destruct (keep x).
    - rewrite IH; [lia|set_solver|lia|lia].
    - rewrite i64_id by (unfold min_int64; lia). rewrite IH; [lia|set_solver|lia|lia]. }
  rewrite Hgen; [lia|done|lia|lia].
Qed.

End cost.

(** ** The search of [Solve] *)
Section search.
Variables (e : evaluator) (costs : gmap string Z) (running : list string) (targetBit : nat).

Abbreviation cost_of m := (stateCost e costs running m).
Hypothesis cost_nonneg : forall m, 0 <= cost_of m.

(** [b] is a candidate taken from the pairs in [Q]. *)
Definition from (Q : compiledSet -> projectedState -> Prop) (b : best) : Prop :=
  Q (bestSet b) (bestState b) /\ has (mask (bestState b)) targetBit = true /\
  bestCost b = cost_of (mask (bestState b)).

(** [b] is a cheapest candidate among the pairs in [Q]; there is none exactly
    when no pair of [Q] contains the target. *)
Definition best_of (Q : compiledSet -> projectedState -> Prop) (b : option best) : Prop :=
  (forall b', b = Some b' -> from Q b') /\
  (forall s st, Q s st -> has (mask st) targetBit = true ->
     exists b', b = Some b' /\ bestCost b' <= cost_of (mask st)).

Lemma best_of_equiv Q Q' b : (forall s st, Q s st <-> Q' s st) -> best_of Q b -> best_of Q' b.
Proof.
  intros HQ [H1 H2]. split.
  - intros b' Hb. destruct (H1 b' Hb) as (? & ? & ?). split; [by apply HQ|done].
  - intros s st Hs. by apply (H2 s), HQ.
Qed.

Lemma consider_spec Q b s st :
  best_of Q b ->
  best_of (fun s' st' => Q s' st' \/ (s' = s /\ st' = st)) (consider e costs running targetBit s b st).
Proof.
  intros [Hfrom Hmin]. unfold consider.
  destruct (has (mask st) targetBit) eqn:Hst.
  2: { split; [intros b' Hb'; destruct (Hfrom b' Hb') as (? & ? & ?); unfold from; by auto|].
       intros s' st' [HQ'|[-> ->]] Hh'; [by apply (Hmin s')|congruence]. }
  destruct b as [b|].
  - destruct (Hfrom b eq_refl) as (HQ & Hh & Hc). pose proof (cost_nonneg (mask (bestState b))).
    replace (bestCost b <? 0) with false by lia. simpl.
    split; [intros b' [= <-]; case_match; unfold from; simpl; by auto|].
    intros s' st' Hs' Hh'. eexists; split; [done|].
    assert (Hle : bestCost b <= cost_of (mask st') \/ cost_of (mask st) <= cost_of (mask st')).
    { destruct Hs' as [HQ'|[-> ->]]; [left|by right].
      by destruct (Hmin s' st' HQ' Hh') as (? & [= <-] & ?). }
    case_match; simpl; lia.
  - split; [intros b' [= <-]; unfold from; simpl; by auto|].
    intros s' st' [HQ'|[-> ->]] Hh'.
    + by destruct (Hmin s' st' HQ' Hh') as (? & ? & ?).
    + eexists; split; [done|]. simpl. lia.
Qed.

Lemma consider_fold Q b s sts :
  best_of Q b ->
  best_of (fun s' st' => Q s' st' \/ (s' = s /\ st' ∈ sts))
    (foldl (consider e costs running targetBit s) b sts).
Proof.
  revert Q b. induction sts as [|st sts IH]; intros Q b Hb; simpl.
  - eapply best_of_equiv; [|exact Hb]. set_solver.
  - eapply best_of_equiv; [|by apply IH, consider_spec, Hb]. intros s' st'. simpl. set_solver.
Qed.

(** The pairs the loop over the sets looks at. *)
Definition offered p (g : option nat) (ss : list compiledSet) (s : compiledSet) (st : projectedState) : Prop :=
  s ∈ ss /\ exists bit states, g = Some bit /\ has (support s) bit = true /\
    eval_set p e s = Some states /\ st ∈ states.

Lemma solve_sets_spec p g ss b Q :
  (forall s, s ∈ ss -> is_Some (eval_set p e s)) -> best_of Q b ->
  exists b', solve_sets p e costs running targetBit g ss b = Some b' /\
    best_of (fun s st => Q s st \/ offered p g ss s st) b'.
Proof.
  revert b Q. induction ss as [|s ss IH]; intros b Q Hss Hb; simpl.
  - exists b. split; [done|]. eapply best_of_equiv; [|exact Hb]. unfold offered. set_solver.
  - assert (forall s', s' ∈ ss -> is_Some (eval_set p e s')) as Hss' by set_solver.
    destruct (Hss s) as [states Hs]; [set_solver|].
    assert ((forall st, offered p g [s] s st -> Q s st) ->
            exists b', solve_sets p e costs running targetBit g ss b = Some b' /\
              best_of (fun s' st' => Q s' st' \/ offered p g (s :: ss) s' st') b') as Hskip.
    { intros Hno. destruct (IH b Q Hss' Hb) as (b' & Hb' & Hbest). exists b'. split; [done|].
      eapply best_of_equiv; [|exact Hbest]. intros s' st'. unfold offered in *. set_solver. }
    destruct g as [g|].
    + destruct (has (support s) g) eqn:Hsup.
      * rewrite Hs. destruct (IH _ _ Hss' (consider_fold Q b s states Hb)) as (b' & Hb' & Hbest).
        exists b'. split; [done|]. eapply best_of_equiv; [|exact Hbest]. intros s' st'.
        unfold offered. simpl. rewrite elem_of_cons. naive_solver.
      * apply Hskip. intros st (_ & ? & ? & [= <-] & ? & _). congruence.
    + apply Hskip. by intros st (_ & ? & ? & ? & _).
Qed.

End search.

(** ** What [Solve] promises *)
Definition inside (S : gset string) (m : string) : bool := bool_decide (m ∈ S).

(** [d] moves the running models into a cheapest allowed set around [target]. *)
Record optimal (p : Program) (target : string) (running : list string) (costs : gmap string Z)
    (d : Decision_) (s : compiledSet) (S : gset string) : Prop := {
  opt_allowed : allows p s S;
  opt_target : target ∈ S;
  opt_name : SetName d = cs_name s /\ DecDSL d = cs_dsl s;
  opt_evict : Evict d = List.filter (fun m => negb (inside S m)) running;
  opt_set : (forall m, m ∈ TargetSet d <-> m ∈ S /\ m <> ""%string) /\ NoDup (TargetSet d) /\
            StronglySorted String.le (TargetSet d);
  opt_cost : TotalCost d = costOf costs (inside S) running;
  opt_minimal : forall s' S', allows p s' S' -> target ∈ S' ->
    TotalCost d <= costOf costs (inside S') running;
}.

Section solve_spec.
Variable p : Program.
Hypothesis wf : wf_program p.
Variables (target : string) (running : list string) (costs : gmap string Z).
Hypothesis costs_nonneg : forall m, m ∈ running -> 0 <= evictionCost costs m.
Hypothesis costs_fit : costOf costs (fun _ => false) running <= max_int64.

Definition query : evaluator := newEvaluator (target :: running).
Abbreviation considered := (offered query p (modelBits p !! target) (sets p)).

Lemma considered_sound s st : considered s st -> exists S, allows p s S /\ represents query st S.
Proof using Type.
  intros (Hs & g & states & _ & _ & Hev & Hst).
  destruct (eval_set_spec p (target :: running) s states Hs Hev) as [H1 _]. by apply H1.
Qed.

Lemma considered_complete s S :
  allows p s S -> target ∈ S ->
  exists st, considered s st /\ has (mask st) (bitOf query target) = true /\
    stateCost query costs running (mask st) <= costOf costs (inside S) running.
Proof using wf costs_nonneg costs_fit.
  intros [Hs HS] Ht. destruct (eval_set_total p wf query s Hs) as [states Hev].
  destruct (eval_set_spec p (target :: running) s states Hs Hev) as [_ H2].
  destruct (covers_bit _ _ _ (H2 S (conj Hs HS))) as (st & Hst & Hbits).
  destruct (wp_support p wf s S target Hs HS Ht) as (g & Hg & Hsup).
  exists st. split_and!.
  - split; [done|]. by exists g, states.
  - apply Hbits; [set_solver|done].
  - rewrite (stateCost_spec costs running) by done. apply costOf_mono; [done|].
    intros m Hm Hin. apply bool_decide_eq_true in Hin. apply Hbits; [set_solver|done].
Qed.

Lemma inside_mask st S m :
  represents query st S -> m ∈ running -> has (mask st) (bitOf query m) = inside S m.
Proof using Type.
  intros Hr Hm. apply eq_bool_prop_intro. unfold inside. rewrite bool_decide_spec.
  rewrite Is_true_true. apply (represents_bit (target :: running)); [done|by right].
Qed.

Lemma Solve_fresh :
  target ∉ running ->
  exists d, Solve p target running costs = Some d /\
    ((exists s S, optimal p target running costs d s S) \/
     ((forall s S, allows p s S -> target ∉ S) /\ d = mkDecision running [target] "" "" 0)).
Proof using wf costs_nonneg costs_fit.
  intros Hnew. unfold Solve.
  assert (contains running target = false) as ->.
  { apply not_true_iff_false. unfold contains. rewrite existsb_exists.
    intros (x & Hx%list_elem_of_In & ->%String.eqb_eq). done. }
  assert (forall m, 0 <= stateCost query costs running m) as Hpos.
  { intros m. rewrite stateCost_spec by done. by apply costOf_nonneg. }
  fold query.
  destruct (solve_sets_spec query costs running (bitOf query target) Hpos p (modelBits p !! target)
              (sets p) None (fun _ _ => False)) as (b & -> & Hfrom & Hmin).
  { intros s Hs. by apply eval_set_total. }
  { split; [done|by intros]. }
  destruct b as [b|].
  - eexists. split; [done|]. left. destruct (Hfrom b eq_refl) as ([[]|Hoff] & Hbit & Hcost).
    destruct (considered_sound _ _ Hoff) as (S & HS & Hr). exists (bestSet b), S.
    split; simpl; [done| |done| | | |].
    + by apply (represents_bit (target :: running) _ S target Hr); [set_solver|].
    + apply filterb_ext. intros m Hm. by rewrite (inside_mask _ S).
    + destruct Hr as (_ & _ & Hw). unfold flattenWitness. split_and!.
      * intros m. rewrite sort_strings_elem, witness_models_spec, Hw. set_solver.
      * apply sort_strings_NoDup, witness_models_NoDup, NoDup_nil_2.
      * apply sort_strings_sorted.
    + rewrite Hcost, stateCost_spec by done. unfold costOf. do 2 f_equal. apply filterb_ext.
      intros m Hm. by rewrite (inside_mask _ S).
    + intros s' S' HS' Ht'. destruct (considered_complete s' S' HS' Ht') as (st & Hst & Hb & Hle).
      destruct (Hmin s' st (or_intror Hst) Hb) as (? & [= <-] & ?). lia.
  - eexists. split; [done|]. right. split; [|done]. intros s S HS Ht.
    destruct (considered_complete s S HS Ht) as (st & Hst & Hb & _).
    by destruct (Hmin s st (or_intror Hst) Hb) as (? & ? & _).
Qed.

End solve_spec.

(** ** Containment queries *)
Section contain.
Variable p : Program.
Hypothesis wf : wf_program p.
Variable models : list string.

Definition holds_all (S : gset string) : Prop := forall m, m ∈ models -> m ∈ S.
Abbreviation e := (newEvaluator models).

Lemma supportsAll_spec s S : allows p s S -> holds_all S -> supportsAll p s models = true.
Proof using wf.
  intros [Hs HS] Hall. apply forallb_forall. intros m Hm%list_elem_of_In.
  by destruct (wp_support p wf s S m Hs HS (Hall m Hm)) as (g & -> & ->).
Qed.

Lemma fullMask_subset st S :
  represents e st S -> subsetOf (fullMask e) (mask st) = true <-> holds_all S.
Proof using Type.
  intros Hr. destruct (newEvaluator_wf models) as (H1 & H2 & H3).
  pose proof Hr as ((Hlen & Hwfm) & Hb & _).
  destruct (setBits_spec (seq 0 (size (ev_bits e))) (zeroMask (ev_words e))) as (K1 & K2 & K3).
  { apply Forall_forall. intros b Hb'%elem_of_seq. unfold zeroMask. rewrite length_replicate, H2.
    apply words_for_bound. lia. }
  unfold zeroMask in K1 at 2. rewrite length_replicate in K1.
  rewrite subsetOf_spec; [|unfold fullMask; congruence|by apply K2, wf_zero]. unfold fullMask.
  split.
  - intros Hsub m Hm. apply (represents_bit models st S m Hr Hm), Hsub, K3. left.
    destruct (H3 m Hm) as [b Hbm]. unfold bitOf. rewrite Hbm. simpl.
    pose proof (bits_range _ H1 _ _ Hbm). apply elem_of_seq. simpl in *. split; [apply Nat.le_0_l|done].
  - intros Hall b [Hin%elem_of_seq|Hz]%K3; [|by rewrite has_zero in Hz].
    destruct (bits_onto _ H1 b) as [m Hbm]; [lia|]. apply Hb. exists m. split; [|done].
    destruct (add_bits_spec models ∅ wf_bits_empty) as [_ Hdom].
    destruct (proj1 (Hdom m)) as [Hn|Hm]; [by eexists| |by apply Hall].
    rewrite lookup_empty in Hn. by destruct Hn.
Qed.

Lemma first_containing_spec ss :
  (forall s, s ∈ ss -> s ∈ sets p) ->
  exists r, first_containing p e models ss = Some r /\
    match r with
    | Some s => s ∈ ss /\ exists S, allows p s S /\ holds_all S
    | None => forall s S, s ∈ ss -> allows p s S -> ~ holds_all S
    end.
Proof using wf.
  induction ss as [|s ss IH]; intros Hss; simpl.
  { exists None. split; [done|]. by intros ? ? ?%elem_of_nil. }
  destruct IH as (r & Hr & Hspec); [intros; apply Hss; by right|].
  assert (s ∈ sets p) as Hs by (apply Hss; by left).
  assert ((forall S, allows p s S -> ~ holds_all S) ->
    exists r', first_containing p e models ss = Some r' /\
    match r' with
    | Some s' => s' ∈ s :: ss /\ exists S, allows p s' S /\ holds_all S
    | None => forall s' S, s' ∈ s :: ss -> allows p s' S -> ~ holds_all S
    end) as Hskip.
  { intros Hno. exists r. split; [done|]. destruct r as [s'|].
    - destruct Hspec as [? ?]. split; [by right|done].
    - intros s' S [->|Hin]%elem_of_cons; [by apply Hno|by apply Hspec]. }
  destruct (supportsAll p s models) eqn:Hsup.
  2:{ apply Hskip. intros S HS Hall. pose proof (supportsAll_spec s S HS Hall). congruence. }
  destruct (eval_set_total p wf e s Hs) as [states Hev]. rewrite Hev.
  destruct (eval_set_spec p models s states Hs Hev) as [H1 H2].
  destruct (existsb _ states) eqn:Hex.
  - exists (Some s). split; [done|]. split; [by left|].
    apply existsb_exists in Hex as (st & Hst%list_elem_of_In & Hsub).
    destruct (H1 st Hst) as (S & HS & Hrep). exists S. split; [done|].
    by apply (fullMask_subset st S Hrep).
  - apply Hskip. intros S HS Hall. destruct (covers_bit models states S (H2 S HS)) as (st & Hst & Hbits).
    assert (existsb (fun state => subsetOf (fullMask e) (mask state)) states = true); [|congruence].
    apply existsb_exists. exists st. split; [by apply list_elem_of_In|].
    destruct (H1 st Hst) as (S' & _ & Hrep). apply (fullMask_subset st S' Hrep).
    intros m Hm. by apply (represents_bit models st S' m Hrep Hm), Hbits, Hall.
Qed.

End contain.

Lemma findContaining_spec p models :
  wf_program p -> models <> [] ->
  exists r, findContaining p models = Some r /\
    ((exists s S, allows p s S /\ holds_all models S /\ r = (cs_name s, cs_dsl s)) \/
     ((forall s S, allows p s S -> ~ holds_all models S) /\ r = (""%string, ""%string))).
Proof.
  intros wf Hne. destruct (first_containing_spec p wf models (sets p)) as (r & Hr & Hspec); [done|].
  destruct models as [|m ms]; [done|]. unfold findContaining. rewrite Hr. destruct r as [s|].
  - destruct Hspec as (_ & S & HS & Hall). eexists; split; [done|]. left. by exists s, S.
  - eexists; split; [done|]. right. split; [|done]. intros s S HS. apply (Hspec s S); [apply HS|done].
Qed.

(** ** Theorems *)

(** C24. Every query on a compiled program terminates. A resident target evicts
    nothing and keeps the running set, labelled with a set that contains all of
    it when there is one. Any other target gets a cheapest allowed model set:
    the decision names the set it comes from, lists its models sorted, evicts
    exactly the running models outside it, and no model set of any set's full
    Cartesian expansion that contains the target stops cheaper running models.
    A target no set allows runs alone. *)
Theorem Solve_optimal `{UnicodeTables} (resolve : Resolver) (range : gset string -> list string)
    (definitions : list Definition_) (p : Program) (target : string) (running : list string)
    (costs : gmap string Z)
    (Hrange : forall s x, x ∈ range s <-> x ∈ s)
    (Hcompile : Compile resolve range definitions = Some (Ok p))
    (Hnonneg : forall m, m ∈ running -> 0 <= evictionCost costs m)
    (Hfit : costOf costs (fun _ => false) running <= max_int64) :
  exists d, Solve p target running costs = Some d /\
    if decide (target ∈ running) then
      Evict d = [] /\ TargetSet d = running /\ TotalCost d = 0 /\
      ((exists s S, allows p s S /\ holds_all running S /\ SetName d = cs_name s /\ DecDSL d = cs_dsl s) \/
       ((forall s S, allows p s S -> ~ holds_all running S) /\ SetName d = ""%string /\ DecDSL d = ""%string))
    else
      (exists s S, optimal p target running costs d s S) \/
      ((forall s S, allows p s S -> target ∉ S) /\ d = mkDecision running [target] "" "" 0).
Proof.
  pose proof (Compile_good resolve range Hrange definitions) as wf. rewrite Hcompile in wf.
  case_decide as Hin; [|by apply Solve_fresh].
  unfold Solve. assert (contains running target = true) as ->.
  { apply existsb_exists. exists target. by rewrite String.eqb_refl, <- list_elem_of_In. }
  destruct (findContaining_spec p running wf) as (r & Hr & Hspec).
  { intros ->. by apply elem_of_nil in Hin. }
  rewrite Hr. destruct r as [name dsl]. eexists; split; [done|]. simpl.
  split_and!; [done|done|done|]. naive_solver.
Qed.

(** [CanContainAll] answers every query on a compiled program, with true
    exactly when the list is empty or one allowed model set contains every
    model of it. *)
Theorem CanContainAll_correct `{UnicodeTables} (resolve : Resolver)
    (range : gset string -> list string) (definitions : list Definition_) (p : Program)
    (models : list string)
    (Hrange : forall s x, x ∈ range s <-> x ∈ s)
    (Hcompile : Compile resolve range definitions = Some (Ok p)) :
  exists b, CanContainAll p models = Some b /\
    (b = true <-> models = [] \/ exists s S, allows p s S /\ holds_all models S).
Proof.
  pose proof (Compile_good resolve range Hrange definitions) as wf. rewrite Hcompile in wf.
  destruct models as [|m ms]; [exists true; split; [done|tauto]|].
  destruct (first_containing_spec p wf (m :: ms) (sets p)) as (r & Hr & Hspec); [done|].
  unfold CanContainAll. rewrite Hr. destruct r as [s|]; eexists; (split; [done|]).
  - split; [|done]. intros _. right. destruct Hspec as (_ & S & HS). by exists s, S.
  - split; [done|]. intros [?|(s & S & HS & Hall)]; [done|].
    by destruct (Hspec s S (proj1 HS) HS).
Qed.

(** Two sets, the second built on the first; the models are their own names
    except the alias [big]. *)
Definition ex_resolve : Resolver := fun name =>
  if decide (name ∈ ["coder"; "chat"; "embed"; "vision"]) then Some name
  else if decide (name = "big"%string) then Some "vision"%string else None.
Definition ex_sets : list Definition_ :=
  [ mkDefinition "wide" "+small & (big | embed)"; mkDefinition "small" "coder | chat" ].
Definition ex_costs : gmap string Z := <["chat" := 5]> (<["vision" := 3]> ∅).

Definition ex_program : option (result dsl_error Program) :=
  Compile (H := latin1) ex_resolve elements ex_sets.

Lemma ex_fresh : "embed"%string ∉ ["chat"; "vision"]%string.
Proof. rewrite !elem_of_cons, elem_of_nil. by intros [?|[?|?]]. Qed.

Lemma Solve_optimal_witness :
  exists p d,
    ex_program = Some (Ok p) /\
    Solve p "embed" ["chat"; "vision"] ex_costs = Some d /\
    Evict d = ["vision"%string] /\ SetName d = "wide"%string /\
    TargetSet d = ["chat"%string; "embed"%string] /\
    (forall s S, allows p s S -> "embed"%string ∈ S ->
       3 <= costOf ex_costs (inside S) ["chat"; "vision"]%string).
Proof.
  pose (p := ltac:(let c := eval vm_compute in ex_program in
                   match c with Some (Ok ?p) => exact p end)).
  assert (Hc : ex_program = Some (Ok p)) by (vm_compute; reflexivity).
  assert (Hs : Solve p "embed" ["chat"; "vision"] ex_costs =
    Some (mkDecision ["vision"] ["chat"; "embed"] "wide" "+small & (big | embed)" 3)%string)
    by (vm_compute; reflexivity).
  destruct (Solve_optimal (H := latin1) ex_resolve elements ex_sets p "embed" ["chat"; "vision"]%string
              ex_costs (fun s x => elem_of_elements s x) Hc) as (d & Hd & Hspec).
  { intros m [->|[->|[]%elem_of_nil]%elem_of_cons]%elem_of_cons; by vm_compute. }
  { by vm_compute. }
  exists p, d. split; [exact Hc|]. split; [exact Hd|]. clear Hc. rewrite Hs in Hd. injection Hd as <-.
  rewrite (decide_False (P := "embed"%string ∈ _)) in Hspec by exact ex_fresh.
  destruct Hspec as [(s & S & Hopt)|[_ E]]; [|discriminate E].
  do 3 (split; [reflexivity|]). exact (opt_minimal _ _ _ _ _ _ _ Hopt).
Defined.

Lemma CanContainAll_correct_witness :
  exists p, ex_program = Some (Ok p) /\
    CanContainAll p ["chat"; "vision"]%string = Some true /\
    (exists s S, allows p s S /\ holds_all ["chat"; "vision"]%string S) /\
    CanContainAll p ["chat"; "coder"]%string = Some false.
Proof.
  pose (p := ltac:(let c := eval vm_compute in ex_program in
                   match c with Some (Ok ?p) => exact p end)).
  assert (Hc : ex_program = Some (Ok p)) by (vm_compute; reflexivity).
  assert (Ht : CanContainAll p ["chat"; "vision"]%string = Some true) by (vm_compute; reflexivity).
  assert (Hf : CanContainAll p ["chat"; "coder"]%string = Some false) by (vm_compute; reflexivity).
  exists p. split; [exact Hc|]. split; [exact Ht|]. split; [|exact Hf].
  destruct (CanContainAll_correct (H := latin1) ex_resolve elements ex_sets p ["chat"; "vision"]%string
              (fun s x => elem_of_elements s x) Hc) as (b & Hb & Hiff).
  rewrite Ht in Hb. injection Hb as <-. destruct (proj1 Hiff eq_refl) as [E|Hex]; [discriminate E|exact Hex].
Defined.
End Solve.
