(* ===== verification/Stores.v ===== *)
(** Bounded stores: the ring of recent entries ([internal/ring/buffer.go]), and the
    cache of request captures ([internal/cache/cache.go]). *)

From Stdlib Require Import Strings.Byte.
From S2P Require Import Prelude.

Module Ring.
Section ring.
Context {T : Type} (zero : T).

(** [type Buffer[T any] struct]; [zero] is Go's zero value of [T]. *)
Record Buffer := mkBuffer { buf : list T; head : nat; size : nat }.

Definition NewBuffer (capacity : Z) : Buffer :=
  let capacity := if capacity <? 1 then 1 else capacity in
  {| buf := replicate (Z.to_nat capacity) zero; head := 0; size := 0 |}.

Definition Push (r : Buffer) (v : T) : Buffer :=
  let cap := length (buf r) in
  if (size r <? cap)%nat then
    {| buf := <[((head r + size r) mod cap)%nat := v]> (buf r);
       head := head r; size := S (size r) |}
  else
    {| buf := <[head r := v]> (buf r);
       head := ((head r + 1) mod cap)%nat; size := size r |}.

(** [Slice] indexes the backing array; [None] is the out-of-range panic. *)
Definition Slice (r : Buffer) : option (list T) :=
  if (size r =? 0)%nat then Some []
  else
    let cap := length (buf r) in
    mapM (fun i => buf r !! ((head r + i) mod cap)%nat) (seq 0 (size r)).

Definition pushes (r : Buffer) (l : list T) : Buffer := foldl Push r l.

(** The abstract state: the entries in insertion order. *)
Definition holds (r : Buffer) (l : list T) : Prop :=
  (0 < length (buf r))%nat /\ (head r < length (buf r))%nat /\
  size r = length l /\ (length l <= length (buf r))%nat /\
  forall i, (i < length l)%nat -> buf r !! ((head r + i) mod length (buf r))%nat = l !! i.

(** What a push does to the abstract state. *)
Definition push_spec (cap : nat) (l : list T) (v : T) : list T :=
  if (length l <? cap)%nat then l ++ [v] else tail l ++ [v].

Lemma mod_add_inj a i j n :
  (i < n)%nat -> (j < n)%nat -> ((a + i) mod n = (a + j) mod n)%nat -> i = j.
Proof.
  intros Hi Hj Heq.
  pose proof (Nat.div_mod_eq (a + i) n). pose proof (Nat.div_mod_eq (a + j) n).
  assert (n * ((a + i) / n) + j = n * ((a + j) / n) + i)%nat as H1 by lia.
  destruct (Nat.lt_trichotomy ((a + i) / n) ((a + j) / n)) as [Hlt|[Heq'|Hgt]]; nia.
Qed.

Lemma push_holds r l v :
  holds r l -> holds (Push r v) (push_spec (length (buf r)) l v).
Proof.
  intros (Hc & Hh & Hs & Hle & Hl). unfold Push, push_spec. rewrite Hs.
  set (n := length (buf r)) in *.
  destruct (Nat.ltb_spec (length l) n).
  - unfold holds; simpl. rewrite length_insert, length_app; simpl. fold n.
    repeat split; try lia. intros i Hi.
    destruct (decide (i = length l)) as [->|Hne].
    + rewrite list_lookup_insert_eq by (fold n; apply Nat.mod_upper_bound; lia).
      by rewrite lookup_app_r, Nat.sub_diag by lia.
    + rewrite list_lookup_insert_ne
        by (intros E; apply mod_add_inj in E; lia).
      rewrite lookup_app_l by lia. apply Hl. lia.
  - assert (length l = n) as Hln by lia.
    destruct l as [|x l]; [simpl in *; lia|]. simpl in Hln.
    unfold holds; simpl. rewrite length_insert, length_app; simpl. fold n.
    repeat split; try lia; [apply Nat.mod_upper_bound; lia|]. intros i Hi.
    rewrite Nat.Div0.add_mod_idemp_l.
    replace (head r + 1 + i)%nat with (head r + S i)%nat by lia.
    destruct (decide (i = length l)) as [->|Hne].
    + replace (S (length l)) with n by lia.
      rewrite lookup_app_r, Nat.sub_diag by lia. simpl.
      replace ((head r + n) mod n)%nat with (head r).
      * by apply list_lookup_insert_eq.
      * rewrite <- (Nat.mul_1_l n) at 1. rewrite Nat.Div0.mod_add, Nat.mod_small; lia.
    + rewrite lookup_app_l by lia.
      rewrite list_lookup_insert_ne; [apply (Hl (S i)); simpl; lia|].
      intros E. rewrite <- (Nat.mod_small (head r) n) in E at 1 by lia.
      rewrite <- (Nat.add_0_r (head r)) in E at 1.
      apply mod_add_inj in E; lia.
Qed.

Lemma Push_capacity r v : length (buf (Push r v)) = length (buf r).
Proof. unfold Push. case_match; simpl; by rewrite length_insert. Qed.

Lemma Slice_holds r l : holds r l -> Slice r = Some l.
Proof.
  intros (Hc & Hh & Hs & Hle & Hl). unfold Slice. rewrite Hs.
  destruct l as [|x l]; [done|]. rewrite (proj2 (Nat.eqb_neq _ _)) by done.
  apply mapM_Some. apply Forall2_same_length_lookup. split.
  - by rewrite length_seq.
  - intros i j y Hi Hy. apply lookup_seq in Hi as [-> Hi]. simpl.
    rewrite Hl by done. done.
Qed.

Lemma NewBuffer_holds c : holds (NewBuffer c) [].
Proof.
  unfold holds, NewBuffer; simpl. rewrite length_replicate.
  repeat split; zcases; try lia; intros i Hi; simpl in Hi; lia.
Qed.

Lemma drop_S_tail (l : list T) k : drop (S k) l = tail (drop k l).
Proof. revert l. induction k as [|k IH]; intros [|x l]; simpl; done. Qed.

Lemma push_spec_suffix cap (l : list T) v :
  (0 < cap)%nat ->
  push_spec cap (drop (length l - cap) l) v = drop (length (l ++ [v]) - cap) (l ++ [v]).
Proof.
  intros Hc. unfold push_spec. rewrite length_drop, length_app; simpl.
  destruct (Nat.ltb_spec (length l - (length l - cap)) cap).
  - replace (length l - cap)%nat with 0%nat by lia.
    replace (length l + 1 - cap)%nat with 0%nat by lia. done.
  - replace (length l + 1 - cap)%nat with (S (length l - cap)) by lia.
    rewrite drop_app_le by lia. f_equal. symmetry. apply drop_S_tail.
Qed.

Lemma pushes_holds r l0 l :
  holds r (drop (length l0 - length (buf r)) l0) ->
  holds (pushes r l) (drop (length (l0 ++ l) - length (buf r)) (l0 ++ l)).
Proof.
  revert r l0. induction l as [|v l IH]; intros r l0 H; simpl.
  - by rewrite app_nil_r.
  - rewrite cons_middle, app_assoc. rewrite <- (Push_capacity r v).
    apply IH. rewrite Push_capacity.
    rewrite <- push_spec_suffix by apply H. by apply push_holds.
Qed.

(** [Slice] never panics and returns exactly the most recent entries: after
    pushing any sequence [l] into a fresh buffer of capacity [c] it reads back
    the last [max 1 c] entries of [l], in insertion order. *)
Theorem ring_keeps_most_recent (c : Z) (l : list T) :
  Slice (pushes (NewBuffer c) l)
  = Some (drop (length l - Z.to_nat (Z.max 1 c)) l).
Proof.
  apply Slice_holds.
  assert (length (buf (NewBuffer c)) = Z.to_nat (Z.max 1 c)) as Hcap.
  { simpl. rewrite length_replicate. zcases; f_equal; lia. }
  rewrite <- Hcap. apply (pushes_holds (NewBuffer c) []). apply NewBuffer_holds.
Qed.

End ring.

Example ring_ex :
  Slice (pushes (NewBuffer 0 3) [1; 2; 3; 4; 5]) = Some [3; 4; 5].
Proof. vm_compute. reflexivity. Qed.
End Ring.

(** ** The bounded byte cache of request captures ([internal/cache/cache.go]):
    insertion-ordered eviction under a size budget.  The mutex makes every
    operation atomic, so an operation is a function on the state. *)

Module Cache.

Record Cache := mkCache {
  items : gmap Z (list byte);
  order : list Z;
  csize : Z;
  maxSize : Z;
}.

Inductive cache_error := ErrExceedsMaxSize | ErrNotFound.

Definition New (maxBytes : Z) : Cache := mkCache ∅ [] 0 maxBytes.

Definition blen (data : list byte) : Z := Z.of_nat (length data).

(** [removeOrder]: drop the first occurrence. *)
Fixpoint removeOrder (id : Z) (order : list Z) : list Z :=
  match order with
  | [] => []
  | v :: order => if v =? id then order else v :: removeOrder id order
  end.

(** The eviction loop of [Add]. *)
Fixpoint evict (dataSize maxSize : Z) (order : list Z) (items : gmap Z (list byte)) (size : Z)
  : list Z * gmap Z (list byte) * Z :=
  match order with
  | [] => ([], items, size)
  | oldestID :: rest =>
    if maxSize <? i64 (size + dataSize) then
      match items !! oldestID with
      | Some evicted => evict dataSize maxSize rest (delete oldestID items) (i64 (size - blen evicted))
      | None => evict dataSize maxSize rest items size
      end
    else (order, items, size)
  end.

Definition Add (id : Z) (data : list byte) (c : Cache) : result cache_error Cache :=
  let dataSize := blen data in
  if maxSize c <? dataSize then Err ErrExceedsMaxSize
  else
    let '(size, order) :=
      match items c !! id with
      | Some old => (i64 (csize c - blen old), removeOrder id (order c))
      | None => (csize c, order c)
      end in
    let '(order, items, size) := evict dataSize (maxSize c) order (items c) size in
    Ok (mkCache (<[id := data]> items) (order ++ [id]) (i64 (size + dataSize)) (maxSize c)).

Definition Get (id : Z) (c : Cache) : result cache_error (list byte) :=
  match items c !! id with Some data => Ok data | None => Err ErrNotFound end.

Definition Has (id : Z) (c : Cache) : bool :=
  match items c !! id with Some _ => true | None => false end.

Definition Size (c : Cache) : Z := csize c.

Definition Clear (c : Cache) : Cache := mkCache ∅ [] 0 (maxSize c).

(** ** Invariant *)
Definition held (items : gmap Z (list byte)) (order : list Z) : Z :=
  sumZ (map (fun id => blen (default [] (items !! id))) order).

Record inv (c : Cache) : Prop := {
  inv_nodup : NoDup (order c);
  inv_dom : forall id, id ∈ order c <-> is_Some (items c !! id);
  inv_size : csize c = held (items c) (order c);
  inv_max : csize c <= maxSize c;
}.

Lemma blen_nonneg data : 0 <= blen data.
Proof. unfold blen. lia. Qed.

Lemma held_nonneg m ids : 0 <= held m ids.
Proof. apply sumZ_nonneg, Forall_map, Forall_true. intros id. apply blen_nonneg. Qed.

Lemma held_ext m m' ids : (forall id, id ∈ ids -> m !! id = m' !! id) -> held m ids = held m' ids.
Proof.
  unfold held. intros Hext. f_equal. apply map_ext_in. intros id Hid.
  by rewrite Hext by (by apply list_elem_of_In).
Qed.

Lemma held_snoc m ids id : held m (ids ++ [id]) = held m ids + blen (default [] (m !! id)).
Proof. unfold held. rewrite map_app, sumZ_app. simpl. lia. Qed.

Lemma removeOrder_elem id ids x : NoDup ids -> x ∈ removeOrder id ids <-> x ∈ ids /\ x <> id.
Proof.
  induction 1 as [|v ids Hv Hnd IH]; simpl; [set_solver|].
  destruct (Z.eqb_spec v id) as [->|Hne]; [set_solver|]. rewrite !elem_of_cons, IH. naive_solver.
Qed.

Lemma removeOrder_sublist id ids : removeOrder id ids `sublist_of` ids.
Proof.
  induction ids as [|v ids IH]; simpl; [constructor|].
  destruct (v =? id); [by apply sublist_cons|by apply sublist_skip].
Qed.

Lemma removeOrder_NoDup id ids : NoDup ids -> NoDup (removeOrder id ids).
Proof. intros Hnd. eapply sublist_NoDup; [done|apply removeOrder_sublist]. Qed.

Lemma held_removeOrder m id ids old :
  m !! id = Some old -> id ∈ ids -> held m (removeOrder id ids) = held m ids - blen old.
Proof.
  intros Hold. unfold held. induction ids as [|v ids IH]; [by intros ?%elem_of_nil|].
  simpl. destruct (Z.eqb_spec v id) as [->|Hne].
  - rewrite Hold. simpl. lia.
  - intros [->|Hin]%elem_of_cons; [done|]. simpl. rewrite (IH Hin). lia.
Qed.

(** The loop drops the shortest prefix that makes room. *)
Lemma evict_spec dataSize max ids m size :
  NoDup ids -> (forall id, id ∈ ids -> is_Some (m !! id)) -> size = held m ids ->
  0 <= dataSize <= max -> size <= max -> max < 2 ^ 62 ->
  exists k, evict dataSize max ids m size
            = (drop k ids, foldr delete m (take k ids), held m (drop k ids)) /\
    held m (drop k ids) + dataSize <= max /\
    (forall j, (j < k)%nat -> max < held m (drop j ids) + dataSize).
Proof.
  intros Hnd. revert m size. induction Hnd as [|v ids Hv Hnd IH]; intros m size Hdom -> Hd Hs Hmax; simpl.
  - exists 0%nat. simpl. split_and!; [done|unfold held; simpl; lia|intros; lia].
  - pose proof (held_nonneg m (v :: ids)).
    rewrite i64_id by (unfold min_int64, max_int64; lia).
    destruct (Z.ltb_spec max (held m (v :: ids) + dataSize)) as [Hlt|Hge].
    + destruct (Hdom v) as [old Hold]; [set_solver|]. rewrite Hold.
      assert (held m (v :: ids) = blen old + held m ids) as E.
      { unfold held. simpl. by rewrite Hold. }
      pose proof (blen_nonneg old). pose proof (held_nonneg m ids).
      assert (forall l, v ∉ l -> held (delete v m) l = held m l) as Hdel.
      { intros l Hl. apply held_ext. intros id Hid. apply lookup_delete_ne. by intros ->. }
      rewrite i64_id by (unfold min_int64, max_int64; lia).
      destruct (IH (delete v m) (held m (v :: ids) - blen old)) as (k & Hk & Hroom & Hmin).
      { intros id Hid. rewrite lookup_delete_ne by (by intros ->). apply Hdom. set_solver. }
      { rewrite Hdel by done. lia. }
      { done. } { lia. } { done. }
      assert (v ∉ drop k ids) as Hvk by (intros Hin; apply Hv; by eapply subseteq_drop).
      exists (S k). simpl. rewrite Hk, !Hdel by done. rewrite Hdel in Hroom by done.
      split_and!; [|done|].
      * do 2 f_equal. clear. induction (take k ids) as [|x l IHl]; simpl; [done|].
        by rewrite IHl, delete_delete.
      * intros [|j] Hj; simpl; [done|]. rewrite <- Hdel; [apply Hmin; lia|].
        intros Hin; apply Hv; by eapply subseteq_drop.
    + exists 0%nat. simpl. split_and!; [done|lia|intros; lia].
Qed.

Lemma foldr_delete_lookup (m : gmap Z (list byte)) ids id :
  foldr delete m ids !! id = if decide (id ∈ ids) then None else m !! id.
Proof.
  induction ids as [|x ids IH]; cbn [foldr]; [done|].
  destruct (decide (x = id)) as [->|Hne].
  - rewrite lookup_delete_eq, decide_True by set_solver. done.
  - rewrite lookup_delete_ne, IH by done. repeat case_decide; set_solver.
Qed.

Lemma New_inv maxBytes : 0 <= maxBytes -> inv (New maxBytes).
Proof.
  intros. split; simpl; [constructor| |done|done].
  intros id. rewrite lookup_empty, elem_of_nil. split; [done|by intros []].
Qed.

(** What [Add] leaves of the order before it: the id itself taken out. *)
Definition others (id : Z) (c : Cache) : list Z :=
  match items c !! id with Some _ => removeOrder id (order c) | None => order c end.

Lemma others_spec id c :
  inv c -> NoDup (others id c) /\ id ∉ others id c /\
    (forall x, x ∈ others id c -> is_Some (items c !! x)) /\
    held (items c) (others id c) <= maxSize c /\
    match items c !! id with
    | Some old => csize c - blen old = held (items c) (others id c)
    | None => csize c = held (items c) (others id c)
    end.
Proof.
  intros [Hnd Hdom Hsize Hmax]. unfold others. destruct (items c !! id) as [old|] eqn:Hold.
  - assert (id ∈ order c) as Hin by (apply Hdom; eauto). split_and!.
    + by apply removeOrder_NoDup.
    + rewrite removeOrder_elem by done. tauto.
    + intros x [Hx _]%removeOrder_elem; [by apply Hdom|done].
    + rewrite (held_removeOrder _ _ _ old) by done. pose proof (blen_nonneg old). lia.
    + rewrite (held_removeOrder _ _ _ old) by done. lia.
  - split_and!; [done| |by intros; apply Hdom|lia|done].
    intros Hin%Hdom. rewrite Hold in Hin. by destruct Hin.
Qed.

(** [Add] rejects an item larger than the cache and changes nothing;
    otherwise it keeps the invariant (distinct ids, sizes that add up, never
    more than [maxSize] bytes held), the item is readable and newest, and the
    older entries that remain are the longest suffix of the insertion order
    that leaves room, with their data. *)
Theorem Add_correct (id : Z) (data : list byte) (c : Cache)
    (Hinv : inv c) (Hmax : maxSize c < 2 ^ 62) :
  match Add id data c with
  | Err e => e = ErrExceedsMaxSize /\ maxSize c < blen data
  | Ok c' => inv c' /\ maxSize c' = maxSize c /\ Get id c' = Ok data /\
      exists k, order c' = drop k (others id c) ++ [id] /\
        (forall x, x ∈ drop k (others id c) -> Get x c' = Get x c) /\
        (forall x, x ∉ drop k (others id c) -> x <> id -> Get x c' = Err ErrNotFound) /\
        (forall j, (j < k)%nat -> maxSize c < held (items c) (drop j (others id c)) + blen data)
  end.
Proof.
  destruct (others_spec id c Hinv) as (Hnd & Hid & Hdom & Hheld & Hsize).
  pose proof (blen_nonneg data) as Hb. pose proof (held_nonneg (items c) (others id c)) as Hp.
  unfold Add. destruct (Z.ltb_spec (maxSize c) (blen data)) as [Hlt|Hge]; [done|].
  assert (match items c !! id with
          | Some old => (i64 (csize c - blen old), removeOrder id (order c))
          | None => (csize c, order c)
          end = (held (items c) (others id c), others id c)) as ->.
  { unfold others in *. destruct (items c !! id); [|by rewrite Hsize].
    rewrite Hsize, i64_id by (unfold min_int64, max_int64; lia). done. }
  destruct (evict_spec (blen data) (maxSize c) (others id c) (items c) _ Hnd Hdom eq_refl)
    as (k & -> & Hroom & Hmin); [lia|done|done|].
  set (m' := foldr delete (items c) (take k (others id c))).
  assert (forall x, x ∈ drop k (others id c) -> m' !! x = items c !! x) as Hkeep.
  { intros x Hx. unfold m'. rewrite foldr_delete_lookup, decide_False; [done|].
    rewrite <- (take_drop k (others id c)) in Hnd. apply NoDup_app in Hnd as (_ & Hd & _).
    intros Hx'. by apply (Hd x). }
  pose proof (held_nonneg (items c) (drop k (others id c))).
  rewrite i64_id by (unfold min_int64, max_int64; lia).
  assert (id ∉ drop k (others id c)) as Hid' by (intros Hin; apply Hid; by eapply subseteq_drop).
  assert (forall x, x ∉ drop k (others id c) -> x <> id -> m' !! x = None) as Hgone.
  { intros x Hx Hne. unfold m'. rewrite foldr_delete_lookup. case_decide as Hin; [done|].
    destruct (items c !! x) eqn:Hc; [|done]. exfalso.
    assert (x ∈ others id c) as Ho.
    { unfold others. destruct Hinv as [Hnd' Hdom' _ _]. assert (x ∈ order c) by (apply Hdom'; eauto).
      destruct (items c !! id); [by apply removeOrder_elem|done]. }
    rewrite <- (take_drop k (others id c)) in Ho. apply elem_of_app in Ho. tauto. }
  split_and!; [|done| |].
  - split; simpl.
    + apply NoDup_app. split_and!; [eapply sublist_NoDup; [exact Hnd|apply sublist_drop]|set_solver|apply NoDup_singleton].
    + intros x. rewrite elem_of_app, list_elem_of_singleton, lookup_insert_is_Some.
      destruct (decide (id = x)) as [->|Hne]; [tauto|]. split.
      * intros [Hx|?]; [|congruence]. right. split; [done|]. rewrite Hkeep by done.
        apply Hdom. by eapply subseteq_drop.
      * intros [?|[_ Hs]]; [done|]. left. destruct (decide (x ∈ drop k (others id c))); [done|].
        rewrite Hgone in Hs by done. by destruct Hs.
    + rewrite held_snoc, lookup_insert_eq. simpl. f_equal. apply held_ext. intros x Hx.
      rewrite lookup_insert_ne by (by intros ->). by rewrite Hkeep.
    + lia.
  - unfold Get. simpl. by rewrite lookup_insert_eq.
  - exists k. unfold Get. simpl. split_and!; [done| | |done].
    + intros x Hx. rewrite lookup_insert_ne by (by intros ->). by rewrite Hkeep.
    + intros x Hx Hne. rewrite lookup_insert_ne by done. by rewrite Hgone.
Qed.

(** Filling a cache of four bytes: the third entry pushes out the oldest. *)
Definition ex_cache : Cache :=
  mkCache (<[1 := [x61; x62]]> (<[2 := [x63]]> ∅)) [1; 2] 3 4.

Lemma ex_cache_inv : inv ex_cache.
Proof.
  split; simpl; [by apply (bool_decide_unpack _)| |done|done].
  intros id. unfold ex_cache. simpl. rewrite !lookup_insert_is_Some, lookup_empty, !elem_of_cons, elem_of_nil.
  split; [|by intros [->|[? [->|[? []]]]]; auto].
  intros [->|[->|[]]]; [by left|right; split; [done|by left]].
Qed.

Lemma Add_correct_witness :
  exists c', Add 3 [x64; x65] ex_cache = Ok c' /\ order c' = [2; 3] /\ inv c'.
Proof.
  pose proof (Add_correct 3 [x64; x65] ex_cache ex_cache_inv eq_refl) as H.
  destruct (Add 3 [x64; x65] ex_cache) as [c'|e] eqn:E; [|by destruct H].
  exists c'. split; [done|]. split; [|apply H]. apply (f_equal (fun r => match r with Ok c => order c | Err _ => [] end)) in E.
  rewrite <- E. by vm_compute.
Defined.

End Cache.
