(* ===== verification/Swappers.v ===== *)
(** Eviction policies ([Swapper] of [internal/router/scheduler/scheduler.go]):
    the interface the scheduler relies on, and its two implementations, the
    group policy ([internal/router/group.go]) and the matrix policy with its
    decision cache ([internal/router/matrix.go]). *)

From S2P Require Import Prelude Runes MatrixDsl MatrixProgram MatrixSolve.

Module Swapper.

(** A policy is a pure plan; only models of the running set, never the target
    itself, are planned for eviction. *)
Class Swapper := {
  EvictionFor : string -> list string -> list string;
  eviction_running : forall target running m, m ∈ EvictionFor target running -> m ∈ running;
  eviction_not_target : forall target running, target ∉ EvictionFor target running;
}.

End Swapper.

(** ** The group policy *)
Module Group.
Import Swapper.

Record GroupConfig := mkGroup { Swap : bool; Exclusive : bool; Persistent : bool }.

(** The zero value Go's map lookup returns for an unknown group. *)
Definition zeroGroup : GroupConfig := mkGroup false false false.

Record groupSwapper := mkGroupSwapper {
  groups : gmap string GroupConfig;
  modelToGroup : gmap string string;
}.

Definition group_of (p : groupSwapper) (m : string) : string := default "" (modelToGroup p !! m).
Definition config_of (p : groupSwapper) (g : string) : GroupConfig := default zeroGroup (groups p !! g).

(** [NewGroup]'s table: a model listed twice is refused.  The groups come in
    the order the map is ranged over. *)
Fixpoint add_members (gid : string) (members : list string) (m : gmap string string)
  : result string (gmap string string) :=
  match members with
  | [] => Ok m
  | mid :: members =>
    match m !! mid with
    | Some _ => Err mid
    | None => add_members gid members (<[mid := gid]> m)
    end
  end.

Fixpoint add_groups (gs : list (string * list string)) (m : gmap string string)
  : result string (gmap string string) :=
  match gs with
  | [] => Ok m
  | (gid, members) :: gs => rbind (add_members gid members m) (add_groups gs)
  end.

Definition should_evict (p : groupSwapper) (target mID : string) : bool :=
  let tg := group_of p target in
  let og := group_of p mID in
  let tgCfg := config_of p tg in
  if String.eqb og tg && Swap tgCfg then true
  else if negb (String.eqb og tg) && Exclusive tgCfg then negb (Persistent (config_of p og))
  else false.

(** The closure [consider] over the running list; [result] holds what [seen]
    does, in order. *)
Definition consider (p : groupSwapper) (target : string) (result : list string) (mID : string)
  : list string :=
  if String.eqb mID target then result
  else if decide (mID ∈ result) then result
  else if should_evict p target mID then result ++ [mID] else result.

Definition groupEviction (p : groupSwapper) (target : string) (running : list string) : list string :=
  foldl (consider p target) [] running.

Lemma consider_elem p target acc mID x :
  x ∈ consider p target acc mID <->
  x ∈ acc \/ (x = mID /\ mID <> target /\ should_evict p target mID = true).
Proof.
  unfold consider. destruct (String.eqb_spec mID target) as [->|Hne]; [naive_solver|].
  case_decide; [naive_solver|]. destruct (should_evict p target mID).
  - rewrite elem_of_app, list_elem_of_singleton. naive_solver.
  - naive_solver.
Qed.

Lemma groupEviction_fold p target running acc x :
  x ∈ foldl (consider p target) acc running <->
  x ∈ acc \/ (x ∈ running /\ x <> target /\ should_evict p target x = true).
Proof.
  revert acc. induction running as [|m running IH]; intros acc; simpl.
  - rewrite elem_of_nil. tauto.
  - rewrite IH, consider_elem, elem_of_cons. naive_solver.
Qed.

Lemma groupEviction_NoDup p target running acc :
  NoDup acc -> NoDup (foldl (consider p target) acc running).
Proof.
  revert acc. induction running as [|m running IH]; intros acc Hacc; simpl; [done|].
  apply IH. unfold consider. destruct (String.eqb m target); [done|]. case_decide; [done|].
  destruct (should_evict p target m); [|done].
  apply NoDup_app. split_and!; [done|set_solver|apply NoDup_singleton].
Qed.

(** The group policy evicts each running model at most once, and exactly
    these: another member of the target's group when that group swaps, and a
    member of another group when the target's group is exclusive and the other
    is not persistent. *)
Theorem groupEviction_correct (p : groupSwapper) (target : string) (running : list string) :
  NoDup (groupEviction p target running) /\
  forall x, x ∈ groupEviction p target running <->
    x ∈ running /\ x <> target /\
    ((group_of p x = group_of p target /\ Swap (config_of p (group_of p target)) = true) \/
     (group_of p x <> group_of p target /\ Exclusive (config_of p (group_of p target)) = true /\
      Persistent (config_of p (group_of p x)) = false)).
Proof.
  split; [apply groupEviction_NoDup; constructor|]. intros x. unfold groupEviction.
  rewrite groupEviction_fold, elem_of_nil. unfold should_evict.
  destruct (String.eqb_spec (group_of p x) (group_of p target)),
    (Swap _), (Exclusive _), (Persistent _); simpl; naive_solver.
Qed.

#[export] Program Instance group_policy (p : groupSwapper) : Swapper :=
  {| EvictionFor := groupEviction p |}.
Next Obligation. intros p target running m. unfold groupEviction. rewrite groupEviction_fold, elem_of_nil. tauto. Qed.
Next Obligation. intros p target running. unfold groupEviction. rewrite groupEviction_fold, elem_of_nil. tauto. Qed.

(** *** The membership table *)
Lemma add_members_spec gid members m :
  match add_members gid members m with
  | Ok m' => NoDup members /\ (forall x, x ∈ members -> m !! x = None) /\
      forall x, m' !! x = if decide (x ∈ members) then Some gid else m !! x
  | Err x => x ∈ members /\ (is_Some (m !! x) \/ ~ NoDup members)
  end.
Proof.
  revert m. induction members as [|mid members IH]; intros m; cbn [add_members].
  - split_and!; [constructor|by intros ? ?%elem_of_nil|done].
  - destruct (m !! mid) eqn:Hm; [split; [by left|by left; eexists]|].
    specialize (IH (<[mid := gid]> m)). destruct (add_members gid members _) as [m'|x].
    + destruct IH as (Hnd & Hnone & Hlk).
      assert (mid ∉ members) as Hn.
      { intros Hin. specialize (Hnone mid Hin). by rewrite lookup_insert_eq in Hnone. }
      split_and!; [by constructor| |].
      * intros x [->|Hx]%elem_of_cons; [done|]. specialize (Hnone x Hx).
        by rewrite lookup_insert_ne in Hnone by (by intros ->).
      * intros x. rewrite Hlk. destruct (decide (x = mid)) as [->|Hne].
        -- rewrite decide_False, decide_True, lookup_insert_eq by set_solver. done.
        -- rewrite lookup_insert_ne by done. repeat case_decide; set_solver.
    + destruct IH as [Hx Hdup]. split; [by right|].
      destruct (decide (x = mid)) as [->|Hne]; [|by rewrite lookup_insert_ne in Hdup by done;
        destruct Hdup as [?|Hd]; [left|right; intros [_ ?]%NoDup_cons]].
      right. by intros [? _]%NoDup_cons.
Qed.

(** The membership table is built exactly when no model is listed twice,
    and then it gives every listed model its group. *)
Theorem add_groups_correct (gs : list (string * list string)) :
  match add_groups gs ∅ with
  | Ok m => NoDup (concat (map snd gs)) /\
      forall x gid, m !! x = Some gid <-> exists members, (gid, members) ∈ gs /\ x ∈ members
  | Err x => x ∈ concat (map snd gs) /\ ~ NoDup (concat (map snd gs))
  end.
Proof.
  assert (forall m,
    match add_groups gs m with
    | Ok m' => NoDup (concat (map snd gs)) /\ (forall x, x ∈ concat (map snd gs) -> m !! x = None) /\
        forall x gid, m' !! x = Some gid <->
          m !! x = Some gid \/ exists members, (gid, members) ∈ gs /\ x ∈ members
    | Err x => x ∈ concat (map snd gs) /\ (is_Some (m !! x) \/ ~ NoDup (concat (map snd gs)))
    end) as Hgen.
  { induction gs as [|[gid members] gs IH]; intros m; simpl.
    - split_and!; [constructor|by intros ? ?%elem_of_nil|]. intros x gid. set_solver.
    - pose proof (add_members_spec gid members m) as Hm.
      destruct (add_members gid members m) as [m1|x]; simpl.
      + destruct Hm as (Hnd & Hnone & Hlk). specialize (IH m1).
        destruct (add_groups gs m1) as [m2|x].
        * destruct IH as (Hnd2 & Hnone2 & Hlk2).
          assert (forall x, x ∈ members -> x ∉ concat (map snd gs)) as Hdis.
          { intros x Hx Hin. specialize (Hnone2 x Hin). by rewrite Hlk, decide_True in Hnone2. }
          split_and!; [by apply NoDup_app| |].
          -- intros x [Hx|Hx]%elem_of_app; [by apply Hnone|]. specialize (Hnone2 x Hx).
             rewrite Hlk in Hnone2. by case_decide.
          -- intros x g. rewrite Hlk2, Hlk. case_decide as Hx.
             ++ rewrite (Hnone x Hx). set_solver.
             ++ set_solver.
        * destruct IH as [Hx Hdup]. split; [set_solver|]. rewrite NoDup_app, Hlk in *.
          case_decide; [right; naive_solver|]. naive_solver.
      + destruct Hm as [Hx Hdup]. split; [set_solver|]. rewrite NoDup_app. naive_solver. }
  specialize (Hgen ∅). destruct (add_groups gs ∅) as [m|x].
  - destruct Hgen as (H1 & _ & H2). split; [done|]. intros x gid. rewrite H2, lookup_empty. naive_solver.
  - destruct Hgen as [H1 [H2|H2]]; [rewrite lookup_empty in H2; by destruct H2|done].
Qed.

End Group.

(** ** The matrix policy and its cache *)
Module MatrixPolicy.
Import Matrix Solve Swapper.

(** [program.Solve]; [None] is the fuel bound, never reached on a compiled
    program. *)
Record matrixSolver := mkSolver { program : Program; evictCosts : gmap string Z }.

Definition solver_solve (s : matrixSolver) (requestedModel : string) (runningModels : list string)
  : option Decision_ :=
  Solve (program s) requestedModel runningModels (evictCosts s).

Record matrixSwapper := mkSwapper {
  solver : matrixSolver;
  lastTarget : string;
  lastRunning : list string;
  lastResult : Decision_;
  lastValid : bool;
}.

Definition newSwapper (s : matrixSolver) : matrixSwapper :=
  mkSwapper s "" [] (mkDecision [] [] "" "" 0) false.

Definition solve (p : matrixSwapper) (target : string) (running : list string)
  : option (Decision_ * matrixSwapper) :=
  if lastValid p && String.eqb (lastTarget p) target && bool_decide (lastRunning p = running) then
    Some (lastResult p, p)
  else
    match solver_solve (solver p) target running with
    | Some result => Some (result, mkSwapper (solver p) target running result true)
    | None => None
    end.

Definition EvictionFor_ (p : matrixSwapper) (target : string) (running : list string)
  : option (list string * matrixSwapper) :=
  match solve p target running with
  | Some (d, p) => Some (Evict d, p)
  | None => None
  end.

(** [OnSwapStart] only logs, through the cache. *)
Definition OnSwapStart (p : matrixSwapper) (target : string) (running : list string)
  : option matrixSwapper :=
  match solve p target running with Some (_, p) => Some p | None => None end.

(** The calls the scheduler makes. *)
Inductive call :=
| CallEviction (target : string) (running : list string)
| CallSwapStart (target : string) (running : list string).

(** The answers of a sequence of calls. *)
Fixpoint run (p : matrixSwapper) (cs : list call) : option (list (list string)) :=
  match cs with
  | [] => Some []
  | CallEviction t r :: cs =>
    match EvictionFor_ p t r with
    | Some (ev, p) => match run p cs with Some out => Some (ev :: out) | None => None end
    | None => None
    end
  | CallSwapStart t r :: cs =>
    match OnSwapStart p t r with Some p => run p cs | None => None end
  end.

(** The reference: no cache, one fresh solve per planning call. *)
Definition plan (s : matrixSolver) (target : string) (running : list string) : list string :=
  match solver_solve s target running with Some d => Evict d | None => [] end.

Fixpoint answers (s : matrixSolver) (cs : list call) : list (list string) :=
  match cs with
  | [] => []
  | CallEviction t r :: cs => plan s t r :: answers s cs
  | CallSwapStart _ _ :: cs => answers s cs
  end.

(** The cached decision is the one a fresh solve would make. *)
Definition cache_ok (s : matrixSolver) (p : matrixSwapper) : Prop :=
  solver p = s /\
  (lastValid p = true -> solver_solve s (lastTarget p) (lastRunning p) = Some (lastResult p)).

Lemma solve_spec s p t r :
  cache_ok s p -> is_Some (solver_solve s t r) ->
  exists d p', solve p t r = Some (d, p') /\ solver_solve s t r = Some d /\ cache_ok s p'.
Proof.
  intros [Hs Hc] [d Hd]. unfold solve.
  destruct (lastValid p && String.eqb (lastTarget p) t && bool_decide (lastRunning p = r)) eqn:Hhit.
  - apply andb_true_iff in Hhit as [[Hv Ht%String.eqb_eq]%andb_true_iff Hr%bool_decide_eq_true].
    exists (lastResult p), p. split; [done|]. split; [|by split]. rewrite <- Ht, <- Hr. by apply Hc.
  - rewrite Hs, Hd. eexists d, _. split; [done|]. split; [done|]. by split.
Qed.

Definition total (s : matrixSolver) : Prop := forall t r, is_Some (solver_solve s t r).

Lemma run_spec s cs p : total s -> cache_ok s p -> run p cs = Some (answers s cs).
Proof.
  intros Htot. revert p. induction cs as [|[t r|t r] cs IH]; intros p Hp; simpl; [done| |];
    destruct (solve_spec s p t r Hp (Htot t r)) as (d & p' & Hsolve & Hd & Hp').
  - unfold EvictionFor_, plan. rewrite Hsolve, Hd, (IH p' Hp'). done.
  - unfold OnSwapStart. rewrite Hsolve. by apply IH.
Qed.

(** Every query on a compiled program terminates, whatever the costs. *)
Lemma Solve_total p t r costs : wf_program p -> is_Some (Solve p t r costs).
Proof.
  intros wf. unfold Solve. destruct (contains r t) eqn:Hc.
  - destruct (findContaining_spec p r wf) as ([n d] & -> & _); [by intros ->|by eexists].
  - assert (forall ss b, (forall s, s ∈ ss -> s ∈ sets p) ->
      is_Some (solve_sets p (newEvaluator (t :: r)) costs r
                 (bitOf (newEvaluator (t :: r)) t) (modelBits p !! t) ss b)) as Hss.
    { induction ss as [|s ss IH]; intros b Hin; simpl; [by eexists|].
      assert (forall s', s' ∈ ss -> s' ∈ sets p) as Hin' by (intros; apply Hin; by right).
      destruct (modelBits p !! t); [|by apply IH]. case_match; [|by apply IH].
      destruct (eval_set_total p wf (newEvaluator (t :: r)) s) as [states ->]; [apply Hin; by left|].
      by apply IH. }
    destruct (Hss (sets p) None) as [[b|] Hb]; [done|rewrite Hb; by eexists..].
Qed.

(** The cache is invisible: for every sequence of planning and swap-start
    calls on a fresh policy over a compiled program, the answers are those of
    a fresh solve per planning call, and no call fails. *)
Theorem matrixSwapper_refines `{UnicodeTables} (resolve : Resolver)
    (range : gset string -> list string) (definitions : list Definition_) (p : Program)
    (costs : gmap string Z) (cs : list call)
    (Hrange : forall s x, x ∈ range s <-> x ∈ s)
    (Hcompile : Compile resolve range definitions = Some (Ok p)) :
  run (newSwapper (mkSolver p costs)) cs = Some (answers (mkSolver p costs) cs).
Proof.
  pose proof (Compile_good resolve range Hrange definitions) as wf. rewrite Hcompile in wf.
  apply run_spec; [|by split]. intros t r. by apply Solve_total.
Qed.

Lemma matrixSwapper_refines_witness :
  exists p, ex_program = Some (Ok p) /\
    run (newSwapper (mkSolver p ex_costs))
      [CallEviction "embed" ["chat"; "vision"]; CallSwapStart "embed" ["chat"; "vision"];
       CallEviction "vision" ["chat"; "embed"]]%string
    = Some [["vision"]; ["embed"]]%string.
Proof.
  pose (p := ltac:(let c := eval vm_compute in ex_program in
                   match c with Some (Ok ?p) => exact p end)).
  assert (Hc : ex_program = Some (Ok p)) by (vm_compute; reflexivity).
  exists p. split; [exact Hc|].
  rewrite (matrixSwapper_refines (H := latin1) ex_resolve elements ex_sets p ex_costs
             _ (fun s x => elem_of_elements s x) Hc).
  clear Hc. vm_compute. reflexivity.
Defined.

(** The reference plan is a policy. *)
Lemma plan_running s t r m : m ∈ plan s t r -> m ∈ r /\ m <> t.
Proof.
  unfold plan, solver_solve, Solve. destruct (contains r t) eqn:Hc.
  - destruct (findContaining _ _) as [[? ?]|]; simpl; by intros ?%elem_of_nil.
  - assert (forall m, m ∈ r -> m <> t) as Hne.
    { intros x Hx ->. assert (contains r t = true); [|congruence].
      apply existsb_exists. exists t. by rewrite String.eqb_refl, <- list_elem_of_In. }
    destruct (solve_sets _ _ _ _ _ _ _ _) as [[b|]|]; simpl.
    + intros [Hm _]%elem_of_filterb. auto.
    + auto.
    + by intros ?%elem_of_nil.
Qed.

#[export] Program Instance matrix_policy (s : matrixSolver) : Swapper :=
  {| EvictionFor := plan s |}.
Next Obligation. intros s t r m Hm. by apply plan_running in Hm as [? _]. Qed.
Next Obligation. intros s t r Hm. by apply plan_running in Hm as [_ ?]. Qed.

End MatrixPolicy.
