(* ===== verification/Tier.v ===== *)
(** Priority tiers ([internal/swaputil/tier.go]) and the preemption predicate
    of the scheduler ([CanPreempt] in [internal/router/scheduler/scheduler.go]). *)

From S2P Require Import Prelude.

Module Tier.

Record Tier := mkTier {
  Name : string;
  Rank : Z;
  Preempts : bool;
  Preemptible : bool;
}.

#[export] Instance Tier_eq_dec : EqDecision Tier.
Proof. solve_decision. Defined.

Definition DefaultTier : Tier := mkTier "default" 0 false false.

End Tier.
