(* ===== verification/SchedTypes.v ===== *)
(** Data of the request scheduler ([internal/router/scheduler/scheduler.go],
    and the types of [fifo.go], [grace.go], [kvwarm.go]): requests, events, the
    state of the FIFO scheduler, and the world it calls back into.

    Pointers, channels, contexts and cancel functions are identities ([nat]):
    the scheduler only compares them or passes them on.  Calls on the outside
    world are recorded in order in [log]; what the world answers is an [Env],
    whose answers may depend on everything logged so far. *)

From S2P Require Import Prelude Tier.

Module Sched.
Import Tier.

(** [process.ProcessState] *)
Inductive ProcessState := StateStopped | StateStarting | StateReady | StateStopping | StateShutdown.

#[export] Instance ProcessState_eq_dec : EqDecision ProcessState.
Proof. solve_decision. Defined.

Definition is_ready (st : ProcessState) : bool := bool_decide (st = StateReady).

Inductive sched_error := ErrModelNotFound | ErrModelNotLoaded | ErrUnloaded | ErrSwap (e : nat) | ErrShutdown (e : nat).

(** *** Park reasons *)
Definition ParkCap : string := "cap".
Definition ParkKV : string := "kv".
Definition ParkBusy : string := "busy".
Definition ParkCooldown : string := "cooldown".
Definition ParkLoading : string := "loading".
Definition ParkRank : string := "rank".
Definition ParkSwapCollision : string := "swap-collision".
Definition ParkPenalized : string := "penalized".
Definition ParkKVWarm : string := "kv-warm".

(** A formatted RFC3339 moment keeps whole seconds; [None] is the empty string. *)
Definition moment := option Z.
Definition rfc3339 (t : Z) : moment := Some (t / nsec_second).

(** *** Requests *)
Record HandlerReq := mkReq {
  Model : string;
  Ctx : option nat;
  Admit : bool;              (* the admission channel is non-nil *)
  Respond : nat;
  EstimatedTokens : Z;
  Session : string;
  ReqTier : Tier;
  ConcurrencyExempt : bool;
  SlotCooldownOff : bool;
  StatusRead : bool;
  PenaltyGate : option nat;
  parkReason : string;
  waitingForSession : string;
  waitingForUntil : moment;
  Preempted : option nat;
  Preempt : option nat;
  arrivalSeq : Z;
}.

#[export] Instance HandlerReq_eq_dec : EqDecision HandlerReq.
Proof. solve_decision. Defined.

Definition rank (r : HandlerReq) : Z := Rank (ReqTier r).

Definition set_seq (r : HandlerReq) (n : Z) : HandlerReq :=
  mkReq (Model r) (Ctx r) (Admit r) (Respond r) (EstimatedTokens r) (Session r) (ReqTier r)
    (ConcurrencyExempt r) (SlotCooldownOff r) (StatusRead r) (PenaltyGate r) (parkReason r)
    (waitingForSession r) (waitingForUntil r) (Preempted r) (Preempt r) n.

Definition set_park (r : HandlerReq) (reason : string) : HandlerReq :=
  mkReq (Model r) (Ctx r) (Admit r) (Respond r) (EstimatedTokens r) (Session r) (ReqTier r)
    (ConcurrencyExempt r) (SlotCooldownOff r) (StatusRead r) (PenaltyGate r) reason
    (waitingForSession r) (waitingForUntil r) (Preempted r) (Preempt r) (arrivalSeq r).

Definition set_waiting (r : HandlerReq) (session : string) (until : moment) : HandlerReq :=
  mkReq (Model r) (Ctx r) (Admit r) (Respond r) (EstimatedTokens r) (Session r) (ReqTier r)
    (ConcurrencyExempt r) (SlotCooldownOff r) (StatusRead r) (PenaltyGate r) (parkReason r)
    session until (Preempted r) (Preempt r) (arrivalSeq r).

Record SwapDone := mkSwapDone { sd_model : string; sd_err : option nat }.

Record ServeDoneEvent := mkServeDone {
  sv_model : string;
  sv_statusRead : bool;
  sv_looping : bool;
  sv_tokens : Z;
  sv_ctx : option nat;
  sv_session : string;
  sv_tier : Tier;
  sv_cut : bool;
  sv_slotCooldownOff : bool;
  sv_holder : option nat;
  sv_capReleaseOnly : bool;
  sv_capReleased : bool;
}.

(** *** Calls on the outside world *)
Inductive metadata := MString (s : string) | MInt (z : Z) | MMoment (m : moment).

Inductive Effect :=
| EAdmit (req : HandlerReq) (err : option sched_error)
| EGrantError (req : HandlerReq) (err : sched_error)
| EGrantServe (req : HandlerReq) (model : string) (ok : bool)
| EStartSwap (model : string) (evict : list string)
| EOnSwapStart (model : string) (running : list string)
| EStopProcesses (timeout : Z) (ids : list string)
| EPreempt (handle : nat)
| ESetMetadata (ctx : nat) (key : string) (value : metadata)
| ESetReqData (ctx : nat) (key : string) (value : metadata)
| EPositions (positions : list (nat * Z)).

(** Answers of the outside world: process states, the clock, and whether the
    party at the other end of a channel is still there. *)
Record Env := mkEnv {
  env_ModelState : list Effect -> string -> option ProcessState;
  env_RunningModels : list Effect -> list string;
  env_now : list Effect -> Z;
  env_GrantServe : list Effect -> HandlerReq -> string -> bool;
  env_Admit : list Effect -> HandlerReq -> bool;
  env_PenaltyGate : list Effect -> HandlerReq -> bool;
  env_MetadataSetter : nat -> bool;
}.

(** *** The scheduler *)
Record grantedReq := mkGranted { g_tier : Tier; g_preempt : nat; g_id : option nat }.

Record activeSwap := mkSwap { sw_modelID : string; sw_evict : list string; waiters : list HandlerReq }.

Record kvResident := mkResident {
  r_session : string;
  r_tokens : Z;
  r_busy : Z;
  r_lastEnd : Z;
  r_warmUntil : Z;
  r_tierRank : Z;
}.

Record ModelCapacity := mkCapacity { mc_model : string; mc_granted : Z; mc_limit : Z; mc_queued : Z }.

Record Cooldown := mkCooldown {
  EvicteeModel : string; NextModel : string; Waiting : Z; RemainingSeconds : Z }.

(** What [NewFIFO] derives from the configuration and never changes. *)
Record Settings := mkSettings {
  Priority : gmap string Z;
  KVPoolTokens : gmap string Z;
  DecodeRetentionSeconds : Z;
  limits : gmap string Z;
  maxLarge : gmap string Z;
  slotCount : gmap string Z;
  grace : gmap string Z;
  holdOnlyWhenContended : bool;
}.

Record FIFO := mkFIFO {
  active : gmap string activeSwap;
  inFlight : gmap string Z;
  queued : list HandlerReq;
  penalized : list HandlerReq;
  granted : gmap string (list grantedReq);
  kvInFlight : gmap string Z;
  kvLargeInFlight : gmap string Z;
  kvLargeOrder : gmap string (list (option nat));
  kvLargeByID : gmap string (gmap (option nat) HandlerReq);
  kvResidents : gmap string (gmap string kvResident);
  idleSince : gmap string Z;
  cooldownForced : bool;
  graceExpiredForced : bool;
  capacity : list ModelCapacity;
  cooldown : option Cooldown;
  nextArrivalSeq : Z;
  lastServedTier : gmap string Tier;
  log : list Effect;
}.

(** *** Field updates *)
Definition set_active (s : FIFO) x : FIFO :=
  mkFIFO x (inFlight s) (queued s) (penalized s) (granted s) (kvInFlight s) (kvLargeInFlight s)
    (kvLargeOrder s) (kvLargeByID s) (kvResidents s) (idleSince s) (cooldownForced s)
    (graceExpiredForced s) (capacity s) (cooldown s) (nextArrivalSeq s) (lastServedTier s) (log s).
Definition set_inFlight (s : FIFO) x : FIFO :=
  mkFIFO (active s) x (queued s) (penalized s) (granted s) (kvInFlight s) (kvLargeInFlight s)
    (kvLargeOrder s) (kvLargeByID s) (kvResidents s) (idleSince s) (cooldownForced s)
    (graceExpiredForced s) (capacity s) (cooldown s) (nextArrivalSeq s) (lastServedTier s) (log s).
Definition set_queued (s : FIFO) x : FIFO :=
  mkFIFO (active s) (inFlight s) x (penalized s) (granted s) (kvInFlight s) (kvLargeInFlight s)
    (kvLargeOrder s) (kvLargeByID s) (kvResidents s) (idleSince s) (cooldownForced s)
    (graceExpiredForced s) (capacity s) (cooldown s) (nextArrivalSeq s) (lastServedTier s) (log s).
Definition set_penalized (s : FIFO) x : FIFO :=
  mkFIFO (active s) (inFlight s) (queued s) x (granted s) (kvInFlight s) (kvLargeInFlight s)
    (kvLargeOrder s) (kvLargeByID s) (kvResidents s) (idleSince s) (cooldownForced s)
    (graceExpiredForced s) (capacity s) (cooldown s) (nextArrivalSeq s) (lastServedTier s) (log s).
Definition set_granted (s : FIFO) x : FIFO :=
  mkFIFO (active s) (inFlight s) (queued s) (penalized s) x (kvInFlight s) (kvLargeInFlight s)
    (kvLargeOrder s) (kvLargeByID s) (kvResidents s) (idleSince s) (cooldownForced s)
    (graceExpiredForced s) (capacity s) (cooldown s) (nextArrivalSeq s) (lastServedTier s) (log s).
Definition set_kvInFlight (s : FIFO) x : FIFO :=
  mkFIFO (active s) (inFlight s) (queued s) (penalized s) (granted s) x (kvLargeInFlight s)
    (kvLargeOrder s) (kvLargeByID s) (kvResidents s) (idleSince s) (cooldownForced s)
    (graceExpiredForced s) (capacity s) (cooldown s) (nextArrivalSeq s) (lastServedTier s) (log s).
Definition set_kvLargeInFlight (s : FIFO) x : FIFO :=
  mkFIFO (active s) (inFlight s) (queued s) (penalized s) (granted s) (kvInFlight s) x
    (kvLargeOrder s) (kvLargeByID s) (kvResidents s) (idleSince s) (cooldownForced s)
    (graceExpiredForced s) (capacity s) (cooldown s) (nextArrivalSeq s) (lastServedTier s) (log s).
Definition set_kvLargeOrder (s : FIFO) x : FIFO :=
  mkFIFO (active s) (inFlight s) (queued s) (penalized s) (granted s) (kvInFlight s)
    (kvLargeInFlight s) x (kvLargeByID s) (kvResidents s) (idleSince s) (cooldownForced s)
    (graceExpiredForced s) (capacity s) (cooldown s) (nextArrivalSeq s) (lastServedTier s) (log s).
Definition set_kvLargeByID (s : FIFO) x : FIFO :=
  mkFIFO (active s) (inFlight s) (queued s) (penalized s) (granted s) (kvInFlight s)
    (kvLargeInFlight s) (kvLargeOrder s) x (kvResidents s) (idleSince s) (cooldownForced s)
    (graceExpiredForced s) (capacity s) (cooldown s) (nextArrivalSeq s) (lastServedTier s) (log s).
Definition set_kvResidents (s : FIFO) x : FIFO :=
  mkFIFO (active s) (inFlight s) (queued s) (penalized s) (granted s) (kvInFlight s)
    (kvLargeInFlight s) (kvLargeOrder s) (kvLargeByID s) x (idleSince s) (cooldownForced s)
    (graceExpiredForced s) (capacity s) (cooldown s) (nextArrivalSeq s) (lastServedTier s) (log s).
Definition set_idleSince (s : FIFO) x : FIFO :=
  mkFIFO (active s) (inFlight s) (queued s) (penalized s) (granted s) (kvInFlight s)
    (kvLargeInFlight s) (kvLargeOrder s) (kvLargeByID s) (kvResidents s) x (cooldownForced s)
    (graceExpiredForced s) (capacity s) (cooldown s) (nextArrivalSeq s) (lastServedTier s) (log s).
Definition set_cooldownForced (s : FIFO) x : FIFO :=
  mkFIFO (active s) (inFlight s) (queued s) (penalized s) (granted s) (kvInFlight s)
    (kvLargeInFlight s) (kvLargeOrder s) (kvLargeByID s) (kvResidents s) (idleSince s) x
    (graceExpiredForced s) (capacity s) (cooldown s) (nextArrivalSeq s) (lastServedTier s) (log s).
Definition set_graceExpiredForced (s : FIFO) x : FIFO :=
  mkFIFO (active s) (inFlight s) (queued s) (penalized s) (granted s) (kvInFlight s)
    (kvLargeInFlight s) (kvLargeOrder s) (kvLargeByID s) (kvResidents s) (idleSince s)
    (cooldownForced s) x (capacity s) (cooldown s) (nextArrivalSeq s) (lastServedTier s) (log s).
Definition set_capacity (s : FIFO) x : FIFO :=
  mkFIFO (active s) (inFlight s) (queued s) (penalized s) (granted s) (kvInFlight s)
    (kvLargeInFlight s) (kvLargeOrder s) (kvLargeByID s) (kvResidents s) (idleSince s)
    (cooldownForced s) (graceExpiredForced s) x (cooldown s) (nextArrivalSeq s) (lastServedTier s)
    (log s).
Definition set_cooldown (s : FIFO) x : FIFO :=
  mkFIFO (active s) (inFlight s) (queued s) (penalized s) (granted s) (kvInFlight s)
    (kvLargeInFlight s) (kvLargeOrder s) (kvLargeByID s) (kvResidents s) (idleSince s)
    (cooldownForced s) (graceExpiredForced s) (capacity s) x (nextArrivalSeq s) (lastServedTier s)
    (log s).
Definition set_nextArrivalSeq (s : FIFO) x : FIFO :=
  mkFIFO (active s) (inFlight s) (queued s) (penalized s) (granted s) (kvInFlight s)
    (kvLargeInFlight s) (kvLargeOrder s) (kvLargeByID s) (kvResidents s) (idleSince s)
    (cooldownForced s) (graceExpiredForced s) (capacity s) (cooldown s) x (lastServedTier s)
    (log s).
Definition set_lastServedTier (s : FIFO) x : FIFO :=
  mkFIFO (active s) (inFlight s) (queued s) (penalized s) (granted s) (kvInFlight s)
    (kvLargeInFlight s) (kvLargeOrder s) (kvLargeByID s) (kvResidents s) (idleSince s)
    (cooldownForced s) (graceExpiredForced s) (capacity s) (cooldown s) (nextArrivalSeq s) x
    (log s).
Definition set_log (s : FIFO) x : FIFO :=
  mkFIFO (active s) (inFlight s) (queued s) (penalized s) (granted s) (kvInFlight s)
    (kvLargeInFlight s) (kvLargeOrder s) (kvLargeByID s) (kvResidents s) (idleSince s)
    (cooldownForced s) (graceExpiredForced s) (capacity s) (cooldown s) (nextArrivalSeq s)
    (lastServedTier s) x.

Definition emit (e : Effect) (s : FIFO) : FIFO := set_log s (log s ++ [e]).

Section reads.
Variable env : Env.

Definition ModelState (s : FIFO) (m : string) : option ProcessState := env_ModelState env (log s) m.
Definition now (s : FIFO) : Z := env_now env (log s).

(** *** Metadata stamps *)
Definition stamp (ctx : option nat) (key : string) (v : metadata) (s : FIFO) : FIFO :=
  match ctx with
  | Some c => if env_MetadataSetter env c then emit (ESetMetadata c key v) s else s
  | None => s
  end.

Definition markWaitingFor (req : HandlerReq) (session : string) (until : moment) (s : FIFO)
  : HandlerReq * FIFO :=
  if String.eqb (waitingForSession req) session && bool_decide (waitingForUntil req = until)
  then (req, s)
  else
    let req := set_waiting req session until in
    (req, stamp (Ctx req) "waiting_for_until" (MMoment until)
            (stamp (Ctx req) "waiting_for_session" (MString session) s)).

Definition markParked (req : HandlerReq) (reason : string) (s : FIFO) : HandlerReq * FIFO :=
  if String.eqb (parkReason req) reason then (req, s)
  else
    let req := set_park req reason in
    let '(req, s) := if String.eqb reason "" then markWaitingFor req "" None s else (req, s) in
    (req, stamp (Ctx req) "park_reason" (MString reason) s).

Definition clearParked (req : HandlerReq) (s : FIFO) : HandlerReq * FIFO := markParked req "" s.

Definition markKVParked (req : HandlerReq) (s : FIFO) : FIFO :=
  stamp (Ctx req) "kv_parked" (MString "1") s.

End reads.

(** [swaputil.CanPreempt] *)
Definition CanPreempt (victim arrival : Tier) : bool :=
  if Rank arrival <=? Rank victim then false else Preemptible victim || Preempts arrival.

(** [defaultConcurrencyLimit], [largePrefillThreshold] and
    [config.MODEL_CONFIG_DEFAULT_MAX_PARALLEL_LARGE_PREFILL] *)
Definition defaultConcurrencyLimit : Z := 10.
Definition largePrefillThreshold : Z := 8192.
Definition default_max_parallel_large_prefill : Z := 1.

End Sched.
