(* ===== verification/KvWarm.v ===== *)
(** The slot cooldown ([internal/router/scheduler/kvwarm.go]): which session's
    prompt sits in each model's slots, and when granting a request would
    displace one that is still cooling. *)

From Stdlib Require Import Ascii.
From S2P Require Import Prelude Tier SchedTypes.

Module KvWarm.
Import Tier Sched.

Section kvwarm.
Variable cfg : Settings.
Variable env : Env.

Abbreviation now s := (now env s).

Definition cooldownDelay : Z := i64 (DecodeRetentionSeconds cfg * nsec_second).

Definition kvResidentForget : Z := 60 * nsec_minute.

Fixpoint before_slash (s : string) : string :=
  match s with
  | EmptyString => EmptyString
  | String c s => if Ascii.eqb c "/"%char then EmptyString else String c (before_slash s)
  end.

(** [sessionRoot]: the part before the first slash. *)
Definition sessionRoot (session : string) : string := before_slash session.

Definition kvWarmCooling (r : kvResident) (now : Z) : bool :=
  (r_busy r =? 0) && before now (r_warmUntil r).

(** Oldest completion first, session id as the tie-break. *)
Definition kv_le (a b : kvResident) : Prop :=
  r_lastEnd a < r_lastEnd b \/ (r_lastEnd a = r_lastEnd b /\ String.le (r_session a) (r_session b)).

#[export] Instance kv_le_dec a b : Decision (kv_le a b).
Proof. unfold kv_le. apply _. Defined.

Definition residents (s : FIFO) (model : string) : gmap string kvResident :=
  default ∅ (kvResidents s !! model).

Definition kvWarmSorted (s : FIFO) (model : string) : list kvResident :=
  merge_sort kv_le (map snd (map_to_list (residents s model))).

(** The loop of [kvWarmBlocker]: how many other sessions cool, how many tokens
    they hold, and the largest of them. *)
Record scan := mkScan { cooling : Z; warm : Z; blocker : option kvResident }.

(** [r] is a cooling slot that [req] has no claim on. *)
Definition holds_against (req : HandlerReq) (now : Z) (r : kvResident) : bool :=
  negb (negb (String.eqb (Session req) "") &&
        String.eqb (sessionRoot (r_session r)) (sessionRoot (Session req))) &&
  kvWarmCooling r now &&
  negb (Preempts (ReqTier req) && (r_tierRank r <? rank req)).

Definition scan_step (req : HandlerReq) (now : Z) (acc : scan) (r : kvResident) : scan :=
  if holds_against req now r then
    mkScan (cooling acc + 1) (warm acc + r_tokens r)
      (match blocker acc with
       | None => Some r
       | Some b => if r_tokens b <? r_tokens r then Some r else Some b
       end)
  else acc.

Definition kvWarmBlocker (s : FIFO) (req : HandlerReq) : option kvResident :=
  if StatusRead req || ConcurrencyExempt req then None
  else
    let acc := foldl (scan_step req (now s)) (mkScan 0 0 None) (kvWarmSorted s (Model req)) in
    match blocker acc with
    | None => None
    | Some b =>
      let pool := get0 (KVPoolTokens cfg) (Model req) in
      if (0 <? pool) && (pool <? get0 (kvInFlight s) (Model req) + warm acc + EstimatedTokens req)
      then Some b
      else
        let slots := get0 (slotCount cfg) (Model req) in
        if (0 <? slots) && (slots <=? get0 (inFlight s) (Model req) + cooling acc) then Some b
        else None
    end.

Definition set_residents (s : FIFO) (model : string) (rs : gmap string kvResident) : FIFO :=
  set_kvResidents s (<[model := rs]> (kvResidents s)).

(** [kvWarmDisplace]: drop idle residencies, oldest first, until the rest fits. *)
Fixpoint displace (pool slots : Z) (tokens count : Z) (idle : list kvResident)
    (rs : gmap string kvResident) : gmap string kvResident :=
  match idle with
  | [] => rs
  | r :: idle =>
    if ((0 <? pool) && (pool <? tokens)) || ((0 <? slots) && (slots <? count)) then
      displace pool slots (tokens - r_tokens r) (count - 1) idle (delete (r_session r) rs)
    else rs
  end.

Definition kvWarmDisplace (s : FIFO) (modelID : string) : FIFO :=
  match kvResidents s !! modelID with
  | None => s
  | Some rs =>
    let idle := List.filter (fun r => r_busy r =? 0) (kvWarmSorted s modelID) in
    set_residents s modelID
      (displace (get0 (KVPoolTokens cfg) modelID) (get0 (slotCount cfg) modelID)
         (get0 (kvInFlight s) modelID + sumZ (map r_tokens idle))
         (get0 (inFlight s) modelID + Z.of_nat (length idle)) idle rs)
  end.

Definition kvWarmOnGrant (s : FIFO) (req : HandlerReq) (modelID : string) : FIFO :=
  if (get0 (grace cfg) modelID <=? 0) || StatusRead req || ConcurrencyExempt req then s
  else
    let s :=
      if String.eqb (Session req) "" then s
      else
        let rs := residents s modelID in
        let r := default (mkResident (Session req) 0 0 0 0 0) (rs !! Session req) in
        set_residents s modelID
          (<[Session req := mkResident (r_session r) (EstimatedTokens req) (r_busy r + 1)
                              (r_lastEnd r) (r_warmUntil r) (rank req)]> rs) in
    kvWarmDisplace s modelID.

Definition kvWarmOnDone (s : FIFO) (ev : ServeDoneEvent) : FIFO :=
  let g := get0 (grace cfg) (sv_model ev) in
  if String.eqb (sv_session ev) "" || (g <=? 0) then s
  else
    let rs := residents s (sv_model ev) in
    match rs !! sv_session ev with
    | None => s
    | Some r =>
      let busy := if 0 <? r_busy r then r_busy r - 1 else r_busy r in
      let put r := set_residents s (sv_model ev) (<[sv_session ev := r]> rs) in
      let r := mkResident (r_session r) (r_tokens r) busy (r_lastEnd r) (r_warmUntil r) (r_tierRank r) in
      if 0 <? busy then put r
      else if sv_slotCooldownOff ev then put r
      else
        let now := now s in
        put (mkResident (r_session r) (sv_tokens ev) busy now
               (if sv_looping ev then r_warmUntil r else now + i64 (cooldownDelay + g))
               (Rank (sv_tier ev)))
    end.

Definition end_cooldown (r : kvResident) : kvResident :=
  mkResident (r_session r) (r_tokens r) (r_busy r) (r_lastEnd r) 0 (r_tierRank r).

(** [EndSlotCooldown]: one session's cooldown, on every model. *)
Definition EndSlotCooldown (s : FIFO) (session : string) : FIFO :=
  set_kvResidents s
    ((fun rs : gmap string kvResident =>
        match rs !! session with
        | Some r => if kvWarmCooling r (now s) then <[session := end_cooldown r]> rs else rs
        | None => rs
        end) <$> kvResidents s).

Definition kvWarmEndCooldowns (s : FIFO) : FIFO :=
  set_kvResidents s ((fun rs : gmap string kvResident => end_cooldown <$> rs) <$> kvResidents s).

Definition forgotten (now : Z) (r : kvResident) : bool :=
  (r_busy r =? 0) && negb (kvWarmCooling r now) && negb (is_zero_time (r_lastEnd r)) &&
  (kvResidentForget <? time_sub now (r_lastEnd r)).

Definition kvWarmPrune (s : FIFO) : FIFO :=
  set_kvResidents s
    (filter (fun kv => size kv.2 <> 0%nat)
       ((fun rs : gmap string kvResident => filter (fun kv => forgotten (now s) kv.2 = false) rs)
          <$> kvResidents s)).

Definition kvWarmForget (s : FIFO) (models : list string) : FIFO :=
  set_kvResidents s (foldl (fun m id => delete id m) (kvResidents s) models).

(** [SlotWarmUntil]: per cooling session, the latest end over the models. *)
Definition slot_latest (now : Z) (latest : gmap string Z) (r : kvResident) : gmap string Z :=
  if kvWarmCooling r now && after (r_warmUntil r) (get0 latest (r_session r))
  then <[r_session r := r_warmUntil r]> latest else latest.

Definition SlotWarmUntil (s : FIFO) : gmap string moment :=
  rfc3339 <$>
    foldl (fun latest m => foldl (slot_latest (now s)) latest (kvWarmSorted s m)) ∅
      (sort_strings (map fst (map_to_list (kvResidents s)))).

End kvwarm.
End KvWarm.
