(* ===== verification/Grace.v ===== *)
(** The swap-grace window of the scheduler ([withinGrace] and its companions in
    [internal/router/scheduler/fifo.go]) and the published snapshots
    ([grace.go], [capacity.go]). *)

From S2P Require Import Prelude Tier Swappers SchedTypes KvWarm.

Module Grace.
Import Tier Swapper Sched KvWarm.

Section grace.
Context {planner : Swapper}.
Variable cfg : Settings.
Variable env : Env.

Abbreviation now s := (now env s).

(** *** The live model set *)
Definition activeTargets (active : gmap string activeSwap) (exclude : string) : list string :=
  List.filter (fun id => negb (String.eqb id exclude)) (map fst (map_to_list active)).

(** Every process reported as running and every target of an in-flight swap,
    without duplicates, sorted. *)
Definition runningSet (s : FIFO) (excludeActive : string) : list string :=
  sort_strings (remove_dups
    (env_RunningModels env (log s) ++ activeTargets (active s) excludeActive)).

Definition containsString (xs : list string) (s : string) : bool := existsb (String.eqb s) xs.

Definition slicesOverlap (xs ys : list string) : bool := existsb (containsString ys) xs.

(** A new swap of [target] cannot run beside the active swaps. *)
Definition collidesWith (target : string) (evict : list string) (active : gmap string activeSwap) : bool :=
  existsb (fun kv =>
    negb (String.eqb kv.1 target) &&
    (containsString evict kv.1 || containsString (sw_evict kv.2) target ||
     slicesOverlap evict (sw_evict kv.2)))
    (map_to_list active).

Definition conflictsWithInFlight (evict : list string) (inFlight : gmap string Z) : bool :=
  existsb (fun m => 0 <? get0 inFlight m) evict.

Definition beingEvicted (s : FIFO) (model : string) : bool :=
  existsb (fun kv => containsString (sw_evict kv.2) model) (map_to_list (active s)).

(** *** The grace check *)

(** [m] is inside its own grace window. *)
Definition model_in_grace (s : FIFO) (m : string) : bool :=
  let g := get0 (grace cfg) m in
  if g <=? 0 then false
  else match idleSince s !! m with
       | None => false
       | Some since => time_sub (now s) since <? g
       end.

Definition withinGrace (s : FIFO) (evict : list string) : bool := existsb (model_in_grace s) evict.

Definition consumeForced (s : FIFO) : bool * FIFO := (cooldownForced s, set_cooldownForced s false).

Definition consumeGraceExpiredForced (s : FIFO) : bool * FIFO :=
  (graceExpiredForced s, set_graceExpiredForced s false).

(** A strictly higher-rank arrival of a preempting tier breaks the grace of the
    first evictee served for a lower rank. *)
Definition breaks_grace (s : FIFO) (req : HandlerReq) (evict : list string) : bool :=
  existsb (fun m => match lastServedTier s !! m with
                    | Some st => (Rank st <? rank req) && Preempts (ReqTier req)
                    | None => false
                    end) evict.

Definition deferredByGrace (s : FIFO) (req : HandlerReq) (evict : list string) : bool * FIFO :=
  if negb (withinGrace s evict) then (false, s)
  else
    let '(forced, s) := consumeForced s in
    if forced then (false, s)
    else (negb (breaks_grace s req evict), s).

Definition expireForcedGrace (s : FIFO) : FIFO :=
  let '(forced, s) := consumeGraceExpiredForced s in
  if negb forced then s
  else
    let s := kvWarmEndCooldowns s in
    set_idleSince s
      (filter (fun kv : string * Z =>
         (0 <? get0 (inFlight s) kv.1) || beingEvicted s kv.1 || negb (model_in_grace s kv.1) = true)
         (idleSince s)).

(** [FinishCooldown], called from any goroutine. *)
Definition FinishCooldown (s : FIFO) : FIFO := set_graceExpiredForced (set_cooldownForced s true) true.

Definition graceUntil (s : FIFO) (evict : list string) : Z :=
  foldl (fun until m =>
    match idleSince s !! m with
    | Some since =>
      let g := get0 (grace cfg) m in
      if model_in_grace s m && after (since + g) until then since + g else until
    | None => until
    end) 0 evict.

Definition markGraceParked (req : HandlerReq) (evict : list string) (s : FIFO) : HandlerReq * FIFO :=
  if existsb (fun m => match idleSince s !! m with
                       | Some since => before (now s) since
                       | None => false
                       end) evict
  then
    let '(req, s) := markParked env req ParkBusy s in
    markWaitingFor env req "" None s
  else
    let '(req, s) := markParked env req ParkCooldown s in
    markWaitingFor env req "" (rfc3339 (graceUntil s evict)) s.

(** *** Snapshots *)

(** [int(d.Round(time.Second) / time.Second)] of a positive duration: halves
    round up. *)
Definition round_seconds (d : Z) : Z :=
  let r := d mod nsec_second in
  (if r + r <? nsec_second then d - r else d - r + nsec_second) / nsec_second.

(** The remaining grace of a model that is cooling: idle, past the decode
    retention, and inside its window. *)
Definition remaining_grace (s : FIFO) (m : string) : option Z :=
  let g := get0 (grace cfg) m in
  if g <=? 0 then None
  else match idleSince s !! m with
       | None => None
       | Some since =>
         if before (now s) since || (0 <? get0 (inFlight s) m) then None
         else
           let remaining := g - time_sub (now s) since in
           if remaining <=? 0 then None else Some remaining
       end.

Fixpoint first_cooling (s : FIFO) (evict : list string) : option (string * Z) :=
  match evict with
  | [] => None
  | ev :: evict =>
    match remaining_grace s ev with
    | Some remaining => Some (ev, remaining)
    | None => first_cooling s evict
    end
  end.

Definition snapshot_step (s : FIFO) (out : option Cooldown) (q : HandlerReq) : option Cooldown :=
  match first_cooling s (EvictionFor (Model q) (runningSet s (Model q))) with
  | None => out
  | Some (ev, remaining) =>
    let c := match out with
             | None => mkCooldown ev (Model q) 0 (round_seconds remaining)
             | Some c => c
             end in
    Some (if String.eqb (EvicteeModel c) ev
          then mkCooldown (EvicteeModel c) (NextModel c) (Waiting c + 1) (RemainingSeconds c)
          else c)
  end.

Definition cooldownSnapshotWaiting (s : FIFO) : option Cooldown :=
  foldl (snapshot_step s) None (queued s).

Fixpoint idle_cooldown (s : FIFO) (ids : list string) : option Cooldown :=
  match ids with
  | [] => None
  | id :: ids =>
    if beingEvicted s id then idle_cooldown s ids
    else match remaining_grace s id with
         | Some remaining => Some (mkCooldown id "" 0 (round_seconds remaining))
         | None => idle_cooldown s ids
         end
  end.

Definition cooldownSnapshotIdle (s : FIFO) : option Cooldown :=
  idle_cooldown s (sort_strings (map fst (map_to_list (idleSince s)))).

Definition cooldownSnapshot (s : FIFO) : option Cooldown :=
  match cooldownSnapshotWaiting s with
  | Some c => Some c
  | None => cooldownSnapshotIdle s
  end.

Definition publishGrace (s : FIFO) : FIFO := set_cooldown s (cooldownSnapshot s).

(** *** Capacity *)
Definition limit (modelID : string) : Z := default defaultConcurrencyLimit (limits cfg !! modelID).

Definition queued_count (s : FIFO) : gmap string Z :=
  foldl (fun m q => <[Model q := get0 m (Model q) + 1]> m) ∅ (queued s).

Definition capacitySnapshot (s : FIFO) : list ModelCapacity :=
  let queued := queued_count s in
  map (fun m => mkCapacity m (get0 (inFlight s) m) (limit m) (get0 queued m))
      (elements (dom (inFlight s) ∪ dom queued)).

Definition publishCapacity (s : FIFO) : FIFO := set_capacity s (capacitySnapshot s).

End grace.
End Grace.
