(* ===== verification/Fifo.v ===== *)
(** The FIFO scheduler ([internal/router/scheduler/fifo.go]): the decision tree
    of an arrival, the queue, grants, preemption, KV admission, swaps, and one
    function per event of the router's run loop. *)

From S2P Require Import Prelude Tier Swappers SchedTypes KvWarm Grace.

Module Fifo.
Import Tier Swapper Sched KvWarm Grace.

Section fifo.
Context {planner : Swapper}.
Variable cfg : Settings.
Variable env : Env.

Abbreviation ModelState s m := (ModelState env s m).
Abbreviation now s := (now env s).
Abbreviation markParked := (markParked env).
Abbreviation markWaitingFor := (markWaitingFor env).
Abbreviation runningSet := (runningSet env).
Abbreviation publishCapacity := (publishCapacity cfg).
Abbreviation publishGrace := (publishGrace cfg env).
Abbreviation limit := (limit cfg).

Definition publish (s : FIFO) : FIFO := publishGrace (publishCapacity s).

(** *** Admission handshake *)
Definition sendAdmission (req : HandlerReq) (err : option sched_error) (s : FIFO) : bool * FIFO :=
  if negb (Admit req) then (true, s)
  else match Ctx req with
       | None => (true, emit (EAdmit req err) s)
       | Some _ => if env_Admit env (log s) req then (true, emit (EAdmit req err) s) else (false, s)
       end.

Definition admit_ (req : HandlerReq) (s : FIFO) : bool * FIFO := sendAdmission req None s.

Definition rejectAdmission (req : HandlerReq) (err : sched_error) (s : FIFO) : FIFO :=
  (sendAdmission req (Some err) s).2.

(** *** Loop-guard penalty *)
Definition contended (s : FIFO) : bool :=
  (0 <? Z.of_nat (length (queued s))) || (0 <? Z.of_nat (size (active s))).

Definition penaltyHeldUnder (s : FIFO) (req : HandlerReq) (contended : bool) : bool :=
  match PenaltyGate req with
  | None => false
  | Some _ =>
    if StatusRead req || ConcurrencyExempt req then false
    else if negb (env_PenaltyGate env (log s) req) then false
    else if holdOnlyWhenContended cfg && negb contended then false
    else true
  end.

Definition penaltyHeld (s : FIFO) (req : HandlerReq) : bool := penaltyHeldUnder s req (contended s).

(** *** The queue *)
Definition priority (req : HandlerReq) : Z := get0 (Priority cfg) (Model req).

(** [req] goes before [q]. *)
Definition goes_before (req q : HandlerReq) : bool :=
  (rank q <? rank req) ||
  ((rank q =? rank req) &&
   ((priority q <? priority req) ||
    ((priority q =? priority req) && (arrivalSeq req <? arrivalSeq q)))).

Fixpoint insert_req (req : HandlerReq) (qs : list HandlerReq) : list HandlerReq :=
  match qs with
  | [] => [req]
  | q :: qs' => if goes_before req q then req :: qs else q :: insert_req req qs'
  end.

Fixpoint positions (i : Z) (qs : list HandlerReq) : list (nat * Z) :=
  match qs with
  | [] => []
  | q :: qs => (Respond q, i) :: positions (i + 1) qs
  end.

Definition broadcastQueuePositions (s : FIFO) : FIFO :=
  match queued s with
  | [] => s
  | qs => emit (EPositions (positions 1 qs)) s
  end.

Definition enqueue (req : HandlerReq) (s : FIFO) : FIFO :=
  publish (broadcastQueuePositions (set_queued s (insert_req req (queued s)))).

Definition blockedByRankBarrier (s : FIFO) (req : HandlerReq) : bool :=
  existsb (fun q => negb (Nat.eqb (Respond q) (Respond req)) && (rank req <? rank q)) (queued s).

(** *** Capacity and KV admission *)
Definition atCapacity (s : FIFO) (req : HandlerReq) : bool :=
  if ConcurrencyExempt req then false else limit (Model req) <=? get0 (inFlight s) (Model req).

Definition maxLargeFor (model : string) : Z :=
  default default_max_parallel_large_prefill (maxLarge cfg !! model).

Definition kvAdmit (s : FIFO) (model : string) (estimate : Z) : bool :=
  let pool := get0 (KVPoolTokens cfg) model in
  if pool <=? 0 then true
  else
    let inflight := get0 (kvInFlight s) model in
    if inflight <=? 0 then true
    else
      let n := maxLargeFor model in
      if (0 <? n) && (largePrefillThreshold <=? estimate) && (n <=? get0 (kvLargeInFlight s) model)
      then false
      else inflight + estimate <=? pool.

Definition large_order (s : FIFO) (model : string) : list (option nat) :=
  default [] (kvLargeOrder s !! model).

Definition large_by_id (s : FIFO) (model : string) : gmap (option nat) HandlerReq :=
  default ∅ (kvLargeByID s !! model).

Fixpoint first_session (byID : gmap (option nat) HandlerReq) (ctxs : list (option nat)) : string :=
  match ctxs with
  | [] => ""
  | c :: ctxs => match byID !! c with Some r => Session r | None => first_session byID ctxs end
  end.

Definition kvWaitingSession (s : FIFO) (model : string) : string :=
  first_session (large_by_id s model) (large_order s model).

Fixpoint remove_first (c : option nat) (l : list (option nat)) : list (option nat) :=
  match l with
  | [] => []
  | x :: l => if decide (x = c) then l else x :: remove_first c l
  end.

Definition releaseKV (s : FIFO) (model : string) (estimate : Z) (ctx : option nat) : bool * FIFO :=
  if (estimate <=? 0) || (get0 (kvInFlight s) model <=? 0) then (false, s)
  else
    let left := get0 (kvInFlight s) model - estimate in
    let s := set_kvInFlight s (<[model := if left <? 0 then 0 else left]> (kvInFlight s)) in
    let s :=
      if (largePrefillThreshold <=? estimate) && (0 <? get0 (kvLargeInFlight s) model)
      then set_kvLargeInFlight s (<[model := get0 (kvLargeInFlight s) model - 1]> (kvLargeInFlight s))
      else s in
    let s := match kvLargeOrder s !! model with
             | Some ids => set_kvLargeOrder s (<[model := remove_first ctx ids]> (kvLargeOrder s))
             | None => s
             end in
    let s := match kvLargeByID s !! model with
             | Some m => set_kvLargeByID s (<[model := delete ctx m]> (kvLargeByID s))
             | None => s
             end in
    (true, s).

(** *** Preemption *)

(** One pass over the victims of one model; [true] means the limit was hit. *)
Fixpoint boot (limit : Z) (arrival : Tier) (victims : list grantedReq) (booted : Z) (s : FIFO)
  : bool * Z * FIFO :=
  match victims with
  | [] => (false, booted, s)
  | v :: victims =>
    if (0 <? limit) && (limit <=? booted) then (true, booted, s)
    else if CanPreempt (g_tier v) arrival then
      boot limit arrival victims (booted + 1) (emit (EPreempt (g_preempt v)) s)
    else boot limit arrival victims booted s
  end.

Fixpoint boot_models (limit : Z) (arrival : Tier) (evict : list string) (booted : Z) (s : FIFO)
  : bool * FIFO :=
  match evict with
  | [] => (0 <? booted, s)
  | m :: evict =>
    let '(stop, booted, s) := boot limit arrival (default [] (granted s !! m)) booted s in
    if stop : bool then (true, s) else boot_models limit arrival evict booted s
  end.

Definition tryPreempt (req : HandlerReq) (evict : list string) (limit : Z) (s : FIFO) : bool * FIFO :=
  boot_models limit (ReqTier req) evict 0 s.

Fixpoint drop_id (id : nat) (g : list grantedReq) : list grantedReq :=
  match g with
  | [] => []
  | e :: g => if bool_decide (g_id e = Some id) then g else e :: drop_id id g
  end.

Definition dropGranted (s : FIFO) (model : string) (id : option nat) : FIFO :=
  match granted s !! model with
  | None | Some [] => s
  | Some g =>
    let g := match id with
             | None => take (length g - 1) g
             | Some i => drop_id i g
             end in
    match g with
    | [] => set_granted s (delete model (granted s))
    | _ => set_granted s (<[model := g]> (granted s))
    end
  end.

(** *** Grants *)
Definition grantHandler (req : HandlerReq) (modelID : string) (s : FIFO) : FIFO :=
  let '(req, s) := clearParked env req s in
  let s := match Ctx req with
           | Some c => emit (ESetReqData c "fifo_priority" (MInt (priority req))) s
           | None => s
           end in
  let ok := env_GrantServe env (log s) req modelID in
  let s := emit (EGrantServe req modelID ok) s in
  if negb ok then s
  else if StatusRead req then s
  else
    let s := set_inFlight s (<[modelID := get0 (inFlight s) modelID + 1]> (inFlight s)) in
    let s :=
      if 0 <? EstimatedTokens req then
        let s := set_kvInFlight s
          (<[modelID := get0 (kvInFlight s) modelID + EstimatedTokens req]> (kvInFlight s)) in
        if largePrefillThreshold <=? EstimatedTokens req then
          let s := set_kvLargeInFlight s
            (<[modelID := get0 (kvLargeInFlight s) modelID + 1]> (kvLargeInFlight s)) in
          let s := set_kvLargeOrder s
            (<[modelID := large_order s modelID ++ [Ctx req]]> (kvLargeOrder s)) in
          set_kvLargeByID s (<[modelID := <[Ctx req := req]> (large_by_id s modelID)]> (kvLargeByID s))
        else s
      else s in
    let s := kvWarmOnGrant cfg s req modelID in
    let s := match Preempt req with
             | Some h => set_granted s
                 (<[modelID := default [] (granted s !! modelID) ++ [mkGranted (ReqTier req) h (Preempted req)]]>
                    (granted s))
             | None => s
             end in
    publish (set_lastServedTier s (<[modelID := ReqTier req]> (lastServedTier s))).

Definition startSwap (initial : HandlerReq) (evict running : list string) (s : FIFO) : FIFO :=
  let s := kvWarmForget s [Model initial] in
  let s := kvWarmForget s evict in
  let s := set_active s (<[Model initial := mkSwap (Model initial) evict [initial]]> (active s)) in
  emit (EStartSwap (Model initial) evict) (emit (EOnSwapStart (Model initial) running) s).

(** Join the swap of the request's own model. *)
Definition joinSwap (req : HandlerReq) (sw : activeSwap) (s : FIFO) : FIFO :=
  set_active s (<[Model req := mkSwap (sw_modelID sw) (sw_evict sw) (waiters sw ++ [req])]> (active s)).

(** *** Draining the queue *)
Record drain := mkDrain { d_fifo : FIFO; d_remaining : list HandlerReq; d_barrier : option Z }.

Definition stick (req : HandlerReq) (s : FIFO) (d : drain) : drain :=
  mkDrain s (d_remaining d ++ [req])
    (match d_barrier d with
     | None => Some (rank req)
     | Some b => if b <? rank req then Some (rank req) else Some b
     end).

Definition drain_step (d : drain) (req : HandlerReq) : drain :=
  let s := d_fifo d in
  let leave s := mkDrain s (d_remaining d) (d_barrier d) in
  if match d_barrier d with Some b => rank req <? b | None => false end then
    let '(req, s) := markParked req ParkRank s in
    mkDrain s (d_remaining d ++ [req]) (d_barrier d)
  else
  match ModelState s (Model req) with
  | None => leave (emit (EGrantError req ErrModelNotFound) s)
  | Some state =>
    match active s !! Model req with
    | Some sw =>
      let '(req, s) := markParked req ParkLoading s in
      leave (joinSwap req sw s)
    | None =>
      let running := runningSet s (Model req) in
      let evict := EvictionFor (Model req) running in
      if atCapacity s req then
        let s := (tryPreempt req [Model req] 1 s).2 in
        let '(req, s) := markParked req ParkCap s in
        stick req s d
      else if is_ready state && (Z.of_nat (length evict) =? 0) &&
              negb (collidesWith (Model req) evict (active s)) then
        if negb (kvAdmit s (Model req) (EstimatedTokens req)) then
          let s := (tryPreempt req [Model req] 1 s).2 in
          let s := markKVParked env req s in
          let '(req, s) := markParked req ParkKV s in
          let '(req, s) := markWaitingFor req (kvWaitingSession s (Model req)) None s in
          stick req s d
        else match kvWarmBlocker cfg env s req with
        | Some r =>
          let s := markKVParked env req s in
          let '(req, s) := markParked req ParkKVWarm s in
          let '(req, s) := markWaitingFor req (r_session r) (rfc3339 (r_warmUntil r)) s in
          stick req s d
        | None => leave (grantHandler req (Model req) s)
        end
      else if collidesWith (Model req) evict (active s) then
        let '(req, s) := markParked req ParkSwapCollision s in
        stick req s d
      else if conflictsWithInFlight evict (inFlight s) then
        let s := (tryPreempt req evict 0 s).2 in
        let '(req, s) := markParked req ParkBusy s in
        stick req s d
      else
        let '(deferred, s) := deferredByGrace cfg env s req evict in
        if deferred then
          let '(req, s) := markGraceParked cfg env req evict s in
          stick req s d
        else
          let '(req, s) := markParked req ParkLoading s in
          leave (startSwap req evict running s)
    end
  end.

Definition drainQueue (s : FIFO) : FIFO :=
  match queued s with
  | [] => s
  | pending =>
    let d := foldl drain_step (mkDrain s [] None) pending in
    let s := set_queued (d_fifo d) (d_remaining d) in
    publish (broadcastQueuePositions (kvWarmPrune env s))
  end.

(** *** Events *)
Definition OnRequest (req : HandlerReq) (s : FIFO) : FIFO :=
  match ModelState s (Model req) with
  | None => rejectAdmission req ErrModelNotFound s
  | Some state =>
    if StatusRead req && negb (is_ready state) && bool_decide (active s !! Model req = None) then
      rejectAdmission req ErrModelNotLoaded s
    else
    let '(admitted, s) := admit_ req s in
    if negb admitted then s
    else
    let s := set_nextArrivalSeq s (nextArrivalSeq s + 1) in
    let req := set_seq req (nextArrivalSeq s) in
    if penaltyHeld s req then
      let '(req, s) := markParked req ParkPenalized s in
      publish (set_penalized s (penalized s ++ [req]))
    else if blockedByRankBarrier s req then
      let '(req, s) := markParked req ParkRank s in
      enqueue req s
    else
    match active s !! Model req with
    | Some sw =>
      let '(req, s) := markParked req ParkLoading s in
      joinSwap req sw s
    | None =>
      let running := runningSet s (Model req) in
      let evict := EvictionFor (Model req) running in
      if atCapacity s req then
        let s := (tryPreempt req [Model req] 1 s).2 in
        let '(req, s) := markParked req ParkCap s in
        enqueue req s
      else if is_ready state && (Z.of_nat (length evict) =? 0) &&
              negb (collidesWith (Model req) evict (active s)) then
        if negb (kvAdmit s (Model req) (EstimatedTokens req)) then
          let s := (tryPreempt req [Model req] 1 s).2 in
          let s := markKVParked env req s in
          let '(req, s) := markParked req ParkKV s in
          let '(req, s) := markWaitingFor req (kvWaitingSession s (Model req)) None s in
          enqueue req s
        else match kvWarmBlocker cfg env s req with
        | Some r =>
          let s := markKVParked env req s in
          let '(req, s) := markParked req ParkKVWarm s in
          let '(req, s) := markWaitingFor req (r_session r) (rfc3339 (r_warmUntil r)) s in
          enqueue req s
        | None => grantHandler req (Model req) s
        end
      else if collidesWith (Model req) evict (active s) then
        let '(req, s) := markParked req ParkSwapCollision s in
        enqueue req s
      else if conflictsWithInFlight evict (inFlight s) then
        let s := (tryPreempt req evict 0 s).2 in
        let '(req, s) := markParked req ParkBusy s in
        enqueue req s
      else
        let '(deferred, s) := deferredByGrace cfg env s req evict in
        if deferred then
          let '(req, s) := markGraceParked cfg env req evict s in
          enqueue req s
        else
          let '(req, s) := markParked req ParkLoading s in
          publish (startSwap req evict running s)
    end
  end.

Definition other (req : HandlerReq) (q : HandlerReq) : bool := negb (Nat.eqb (Respond q) (Respond req)).

Definition has_waiter (req : HandlerReq) (qs : list HandlerReq) : bool :=
  existsb (fun q => Nat.eqb (Respond q) (Respond req)) qs.

Definition OnCancel (req : HandlerReq) (s : FIFO) : FIFO :=
  let removed := has_waiter req (queued s) || has_waiter req (penalized s) ||
    existsb (fun kv => has_waiter req (waiters kv.2)) (map_to_list (active s)) in
  let s := match queued s with
           | [] => s
           | qs => publish (set_queued s (List.filter (other req) qs))
           end in
  let s := set_penalized s (List.filter (other req) (penalized s)) in
  let s := set_active s ((fun sw => mkSwap (sw_modelID sw) (sw_evict sw)
                            (List.filter (other req) (waiters sw))) <$> active s) in
  if removed then broadcastQueuePositions s else s.

Definition swap_waiter (ev : SwapDone) (s : FIFO) (w : HandlerReq) : FIFO :=
  match sd_err ev with
  | Some e => emit (EGrantError w (ErrSwap e)) s
  | None =>
    if atCapacity s w then
      let '(w, s) := markParked w ParkCap s in
      enqueue w s
    else if negb (kvAdmit s (Model w) (EstimatedTokens w)) then
      let s := markKVParked env w s in
      let '(w, s) := markParked w ParkKV s in
      enqueue w s
    else grantHandler w (sd_model ev) s
  end.

Definition OnSwapDone (ev : SwapDone) (s : FIFO) : FIFO :=
  match active s !! sd_model ev with
  | None => s
  | Some sw =>
    let s := set_active s (delete (sd_model ev) (active s)) in
    let s := match sd_err ev with
             | None => set_idleSince s (<[sd_model ev := now s]> (idleSince s))
             | Some _ => s
             end in
    drainQueue (foldl (swap_waiter ev) s (waiters sw))
  end.

Definition OnServeDone (ev : ServeDoneEvent) (s : FIFO) : FIFO :=
  let m := sv_model ev in
  if sv_statusRead ev then s
  else if sv_capReleaseOnly ev then
    let s := if 0 <? get0 (inFlight s) m
             then set_inFlight s (<[m := get0 (inFlight s) m - 1]> (inFlight s)) else s in
    drainQueue (publishCapacity s)
  else
    let s := if sv_capReleased ev then s
             else set_inFlight s (<[m := get0 (inFlight s) m - 1]> (inFlight s)) in
    let s := dropGranted s m (sv_holder ev) in
    let wentIdle := get0 (inFlight s) m <=? 0 in
    let s :=
      if wentIdle then
        let s := set_inFlight s (delete m (inFlight s)) in
        if negb (sv_looping ev) then
          set_idleSince s (<[m := now s + cooldownDelay cfg]> (idleSince s))
        else
          match idleSince s !! m with
          | None => set_idleSince s (<[m := now s]> (idleSince s))
          | Some _ => s
          end
      else s in
    let '(kvReleased, s) := releaseKV s m (sv_tokens ev) (sv_ctx ev) in
    let s := kvWarmOnDone cfg env s ev in
    let s := publish s in
    if wentIdle || kvReleased || (0 <? Z.of_nat (length (queued s))) then drainQueue s else s.

(** [releasePenalized]: one reading of contention for the whole pass. *)
Definition release_step (contended : bool) (acc : list HandlerReq * FIFO) (req : HandlerReq)
  : list HandlerReq * FIFO :=
  let '(kept, s) := acc in
  if penaltyHeldUnder s req contended then (kept ++ [req], s) else (kept, enqueue req s).

Definition releasePenalized (s : FIFO) : FIFO :=
  match penalized s with
  | [] => s
  | held =>
    let '(kept, s) := foldl (release_step (contended s)) ([], s) held in
    set_penalized s kept
  end.

Definition OnTick (s : FIFO) : FIFO :=
  let s := releasePenalized s in
  let s :=
    match queued s with
    | [] =>
      let s := (consumeForced s).2 in
      let s := expireForcedGrace cfg env s in
      (consumeForced s).2
    | _ =>
      let '(forced, s) := consumeGraceExpiredForced s in
      if forced : bool then kvWarmEndCooldowns s else s
    end in
  publishGrace (drainQueue s).

Definition unload_error (s : FIFO) (w : HandlerReq) : FIFO := emit (EGrantError w ErrUnloaded) s.

Definition release_target (s : FIFO) (id : string) : FIFO :=
  match active s !! id with
  | None => s
  | Some sw => set_active (foldl unload_error s (waiters sw)) (delete id (active s))
  end.

Definition targeted (targets : list string) (w : HandlerReq) : bool := containsString targets (Model w).

Definition OnUnload (targets : list string) (timeout : Z) (s : FIFO) : FIFO :=
  let s := kvWarmForget s targets in
  let s := foldl release_target s (remove_dups targets) in
  let s := match queued s with
           | [] => s
           | qs =>
             let s := foldl unload_error s (List.filter (targeted targets) qs) in
             publish (set_queued s (List.filter (fun w => negb (targeted targets w)) qs))
           end in
  let ps := penalized s in
  let s := foldl unload_error s (List.filter (targeted targets) ps) in
  let s := set_penalized s (List.filter (fun w => negb (targeted targets w)) ps) in
  let s := emit (EStopProcesses timeout targets) s in
  drainQueue s.

Definition OnShutdown (err : nat) (s : FIFO) : FIFO :=
  let grant s w := emit (EGrantError w (ErrShutdown err)) s in
  let s := foldl grant s (flat_map (fun kv => waiters kv.2) (map_to_list (active s))) in
  let s := foldl grant s (queued s) in
  foldl grant s (penalized s).

End fifo.

(** *** Construction *)
Record ModelConfig := mkModelConfig {
  ConcurrencyLimit : Z; SwapGraceSeconds : Z; MaxParallelLargePrefill : Z }.

Record FifoConfig := mkFifoConfig {
  fc_Priority : gmap string Z; fc_KVPoolTokens : gmap string Z; fc_DecodeRetentionSeconds : Z }.

Definition newSettings (fc : FifoConfig) (models : gmap string ModelConfig) (holdOnly : bool) : Settings :=
  {| Priority := fc_Priority fc;
     KVPoolTokens := fc_KVPoolTokens fc;
     DecodeRetentionSeconds := fc_DecodeRetentionSeconds fc;
     limits := (fun mc => if 0 <? ConcurrencyLimit mc then ConcurrencyLimit mc
                          else defaultConcurrencyLimit) <$> models;
     maxLarge := MaxParallelLargePrefill <$> models;
     slotCount := omap (fun mc => if 0 <? ConcurrencyLimit mc then Some (ConcurrencyLimit mc) else None) models;
     grace := omap (fun mc => if 0 <? SwapGraceSeconds mc
                              then Some (i64 (SwapGraceSeconds mc * nsec_second)) else None) models;
     holdOnlyWhenContended := holdOnly |}.

Definition NewFIFO : FIFO :=
  mkFIFO ∅ ∅ [] [] ∅ ∅ ∅ ∅ ∅ ∅ ∅ false false [] None 0 ∅ [].

(** *** The run loop's events, and the calls made beside it *)
Inductive Event :=
| Request (req : HandlerReq)
| Cancel (req : HandlerReq)
| SwapDoneE (ev : SwapDone)
| ServeDoneE (ev : ServeDoneEvent)
| Tick
| Unload (targets : list string) (timeout : Z)
| Shutdown (err : nat)
| Finish
| EndSlot (session : string).

Definition step {planner : Swapper} (cfg : Settings) (env : Env) (ev : Event) (s : FIFO) : FIFO :=
  match ev with
  | Request req => OnRequest cfg env req s
  | Cancel req => OnCancel cfg env req s
  | SwapDoneE ev => OnSwapDone cfg env ev s
  | ServeDoneE ev => OnServeDone cfg env ev s
  | Tick => OnTick cfg env s
  | Unload targets timeout => OnUnload cfg env targets timeout s
  | Shutdown err => OnShutdown err s
  | Finish => FinishCooldown s
  | EndSlot session => EndSlotCooldown env s session
  end.

(** A run: each event meets a world of its own. *)
Inductive reachable {planner : Swapper} (cfg : Settings) : FIFO -> Prop :=
| reach_new : reachable cfg NewFIFO
| reach_step env ev s : reachable cfg s -> reachable cfg (step cfg env ev s).

End Fifo.
