(* ===== verification/SchedExample.v ===== *)
(** Concrete scheduler runs: the inputs at which the scheduler's theorems are
    instantiated.  Two models share one swapping group, so loading one evicts
    the other. *)

From S2P Require Import Prelude Tier Swappers SchedTypes KvWarm Grace Fifo.

Module SchedExample.
Import Tier Swapper Group Sched KvWarm Grace Fifo.

Definition ex_groups : groupSwapper :=
  mkGroupSwapper (<["g" := mkGroup true false false]> ∅)
    (<["coder" := "g"]> (<["chat" := "g"]> ∅))%string.

Definition ex_planner : Swapper := group_policy ex_groups.

(** [coder]: two slots, a pool of 20000 tokens, a minute of grace; [chat]: the
    defaults.  One second of decode retention. *)
Definition ex_cfg : Settings :=
  newSettings (mkFifoConfig (<["chat"%string := 5]> ∅) (<["coder"%string := 20000]> ∅) 1)
    (<["coder"%string := mkModelConfig 2 60 1]> (<["chat"%string := mkModelConfig 0 0 1]> ∅)) true.

(** A world in which [ready] are ready, the other known models are stopped,
    every caller waits, nobody is penalized, and the clock shows [t] seconds. *)
Definition ex_env (ready : list string) (t : Z) : Env := {|
  env_ModelState := fun _ m =>
    if decide (m ∈ ready) then Some StateReady
    else if decide (m ∈ ["coder"; "chat"]%string) then Some StateStopped else None;
  env_RunningModels := fun _ => ready;
  env_now := fun _ => t * nsec_second;
  env_GrantServe := fun _ _ _ => true;
  env_Admit := fun _ _ => true;
  env_PenaltyGate := fun _ _ => false;
  env_MetadataSetter := fun _ => false;
|}.

Definition normal : Tier := DefaultTier.
Definition background : Tier := mkTier "background" (-10) false true.
Definition urgent : Tier := mkTier "urgent" 10 true false.

Definition ex_req (id : nat) (model session : string) (tokens : Z) (tier : Tier) : HandlerReq :=
  mkReq model (Some id) true id tokens session tier false false false None "" "" None
    (Some id) (Some id) 0.

Definition ex_done (id : nat) (model session : string) (tokens : Z) (tier : Tier) : ServeDoneEvent :=
  mkServeDone model false false tokens (Some id) session tier false false (Some id) false false.

(** Events, each in its own world. *)
Definition run (evs : list (Env * Event)) : FIFO :=
  foldl (fun s ev => step (planner := ex_planner) ex_cfg ev.1 ev.2 s) NewFIFO evs.

Lemma run_reachable evs : reachable (planner := ex_planner) ex_cfg (run evs).
Proof.
  induction evs as [|[env ev] evs IH] using rev_ind; [apply reach_new|].
  unfold run in *. rewrite foldl_app. by apply reach_step.
Qed.

(** [coder] serves two turns; a third, a background and a [chat] request wait. *)
Definition busy_events : list (Env * Event) :=
  [ (ex_env ["coder"%string] 100, Request (ex_req 1 "coder" "s1" 9000 normal));
    (ex_env ["coder"%string] 101, Request (ex_req 2 "coder" "s2" 100 normal));
    (ex_env ["coder"%string] 102, Request (ex_req 3 "coder" "s3" 100 background));
    (ex_env ["coder"%string] 103, Request (ex_req 4 "chat" "s4" 100 normal));
    (ex_env ["coder"%string] 104, Request (ex_req 5 "coder" "s5" 100 normal)) ].

Definition busy : FIFO := run busy_events.

End SchedExample.
