(* ===== verification/FifoBase.v ===== *)
(** What the scheduler's building blocks change: stamps touch only the log and
    the reason fields of a request, preemption only the log, a grant leaves the
    queue and the swaps alone.  Every theorem about the scheduler goes through
    these frame lemmas. *)

From S2P Require Import Prelude Tier Swappers SchedTypes KvWarm Grace Fifo.

Module FifoBase.
Import Tier Swapper Sched KvWarm Grace Fifo.

(** ** Requests up to their park stamps *)
Definition stamped (r r' : HandlerReq) : Prop :=
  r' = set_waiting (set_park r (parkReason r')) (waitingForSession r') (waitingForUntil r').

Lemma stamped_refl r : stamped r r.
Proof. unfold stamped. by destruct r. Qed.

Lemma stamped_trans r1 r2 r3 : stamped r1 r2 -> stamped r2 r3 -> stamped r1 r3.
Proof. unfold stamped. intros -> ->. by destruct r1. Qed.

#[export] Hint Resolve stamped_refl : sched.

(** A property of requests that stamps cannot change. *)
Class Unstamped {A} (f : HandlerReq -> A) : Prop := unstamped r r' : stamped r r' -> f r' = f r.

Ltac solve_unstamped := intros ? ? ->; reflexivity.

#[export] Instance unstamped_Model : Unstamped Model. Proof. solve_unstamped. Qed.
#[export] Instance unstamped_Respond : Unstamped Respond. Proof. solve_unstamped. Qed.
#[export] Instance unstamped_seq : Unstamped arrivalSeq. Proof. solve_unstamped. Qed.
#[export] Instance unstamped_rank : Unstamped rank. Proof. solve_unstamped. Qed.
#[export] Instance unstamped_tokens : Unstamped EstimatedTokens. Proof. solve_unstamped. Qed.
#[export] Instance unstamped_exempt : Unstamped ConcurrencyExempt. Proof. solve_unstamped. Qed.
#[export] Instance unstamped_status : Unstamped StatusRead. Proof. solve_unstamped. Qed.
#[export] Instance unstamped_ctx : Unstamped Ctx. Proof. solve_unstamped. Qed.
#[export] Instance unstamped_tier : Unstamped ReqTier. Proof. solve_unstamped. Qed.
#[export] Instance unstamped_preempt : Unstamped Preempt. Proof. solve_unstamped. Qed.
#[export] Instance unstamped_preempted : Unstamped Preempted. Proof. solve_unstamped. Qed.
#[export] Instance unstamped_session : Unstamped Session. Proof. solve_unstamped. Qed.
#[export] Instance unstamped_priority cfg : Unstamped (priority cfg). Proof. solve_unstamped. Qed.

(** ** Effects that do not answer a caller *)
Definition silent (e : Effect) : Prop :=
  match e with
  | EGrantError _ _ | EGrantServe _ _ _ | EAdmit _ (Some _) | EStartSwap _ _ => False
  | _ => True
  end.

(** [s'] is [s] with silent effects added to the log. *)
Definition quiet (s s' : FIFO) : Prop :=
  exists l, s' = set_log s (log s ++ l) /\ Forall silent l.

Lemma set_log_log s : set_log s (log s) = s.
Proof. by destruct s. Qed.

Lemma quiet_refl s : quiet s s.
Proof. exists []. by rewrite app_nil_r, set_log_log. Qed.

Lemma quiet_trans s1 s2 s3 : quiet s1 s2 -> quiet s2 s3 -> quiet s1 s3.
Proof.
  intros (l1 & -> & H1) (l2 & -> & H2). exists (l1 ++ l2). simpl. rewrite app_assoc.
  split; [done|]. by apply Forall_app.
Qed.

Lemma quiet_emit s e : silent e -> quiet s (emit e s).
Proof. intros He. exists [e]. split; [done|]. by repeat constructor. Qed.

#[export] Hint Resolve quiet_refl quiet_trans quiet_emit : sched.

Section base.
Context {planner : Swapper}.
Variable cfg : Settings.
Variable env : Env.

Lemma stamp_quiet ctx k v s : quiet s (stamp env ctx k v s).
Proof.
  unfold stamp. destruct ctx as [c|]; [|apply quiet_refl].
  destruct (env_MetadataSetter env c); [by apply quiet_emit|apply quiet_refl].
Qed.

Definition stamps (req : HandlerReq) (s : FIFO) (r : HandlerReq * FIFO) : Prop :=
  stamped req r.1 /\ quiet s r.2.

Lemma markWaitingFor_stamps req session until s : stamps req s (markWaitingFor env req session until s).
Proof.
  unfold markWaitingFor. case_match; split; simpl.
  - apply stamped_refl.
  - apply quiet_refl.
  - unfold stamped. by destruct req.
  - eapply quiet_trans; apply stamp_quiet.
Qed.

Lemma markParked_stamps req reason s : stamps req s (markParked env req reason s).
Proof.
  unfold markParked. case_match; [split; simpl; auto with sched|].
  assert (stamped req (set_park req reason)) as Hp by (unfold stamped; by destruct req).
  destruct (String.eqb reason "").
  - destruct (markWaitingFor_stamps (set_park req reason) "" None s) as [H1 H2].
    destruct (markWaitingFor env (set_park req reason) "" None s) as [req' s'].
    split; [exact (stamped_trans _ _ _ Hp H1)|]. eapply quiet_trans; [exact H2|apply stamp_quiet].
  - split; [done|apply stamp_quiet].
Qed.

Lemma markGraceParked_stamps req evict s : stamps req s (markGraceParked cfg env req evict s).
Proof.
  unfold markGraceParked. case_match.
  - destruct (markParked_stamps req ParkBusy s) as [H1 H2].
    destruct (markParked env req ParkBusy s) as [req' s'].
    destruct (markWaitingFor_stamps req' "" None s') as [H3 H4].
    split; [exact (stamped_trans _ _ _ H1 H3)|exact (quiet_trans _ _ _ H2 H4)].
  - destruct (markParked_stamps req ParkCooldown s) as [H1 H2].
    destruct (markParked env req ParkCooldown s) as [req' s']. cbv beta iota.
    destruct (markWaitingFor_stamps req' "" (rfc3339 (graceUntil cfg env s' evict)) s') as [H3 H4].
    split; [exact (stamped_trans _ _ _ H1 H3)|exact (quiet_trans _ _ _ H2 H4)].
Qed.

Lemma markKVParked_quiet req s : quiet s (markKVParked env req s).
Proof. apply stamp_quiet. Qed.

Lemma boot_quiet limit t vs booted s :
  quiet s (boot limit t vs booted s).2.
Proof.
  revert booted s. induction vs as [|v vs IH]; intros booted s; simpl; [apply quiet_refl|].
  case_match; [apply quiet_refl|]. case_match; [|apply IH].
  eapply quiet_trans; [by apply (quiet_emit s (EPreempt (g_preempt v)))|apply IH].
Qed.

Lemma boot_models_quiet limit t evict booted s :
  quiet s (boot_models limit t evict booted s).2.
Proof.
  revert booted s. induction evict as [|m evict IH]; intros booted s; simpl; [apply quiet_refl|].
  pose proof (boot_quiet limit t (default [] (granted s !! m)) booted s) as Hb.
  destruct (boot _ _ _ _ s) as [[stop b] s']. destruct stop; [done|].
  eapply quiet_trans; [exact Hb|apply IH].
Qed.

Lemma tryPreempt_quiet req evict limit s : quiet s (tryPreempt req evict limit s).2.
Proof. apply boot_models_quiet. Qed.

Lemma sendAdmission_log req err s :
  (sendAdmission env req err s).2 = s \/
  (sendAdmission env req err s).2 = emit (EAdmit req err) s.
Proof. unfold sendAdmission. repeat case_match; auto. Qed.

Lemma deferredByGrace_state req evict s :
  (deferredByGrace cfg env s req evict).2 = s \/
  (deferredByGrace cfg env s req evict).2 = set_cooldownForced s false.
Proof. unfold deferredByGrace, consumeForced. repeat (case_match; simpl; auto). Qed.

(** *** Publishing *)
Lemma publish_fields s :
  publish cfg env s = set_cooldown (set_capacity s (capacity (publish cfg env s)))
                        (cooldown (publish cfg env s)).
Proof. reflexivity. Qed.

End base.

(** ** What a grant leaves alone *)
Record granted_frame (s s' : FIFO) : Prop := {
  gf_active : active s' = active s;
  gf_queued : queued s' = queued s;
  gf_penalized : penalized s' = penalized s;
  gf_idle : idleSince s' = idleSince s;
  gf_forced : cooldownForced s' = cooldownForced s;
  gf_expired : graceExpiredForced s' = graceExpiredForced s;
  gf_seq : nextArrivalSeq s' = nextArrivalSeq s;
}.

Section grant.
Context {planner : Swapper}.
Variable cfg : Settings.
Variable env : Env.

Lemma kvWarmDisplace_residents s m :
  exists x, kvWarmDisplace cfg s m = set_kvResidents s x.
Proof. unfold kvWarmDisplace, set_residents. case_match; [by eexists|]. exists (kvResidents s). by destruct s. Qed.

Lemma kvWarmOnGrant_residents s req m :
  exists x, kvWarmOnGrant cfg s req m = set_kvResidents s x.
Proof.
  unfold kvWarmOnGrant. case_match; [exists (kvResidents s); by destruct s|].
  case_match; [apply kvWarmDisplace_residents|].
  match goal with |- context [set_residents s m ?r] => set (s1 := set_residents s m r) end.
  destruct (kvWarmDisplace_residents s1 m) as [x ->]. by exists x.
Qed.

Lemma kvWarmOnDone_residents s ev :
  exists x, kvWarmOnDone cfg env s ev = set_kvResidents s x.
Proof.
  assert (exists x, s = set_kvResidents s x) as Hs by (exists (kvResidents s); by destruct s).
  unfold kvWarmOnDone, set_residents. repeat (case_match; try done; try by eexists).
Qed.

(** The counters after a grant that was received. *)
Definition bump (req : HandlerReq) (m : string) (s : FIFO) : FIFO :=
  let s := set_inFlight s (<[m := get0 (inFlight s) m + 1]> (inFlight s)) in
  if 0 <? EstimatedTokens req then
    let s := set_kvInFlight s
      (<[m := get0 (kvInFlight s) m + EstimatedTokens req]> (kvInFlight s)) in
    if largePrefillThreshold <=? EstimatedTokens req then
      let s := set_kvLargeInFlight s
        (<[m := get0 (kvLargeInFlight s) m + 1]> (kvLargeInFlight s)) in
      let s := set_kvLargeOrder s
        (<[m := large_order s m ++ [Ctx req]]> (kvLargeOrder s)) in
      set_kvLargeByID s (<[m := <[Ctx req := req]> (large_by_id s m)]> (kvLargeByID s))
    else s
  else s.

Definition track (req : HandlerReq) (m : string) (s : FIFO) : FIFO :=
  match Preempt req with
  | Some h => set_granted s
      (<[m := default [] (granted s !! m) ++ [mkGranted (ReqTier req) h (Preempted req)]]> (granted s))
  | None => s
  end.

(** A grant: stamps, the answer, and, when it was received by a caller that
    holds a slot, the counters. *)
Lemma grantHandler_spec req m s :
  exists req' l ok,
    stamped req req' /\ Forall silent l /\
    let s1 := set_log s (log s ++ l ++ [EGrantServe req' m ok]) in
    ok = env_GrantServe env (log s ++ l) req' m /\
    grantHandler cfg env req m s =
      (if ok && negb (StatusRead req') then
         publish cfg env
           (set_lastServedTier
              (track req' m (kvWarmOnGrant cfg (bump req' m s1) req' m))
              (<[m := ReqTier req']> (lastServedTier s)))
       else s1).
Proof.
  unfold grantHandler, clearParked.
  destruct (markParked_stamps env req "" s) as [Hr (l & Hl & Hsil)].
  destruct (markParked env req "" s) as [req' s1]. simpl in *. subst s1.
  set (e := match Ctx req' with
            | Some c => [ESetReqData c "fifo_priority" (MInt (priority cfg req'))]
            | None => [] end).
  exists req', (l ++ e). eexists. split; [done|]. split.
  { apply Forall_app. split; [done|]. subst e. destruct (Ctx req'); by repeat constructor. }
  split; [reflexivity|].
  assert (match Ctx req' with
          | Some c => emit (ESetReqData c "fifo_priority" (MInt (priority cfg req')))
                        (set_log s (log s ++ l))
          | None => set_log s (log s ++ l)
          end = set_log s (log s ++ l ++ e)) as ->.
  { subst e. destruct (Ctx req'); unfold emit; simpl; [by rewrite app_assoc|by rewrite app_nil_r]. }
  simpl. unfold emit; simpl. rewrite <- !app_assoc.
  destruct (env_GrantServe env (log s ++ l ++ e) req' m); simpl; [|done].
  destruct (StatusRead req'); simpl; [done|].
  unfold track, bump. simpl.
  set (sb := if 0 <? EstimatedTokens req' then _ else _).
  assert (lastServedTier sb = lastServedTier s) as Hlast.
  { subst sb. by repeat case_match. }
  destruct (kvWarmOnGrant_residents sb req' m) as [x Hx]. rewrite Hx.
  destruct (Preempt req'); simpl; by rewrite Hlast.
Qed.

Lemma bump_fields req m s :
  exists a b c d e, bump req m s =
    set_kvLargeByID (set_kvLargeOrder (set_kvLargeInFlight (set_kvInFlight (set_inFlight s a) b) c) d) e.
Proof.
  exists (inFlight (bump req m s)), (kvInFlight (bump req m s)), (kvLargeInFlight (bump req m s)),
    (kvLargeOrder (bump req m s)), (kvLargeByID (bump req m s)).
  unfold bump. destruct (0 <? EstimatedTokens req); [|reflexivity].
  destruct (largePrefillThreshold <=? EstimatedTokens req); reflexivity.
Qed.

Lemma grantHandler_frame req m s : granted_frame s (grantHandler cfg env req m s).
Proof.
  destruct (grantHandler_spec req m s) as (req' & l & ok & _ & _ & _ & ->).
  destruct (ok && _); [|by split].
  set (s1 := set_log s _). destruct (bump_fields req' m s1) as (a & b & c & d & e & ->).
  set (s2 := set_kvLargeByID _ e). destruct (kvWarmOnGrant_residents s2 req' m) as [x ->].
  unfold track. subst s2 s1. destruct (Preempt req'); by split.
Qed.

Lemma grantHandler_log req m s :
  exists req' l ok, stamped req req' /\ Forall silent l /\
    log (grantHandler cfg env req m s) = log s ++ l ++ [EGrantServe req' m ok].
Proof.
  destruct (grantHandler_spec req m s) as (req' & l & ok & Hr & Hl & _ & ->).
  exists req', l, ok. split; [done|]. split; [done|].
  destruct (ok && _); [|done].
  set (s1 := set_log s _). destruct (bump_fields req' m s1) as (a & b & c & d & e & ->).
  set (s2 := set_kvLargeByID _ e). destruct (kvWarmOnGrant_residents s2 req' m) as [x ->].
  unfold track. subst s2 s1. by destruct (Preempt req').
Qed.

End grant.
End FifoBase.
