(* ===== verification/FifoDecide.v ===== *)
(** The decision tree as a relation.  [OnRequest] and [drainQueue] walk the same
    tree; [outcome] lists what can become of a request there and the guards
    that were passed on the way, and the theorems about the scheduler reason by
    cases on it. *)

From S2P Require Import Prelude Tier Swappers SchedTypes KvWarm Grace Fifo FifoBase.

Module FifoDecide.
Import Tier Swapper Sched KvWarm Grace Fifo FifoBase.

Section decide.
Context {planner : Swapper}.
Variable cfg : Settings.
Variable env : Env.

Definition plan_for (s : FIFO) (req : HandlerReq) : list string :=
  EvictionFor (Model req) (runningSet env s (Model req)).

(** [outcome s req state s' stuck]: deciding on [req] in [s], its process being
    in [state], leads to [s']; [stuck] is the request, restamped, when it has to
    wait. *)
Inductive outcome (s : FIFO) (req : HandlerReq) (state : ProcessState) : FIFO -> option HandlerReq -> Prop :=
| out_stuck req' s' :
    stamped req req' -> quiet s s' -> outcome s req state s' (Some req')
| out_join sw req' s1 :
    active s !! Model req = Some sw -> stamped req req' -> quiet s s1 ->
    outcome s req state (joinSwap req' sw s1) None
| out_grant :
    active s !! Model req = None ->
    state = StateReady -> plan_for s req = [] ->
    atCapacity cfg s req = false -> collidesWith (Model req) [] (active s) = false ->
    kvAdmit cfg s (Model req) (EstimatedTokens req) = true ->
    kvWarmBlocker cfg env s req = None ->
    outcome s req state (grantHandler cfg env req (Model req) s) None
| out_swap req' s1 s2 :
    active s !! Model req = None -> atCapacity cfg s req = false ->
    collidesWith (Model req) (plan_for s req) (active s) = false ->
    conflictsWithInFlight (plan_for s req) (inFlight s) = false ->
    deferredByGrace cfg env s req (plan_for s req) = (false, s1) ->
    stamped req req' -> quiet s1 s2 ->
    outcome s req state (startSwap req' (plan_for s req) (runningSet env s (Model req)) s2) None.

Lemma outcome_stuck s req state s0 r :
  quiet s s0 -> stamps req s0 r -> outcome s req state r.2 (Some r.1).
Proof. intros Hq [Hr Hs]. apply out_stuck; [done|by eapply quiet_trans]. Qed.

Lemma deferred_same s req evict s' :
  deferredByGrace cfg env s req evict = (true, s') -> s' = s.
Proof.
  unfold deferredByGrace, consumeForced. destruct (negb _); [done|].
  destruct s as [? ? ? ? ? ? ? ? ? ? ? forced]; simpl. destruct forced; [done|].
  unfold set_cooldownForced; simpl. by intros [= _ <-].
Qed.

Lemma length_zero_nil {A} (l : list A) : (Z.of_nat (length l) =? 0) = true -> l = [].
Proof. destruct l; [done|]. simpl. lia. Qed.

(** The part of the tree after the rank barrier. *)
Definition decide_on (s : FIFO) (req : HandlerReq) (state : ProcessState) : FIFO * option HandlerReq :=
  match active s !! Model req with
  | Some sw => let '(req, s) := markParked env req ParkLoading s in (joinSwap req sw s, None)
  | None =>
    let running := runningSet env s (Model req) in
    let evict := plan_for s req in
    if atCapacity cfg s req then
      let s := (tryPreempt req [Model req] 1 s).2 in
      let '(req, s) := markParked env req ParkCap s in (s, Some req)
    else if is_ready state && (Z.of_nat (length evict) =? 0) &&
            negb (collidesWith (Model req) evict (active s)) then
      if negb (kvAdmit cfg s (Model req) (EstimatedTokens req)) then
        let s := (tryPreempt req [Model req] 1 s).2 in
        let s := markKVParked env req s in
        let '(req, s) := markParked env req ParkKV s in
        let '(req, s) := markWaitingFor env req (kvWaitingSession s (Model req)) None s in
        (s, Some req)
      else match kvWarmBlocker cfg env s req with
      | Some r =>
        let s := markKVParked env req s in
        let '(req, s) := markParked env req ParkKVWarm s in
        let '(req, s) := markWaitingFor env req (r_session r) (rfc3339 (r_warmUntil r)) s in
        (s, Some req)
      | None => (grantHandler cfg env req (Model req) s, None)
      end
    else if collidesWith (Model req) evict (active s) then
      let '(req, s) := markParked env req ParkSwapCollision s in (s, Some req)
    else if conflictsWithInFlight evict (inFlight s) then
      let s := (tryPreempt req evict 0 s).2 in
      let '(req, s) := markParked env req ParkBusy s in (s, Some req)
    else
      let '(deferred, s) := deferredByGrace cfg env s req evict in
      if deferred then
        let '(req, s) := markGraceParked cfg env req evict s in (s, Some req)
      else
        let '(req, s) := markParked env req ParkLoading s in (startSwap req evict running s, None)
  end.

(** [let '(r, s) := p in (s, Some r)] *)
Lemma stuck_pair s req state s0 (p : HandlerReq * FIFO) :
  quiet s s0 -> stamps req s0 p ->
  let '(r, s') := p in outcome s req state s' (Some r).
Proof. intros Hq Hp. pose proof (outcome_stuck s req state s0 p Hq Hp). by destruct p. Qed.

Lemma waiting_pair s req state s0 reason session until :
  quiet s s0 ->
  let '(r, s1) := markParked env req reason s0 in
  let '(r, s2) := markWaitingFor env r (session s1) until s1 in outcome s req state s2 (Some r).
Proof.
  intros Hq. destruct (markParked_stamps env req reason s0) as [H1 H2].
  destruct (markParked env req reason s0) as [r s1]. simpl in *.
  destruct (markWaitingFor_stamps env r (session s1) until s1) as [H3 H4].
  destruct (markWaitingFor env r (session s1) until s1) as [r' s2]. simpl in *.
  apply out_stuck; [by eapply stamped_trans|]. eapply quiet_trans; [exact Hq|]. by eapply quiet_trans.
Qed.

Lemma decide_outcome s req state :
  outcome s req state (decide_on s req state).1 (decide_on s req state).2.
Proof.
  unfold decide_on. destruct (active s !! Model req) as [sw|] eqn:Hact.
  { destruct (markParked_stamps env req ParkLoading s) as [H1 H2].
    destruct (markParked env req ParkLoading s) as [req' s']. by apply out_join. }
  cbv zeta. destruct (atCapacity cfg s req) eqn:Hcap.
  { pose proof (stuck_pair s req state _ _ (tryPreempt_quiet req [Model req] 1 s)
      (markParked_stamps env req ParkCap _)) as Hout. by destruct (markParked env req ParkCap _). }
  destruct (is_ready state && _ && _) eqn:Hfast.
  - apply andb_true_iff in Hfast as [[Hready Hnil%length_zero_nil]%andb_true_iff Hcol%negb_true_iff].
    apply bool_decide_eq_true in Hready.
    destruct (kvAdmit cfg s (Model req) (EstimatedTokens req)) eqn:Hkv; simpl.
    2:{ pose proof (waiting_pair s req state (markKVParked env req (tryPreempt req [Model req] 1 s).2) ParkKV
          (fun s => kvWaitingSession s (Model req)) None
          (quiet_trans _ _ _ (tryPreempt_quiet req [Model req] 1 s) (markKVParked_quiet env req _))) as Hout.
        assert (forall r s1, stamped req r -> kvWaitingSession s1 (Model req) = kvWaitingSession s1 (Model r)) as E
          by (intros r s1 Hr; by rewrite (unstamped (f := Model) _ _ Hr)).
        destruct (markParked_stamps env req ParkKV (markKVParked env req (tryPreempt req [Model req] 1 s).2)) as [Hr _].
        destruct (markParked env req ParkKV _) as [r s1]. rewrite (E r s1 Hr) in Hout.
        by destruct (markWaitingFor env r _ None s1). }
    destruct (kvWarmBlocker cfg env s req) as [r|] eqn:Hwarm.
    { pose proof (waiting_pair s req state _ ParkKVWarm (fun _ => r_session r) (rfc3339 (r_warmUntil r))
        (markKVParked_quiet env req s)) as Hout.
      destruct (markParked env req ParkKVWarm _) as [r' s1]. by destruct (markWaitingFor env r' _ _ s1). }
    apply out_grant; try done. by rewrite Hnil in Hcol.
  - destruct (collidesWith (Model req) (plan_for s req) (active s)) eqn:Hcol.
    { pose proof (stuck_pair s req state _ _ (quiet_refl s)
        (markParked_stamps env req ParkSwapCollision s)) as Hout. by destruct (markParked env req _ s). }
    destruct (conflictsWithInFlight (plan_for s req) (inFlight s)) eqn:Hbusy.
    { pose proof (stuck_pair s req state _ _ (tryPreempt_quiet req (plan_for s req) 0 s)
        (markParked_stamps env req ParkBusy _)) as Hout. by destruct (markParked env req ParkBusy _). }
    destruct (deferredByGrace cfg env s req (plan_for s req)) as [deferred s1] eqn:Hdef.
    destruct deferred.
    + apply deferred_same in Hdef as ->.
      pose proof (stuck_pair s req state _ _ (quiet_refl s)
        (markGraceParked_stamps cfg env req (plan_for s req) s)) as Hout.
      by destruct (markGraceParked cfg env req _ s).
    + destruct (markParked_stamps env req ParkLoading s1) as [H1 H2].
      destruct (markParked env req ParkLoading s1) as [req' s']. by eapply out_swap.
Qed.

(** *** The two users of the tree *)
Definition barred (d : drain) (req : HandlerReq) : bool :=
  match d_barrier d with Some b => rank req <? b | None => false end.

Lemma drain_step_decide d req :
  drain_step cfg env d req =
    if barred d req then
      let '(req, s) := markParked env req ParkRank (d_fifo d) in
      mkDrain s (d_remaining d ++ [req]) (d_barrier d)
    else
    match ModelState env (d_fifo d) (Model req) with
    | None => mkDrain (emit (EGrantError req ErrModelNotFound) (d_fifo d)) (d_remaining d) (d_barrier d)
    | Some state =>
      match decide_on (d_fifo d) req state with
      | (s, Some r) => stick r s d
      | (s, None) => mkDrain s (d_remaining d) (d_barrier d)
      end
    end.
Proof.
  unfold drain_step, decide_on, barred, plan_for. cbv zeta.
  repeat (case_match; simplify_eq; try done).
Qed.

Lemma OnRequest_decide req s state :
  ModelState env s (Model req) = Some state ->
  OnRequest cfg env req s =
    if StatusRead req && negb (is_ready state) && bool_decide (active s !! Model req = None) then
      rejectAdmission env req ErrModelNotLoaded s
    else
    let '(admitted, s) := admit_ env req s in
    if negb admitted then s
    else
    let s := set_nextArrivalSeq s (nextArrivalSeq s + 1) in
    let req := set_seq req (nextArrivalSeq s) in
    if penaltyHeld cfg env s req then
      let '(req, s) := markParked env req ParkPenalized s in
      publish cfg env (set_penalized s (penalized s ++ [req]))
    else if blockedByRankBarrier s req then
      let '(req, s) := markParked env req ParkRank s in
      enqueue cfg env req s
    else
      match decide_on s req state with
      | (s', Some r) => enqueue cfg env r s'
      | (s', None) =>
        match active s !! Model req with
        | Some _ => s'
        | None =>
          if is_ready state && (Z.of_nat (length (plan_for s req)) =? 0) &&
             negb (collidesWith (Model req) (plan_for s req) (active s))
          then s' else publish cfg env s'
        end
      end.
Proof.
  intros Hst. unfold OnRequest. rewrite Hst. destruct (_ && _ && _); [done|].
  destruct (admit_ env req s) as [adm s1]. destruct (negb adm); [done|]. cbv zeta.
  set (s2 := set_nextArrivalSeq s1 _). set (req2 := set_seq req _).
  destruct (penaltyHeld _ _ _ _); [done|]. destruct (blockedByRankBarrier _ _); [done|].
  unfold decide_on, plan_for. cbv zeta.
  repeat (case_match; simplify_eq; try done).
Qed.

End decide.
End FifoDecide.
