(* ===== verification/FifoConserve.v ===== *)
(** No request is lost, duplicated or answered twice: every event moves
    requests between the queue, the penalized list, the waiters of the active
    swaps and the answers in the log. *)

From S2P Require Import Prelude Tier Swappers SchedTypes KvWarm Grace Fifo FifoBase FifoDecide.

Module FifoConserve.
Import Tier Swapper Sched KvWarm Grace Fifo FifoBase FifoDecide.

Section conserve.
Context {planner : Swapper}.
Variable cfg : Settings.

(** The argument is about any attribute [f] of requests that stamps keep. *)
Context {A : Type} (f : HandlerReq -> A) {Hf : Unstamped f}.

(** ** Where requests are *)
Definition waiting (active : gmap string activeSwap) : list A :=
  flat_map (fun kv => map f (waiters kv.2)) (map_to_list active).

(** Held outside the queue. *)
Definition parked (s : FIFO) : list A := map f (penalized s) ++ waiting (active s).

Definition held (s : FIFO) : list A := map f (queued s) ++ parked s.

Definition answer (e : Effect) : list A :=
  match e with
  | EGrantError r _ | EGrantServe r _ _ | EAdmit r (Some _) => [f r]
  | _ => []
  end.

Definition answers (l : list Effect) : list A := flat_map answer l.

Lemma answers_app l k : answers (l ++ k) = answers l ++ answers k.
Proof. apply flat_map_app. Qed.

Lemma answers_silent l : Forall silent l -> answers l = [].
Proof. induction 1 as [|e l He Hl IH]; [done|]. simpl. rewrite IH. by destruct e as [? []| | | | | | | | |]. Qed.

Lemma waiting_insert a k sw :
  a !! k = None -> waiting (<[k := sw]> a) ≡ₚ map f (waiters sw) ++ waiting a.
Proof. intros Hk. unfold waiting. by rewrite map_to_list_insert. Qed.

Lemma waiting_delete a k sw :
  a !! k = Some sw -> waiting a ≡ₚ map f (waiters sw) ++ waiting (delete k a).
Proof. intros Hk. unfold waiting. by rewrite <- (map_to_list_delete a k sw Hk). Qed.

(** [s'] follows [s]: the queue is untouched, and what left [parked] or came in
    as [extra] was answered. *)
Definition moves (s s' : FIFO) (extra : list A) : Prop :=
  queued s' = queued s /\
  exists new, log s' = log s ++ new /\ answers new ++ parked s' ≡ₚ extra ++ parked s.

(** The same, queue included. *)
Definition conserves (s s' : FIFO) (extra : list A) : Prop :=
  exists new, log s' = log s ++ new /\ answers new ++ held s' ≡ₚ extra ++ held s.

Lemma moves_conserves s s' extra : moves s s' extra -> conserves s s' extra.
Proof.
  intros (Hq & new & Hl & Hp). exists new. split; [done|]. unfold held. rewrite Hq.
  rewrite !(Permutation_app_swap_app _ (map f (queued s))), Hp. done.
Qed.

Lemma conserves_trans s1 s2 s3 x y :
  conserves s1 s2 x -> conserves s2 s3 y -> conserves s1 s3 (y ++ x).
Proof.
  intros (n1 & L1 & P1) (n2 & L2 & P2). exists (n1 ++ n2). split; [by rewrite L2, L1, app_assoc|].
  rewrite answers_app, <- !app_assoc, P2, <- P1. apply Permutation_app_swap_app.
Qed.

Lemma moves_trans s1 s2 s3 x y : moves s1 s2 x -> moves s2 s3 y -> moves s1 s3 (y ++ x).
Proof.
  intros (Q1 & n1 & L1 & P1) (Q2 & n2 & L2 & P2). split; [congruence|].
  exists (n1 ++ n2). split; [by rewrite L2, L1, app_assoc|].
  rewrite answers_app, <- !app_assoc, P2, <- P1. apply Permutation_app_swap_app.
Qed.

(** Nothing moves. *)
Lemma moves_still s s' l :
  queued s' = queued s -> penalized s' = penalized s -> active s' = active s ->
  log s' = log s ++ l -> answers l = [] -> moves s s' [].
Proof.
  intros Q P Ac L Hl. split; [done|]. exists l. split; [done|]. unfold parked.
  by rewrite Hl, P, Ac.
Qed.

Lemma moves_quiet s s' : quiet s s' -> moves s s' [].
Proof. intros (l & -> & Hl). by eapply (moves_still _ _ l); [..|apply answers_silent]. Qed.

Lemma moves_set s s' :
  queued s' = queued s -> penalized s' = penalized s -> active s' = active s ->
  log s' = log s -> moves s s' [].
Proof. intros. eapply (moves_still _ _ []); try done. by rewrite app_nil_r. Qed.

Lemma moves_answer s e r : answer e = [f r] -> moves s (emit e s) [f r].
Proof. intros He. split; [done|]. exists [e]. split; [done|]. simpl. by rewrite He. Qed.

Lemma moves_answers {B} (g : B -> HandlerReq) (mk : B -> Effect) (bs : list B) s :
  (forall b, answer (mk b) = [f (g b)]) ->
  moves s (foldl (fun s b => emit (mk b) s) s bs) (map (fun b => f (g b)) bs).
Proof.
  intros Hmk. revert s. induction bs as [|b bs IH]; intros s; simpl; [by apply moves_set|].
  destruct (moves_trans _ _ _ _ _ (moves_answer s (mk b) (g b) (Hmk b)) (IH _)) as (Q & n & L & P).
  split; [done|]. exists n. split; [done|]. rewrite P.
  by rewrite <- Permutation_cons_append.
Qed.

Section env.
Variable env : Env.

Lemma moves_publish s : moves s (publish cfg env s) [].
Proof. by apply moves_set. Qed.

Lemma moves_grant req m s : moves s (grantHandler cfg env req m s) [f req].
Proof.
  destruct (grantHandler_frame cfg env req m s) as [Ha Hq Hp _ _ _ _].
  destruct (grantHandler_log cfg env req m s) as (req' & l & ok & Hr & Hl & L).
  split; [done|]. eexists. split; [exact L|]. unfold parked.
  rewrite answers_app, (answers_silent l Hl), Hp, Ha. simpl. by rewrite (unstamped (f := f) _ _ Hr).
Qed.

Lemma moves_join req sw s :
  active s !! Model req = Some sw -> moves s (joinSwap req sw s) [f req].
Proof.
  intros Hact. split; [done|]. exists []. split; [by rewrite app_nil_r|]. unfold parked. simpl.
  rewrite <- insert_delete_eq, waiting_insert by apply lookup_delete_eq. simpl.
  rewrite map_app, (waiting_delete _ _ _ Hact). simpl.
  rewrite <- !app_assoc. simpl. by rewrite <- !Permutation_middle.
Qed.

Lemma moves_swap req evict running s :
  active s !! Model req = None -> moves s (startSwap req evict running s) [f req].
Proof.
  intros Hact. split; [done|].
  exists [EOnSwapStart (Model req) running; EStartSwap (Model req) evict].
  split; [unfold startSwap, emit; simpl; by rewrite <- app_assoc|].
  unfold parked. simpl. rewrite waiting_insert by done. simpl. by rewrite <- Permutation_middle.
Qed.

Lemma moves_eq_fields s1 s2 s3 x :
  moves s1 s2 x -> queued s3 = queued s2 -> penalized s3 = penalized s2 ->
  active s3 = active s2 -> log s3 = log s2 -> moves s1 s3 x.
Proof.
  intros (Q & n & L & P) Hq Hp Ha Hl. split; [congruence|]. exists n. split; [congruence|].
  unfold parked in *. by rewrite Hp, Ha.
Qed.

(** Whatever the tree decides, the request is either still to be placed or in
    the state that results. *)
Lemma outcome_moves s req state s' stuck :
  outcome cfg env s req state s' stuck ->
  moves s s' (if stuck then [] else [f req]) /\ from_option (fun r => f r = f req) True stuck.
Proof.
  intros [req' s1 Hr Hq|sw req' s1 Hact Hr Hq|Hact _ _ _ _ _ _|req' s1 s2 Hact _ _ _ Hdef Hr Hq];
    simpl.
  - split; [by apply moves_quiet|by apply (unstamped (f := f))].
  - split; [|done]. rewrite <- (unstamped (f := f) _ _ Hr).
    apply (moves_trans _ _ _ [] [f req'] (moves_quiet _ _ Hq)).
    apply moves_join. destruct Hq as (l & -> & _). simpl. by rewrite (unstamped (f := Model) _ _ Hr).
  - split; [apply moves_grant|done].
  - split; [|done]. rewrite <- (unstamped (f := f) _ _ Hr).
    assert (moves s s1 [] /\ active s1 = active s) as [M1 A1].
    { destruct (deferredByGrace_state cfg env req (plan_for env s req) s) as [E|E];
        rewrite Hdef in E; simpl in E; subst s1; (split; [by apply moves_set|done]). }
    apply (moves_trans _ _ _ [] [f req'] (moves_trans _ _ _ [] [] M1 (moves_quiet _ _ Hq))).
    apply moves_swap. destruct Hq as (l & -> & _). simpl.
    by rewrite A1, (unstamped (f := Model) _ _ Hr).
Qed.

Lemma insert_req_perm req qs : insert_req cfg req qs ≡ₚ req :: qs.
Proof.
  induction qs as [|q qs IH]; simpl; [done|]. case_match; [done|].
  rewrite IH. apply Permutation_swap.
Qed.

Lemma enqueue_fields req s :
  active (enqueue cfg env req s) = active s /\ penalized (enqueue cfg env req s) = penalized s /\
  queued (enqueue cfg env req s) = insert_req cfg req (queued s) /\
  exists l, log (enqueue cfg env req s) = log s ++ l /\ Forall silent l.
Proof.
  unfold enqueue, broadcastQueuePositions. simpl. destruct (insert_req cfg req (queued s)) as [|q qs].
  - split_and!; try done. exists []. by rewrite app_nil_r.
  - split_and!; try done. eexists [_]. split; [done|]. by repeat constructor.
Qed.

Lemma conserves_enqueue req s : conserves s (enqueue cfg env req s) [f req].
Proof.
  destruct (enqueue_fields req s) as (Ha & Hp & Hq & l & L & Hl). exists l. split; [done|].
  unfold held, parked. rewrite (answers_silent l Hl), Ha, Hp, Hq. simpl. by rewrite insert_req_perm.
Qed.

(** One step of the drain places one request of the queue. *)
Lemma drain_step_moves d req :
  exists extra rem, d_remaining (drain_step cfg env d req) = d_remaining d ++ rem /\
    moves (d_fifo d) (d_fifo (drain_step cfg env d req)) extra /\
    extra ++ map f rem = [f req].
Proof.
  rewrite drain_step_decide. destruct (barred d req).
  { destruct (markParked_stamps env req ParkRank (d_fifo d)) as [Hr Hq].
    destruct (markParked env req ParkRank (d_fifo d)) as [req' s']. simpl in *.
    exists [], [req']. split_and!; [done|by apply moves_quiet|]. simpl. by rewrite (unstamped (f := f) _ _ Hr). }
  destruct (ModelState env (d_fifo d) (Model req)) as [state|] eqn:Hst.
  - destruct (outcome_moves _ _ _ _ _ (decide_outcome cfg env (d_fifo d) req state)) as [Hm Hf'].
    destruct (decide_on cfg env (d_fifo d) req state) as [s' [r|]]; simpl in *.
    + exists [], [r]. split_and!; [done|done|]. simpl. by rewrite Hf'.
    + exists [f req], []. split_and!; [by rewrite app_nil_r|done|done].
  - exists [f req], []. split_and!; [by rewrite app_nil_r|by apply moves_answer|done].
Qed.

Lemma drain_fold_moves qs d :
  exists extra rem, d_remaining (foldl (drain_step cfg env) d qs) = d_remaining d ++ rem /\
    moves (d_fifo d) (d_fifo (foldl (drain_step cfg env) d qs)) extra /\
    extra ++ map f rem ≡ₚ map f qs.
Proof.
  revert d. induction qs as [|q qs IH]; intros d; simpl.
  - exists [], []. split_and!; [by rewrite app_nil_r|by apply moves_set|done].
  - destruct (drain_step_moves d q) as (x & r & Hr & Hm & Hx).
    destruct (IH (drain_step cfg env d q)) as (y & r' & Hr' & Hm' & Hy).
    exists (y ++ x), (r ++ r'). split_and!.
    + by rewrite Hr', Hr, app_assoc.
    + by eapply moves_trans.
    + rewrite map_app, <- Hy. change (f q :: y ++ map f r') with ([f q] ++ (y ++ map f r')).
      rewrite <- Hx, <- !app_assoc. rewrite (Permutation_app_swap_app y x).
      by rewrite (Permutation_app_swap_app y (map f r)).
Qed.

Lemma conserves_broadcast s : conserves s (publish cfg env (broadcastQueuePositions (kvWarmPrune env s))) [].
Proof.
  apply moves_conserves. unfold broadcastQueuePositions. destruct (queued _) eqn:E.
  - by apply moves_set.
  - eapply (moves_still _ _ [_]); done.
Qed.

Lemma conserves_drain s : conserves s (drainQueue cfg env s) [].
Proof.
  unfold drainQueue. destruct (queued s) as [|q qs] eqn:Hq.
  { apply moves_conserves. by apply moves_set. }
  rewrite <- Hq. destruct (drain_fold_moves (queued s) (mkDrain s [] None)) as (x & rem & Hr & Hm & Hx).
  set (d := foldl _ _ _) in *. simpl in Hr, Hm.
  apply (conserves_trans s (set_queued (d_fifo d) (d_remaining d)) _ [] []); [|apply conserves_broadcast].
  destruct Hm as (Q & n & L & P). exists n. split; [done|]. unfold held. simpl. rewrite Hr.
  rewrite (Permutation_app_swap_app (answers n)). unfold parked in P |- *. simpl in *. rewrite P.
  rewrite <- Hx, <- !app_assoc. apply Permutation_app_swap_app.
Qed.

(** ** Events *)

(** The caller had already gone when the handshake was answered. *)
Definition gone (req : HandlerReq) (s : FIFO) : Prop :=
  Admit req = true /\ Ctx req <> None /\ env_Admit env (log s) req = false.

Lemma sendAdmission_cases req err s :
  (sendAdmission env req err s = (false, s) /\ gone req s) \/
  (~ gone req s /\ exists l, sendAdmission env req err s = (true, set_log s (log s ++ l)) /\
     l = if Admit req then [EAdmit req err] else []).
Proof.
  unfold sendAdmission, gone, emit. destruct (Admit req); simpl.
  2:{ right. split; [naive_solver|]. exists []. by rewrite app_nil_r, set_log_log. }
  destruct (Ctx req); simpl.
  - destruct (env_Admit env (log s) req); [right|by left]. split; [naive_solver|]. by eexists.
  - right. split; [naive_solver|]. by eexists.
Qed.

(** Deciding on an arrival and queueing it when it has to wait. *)
Lemma conserves_decided req state s :
  let '(s', stuck) := decide_on cfg env s req state in
  conserves s (match stuck with Some r => enqueue cfg env r s' | None => s' end) [f req].
Proof.
  destruct (outcome_moves _ _ _ _ _ (decide_outcome cfg env s req state)) as [Hm Hf'].
  destruct (decide_on cfg env s req state) as [s' [r|]]; simpl in *.
  - rewrite <- Hf'. apply (conserves_trans _ s' _ [] [f r]); [by apply moves_conserves|apply conserves_enqueue].
  - by apply moves_conserves.
Qed.

Lemma moves_conserves_publish s s' x : conserves s s' x -> conserves s (publish cfg env s') x.
Proof. intros Hc. apply (conserves_trans s s' _ x [] Hc). apply moves_conserves, moves_publish. Qed.

(** An arrival: stamped with the next sequence number and placed, or refused
    on its admission channel. *)
Lemma OnRequest_conserves req s :
  ~ gone req s ->
  conserves s (OnRequest cfg env req s) [f (set_seq req (nextArrivalSeq s + 1))] \/
  OnRequest cfg env req s = s /\ Admit req = false \/
  exists err, OnRequest cfg env req s = emit (EAdmit req (Some err)) s.
Proof.
  intros Hgone.
  assert (forall err, rejectAdmission env req err s = s /\ Admit req = false \/
                      exists e, rejectAdmission env req err s = emit (EAdmit req (Some e)) s) as Hreject.
  { intros err. unfold rejectAdmission.
    destruct (sendAdmission_cases req (Some err) s) as [[_ Hg]|(_ & l & -> & ->)]; [done|]. simpl.
    destruct (Admit req); simpl; [right; exists err; reflexivity|left; by rewrite app_nil_r, set_log_log]. }
  destruct (ModelState env s (Model req)) as [state|] eqn:Hst;
    [|unfold OnRequest; rewrite Hst; destruct (Hreject ErrModelNotFound); by auto].
  rewrite (OnRequest_decide cfg env req s state Hst).
  destruct (_ && _ && _); [destruct (Hreject ErrModelNotLoaded); by auto|]. left. unfold admit_.
  destruct (sendAdmission_cases req None s) as [[_ Hg]|(_ & l & -> & Hl)]; [done|].
  simpl. set (s2 := set_nextArrivalSeq _ _). set (req2 := set_seq req _).
  assert (conserves s s2 []) as H2.
  { apply moves_conserves. apply (moves_still s s2 l); try done. rewrite Hl. by destruct (Admit req). }
  fold req2. apply (conserves_trans s s2 _ [] [f req2] H2).
  destruct (penaltyHeld cfg env s2 req2).
  { destruct (markParked_stamps env req2 ParkPenalized s2) as [Hr (k & Hs3 & Hk)].
    destruct (markParked env req2 ParkPenalized s2) as [req3 s3]. simpl in *. subst s3. exists k.
    split; [done|]. unfold held, parked. simpl. rewrite (answers_silent k Hk), map_app. simpl.
    rewrite (unstamped (f := f) _ _ Hr), <- !app_assoc. simpl. by rewrite <- !Permutation_middle. }
  destruct (blockedByRankBarrier s2 req2).
  { destruct (markParked_stamps env req2 ParkRank s2) as [Hr Hq].
    destruct (markParked env req2 ParkRank s2) as [req3 s3]. simpl in *.
    rewrite <- (unstamped (f := f) _ _ Hr).
    apply (conserves_trans _ s3 _ [] [f req3]); [by apply moves_conserves, moves_quiet|apply conserves_enqueue]. }
  pose proof (conserves_decided req2 state s2) as Hdec.
  destruct (decide_on cfg env s2 req2 state) as [s3 [r|]]; [done|].
  simpl in Hdec. repeat case_match; exact Hdec.
Qed.

Lemma swap_waiter_conserves ev s w : conserves s (swap_waiter cfg env ev s w) [f w].
Proof.
  unfold swap_waiter. destruct (sd_err ev); [by apply moves_conserves, moves_answer|].
  destruct (atCapacity cfg s w).
  { destruct (markParked_stamps env w ParkCap s) as [Hr Hq].
    destruct (markParked env w ParkCap s) as [w' s']. simpl in *. rewrite <- (unstamped (f := f) _ _ Hr).
    apply (conserves_trans _ s' _ [] [f w']); [by apply moves_conserves, moves_quiet|apply conserves_enqueue]. }
  destruct (kvAdmit cfg s (Model w) (EstimatedTokens w)); simpl; [by apply moves_conserves, moves_grant|].
  destruct (markParked_stamps env w ParkKV (markKVParked env w s)) as [Hr Hq].
  destruct (markParked env w ParkKV (markKVParked env w s)) as [w' s']. simpl in *.
  rewrite <- (unstamped (f := f) _ _ Hr).
  apply (conserves_trans _ s' _ [] [f w']); [|apply conserves_enqueue].
  apply moves_conserves, moves_quiet. by eapply quiet_trans; [apply markKVParked_quiet|].
Qed.

Lemma conserves_fold {B} (step : FIFO -> B -> FIFO) (g : B -> A) bs s :
  (forall s b, conserves s (step s b) [g b]) -> conserves s (foldl step s bs) (map g bs).
Proof.
  intros Hstep. revert s. induction bs as [|b bs IH]; intros s; simpl.
  - apply moves_conserves. by apply moves_set.
  - destruct (conserves_trans _ _ _ _ _ (Hstep s b) (IH (step s b))) as (n & L & P).
    exists n. split; [done|]. rewrite P. by rewrite <- Permutation_cons_append.
Qed.

(** Nothing but the waiters of the finished swap has left [parked]. *)
Lemma conserves_from s s' x y :
  conserves s' y x -> (exists l, log s' = log s ++ l /\ answers l = []) ->
  x ++ held s' ≡ₚ held s -> conserves s y [].
Proof.
  intros (n & L & P) (l & Hl & Ha) Hh. exists (l ++ n). split; [by rewrite L, Hl, app_assoc|].
  rewrite answers_app, Ha. simpl. by rewrite P, Hh.
Qed.

Lemma OnSwapDone_conserves ev s : conserves s (OnSwapDone cfg env ev s) [].
Proof.
  unfold OnSwapDone. destruct (active s !! sd_model ev) as [sw|] eqn:Hact;
    [|apply moves_conserves; by apply moves_set].
  set (s1 := match sd_err ev with None => _ | Some _ => _ end).
  assert (active s1 = delete (sd_model ev) (active s) /\ queued s1 = queued s /\
          penalized s1 = penalized s /\ log s1 = log s) as (Ea & Eq & Ep & El)
    by (subst s1; by destruct (sd_err ev)).
  apply (conserves_from s s1 (map f (waiters sw))).
  - apply (conserves_trans s1 (foldl (swap_waiter cfg env ev) s1 (waiters sw)) _ (map f (waiters sw)) []); [|apply conserves_drain].
    apply conserves_fold. apply swap_waiter_conserves.
  - exists []. by rewrite app_nil_r.
  - unfold held, parked. rewrite Eq, Ep, Ea, (waiting_delete _ _ _ Hact).
    rewrite (Permutation_app_swap_app (map f (waiters sw))). f_equiv.
    apply Permutation_app_swap_app.
Qed.

Lemma releaseKV_fields s m est ctx :
  moves s (releaseKV s m est ctx).2 [].
Proof. unfold releaseKV. repeat (case_match; simpl); by apply moves_set. Qed.

Lemma OnServeDone_conserves ev s : conserves s (OnServeDone cfg env ev s) [].
Proof.
  unfold OnServeDone. destruct (sv_statusRead ev); [apply moves_conserves; by apply moves_set|].
  destruct (sv_capReleaseOnly ev).
  { apply (conserves_trans _ (publishCapacity cfg (if 0 <? get0 (inFlight s) (sv_model ev)
       then set_inFlight s (<[sv_model ev:=get0 (inFlight s) (sv_model ev) - 1]> (inFlight s)) else s))
       _ [] []); [|apply conserves_drain]. apply moves_conserves. case_match; by apply moves_set. }
  cbv zeta. set (s1 := if sv_capReleased ev then s else _).
  assert (moves s s1 []) as M1 by (subst s1; case_match; by apply moves_set).
  set (s2 := dropGranted s1 (sv_model ev) (sv_holder ev)).
  assert (moves s1 s2 []) as M2.
  { subst s2. unfold dropGranted. repeat (case_match; try by apply moves_set). }
  set (idle := get0 (inFlight s2) (sv_model ev) <=? 0). clearbody idle.
  set (s3 := if idle then _ else s2).
  assert (moves s2 s3 []) as M3.
  { subst s3. simpl. repeat (case_match; try by apply moves_set). }
  pose proof (releaseKV_fields s3 (sv_model ev) (sv_tokens ev) (sv_ctx ev)) as M4.
  destruct (releaseKV s3 _ _ _) as [rel s4]. simpl in M4.
  assert (moves s4 (kvWarmOnDone cfg env s4 ev) []) as M5.
  { destruct (kvWarmOnDone_residents cfg env s4 ev) as [x ->]. by apply moves_set. }
  pose proof (moves_publish (kvWarmOnDone cfg env s4 ev)) as M6.
  assert (conserves s (publish cfg env (kvWarmOnDone cfg env s4 ev)) []) as Hc.
  { apply moves_conserves.
    apply (moves_trans _ _ _ [] [] M1), (moves_trans _ _ _ [] [] M2), (moves_trans _ _ _ [] [] M3),
      (moves_trans _ _ _ [] [] M4), (moves_trans _ _ _ [] [] M5), M6. }
  case_match; [|done]. apply (conserves_trans _ _ _ [] [] Hc). apply conserves_drain.
Qed.

(** *** Tick *)
Lemma release_fold c hs kept s :
  let '(kept', s') := foldl (release_step cfg env c) (kept, s) hs in
  active s' = active s /\ penalized s' = penalized s /\
  exists l, log s' = log s ++ l /\ answers l = [] /\
    map f kept' ++ map f (queued s') ≡ₚ map f hs ++ map f kept ++ map f (queued s).
Proof.
  revert kept s. induction hs as [|r hs IH]; intros kept s; simpl.
  { split_and!; try done. exists []. by rewrite app_nil_r. }
  destruct (penaltyHeldUnder cfg env s r c).
  - specialize (IH (kept ++ [r]) s). destruct (foldl _ _ hs) as [kept' s'].
    destruct IH as (Ha & Hp & l & L & Hl & P). split_and!; try done. exists l. split_and!; try done.
    rewrite P, map_app. simpl. rewrite <- !app_assoc. simpl. by rewrite <- !Permutation_middle.
  - specialize (IH kept (enqueue cfg env r s)). destruct (foldl _ _ hs) as [kept' s'].
    destruct IH as (Ha & Hp & l & L & Hl & P).
    destruct (enqueue_fields r s) as (Ea & Ep & Eq & k & K & Hk).
    split_and!; [congruence|congruence|]. exists (k ++ l).
    rewrite L, K, app_assoc, answers_app, (answers_silent k Hk). split_and!; [done|done|].
    rewrite P, Eq, (Permutation_map f (insert_req_perm r (queued s))). simpl.
    by rewrite <- !Permutation_middle.
Qed.

Lemma conserves_release s : conserves s (releasePenalized cfg env s) [].
Proof.
  unfold releasePenalized. destruct (penalized s) as [|r hs] eqn:Hp; [apply moves_conserves; by apply moves_set|].
  rewrite <- Hp. pose proof (release_fold (contended s) (penalized s) [] s) as Hf'.
  destruct (foldl _ _ _) as [kept s']. destruct Hf' as (Ha & _ & l & L & Hl & P).
  exists l. split; [done|]. rewrite Hl. simpl. unfold held, parked. simpl. rewrite Ha.
  rewrite (Permutation_app_swap_app (map f (queued s'))), (app_assoc (map f kept)), P. simpl.
  rewrite <- app_assoc. apply Permutation_app_swap_app.
Qed.

Lemma moves_expire s : moves s (expireForcedGrace cfg env s) [].
Proof.
  unfold expireForcedGrace, consumeGraceExpiredForced. destruct (graceExpiredForced s); by apply moves_set.
Qed.

Lemma OnTick_conserves s : conserves s (OnTick cfg env s) [].
Proof.
  unfold OnTick. set (s1 := releasePenalized cfg env s).
  set (s2 := match queued s1 with [] => _ | _ => _ end).
  assert (moves s1 s2 []) as M2.
  { subst s2. destruct (queued s1) eqn:Hq.
    - simpl. eapply (moves_trans _ (set_cooldownForced s1 false) _ [] []); [by apply moves_set|].
      eapply (moves_trans _ _ _ [] [] (moves_expire (set_cooldownForced s1 false))). by apply moves_set.
    - simpl. destruct (graceExpiredForced s1); by apply moves_set. }
  apply (conserves_trans _ (drainQueue cfg env s2) _ [] []).
  - apply (conserves_trans _ s2 _ [] []); [|apply conserves_drain].
    apply (conserves_trans _ s1 _ [] []); [apply conserves_release|by apply moves_conserves].
  - apply moves_conserves. by apply moves_set.
Qed.

(** *** Unload *)
Lemma waiting_release a id sw :
  a !! id = Some sw -> map f (waiters sw) ++ waiting (delete id a) ≡ₚ waiting a.
Proof. intros Hk. by rewrite (waiting_delete _ _ _ Hk). Qed.

Lemma unload_errors ws s :
  exists n, foldl unload_error s ws = set_log s (log s ++ n) /\ answers n = map f ws.
Proof.
  revert s. induction ws as [|w ws IH]; intros s; simpl.
  - exists []. by rewrite app_nil_r, set_log_log.
  - destruct (IH (unload_error s w)) as (n & -> & Hn).
    exists (EGrantError w ErrUnloaded :: n). simpl. rewrite <- app_assoc, Hn. done.
Qed.

Lemma conserves_release_target s id : conserves s (release_target s id) [].
Proof.
  unfold release_target. destruct (active s !! id) as [sw|] eqn:Hact;
    [|apply moves_conserves; by apply moves_set].
  destruct (unload_errors (waiters sw) s) as (n & -> & Hn).
  exists n. split; [done|]. unfold held, parked. simpl. rewrite Hn, <- (waiting_release _ _ _ Hact).
  rewrite (Permutation_app_swap_app (map f (waiters sw))). f_equiv. apply Permutation_app_swap_app.
Qed.

Lemma conserves_release_targets ids s : conserves s (foldl release_target s ids) [].
Proof.
  revert s. induction ids as [|id ids IH]; intros s; simpl.
  - apply moves_conserves. by apply moves_set.
  - apply (conserves_trans _ (release_target s id) _ [] []); [apply conserves_release_target|apply IH].
Qed.

Lemma partition_perm (t : HandlerReq -> bool) qs :
  map f (List.filter t qs) ++ map f (List.filter (fun w => negb (t w)) qs) ≡ₚ map f qs.
Proof.
  induction qs as [|q qs IH]; simpl; [done|]. destruct (t q); simpl; rewrite <- IH; [done|].
  by rewrite <- Permutation_middle.
Qed.

Lemma OnUnload_conserves targets timeout s : conserves s (OnUnload cfg env targets timeout s) [].
Proof.
  unfold OnUnload. set (s1 := kvWarmForget s targets).
  set (s2 := foldl release_target s1 (remove_dups targets)).
  assert (conserves s s2 []) as C2.
  { apply (conserves_trans _ s1 _ [] []); [apply moves_conserves; by apply moves_set|].
    apply conserves_release_targets. }
  set (s3 := match queued s2 with [] => s2 | _ => _ end).
  assert (conserves s2 s3 []) as C3.
  { subst s3. destruct (queued s2) as [|q qs] eqn:Hq; [apply moves_conserves; by apply moves_set|].
    rewrite <- Hq. apply moves_conserves_publish.
    destruct (unload_errors (List.filter (targeted targets) (queued s2)) s2) as (n & -> & Hn).
    exists n. split; [done|]. unfold held, parked. simpl. rewrite Hn, app_assoc.
    by rewrite partition_perm. }
  set (s4 := foldl unload_error s3 _). set (s5 := set_penalized s4 _).
  assert (conserves s3 s5 []) as C5.
  { subst s5 s4. destruct (unload_errors (List.filter (targeted targets) (penalized s3)) s3) as (n & -> & Hn).
    exists n. split; [done|]. unfold held, parked. simpl. rewrite Hn.
    rewrite (Permutation_app_swap_app (map f (List.filter _ (penalized s3)))). f_equiv.
    by rewrite app_assoc, partition_perm. }
  apply (conserves_trans _ (emit (EStopProcesses timeout targets) s5) _ [] []); [|apply conserves_drain].
  apply (conserves_trans _ s5 _ [] []); [|apply moves_conserves; by apply (moves_still _ _ [EStopProcesses timeout targets])].
  apply (conserves_trans _ s3 _ [] []); [|done]. by apply (conserves_trans _ s2 _ [] []).
Qed.

(** *** Cancel *)
Lemma held_filter (t : HandlerReq -> bool) (a : gmap string activeSwap) :
  exists ws, map f ws ++ waiting ((fun sw => mkSwap (sw_modelID sw) (sw_evict sw) (List.filter t (waiters sw))) <$> a)
             ≡ₚ waiting a /\ forall w, w ∈ ws -> t w = false.
Proof.
  unfold waiting. rewrite map_to_list_fmap. induction (map_to_list a) as [|[k sw] l IH]; simpl.
  - exists []. split; [done|]. by intros ? ?%elem_of_nil.
  - destruct IH as (ws & P & Hw). exists (List.filter (fun w => negb (t w)) (waiters sw) ++ ws). split.
    + rewrite map_app, <- !app_assoc, (Permutation_app_swap_app (map f ws)), P, app_assoc.
      f_equiv. rewrite <- (partition_perm t (waiters sw)). apply Permutation_app_comm.
    + intros w [[_ Hw'%negb_true_iff]%elem_of_filterb|?]%elem_of_app; auto.
Qed.

(** What [OnCancel] drops are requests of that channel only. *)
Lemma OnCancel_drops req s :
  exists ws l, log (OnCancel cfg env req s) = log s ++ l /\ answers l = [] /\
    map f ws ++ held (OnCancel cfg env req s) ≡ₚ held s /\
    (forall w, w ∈ ws -> Respond w = Respond req) /\
    (forall w, w ∈ queued (OnCancel cfg env req s) -> Respond w <> Respond req) /\
    (forall w, w ∈ penalized (OnCancel cfg env req s) -> Respond w <> Respond req) /\
    (forall id sw w, active (OnCancel cfg env req s) !! id = Some sw -> w ∈ waiters sw -> Respond w <> Respond req).
Proof.
  unfold OnCancel. set (removed := _ || _ || _). clearbody removed.
  set (s1 := match queued s with [] => s | _ => _ end).
  assert (queued s1 = List.filter (other req) (queued s) /\ penalized s1 = penalized s /\
          active s1 = active s /\ log s1 = log s) as (E1 & E2 & E3 & E4).
  { subst s1. destruct (queued s) eqn:Hq; simpl; by rewrite ?Hq. }
  destruct (held_filter (other req) (active s)) as (ws & P & Hws).
  assert (forall w, other req w = false -> Respond w = Respond req) as Hoth.
  { intros w Hw%negb_false_iff. by apply Nat.eqb_eq. }
  assert (forall w, other req w = true -> Respond w <> Respond req) as Hoth'.
  { intros w Hw%negb_true_iff. by apply Nat.eqb_neq. }
  set (s2 := set_active _ _).
  exists (List.filter (fun w => negb (other req w)) (queued s) ++
          List.filter (fun w => negb (other req w)) (penalized s) ++ ws).
  exists (if removed then match queued s2 with [] => [] | qs => [EPositions (positions 1 qs)] end else []).
  assert (forall s', queued s' = queued s2 -> penalized s' = penalized s2 -> active s' = active s2 ->
    map f (List.filter (fun w => negb (other req w)) (queued s) ++
          List.filter (fun w => negb (other req w)) (penalized s) ++ ws) ++ held s' ≡ₚ held s /\
    (forall w, w ∈ queued s' -> Respond w <> Respond req) /\
    (forall w, w ∈ penalized s' -> Respond w <> Respond req) /\
    (forall id sw w, active s' !! id = Some sw -> w ∈ waiters sw -> Respond w <> Respond req)) as Hmain.
  { intros s' Q1 Q2 Q3. unfold held, parked. rewrite Q1, Q2, Q3. subst s2. simpl. rewrite E1, E2, E3. split_and!.
    - rewrite !map_app, <- P.
      rewrite <- (partition_perm (other req) (queued s)), <- (partition_perm (other req) (penalized s)).
      clear. solve_Permutation.
    - intros w [_ Hw]%elem_of_filterb. auto.
    - intros w [_ Hw]%elem_of_filterb. auto.
    - intros id sw w. rewrite lookup_fmap. destruct (active s !! id); simpl; [|done].
      intros [= <-]. simpl. intros [_ Hw]%elem_of_filterb. auto. }
  assert (forall w, w ∈ List.filter (fun w => negb (other req w)) (queued s) ++
          List.filter (fun w => negb (other req w)) (penalized s) ++ ws -> Respond w = Respond req) as Hdrop.
  { intros w [[_ Hw%negb_true_iff]%elem_of_filterb|[[_ Hw%negb_true_iff]%elem_of_filterb|?]%elem_of_app]%elem_of_app; auto. }
  destruct removed.
  - unfold broadcastQueuePositions. destruct (queued s2) eqn:Hq2.
    + split_and!; [by rewrite app_nil_r|done|apply Hmain; done|done|apply Hmain; done|apply Hmain; done|apply Hmain; done].
    + split_and!; [by simpl; rewrite E4|done|apply Hmain; done|done|apply Hmain; done|apply Hmain; done|apply Hmain; done].
  - split_and!; [by rewrite app_nil_r|done|apply Hmain; done|done|apply Hmain; done|apply Hmain; done|apply Hmain; done].
Qed.

(** *** Shutdown *)
Lemma OnShutdown_answers err s :
  exists l, OnShutdown err s = set_log s (log s ++ l) /\ answers l ≡ₚ held s.
Proof.
  assert (forall ws s, foldl (fun s w => emit (EGrantError w (ErrShutdown err)) s) s ws
            = set_log s (log s ++ map (fun w => EGrantError w (ErrShutdown err)) ws)) as Hg.
  { clear. induction ws as [|w ws IH]; intros s; simpl; [by rewrite app_nil_r, set_log_log|].
    rewrite IH. unfold emit. simpl. by rewrite <- app_assoc. }
  assert (forall ws, answers (map (fun w => EGrantError w (ErrShutdown err)) ws) = map f ws) as Ha.
  { clear. induction ws as [|w ws IH]; [done|]. unfold answers in *. simpl. by rewrite IH. }
  unfold OnShutdown. rewrite !Hg. simpl. eexists. rewrite <- !app_assoc. split; [done|].
  rewrite !answers_app, !Ha. unfold held, parked, waiting.
  assert (map f (flat_map (fun kv => waiters kv.2) (map_to_list (active s))) =
          flat_map (fun kv => map f (waiters kv.2)) (map_to_list (active s))) as ->.
  { clear. induction (map_to_list (active s)) as [|kv l IH]; simpl; [done|]. by rewrite map_app, IH. }
  solve_Permutation.
Qed.

End env.
End conserve.

Lemma OnRequest_gone {planner : Swapper} cfg env req s :
  gone env req s -> OnRequest cfg env req s = s.
Proof.
  intros Hg. assert (forall err, sendAdmission env req err s = (false, s)) as Hs.
  { intros err. by destruct (sendAdmission_cases env req err s) as [[-> _]|[Hn _]]. }
  unfold OnRequest, rejectAdmission, admit_. rewrite !Hs. simpl. repeat case_match; done.
Qed.

Lemma filter_none {A} (P : A -> Prop) `{!forall x, Decision (P x)} l :
  Forall (fun x => ~ P x) l -> filter P l = [].
Proof. induction 1 as [|x l Hx Hl IH]; [done|]. by rewrite filter_cons_False. Qed.

Lemma filter_all {A} (P : A -> Prop) `{!forall x, Decision (P x)} l :
  Forall P l -> filter P l = l.
Proof. induction 1 as [|x l Hx Hl IH]; [done|]. by rewrite filter_cons_True, IH. Qed.

(** A property of every request held. *)
Lemma held_forall {A} (f : HandlerReq -> A) (P : A -> Prop) s :
  (forall w, w ∈ queued s -> P (f w)) -> (forall w, w ∈ penalized s -> P (f w)) ->
  (forall id sw w, active s !! id = Some sw -> w ∈ waiters sw -> P (f w)) ->
  Forall P (held f s).
Proof.
  intros H1 H2 H3. apply Forall_forall. intros i.
  unfold held, parked. rewrite !elem_of_app, !elem_of_map. intros [(w & ? & ->)|[(w & ? & ->)|Hw]]; [auto|auto|].
  apply list_elem_of_In, in_flat_map in Hw as ([id sw] & Hin%list_elem_of_In & Hi).
  apply elem_of_map_to_list in Hin.
  apply list_elem_of_In, elem_of_map in Hi as (w & ? & ->). eauto.
Qed.

(** The identities of the requests held, and of those answered. *)
Abbreviation held_ids := (held Respond).
Abbreviation answered_ids := (answers Respond).

(** C2. Every request is answered exactly once.  An event moves identities
    only between the queue, the penalized list, the waiters of active swaps and
    the answers it logs: an arrival is held or answered (unless its caller left
    during the admission handshake, or it has no admission channel to be
    refused on, and then nothing changes), a cancellation drops exactly the
    cancelled one, a shutdown answers everything held, and every other event
    answers what it releases. *)
Theorem requests_conserved {planner : Swapper} (cfg : Settings) (env : Env) (ev : Event) (s : FIFO) :
  exists new, log (step cfg env ev s) = log s ++ new /\
  match ev with
  | Request req =>
      answered_ids new ++ held_ids (step cfg env ev s) ≡ₚ Respond req :: held_ids s \/
      ((gone env req s \/ Admit req = false) /\ step cfg env ev s = s)
  | Cancel req =>
      answered_ids new = [] /\
      held_ids (step cfg env ev s) ≡ₚ filter (fun i => i <> Respond req) (held_ids s)
  | Shutdown _ => answered_ids new ≡ₚ held_ids s
  | _ => answered_ids new ++ held_ids (step cfg env ev s) ≡ₚ held_ids s
  end.
Proof.
  destruct ev as [req|req|ev|ev| |targets timeout|err| |session]; cbn [step].
  - destruct (sendAdmission_cases env req None s) as [[_ Hg]|[Hg _]].
    + rewrite (OnRequest_gone cfg env req s Hg). exists []. rewrite app_nil_r. split; [reflexivity|].
      right. split; [by left|reflexivity].
    + destruct (OnRequest_conserves cfg Respond env req s Hg) as [(n & L & P)|[[E Ha]|[err E]]].
      * exists n. split; [exact L|by left].
      * rewrite E. exists []. rewrite app_nil_r. split; [reflexivity|]. right. split; [by right|reflexivity].
      * rewrite E. exists [EAdmit req (Some err)]. split; [reflexivity|by left].
  - destruct (OnCancel_drops cfg Respond env req s) as (ws & l & L & Ha & P & Hws & Hq & Hp & Hw).
    exists l. split_and!; [done|done|]. rewrite <- P, filter_app.
    rewrite (filter_none _ (map Respond ws)), filter_all; [done| |].
    + by apply held_forall.
    + apply Forall_forall. intros i (w & Hin & ->)%elem_of_map. intros Hne. by apply Hne, Hws.
  - exact (OnSwapDone_conserves cfg Respond env ev s).
  - exact (OnServeDone_conserves cfg Respond env ev s).
  - exact (OnTick_conserves cfg Respond env s).
  - exact (OnUnload_conserves cfg Respond env targets timeout s).
  - destruct (OnShutdown_answers Respond err s) as (l & -> & P). exists l. split; [reflexivity|exact P].
  - exists []. rewrite app_nil_r. split; reflexivity.
  - exists []. rewrite app_nil_r. split; reflexivity.
Qed.

End FifoConserve.
