(* ===== verification/FifoOrder.v ===== *)
(** The order of the queue: tier rank, then model priority, then arrival; and
    the rank barrier, which lets no request past a waiting one of a strictly
    higher rank. *)

From S2P Require Import Prelude Tier Swappers SchedTypes KvWarm Grace Fifo FifoBase FifoDecide FifoConserve SchedExample.

Module FifoOrder.
Import Tier Swapper Sched KvWarm Grace Fifo FifoBase FifoDecide FifoConserve SchedExample.

Section order.
Context {planner : Swapper}.
Variable cfg : Settings.

(** [a] may stand before [b]. *)
Definition in_order (a b : HandlerReq) : Prop := goes_before cfg b a = false.

Definition sorted (qs : list HandlerReq) : Prop := StronglySorted in_order qs.

(** [goes_before] reads off the key (rank, priority, sequence). *)
Lemma goes_before_spec a b :
  goes_before cfg a b = true <->
  rank b < rank a \/ (rank b = rank a /\
    (priority cfg b < priority cfg a \/ (priority cfg b = priority cfg a /\ arrivalSeq a < arrivalSeq b))).
Proof.
  unfold goes_before. rewrite !orb_true_iff, !andb_true_iff, !orb_true_iff, !andb_true_iff. lia.
Qed.

Lemma in_order_spec a b :
  in_order a b <->
  rank b < rank a \/ (rank b = rank a /\
    (priority cfg b < priority cfg a \/ (priority cfg b = priority cfg a /\ arrivalSeq a <= arrivalSeq b))).
Proof. unfold in_order. rewrite <- not_true_iff_false, goes_before_spec. lia. Qed.

Lemma in_order_trans a b c : in_order a b -> in_order b c -> in_order a c.
Proof. rewrite !in_order_spec. lia. Qed.

Lemma in_order_rank a b : in_order a b -> rank b <= rank a.
Proof. rewrite in_order_spec. lia. Qed.

Lemma goes_before_in_order a b : goes_before cfg a b = true -> in_order a b.
Proof. rewrite goes_before_spec, in_order_spec. lia. Qed.

Lemma in_order_stamped a a' b b' : stamped a a' -> stamped b b' -> in_order a b -> in_order a' b'.
Proof. intros Ha Hb. unfold stamped in *. by rewrite Ha, Hb. Qed.

Lemma insert_sorted req qs : sorted qs -> sorted (insert_req cfg req qs).
Proof.
  unfold sorted. induction 1 as [|q qs Hs IH Hq]; simpl; [by repeat constructor|].
  destruct (goes_before cfg req q) eqn:Hb.
  - apply goes_before_in_order in Hb. constructor; [by constructor|]. constructor; [done|].
    eapply Forall_impl; [exact Hq|]. intros x Hx. by eapply in_order_trans.
  - constructor; [done|]. apply Forall_forall. intros x Hx. rewrite Forall_forall in Hq.
    rewrite (insert_req_perm cfg req qs) in Hx. apply elem_of_cons in Hx as [->|Hx]; [done|by apply Hq].
Qed.

(** *** Sublists up to stamps *)
Inductive kept : list HandlerReq -> list HandlerReq -> Prop :=
| kept_nil : kept [] []
| kept_skip q qs rs : kept qs rs -> kept (q :: qs) rs
| kept_take q q' qs rs : stamped q q' -> kept qs rs -> kept (q :: qs) (q' :: rs).

Lemma kept_elem qs rs r : kept qs rs -> r ∈ rs -> exists q, q ∈ qs /\ stamped q r.
Proof.
  induction 1 as [|q qs rs _ IH|q q' qs rs Hq _ IH]; [by intros ?%elem_of_nil| |].
  - intros Hr. destruct (IH Hr) as (q0 & ? & ?). exists q0. split; [by right|done].
  - intros [->|Hr]%elem_of_cons; [exists q; split; [by left|done]|].
    destruct (IH Hr) as (q0 & ? & ?). exists q0. split; [by right|done].
Qed.

Lemma kept_sorted qs rs : kept qs rs -> sorted qs -> sorted rs.
Proof.
  unfold sorted. induction 1 as [|q qs rs _ IH|q q' qs rs Hq Hk IH]; [done| |].
  - intros [? _]%StronglySorted_inv. auto.
  - intros [Hs Hall]%StronglySorted_inv. constructor; [auto|]. apply Forall_forall. intros r Hr.
    destruct (kept_elem _ _ _ Hk Hr) as (q0 & Hq0 & Hst). rewrite Forall_forall in Hall.
    by eapply in_order_stamped; [| |apply Hall].
Qed.

Lemma filter_sorted t qs : sorted qs -> sorted (List.filter t qs).
Proof.
  apply kept_sorted. induction qs as [|q qs IH]; simpl; [constructor|].
  destruct (t q); [apply kept_take; [apply stamped_refl|done]|by apply kept_skip].
Qed.

Section env.
Variable env : Env.

(** *** The drain keeps a sublist, and honours the barrier *)
Definition barrier_ok (d : drain) : Prop :=
  forall r, r ∈ d_remaining d -> exists b, d_barrier d = Some b /\ rank r <= b.

Lemma drain_step_shape d req :
  (exists req', stamped req req' /\ d_remaining (drain_step cfg env d req) = d_remaining d ++ [req'] /\
     (barrier_ok d -> barrier_ok (drain_step cfg env d req))) \/
  (barred d req = false /\ d_remaining (drain_step cfg env d req) = d_remaining d /\
   d_barrier (drain_step cfg env d req) = d_barrier d).
Proof.
  rewrite drain_step_decide. destruct (barred d req) eqn:Hb.
  { left. destruct (markParked_stamps env req ParkRank (d_fifo d)) as [Hr _].
    destruct (markParked env req ParkRank (d_fifo d)) as [req' s']. exists req'. split_and!; [done|done|].
    intros Hok r. simpl. rewrite elem_of_app, list_elem_of_singleton. intros [Hin| ->]; [by apply Hok|].
    unfold barred in Hb. destruct (d_barrier d) as [b|]; [|done]. exists b. split; [done|].
    pose proof (unstamped (f := rank) _ _ Hr) as E. simpl in E. rewrite E. lia. }
  destruct (ModelState env (d_fifo d) (Model req)) as [state|]; [|by right].
  destruct (decide_on cfg env (d_fifo d) req state) as [s' [r|]] eqn:Hdec; [left|by right].
  pose proof (decide_outcome cfg env (d_fifo d) req state) as Hout. rewrite Hdec in Hout. simpl in Hout.
  assert (stamped req r) as Hr by (by inversion Hout).
  exists r. split_and!; [done|done|]. intros Hok x. simpl.
  rewrite elem_of_app, list_elem_of_singleton. intros [Hin| ->].
  - destruct (Hok x Hin) as (b & -> & Hle). case_match; eexists; (split; [done|lia]).
  - destruct (d_barrier d) as [b|]; [|by eexists]. case_match; eexists; (split; [done|lia]).
Qed.

Lemma drain_fold_kept qs d :
  exists rem, d_remaining (foldl (drain_step cfg env) d qs) = d_remaining d ++ rem /\ kept qs rem.
Proof.
  revert d. induction qs as [|q qs IH]; intros d; simpl; [exists []; rewrite app_nil_r; split; [done|constructor]|].
  destruct (IH (drain_step cfg env d q)) as (rem & -> & Hk).
  destruct (drain_step_shape d q) as [(q' & Hq' & -> & _)|(_ & -> & _)].
  - exists (q' :: rem). rewrite <- app_assoc. split; [done|by constructor].
  - exists rem. split; [done|by constructor].
Qed.

(** What stays outranks nothing that leaves: [q] left the pass, [r] stays. *)
Lemma drain_fold_barrier qs d q :
  barrier_ok d -> sorted qs -> (forall r, r ∈ d_remaining d -> forall x, x ∈ qs -> rank x <= rank r) ->
  q ∈ qs -> (forall r, r ∈ d_remaining (foldl (drain_step cfg env) d qs) -> ~ stamped q r) ->
  forall r, r ∈ d_remaining (foldl (drain_step cfg env) d qs) -> rank r <= rank q.
Proof.
  intros Hok Hs. revert d Hok. induction Hs as [|x qs Hs IH Hx]; intros d Hok Hprev Hq Hleft r Hr;
    [by apply elem_of_nil in Hq|]. simpl in *. rewrite Forall_forall in Hx.
  destruct (drain_fold_kept qs (drain_step cfg env d x)) as (rem & Erem & Hk).
  assert (forall r, r ∈ rem -> rank r <= rank x) as Hrem.
  { intros r0 Hr0. destruct (kept_elem _ _ _ Hk Hr0) as (y & Hy & Hst).
    rewrite (unstamped (f := rank) _ _ Hst). by apply in_order_rank, Hx. }
  destruct (drain_step_shape d x) as [(x' & Hx' & E & Hok')|(Hb & E & Eb)].
  - apply elem_of_cons in Hq as [->|Hq].
    { exfalso. apply (Hleft x'); [|done]. rewrite Erem, E. set_solver. }
    apply (IH (drain_step cfg env d x)); auto. rewrite E. intros r0 [Hr0|Hr0]%elem_of_app y Hy.
    + apply Hprev; [done|by right].
    + apply list_elem_of_singleton in Hr0 as ->. rewrite (unstamped (f := rank) _ _ Hx').
      by apply in_order_rank, Hx.
  - assert (barrier_ok (drain_step cfg env d x)) as Hok' by (intros y; rewrite E, Eb; apply Hok).
    apply elem_of_cons in Hq as [->|Hq].
    + rewrite Erem, E in Hr. apply elem_of_app in Hr as [Hr|Hr]; [|by apply Hrem].
      destruct (Hok r Hr) as (b & Hbar & Hle). unfold barred in Hb. rewrite Hbar in Hb. lia.
    + apply (IH (drain_step cfg env d x)); auto. rewrite E. intros r0 Hr0 y Hy.
      apply Hprev; [done|by right].
Qed.

Lemma drainQueue_queue s :
  queued (drainQueue cfg env s) =
    match queued s with [] => [] | _ => d_remaining (foldl (drain_step cfg env) (mkDrain s [] None) (queued s)) end.
Proof.
  unfold drainQueue. destruct (queued s) eqn:Hq; [done|]. unfold broadcastQueuePositions.
  simpl. by case_match.
Qed.

Lemma drainQueue_kept s : kept (queued s) (queued (drainQueue cfg env s)).
Proof.
  rewrite drainQueue_queue. destruct (queued s) as [|q qs] eqn:Hq; [constructor|]. rewrite <- Hq.
  by destruct (drain_fold_kept (queued s) (mkDrain s [] None)) as (rem & -> & Hk).
Qed.

(** ** Every event keeps the queue in order *)

(** [s'] follows [s]: a sorted queue stays sorted, the sequence counter stands. *)
Definition keeps (s s' : FIFO) : Prop :=
  (sorted (queued s) -> sorted (queued s')) /\ nextArrivalSeq s' = nextArrivalSeq s.

Lemma keeps_same s s' : queued s' = queued s -> nextArrivalSeq s' = nextArrivalSeq s -> keeps s s'.
Proof. intros Hq Hn. split; [by rewrite Hq|done]. Qed.

Lemma keeps_trans s1 s2 s3 : keeps s1 s2 -> keeps s2 s3 -> keeps s1 s3.
Proof. intros [H1 H2] [H3 H4]. split; [auto|congruence]. Qed.

Lemma keeps_quiet s s' : quiet s s' -> keeps s s'.
Proof. intros (l & -> & _). by apply keeps_same. Qed.

Lemma keeps_enqueue req s : keeps s (enqueue cfg env req s).
Proof.
  split; [|by unfold enqueue, broadcastQueuePositions; simpl; case_match].
  destruct (enqueue_fields cfg env req s) as (_ & _ & -> & _). apply insert_sorted.
Qed.

Lemma outcome_frame s req state s' stuck :
  outcome cfg env s req state s' stuck ->
  queued s' = queued s /\ nextArrivalSeq s' = nextArrivalSeq s /\ penalized s' = penalized s.
Proof.
  intros [req' s1 Hr (l & -> & _)|sw req' s1 _ _ (l & -> & _)|_ _ _ _ _ _ _|req' s1 s2 _ _ _ _ Hdef _ (l & -> & _)];
    [done|done| |].
  - by destruct (grantHandler_frame cfg env req (Model req) s).
  - destruct (deferredByGrace_state cfg env req (plan_for env s req) s) as [E|E];
      rewrite Hdef in E; simpl in E; by subst s1.
Qed.

Lemma drain_step_frame d req :
  queued (d_fifo (drain_step cfg env d req)) = queued (d_fifo d) /\
  nextArrivalSeq (d_fifo (drain_step cfg env d req)) = nextArrivalSeq (d_fifo d).
Proof.
  rewrite drain_step_decide. destruct (barred d req).
  { destruct (markParked_stamps env req ParkRank (d_fifo d)) as [_ (l & E & _)].
    destruct (markParked env req ParkRank (d_fifo d)) as [req' s']. simpl in *. by subst s'. }
  destruct (ModelState env (d_fifo d) (Model req)) as [state|]; [|done].
  pose proof (outcome_frame _ _ _ _ _ (decide_outcome cfg env (d_fifo d) req state)) as Hf.
  destruct (decide_on cfg env (d_fifo d) req state) as [s' [r|]]; simpl in *; naive_solver.
Qed.

Lemma drain_fold_seq qs d :
  nextArrivalSeq (d_fifo (foldl (drain_step cfg env) d qs)) = nextArrivalSeq (d_fifo d).
Proof.
  revert d. induction qs as [|q qs IH]; intros d; simpl; [done|].
  rewrite IH. apply drain_step_frame.
Qed.

Lemma keeps_drain s : keeps s (drainQueue cfg env s).
Proof.
  split; [apply kept_sorted, drainQueue_kept|].
  unfold drainQueue, broadcastQueuePositions. destruct (queued s) eqn:Hq; [done|]. rewrite <- Hq.
  simpl. case_match; simpl; by rewrite drain_fold_seq.
Qed.

Lemma keeps_fold {B} (st : FIFO -> B -> FIFO) bs s :
  (forall s b, keeps s (st s b)) -> keeps s (foldl st s bs).
Proof.
  intros Hst. revert s. induction bs as [|b bs IH]; intros s; simpl; [by apply keeps_same|].
  eapply keeps_trans; [apply Hst|apply IH].
Qed.

Lemma keeps_swap_waiter ev s w : keeps s (swap_waiter cfg env ev s w).
Proof.
  unfold swap_waiter. destruct (sd_err ev); [by apply keeps_same|].
  destruct (atCapacity cfg s w).
  { destruct (markParked_stamps env w ParkCap s) as [_ Hq].
    destruct (markParked env w ParkCap s) as [w' s']. eapply keeps_trans; [by apply keeps_quiet|apply keeps_enqueue]. }
  destruct (kvAdmit cfg s (Model w) (EstimatedTokens w)); simpl.
  { destruct (grantHandler_frame cfg env w (sd_model ev) s). by apply keeps_same. }
  destruct (markParked_stamps env w ParkKV (markKVParked env w s)) as [_ Hq].
  destruct (markParked env w ParkKV (markKVParked env w s)) as [w' s'].
  eapply keeps_trans; [|apply keeps_enqueue]. apply keeps_quiet.
  eapply quiet_trans; [apply markKVParked_quiet|done].
Qed.

Lemma keeps_OnSwapDone ev s : keeps s (OnSwapDone cfg env ev s).
Proof.
  unfold OnSwapDone. destruct (active s !! sd_model ev); [|by apply keeps_same].
  eapply keeps_trans; [|apply keeps_drain]. eapply keeps_trans; [|apply keeps_fold, keeps_swap_waiter].
  case_match; by apply keeps_same.
Qed.

Lemma keeps_OnServeDone ev s : keeps s (OnServeDone cfg env ev s).
Proof.
  unfold OnServeDone. destruct (sv_statusRead ev); [by apply keeps_same|].
  destruct (sv_capReleaseOnly ev).
  { eapply keeps_trans; [|apply keeps_drain]. case_match; by apply keeps_same. }
  cbv zeta. set (s1 := if sv_capReleased ev then s else _).
  assert (keeps s s1) as K1 by (subst s1; case_match; by apply keeps_same).
  set (s2 := dropGranted s1 (sv_model ev) (sv_holder ev)).
  assert (keeps s1 s2) as K2 by (subst s2; unfold dropGranted; repeat case_match; by apply keeps_same).
  set (idle := get0 (inFlight s2) (sv_model ev) <=? 0). clearbody idle.
  set (s3 := if idle then _ else s2).
  assert (keeps s2 s3) as K3 by (subst s3; simpl; repeat case_match; by apply keeps_same).
  assert (keeps s3 (releaseKV s3 (sv_model ev) (sv_tokens ev) (sv_ctx ev)).2) as K4.
  { unfold releaseKV. repeat (case_match; simpl); by apply keeps_same. }
  destruct (releaseKV s3 _ _ _) as [rel s4]. simpl in K4.
  assert (keeps s4 (publish cfg env (kvWarmOnDone cfg env s4 ev))) as K5.
  { destruct (kvWarmOnDone_residents cfg env s4 ev) as [x ->]. by apply keeps_same. }
  assert (keeps s (publish cfg env (kvWarmOnDone cfg env s4 ev))) as K.
  { eapply keeps_trans; [exact K1|]. eapply keeps_trans; [exact K2|]. eapply keeps_trans; [exact K3|].
    by eapply keeps_trans. }
  case_match; [|done]. eapply keeps_trans; [exact K|apply keeps_drain].
Qed.

Lemma keeps_release s : keeps s (releasePenalized cfg env s).
Proof.
  unfold releasePenalized. destruct (penalized s) as [|r hs]; [by apply keeps_same|].
  assert (forall hs kept s, keeps s (foldl (release_step cfg env (contended s)) (kept, s) hs).2) as Hf.
  { intros hs' kept s'. generalize (contended s') as c. intros c. revert kept s'.
    induction hs' as [|x hs' IH]; intros kept s'; simpl; [by apply keeps_same|].
    destruct (penaltyHeldUnder cfg env s' x c); [apply IH|].
    eapply keeps_trans; [apply keeps_enqueue|apply IH]. }
  specialize (Hf (r :: hs) [] s). destruct (foldl _ _ _) as [kept' s']. simpl in Hf.
  destruct Hf as [H1 H2]. by split.
Qed.

Lemma keeps_OnTick s : keeps s (OnTick cfg env s).
Proof.
  unfold OnTick. eapply keeps_trans; [apply keeps_release|].
  set (s1 := releasePenalized cfg env s). set (s2 := match queued s1 with [] => _ | _ => _ end).
  assert (keeps s1 s2) as K2.
  { subst s2. unfold expireForcedGrace, consumeGraceExpiredForced. simpl.
    repeat (case_match; simplify_eq; try by apply keeps_same). }
  eapply keeps_trans; [exact K2|]. eapply keeps_trans; [apply keeps_drain|by apply keeps_same].
Qed.

Lemma keeps_OnUnload targets timeout s : keeps s (OnUnload cfg env targets timeout s).
Proof.
  unfold OnUnload. set (s1 := kvWarmForget s targets). set (s2 := foldl release_target s1 _).
  assert (keeps s s2) as K2.
  { eapply keeps_trans; [by apply (keeps_same s s1)|]. apply keeps_fold. intros s' id.
    unfold release_target. case_match; [|by apply keeps_same].
    match goal with |- context [foldl unload_error s' ?ws] =>
      destruct (unload_errors Respond ws s') as (n & -> & _) end. by apply keeps_same. }
  set (s3 := match queued s2 with [] => s2 | _ => _ end).
  assert (keeps s2 s3) as K3.
  { subst s3. destruct (queued s2) as [|q qs] eqn:Hq; [by apply keeps_same|]. rewrite <- Hq.
    destruct (unload_errors Respond (List.filter (targeted targets) (queued s2)) s2) as (n & -> & _).
    split; [|done]. simpl. apply filter_sorted. }
  set (s4 := foldl unload_error s3 _).
  assert (keeps s3 s4) as K4.
  { subst s4. destruct (unload_errors Respond (List.filter (targeted targets) (penalized s3)) s3) as (n & -> & _).
    by apply keeps_same. }
  eapply keeps_trans; [|apply keeps_drain]. eapply keeps_trans; [exact K2|].
  eapply keeps_trans; [exact K3|]. eapply keeps_trans; [exact K4|]. by apply keeps_same.
Qed.

Lemma keeps_OnCancel req s : keeps s (OnCancel cfg env req s).
Proof.
  unfold OnCancel. set (removed := _ || _ || _). clearbody removed.
  set (s1 := match queued s with [] => s | _ => _ end).
  assert (keeps s s1) as K1.
  { subst s1. destruct (queued s) as [|q qs] eqn:Hq; [by apply keeps_same|]. rewrite <- Hq.
    split; [|done]. simpl. apply filter_sorted. }
  eapply keeps_trans; [exact K1|]. unfold broadcastQueuePositions.
  repeat (case_match; simpl; try by apply keeps_same).
Qed.

(** An arrival takes the next number, or leaves everything as it is. *)
Lemma OnRequest_order req s :
  (sorted (queued s) -> sorted (queued (OnRequest cfg env req s))) /\
  (nextArrivalSeq (OnRequest cfg env req s) = nextArrivalSeq s + 1 \/
   (held arrivalSeq (OnRequest cfg env req s) = held arrivalSeq s /\
    nextArrivalSeq (OnRequest cfg env req s) = nextArrivalSeq s)).
Proof.
  assert (forall s', queued s' = queued s -> penalized s' = penalized s -> active s' = active s ->
    nextArrivalSeq s' = nextArrivalSeq s ->
    (sorted (queued s) -> sorted (queued s')) /\
    (nextArrivalSeq s' = nextArrivalSeq s + 1 \/
     (held arrivalSeq s' = held arrivalSeq s /\ nextArrivalSeq s' = nextArrivalSeq s))) as Hsame.
  { intros s' Hq Hp Ha Hn. split; [by rewrite Hq|right]. split; [|done].
    unfold held, parked. by rewrite Hq, Hp, Ha. }
  assert (forall err, let s' := rejectAdmission env req err s in
    (sorted (queued s) -> sorted (queued s')) /\
    (nextArrivalSeq s' = nextArrivalSeq s + 1 \/
     (held arrivalSeq s' = held arrivalSeq s /\ nextArrivalSeq s' = nextArrivalSeq s))) as Hrej.
  { intros err. unfold rejectAdmission.
    destruct (sendAdmission_log env req (Some err) s) as [-> | ->]; by apply Hsame. }
  destruct (ModelState env s (Model req)) as [state|] eqn:Hst; [|unfold OnRequest; rewrite Hst; apply Hrej].
  rewrite (OnRequest_decide cfg env req s state Hst). destruct (_ && _ && _); [apply Hrej|]. unfold admit_.
  destruct (sendAdmission_cases env req None s) as [[-> _]|(_ & l & -> & _)]; [by apply Hsame|].
  simpl. set (s2 := set_nextArrivalSeq _ _). set (req2 := set_seq req _).
  assert (forall s', keeps s2 s' -> (sorted (queued s) -> sorted (queued s')) /\
    (nextArrivalSeq s' = nextArrivalSeq s + 1 \/
     (held arrivalSeq s' = held arrivalSeq s /\ nextArrivalSeq s' = nextArrivalSeq s))) as Hkeep.
  { intros s' [H1 H2]. split; [exact H1|by left]. }
  destruct (penaltyHeld cfg env s2 req2).
  { destruct (markParked_stamps env req2 ParkPenalized s2) as [_ Hq].
    destruct (markParked env req2 ParkPenalized s2) as [r s3]. apply Hkeep.
    eapply keeps_trans; [by apply keeps_quiet|by apply keeps_same]. }
  destruct (blockedByRankBarrier s2 req2).
  { destruct (markParked_stamps env req2 ParkRank s2) as [_ Hq].
    destruct (markParked env req2 ParkRank s2) as [r s3]. apply Hkeep.
    eapply keeps_trans; [by apply keeps_quiet|apply keeps_enqueue]. }
  pose proof (outcome_frame _ _ _ _ _ (decide_outcome cfg env s2 req2 state)) as (Eq & En & _).
  destruct (decide_on cfg env s2 req2 state) as [s3 [r|]]; simpl in Eq, En.
  - apply Hkeep. eapply keeps_trans; [by apply (keeps_same s2 s3)|apply keeps_enqueue].
  - repeat case_match; apply Hkeep; by apply keeps_same.
Qed.

End env.

(** ** The invariant *)
Record queue_inv (s : FIFO) : Prop := {
  qi_sorted : sorted (queued s);
  qi_seqs : NoDup (held arrivalSeq s);
  qi_bound : Forall (fun n => n <= nextArrivalSeq s) (held arrivalSeq s);
}.

Lemma queue_inv_perm s s' dropped :
  queue_inv s -> keeps s s' -> dropped ++ held arrivalSeq s' ≡ₚ held arrivalSeq s -> queue_inv s'.
Proof.
  intros [H1 H2 H3] [K1 K2] P. rewrite <- P in H2, H3. split; [auto| |].
  - by apply NoDup_app in H2 as (_ & _ & H2).
  - rewrite K2. by apply Forall_app in H3 as [_ H3].
Qed.

Lemma queue_inv_step env ev s : queue_inv s -> queue_inv (step cfg env ev s).
Proof.
  intros Hi. destruct ev as [req|req|ev|ev| |targets timeout|err| |session]; cbn [step].
  - destruct (OnRequest_order env req s) as [Hs Hn]. pose proof Hi as [H1 H2 H3].
    assert (held arrivalSeq (OnRequest cfg env req s) = held arrivalSeq s \/
            exists a, a ++ held arrivalSeq (OnRequest cfg env req s) ≡ₚ [nextArrivalSeq s + 1] ++ held arrivalSeq s)
      as [E|[a P]].
    { destruct (sendAdmission_cases env req None s) as [[_ Hg]|[Hg _]].
      - left. by rewrite (OnRequest_gone cfg env req s Hg).
      - destruct (OnRequest_conserves cfg arrivalSeq env req s Hg) as [(n & _ & P)|[[E _]|[err E]]].
        + right. by eexists.
        + left. by rewrite E.
        + left. by rewrite E. }
    + split; [auto|by rewrite E|]. rewrite E. assert (nextArrivalSeq s <= nextArrivalSeq (OnRequest cfg env req s)) as Hle
        by (destruct Hn as [Hn|[_ Hn]]; rewrite Hn; lia).
      apply Forall_forall. intros n Hin. rewrite Forall_forall in H3. specialize (H3 n Hin). simpl in H3. lia.
    + destruct Hn as [Hn|[E En]]; [|split; [auto|by rewrite E|by rewrite E, En]].
      assert (NoDup ([nextArrivalSeq s + 1] ++ held arrivalSeq s)) as Hnd.
      { simpl. constructor; [|done]. intros Hin. rewrite Forall_forall in H3. specialize (H3 _ Hin). simpl in H3. lia. }
      rewrite <- P in Hnd. apply NoDup_app in Hnd as (_ & _ & Hnd).
      split; [auto|done|]. rewrite Hn. apply Forall_forall. intros n Hin.
      assert (n ∈ [nextArrivalSeq s + 1] ++ held arrivalSeq s) as Hin' by (rewrite <- P; set_solver).
      simpl in Hin'. apply elem_of_cons in Hin' as [->|Hin']; [lia|].
      rewrite Forall_forall in H3. specialize (H3 _ Hin'). simpl in H3. lia.
  - destruct (OnCancel_drops cfg arrivalSeq env req s) as (ws & l & _ & _ & P & _).
    by eapply queue_inv_perm; [|apply keeps_OnCancel|].
  - destruct (OnSwapDone_conserves cfg arrivalSeq env ev s) as (n & _ & P).
    by eapply queue_inv_perm; [|apply keeps_OnSwapDone|].
  - destruct (OnServeDone_conserves cfg arrivalSeq env ev s) as (n & _ & P).
    by eapply queue_inv_perm; [|apply keeps_OnServeDone|].
  - destruct (OnTick_conserves cfg arrivalSeq env s) as (n & _ & P).
    by eapply queue_inv_perm; [|apply keeps_OnTick|].
  - destruct (OnUnload_conserves cfg arrivalSeq env targets timeout s) as (n & _ & P).
    by eapply queue_inv_perm; [|apply keeps_OnUnload|].
  - destruct (OnShutdown_answers arrivalSeq err s) as (l & -> & _). by destruct Hi.
  - by destruct Hi.
  - by destruct Hi.
Qed.

Lemma queue_inv_reachable s : reachable cfg s -> queue_inv s.
Proof.
  induction 1 as [|env ev s _ IH]; [|by apply queue_inv_step].
  split; unfold held, parked, waiting; simpl; rewrite ?map_to_list_empty; constructor.
Qed.

Lemma sorted_strict qs :
  sorted qs -> NoDup (map arrivalSeq qs) -> StronglySorted (fun a b => goes_before cfg a b = true) qs.
Proof.
  unfold sorted. induction 1 as [|q qs Hs IH Hq]; simpl; [constructor|].
  intros [Hn Hnd]%NoDup_cons. constructor; [auto|]. apply Forall_forall. intros r Hr.
  rewrite Forall_forall in Hq. specialize (Hq r Hr). rewrite in_order_spec in Hq.
  assert (arrivalSeq q <> arrivalSeq r) by (intros E; apply Hn; rewrite E; apply elem_of_map; eauto).
  apply goes_before_spec. lia.
Qed.

(** *** The rank barrier, for an arrival *)

(** Nobody is granted, refused after waiting, or given a swap. *)
Definition calm (e : Effect) : Prop :=
  match e with EGrantServe _ _ _ | EGrantError _ _ | EStartSwap _ _ => False | _ => True end.

Lemma silent_calm l : Forall silent l -> Forall calm l.
Proof. intros Hl. eapply Forall_impl; [exact Hl|]. by intros []. Qed.

Lemma blocked_arrival env req s :
  (exists q, q ∈ queued s /\ Respond q <> Respond req /\ rank req < rank q) ->
  exists l, log (OnRequest cfg env req s) = log s ++ l /\ Forall calm l /\
    active (OnRequest cfg env req s) = active s /\ inFlight (OnRequest cfg env req s) = inFlight s.
Proof.
  intros (q & Hq & Hid & Hrank).
  assert (forall err, let s' := rejectAdmission env req err s in
    exists l, log s' = log s ++ l /\ Forall calm l /\ active s' = active s /\ inFlight s' = inFlight s) as Hrej.
  { intros err. unfold rejectAdmission. destruct (sendAdmission_log env req (Some err) s) as [-> | ->].
    - exists []. rewrite app_nil_r. by repeat constructor.
    - exists [EAdmit req (Some err)]. by repeat constructor. }
  destruct (ModelState env s (Model req)) as [state|] eqn:Hst; [|unfold OnRequest; rewrite Hst; apply Hrej].
  rewrite (OnRequest_decide cfg env req s state Hst). destruct (_ && _ && _); [apply Hrej|]. unfold admit_.
  destruct (sendAdmission_cases env req None s) as [[-> _]|(_ & l & -> & Hl)].
  { exists []. rewrite app_nil_r. by repeat constructor. }
  simpl. set (s2 := set_nextArrivalSeq _ _). set (req2 := set_seq req _).
  assert (Forall calm l) as Hcalm by (rewrite Hl; destruct (Admit req); by repeat constructor).
  destruct (penaltyHeld cfg env s2 req2).
  { destruct (markParked_stamps env req2 ParkPenalized s2) as [_ (k & Hs3 & Hk)].
    destruct (markParked env req2 ParkPenalized s2) as [r s3]. simpl in Hs3. subst s3.
    exists (l ++ k). simpl. rewrite app_assoc. split_and!; try done.
    apply Forall_app. split; [done|by apply silent_calm]. }
  assert (blockedByRankBarrier s2 req2 = true) as ->.
  { apply existsb_exists. exists q. split; [by apply list_elem_of_In|].
    apply andb_true_iff. split; [apply negb_true_iff; by apply Nat.eqb_neq|].
    apply Z.ltb_lt. exact Hrank. }
  destruct (markParked_stamps env req2 ParkRank s2) as [_ (k & Hs3 & Hk)].
  destruct (markParked env req2 ParkRank s2) as [r s3]. simpl in Hs3.
  destruct (enqueue_fields cfg env r s3) as (Ea & _ & _ & j & Ej & Hj).
  exists (l ++ k ++ j). rewrite Ej, Ea, Hs3. simpl. rewrite <- !app_assoc. split_and!; try done.
  - apply Forall_app; split; [done|]. apply Forall_app; split; by apply silent_calm.
  - unfold enqueue, broadcastQueuePositions. destruct (queued (set_queued _ _)); reflexivity.
Qed.

(** C8. In every reachable state the queue is strictly ordered: higher tier
    rank first, then higher model priority, then earlier arrival; and no two
    requests the scheduler holds share an arrival number. *)
Theorem queue_ordered (s : FIFO) (Hs : reachable cfg s) :
  StronglySorted (fun a b =>
    rank b < rank a \/ (rank b = rank a /\
      (priority cfg b < priority cfg a \/ (priority cfg b = priority cfg a /\ arrivalSeq a < arrivalSeq b))))
    (queued s) /\
  NoDup (held arrivalSeq s).
Proof.
  destruct (queue_inv_reachable s Hs) as [H1 H2 _]. split; [|done].
  eapply StronglySorted_impl; [|apply sorted_strict; [exact H1|]].
  - intros a b. apply goes_before_spec.
  - by apply NoDup_app in H2 as (? & _).
Qed.

(** C9. The rank barrier.  An arrival that a queued request outranks is not
    granted, starts no swap and joins none: it waits.  And when the queue of a
    reachable state is drained, a request that leaves it is outranked by none
    that stays. *)
Theorem rank_barrier (env : Env) (s : FIFO) (Hs : reachable cfg s) :
  (forall req q, q ∈ queued s -> Respond q <> Respond req -> rank req < rank q ->
     exists l, log (OnRequest cfg env req s) = log s ++ l /\ Forall calm l /\
       active (OnRequest cfg env req s) = active s /\ inFlight (OnRequest cfg env req s) = inFlight s) /\
  (forall q r, q ∈ queued s ->
     (forall x, x ∈ queued (drainQueue cfg env s) -> arrivalSeq x <> arrivalSeq q) ->
     r ∈ queued (drainQueue cfg env s) -> rank r <= rank q).
Proof.
  split; [intros req q H1 H2 H3; apply blocked_arrival; by exists q|].
  intros q r Hq Hgone Hr. destruct (queue_inv_reachable s Hs) as [Hsort _ _].
  rewrite drainQueue_queue in *. destruct (queued s) as [|q0 qs] eqn:Eq; [by apply elem_of_nil in Hr|].
  rewrite <- Eq in *. apply (drain_fold_barrier env (queued s) (mkDrain s [] None) q); try done.
  - by intros ? ?%elem_of_nil.
  - by intros ? ?%elem_of_nil.
  - intros x Hx Hst. apply (Hgone x Hx). by apply (unstamped (f := arrivalSeq)).
Qed.

End order.

Lemma queue_ordered_witness :
  map Respond (queued busy) = [4; 5; 3]%nat /\
  NoDup (held arrivalSeq busy).
Proof.
  split; [vm_compute; reflexivity|].
  exact (proj2 (queue_ordered (planner := ex_planner) ex_cfg busy (run_reachable busy_events))).
Defined.

(** The [chat] request at the head of [busy]. *)
Definition busy_head : HandlerReq := nth 0 (queued busy) (ex_req 0 "" "" 0 normal).

(** [chat] became ready instead: its request leaves, and nothing that stays
    outranks it; an arriving background request only waits. *)
Definition freed : FIFO := drainQueue (planner := ex_planner) ex_cfg (ex_env ["chat"%string] 105) busy.

Lemma rank_barrier_witness :
  map Respond (queued freed) = [5; 3]%nat /\
  (forall r, r ∈ queued freed -> rank r <= rank busy_head) /\
  exists l, log (OnRequest (planner := ex_planner) ex_cfg (ex_env ["chat"%string] 105)
                   (ex_req 6 "coder" "s6" 10 background) busy) = log busy ++ l /\ Forall calm l.
Proof.
  destruct (rank_barrier (planner := ex_planner) ex_cfg (ex_env ["chat"%string] 105) busy
              (run_reachable busy_events)) as [Harr Hdrain].
  assert (busy_head ∈ queued busy) as Hin by (apply (list_elem_of_lookup_2 _ 0%nat); vm_compute; reflexivity).
  split; [vm_compute; reflexivity|]. split.
  - intros r. apply (Hdrain busy_head r Hin).
    assert (Forall (fun x => arrivalSeq x <> arrivalSeq busy_head) (queued freed)) as Hf
      by (apply (bool_decide_unpack _); vm_compute; exact I).
    intros x Hx. rewrite Forall_forall in Hf. exact (Hf x Hx).
  - destruct (Harr (ex_req 6 "coder" "s6" 10 background) busy_head Hin) as (l & Hl & Hc & _).
    + vm_compute. intros E. discriminate E.
    + vm_compute. reflexivity.
    + exists l. split; [exact Hl|exact Hc].
Defined.
End FifoOrder.
