(* ===== verification/FifoSafety.v ===== *)
(** Swaps are safe: the active swaps are pairwise compatible, none evicts the
    target of another, and no model that is being evicted has a request in
    flight. *)

From S2P Require Import Prelude Tier Swappers SchedTypes KvWarm Grace Fifo FifoBase FifoDecide FifoConserve SchedExample.

Module FifoSafety.
Import Tier Swapper Sched KvWarm Grace Fifo FifoBase FifoDecide FifoConserve.

(** [m] is on the way out. *)
Definition evicting (a : gmap string activeSwap) (m : string) : Prop :=
  exists id sw, a !! id = Some sw /\ m ∈ sw_evict sw.

Record safe (s : FIFO) : Prop := {
  safe_target : forall id sw, active s !! id = Some sw -> ~ evicting (active s) id;
  safe_apart : forall id1 sw1 id2 sw2 m,
    active s !! id1 = Some sw1 -> active s !! id2 = Some sw2 ->
    m ∈ sw_evict sw1 -> m ∈ sw_evict sw2 -> id1 = id2;
  safe_idle : forall m, evicting (active s) m -> get0 (inFlight s) m <= 0;
}.

(** Fewer swaps, same evictions, fewer requests in flight. *)
Definition eases (s s' : FIFO) : Prop :=
  (forall id sw', active s' !! id = Some sw' ->
     exists sw, active s !! id = Some sw /\ sw_evict sw' = sw_evict sw) /\
  (forall m, evicting (active s) m -> get0 (inFlight s') m <= get0 (inFlight s) m).

Lemma eases_evicting s s' m : eases s s' -> evicting (active s') m -> evicting (active s) m.
Proof.
  intros [Ha _] (id & sw' & Hid & Hm). destruct (Ha id sw' Hid) as (sw & Hsw & E).
  exists id, sw. by rewrite <- E.
Qed.

Lemma safe_eases s s' : safe s -> eases s s' -> safe s'.
Proof.
  intros [H1 H2 H3] He. pose proof He as [Ha Hf]. split.
  - intros id sw' Hid Hev. destruct (Ha id sw' Hid) as (sw & Hsw & _).
    by apply (H1 id sw Hsw), (eases_evicting s s').
  - intros id1 sw1' id2 sw2' m Hi1 Hi2 Hm1 Hm2.
    destruct (Ha _ _ Hi1) as (sw1 & Hs1 & E1), (Ha _ _ Hi2) as (sw2 & Hs2 & E2).
    apply (H2 id1 sw1 id2 sw2 m); congruence.
  - intros m Hev. apply (eases_evicting s s') in Hev; [|done].
    specialize (Hf m Hev). specialize (H3 m Hev). lia.
Qed.

Lemma eases_same s s' : active s' = active s -> inFlight s' = inFlight s -> eases s s'.
Proof. intros Ha Hf. split; [intros id sw'; rewrite Ha; by exists sw'|]. intros m _. by rewrite Hf. Qed.

Lemma safe_same s s' : active s' = active s -> inFlight s' = inFlight s -> safe s -> safe s'.
Proof. intros Ha Hf Hs. by apply (safe_eases s s'), eases_same. Qed.

Lemma safe_quiet s s' : quiet s s' -> safe s -> safe s'.
Proof. intros (l & -> & _). by apply safe_same. Qed.

(** *** Guards *)
Lemma containsString_spec xs x : containsString xs x = true <-> x ∈ xs.
Proof.
  unfold containsString. rewrite existsb_exists. setoid_rewrite <- list_elem_of_In. split.
  - intros (y & Hy & ->%String.eqb_eq). done.
  - intros Hx. exists x. by rewrite String.eqb_refl.
Qed.

Lemma slicesOverlap_spec xs ys : slicesOverlap xs ys = true <-> exists x, x ∈ xs /\ x ∈ ys.
Proof.
  unfold slicesOverlap. rewrite existsb_exists. setoid_rewrite containsString_spec.
  by setoid_rewrite <- list_elem_of_In.
Qed.

Lemma collides_false target evict a id sw :
  collidesWith target evict a = false -> a !! id = Some sw -> id <> target ->
  id ∉ evict /\ target ∉ sw_evict sw /\ (forall m, m ∈ evict -> m ∉ sw_evict sw).
Proof.
  intros Hc Hid Hne. unfold collidesWith in Hc. rewrite <- not_true_iff_false, existsb_exists in Hc.
  assert (forall b, b = true -> (b = true -> containsString evict id || containsString (sw_evict sw) target ||
     slicesOverlap evict (sw_evict sw) = true) -> False) as Hno.
  { intros b Hb Himp. apply Hc. exists (id, sw). split; [by apply list_elem_of_In, elem_of_map_to_list|].
    simpl. apply andb_true_iff. split; [|by apply Himp]. by apply negb_true_iff, String.eqb_neq. }
  split_and!.
  - intros Hin. apply (Hno true eq_refl). intros _. apply orb_true_iff. left. apply orb_true_iff. left.
    by apply containsString_spec.
  - intros Hin. apply (Hno true eq_refl). intros _. apply orb_true_iff. left. apply orb_true_iff. right.
    by apply containsString_spec.
  - intros m Hm Hin. apply (Hno true eq_refl). intros _. apply orb_true_iff. right.
    apply slicesOverlap_spec. by exists m.
Qed.

Lemma conflicts_false evict f m : conflictsWithInFlight evict f = false -> m ∈ evict -> get0 f m <= 0.
Proof.
  unfold conflictsWithInFlight. intros Hc Hm. rewrite <- not_true_iff_false, existsb_exists in Hc.
  destruct (Z.ltb_spec 0 (get0 f m)) as [Hlt|]; [|done]. exfalso. apply Hc. exists m.
  split; [by apply list_elem_of_In|by apply Z.ltb_lt].
Qed.

Section safety.
Context {planner : Swapper}.
Variable cfg : Settings.
Variable env : Env.

(** *** Grants *)
Lemma grant_inFlight req m s :
  inFlight (grantHandler cfg env req m s) = inFlight s \/
  inFlight (grantHandler cfg env req m s) = <[m := get0 (inFlight s) m + 1]> (inFlight s).
Proof.
  destruct (grantHandler_spec cfg env req m s) as (req' & l & ok & _ & _ & _ & ->).
  destruct (ok && _); [right|by left]. set (s1 := set_log s _).
  destruct (kvWarmOnGrant_residents cfg (bump req' m s1) req' m) as [x ->].
  unfold track, bump. simpl. by repeat case_match.
Qed.

Lemma safe_grant req m s :
  ~ evicting (active s) m -> safe s -> safe (grantHandler cfg env req m s).
Proof.
  intros Hm [H1 H2 H3]. destruct (grantHandler_frame cfg env req m s) as [Ha _ _ _ _ _ _].
  split; rewrite ?Ha; [done|done|]. intros m' Hev.
  destruct (grant_inFlight req m s) as [-> | ->]; [by apply H3|].
  rewrite get0_insert_ne by (by intros ->). by apply H3.
Qed.

Lemma safe_join req sw s : active s !! Model req = Some sw -> safe s -> safe (joinSwap req sw s).
Proof.
  intros Hact Hs. apply (safe_eases s); [done|]. split; [|done].
  intros id sw' Hid. simpl in Hid. apply lookup_insert_Some in Hid as [[<- <-]|[_ Hid]]; eauto.
Qed.

Lemma safe_start req evict running s :
  active s !! Model req = None -> Model req ∉ evict ->
  collidesWith (Model req) evict (active s) = false ->
  conflictsWithInFlight evict (inFlight s) = false ->
  safe s -> safe (startSwap req evict running s).
Proof.
  intros Hact Hself Hcol Hbusy [H1 H2 H3].
  set (t := Model req) in *. set (sw0 := mkSwap t evict [req]).
  assert (active (startSwap req evict running s) = <[t := sw0]> (active s)) as Ea by done.
  assert (inFlight (startSwap req evict running s) = inFlight s) as Ef by done.
  assert (forall id sw, active s !! id = Some sw -> id <> t) as Hnew by (intros id sw Hid ->; congruence).
  assert (forall m, evicting (<[t := sw0]> (active s)) m -> m ∈ evict \/ evicting (active s) m) as Hev.
  { intros m (id & sw & Hid & Hm). apply lookup_insert_Some in Hid as [[_ <-]|[_ Hid]]; [by left|].
    right. by exists id, sw. }
  split; rewrite ?Ea, ?Ef.
  - intros id sw Hid [Hin|Hin]%Hev; apply lookup_insert_Some in Hid as [[<- <-]|[_ Hid]].
    + done.
    + destruct (collides_false _ _ _ _ _ Hcol Hid (Hnew _ _ Hid)) as (? & _ & _). done.
    + destruct Hin as (id' & sw' & Hid' & Hm).
      by destruct (collides_false _ _ _ _ _ Hcol Hid' (Hnew _ _ Hid')) as (_ & ? & _).
    + by apply (H1 id sw).
  - intros id1 sw1 id2 sw2 m Hi1 Hi2 Hm1 Hm2.
    apply lookup_insert_Some in Hi1 as [[<- <-]|[_ Hi1]];
      apply lookup_insert_Some in Hi2 as [[<- <-]|[_ Hi2]]; [done| | |by eapply (H2 id1 sw1 id2 sw2)].
    + by destruct (collides_false _ _ _ _ _ Hcol Hi2 (Hnew _ _ Hi2)) as (_ & _ & Hd); destruct (Hd m).
    + by destruct (collides_false _ _ _ _ _ Hcol Hi1 (Hnew _ _ Hi1)) as (_ & _ & Hd); destruct (Hd m).
  - intros m [Hm|Hm]%Hev; [by eapply conflicts_false|by apply H3].
Qed.

Lemma not_evicting m evict a :
  a !! m = None -> collidesWith m evict a = false -> ~ evicting a m.
Proof.
  intros Hm Hcol (id & sw & Hid & Hin).
  destruct (collides_false _ _ _ _ _ Hcol Hid) as (_ & ? & _); [|done]. intros ->. congruence.
Qed.

Lemma safe_outcome s req state s' stuck : outcome cfg env s req state s' stuck -> safe s -> safe s'.
Proof.
  intros Hout Hs.
  destruct Hout as [req' s1 _ Hq|sw req' s1 Hact Hr (l & -> & _)|Hact _ _ _ Hcol _ _
                   |req' s1 s2 Hact _ Hcol Hbusy Hdef Hr (l & -> & _)].
  - by apply (safe_quiet s).
  - apply safe_join; [|by apply (safe_same s)]. by rewrite (unstamped (f := Model) _ _ Hr).
  - apply safe_grant; [by eapply not_evicting|done].
  - assert (active s1 = active s /\ inFlight s1 = inFlight s) as [Ea Ef].
    { destruct (deferredByGrace_state cfg env req (plan_for env s req) s) as [E|E];
        rewrite Hdef in E; simpl in E; by subst s1. }
    apply safe_start; simpl; rewrite ?Ea, ?Ef, ?(unstamped (f := Model) _ _ Hr); try done.
    + apply eviction_not_target.
    + by apply (safe_same s).
Qed.

Lemma safe_enqueue req s : safe s -> safe (enqueue cfg env req s).
Proof.
  destruct (enqueue_fields cfg env req s) as (Ha & _). apply safe_same; [done|].
  unfold enqueue, broadcastQueuePositions. simpl. by case_match.
Qed.

Lemma safe_drain_step d req : safe (d_fifo d) -> safe (d_fifo (drain_step cfg env d req)).
Proof.
  intros Hs. rewrite drain_step_decide. destruct (barred d req).
  { destruct (markParked_stamps env req ParkRank (d_fifo d)) as [_ Hq].
    destruct (markParked env req ParkRank (d_fifo d)) as [req' s']. by apply (safe_quiet (d_fifo d)). }
  destruct (ModelState env (d_fifo d) (Model req)) as [state|]; [|by apply (safe_same (d_fifo d))].
  pose proof (safe_outcome _ _ _ _ _ (decide_outcome cfg env (d_fifo d) req state) Hs) as Ho.
  by destruct (decide_on cfg env (d_fifo d) req state) as [s' [r|]].
Qed.

Lemma safe_drain s : safe s -> safe (drainQueue cfg env s).
Proof.
  intros Hs. unfold drainQueue, broadcastQueuePositions. destruct (queued s) as [|q qs]; [done|].
  set (d := foldl _ _ _). assert (safe (d_fifo d)) as Hd.
  { subst d. generalize (q :: qs). intros l.
    assert (safe (d_fifo (mkDrain s [] None))) as H0 by done. revert H0. generalize (mkDrain s [] None).
    induction l as [|x l IH]; intros d Hd; simpl; [done|]. by apply IH, safe_drain_step. }
  simpl. case_match; by apply (safe_same (d_fifo d)).
Qed.

(** A finished swap: its waiters are granted while no swap evicts the model. *)
Lemma safe_swap_waiters ev ws s :
  ~ evicting (active s) (sd_model ev) -> safe s -> safe (foldl (swap_waiter cfg env ev) s ws).
Proof.
  revert s. induction ws as [|w ws IH]; intros s Hev Hs; simpl; [done|].
  assert (active (swap_waiter cfg env ev s w) = active s /\ safe (swap_waiter cfg env ev s w)) as [Ea Hs'].
  { unfold swap_waiter. destruct (sd_err ev); [split; [done|by apply (safe_same s)]|].
    destruct (atCapacity cfg s w).
    { destruct (markParked_stamps env w ParkCap s) as [_ Hq]. pose proof (safe_quiet _ _ Hq Hs) as Hs1.
      destruct (markParked env w ParkCap s) as [w' s']. simpl in Hq, Hs1. destruct Hq as (l & -> & _).
      split; [by rewrite (proj1 (enqueue_fields cfg env w' _))|by apply safe_enqueue]. }
    destruct (kvAdmit cfg s (Model w) (EstimatedTokens w)); simpl.
    { split; [by destruct (grantHandler_frame cfg env w (sd_model ev) s)|by apply safe_grant]. }
    pose proof (quiet_trans _ _ _ (markKVParked_quiet env w s)
      (proj2 (markParked_stamps env w ParkKV (markKVParked env w s)))) as Hq.
    pose proof (safe_quiet _ _ Hq Hs) as Hs1.
    destruct (markParked env w ParkKV (markKVParked env w s)) as [w' s']. simpl in Hq, Hs1.
    destruct Hq as (l & -> & _).
    split; [by rewrite (proj1 (enqueue_fields cfg env w' _))|by apply safe_enqueue]. }
  apply IH; [by rewrite Ea|done].
Qed.

Lemma safe_delete s id : safe s -> safe (set_active s (delete id (active s))).
Proof.
  intros Hs. apply (safe_eases s); [done|]. split; [|done].
  intros id' sw'. cbn. intros [_ Hid]%lookup_delete_Some. eauto.
Qed.

Lemma safe_OnSwapDone ev s : safe s -> safe (OnSwapDone cfg env ev s).
Proof.
  intros Hs. unfold OnSwapDone. destruct (active s !! sd_model ev) as [sw|] eqn:Hact; [|done].
  apply safe_drain. set (s0 := set_active s _).
  assert (safe s0) as Hs0 by by apply safe_delete.
  assert (~ evicting (active s0) (sd_model ev)) as Hev.
  { intros (id & sw' & Hid & Hm). simpl in Hid. apply lookup_delete_Some in Hid as [_ Hid].
    apply (safe_target s Hs _ _ Hact). by exists id, sw'. }
  apply safe_swap_waiters; [by case_match|]. case_match; [done|by apply (safe_same s0)].
Qed.

(** Lowering one model's count. *)
Lemma safe_lower s s' m z :
  active s' = active s -> (inFlight s' = inFlight s \/ (inFlight s' = <[m := z]> (inFlight s) /\ z <= get0 (inFlight s) m) \/
    (inFlight s' = delete m (inFlight s) /\ get0 (inFlight s) m <= 0)) ->
  safe s -> safe s'.
Proof.
  intros Ha Hf [H1 H2 H3]. split; rewrite ?Ha; [done|done|]. intros m' Hev.
  destruct Hf as [-> |[[-> Hle]|[-> Hle]]]; [by apply H3| |].
  - destruct (decide (m = m')) as [->|]; [rewrite get0_insert_eq; specialize (H3 _ Hev); lia|].
    rewrite get0_insert_ne by done. by apply H3.
  - destruct (decide (m = m')) as [->|]; [rewrite get0_delete_eq; lia|].
    rewrite get0_delete_ne by done. by apply H3.
Qed.

Lemma safe_OnServeDone ev s : safe s -> safe (OnServeDone cfg env ev s).
Proof.
  intros Hs. unfold OnServeDone. destruct (sv_statusRead ev); [done|].
  set (m := sv_model ev). destruct (sv_capReleaseOnly ev).
  { apply safe_drain. case_match; [|by apply (safe_same s)].
    apply (safe_lower s _ m (get0 (inFlight s) m - 1)); [done|right; left; split; [done|lia]|done]. }
  cbv zeta. set (s1 := if sv_capReleased ev then s else _).
  assert (safe s1) as H1.
  { subst s1. case_match; [done|].
    apply (safe_lower s _ m (get0 (inFlight s) m - 1)); [done|right; left; split; [done|lia]|done]. }
  set (s2 := dropGranted s1 m (sv_holder ev)).
  assert (safe s2) as H2 by (subst s2; unfold dropGranted; repeat case_match; try done; by apply (safe_same s1)).
  destruct (get0 (inFlight s2) m <=? 0) eqn:Hidle.
  - set (s3 := if negb (sv_looping ev) then _ else _).
    assert (safe s3) as H3.
    { subst s3. apply (safe_lower s2 _ m 0); [by repeat case_match| |done]. right. right.
      split; [by repeat case_match|lia]. }
    destruct (releaseKV s3 _ _ _) as [rel s4] eqn:Hrel.
    assert (safe s4) as H4.
    { replace s4 with (releaseKV s3 m (sv_tokens ev) (sv_ctx ev)).2 by (by rewrite Hrel).
      unfold releaseKV. repeat (case_match; simpl); by apply (safe_same s3). }
    destruct (kvWarmOnDone_residents cfg env s4 ev) as [x ->]. simpl. apply safe_drain.
    by apply (safe_same s4).
  - destruct (releaseKV s2 _ _ _) as [rel s4] eqn:Hrel.
    assert (safe s4) as H4.
    { replace s4 with (releaseKV s2 m (sv_tokens ev) (sv_ctx ev)).2 by (by rewrite Hrel).
      unfold releaseKV. repeat (case_match; simpl); by apply (safe_same s2). }
    destruct (kvWarmOnDone_residents cfg env s4 ev) as [x ->].
    case_match; [apply safe_drain|]; by apply (safe_same s4).
Qed.

Lemma safe_release s : safe s -> safe (releasePenalized cfg env s).
Proof.
  intros Hs. unfold releasePenalized. destruct (penalized s) as [|r hs]; [done|].
  generalize (contended s) as c. intros c.
  assert (forall hs kept s, safe s -> safe (foldl (release_step cfg env c) (kept, s) hs).2) as Hf.
  { induction hs0 as [|x hs0 IH]; intros kept s' Hs'; simpl; [done|].
    destruct (penaltyHeldUnder cfg env s' x c); apply IH; [done|by apply safe_enqueue]. }
  specialize (Hf (r :: hs) [] s Hs). destruct (foldl _ _ _) as [kept' s']. by apply (safe_same s').
Qed.

Lemma safe_OnTick s : safe s -> safe (OnTick cfg env s).
Proof.
  intros Hs. unfold OnTick. apply safe_release in Hs. set (s1 := releasePenalized cfg env s) in *.
  set (s2 := match queued s1 with [] => _ | _ => _ end).
  assert (safe s2) as H2.
  { subst s2. unfold expireForcedGrace, consumeGraceExpiredForced. simpl.
    repeat (case_match; simplify_eq; try by apply (safe_same s1)). }
  apply safe_drain in H2. by apply (safe_same (drainQueue cfg env s2)).
Qed.

Lemma safe_release_target s id : safe s -> safe (release_target s id).
Proof.
  intros Hs. unfold release_target. destruct (active s !! id) as [sw|]; [|done].
  destruct (unload_errors Respond (waiters sw) s) as (n & -> & _). simpl.
  by apply (safe_same (set_active s (delete id (active s)))), safe_delete.
Qed.

Lemma safe_OnUnload targets timeout s : safe s -> safe (OnUnload cfg env targets timeout s).
Proof.
  intros Hs. unfold OnUnload. set (s1 := kvWarmForget s targets).
  assert (safe (foldl release_target s1 (remove_dups targets))) as H2.
  { assert (safe s1) as H1 by by apply (safe_same s). revert H1. generalize s1.
    induction (remove_dups targets) as [|id ids IH]; intros s0 H0; simpl; [done|].
    by apply IH, safe_release_target. }
  set (s2 := foldl release_target s1 _) in *. set (s3 := match queued s2 with [] => s2 | _ => _ end).
  assert (safe s3) as H3.
  { subst s3. destruct (queued s2) as [|q qs]; [done|].
    destruct (unload_errors Respond (List.filter (targeted targets) (q :: qs)) s2) as (n & -> & _).
    by apply (safe_same s2). }
  destruct (unload_errors Respond (List.filter (targeted targets) (penalized s3)) s3) as (n & -> & _).
  apply safe_drain. by apply (safe_same s3).
Qed.

Lemma safe_OnCancel req s : safe s -> safe (OnCancel cfg env req s).
Proof.
  intros Hs. unfold OnCancel. set (removed := _ || _ || _). clearbody removed.
  set (s1 := match queued s with [] => s | _ => _ end).
  assert (active s1 = active s /\ inFlight s1 = inFlight s) as [Ea Ef] by (subst s1; by case_match).
  set (s2 := set_active _ _).
  assert (safe s2) as H2.
  { apply (safe_eases s); [done|]. subst s2. split; simpl; [|by rewrite Ef].
    intros id sw'. rewrite lookup_fmap, Ea. destruct (active s !! id) as [sw|]; simpl; [|done].
    intros [= <-]. by exists sw. }
  destruct removed; [|done]. unfold broadcastQueuePositions. case_match; [done|by apply (safe_same s2)].
Qed.

Lemma safe_OnRequest req s : safe s -> safe (OnRequest cfg env req s).
Proof.
  intros Hs. assert (forall err, safe (rejectAdmission env req err s)) as Hrej.
  { intros err. unfold rejectAdmission.
    destruct (sendAdmission_log env req (Some err) s) as [-> | ->]; [done|by apply (safe_same s)]. }
  destruct (ModelState env s (Model req)) as [state|] eqn:Hst; [|unfold OnRequest; by rewrite Hst].
  rewrite (OnRequest_decide cfg env req s state Hst). destruct (_ && _ && _); [done|]. unfold admit_.
  destruct (sendAdmission_cases env req None s) as [[-> _]|(_ & l & -> & _)]; [done|].
  simpl. set (s2 := set_nextArrivalSeq _ _). set (req2 := set_seq req _).
  assert (safe s2) as H2 by by apply (safe_same s).
  destruct (penaltyHeld cfg env s2 req2).
  { pose proof (safe_quiet _ _ (proj2 (markParked_stamps env req2 ParkPenalized s2)) H2) as H3.
    destruct (markParked env req2 ParkPenalized s2) as [r s3]. by apply (safe_same s3). }
  destruct (blockedByRankBarrier s2 req2).
  { pose proof (safe_quiet _ _ (proj2 (markParked_stamps env req2 ParkRank s2)) H2) as H3.
    destruct (markParked env req2 ParkRank s2) as [r s3]. by apply safe_enqueue. }
  pose proof (safe_outcome _ _ _ _ _ (decide_outcome cfg env s2 req2 state) H2) as H3.
  destruct (decide_on cfg env s2 req2 state) as [s3 [r|]]; simpl in H3; [by apply safe_enqueue|].
  repeat case_match; [done|done|by apply (safe_same s3)].
Qed.

Lemma safe_step ev s : safe s -> safe (step cfg env ev s).
Proof.
  intros Hs. destruct ev as [req|req|ev|ev| |targets timeout|err| |session]; cbn [step];
    auto using safe_OnRequest, safe_OnCancel, safe_OnSwapDone, safe_OnServeDone, safe_OnTick, safe_OnUnload.
  - destruct (OnShutdown_answers Respond err s) as (l & -> & _). by apply (safe_same s).
  - by apply (safe_same s).
  - by apply (safe_same s).
Qed.

End safety.

Lemma safe_reachable {planner : Swapper} cfg s : reachable cfg s -> safe s.
Proof.
  induction 1 as [|env ev s _ IH]; [|by apply safe_step]. split; simpl.
  - intros id sw. by rewrite lookup_empty.
  - intros id1 sw1 id2 sw2 m. by rewrite lookup_empty.
  - intros m (id & sw & Hid & _). by rewrite lookup_empty in Hid.
Qed.

(** C1. In every reachable state the swaps in progress are compatible: no
    swap evicts the target of a swap (its own included), no model is evicted
    by two swaps, and a model that is being evicted counts no request in
    flight - no counted request is ever cut off by a swap. *)
Theorem swaps_safe {planner : Swapper} (cfg : Settings) (s : FIFO) (Hs : reachable cfg s)
    (id : string) (sw : activeSwap) (Hid : active s !! id = Some sw) :
  (forall m, m ∈ sw_evict sw -> active s !! m = None /\ get0 (inFlight s) m <= 0) /\
  (forall id2 sw2 m, active s !! id2 = Some sw2 -> m ∈ sw_evict sw -> m ∈ sw_evict sw2 -> id2 = id).
Proof.
  destruct (safe_reachable cfg s Hs) as [H1 H2 H3]. split.
  - intros m Hm. assert (evicting (active s) m) as Hev by by exists id, sw.
    split; [|by apply H3]. destruct (active s !! m) as [sw'|] eqn:Hm'; [|done].
    by destruct (H1 m sw' Hm').
  - intros id2 sw2 m Hid2 Hm Hm2. by eapply (H2 id2 sw2 id sw m).
Qed.

(** [chat] is requested while [coder] is idle past its grace: a swap starts,
    and a [coder] request arriving meanwhile has to wait. *)
Import SchedExample.

Definition swapping : FIFO := run
  [ (ex_env ["coder"%string] 100, Request (ex_req 1 "coder" "s1" 9000 normal));
    (ex_env ["coder"%string] 110, ServeDoneE (ex_done 1 "coder" "s1" 9000 normal));
    (ex_env ["coder"%string] 200, Request (ex_req 2 "chat" "s2" 100 normal));
    (ex_env ["coder"%string] 201, Request (ex_req 3 "coder" "s1" 100 normal)) ].

Lemma swaps_safe_witness :
  active swapping !! "chat"%string <> None /\ map Respond (queued swapping) = [3%nat] /\
  get0 (inFlight swapping) "coder" <= 0.
Proof.
  assert (Hact : (sw_evict <$> active swapping !! "chat"%string) = Some ["coder"%string]) by (vm_compute; reflexivity).
  destruct (active swapping !! "chat"%string) as [sw|] eqn:Hsw; [|discriminate Hact].
  injection Hact as Hev. split; [discriminate|]. split; [vm_compute; reflexivity|].
  destruct (swaps_safe (planner := ex_planner) ex_cfg swapping (run_reachable _) "chat" sw Hsw) as [Hm _].
  apply (Hm "coder"%string). rewrite Hev. by left.
Defined.
End FifoSafety.
