(* ===== verification/FifoGrace.v ===== *)
(** The swap grace: a swap starts inside the grace of a model it evicts only
    for a preempting tier or a manual finish; and what a manual finish does when
    there is nothing to finish. *)

From S2P Require Import Prelude Tier Swappers SchedTypes KvWarm Grace Fifo FifoBase FifoDecide FifoConserve SchedExample.

Module FifoGrace.
Import Tier Swapper Sched KvWarm Grace Fifo FifoBase FifoDecide FifoConserve.

(** The clock stands still during the event. *)
Definition still (env : Env) : Prop := forall l, env_now env l = env_now env [].

Section grace.
Context {planner : Swapper}.
Variable cfg : Settings.
Variable env : Env.
Hypothesis Hstill : still env.

Lemma withinGrace_idle s s' evict :
  idleSince s' = idleSince s -> withinGrace cfg env s' evict = withinGrace cfg env s evict.
Proof.
  intros Hi. unfold withinGrace. induction evict as [|m evict IH]; simpl; [done|]. rewrite IH. f_equal.
  unfold model_in_grace, now. by rewrite Hi, (Hstill (log s')), (Hstill (log s)).
Qed.

(** What a swap that starts has to show. *)
Definition excused (s : FIFO) (tier : Tier) (evict : list string) : Prop :=
  withinGrace cfg env s evict = false \/ Preempts tier = true.

Lemma not_deferred s req evict s1 :
  cooldownForced s = false -> deferredByGrace cfg env s req evict = (false, s1) ->
  excused s (ReqTier req) evict /\ s1 = s.
Proof.
  intros Hforced. unfold deferredByGrace, consumeForced, excused.
  destruct (withinGrace cfg env s evict); simpl.
  - rewrite Hforced. intros [= Hb <-]. split; [|rewrite <- Hforced; by destruct s].
    apply negb_false_iff, existsb_exists in Hb as (m & _ & Hm).
    simpl in Hm. destruct (lastServedTier s !! m); [|done]. apply andb_true_iff in Hm as [_ ?]. by right.
  - intros [= <-]. auto.
Qed.

(** [l] starts swaps of model [m] only with an excuse of tier [t]. *)
Definition no_swap (l : list Effect) : Prop := forall m evict, EStartSwap m evict ∉ l.

Lemma no_swap_app l k : no_swap l -> no_swap k -> no_swap (l ++ k).
Proof. intros Hl Hk m evict [Hin|Hin]%elem_of_app; [by eapply Hl|by eapply Hk]. Qed.

Lemma silent_no_swap l : Forall silent l -> no_swap l.
Proof. rewrite Forall_forall. intros Hl m evict Hin. by apply (Hl _ Hin). Qed.

Lemma no_swap_one e : (forall m evict, e <> EStartSwap m evict) -> no_swap [e].
Proof. intros He m evict Hin. apply list_elem_of_singleton in Hin. by apply (He m evict). Qed.

Lemma grant_no_swap req m s :
  exists l, log (grantHandler cfg env req m s) = log s ++ l /\ no_swap l.
Proof.
  destruct (grantHandler_log cfg env req m s) as (req' & l & ok & _ & Hl & E).
  exists (l ++ [EGrantServe req' m ok]). split; [done|].
  apply no_swap_app; [by apply silent_no_swap|by apply no_swap_one].
Qed.

(** A decision keeps the idle clocks and the pending finish, and starts at most
    the swap of the request's own model. *)
Lemma outcome_grace s req state s' stuck :
  cooldownForced s = false -> outcome cfg env s req state s' stuck ->
  idleSince s' = idleSince s /\ cooldownForced s' = false /\
  exists l, log s' = log s ++ l /\
    (forall m evict, EStartSwap m evict ∈ l -> m = Model req /\ excused s (ReqTier req) evict).
Proof.
  intros Hforced [req' s1 _ (l & -> & Hl)|sw req' s1 _ _ (l & -> & Hl)|_ _ _ _ _ _ _
                 |req' s1 s2 _ _ _ _ Hdef Hr (l & -> & Hl)]; simpl.
  - split_and!; [done|done|]. exists l. split; [done|]. intros m evict Hin.
    by apply (silent_no_swap l Hl) in Hin.
  - split_and!; [done|done|]. exists l. split; [done|]. intros m evict Hin.
    by apply (silent_no_swap l Hl) in Hin.
  - destruct (grantHandler_frame cfg env req (Model req) s) as [_ _ _ Hi Hf _ _].
    destruct (grant_no_swap req (Model req) s) as (l & E & Hl).
    split_and!; [done|by rewrite Hf|]. exists l. split; [done|]. intros m evict Hin. by apply Hl in Hin.
  - apply not_deferred in Hdef as [Hex ->]; [|done]. split_and!; [done|done|].
    exists (l ++ [EOnSwapStart (Model req') (runningSet env s (Model req));
                  EStartSwap (Model req') (plan_for env s req)]).
    split; [by rewrite <- !app_assoc|]. intros m evict [Hin|Hin]%elem_of_app.
    + by apply (silent_no_swap l Hl) in Hin.
    + rewrite !elem_of_cons, elem_of_nil in Hin. destruct Hin as [?|[[= -> ->]|[]]]; [done|].
      by rewrite (unstamped (f := Model) _ _ Hr).
Qed.

Lemma drain_step_grace d req :
  cooldownForced (d_fifo d) = false ->
  let d' := drain_step cfg env d req in
  idleSince (d_fifo d') = idleSince (d_fifo d) /\ cooldownForced (d_fifo d') = false /\
  exists l, log (d_fifo d') = log (d_fifo d) ++ l /\
    (forall m evict, EStartSwap m evict ∈ l -> m = Model req /\ excused (d_fifo d) (ReqTier req) evict).
Proof.
  intros Hforced. cbv zeta. rewrite drain_step_decide. destruct (barred d req).
  { destruct (markParked_stamps env req ParkRank (d_fifo d)) as [_ (l & E & Hl)].
    destruct (markParked env req ParkRank (d_fifo d)) as [req' s']. simpl in *. subst s'.
    split_and!; [done|done|]. exists l. split; [done|]. intros m evict Hin.
    by apply (silent_no_swap l Hl) in Hin. }
  destruct (ModelState env (d_fifo d) (Model req)) as [state|]; simpl.
  - pose proof (outcome_grace _ _ _ _ _ Hforced (decide_outcome cfg env (d_fifo d) req state)) as Ho.
    by destruct (decide_on cfg env (d_fifo d) req state) as [s' [r|]].
  - split_and!; [done|done|]. eexists. split; [done|]. intros m evict Hin.
    by apply (no_swap_one (EGrantError req ErrModelNotFound)) in Hin.
Qed.

Lemma drain_fold_grace qs d :
  cooldownForced (d_fifo d) = false ->
  exists l, log (d_fifo (foldl (drain_step cfg env) d qs)) = log (d_fifo d) ++ l /\
    (forall m evict, EStartSwap m evict ∈ l ->
       exists q, q ∈ qs /\ Model q = m /\ excused (d_fifo d) (ReqTier q) evict).
Proof.
  revert d. induction qs as [|q qs IH]; intros d Hforced; simpl.
  { exists []. rewrite app_nil_r. split; [done|]. by intros m evict ?%elem_of_nil. }
  destruct (drain_step_grace d q Hforced) as (Hi & Hf & l & El & Hl).
  destruct (IH _ Hf) as (k & Ek & Hk). exists (l ++ k). split; [by rewrite Ek, El, app_assoc|].
  intros m evict [Hin|Hin]%elem_of_app.
  - destruct (Hl _ _ Hin) as [-> Hex]. exists q. split; [by left|done].
  - destruct (Hk _ _ Hin) as (q' & Hq' & Hm & Hex). exists q'. split; [by right|]. split; [done|].
    unfold excused in *. by rewrite (withinGrace_idle (d_fifo d)) in Hex.
Qed.

Lemma drainQueue_grace s :
  cooldownForced s = false ->
  exists l, log (drainQueue cfg env s) = log s ++ l /\
    (forall m evict, EStartSwap m evict ∈ l ->
       exists q, q ∈ queued s /\ Model q = m /\ excused s (ReqTier q) evict).
Proof.
  intros Hforced. unfold drainQueue. destruct (queued s) as [|q qs] eqn:Hq.
  { exists []. rewrite app_nil_r. split; [done|]. by intros m evict ?%elem_of_nil. }
  rewrite <- Hq. destruct (drain_fold_grace (queued s) (mkDrain s [] None) Hforced) as (l & El & Hl).
  set (d := foldl _ _ _) in *. unfold broadcastQueuePositions. simpl in *.
  destruct (d_remaining d) as [|r rs].
  - exists l. by split.
  - exists (l ++ [EPositions (positions 1 (r :: rs))]). split; [simpl; by rewrite El, app_assoc|].
    intros m evict [Hin|Hin]%elem_of_app; [by apply Hl|].
    by apply (no_swap_one (EPositions (positions 1 (r :: rs)))) in Hin.
Qed.

Lemma rejectAdmission_no_swap req err s :
  exists l, log (rejectAdmission env req err s) = log s ++ l /\ no_swap l.
Proof.
  unfold rejectAdmission. destruct (sendAdmission_log env req (Some err) s) as [-> | ->].
  - exists []. rewrite app_nil_r. split; [done|]. by intros m evict ?%elem_of_nil.
  - eexists. split; [done|]. by apply no_swap_one.
Qed.

Lemma OnRequest_grace req s :
  cooldownForced s = false ->
  exists l, log (OnRequest cfg env req s) = log s ++ l /\
    (forall m evict, EStartSwap m evict ∈ l -> m = Model req /\ excused s (ReqTier req) evict).
Proof.
  intros Hforced.
  assert (forall s' l, log s' = log s ++ l -> no_swap l ->
    exists l, log s' = log s ++ l /\
      (forall m evict, EStartSwap m evict ∈ l -> m = Model req /\ excused s (ReqTier req) evict)) as Hno.
  { intros s' l El Hl. exists l. split; [done|]. intros m evict Hin. by apply Hl in Hin. }
  assert (forall err, exists l, log (rejectAdmission env req err s) = log s ++ l /\
    (forall m evict, EStartSwap m evict ∈ l -> m = Model req /\ excused s (ReqTier req) evict)) as Hrej.
  { intros err. destruct (rejectAdmission_no_swap req err s) as (l & El & Hl). by eapply Hno. }
  destruct (ModelState env s (Model req)) as [state|] eqn:Hst; [|unfold OnRequest; by rewrite Hst].
  rewrite (OnRequest_decide cfg env req s state Hst). destruct (_ && _ && _); [done|]. unfold admit_.
  destruct (sendAdmission_cases env req None s) as [[-> _]|(_ & l & -> & Hl)].
  { apply (Hno s []); [by rewrite app_nil_r|by intros m evict ?%elem_of_nil]. }
  assert (no_swap l) as Hl'.
  { rewrite Hl. destruct (Admit req); [by apply no_swap_one|by intros m evict ?%elem_of_nil]. }
  simpl. set (s2 := set_nextArrivalSeq _ _). set (req2 := set_seq req _).
  assert (forall s' k, log s' = (log s ++ l) ++ k -> no_swap k -> exists l, log s' = log s ++ l /\
    (forall m evict, EStartSwap m evict ∈ l -> m = Model req /\ excused s (ReqTier req) evict)) as Hquiet.
  { intros s' k Ek Hk. apply (Hno s' (l ++ k)); [by rewrite app_assoc|by apply no_swap_app]. }
  destruct (penaltyHeld cfg env s2 req2).
  { destruct (markParked_stamps env req2 ParkPenalized s2) as [_ (k & E & Hk)].
    destruct (markParked env req2 ParkPenalized s2) as [r s3]. simpl in E. subst s3.
    by apply (Hquiet _ k), silent_no_swap. }
  assert (forall r s3, exists k, log (enqueue cfg env r s3) = log s3 ++ k /\ no_swap k) as Henq.
  { intros r s3. destruct (enqueue_fields cfg env r s3) as (_ & _ & _ & k & Ek & Hk).
    exists k. split; [done|by apply silent_no_swap]. }
  destruct (blockedByRankBarrier s2 req2).
  { destruct (markParked_stamps env req2 ParkRank s2) as [_ (k & E & Hk)].
    destruct (markParked env req2 ParkRank s2) as [r s3]. simpl in E.
    destruct (Henq r s3) as (j & Ej & Hj). apply (Hquiet _ (k ++ j)).
    - by rewrite Ej, E, app_assoc.
    - apply no_swap_app; [by apply silent_no_swap|done]. }
  assert (cooldownForced s2 = false) as Hf2 by done.
  destruct (outcome_grace s2 req2 state _ _ Hf2 (decide_outcome cfg env s2 req2 state))
    as (_ & _ & k & Ek & Hk).
  assert (forall s', log s' = log s2 ++ k -> exists l, log s' = log s ++ l /\
    (forall m evict, EStartSwap m evict ∈ l -> m = Model req /\ excused s (ReqTier req) evict)) as Hdec.
  { intros s' E. exists (l ++ k). split; [by rewrite E, app_assoc|].
    intros m evict [Hin|Hin]%elem_of_app; [by apply Hl' in Hin|].
    destruct (Hk _ _ Hin) as [-> Hex]. split; [done|]. unfold excused in *.
    by rewrite (withinGrace_idle s s2) in Hex. }
  destruct (decide_on cfg env s2 req2 state) as [s3 [r|]]; simpl in Ek.
  - destruct (Henq r s3) as (j & Ej & Hj). destruct (Hdec s3 Ek) as (l' & E' & Hl'').
    exists (l' ++ j). split; [by rewrite Ej, E', app_assoc|].
    intros m evict [Hin|Hin]%elem_of_app; [by apply Hl''|by apply Hj in Hin].
  - repeat case_match; by apply Hdec.
Qed.

End grace.

(** *** The two flags of a manual finish *)
Section flags.
Context {planner : Swapper}.
Variable cfg : Settings.
Variable env : Env.

(** A pending finish is consumed or left, never armed. *)
Definition unarmed (s s' : FIFO) : Prop :=
  graceExpiredForced s' = graceExpiredForced s /\
  (cooldownForced s = false -> cooldownForced s' = false).

Lemma unarmed_trans s1 s2 s3 : unarmed s1 s2 -> unarmed s2 s3 -> unarmed s1 s3.
Proof. intros [H1 H2] [H3 H4]. split; [congruence|auto]. Qed.

Lemma unarmed_same s s' :
  graceExpiredForced s' = graceExpiredForced s -> cooldownForced s' = cooldownForced s -> unarmed s s'.
Proof. intros H1 H2. split; [done|by rewrite H2]. Qed.

Lemma outcome_flags s req state s' stuck : outcome cfg env s req state s' stuck -> unarmed s s'.
Proof.
  intros [req' s1 _ (l & -> & Hl)|sw req' s1 _ _ (l & -> & Hl)|_ _ _ _ _ _ _
         |req' s1 s2 _ _ _ _ Hdef Hr (l & -> & Hl)]; [by apply unarmed_same..| |].
  - destruct (grantHandler_frame cfg env req (Model req) s). by apply unarmed_same.
  - destruct (deferredByGrace_state cfg env req (plan_for env s req) s) as [E|E];
      rewrite Hdef in E; simpl in E; subst s1; by split.
Qed.

Lemma drain_step_flags d req : unarmed (d_fifo d) (d_fifo (drain_step cfg env d req)).
Proof.
  rewrite drain_step_decide. destruct (barred d req).
  { destruct (markParked_stamps env req ParkRank (d_fifo d)) as [_ (l & E & Hl)].
    destruct (markParked env req ParkRank (d_fifo d)) as [req' s']. simpl in *. subst s'. by apply unarmed_same. }
  destruct (ModelState env (d_fifo d) (Model req)) as [state|]; [|by apply unarmed_same].
  pose proof (outcome_flags _ _ _ _ _ (decide_outcome cfg env (d_fifo d) req state)) as Ho.
  by destruct (decide_on cfg env (d_fifo d) req state) as [s' [r|]].
Qed.

Lemma drain_flags s : unarmed s (drainQueue cfg env s).
Proof.
  unfold drainQueue, broadcastQueuePositions. destruct (queued s) as [|q qs]; [by apply unarmed_same|].
  set (d := foldl _ _ _). assert (unarmed s (d_fifo d)) as Hd.
  { subst d. generalize (q :: qs). intros l. change s with (d_fifo (mkDrain s [] None)) at 1.
    generalize (mkDrain s [] None). induction l as [|x l IH]; intros d; simpl; [by apply unarmed_same|].
    eapply unarmed_trans; [apply drain_step_flags|apply IH]. }
  eapply unarmed_trans; [exact Hd|]. simpl. case_match; by apply unarmed_same.
Qed.

End flags.

(** C10. Grace is respected.  While the clock stands still and no manual
    finish is pending, an arrival, or a queued request when the queue is
    drained, starts a swap only if no model the swap evicts is inside its grace
    window, or if the request's tier preempts. *)
Theorem grace_respected {planner : Swapper} (cfg : Settings) (env : Env) (s : FIFO)
    (Hstill : still env) (Hforced : cooldownForced s = false) :
  (forall req, exists l, log (OnRequest cfg env req s) = log s ++ l /\
     forall m evict, EStartSwap m evict ∈ l ->
       m = Model req /\ (withinGrace cfg env s evict = false \/ Preempts (ReqTier req) = true)) /\
  (exists l, log (drainQueue cfg env s) = log s ++ l /\
     forall m evict, EStartSwap m evict ∈ l ->
       exists q, q ∈ queued s /\ Model q = m /\
         (withinGrace cfg env s evict = false \/ Preempts (ReqTier q) = true)).
Proof.
  split; [intros req; by apply OnRequest_grace|by apply drainQueue_grace].
Qed.

Import SchedExample.

(** [coder] went idle at second 110 (one second of retention, then a minute of
    grace); [chat] is requested. *)
Definition idle_coder : FIFO := run
  [ (ex_env ["coder"%string] 100, Request (ex_req 1 "coder" "s1" 9000 normal));
    (ex_env ["coder"%string] 110, ServeDoneE (ex_done 1 "coder" "s1" 9000 normal)) ].

Lemma grace_respected_witness :
  withinGrace ex_cfg (ex_env ["coder"%string] 150) idle_coder ["coder"%string] = true /\
  log (OnRequest (planner := ex_planner) ex_cfg (ex_env ["coder"%string] 171)
         (ex_req 2 "chat" "s2" 100 normal) idle_coder) <> log idle_coder /\
  exists l, log (OnRequest (planner := ex_planner) ex_cfg (ex_env ["coder"%string] 150)
                   (ex_req 2 "chat" "s2" 100 normal) idle_coder) = log idle_coder ++ l /\
    forall m, EStartSwap m ["coder"%string] ∉ l.
Proof.
  assert (Hg : withinGrace ex_cfg (ex_env ["coder"%string] 150) idle_coder ["coder"%string] = true)
    by (vm_compute; reflexivity).
  split; [exact Hg|]. split; [vm_compute; discriminate|].
  destruct (grace_respected (planner := ex_planner) ex_cfg (ex_env ["coder"%string] 150) idle_coder)
    as [Harr _].
  - intros l. reflexivity.
  - vm_compute. reflexivity.
  - destruct (Harr (ex_req 2 "chat" "s2" 100 normal)) as (l & Hl & Hswap).
    exists l. split; [exact Hl|]. intros m Hin. destruct (Hswap m _ Hin) as [_ [E|E]].
    + rewrite Hg in E. discriminate E.
    + discriminate E.
Defined.

(** A tick spends a manual finish: the no-waiter half is always cleared,
    and the other half whenever nothing is queued; neither draining the queue
    nor the tick ever arms a flag. *)
Theorem tick_spends_finish {planner : Swapper} (cfg : Settings) (env : Env) (s : FIFO) :
  graceExpiredForced (OnTick cfg env s) = false /\
  (queued (releasePenalized cfg env s) = [] -> cooldownForced (OnTick cfg env s) = false) /\
  (cooldownForced s = false -> cooldownForced (OnTick cfg env s) = false).
Proof.
  assert (cooldownForced (releasePenalized cfg env s) = cooldownForced s) as Hrel.
  { unfold releasePenalized. destruct (penalized s) as [|r hs]; [done|].
    generalize (contended s) as c. intros c.
    assert (forall hs kept s, cooldownForced (foldl (release_step cfg env c) (kept, s) hs).2 = cooldownForced s) as Hf.
    { induction hs0 as [|x hs0 IH]; intros kept s'; simpl; [done|].
      destruct (penaltyHeldUnder cfg env s' x c); rewrite IH; [done|].
      unfold enqueue, broadcastQueuePositions. simpl. by case_match. }
    specialize (Hf (r :: hs) [] s). by destruct (foldl _ _ _) as [kept' s']. }
  unfold OnTick. set (s1 := releasePenalized cfg env s) in *.
  set (s2 := match queued s1 with [] => _ | _ => _ end).
  assert (graceExpiredForced s2 = false /\ (queued s1 = [] -> cooldownForced s2 = false) /\
          (cooldownForced s1 = false -> cooldownForced s2 = false)) as (H1 & H2 & H3).
  { subst s2. unfold expireForcedGrace, consumeGraceExpiredForced. simpl.
    destruct (queued s1) eqn:Hq; simpl.
    - destruct (graceExpiredForced s1); by split_and!.
    - destruct (graceExpiredForced s1) eqn:Hg; by split_and!. }
  destruct (drain_flags cfg env s2) as [D1 D2].
  split_and!; simpl; [by rewrite D1|intros Hq; by apply D2, H2|intros Hf; apply D2, H3; congruence].
Qed.

(** [coder] is busy, [chat] waits; with or without a click on finish. *)
Definition late_finish (click : bool) : FIFO := run (
  [ (ex_env ["coder"%string] 100, Request (ex_req 1 "coder" "s1" 9000 normal));
    (ex_env ["coder"%string] 101, Request (ex_req 2 "chat" "s2" 100 normal)) ] ++
  (if click then [(ex_env ["coder"%string] 102, Finish)] else []) ++
  [ (ex_env ["coder"%string] 103, Tick); (ex_env ["coder"%string] 104, Tick);
    (ex_env ["coder"%string] 500, ServeDoneE (ex_done 1 "coder" "s1" 9000 normal)) ]).

(** A manual finish made while no cooldown exists is not dropped when
    something is queued: [chat] waits for a busy [coder], the finish is clicked
    while the published cooldown is nil, two ticks pass, and minutes later, when
    [coder] first goes idle, its grace is skipped and the swap starts at once.
    Without that click the request waits out the grace. *)
Theorem late_finish_skips_grace :
  cooldown (run [ (ex_env ["coder"%string] 100, Request (ex_req 1 "coder" "s1" 9000 normal));
                  (ex_env ["coder"%string] 101, Request (ex_req 2 "chat" "s2" 100 normal)) ]) = None /\
  withinGrace ex_cfg (ex_env ["coder"%string] 500) (late_finish true) ["coder"%string] = true /\
  sw_evict <$> active (late_finish true) !! "chat"%string = Some ["coder"%string] /\
  active (late_finish false) !! "chat"%string = None /\
  map parkReason (queued (late_finish false)) = [ParkBusy].
Proof. vm_compute. done. Qed.

End FifoGrace.
