(* ===== verification/FifoBooks.v ===== *)
(** The books of the scheduler.  Against a ghost list of the requests that are
    being served, the counters are exact, and the admission rules keep every
    model within its concurrency limit, its cap on large prefills and its KV
    pool. *)

From S2P Require Import Prelude Tier Swappers SchedTypes KvWarm Grace Fifo FifoBase FifoDecide FifoConserve FifoSafety SchedExample.

Module FifoBooks.
Import Tier Swapper Sched KvWarm Grace Fifo FifoBase FifoDecide FifoConserve FifoSafety.

(** A request being served: granted to a caller that received it, not yet
    reported done; [o_released] once its slot was given back early. *)
Record out := mkOut { o_req : HandlerReq; o_model : string; o_released : bool }.

Definition outs_of (l : list Effect) : list out :=
  flat_map (fun e => match e with
                     | EGrantServe r m true => if StatusRead r then [] else [mkOut r m false]
                     | _ => []
                     end) l.

Lemma outs_app l k : outs_of (l ++ k) = outs_of l ++ outs_of k.
Proof. apply flat_map_app. Qed.

Lemma outs_silent l : Forall silent l -> outs_of l = [].
Proof. induction 1 as [|e l He Hl IH]; [done|]. simpl. rewrite IH. by destruct e as [| |? ? []| | | | | | |]. Qed.

(** *** Tallies *)
Definition tally (f : out -> Z) (os : list out) : Z := sumZ (map f os).

Lemma tally_app f os ps : tally f (os ++ ps) = tally f os + tally f ps.
Proof. unfold tally. by rewrite map_app, sumZ_app. Qed.

Lemma tally_cons f o os : tally f (o :: os) = f o + tally f os.
Proof. done. Qed.

Lemma tally_nil f : tally f [] = 0.
Proof. done. Qed.

Lemma tally_nonneg f os : (forall o, 0 <= f o) -> 0 <= tally f os.
Proof. intros Hf. apply sumZ_nonneg, Forall_map, Forall_true. auto. Qed.

Definition on (m : string) (o : out) : bool := String.eqb (o_model o) m.
Definition one (b : bool) : Z := if b then 1 else 0.

Definition tokens (o : out) : Z := EstimatedTokens (o_req o).
Definition in_flight (m : string) (o : out) : Z := one (on m o && negb (o_released o)).
Definition capped (m : string) (o : out) : Z :=
  one (on m o && negb (o_released o) && negb (ConcurrencyExempt (o_req o))).
Definition reserved (m : string) (o : out) : Z := if on m o && (0 <? tokens o) then tokens o else 0.
Definition reserving (m : string) (o : out) : Z := one (on m o && (0 <? tokens o)).
Definition large (m : string) (o : out) : Z := one (on m o && (largePrefillThreshold <=? tokens o)).

Definition entry (m : string) (o : out) : list grantedReq :=
  if on m o then
    match Preempt (o_req o) with
    | Some h => [mkGranted (ReqTier (o_req o)) h (Preempted (o_req o))]
    | None => []
    end
  else [].

Definition entries (s : FIFO) (m : string) : list grantedReq := default [] (granted s !! m).

Ltac tallies := rewrite ?tally_app, ?tally_cons, ?tally_nil.

Section books.
Context {planner : Swapper}.
Variable cfg : Settings.

(** The scheduler's state [s] agrees with the requests [os] being served. *)
Record ledger (s : FIFO) (os : list out) : Prop := {
  l_waiters : forall id sw w, active s !! id = Some sw -> w ∈ waiters sw -> Model w = id;
  l_inFlight : forall m, get0 (inFlight s) m = tally (in_flight m) os;
  l_kv : forall m, get0 (kvInFlight s) m = tally (reserved m) os;
  l_large : forall m, get0 (kvLargeInFlight s) m = tally (large m) os;
  l_granted : forall m, entries s m = flat_map (entry m) os;
  l_cap : forall m, tally (capped m) os <= Z.max 0 (limit cfg m);
  l_large_cap : forall m, 0 < get0 (KVPoolTokens cfg) m -> 0 < maxLargeFor cfg m ->
    tally (large m) os <= maxLargeFor cfg m;
  l_pool : forall m, 0 < get0 (KVPoolTokens cfg) m ->
    tally (reserved m) os <= get0 (KVPoolTokens cfg) m \/ tally (reserving m) os = 1;
}.

(** From [s] to [s'], the books follow the grants in the log. *)
Definition books (s s' : FIFO) : Prop :=
  exists new, log s' = log s ++ new /\ forall os, ledger s os -> ledger s' (os ++ outs_of new).

Lemma books_trans s1 s2 s3 : books s1 s2 -> books s2 s3 -> books s1 s3.
Proof.
  intros (n1 & L1 & H1) (n2 & L2 & H2). exists (n1 ++ n2). split; [by rewrite L2, L1, app_assoc|].
  intros os Hos. rewrite outs_app, app_assoc. auto.
Qed.

(** [s'] has the counters of [s], and no waiter that [s] does not have. *)
Definition same_books (s s' : FIFO) : Prop :=
  inFlight s' = inFlight s /\ kvInFlight s' = kvInFlight s /\
  kvLargeInFlight s' = kvLargeInFlight s /\ granted s' = granted s /\
  forall id sw' w, active s' !! id = Some sw' -> w ∈ waiters sw' ->
    Model w = id \/ exists sw, active s !! id = Some sw /\ w ∈ waiters sw.

Lemma ledger_same s s' os : same_books s s' -> ledger s os -> ledger s' os.
Proof.
  intros (E1 & E2 & E3 & E4 & Hw) [L1 L2 L3 L4 L5 L6 L7 L8].
  split; unfold entries in *; rewrite ?E1, ?E2, ?E3, ?E4; try done.
  intros id sw' w Hid Hin. destruct (Hw id sw' w Hid Hin) as [?|(sw & Hsw & Hin')]; [done|by eapply L1].
Qed.

Lemma books_same s s' l :
  same_books s s' -> log s' = log s ++ l -> outs_of l = [] -> books s s'.
Proof.
  intros Hs El Hl. exists l. split; [done|]. intros os Hos. rewrite Hl, app_nil_r. by eapply ledger_same.
Qed.

(** The common case: the fields are literally the same. *)
Lemma books_fields s s' l :
  inFlight s' = inFlight s -> kvInFlight s' = kvInFlight s ->
  kvLargeInFlight s' = kvLargeInFlight s -> granted s' = granted s -> active s' = active s ->
  log s' = log s ++ l -> outs_of l = [] -> books s s'.
Proof.
  intros E1 E2 E3 E4 E5. apply books_same. split_and!; [done..|].
  intros id sw' w. rewrite E5. eauto.
Qed.

Lemma books_refl s : books s s.
Proof. by apply (books_fields s s []); rewrite ?app_nil_r. Qed.

Lemma books_quiet s s' : quiet s s' -> books s s'.
Proof. intros (l & -> & Hl). by apply (books_fields s _ l); [..|apply outs_silent]. Qed.

Lemma books_fold {B} (st : FIFO -> B -> FIFO) bs s :
  (forall s b, b ∈ bs -> books s (st s b)) -> books s (foldl st s bs).
Proof.
  revert s. induction bs as [|b bs IH]; intros s Hst; simpl; [apply books_refl|].
  eapply books_trans; [apply Hst; by left|]. apply IH. intros s' b' Hb. apply Hst. by right.
Qed.

(** *** Grants *)
Lemma bump_counters req m s :
  inFlight (bump req m s) = <[m := get0 (inFlight s) m + 1]> (inFlight s) /\
  granted (bump req m s) = granted s /\ active (bump req m s) = active s /\
  (forall m', get0 (kvInFlight (bump req m s)) m' =
     get0 (kvInFlight s) m' + if String.eqb m m' && (0 <? EstimatedTokens req) then EstimatedTokens req else 0) /\
  (forall m', get0 (kvLargeInFlight (bump req m s)) m' =
     get0 (kvLargeInFlight s) m' + one (String.eqb m m' && (largePrefillThreshold <=? EstimatedTokens req))).
Proof.
  unfold bump. destruct (Z.ltb_spec 0 (EstimatedTokens req)) as [Hp|Hn].
  - destruct (Z.leb_spec largePrefillThreshold (EstimatedTokens req)); simpl; split_and!; try done;
      intros m'; destruct (String.eqb_spec m m') as [<-|Hne]; simpl;
      rewrite ?get0_insert_eq, ?get0_insert_ne by done; lia.
  - assert (largePrefillThreshold <=? EstimatedTokens req = false) as ->
      by (apply Z.leb_gt; unfold largePrefillThreshold; lia).
    simpl. split_and!; try done; intros m'; rewrite andb_false_r; simpl; lia.
Qed.

Lemma one_and b c : one (b && c) = if b then one c else 0.
Proof. by destruct b. Qed.

Lemma reserved_nonneg m o : 0 <= reserved m o.
Proof. unfold reserved. case_match; lia. Qed.

(** An empty reservation means nobody reserves. *)
Lemma nothing_reserved m os :
  tally (reserved m) os <= 0 -> tally (reserving m) os = 0 /\ tally (large m) os = 0.
Proof.
  induction os as [|o os IH]; [done|]. tallies. intros Hz.
  pose proof (tally_nonneg _ os (reserved_nonneg m)). pose proof (reserved_nonneg m o).
  destruct IH as [-> ->]; [lia|]. assert (reserved m o = 0) as Ho by lia.
  unfold reserved in Ho. unfold reserving, large, largePrefillThreshold.
  destruct (on m o); simpl in *; [|done]. destruct (Z.ltb_spec 0 (tokens o)); [lia|].
  split; [done|]. destruct (Z.leb_spec 8192 (tokens o)); simpl; lia.
Qed.

(** The one place a request begins to be served. *)
Lemma ledger_grant s s' req m os :
  inFlight s' = <[m := get0 (inFlight s) m + 1]> (inFlight s) ->
  (forall m', entries s' m' = entries s m' ++ entry m' (mkOut req m false)) -> active s' = active s ->
  (forall m', get0 (kvInFlight s') m' =
     get0 (kvInFlight s) m' + reserved m' (mkOut req m false)) ->
  (forall m', get0 (kvLargeInFlight s') m' = get0 (kvLargeInFlight s) m' + large m' (mkOut req m false)) ->
  atCapacity cfg s req = false -> kvAdmit cfg s m (EstimatedTokens req) = true -> Model req = m ->
  ledger s os -> ledger s' (os ++ [mkOut req m false]).
Proof.
  intros E1 E2 E3 E4 E5 Hcap Hkv Hm [L1 L2 L3 L4 L5 L6 L7 L8].
  assert (forall m', get0 (inFlight s') m' = get0 (inFlight s) m' + in_flight m' (mkOut req m false)) as E1'.
  { intros m'. rewrite E1. unfold in_flight, on. simpl. rewrite andb_true_r.
    destruct (String.eqb_spec m m') as [<-|Hne]; simpl; [by rewrite get0_insert_eq|].
    rewrite get0_insert_ne by done. lia. }
  assert (forall m', m' <> m -> on m' (mkOut req m false) = false) as Hoff.
  { intros m' Hne. unfold on. simpl. by apply String.eqb_neq. }
  assert (on m (mkOut req m false) = true) as Hon by (unfold on; simpl; apply String.eqb_refl).
  split.
  - rewrite E3. exact L1.
  - intros m'. tallies. rewrite E1', L2. lia.
  - intros m'. tallies. rewrite E4, L3. lia.
  - intros m'. tallies. rewrite E5, L4. lia.
  - intros m'. rewrite E2, L5, flat_map_app. simpl. by rewrite app_nil_r.
  - intros m'. tallies. specialize (L6 m'). unfold capped at 2.
    destruct (decide (m' = m)) as [->|Hne]; [|rewrite Hoff by done; simpl; lia]. rewrite Hon. simpl.
    destruct (ConcurrencyExempt req) eqn:Hex; simpl; [lia|].
    unfold atCapacity in Hcap. rewrite Hex, Hm in Hcap.
    assert (tally (capped m) os <= tally (in_flight m) os).
    { clear. induction os as [|o os IH]; [done|]. tallies. unfold capped at 1, in_flight at 1.
      destruct (on m o), (o_released o), (ConcurrencyExempt (o_req o)); simpl; lia. }
    specialize (L2 m). lia.
  - intros m' Hpool Hn. tallies. specialize (L7 m' Hpool Hn). unfold large at 2.
    destruct (decide (m' = m)) as [->|Hne]; [|rewrite Hoff by done; simpl; lia]. rewrite Hon. simpl.
    unfold tokens; simpl. destruct (Z.leb_spec largePrefillThreshold (EstimatedTokens req)); simpl; [|lia].
    unfold kvAdmit in Hkv. rewrite L3, L4 in Hkv. destruct (get0 (KVPoolTokens cfg) m <=? 0) eqn:?; [lia|].
    destruct (Z.leb_spec (tally (reserved m) os) 0) as [Hz|Hz].
    + destruct (nothing_reserved m os Hz) as [_ ->]. lia.
    + assert (maxLargeFor cfg m <=? tally (large m) os = false); [|lia].
      assert (0 <? maxLargeFor cfg m = true) as Hn' by lia. rewrite Hn' in Hkv.
      assert (largePrefillThreshold <=? EstimatedTokens req = true) as Hl by lia. rewrite Hl in Hkv.
      simpl in Hkv. by destruct (maxLargeFor cfg m <=? tally (large m) os).
  - intros m' Hpool. tallies. specialize (L8 m' Hpool). unfold reserved at 2, reserving at 2.
    destruct (decide (m' = m)) as [->|Hne]; [|rewrite Hoff by done; simpl; rewrite !Z.add_0_r; done].
    rewrite Hon. unfold tokens; simpl. destruct (Z.ltb_spec 0 (EstimatedTokens req)); simpl; [|rewrite !Z.add_0_r; done].
    unfold kvAdmit in Hkv. rewrite L3 in Hkv. destruct (get0 (KVPoolTokens cfg) m <=? 0) eqn:?; [lia|].
    destruct (Z.leb_spec (tally (reserved m) os) 0) as [Hz|Hz].
    + right. destruct (nothing_reserved m os Hz) as [-> _]. lia.
    + left. case_match; [done|]. lia.
Qed.

Section env.
Variable env : Env.

Lemma admit_frame s s' req :
  inFlight s' = inFlight s -> kvInFlight s' = kvInFlight s -> kvLargeInFlight s' = kvLargeInFlight s ->
  atCapacity cfg s' req = atCapacity cfg s req /\
  kvAdmit cfg s' (Model req) (EstimatedTokens req) = kvAdmit cfg s (Model req) (EstimatedTokens req).
Proof. intros E1 E2 E3. unfold atCapacity, kvAdmit. by rewrite E1, E2, E3. Qed.

Lemma books_grant req m s :
  atCapacity cfg s req = false -> kvAdmit cfg s m (EstimatedTokens req) = true -> Model req = m ->
  books s (grantHandler cfg env req m s).
Proof.
  intros Hcap Hkv Hm.
  destruct (grantHandler_spec cfg env req m s) as (req' & l & ok & Hr & Hl & _ & Eg).
  destruct (grantHandler_log cfg env req m s) as (r2 & l2 & ok2 & _ & _ & _).
  assert (log (grantHandler cfg env req m s) = log s ++ (l ++ [EGrantServe req' m ok])) as El.
  { rewrite Eg. destruct (ok && _); [|done]. set (s1 := set_log s _).
    destruct (bump_fields req' m s1) as (a & b & c & d & e & ->).
    set (s2 := set_kvLargeByID _ e). destruct (kvWarmOnGrant_residents cfg s2 req' m) as [x ->].
    unfold track. subst s2 s1. by destruct (Preempt req'). }
  assert (outs_of (l ++ [EGrantServe req' m ok]) =
            if ok && negb (StatusRead req') then [mkOut req' m false] else []) as Eo.
  { rewrite outs_app, (outs_silent l Hl). simpl. by destruct ok, (StatusRead req'). }
  exists (l ++ [EGrantServe req' m ok]). split; [done|]. intros os Hos. rewrite Eo.
  set (s1 := set_log s (log s ++ l ++ [EGrantServe req' m ok])) in *.
  destruct (ok && negb (StatusRead req')); rewrite Eg;
    [|rewrite app_nil_r; apply (ledger_same s); [split_and!; try done; by eauto|done]].
  destruct (bump_counters req' m s1) as (B1 & B2 & B3 & B4 & B5).
  destruct (kvWarmOnGrant_residents cfg (bump req' m s1) req' m) as [x Hx]. rewrite Hx.
  assert (EstimatedTokens req' = EstimatedTokens req) as Et by by apply (unstamped (f := EstimatedTokens)).
  assert (Model req' = m) as Hm' by (rewrite (unstamped (f := Model) _ _ Hr); done).
  apply (ledger_grant s _ req' m os).
  - unfold track. by destruct (Preempt req').
  - intros m'. unfold entries, track, entry, on. simpl.
    destruct (Preempt req'); simpl; rewrite B2; [|case_match; by rewrite app_nil_r].
    destruct (String.eqb_spec m m') as [<-|Hne]; [by rewrite lookup_insert_eq|].
    rewrite lookup_insert_ne by done. by rewrite app_nil_r.
  - unfold track. by destruct (Preempt req').
  - intros m'. unfold reserved, on, tokens. simpl. rewrite <- B4. unfold track. by destruct (Preempt req').
  - intros m'. unfold large, on, tokens. simpl. rewrite <- B5. unfold track. by destruct (Preempt req').
  - unfold atCapacity in *. rewrite (unstamped (f := ConcurrencyExempt) _ _ Hr), Hm'. by rewrite Hm in Hcap.
  - by rewrite Et.
  - done.
  - done.
Qed.

Lemma books_outcome s req state s' stuck : outcome cfg env s req state s' stuck -> books s s'.
Proof.
  intros [req' s1 _ Hq|sw req' s1 Hact Hr (l & -> & Hl)|_ _ _ Hcap _ Hkv _
         |req' s1 s2 Hact _ _ _ Hdef Hr (l & -> & Hl)].
  - by apply books_quiet.
  - apply (books_same s _ l); [|done|by apply outs_silent].
    split_and!; try done. intros id sw' w Hid Hw. simpl in Hid.
    apply lookup_insert_Some in Hid as [[<- <-]|[_ Hid]]; [|eauto]. simpl in Hw.
    apply elem_of_app in Hw as [Hw|Hw%list_elem_of_singleton]; [|left; by subst w].
    right. exists sw. by rewrite (unstamped (f := Model) _ _ Hr).
  - by apply books_grant.
  - assert (books s s1) as B1.
    { destruct (deferredByGrace_state cfg env req (plan_for env s req) s) as [E|E];
        rewrite Hdef in E; simpl in E; subst s1; by apply (books_fields s _ []); rewrite ?app_nil_r. }
    eapply books_trans; [exact B1|].
    apply (books_same s1 _ (l ++ [EOnSwapStart (Model req') (runningSet env s (Model req));
                                  EStartSwap (Model req') (plan_for env s req)])).
    + split_and!; try done. intros id sw' w Hid Hw. simpl in Hid.
      apply lookup_insert_Some in Hid as [[<- <-]|[_ Hid]]; [|eauto]. simpl in Hw.
      apply list_elem_of_singleton in Hw as ->. by left.
    + simpl. by rewrite <- !app_assoc.
    + rewrite outs_app, (outs_silent l Hl). done.
Qed.

Lemma books_enqueue req s : books s (enqueue cfg env req s).
Proof.
  destruct (enqueue_fields cfg env req s) as (Ha & _ & _ & l & El & Hl).
  apply (books_fields s _ l); try done; [..|by apply outs_silent];
    unfold enqueue, broadcastQueuePositions; simpl; by case_match.
Qed.

Lemma books_drain_step d req : books (d_fifo d) (d_fifo (drain_step cfg env d req)).
Proof.
  rewrite drain_step_decide. destruct (barred d req).
  { destruct (markParked_stamps env req ParkRank (d_fifo d)) as [_ Hq].
    destruct (markParked env req ParkRank (d_fifo d)) as [req' s']. by apply books_quiet. }
  destruct (ModelState env (d_fifo d) (Model req)) as [state|].
  - pose proof (books_outcome _ _ _ _ _ (decide_outcome cfg env (d_fifo d) req state)) as Ho.
    by destruct (decide_on cfg env (d_fifo d) req state) as [s' [r|]].
  - by apply (books_fields _ _ [EGrantError req ErrModelNotFound]).
Qed.

Lemma books_drain s : books s (drainQueue cfg env s).
Proof.
  unfold drainQueue, broadcastQueuePositions. destruct (queued s) as [|q qs]; [apply books_refl|].
  set (d := foldl _ _ _). assert (books s (d_fifo d)) as Hd.
  { subst d. generalize (q :: qs). intros l. change s with (d_fifo (mkDrain s [] None)) at 1.
    generalize (mkDrain s [] None). induction l as [|x l IH]; intros d; simpl; [apply books_refl|].
    eapply books_trans; [apply books_drain_step|apply IH]. }
  eapply books_trans; [exact Hd|]. simpl. case_match.
  - by apply (books_fields _ _ []); rewrite ?app_nil_r.
  - by eapply (books_fields _ _ [_]).
Qed.

(** *** Events other than the end of a request *)
Lemma books_swap_waiter ev s w :
  Model w = sd_model ev -> books s (swap_waiter cfg env ev s w).
Proof.
  intros Hm. unfold swap_waiter. destruct (sd_err ev) as [e|].
  { by apply (books_fields _ _ [EGrantError w (ErrSwap e)]). }
  destruct (atCapacity cfg s w) eqn:Hcap.
  { destruct (markParked_stamps env w ParkCap s) as [_ Hq].
    destruct (markParked env w ParkCap s) as [w' s']. eapply books_trans; [by apply books_quiet|apply books_enqueue]. }
  destruct (kvAdmit cfg s (Model w) (EstimatedTokens w)) eqn:Hkv; simpl.
  { apply books_grant; [done|by rewrite <- Hm|done]. }
  pose proof (quiet_trans _ _ _ (markKVParked_quiet env w s)
      (proj2 (markParked_stamps env w ParkKV (markKVParked env w s)))) as Hq.
  destruct (markParked env w ParkKV (markKVParked env w s)) as [w' s'].
  eapply books_trans; [by apply books_quiet|apply books_enqueue].
Qed.

(** The waiters of a finished swap are requests for its model. *)
Lemma books_OnSwapDone ev s :
  exists new, log (OnSwapDone cfg env ev s) = log s ++ new /\
    forall os, ledger s os -> ledger (OnSwapDone cfg env ev s) (os ++ outs_of new).
Proof.
  unfold OnSwapDone. destruct (active s !! sd_model ev) as [sw|] eqn:Hact; [|apply books_refl].
  set (s1 := match sd_err ev with None => _ | Some _ => _ end).
  assert (books s s1) as B1.
  { apply (books_same s _ []); [|subst s1; case_match; by rewrite app_nil_r|done].
    subst s1. split_and!; try (by case_match). intros id sw' w Hid Hw. right. exists sw'. split; [|done].
    assert (delete (sd_model ev) (active s) !! id = Some sw') as Hid' by (by destruct (sd_err ev)).
    by apply lookup_delete_Some in Hid' as [_ ?]. }
  (* The ledger gives the waiters' model; without one the log is all there is. *)
  destruct (decide (Forall (fun w => Model w = sd_model ev) (waiters sw))) as [Hall|Hno].
  - rewrite Forall_forall in Hall. eapply books_trans; [exact B1|]. eapply books_trans; [|apply books_drain].
    apply books_fold. intros s' w Hw. apply books_swap_waiter. by apply Hall.
  - destruct (OnSwapDone_conserves cfg Respond env ev s) as (new & El & _).
    unfold OnSwapDone in El. rewrite Hact in El. fold s1 in El. exists new. split; [exact El|].
    intros os Hos. exfalso. apply Hno, Forall_forall. intros w Hw. by apply (l_waiters _ _ Hos _ _ _ Hact).
Qed.

Lemma books_OnRequest req s : books s (OnRequest cfg env req s).
Proof.
  assert (forall err, books s (rejectAdmission env req err s)) as Hrej.
  { intros err. unfold rejectAdmission.
    destruct (sendAdmission_log env req (Some err) s) as [-> | ->]; [apply books_refl|].
    by apply (books_fields _ _ [EAdmit req (Some err)]). }
  destruct (ModelState env s (Model req)) as [state|] eqn:Hst; [|unfold OnRequest; by rewrite Hst].
  rewrite (OnRequest_decide cfg env req s state Hst). destruct (_ && _ && _); [done|]. unfold admit_.
  destruct (sendAdmission_cases env req None s) as [[-> _]|(_ & l & -> & Hl)]; [apply books_refl|].
  simpl. set (s2 := set_nextArrivalSeq _ _). set (req2 := set_seq req _).
  assert (books s s2) as B2.
  { apply (books_fields s _ l); try done. rewrite Hl. by destruct (Admit req). }
  eapply books_trans; [exact B2|]. destruct (penaltyHeld cfg env s2 req2).
  { destruct (markParked_stamps env req2 ParkPenalized s2) as [_ Hq].
    destruct (markParked env req2 ParkPenalized s2) as [r s3].
    eapply books_trans; [by apply books_quiet|]. by apply (books_fields _ _ []); rewrite ?app_nil_r. }
  destruct (blockedByRankBarrier s2 req2).
  { destruct (markParked_stamps env req2 ParkRank s2) as [_ Hq].
    destruct (markParked env req2 ParkRank s2) as [r s3].
    eapply books_trans; [by apply books_quiet|apply books_enqueue]. }
  pose proof (books_outcome _ _ _ _ _ (decide_outcome cfg env s2 req2 state)) as B3.
  destruct (decide_on cfg env s2 req2 state) as [s3 [r|]]; simpl in B3.
  - eapply books_trans; [exact B3|apply books_enqueue].
  - assert (books s3 (publish cfg env s3)) as B4 by by apply (books_fields _ _ []); rewrite ?app_nil_r.
    repeat case_match; first [done|by eapply books_trans].
Qed.

Lemma books_OnTick s : books s (OnTick cfg env s).
Proof.
  unfold OnTick. eapply (books_trans _ (releasePenalized cfg env s)).
  { unfold releasePenalized. destruct (penalized s) as [|r hs]; [apply books_refl|].
    generalize (contended s) as c. intros c.
    assert (forall hs kept s, books s (foldl (release_step cfg env c) (kept, s) hs).2) as Hf.
    { induction hs0 as [|x hs0 IH]; intros kept s'; simpl; [apply books_refl|].
      destruct (penaltyHeldUnder cfg env s' x c); [apply IH|].
      eapply books_trans; [apply books_enqueue|apply IH]. }
    specialize (Hf (r :: hs) [] s). destruct (foldl _ _ _) as [kept' s'].
    eapply books_trans; [exact Hf|]. by apply (books_fields _ _ []); rewrite ?app_nil_r. }
  set (s1 := releasePenalized cfg env s). set (s2 := match queued s1 with [] => _ | _ => _ end).
  assert (books s1 s2) as B2.
  { subst s2. unfold expireForcedGrace, consumeGraceExpiredForced. simpl.
    repeat (case_match; simplify_eq); by apply (books_fields s1 _ []); rewrite ?app_nil_r. }
  eapply books_trans; [exact B2|]. eapply books_trans; [apply books_drain|].
  by apply (books_fields _ _ []); rewrite ?app_nil_r.
Qed.

Lemma outs_errors (f : HandlerReq -> sched_error) ws : outs_of (map (fun w => EGrantError w (f w)) ws) = [].
Proof. induction ws as [|w ws IH]; [done|]. exact IH. Qed.

Lemma books_unload_errors ws s : books s (foldl unload_error s ws).
Proof. apply books_fold. intros s' w _. by apply (books_fields _ _ [EGrantError w ErrUnloaded]). Qed.

Lemma books_OnUnload targets timeout s : books s (OnUnload cfg env targets timeout s).
Proof.
  unfold OnUnload. set (s1 := kvWarmForget s targets). set (s2 := foldl release_target s1 _).
  assert (books s s2) as B2.
  { eapply (books_trans _ s1); [by apply (books_fields _ _ []); rewrite ?app_nil_r|].
    apply books_fold. intros s' id _. unfold release_target.
    destruct (active s' !! id) as [sw|] eqn:Hid; [|apply books_refl].
    eapply books_trans; [apply (books_unload_errors (waiters sw))|].
    destruct (unload_errors Respond (waiters sw) s') as (n & -> & _).
    apply (books_same _ _ []); [|by rewrite app_nil_r|done].
    split_and!; try done. intros id' sw' w Hid' Hw. simpl in *.
    apply lookup_delete_Some in Hid' as [_ Hid']. eauto. }
  eapply books_trans; [exact B2|]. set (s3 := match queued s2 with [] => s2 | _ => _ end).
  assert (books s2 s3) as B3.
  { subst s3. destruct (queued s2) as [|q qs]; [apply books_refl|].
    eapply books_trans; [apply (books_unload_errors (List.filter (targeted targets) (q :: qs)))|].
    by apply (books_fields _ _ []); rewrite ?app_nil_r. }
  eapply books_trans; [exact B3|].
  eapply books_trans; [apply (books_unload_errors (List.filter (targeted targets) (penalized s3)))|].
  eapply books_trans; [|apply books_drain]. by apply (books_fields _ _ [EStopProcesses timeout targets]).
Qed.

Lemma books_OnCancel req s : books s (OnCancel cfg env req s).
Proof.
  unfold OnCancel. set (removed := _ || _ || _). clearbody removed.
  set (s1 := match queued s with [] => s | _ => _ end).
  assert (books s s1) as B1.
  { subst s1. case_match; [apply books_refl|]. by apply (books_fields _ _ []); rewrite ?app_nil_r. }
  set (s2 := set_active _ _).
  assert (books s1 s2) as B2.
  { apply (books_same _ _ []); [|by rewrite app_nil_r|done]. subst s2. split_and!; try done.
    intros id sw' w. simpl. rewrite lookup_fmap. destruct (active s1 !! id) as [sw|]; simpl; [|done].
    intros [= <-]. simpl. intros [Hw _]%elem_of_filterb. right. by exists sw. }
  eapply books_trans; [exact B1|]. eapply books_trans; [exact B2|].
  destruct removed; [|apply books_refl]. unfold broadcastQueuePositions. case_match; [apply books_refl|].
  by eapply (books_fields _ _ [_]).
Qed.

Lemma books_OnShutdown err s : books s (OnShutdown err s).
Proof.
  assert (forall ws s, books s (foldl (fun s w => emit (EGrantError w (ErrShutdown err)) s) s ws)) as Hf.
  { intros ws s'. apply (books_fold (fun s w => emit (EGrantError w (ErrShutdown err)) s)).
    intros s0 w _. by apply (books_fields _ _ [EGrantError w (ErrShutdown err)]). }
  unfold OnShutdown. eapply books_trans; [apply Hf|]. eapply books_trans; [apply Hf|apply Hf].
Qed.

(** Every event but the end of a request keeps the books by its log. *)
Lemma books_step ev s :
  (forall sv, ev <> ServeDoneE sv) -> books s (step cfg env ev s).
Proof.
  intros Hev. destruct ev as [req|req|ev|sv| |targets timeout|err| |session]; cbn [step].
  - apply books_OnRequest.
  - apply books_OnCancel.
  - apply books_OnSwapDone.
  - by destruct (Hev sv).
  - apply books_OnTick.
  - apply books_OnUnload.
  - apply books_OnShutdown.
  - by apply (books_fields _ _ []); rewrite ?app_nil_r.
  - by apply (books_fields _ _ []); rewrite ?app_nil_r.
Qed.

(** *** The end of a request *)

(** [ev] reports the end of [o]. *)
Definition reports (ev : ServeDoneEvent) (o : out) : Prop :=
  sv_statusRead ev = false /\ sv_capReleaseOnly ev = false /\ sv_model ev = o_model o /\
  sv_tokens ev = EstimatedTokens (o_req o) /\ sv_ctx ev = Ctx (o_req o) /\
  sv_holder ev = Preempted (o_req o).

Definition finishes (ev : ServeDoneEvent) (o : out) : Prop :=
  reports ev o /\ sv_capReleased ev = o_released o.

(** The end of [o] is reported before the early release of its slot, which is
    still on its way: only its place is left. *)
Definition overtakes (ev : ServeDoneEvent) (o : out) : Prop :=
  reports ev o /\ sv_capReleased ev = true /\ o_released o = false.

Definition bare (r : HandlerReq) : HandlerReq :=
  mkReq (Model r) None false (Respond r) 0 "" (ReqTier r) (ConcurrencyExempt r) false false None "" "" None
    None None 0.

Definition place (o : out) : out := mkOut (bare (o_req o)) (o_model o) false.

(** Nothing of [o] is left. *)
Definition spent (o : out) : Prop :=
  o_released o = true /\ tokens o <= 0 /\ Preempt (o_req o) = None.

(** [o] can be told from [os] by its identity. *)
Definition identified (o : out) (os : list out) : Prop :=
  exists i, Preempted (o_req o) = Some i /\
    forall o', o' ∈ os -> o_model o' = o_model o -> Preempted (o_req o') <> Some i.

Lemma drop_id_entries i o os1 os2 m :
  o_model o = m -> Preempted (o_req o) = Some i ->
  (forall o', o' ∈ os1 ++ os2 -> o_model o' = m -> Preempted (o_req o') <> Some i) ->
  drop_id i (flat_map (entry m) (os1 ++ o :: os2)) = flat_map (entry m) (os1 ++ os2).
Proof.
  intros Hm Hi Hne.
  assert (forall o', o' ∈ os1 ++ os2 -> forall rest, drop_id i (entry m o' ++ rest) = entry m o' ++ drop_id i rest) as Hkeep.
  { intros o' Ho' rest. unfold entry, on. destruct (String.eqb_spec (o_model o') m) as [E|]; [|done].
    destruct (Preempt (o_req o')); [|done]. simpl.
    rewrite bool_decide_eq_false_2; [done|by apply Hne]. }
  assert (forall os, (forall o', o' ∈ os -> o' ∈ os1 ++ os2) -> drop_id i (flat_map (entry m) os) = flat_map (entry m) os) as Hall.
  { induction os as [|o' os IH]; intros Hin; simpl; [done|]. rewrite Hkeep by (apply Hin; by left).
    rewrite IH; [done|]. intros x Hx. apply Hin. by right. }
  assert (forall os, (forall o', o' ∈ os -> o' ∈ os1 ++ os2) ->
    drop_id i (flat_map (entry m) (os ++ o :: os2)) = flat_map (entry m) (os ++ os2)) as Hgen.
  { induction os as [|o' os IH]; intros Hin; simpl.
    - unfold entry at 1, on. rewrite Hm, String.eqb_refl. destruct (Preempt (o_req o)); simpl.
      + by rewrite Hi, bool_decide_eq_true_2.
      + apply Hall. intros x Hx. apply elem_of_app. by right.
    - rewrite Hkeep by (apply Hin; by left). rewrite IH; [done|]. intros x Hx. apply Hin. by right. }
  apply Hgen. intros x Hx. apply elem_of_app. by left.
Qed.

Lemma dropGranted_entries s m i m' :
  entries (dropGranted s m (Some i)) m' = if decide (m' = m) then drop_id i (entries s m') else entries s m'.
Proof.
  unfold dropGranted, entries. destruct (granted s !! m) as [[|g gs]|] eqn:Hg.
  - destruct (decide (m' = m)) as [->|]; [|done]. by rewrite Hg.
  - destruct (drop_id i (g :: gs)) as [|g' gs'] eqn:Hd; simpl; destruct (decide (m' = m)) as [->|Hne].
    + rewrite lookup_delete_eq, Hg. simpl. simpl in Hd. by rewrite Hd.
    + by rewrite lookup_delete_ne.
    + rewrite lookup_insert_eq, Hg. simpl. simpl in Hd. by rewrite Hd.
    + by rewrite lookup_insert_ne.
  - destruct (decide (m' = m)) as [->|]; [|done]. by rewrite Hg.
Qed.

Lemma dropGranted_other s m h :
  inFlight (dropGranted s m h) = inFlight s /\ kvInFlight (dropGranted s m h) = kvInFlight s /\
  kvLargeInFlight (dropGranted s m h) = kvLargeInFlight s /\ active (dropGranted s m h) = active s /\
  log (dropGranted s m h) = log s.
Proof. unfold dropGranted. by repeat case_match. Qed.

Lemma releaseKV_other s m est ctx :
  inFlight (releaseKV s m est ctx).2 = inFlight s /\ granted (releaseKV s m est ctx).2 = granted s /\
  active (releaseKV s m est ctx).2 = active s /\ log (releaseKV s m est ctx).2 = log s.
Proof. unfold releaseKV. repeat (case_match; simpl); done. Qed.

Lemma releaseKV_counters s m est ctx :
  (0 < est -> est <= get0 (kvInFlight s) m) ->
  (largePrefillThreshold <= est -> 1 <= get0 (kvLargeInFlight s) m) ->
  forall m', get0 (kvInFlight (releaseKV s m est ctx).2) m' =
               get0 (kvInFlight s) m' - (if String.eqb m m' && (0 <? est) then est else 0) /\
             get0 (kvLargeInFlight (releaseKV s m est ctx).2) m' =
               get0 (kvLargeInFlight s) m' - one (String.eqb m m' && (largePrefillThreshold <=? est)).
Proof.
  intros Hkv Hlarge m'. unfold releaseKV. destruct (Z.leb_spec est 0) as [Hz|Hz]; simpl.
  { assert (0 <? est = false) as -> by lia.
    assert (largePrefillThreshold <=? est = false) as -> by (unfold largePrefillThreshold; lia).
    rewrite andb_false_r. simpl. lia. }
  assert (get0 (kvInFlight s) m <=? 0 = false) as -> by lia.
  assert (get0 (kvInFlight s) m - est <? 0 = false) as -> by lia.
  assert (0 <? est = true) as -> by lia.
  destruct (Z.leb_spec largePrefillThreshold est) as [Hl|Hl]; simpl.
  - assert (0 <? get0 (kvLargeInFlight s) m = true) as -> by lia. rewrite !andb_true_r. simpl.
    destruct (kvLargeOrder s !! m); simpl; destruct (kvLargeByID s !! m); simpl;
      (destruct (String.eqb_spec m m') as [<-|Hne]; simpl;
       rewrite ?get0_insert_eq, ?get0_insert_ne by done; lia).
  - rewrite andb_true_r, andb_false_r.
    destruct (kvLargeOrder s !! m); simpl; destruct (kvLargeByID s !! m); simpl;
      (destruct (String.eqb_spec m m') as [<-|Hne]; simpl;
       rewrite ?get0_insert_eq, ?get0_insert_ne by done; lia).
Qed.

(** Replacing [o] on the ghost list by [left], which reserves nothing and
    counts against the limit at most where [o] did. *)
Lemma ledger_replace s s' o left os1 os2 :
  (forall m, get0 (inFlight s') m = get0 (inFlight s) m - in_flight m o + tally (in_flight m) left) ->
  (forall m, get0 (kvInFlight s') m = get0 (kvInFlight s) m - reserved m o) ->
  (forall m, get0 (kvLargeInFlight s') m = get0 (kvLargeInFlight s) m - large m o) ->
  (forall m, entries s' m = flat_map (entry m) (os1 ++ left ++ os2)) -> active s' = active s ->
  (forall m, tally (reserved m) left = 0 /\ tally (large m) left = 0 /\ tally (reserving m) left = 0 /\
             tally (capped m) left <= capped m o) ->
  ledger s (os1 ++ o :: os2) -> ledger s' (os1 ++ left ++ os2).
Proof.
  intros E1 E2 E3 E4 E5 Hleft [L1 L2 L3 L4 L5 L6 L7 L8].
  assert (forall f, tally f (os1 ++ left ++ os2) = tally f (os1 ++ o :: os2) - f o + tally f left) as Hf
    by (intros f; tallies; lia).
  split.
  - rewrite E5. exact L1.
  - intros m. by rewrite E1, L2, Hf.
  - intros m. rewrite E2, L3, Hf. destruct (Hleft m) as (-> & _). lia.
  - intros m. rewrite E3, L4, Hf. destruct (Hleft m) as (_ & -> & _). lia.
  - exact E4.
  - intros m. rewrite Hf. specialize (L6 m). destruct (Hleft m) as (_ & _ & _ & ?). lia.
  - intros m H1 H2. rewrite Hf. specialize (L7 m H1 H2). destruct (Hleft m) as (_ & -> & _).
    unfold large at 2, one. case_match; lia.
  - intros m H1. rewrite !Hf. specialize (L8 m H1). destruct (Hleft m) as (-> & _ & -> & _).
    pose proof (reserved_nonneg m o). destruct L8 as [L8|L8]; [left; lia|].
    destruct (decide (reserving m o = 0)) as [Hz|Hz]; [|left].
    + assert (reserved m o = 0) as Hr.
      { revert Hz. unfold reserving, reserved. destruct (on m o && (0 <? tokens o)); done. }
      rewrite Hz. right. lia.
    + assert (tally (reserving m) (os1 ++ os2) = 0) as H0.
      { revert L8 Hz. tallies. unfold reserving at 2 4, one. case_match; lia. }
      assert (tally (reserved m) (os1 ++ os2) = 0) as Hr; [|revert Hr; tallies; lia].
      clear -H0. induction (os1 ++ os2) as [|x os IH]; [done|]. rewrite tally_cons in *.
      assert (0 <= tally (reserving m) os) by (apply tally_nonneg; intros y; unfold reserving, one; case_match; lia).
      assert (0 <= reserving m x) by (unfold reserving, one; case_match; lia).
      rewrite IH by lia. assert (reserving m x = 0) as Hx by lia. revert Hx. unfold reserving, reserved.
      by destruct (on m x && (0 <? tokens x)).
Qed.

Lemma get0_delete_zero (f : gmap string Z) (m : string) : get0 f m = 0 -> forall m', get0 (delete m f) m' = get0 f m'.
Proof.
  intros H0 m'. unfold get0 in *. destruct (decide (m' = m)) as [->|Hne].
  - by rewrite lookup_delete_eq.
  - by rewrite lookup_delete_ne.
Qed.

Lemma tally_bound f g os : (forall o, f o <= g o) -> tally f os <= tally g os.
Proof. intros Hf. induction os as [|o os IH]; [done|]. tallies. specialize (Hf o). lia. Qed.

Lemma in_flight_nonneg m o : 0 <= in_flight m o.
Proof. unfold in_flight, one. case_match; lia. Qed.

Lemma large_nonneg m o : 0 <= large m o.
Proof. unfold large, one. case_match; lia. Qed.

Lemma one_le_tally f o os1 os2 : (forall x, 0 <= f x) -> f o <= tally f (os1 ++ o :: os2).
Proof. intros Hf. tallies. pose proof (tally_nonneg f os1 Hf). pose proof (tally_nonneg f os2 Hf). lia. Qed.

Lemma fetch_mid m o os1 os2 s :
  ledger s (os1 ++ o :: os2) -> o_model o = m ->
  (0 < tokens o -> tokens o <= get0 (kvInFlight s) m) /\
  (largePrefillThreshold <= tokens o -> 1 <= get0 (kvLargeInFlight s) m).
Proof.
  intros Hs Hm. rewrite (l_kv _ _ Hs), (l_large _ _ Hs).
  pose proof (one_le_tally (reserved m) o os1 os2 (reserved_nonneg m)).
  pose proof (one_le_tally (large m) o os1 os2 (large_nonneg m)).
  unfold reserved at 1 in H. unfold large at 1 in H0. unfold on in *.
  rewrite Hm, String.eqb_refl in *. simpl in *. split; intros Hlt.
  - by rewrite (proj2 (Z.ltb_lt _ _) Hlt) in H.
  - by rewrite (proj2 (Z.leb_le _ _) Hlt) in H0.
Qed.

Lemma idle_counters (s : FIFO) m b :
  let wentIdle := get0 (inFlight s) m <=? 0 in
  let s' := if wentIdle then
              let s := set_inFlight s (delete m (inFlight s)) in
              if b : bool then set_idleSince s (<[m := now env s + cooldownDelay cfg]> (idleSince s))
              else match idleSince s !! m with
                   | None => set_idleSince s (<[m := now env s]> (idleSince s))
                   | Some _ => s
                   end
            else s in
  0 <= get0 (inFlight s) m ->
  (forall m', get0 (inFlight s') m' = get0 (inFlight s) m') /\ kvInFlight s' = kvInFlight s /\
  kvLargeInFlight s' = kvLargeInFlight s /\ granted s' = granted s /\ active s' = active s /\
  log s' = log s.
Proof.
  intros wentIdle s' H0. subst s' wentIdle. destruct (Z.leb_spec (get0 (inFlight s) m) 0); [|done].
  assert (forall m', get0 (delete m (inFlight s)) m' = get0 (inFlight s) m') as Hd
    by (apply get0_delete_zero; lia).
  simpl. destruct b; [by split_and!|]. by case_match; split_and!.
Qed.

(** The end of a request takes it off the books; then the queue drains. *)
Lemma books_report ev s o left os1 os2 :
  reports ev o ->
  sv_capReleased ev = o_released o /\ left = [] \/
  sv_capReleased ev = true /\ o_released o = false /\ left = [place o] ->
  identified o (os1 ++ os2) -> ledger s (os1 ++ o :: os2) ->
  exists new, log (OnServeDone cfg env ev s) = log s ++ new /\
    ledger (OnServeDone cfg env ev s) ((os1 ++ left ++ os2) ++ outs_of new).
Proof.
  intros (F1 & F2 & F3 & F4 & F5 & F6) Hleft (i & Hi & Hid) Hs.
  unfold OnServeDone. rewrite F1, F2, F3, F4, F5, F6, Hi.
  set (m := o_model o) in *. cbv zeta. set (s1 := if sv_capReleased ev then s else _).
  assert (forall m', get0 (inFlight s1) m' = get0 (inFlight s) m' - in_flight m' o + tally (in_flight m') left) as E1.
  { subst s1. intros m'. destruct Hleft as [[F7 ->]|(F7 & F8 & ->)]; rewrite F7; tallies;
      unfold in_flight, on; simpl; fold m.
    - destruct (o_released o); simpl; [rewrite andb_false_r; simpl; lia|]. rewrite andb_true_r.
      destruct (String.eqb_spec m m') as [<-|Hne]; simpl;
        [rewrite get0_insert_eq; lia|rewrite get0_insert_ne by done; lia].
    - rewrite F8. simpl. lia. }
  assert (forall m', flat_map (entry m') left = []) as Eleft.
  { intros m'. destruct Hleft as [[_ ->]|(_ & _ & ->)]; [done|]. simpl. unfold entry. by case_match. }
  assert (forall m', 0 <= tally (in_flight m') left) as Pleft
    by (intros m'; apply tally_nonneg, in_flight_nonneg).
  assert (kvInFlight s1 = kvInFlight s /\ kvLargeInFlight s1 = kvLargeInFlight s /\
          granted s1 = granted s /\ active s1 = active s /\ log s1 = log s) as (K1 & K2 & K3 & K4 & K5)
    by (subst s1; by destruct (sv_capReleased ev)).
  clearbody s1. set (s2 := dropGranted s1 m (Some i)).
  destruct (dropGranted_other s1 m (Some i)) as (D1 & D2 & D3 & D4 & D5). fold s2 in D1, D2, D3, D4, D5.
  assert (forall m', entries s2 m' = flat_map (entry m') (os1 ++ left ++ os2)) as D6.
  { intros m'. rewrite (flat_map_app _ os1), (flat_map_app _ left), Eleft. simpl. rewrite <- flat_map_app. subst s2. rewrite dropGranted_entries.
    assert (entries s1 m' = flat_map (entry m') (os1 ++ o :: os2)) as ->
      by (rewrite <- (l_granted _ _ Hs); unfold entries; by rewrite K3).
    case_decide as Hm; [subst m'; by apply (drop_id_entries i o)|].
    rewrite !flat_map_app. simpl. unfold entry at 2, on. fold m.
    rewrite (proj2 (String.eqb_neq m m')) by done. done. }
  clearbody s2.
  assert (0 <= get0 (inFlight s2) m) as Hpos.
  { rewrite D1, E1, (l_inFlight _ _ Hs). tallies. specialize (Pleft m).
    pose proof (tally_nonneg _ os1 (in_flight_nonneg m)). pose proof (tally_nonneg _ os2 (in_flight_nonneg m)). lia. }
  destruct (idle_counters s2 m (negb (sv_looping ev)) Hpos) as (I1 & I2 & I3 & I4 & I5 & I6).
  set (s3 := if get0 (inFlight s2) m <=? 0 then _ else s2) in *. clearbody s3.
  destruct (fetch_mid m o os1 os2 s Hs eq_refl) as [Hkv Hlarge].
  pose proof (releaseKV_counters s3 m (EstimatedTokens (o_req o)) (Ctx (o_req o))) as R.
  rewrite I2, I3, D2, D3, K1, K2 in R. specialize (R Hkv Hlarge).
  destruct (releaseKV_other s3 m (EstimatedTokens (o_req o)) (Ctx (o_req o))) as (R1 & R2 & R3 & R4).
  destruct (releaseKV s3 m _ _) as [rel s4]. simpl in R, R1, R2, R3, R4.
  destruct (kvWarmOnDone_residents cfg env s4 ev) as [x Hx]. rewrite Hx.
  set (s5 := publish cfg env (set_kvResidents s4 x)).
  assert (log s5 = log s) as L5 by (simpl; congruence).
  assert (ledger s5 (os1 ++ left ++ os2)) as H5.
  { apply (ledger_replace s _ o); [..|exact Hs].
    - intros m'. simpl. by rewrite R1, I1, D1, E1.
    - intros m'. simpl. rewrite (proj1 (R m')). unfold reserved, on, tokens. by fold m.
    - intros m'. simpl. rewrite (proj2 (R m')). unfold large, on, tokens. by fold m.
    - intros m'. rewrite <- D6. unfold entries. simpl. by rewrite R2, I4.
    - simpl. congruence.
    - intros m'. destruct Hleft as [[_ ->]|(_ & F8 & ->)]; tallies.
      + split_and!; [done..|]. unfold capped, one. case_match; lia.
      + unfold reserved, large, reserving, tokens, capped, largePrefillThreshold. simpl. rewrite F8.
        change (8192 <=? 0) with false. change (0 <? 0) with false. rewrite !andb_false_r. simpl. split_and!; [done..|].
        change (on m' (place o)) with (on m' o). lia. }
  match goal with |- context [if ?b then _ else _] => destruct b end.
  - destruct (books_drain s5) as (new & El & Hb). exists new. rewrite El, L5. split; [done|]. by apply Hb.
  - exists []. rewrite L5, !app_nil_r. done.
Qed.

(** The early release of a slot ([releaseCapOnce] in base.go). *)
Definition releases (ev : ServeDoneEvent) (o : out) : Prop :=
  sv_statusRead ev = false /\ sv_capReleaseOnly ev = true /\ sv_model ev = o_model o /\
  o_released o = false.

Definition release (o : out) : out := mkOut (o_req o) (o_model o) true.

Lemma books_release ev s o os1 os2 :
  releases ev o -> ledger s (os1 ++ o :: os2) ->
  exists new, log (OnServeDone cfg env ev s) = log s ++ new /\
    ledger (OnServeDone cfg env ev s) ((os1 ++ release o :: os2) ++ outs_of new).
Proof.
  intros (F1 & F2 & F3 & F4) Hs. unfold OnServeDone. rewrite F1, F2, F3. cbv zeta.
  set (m := o_model o) in *.
  assert (forall m', in_flight m' o = one (String.eqb m m')) as Ho
    by (intros m'; unfold in_flight, on; by rewrite F4, andb_true_r).
  pose proof (one_le_tally (in_flight m) o os1 os2 (in_flight_nonneg m)) as H1.
  rewrite Ho, String.eqb_refl, <- (l_inFlight _ _ Hs) in H1. simpl in H1.
  assert (0 <? get0 (inFlight s) m = true) as -> by lia.
  set (s1 := publishCapacity cfg _).
  assert (ledger s1 (os1 ++ release o :: os2)) as H2.
  { assert (forall f, tally f (os1 ++ release o :: os2) = tally f (os1 ++ o :: os2) + (f (release o) - f o)) as Hf
      by (intros f; tallies; lia).
    destruct Hs as [L1 L2 L3 L4 L5 L6 L7 L8]. split.
    - exact L1.
    - intros m'. simpl. rewrite Hf, <- L2, Ho. unfold in_flight at 1, on. simpl. rewrite andb_false_r. simpl.
      destruct (String.eqb_spec m m') as [<-|Hne]; simpl;
        [rewrite get0_insert_eq|rewrite get0_insert_ne by done]; lia.
    - intros m'. rewrite Hf. change (reserved m' (release o)) with (reserved m' o).
      etransitivity; [apply L3|lia].
    - intros m'. rewrite Hf. change (large m' (release o)) with (large m' o).
      etransitivity; [apply L4|lia].
    - intros m'. etransitivity; [apply L5|]. by rewrite !flat_map_app.
    - intros m'. rewrite Hf. specialize (L6 m'). unfold capped at 2. simpl. rewrite andb_false_r. simpl.
      unfold capped at 2, one. case_match; lia.
    - intros m'. rewrite Hf. change (large m' (release o)) with (large m' o). specialize (L7 m'). lia.
    - intros m'. rewrite !Hf. change (reserved m' (release o)) with (reserved m' o).
      change (reserving m' (release o)) with (reserving m' o). specialize (L8 m'). lia. }
  destruct (books_drain s1) as (new & El & Hb). exists new. split; [exact El|]. by apply Hb.
Qed.

End env.

Lemma ledger_forget s o os1 os2 : spent o -> ledger s (os1 ++ o :: os2) -> ledger s (os1 ++ os2).
Proof.
  intros (F1 & F2 & F3) Hs. change (os1 ++ os2) with (os1 ++ [] ++ os2).
  assert (forall m, in_flight m o = 0 /\ reserved m o = 0 /\ large m o = 0 /\ capped m o = 0 /\ entry m o = []) as H0.
  { intros m. unfold in_flight, reserved, large, capped, entry, largePrefillThreshold. rewrite F1, F3, !andb_false_r.
    assert (0 <? tokens o = false) as -> by lia. assert (8192 <=? tokens o = false) as -> by lia.
    rewrite !andb_false_r. simpl. split_and!; [done..|]. by case_match. }
  apply (ledger_replace s s o [] os1 os2); [..|exact Hs]; try (intros m; destruct (H0 m) as (E1 & E2 & E3 & E4 & E5)).
  - rewrite E1, tally_nil. lia.
  - rewrite E2. lia.
  - rewrite E3. lia.
  - etransitivity; [apply (l_granted _ _ Hs)|]. rewrite !flat_map_app. simpl. by rewrite E5.
  - done.
  - rewrite !tally_nil, E4. split_and!; lia.
Qed.

(** *** Runs that end every request once *)

(** A run of the scheduler with the list of the requests being served: every
    end and every early release is reported for one of them, with the request's
    own estimate and identity, as the router does.  The two reports of one
    request may arrive in either order. *)
Inductive lawful : FIFO -> list out -> Prop :=
| law_new : lawful NewFIFO []
| law_event env ev s os :
    lawful s os -> (forall sv, ev <> ServeDoneE sv) ->
    lawful (step cfg env ev s) (os ++ outs_of (drop (length (log s)) (log (step cfg env ev s))))
| law_status env ev s os :
    lawful s os -> sv_statusRead ev = true -> lawful (OnServeDone cfg env ev s) os
| law_finish env ev s o os1 os2 :
    lawful s (os1 ++ o :: os2) -> finishes ev o -> identified o (os1 ++ os2) ->
    lawful (OnServeDone cfg env ev s)
      ((os1 ++ os2) ++ outs_of (drop (length (log s)) (log (OnServeDone cfg env ev s))))
| law_overtake env ev s o os1 os2 :
    lawful s (os1 ++ o :: os2) -> overtakes ev o -> identified o (os1 ++ os2) ->
    lawful (OnServeDone cfg env ev s)
      ((os1 ++ place o :: os2) ++ outs_of (drop (length (log s)) (log (OnServeDone cfg env ev s))))
| law_release env ev s o os1 os2 :
    lawful s (os1 ++ o :: os2) -> releases ev o ->
    lawful (OnServeDone cfg env ev s)
      ((os1 ++ release o :: os2) ++ outs_of (drop (length (log s)) (log (OnServeDone cfg env ev s))))
| law_forget s o os1 os2 : lawful s (os1 ++ o :: os2) -> spent o -> lawful s (os1 ++ os2).

Lemma new_log (l new k : list Effect) : k = l ++ new -> drop (length l) k = new.
Proof. intros ->. by rewrite drop_app_length. Qed.

Lemma lawful_ledger s os : lawful s os -> ledger s os.
Proof.
  induction 1 as [|env ev s os _ IH Hev|env ev s os _ IH Hst|env ev s o os1 os2 _ IH [Hf1 Hf2] Hi
    |env ev s o os1 os2 _ IH (Hf1 & Hf2 & Hf3) Hi|env ev s o os1 os2 _ IH Hr|s o os1 os2 _ IH Hsp].
  - split; try done; intros m; rewrite ?tally_nil; [lia|lia|left; lia].
  - destruct (books_step env ev s Hev) as (new & El & Hb). rewrite (new_log _ _ _ El). by apply Hb.
  - unfold OnServeDone. by rewrite Hst.
  - destruct (books_report env ev s o [] os1 os2 Hf1 (or_introl (conj Hf2 eq_refl)) Hi IH) as (new & El & Hb).
    by rewrite (new_log _ _ _ El).
  - destruct (books_report env ev s o [place o] os1 os2 Hf1 (or_intror (conj Hf2 (conj Hf3 eq_refl))) Hi IH)
      as (new & El & Hb).
    by rewrite (new_log _ _ _ El).
  - destruct (books_release env ev s o os1 os2 Hr IH) as (new & El & Hb). by rewrite (new_log _ _ _ El).
  - by eapply ledger_forget.
Qed.

End books.

(** C3. On every lawful run the books are exact: a model's in-flight count is
    the number of its requests being served whose slot was not given back early
    (a request that ended while the release of its slot was on its way still
    counts), its KV reservation is the sum of their token estimates, its
    large-prefill count is the number of those at or above the threshold, and
    its list of preemptable grants holds exactly the preemptable ones among
    them, in grant order.  Nothing leaks and nothing is released twice. *)
Theorem books_exact {planner : Swapper} (cfg : Settings) (s : FIFO) (os : list out)
    (Hs : lawful cfg s os) (m : string) :
  get0 (inFlight s) m = tally (in_flight m) os /\
  get0 (kvInFlight s) m = tally (reserved m) os /\
  get0 (kvLargeInFlight s) m = tally (large m) os /\
  default [] (granted s !! m) = flat_map (entry m) os.
Proof. destruct (lawful_ledger cfg s os Hs) as [_ L2 L3 L4 L5 _ _ _].
  split_and!; [apply L2|apply L3|apply L4|apply L5].
Qed.

(** C4. On every lawful run the admission rules hold: the requests that count
    against a model's concurrency limit never exceed it; a model with a KV pool
    never serves more large prefills than its cap, and the estimates of what it
    serves stay within the pool unless a single request holds them all. *)
Theorem admission_bounds {planner : Swapper} (cfg : Settings) (s : FIFO) (os : list out)
    (Hs : lawful cfg s os) (m : string) :
  tally (capped m) os <= Z.max 0 (limit cfg m) /\
  (0 < get0 (KVPoolTokens cfg) m ->
     (0 < maxLargeFor cfg m -> tally (large m) os <= maxLargeFor cfg m) /\
     (tally (reserved m) os <= get0 (KVPoolTokens cfg) m \/ tally (reserving m) os = 1)).
Proof. destruct (lawful_ledger cfg s os Hs) as [_ _ _ _ _ L6 L7 L8].
  split; [apply L6|intros Hp; split; [apply L7, Hp|apply L8, Hp]].
Qed.

(** Two turns on [coder], the first gives its slot back early, a third starts
    in it, the second ends; a [chat] request waits for the model. *)
Import SchedExample.

Definition ex_release (id : nat) (model session : string) (tokens : Z) (tier : Tier) : ServeDoneEvent :=
  mkServeDone model false false tokens (Some id) session tier false false (Some id) true false.

Definition lawful_run : FIFO := run
  [ (ex_env ["coder"%string] 100, Request (ex_req 1 "coder" "s1" 9000 normal));
    (ex_env ["coder"%string] 101, Request (ex_req 2 "coder" "s2" 100 normal));
    (ex_env ["coder"%string] 102, ServeDoneE (ex_release 1 "coder" "s1" 9000 normal));
    (ex_env ["coder"%string] 103, Request (ex_req 3 "coder" "s3" 300 normal));
    (ex_env ["coder"%string] 104, Request (ex_req 4 "chat" "s4" 100 normal));
    (ex_env ["coder"%string] 105, ServeDoneE (ex_done 2 "coder" "s2" 100 normal)) ].

Definition ex_out (id : nat) (session : string) (tokens : Z) (seq : Z) (released : bool) : out :=
  mkOut (set_seq (ex_req id "coder" session tokens normal) seq) "coder" released.

Lemma lawful_as {planner : Swapper} cfg s os os' : lawful cfg s os -> os = os' -> lawful cfg s os'.
Proof. by intros H <-. Qed.

Lemma lawful_request env req s os os' :
  lawful (planner := ex_planner) ex_cfg s os ->
  os ++ outs_of (drop (length (log s)) (log (step (planner := ex_planner) ex_cfg env (Request req) s))) = os' ->
  lawful (planner := ex_planner) ex_cfg (step (planner := ex_planner) ex_cfg env (Request req) s) os'.
Proof. intros Hs <-. apply (law_event ex_cfg env (Request req)); [done|by intros]. Qed.

Lemma lawful_run_lawful :
  lawful (planner := ex_planner) ex_cfg lawful_run [ex_out 1 "s1" 9000 1 true; ex_out 3 "s3" 300 3 false].
Proof.
  unfold lawful_run, run. cbn [foldl fst snd].
  eapply lawful_as; [eapply (law_finish _ _ _ _ (ex_out 2 "s2" 100 2 false)
    [ex_out 1 "s1" 9000 1 true] [ex_out 3 "s3" 300 3 false]); [|by repeat split|]|vm_compute; reflexivity].
  - set (os := [ex_out 1 "s1" 9000 1 true; ex_out 2 "s2" 100 2 false; ex_out 3 "s3" 300 3 false]).
    apply (lawful_request _ _ _ os); [|vm_compute; reflexivity].
    apply (lawful_request _ _ _ [ex_out 1 "s1" 9000 1 true; ex_out 2 "s2" 100 2 false]);
      [|vm_compute; reflexivity].
    eapply lawful_as; [apply (law_release _ _ _ _ (ex_out 1 "s1" 9000 1 false) [] [ex_out 2 "s2" 100 2 false]);
      [|by repeat split]|vm_compute; reflexivity].
    apply (lawful_request _ _ _ [ex_out 1 "s1" 9000 1 false]); [|vm_compute; reflexivity].
    apply (lawful_request _ _ _ []); [apply law_new|vm_compute; reflexivity].
  - exists 2%nat. split; [reflexivity|]. intros o' Ho'.
    apply elem_of_cons in Ho' as [->|Ho']; [discriminate|].
    apply list_elem_of_singleton in Ho' as ->. discriminate.
Qed.

Lemma books_exact_witness :
  get0 (inFlight lawful_run) "coder" = 1 /\ get0 (kvInFlight lawful_run) "coder" = 9300.
Proof.
  destruct (books_exact ex_cfg lawful_run _ lawful_run_lawful "coder") as (-> & -> & _ & _).
  vm_compute. split; reflexivity.
Defined.

Lemma admission_bounds_witness :
  tally (large "coder") [ex_out 1 "s1" 9000 1 true; ex_out 3 "s3" 300 3 false] = 1 /\
  tally (large "coder") [ex_out 1 "s1" 9000 1 true; ex_out 3 "s3" 300 3 false] <= maxLargeFor ex_cfg "coder".
Proof.
  split; [vm_compute; reflexivity|].
  destruct (admission_bounds ex_cfg lawful_run _ lawful_run_lawful "coder") as [_ H].
  apply H; vm_compute; reflexivity.
Defined.
End FifoBooks.
