(* ===== verification/FifoSpec.v ===== *)
(** Preemption and the slot cooldown, stated as specifications: which grants an
    arrival cuts short, when a cooling slot blocks a request, and what a grant
    displaces. *)

From S2P Require Import Prelude Tier Swappers SchedTypes KvWarm Grace Fifo FifoBase SchedExample.

Module FifoSpec.
Import Tier Swapper Sched KvWarm Grace Fifo FifoBase.

(** *** Preemption *)

(** The grants on the models [evict], model by model, oldest first. *)
Definition victims (s : FIFO) (evict : list string) : list grantedReq :=
  flat_map (fun m => default [] (granted s !! m)) evict.

Definition eligible (t : Tier) (vs : list grantedReq) : list grantedReq :=
  List.filter (fun v => CanPreempt (g_tier v) t) vs.

(** The first [limit] of them, all of them when [limit] is 0. *)
Definition first_few (limit : Z) (vs : list grantedReq) : list grantedReq :=
  if 0 <? limit then take (Z.to_nat limit) vs else vs.

Definition cuts (vs : list grantedReq) : list Effect := map (fun v => EPreempt (g_preempt v)) vs.

Section preempt.
Variable limit : Z.
Variable t : Tier.

(** What is left of the limit. *)
Definition rest (booted : Z) (vs : list grantedReq) : list grantedReq :=
  if 0 <? limit then take (Z.to_nat (limit - booted)) vs else vs.

Lemma rest_nil booted : rest booted [] = [].
Proof. unfold rest. by case_match; rewrite ?take_nil. Qed.

Lemma rest_full booted vs : 0 < limit -> limit <= booted -> rest booted vs = [].
Proof.
  intros H1 H2. unfold rest. rewrite (proj2 (Z.ltb_lt _ _) H1).
  by replace (Z.to_nat (limit - booted)) with 0%nat by lia.
Qed.

Lemma rest_cons booted v vs :
  ~ (0 < limit /\ limit <= booted) -> rest booted (v :: vs) = v :: rest (booted + 1) vs.
Proof.
  intros Hn. unfold rest. destruct (Z.ltb_spec 0 limit); [|done].
  by replace (Z.to_nat (limit - booted)) with (S (Z.to_nat (limit - (booted + 1)))) by lia.
Qed.

Lemma emit_app s l e : emit e (set_log s (log s ++ l)) = set_log s (log s ++ (l ++ [e])).
Proof. unfold emit. simpl. by rewrite <- app_assoc. Qed.

Lemma boot_spec vs booted s :
  0 <= booted ->
  let '(stop, booted', s') := boot limit t vs booted s in
  let done := rest booted (eligible t vs) in
  s' = set_log s (log s ++ cuts done) /\ booted' = booted + Z.of_nat (length done) /\
  (if stop : bool then 0 < limit /\ limit <= booted' else True).
Proof.
  revert booted s. induction vs as [|v vs IH]; intros booted s Hb; simpl.
  { rewrite rest_nil. simpl. rewrite app_nil_r, set_log_log. split_and!; [done|lia|done]. }
  destruct (Z.ltb_spec 0 limit) as [Hl|Hl], (Z.leb_spec limit booted) as [Hf|Hf]; simpl.
  { rewrite rest_full by done. simpl. rewrite app_nil_r, set_log_log. split_and!; [done|lia|done|done]. }
  all: destruct (CanPreempt (g_tier v) t); [|by apply IH].
  all: rewrite rest_cons by lia;
    specialize (IH (booted + 1) (emit (EPreempt (g_preempt v)) s) ltac:(lia));
    destruct (boot _ _ _ _ _) as [[stop b'] s']; destruct IH as (-> & -> & Hs); simpl;
    rewrite <- app_assoc; split_and!; [done|lia|exact Hs].
Qed.

Lemma rest_app booted xs ys :
  rest booted (xs ++ ys) = rest booted xs ++ rest (booted + Z.of_nat (length (rest booted xs))) ys.
Proof.
  unfold rest. destruct (Z.ltb_spec 0 limit); [|done]. rewrite take_app. f_equal.
  rewrite length_take. destruct (Nat.le_gt_cases (Z.to_nat (limit - booted)) (length xs)).
  - rewrite Nat.min_l by done. replace (Z.to_nat (limit - booted) - length xs)%nat with 0%nat by lia.
    replace (Z.to_nat (limit - (booted + Z.of_nat (Z.to_nat (limit - booted))))) with 0%nat by lia. done.
  - rewrite Nat.min_r by lia. f_equal. lia.
Qed.

Lemma boot_models_spec evict booted s :
  0 <= booted ->
  let r := boot_models limit t evict booted s in
  let done := rest booted (eligible t (victims s evict)) in
  r.2 = set_log s (log s ++ cuts done) /\ r.1 = (0 <? booted + Z.of_nat (length done)).
Proof.
  revert booted s. induction evict as [|m evict IH]; intros booted s Hb; simpl.
  { rewrite rest_nil. simpl. rewrite app_nil_r, set_log_log, Z.add_0_r. done. }
  pose proof (boot_spec (default [] (granted s !! m)) booted s Hb) as Hm.
  assert (eligible t (victims s (m :: evict)) = eligible t (default [] (granted s !! m)) ++ eligible t (victims s evict)) as E
    by (unfold eligible, victims; simpl; apply List.filter_app).
  destruct (boot _ _ _ _ s) as [[stop b'] s1] eqn:Hboot. destruct Hm as (-> & -> & Hstop).
  change (flat_map _ evict) with (victims s evict). change (default [] (granted s !! m) ++ victims s evict)
    with (victims s (m :: evict)). rewrite E, rest_app.
  set (d1 := rest booted (eligible t (default [] (granted s !! m)))) in *.
  destruct stop.
  - destruct Hstop as [Hl Hf]. rewrite (rest_full (booted + _)) by done. rewrite app_nil_r. simpl.
    split; [done|]. symmetry. apply Z.ltb_lt. lia.
  - destruct (IH (booted + Z.of_nat (length d1)) (set_log s (log s ++ cuts d1))) as [IH1 IH2]; [lia|].
    simpl in *. change (victims (set_log s (log s ++ cuts d1)) evict) with (victims s evict) in *.
    rewrite IH1, IH2. unfold cuts. rewrite map_app, length_app, app_assoc. split; [done|f_equal; lia].
Qed.
End preempt.

(** Preemption cuts exactly the grants it may: among the grants on the
    models in the way, in order, those whose tier the arrival may preempt - a
    strictly lower rank, and preemptible itself or met by a preempting arrival -
    and no more than [limit] of them unless [limit] is 0; it reports whether it
    cut any, and changes nothing else. *)
Theorem tryPreempt_correct (req : HandlerReq) (evict : list string) (limit : Z) (s : FIFO) :
  let cut := first_few limit (eligible (ReqTier req) (victims s evict)) in
  tryPreempt req evict limit s = (negb (bool_decide (cut = [])), set_log s (log s ++ cuts cut)) /\
  (forall v, v ∈ cut -> Rank (g_tier v) < rank req /\
     (Preemptible (g_tier v) = true \/ Preempts (ReqTier req) = true)).
Proof.
  intros cut. unfold tryPreempt.
  pose proof (boot_models_spec limit (ReqTier req) evict 0 s ltac:(lia)) as [H1 H2]. cbv zeta in H1, H2.
  assert (rest limit 0 (eligible (ReqTier req) (victims s evict)) = cut) as E
    by (unfold rest, cut, first_few; by rewrite Z.sub_0_r).
  rewrite E in H1, H2. split.
  - rewrite (surjective_pairing (boot_models _ _ _ _ _)), H1, H2. f_equal. by destruct cut.
  - intros v Hv. assert (v ∈ eligible (ReqTier req) (victims s evict)) as [_ Hc]%elem_of_filterb.
    { revert Hv. unfold cut, first_few. case_match; [|done]. intros Hv.
      apply list_elem_of_lookup in Hv as [i Hi]. apply lookup_take_Some in Hi as [Hi _].
      by eapply list_elem_of_lookup_2. }
    unfold CanPreempt in Hc. unfold rank. destruct (Z.leb_spec (Rank (ReqTier req)) (Rank (g_tier v))); [done|].
    apply orb_true_iff in Hc. split; [lia|done].
Qed.

(** *** The slot cooldown *)

(** The cooling residencies [req] has no claim on. *)
Definition in_the_way (env : Env) (s : FIFO) (req : HandlerReq) : list kvResident :=
  List.filter (holds_against req (now env s)) (kvWarmSorted s (Model req)).

Definition largest (b : option kvResident) (c : list kvResident) : Prop :=
  match b with
  | None => c = []
  | Some b => b ∈ c /\ forall r, r ∈ c -> r_tokens r <= r_tokens b
  end.

Lemma scan_spec req now rs acc c0 :
  cooling acc = Z.of_nat (length c0) -> warm acc = sumZ (map r_tokens c0) -> largest (blocker acc) c0 ->
  let acc' := foldl (scan_step req now) acc rs in
  let c := c0 ++ List.filter (holds_against req now) rs in
  cooling acc' = Z.of_nat (length c) /\ warm acc' = sumZ (map r_tokens c) /\ largest (blocker acc') c.
Proof.
  revert acc c0. induction rs as [|r rs IH]; intros acc c0 H1 H2 H3; simpl.
  { by rewrite app_nil_r. }
  unfold scan_step at 2 4 6. destruct (holds_against req now r); [|by apply IH].
  change (r :: List.filter (holds_against req now) rs) with ([r] ++ List.filter (holds_against req now) rs).
  rewrite app_assoc. apply IH; simpl.
  - rewrite length_app. simpl. lia.
  - rewrite map_app, sumZ_app. simpl. lia.
  - destruct (blocker acc) as [b|]; simpl in H3.
    + destruct H3 as [Hb Hmax]. destruct (Z.ltb_spec (r_tokens b) (r_tokens r)); simpl.
      * split; [apply elem_of_app; right; by apply list_elem_of_singleton|].
        intros x [Hx|Hx%list_elem_of_singleton]%elem_of_app; [specialize (Hmax x Hx); lia|by subst x].
      * split; [by apply elem_of_app; left|].
        intros x [Hx|Hx%list_elem_of_singleton]%elem_of_app; [by apply Hmax|by subst x].
    + subst c0. simpl. split; [by apply list_elem_of_singleton|]. intros x ->%list_elem_of_singleton. done.
Qed.

(** The slot cooldown holds a request back exactly when it must: never an
    exempt one or a status read, and otherwise only when some other session's
    slot is cooling against it and either the model's KV pool cannot hold what
    is running, what is cooling and the newcomer, or its slots are all running
    or cooling.  The residency it reports is the largest of those in the way. *)
Theorem kvWarmBlocker_correct (cfg : Settings) (env : Env) (s : FIFO) (req : HandlerReq) :
  let c := in_the_way env s req in
  let pool := get0 (KVPoolTokens cfg) (Model req) in
  let slots := get0 (slotCount cfg) (Model req) in
  (kvWarmBlocker cfg env s req = None <->
     StatusRead req = true \/ ConcurrencyExempt req = true \/ c = [] \/
     ((0 < pool -> get0 (kvInFlight s) (Model req) + sumZ (map r_tokens c) + EstimatedTokens req <= pool) /\
      (0 < slots -> get0 (inFlight s) (Model req) + Z.of_nat (length c) < slots))) /\
  (forall b, kvWarmBlocker cfg env s req = Some b ->
     b ∈ c /\ forall r, r ∈ c -> r_tokens r <= r_tokens b).
Proof.
  intros c pool slots. unfold kvWarmBlocker. destruct (StatusRead req); simpl; [split; [split; [by auto|done]|done]|].
  destruct (ConcurrencyExempt req); simpl; [split; [split; [by auto|done]|done]|].
  destruct (scan_spec req (now env s) (kvWarmSorted s (Model req)) (mkScan 0 0 None) []) as (-> & -> & Hb);
    [done..|]. fold pool slots. simpl in Hb |- *.
  change (List.filter _ _) with c in *. destruct (blocker _) as [b|]; simpl in Hb.
  - assert (c <> []) as Hne by (intros E; rewrite E in Hb; by destruct Hb as [?%elem_of_nil _]).
    destruct (Z.ltb_spec 0 pool) as [Hp|Hp], (Z.ltb_spec pool (get0 (kvInFlight s) (Model req) +
      sumZ (map r_tokens c) + EstimatedTokens req)) as [Hf|Hf]; simpl.
    1: { split; [|by intros x [= <-]]. split; [done|]. intros [?|[?|[?|[H _]]]]; try done. specialize (H Hp). lia. }
    all: destruct (Z.ltb_spec 0 slots) as [Hs|Hs], (Z.leb_spec slots (get0 (inFlight s) (Model req) +
      Z.of_nat (length c))) as [Hn|Hn]; simpl; (split; [|by intros x [= <-]]); (split; [intros E|]).
    all: try done.
    all: try (right; right; right; split; lia).
    all: intros [?|[?|[?|[_ H]]]]; try done; specialize (H Hs); lia.
  - subst c. rewrite Hb. split; [|done]. split; [by auto|done].
Qed.

(** *** Displacement *)

(** A grant over a full set of slots drops the longest idle residency first, so
    it can drop one that is still cooling and keep one whose cooldown was
    ended.  Session [s1] finishes on [coder], then [s2] does; the cooldown of
    [s2] is ended by hand, and [s3] is granted. *)
Import SchedExample.

Definition cooled : FIFO := run
  [ (ex_env ["coder"%string] 100, Request (ex_req 1 "coder" "s1" 100 normal));
    (ex_env ["coder"%string] 110, ServeDoneE (ex_done 1 "coder" "s1" 100 normal));
    (ex_env ["coder"%string] 111, Request (ex_req 2 "coder" "s2" 100 normal));
    (ex_env ["coder"%string] 120, ServeDoneE (ex_done 2 "coder" "s2" 100 normal));
    (ex_env ["coder"%string] 121, EndSlot "s2") ].

Definition displaced : FIFO := step (planner := ex_planner) ex_cfg (ex_env ["coder"%string] 122)
  (Request (ex_req 3 "coder" "s3" 100 normal)) cooled.

Definition is_cooling (t : Z) (s : FIFO) (session : string) : option bool :=
  (fun r => kvWarmCooling r (t * nsec_second)) <$> residents s "coder" !! session.

(** Displacement goes by age, not by cooldown: in this run the new grant
    forgets [s1], whose slot is still cooling, and keeps [s2], whose cooldown
    is over. *)
Theorem displacement_drops_cooling :
  is_cooling 122 cooled "s1" = Some true /\ is_cooling 122 cooled "s2" = Some false /\
  is_cooling 122 displaced "s1" = None /\ is_cooling 122 displaced "s2" = Some false /\
  is_cooling 122 displaced "s3" = Some false /\ get0 (inFlight displaced) "coder" = 1.
Proof. vm_compute. repeat split; reflexivity. Qed.

End FifoSpec.
