(* ===== verification/FifoLive.v ===== *)
(** Progress: once nothing runs, nothing swaps and the cooldowns are over or
    finished by hand, a tick serves the head of the queue or starts its swap. *)

From S2P Require Import Prelude Tier Swappers SchedTypes KvWarm Grace Fifo FifoBase FifoDecide FifoConserve FifoSafety SchedExample.

Module FifoLive.
Import Tier Swapper Sched KvWarm Grace Fifo FifoBase FifoDecide FifoConserve.

Section live.
Context {planner : Swapper}.
Variable cfg : Settings.
Variable env : Env.

(** The log only grows, and a waiter of a swap stays with it. *)
Definition onward (s s' : FIFO) : Prop :=
  (exists l, log s' = log s ++ l) /\
  forall m sw r, active s !! m = Some sw -> r ∈ waiters sw ->
    exists sw', active s' !! m = Some sw' /\ r ∈ waiters sw'.

Lemma onward_refl s : onward s s.
Proof. split; [exists []; by rewrite app_nil_r|eauto]. Qed.

Lemma onward_trans s1 s2 s3 : onward s1 s2 -> onward s2 s3 -> onward s1 s3.
Proof.
  intros [(l1 & L1) H1] [(l2 & L2) H2]. split; [exists (l1 ++ l2); by rewrite L2, L1, app_assoc|].
  intros m sw r Hm Hr. destruct (H1 m sw r Hm Hr) as (sw' & Hm' & Hr'). by eapply H2.
Qed.

Lemma onward_same s s' l : active s' = active s -> log s' = log s ++ l -> onward s s'.
Proof. intros Ha Hl. split; [by exists l|]. rewrite Ha. eauto. Qed.

Lemma onward_quiet s s' : quiet s s' -> onward s s'.
Proof. intros (l & -> & _). by apply (onward_same _ _ l). Qed.

Lemma onward_insert s s' m sw l :
  active s' = <[m := sw]> (active s) -> log s' = log s ++ l ->
  (forall sw0 r, active s !! m = Some sw0 -> r ∈ waiters sw0 -> r ∈ waiters sw) -> onward s s'.
Proof.
  intros Ha Hl Hw. split; [by exists l|]. intros m' sw' r Hm' Hr. rewrite Ha.
  destruct (decide (m' = m)) as [->|Hne].
  - exists sw. rewrite lookup_insert_eq. split; [done|by eapply Hw].
  - exists sw'. by rewrite lookup_insert_ne.
Qed.

Lemma onward_grant req m s : onward s (grantHandler cfg env req m s).
Proof.
  destruct (grantHandler_frame cfg env req m s) as [Ha _ _ _ _ _ _].
  destruct (grantHandler_log cfg env req m s) as (r & l & ok & _ & _ & Hl). by eapply onward_same.
Qed.

Lemma onward_outcome s req state s' stuck : outcome cfg env s req state s' stuck -> onward s s'.
Proof.
  intros [req' s1 _ Hq|sw req' s1 Hact Hr (l & -> & _)|_ _ _ _ _ _ _|req' s1 s2 Hact _ _ _ Hdef Hr (l & -> & _)].
  - by apply onward_quiet.
  - apply (onward_insert s _ (Model req') (mkSwap (sw_modelID sw) (sw_evict sw) (waiters sw ++ [req'])) l); [done..|].
    intros sw0 r. rewrite (unstamped (f := Model) _ _ Hr), Hact. intros [= <-] Hin.
    apply elem_of_app. by left.
  - apply onward_grant.
  - destruct (deferredByGrace_state cfg env req (plan_for env s req) s) as [E|E];
      rewrite Hdef in E; simpl in E; subst s1.
    all: eapply (onward_insert s _ (Model req'));
      [reflexivity|simpl; rewrite <- !app_assoc; reflexivity|
       rewrite (unstamped (f := Model) _ _ Hr), Hact; done].
Qed.

Lemma onward_step d req : onward (d_fifo d) (d_fifo (drain_step cfg env d req)).
Proof.
  rewrite drain_step_decide. destruct (barred d req).
  { destruct (markParked_stamps env req ParkRank (d_fifo d)) as [_ Hq].
    destruct (markParked env req ParkRank (d_fifo d)). by apply onward_quiet. }
  destruct (ModelState env (d_fifo d) (Model req)) as [state|];
    [|by apply (onward_same _ _ [EGrantError req ErrModelNotFound])].
  pose proof (onward_outcome _ _ _ _ _ (decide_outcome cfg env (d_fifo d) req state)) as Ho.
  by destruct (decide_on cfg env (d_fifo d) req state) as [s' [r|]].
Qed.

Lemma onward_fold qs d : onward (d_fifo d) (d_fifo (foldl (drain_step cfg env) d qs)).
Proof.
  revert d. induction qs as [|q qs IH]; intros d; simpl; [apply onward_refl|].
  eapply onward_trans; [apply onward_step|apply IH].
Qed.

Lemma drain_tail s d :
  d_fifo d = s ->
  onward s (publish cfg env (broadcastQueuePositions (kvWarmPrune env (set_queued (d_fifo d) (d_remaining d))))).
Proof.
  intros <-. unfold broadcastQueuePositions. simpl.
  destruct (d_remaining d) as [|q qs]; [by apply (onward_same _ _ []); simpl; rewrite ?app_nil_r|].
  by eapply onward_same.
Qed.

(** *** The head of the queue *)

(** [req] is being served or its model is being loaded for it. *)
Definition served (s s' : FIFO) (req : HandlerReq) : Prop :=
  exists l, log s' = log s ++ l /\ exists r, stamped req r /\
    ((exists ok, EGrantServe r (Model req) ok ∈ l) \/
     (EStartSwap (Model req) (plan_for env s req) ∈ l /\
      exists sw, active s' !! Model req = Some sw /\ r ∈ waiters sw)).

Lemma served_onward s s1 s2 req : served s s1 req -> onward s1 s2 -> served s s2 req.
Proof.
  intros (l & L & r & Hr & Hs) [(k & K) Hw]. exists (l ++ k). split; [by rewrite K, L, app_assoc|].
  exists r. split; [done|]. destruct Hs as [(ok & Hin)|(Hin & sw & Hact & Hin')].
  - left. exists ok. apply elem_of_app. by left.
  - right. split; [apply elem_of_app; by left|]. by eapply Hw.
Qed.

(** Nothing runs and nothing swaps. *)
Record idle (s : FIFO) (m : string) : Prop := {
  id_active : active s = ∅;
  id_inFlight : forall m, get0 (inFlight s) m <= 0;
  id_kv : get0 (kvInFlight s) m <= 0;
  id_limit : 0 < limit cfg m;
}.

Lemma decide_idle s req state :
  idle s (Model req) ->
  withinGrace cfg env s (plan_for env s req) = false \/ cooldownForced s = true ->
  kvWarmBlocker cfg env s req = None ->
  (decide_on cfg env s req state).2 = None /\ served s (decide_on cfg env s req state).1 req.
Proof.
  intros [Ha Hf Hk Hl] Hgrace Hwarm. unfold decide_on. rewrite Ha, lookup_empty. cbv zeta.
  assert (atCapacity cfg s req = false) as ->.
  { unfold atCapacity. destruct (ConcurrencyExempt req); [done|]. specialize (Hf (Model req)). lia. }
  assert (forall evict, collidesWith (Model req) evict ∅ = false) as Hcol
    by (intros evict; unfold collidesWith; by rewrite map_to_list_empty).
  assert (forall evict, conflictsWithInFlight evict (inFlight s) = false) as ->.
  { intros evict. unfold conflictsWithInFlight. induction evict as [|m evict IH]; [done|].
    simpl. rewrite IH. specialize (Hf m). destruct (Z.ltb_spec 0 (get0 (inFlight s) m)); [lia|done]. }
  rewrite !Hcol. assert (kvAdmit cfg s (Model req) (EstimatedTokens req) = true) as ->.
  { unfold kvAdmit. destruct (_ <=? 0); [done|]. by rewrite (proj2 (Z.leb_le _ _) Hk). }
  rewrite Hwarm. simpl. destruct (is_ready state && _ && _).
  - simpl. split; [done|]. destruct (grantHandler_log cfg env req (Model req) s) as (r & l & ok & Hr & _ & Hlog).
    exists (l ++ [EGrantServe r (Model req) ok]). split; [done|]. exists r. split; [done|].
    left. exists ok. apply elem_of_app. right. by apply list_elem_of_singleton.
  - assert (exists s1, deferredByGrace cfg env s req (plan_for env s req) = (false, s1) /\ log s1 = log s) as (s1 & -> & L1).
    { unfold deferredByGrace, consumeForced. destruct (withinGrace _ _ _ _); simpl; [|by eauto].
      destruct Hgrace as [?| ->]; [done|by eauto]. }
    destruct (markParked_stamps env req ParkLoading s1) as [Hr (l & Hq & _)].
    destruct (markParked env req ParkLoading s1) as [r s2]. simpl in *. split; [done|]. subst s2.
    eexists. split; [simpl; rewrite L1, <- !app_assoc; reflexivity|]. exists r. split; [done|]. right. split.
    + rewrite (unstamped (f := Model) _ _ Hr). apply elem_of_app. right. right. by left.
    + rewrite <- (unstamped (f := Model) _ _ Hr). eexists. split; [apply lookup_insert_eq|]. by left.
Qed.

Lemma drain_serves s req rest state :
  queued s = req :: rest -> ModelState env s (Model req) = Some state -> idle s (Model req) ->
  withinGrace cfg env s (plan_for env s req) = false \/ cooldownForced s = true ->
  kvWarmBlocker cfg env s req = None ->
  served s (drainQueue cfg env s) req.
Proof.
  intros Hq Hst Hidle Hgrace Hwarm. unfold drainQueue. rewrite Hq. cbn [foldl].
  rewrite drain_step_decide. simpl. rewrite Hst.
  destruct (decide_idle s req state Hidle Hgrace Hwarm) as [H1 H2].
  destruct (decide_on cfg env s req state) as [s1 o]. simpl in H1, H2. subst o.
  eapply served_onward; [exact H2|]. eapply onward_trans; [apply (onward_fold rest (mkDrain s1 [] None))|].
  by apply drain_tail.
Qed.

Lemma withinGrace_same s s' evict :
  log s' = log s -> idleSince s' = idleSince s -> withinGrace cfg env s' evict = withinGrace cfg env s evict.
Proof.
  intros El Ei. unfold withinGrace. induction evict as [|m ms IH]; simpl; [done|]. rewrite IH. f_equal.
  unfold model_in_grace, now. by rewrite El, Ei.
Qed.

Lemma nothing_cools s req :
  (forall r, r ∈ kvWarmSorted s (Model req) -> kvWarmCooling r (now env s) = false) ->
  kvWarmBlocker cfg env s req = None.
Proof.
  intros Hno. unfold kvWarmBlocker. destruct (_ || _); [done|].
  assert (forall rs acc, (forall r, r ∈ rs -> kvWarmCooling r (now env s) = false) ->
            foldl (scan_step req (now env s)) acc rs = acc) as Hfold.
  { induction rs as [|r rs IH]; intros acc Hrs; simpl; [done|].
    unfold scan_step at 2, holds_against. rewrite Hrs by (by left).
    rewrite andb_false_r. simpl. apply IH. intros x Hx. apply Hrs. by right. }
  by rewrite Hfold.
Qed.

Lemma ended_cooldowns s req : 0 <= now env s -> kvWarmBlocker cfg env (kvWarmEndCooldowns s) req = None.
Proof.
  intros Hnow. apply nothing_cools. intros r Hr. unfold kvWarmSorted in Hr.
  rewrite merge_sort_Permutation in Hr. apply elem_of_map in Hr as ([k x] & Hx & ->).
  apply elem_of_map_to_list in Hx. unfold residents, kvWarmEndCooldowns in Hx. simpl in Hx.
  rewrite lookup_fmap in Hx. destruct (kvResidents s !! Model req) as [rs|]; simpl in Hx; [|by rewrite lookup_empty in Hx].
  rewrite lookup_fmap in Hx. destruct (rs !! k) as [y|]; simpl in Hx; [|done]. injection Hx as <-.
  unfold kvWarmCooling, before, end_cooldown. simpl. rewrite andb_false_iff. right.
  apply Z.ltb_ge. exact Hnow.
Qed.

End live.

(** Progress.  When nothing runs on any model, no swap is in progress and
    no request is held back by the loop guard, a tick serves the head of the
    queue or starts the swap that loads its model, with the head waiting for
    it - provided the eviction is past its grace window or the cooldown was
    finished by hand, and no cooling slot blocks the head or the cooldowns were
    ended. *)
Theorem tick_serves_head {planner : Swapper} (cfg : Settings) (env : Env) (s : FIFO)
    (req : HandlerReq) (rest : list HandlerReq) (state : ProcessState)
    (Hq : queued s = req :: rest) (Hp : penalized s = [])
    (Hst : ModelState env s (Model req) = Some state) (Hidle : idle cfg s (Model req))
    (Hnow : 0 <= now env s)
    (Hgrace : withinGrace cfg env s (plan_for env s req) = false \/ cooldownForced s = true)
    (Hslot : kvWarmBlocker cfg env s req = None \/ graceExpiredForced s = true) :
  served env s (OnTick cfg env s) req.
Proof.
  unfold OnTick, releasePenalized. rewrite Hp, Hq. unfold consumeGraceExpiredForced.
  set (s1 := if graceExpiredForced s then _ else _).
  assert (active s1 = active s /\ log s1 = log s /\ queued s1 = queued s /\ idleSince s1 = idleSince s /\
          inFlight s1 = inFlight s /\ kvInFlight s1 = kvInFlight s /\ cooldownForced s1 = cooldownForced s)
    as (E1 & E2 & E3 & E4 & E5 & E6 & E7) by (subst s1; by destruct (graceExpiredForced s)).
  assert (kvWarmBlocker cfg env s1 req = None) as Hwarm.
  { subst s1. destruct (graceExpiredForced s); [by apply ended_cooldowns|].
    destruct Hslot as [<-|?]; [|done]. unfold kvWarmBlocker. done. }
  assert (plan_for env s1 req = plan_for env s req) as Epl by (unfold plan_for, runningSet; by rewrite E1, E2).
  clearbody s1.
  assert (served env s1 (drainQueue cfg env s1) req) as Hs.
  { apply (drain_serves cfg env s1 req rest state); [congruence|unfold ModelState; by rewrite E2| | |done].
    - destruct Hidle as [H1 H2 H3 H4]. split; [congruence|by rewrite E5|by rewrite E6|done].
    - rewrite Epl, E7. destruct Hgrace as [Hg|?]; [left|by right]. rewrite <- Hg.
      by apply withinGrace_same. }
  destruct Hs as (l & L & r & Hr & Hs). exists l. split; [simpl; congruence|]. exists r. split; [done|].
  by rewrite Epl in Hs.
Qed.

(** [chat] waits behind the grace of [coder] and is served once the cooldown is
    finished by hand. *)
Import SchedExample.

Definition clicked : FIFO := run
  [ (ex_env ["coder"%string] 100, Request (ex_req 1 "coder" "s1" 100 normal));
    (ex_env ["coder"%string] 110, ServeDoneE (ex_done 1 "coder" "s1" 100 normal));
    (ex_env ["coder"%string] 120, Request (ex_req 2 "chat" "s2" 100 normal));
    (ex_env ["coder"%string] 121, Finish) ].

Definition head_req : HandlerReq := default (ex_req 0 "" "" 0 normal) (head (queued clicked)).

Lemma tick_serves_head_witness :
  withinGrace (ex_cfg) (ex_env ["coder"%string] 122) clicked ["coder"%string] = true /\
  served (planner := ex_planner) (ex_env ["coder"%string] 122) clicked
    (OnTick (planner := ex_planner) ex_cfg (ex_env ["coder"%string] 122) clicked) head_req.
Proof.
  split; [vm_compute; reflexivity|].
  apply (tick_serves_head (planner := ex_planner) ex_cfg (ex_env ["coder"%string] 122) clicked head_req [] StateStopped).
  - vm_compute; reflexivity.
  - vm_compute; reflexivity.
  - vm_compute; reflexivity.
  - split; [vm_compute; reflexivity| |vm_compute; discriminate|vm_compute; reflexivity].
    intros m. replace (inFlight clicked) with (∅ : gmap string Z) by (vm_compute; reflexivity).
    vm_compute. discriminate.
  - vm_compute. discriminate.
  - right. vm_compute. reflexivity.
  - right. vm_compute. reflexivity.
Defined.
End FifoLive.
