(* ===== verification/SlotBind.v ===== *)
(** The slot table ([internal/router/slotbind.go]): which granted request is
    bound to which upstream slot, and which slots a cut request still occupies.
    The table's mutex makes every operation atomic.  A holder and the channel of
    an orphan are named by the request they belong to; holders live in a heap,
    since the table forgets a phantom whose request still refers to it. *)

From S2P Require Import Prelude.

Module SlotBind.

Definition slotPhantomAfterDefault : Z := 60 * nsec_second.
Definition slotObserveStale : Z := 30 * nsec_second.

Record slotHolder := mkHolder { h_slot : nat; boundAt : Z; lastBusy : Z; h_released : bool }.

Record modelSlots := mkSlots {
  holders : list (option nat);
  orphans : list (option nat);
  busy : list bool;
  lastObserved : Z;
}.

Record slotTable := mkTable {
  models : gmap string modelSlots;
  heap : gmap nat slotHolder;
  closed : gset nat;            (* the orphan channels that were closed *)
}.

Definition newSlotTable : slotTable := mkTable ∅ ∅ ∅.

Definition get_slots (t : slotTable) (model : string) : modelSlots :=
  default (mkSlots [] [] [] 0) (models t !! model).

Definition put_slots (t : slotTable) (model : string) (ms : modelSlots) : slotTable :=
  mkTable (<[model := ms]> (models t)) (heap t) (closed t).

Definition modelLocked (t : slotTable) (model : string) (n : nat) : modelSlots :=
  let ms := get_slots t model in
  let grown := replicate (n - length (holders ms)) None in
  mkSlots (holders ms ++ grown) (orphans ms ++ grown) (busy ms) (lastObserved ms).

(** The entry of a slice of pointers; [None] is nil. *)
Definition at_slot (l : list (option nat)) (i : nat) : option nat := mjoin (l !! i).

Definition is_free (ms : modelSlots) (i : nat) : bool :=
  match at_slot (holders ms) i, at_slot (orphans ms) i with None, None => true | _, _ => false end.

(** The first free slot among the first [n]. *)
Definition lowest_free (ms : modelSlots) (n : nat) : option nat := List.find (is_free ms) (seq 0 n).

Definition choose_slot (ms : modelSlots) (n : nat) (preferred : Z) : option nat :=
  if (0 <=? preferred) && (preferred <? Z.of_nat n) && is_free ms (Z.to_nat preferred)
  then Some (Z.to_nat preferred) else lowest_free ms n.

Definition bind (t : slotTable) (model : string) (n : nat) (preferred : Z) (id : nat) (now : Z)
  : option nat * slotTable :=
  let ms := modelLocked t model n in
  match choose_slot ms n preferred with
  | None => (None, put_slots t model ms)
  | Some slot =>
    let ms := mkSlots (<[slot := Some id]> (holders ms)) (orphans ms) (busy ms) (lastObserved ms) in
    (Some slot, mkTable (<[model := ms]> (models t)) (<[id := mkHolder slot now now false]> (heap t)) (closed t))
  end.

(** The channel that [unbind] returns, if any. *)
Definition unbind (t : slotTable) (model : string) (id : nat) (cut : bool) (now : Z)
  : option nat * slotTable :=
  match models t !! model, heap t !! id with
  | Some ms, Some h =>
    if h_released h then (None, t)
    else
      let held := if decide (at_slot (holders ms) (h_slot h) = Some id)
                  then <[h_slot h := None]> (holders ms) else holders ms in
      let ms := mkSlots held (orphans ms) (busy ms) (lastObserved ms) in
      if negb cut || negb (default false (busy ms !! h_slot h)) ||
         (slotObserveStale <? time_sub now (lastObserved ms))
      then (None, put_slots t model ms)
      else (Some id, put_slots t model
                       (mkSlots held (<[h_slot h := Some id]> (orphans ms)) (busy ms) (lastObserved ms)))
  | _, _ => (None, t)
  end.

Definition observedWithin (t : slotTable) (model : string) (d now : Z) : bool :=
  match models t !! model with
  | Some ms => time_sub now (lastObserved ms) <=? d
  | None => false
  end.

(** One slot of a fresh reading.  The state carries the requests whose cap
    place is to be released, in order. *)
Record reading := mkReading {
  o_slots : modelSlots; o_heap : gmap nat slotHolder; o_closed : gset nat; o_releases : list nat }.

Definition observe_slot (b : list bool) (phantomAfter now : Z) (o : reading) (i : nat) : reading :=
  let isBusy := default false (b !! i) in
  let ms := o_slots o in
  let '(ms, closed) :=
    match at_slot (orphans ms) i with
    | Some ch => if negb isBusy
                 then (mkSlots (holders ms) (<[i := None]> (orphans ms)) (busy ms) (lastObserved ms),
                       {[ch]} ∪ o_closed o)
                 else (ms, o_closed o)
    | None => (ms, o_closed o)
    end in
  match at_slot (holders ms) i with
  | None => mkReading ms (o_heap o) closed (o_releases o)
  | Some id =>
    match o_heap o !! id with
    | None => mkReading ms (o_heap o) closed (o_releases o)
    | Some h =>
      if isBusy : bool then
        mkReading ms (<[id := mkHolder (h_slot h) (boundAt h) now (h_released h)]> (o_heap o)) closed (o_releases o)
      else if (0 <? phantomAfter) && (phantomAfter <=? time_sub now (lastBusy h)) then
        mkReading (mkSlots (<[i := None]> (holders ms)) (orphans ms) (busy ms) (lastObserved ms))
          (<[id := mkHolder (h_slot h) (boundAt h) (lastBusy h) true]> (o_heap o)) closed (o_releases o ++ [id])
      else mkReading ms (o_heap o) closed (o_releases o)
    end
  end.

(** [b = None] is a nil reading: the model is not running. *)
Definition observe (t : slotTable) (model : string) (b : option (list bool)) (phantomAfter now : Z)
  : list nat * slotTable :=
  match b with
  | None =>
    let ms := modelLocked t model 0 in
    ([], mkTable
           (<[model := mkSlots (holders ms) (replicate (length (orphans ms)) None) [] (lastObserved ms)]> (models t))
           (heap t) (list_to_set (omap id (orphans ms)) ∪ closed t))
  | Some b =>
    let ms := modelLocked t model (length b) in
    let ms := mkSlots (holders ms) (orphans ms) b now in
    let o := foldl (observe_slot b phantomAfter now) (mkReading ms (heap t) (closed t) [])
               (seq 0 (length (holders ms))) in
    (o_releases o, mkTable (<[model := o_slots o]> (models t)) (o_heap o) (o_closed o))
  end.

End SlotBind.
