(* ===== verification/Serving.v ===== *)
(** Serving granted requests ([internal/router/base.go], [slotbind.go]): the
    run loop with the scheduler, the goroutines that serve the granted requests,
    the slot table they share, and the goroutines that give a concurrency place
    back early.  Each action is one atomic step of one goroutine, so a run is an
    interleaving of actions.

    A request is named by a number; its response channel, context, preemption
    flag and handle are all made for it, so they carry the same name. *)

From S2P Require Import Prelude Tier Swappers SchedTypes KvWarm Grace Fifo SlotBind.

Module Serving.
Import Tier Swapper Sched KvWarm Grace Fifo SlotBind.

(** What [bindSlot] reads of a model's configuration. *)
Record ServeConfig := mkServeConfig {
  SlotAffinity : bool; HasSlotsEndpoint : bool; sc_ConcurrencyLimit : Z }.

(** What [ServeHTTP] knows of an attempt when it hands it to the scheduler. *)
Record Attempt := mkAttempt {
  at_model : string;
  at_tokens : Z;
  at_session : string;
  at_tier : Tier;
  at_slotFree : bool;          (* isSlotFreeRequest *)
  at_statusRead : bool;        (* IsStatusRead *)
  at_slotCooldownOff : bool;
  at_gate : option nat;
}.

(** The [HandlerReq] of one attempt: every channel and flag is fresh. *)
Definition attempt_req (id : nat) (a : Attempt) : HandlerReq :=
  mkReq (at_model a) (Some id) true id (at_tokens a) (at_session a) (at_tier a) (at_slotFree a)
    (at_slotCooldownOff a) (at_statusRead a) (at_gate a) "" "" None (Some id) (Some id) 0.

(** Where the goroutine of [trackedServe] is: the handler was handed over; it
    serves; its completion is withheld until the slot reads idle; it is about to
    send its completion; the run loop has it. *)
Inductive phase := Granted | Forwarding | Orphaned | Sending | Finished.

(** The goroutine that gives the place back early: not started, started,
    through its compare-and-swap and about to send, received by the run loop. *)
Inductive rel := NoRelease | Spawned | Releasing | Released.

#[export] Instance phase_eq_dec : EqDecision phase. Proof. solve_decision. Defined.
#[export] Instance rel_eq_dec : EqDecision rel. Proof. solve_decision. Defined.

Record Served := mkServed {
  v_req : HandlerReq;
  v_model : string;
  v_phase : phase;
  v_rel : rel;
  v_slot : option nat;                    (* the slot [bindSlot] bound it to *)
  v_event : option ServeDoneEvent;        (* what it sends when it is done *)
}.

Definition v_id (v : Served) : nat := Respond (v_req v).

(** [capReleased], the flag the release goroutine swaps. *)
Definition capReleased (v : Served) : bool := bool_decide (v_rel v = Releasing \/ v_rel v = Released).

Definition holdsSlot (v : Served) : bool := negb (StatusRead (v_req v)) && negb (ConcurrencyExempt (v_req v)).

Definition set_phase (p : phase) (v : Served) : Served :=
  mkServed (v_req v) (v_model v) p (v_rel v) (v_slot v) (v_event v).
Definition set_rel (x : rel) (v : Served) : Served :=
  mkServed (v_req v) (v_model v) (v_phase v) x (v_slot v) (v_event v).
Definition begin (slot : option nat) (v : Served) : Served :=
  mkServed (v_req v) (v_model v) Forwarding (v_rel v) slot (v_event v).
Definition return_ (p : phase) (ev : ServeDoneEvent) (v : Served) : Served :=
  mkServed (v_req v) (v_model v) p (v_rel v) (v_slot v) (Some ev).

Record Router := mkRouter {
  sched : FIFO;
  slots : slotTable;
  served : list Served;                   (* in grant order *)
  nextID : nat;
  down : bool;                            (* the run loop has returned *)
}.

Definition newRouter : Router := mkRouter NewFIFO newSlotTable [] 0 false.

Definition find_served (id : nat) (vs : list Served) : option Served :=
  List.find (fun v => Nat.eqb (v_id v) id) vs.
Definition update (id : nat) (f : Served -> Served) (vs : list Served) : list Served :=
  map (fun v => if Nat.eqb (v_id v) id then f v else v) vs.

(** [GrantServe]: a caller that receives its handler starts serving. *)
Definition granted_by (l : list Effect) : list Served :=
  flat_map (fun e => match e with
                     | EGrantServe r m true => [mkServed r m Granted NoRelease None None]
                     | _ => []
                     end) l.

Section serving.
Context {planner : Swapper}.
Variable cfg : Settings.
Variable conf : gmap string ServeConfig.
Variable slotPhantomAfter : Z.

(** The run loop handles one event. *)
Definition run_loop (env : Env) (ev : Event) (vs : list Served) (next : nat) (r : Router) : Router :=
  let s := step cfg env ev (sched r) in
  mkRouter s (slots r) (vs ++ granted_by (drop (length (log (sched r))) (log s))) next
    (match ev with Shutdown _ => true | _ => down r end).

(** The slots [bindSlot] may bind a request of [model] to, if it binds. *)
Definition slot_count (model : string) : option nat :=
  match conf !! model with
  | Some mc => if SlotAffinity mc && HasSlotsEndpoint mc && (1 <? sc_ConcurrencyLimit mc)
               then Some (Z.to_nat (sc_ConcurrencyLimit mc)) else None
  | None => None
  end.

(** [trackedServe] up to [forward]; [jsonPost] is what [bindSlot] asks of the
    request, [preferred] the id_slot on its wire, [-1] when there is none. *)
Definition begin_serve (v : Served) (now : Z) (jsonPost : bool) (preferred : Z) (t : slotTable)
  : option nat * slotTable :=
  match slot_count (v_model v) with
  | Some n => if holdsSlot v && jsonPost then bind t (v_model v) n preferred (v_id v) now else (None, t)
  | None => (None, t)
  end.

(** The deferred functions of [trackedServe], last in first out. *)
Definition done_event (v : Served) (cut looping : bool) : ServeDoneEvent :=
  mkServeDone (v_model v) (StatusRead (v_req v)) looping (EstimatedTokens (v_req v)) (Ctx (v_req v))
    (Session (v_req v)) (ReqTier (v_req v)) cut (SlotCooldownOff (v_req v)) (Preempted (v_req v))
    false (capReleased v).

Definition end_serve (v : Served) (now : Z) (cutAtUnbind cut looping : bool) (t : slotTable)
  : Served * slotTable :=
  let '(orphan, t) := match v_slot v with
                      | Some _ => unbind t (v_model v) (v_id v) cutAtUnbind now
                      | None => (None, t)
                      end in
  (return_ (match orphan with Some _ => Orphaned | None => Sending end) (done_event v cut looping) v, t).

(** What the release closure sends. *)
Definition release_event (v : Served) : ServeDoneEvent :=
  mkServeDone (v_model v) false false 0 None "" (mkTier "" 0 false false) false false (Preempted (v_req v)) true false.

(** Nothing of it is left: its completion is in, and no release of it is on its way. *)
Definition settled (v : Served) : bool :=
  bool_decide (v_phase v = Finished) && bool_decide (v_rel v = NoRelease \/ v_rel v = Released).

(** *** The actions *)
Inductive Action :=
| ALoop (env : Env) (ev : Event)
| AAttempt (env : Env) (a : Attempt)
| ABegin (id : nat) (now : Z) (jsonPost : bool) (preferred : Z)
| AReturn (id : nat) (now : Z) (cutAtUnbind cutLater looping : bool)
| AObserve (model : string) (busy : option (list bool)) (now : Z)
| ARelease (id : nat)
| AIdle (id : nat)
| AStale (id : nat) (now : Z)
| ADeliver (env : Env) (id : nat)
| ADeliverRelease (env : Env) (id : nat).

(** The events the run loop takes that no action of its own produces. *)
Definition outside (ev : Event) : bool :=
  match ev with Request _ | ServeDoneE _ => false | _ => true end.

Definition with_served (r : Router) (vs : list Served) : Router :=
  mkRouter (sched r) (slots r) vs (nextID r) (down r).
Definition with_slots (r : Router) (t : slotTable) (vs : list Served) : Router :=
  mkRouter (sched r) t vs (nextID r) (down r).

Definition act (a : Action) (r : Router) : option Router :=
  match a with
  | ALoop env ev =>
    if outside ev && negb (down r) then Some (run_loop env ev (served r) (nextID r) r) else None
  | AAttempt env a =>
    if down r then None
    else Some (run_loop env (Request (attempt_req (nextID r) a)) (served r) (S (nextID r)) r)
  | ABegin id now jsonPost preferred =>
    match find_served id (served r) with
    | Some v => if decide (v_phase v = Granted) then
                  let '(slot, t) := begin_serve v now jsonPost preferred (slots r) in
                  Some (with_slots r t (update id (begin slot) (served r)))
                else None
    | None => None
    end
  | AReturn id now cutAtUnbind cutLater looping =>
    match find_served id (served r) with
    | Some v => if decide (v_phase v = Forwarding) then
                  let cut := cutAtUnbind || cutLater in
                  let '(v', t) := end_serve v now cutAtUnbind cut looping (slots r) in
                  Some (mkRouter (sched r) t (update id (fun _ => v') (served r)) (nextID r) (down r))
                else None
    | None => None
    end
  | AObserve model busy now =>
    let '(ids, t) := observe (slots r) model busy slotPhantomAfter now in
    Some (with_slots r t (foldl (fun vs id => update id (set_rel Spawned) vs) (served r) ids))
  | ARelease id =>
    match find_served id (served r) with
    | Some v => if decide (v_rel v = Spawned) then
                  Some (with_served r (update id (set_rel Releasing) (served r)))
                else None
    | None => None
    end
  | AIdle id =>
    match find_served id (served r) with
    | Some v => if bool_decide (v_phase v = Orphaned) && bool_decide (id ∈ closed (slots r)) then
                  Some (with_served r (update id (set_phase Sending) (served r)))
                else None
    | None => None
    end
  | AStale id now =>
    match find_served id (served r) with
    | Some v => if bool_decide (v_phase v = Orphaned) &&
                   negb (observedWithin (slots r) (v_model v) slotObserveStale now) then
                  Some (with_served r (update id (set_phase Sending) (served r)))
                else None
    | None => None
    end
  | ADeliver env id =>
    match find_served id (served r) with
    | Some v =>
      match v_event v with
      | Some ev =>
        if bool_decide (v_phase v = Sending) && negb (down r) then
          Some (run_loop env (ServeDoneE ev)
                  (List.filter (fun v => negb (settled v)) (update id (set_phase Finished) (served r))) (nextID r) r)
        else None
      | None => None
      end
    | None => None
    end
  | ADeliverRelease env id =>
    match find_served id (served r) with
    | Some v =>
      if bool_decide (v_rel v = Releasing) && negb (down r) then
        Some (run_loop env (ServeDoneE (release_event v))
                (List.filter (fun v => negb (settled v)) (update id (set_rel Released) (served r))) (nextID r) r)
      else None
    | None => None
    end
  end.

(** Runs.  [allowed] restricts the interleavings a theorem speaks of. *)
Inductive run (allowed : Action -> Router -> Prop) : Router -> Prop :=
| run_new : run allowed newRouter
| run_act a r r' : run allowed r -> allowed a r -> act a r = Some r' -> run allowed r'.

End serving.
End Serving.
