(* ===== verification/ServingSlots.v ===== *)
(** The slot table and the requests that are being served agree, in every
    interleaving: who holds a slot, who left one behind, whose place is being
    given back early. *)

From S2P Require Import Prelude Tier Swappers SchedTypes KvWarm Grace Fifo FifoBase FifoDecide FifoConserve SlotBind Serving.

Module ServingSlots.
Import Tier Swapper Sched KvWarm Grace Fifo FifoBase FifoConserve SlotBind Serving.

(** ** Slices of pointers *)
Lemma at_slot_lt l i x : at_slot l i = Some x -> (i < length l)%nat.
Proof. unfold at_slot. destruct (l !! i) eqn:E; [|done]. intros _. by eapply lookup_lt_Some. Qed.

Lemma at_slot_insert l i j x :
  (i < length l)%nat -> at_slot (<[i := x]> l) j = if decide (j = i) then x else at_slot l j.
Proof.
  intros Hi. unfold at_slot. case_decide as E; [subst j; by rewrite list_lookup_insert_eq|].
  by rewrite list_lookup_insert_ne.
Qed.

Lemma at_slot_grown l k i : at_slot (l ++ replicate k None) i = at_slot l i.
Proof.
  unfold at_slot. destruct (decide (i < length l)%nat) as [Hi|Hi]; [by rewrite lookup_app_l|].
  rewrite lookup_app_r by lia. rewrite (lookup_ge_None_2 l) by lia.
  destruct (replicate k None !! (i - length l)%nat) as [x|] eqn:E; [|done].
  by apply lookup_replicate in E as [-> _].
Qed.

Lemma at_slot_none k i : at_slot (replicate k None) i = None.
Proof. exact (at_slot_grown [] k i). Qed.

(** ** Lists of served requests *)
Lemma elem_of_update id f vs v' :
  v' ∈ update id f vs <-> exists v, v ∈ vs /\ v' = if Nat.eqb (v_id v) id then f v else v.
Proof. unfold update. rewrite elem_of_map. naive_solver. Qed.

Lemma update_ids id f vs : (forall v, v_id (f v) = v_id v) -> map v_id (update id f vs) = map v_id vs.
Proof.
  intros Hf. unfold update. rewrite map_map. apply List.map_ext. intros v. by destruct (Nat.eqb _ _).
Qed.

Lemma find_served_spec id vs v :
  find_served id vs = Some v -> v ∈ vs /\ v_id v = id.
Proof. unfold find_served. intros [Hin Hid]%List.find_some. split; [by apply list_elem_of_In|by apply Nat.eqb_eq]. Qed.

Lemma same_id (vs : list Served) v1 v2 :
  NoDup (map v_id vs) -> v1 ∈ vs -> v2 ∈ vs -> v_id v1 = v_id v2 -> v1 = v2.
Proof.
  induction vs as [|v vs IH]; intros Hnd H1 H2 E; [by apply elem_of_nil in H1|].
  simpl in Hnd. apply NoDup_cons in Hnd as [Hn Hnd].
  apply elem_of_cons in H1. apply elem_of_cons in H2.
  destruct H1 as [->|H1], H2 as [->|H2]; [done| | |by auto]; destruct Hn; apply elem_of_map; eauto.
Qed.

(** [find_served] splits the list around the request it finds. *)
Lemma find_served_split id vs v f :
  NoDup (map v_id vs) -> find_served id vs = Some v ->
  exists l1 l2, vs = l1 ++ v :: l2 /\ update id f vs = l1 ++ f v :: l2 /\ v_id v = id /\
    (forall x, x ∈ l1 ++ l2 -> v_id x <> id).
Proof.
  intros Hnd Hf. apply find_served_spec in Hf as [Hin Hid].
  apply list_elem_of_split in Hin as (l1 & l2 & ->). exists l1, l2.
  rewrite map_app in Hnd. simpl in Hnd. apply NoDup_app in Hnd as (N1 & Hd & [N2 N3]%NoDup_cons).
  assert (forall x, x ∈ l1 -> v_id x <> id) as H1.
  { intros x Hx E. apply (Hd id); [apply elem_of_map; eauto|]. rewrite Hid. by left. }
  assert (forall x, x ∈ l2 -> v_id x <> id) as H2.
  { intros x Hx E. apply N2. rewrite Hid. apply elem_of_map; eauto. }
  assert (forall l, (forall x, x ∈ l -> v_id x <> id) -> update id f l = l) as Hsame.
  { clear. induction l as [|x l IH]; intros Hl; [done|]. simpl. rewrite IH by (intros; apply Hl; by right).
    destruct (Nat.eqb_spec (v_id x) id) as [E|]; [|done]. destruct (Hl x); [by left|done]. }
  split_and!; [done| |done|].
  - unfold update in *. rewrite map_app. simpl. rewrite Hid, Nat.eqb_refl.
    by rewrite (Hsame l1 H1), (Hsame l2 H2).
  - intros x [?|?]%elem_of_app; auto.
Qed.

(** ** Who owns a slot *)
Definition held_slot (t : slotTable) (m : string) (i : nat) : option nat := at_slot (holders (get_slots t m)) i.
Definition left_slot (t : slotTable) (m : string) (i : nat) : option nat := at_slot (orphans (get_slots t m)) i.

(** The channel of request [id] was made. *)
Definition used (t : slotTable) (id : nat) : Prop := id ∈ closed t \/ exists m i, left_slot t m i = Some id.

Section linked.
Variable conf : gmap string ServeConfig.
(** [strict]: no orphan was given up while its slot was still busy. *)
Variable strict : Prop.

Record linked (t : slotTable) (vs : list Served) : Prop := {
  k_len m : length (holders (get_slots t m)) = length (orphans (get_slots t m));
  k_holder m i id : held_slot t m i = Some id ->
    exists v h, v ∈ vs /\ v_id v = id /\ v_model v = m /\ v_phase v = Forwarding /\ v_rel v = NoRelease /\
      v_slot v = Some i /\ heap t !! id = Some h /\ h_slot h = i /\ h_released h = false;
  k_held v i : v ∈ vs -> v_phase v = Forwarding -> v_rel v = NoRelease -> v_slot v = Some i ->
    held_slot t (v_model v) i = Some (v_id v);
  k_orphan m i id : left_slot t m i = Some id ->
    held_slot t m i = None /\ id ∉ closed t /\
    (strict -> exists v, v ∈ vs /\ v_id v = id /\ v_model v = m /\ v_phase v = Orphaned /\ v_slot v = Some i);
  k_orphaned v : v ∈ vs -> v_phase v = Orphaned -> v_rel v = NoRelease /\ exists i, v_slot v = Some i /\
    (v_id v ∈ closed t \/ left_slot t (v_model v) i = Some (v_id v));
  k_early v : v ∈ vs -> v_phase v = Granted -> v_rel v = NoRelease /\ v_slot v = None;
  k_rel v : v ∈ vs -> v_rel v <> NoRelease ->
    v_slot v <> None /\ exists h, heap t !! v_id v = Some h /\ h_released h = true;
  k_slot v i : v ∈ vs -> v_slot v = Some i ->
    holdsSlot v = true /\ exists n, slot_count conf (v_model v) = Some n /\ (i < n)%nat;
  k_used v : v ∈ vs -> used t (v_id v) -> v_phase v <> Granted /\ v_phase v <> Forwarding;
  k_unique m i m' i' id : left_slot t m i = Some id -> left_slot t m' i' = Some id -> m' = m /\ i' = i;
}.


Lemma get_slots_put mm hp c m m' ms :
  get_slots (mkTable (<[m := ms]> mm) hp c) m' = if decide (m' = m) then ms else get_slots (mkTable mm hp c) m'.
Proof.
  unfold get_slots. simpl. case_decide as E; [subst; by rewrite lookup_insert_eq|by rewrite lookup_insert_ne].
Qed.

(** A change of the table that moves no slot. *)
Lemma linked_table t t' vs :
  linked t vs ->
  (forall m, length (holders (get_slots t' m)) = length (orphans (get_slots t' m))) ->
  (forall m i, held_slot t' m i = held_slot t m i) -> (forall m i, left_slot t' m i = left_slot t m i) ->
  closed t' = closed t ->
  (forall id h, heap t !! id = Some h ->
     exists h', heap t' !! id = Some h' /\ h_slot h' = h_slot h /\ h_released h' = h_released h) ->
  linked t' vs.
Proof.
  intros [K1 K2 K3 K4 K5 K6 K7 K8 K9 K10] Hlen Hheld Hleft Hc Hh. split; try done.
  - intros m i id. rewrite Hheld. intros H. destruct (K2 m i id H) as (v & h & ? & ? & ? & ? & ? & ? & Hhp & Hs & Hr).
    destruct (Hh id h Hhp) as (h' & E1 & E2 & E3). exists v, h'. split_and!; congruence.
  - intros v i. rewrite Hheld. auto.
  - intros m i id. rewrite Hleft, Hheld, Hc. auto.
  - intros v. rewrite Hc. intros Hv Hp. destruct (K5 v Hv Hp) as (? & i & ? & Ho). split; [done|]. exists i.
    by rewrite Hleft.
  - intros v Hv Hr. destruct (K7 v Hv Hr) as (? & h & Hhp & Hrel). split; [done|].
    destruct (Hh _ h Hhp) as (h' & E1 & E2 & E3). exists h'. split; congruence.
  - intros v Hv [Hu|(m & i & Hu)]; apply K9; [done|left; congruence|done|right]. exists m, i. by rewrite <- Hleft.
  - intros m i m' i' id. rewrite !Hleft. apply K10.
Qed.

(** The same request, further on, its hold on a slot unchanged. *)
Record further (v v' : Served) : Prop := {
  f_id : v_id v' = v_id v;
  f_req : v_req v' = v_req v;
  f_model : v_model v' = v_model v;
  f_slot : v_slot v' = v_slot v;
  f_phase : v_phase v' = v_phase v \/ v_phase v' = Sending \/ v_phase v' = Finished;
  f_rel : v_rel v' = NoRelease <-> v_rel v = NoRelease;
}.

Lemma further_refl v : further v v.
Proof. split; tauto. Qed.

Lemma linked_served t vs vs' :
  linked t vs ->
  (forall v', v' ∈ vs' -> (exists v, v ∈ vs /\ further v v') \/
     (v_phase v' = Granted /\ v_rel v' = NoRelease /\ v_slot v' = None /\ ~ used t (v_id v'))) ->
  (forall v, v ∈ vs -> v_phase v = Forwarding -> v_rel v = NoRelease -> v_slot v <> None -> v ∈ vs') ->
  (strict -> forall v, v ∈ vs -> v_phase v = Orphaned -> v_id v ∉ closed t -> v ∈ vs') ->
  linked t vs'.
Proof.
  intros [K1 K2 K3 K4 K5 K6 K7 K8 K9 K10] Hback Hfwd Hstrict. split; try done.
  - intros m i id H. destruct (K2 m i id H) as (v & h & ? & ? & ? & ? & ? & Hs & ?). exists v, h.
    split; [|done]. apply Hfwd; [done..|]. by rewrite Hs.
  - intros v' i Hv' Hp Hr Hs. destruct (Hback v' Hv') as [(v & Hv & [F1 F2 F3 F4 F5 F6])|(E & _)]; [|congruence].
    rewrite F1, F3. apply K3; try congruence; [|tauto]. destruct F5 as [F5|[F5|F5]]; congruence.
  - intros m i id H. destruct (K4 m i id H) as (H1 & H2 & H3). split_and!; [done|done|]. intros Hst.
    destruct (H3 Hst) as (v & Hv & <- & ? & ? & ?). exists v. split; [by apply Hstrict|done].
  - intros v' Hv' Hp. destruct (Hback v' Hv') as [(v & Hv & [F1 F2 F3 F4 F5 F6])|(E & _)]; [|congruence].
    assert (v_phase v = Orphaned) as Hp' by (destruct F5 as [F5|[F5|F5]]; congruence).
    destruct (K5 v Hv Hp') as (? & i & ? & ?). split; [tauto|]. exists i. rewrite F1, F3, F4. done.
  - intros v' Hv' Hp. destruct (Hback v' Hv') as [(v & Hv & [F1 F2 F3 F4 F5 F6])|(E & ? & ? & _)]; [|done].
    assert (v_phase v = Granted) as Hp' by (destruct F5 as [F5|[F5|F5]]; congruence).
    destruct (K6 v Hv Hp'). split; [tauto|congruence].
  - intros v' Hv' Hr. destruct (Hback v' Hv') as [(v & Hv & [F1 F2 F3 F4 F5 F6])|(E & ? & ? & _)]; [|done].
    rewrite F1, F4. apply K7; [done|tauto].
  - intros v' i Hv' Hs. destruct (Hback v' Hv') as [(v & Hv & [F1 F2 F3 F4 F5 F6])|(E & ? & ? & _)]; [|congruence].
    unfold holdsSlot. rewrite F2, F3. apply K8; [done|congruence].
  - intros v' Hv' Hc. destruct (Hback v' Hv') as [(v & Hv & [F1 F2 F3 F4 F5 F6])|(E & ? & ? & Hn)]; [|done].
    rewrite F1 in Hc. specialize (K9 v Hv Hc). destruct F5 as [F5|[F5|F5]]; rewrite F5; split; try done; tauto.
Qed.


(** Every element of an updated list, by cases. *)
Ltac upd H i :=
  let u := fresh "u" in let Hin := fresh "Hin" in let E := fresh "E" in
  apply elem_of_update in H as (u & Hin & ->); destruct (Nat.eqb_spec (v_id u) i) as [E|E].

Lemma in_update id f vs v : v ∈ vs -> (if Nat.eqb (v_id v) id then f v else v) ∈ update id f vs.
Proof. intros Hv. apply elem_of_update. eauto. Qed.

Lemma in_update_ne id f vs v : v ∈ vs -> v_id v <> id -> v ∈ update id f vs.
Proof. intros Hv Hne. pose proof (in_update id f vs v Hv) as H. by rewrite (proj2 (Nat.eqb_neq _ _) Hne) in H. Qed.

(** A granted request starts to be served, bound to [slot] if any. *)
Lemma linked_begin t t' vs v slot :
  NoDup (map v_id vs) -> linked t vs -> v ∈ vs -> v_phase v = Granted ->
  (forall m, length (holders (get_slots t' m)) = length (orphans (get_slots t' m))) ->
  (forall m i, held_slot t' m i =
     if decide (slot = Some i /\ m = v_model v) then Some (v_id v) else held_slot t m i) ->
  (forall m i, left_slot t' m i = left_slot t m i) -> closed t' = closed t ->
  (forall id, id <> v_id v -> heap t' !! id = heap t !! id) ->
  (forall i, slot = Some i ->
     held_slot t (v_model v) i = None /\ left_slot t (v_model v) i = None /\ holdsSlot v = true /\
     (exists n, slot_count conf (v_model v) = Some n /\ (i < n)%nat) /\
     exists h, heap t' !! v_id v = Some h /\ h_slot h = i /\ h_released h = false) ->
  linked t' (update (v_id v) (begin slot) vs).
Proof.
  intros Hnd [K1 K2 K3 K4 K5 K6 K7 K8 K9 K10] Hv Hp Hlen Hheld Hleft Hc Hheap Hslot.
  destruct (K6 v Hv Hp) as [Hr Hs].
  assert (forall m i id, held_slot t m i = Some id -> id <> v_id v) as Hother.
  { intros m i id H ->. destruct (K2 m i _ H) as (v1 & h & Hv1 & Hid & _ & Hp1 & _).
    rewrite (same_id vs v1 v Hnd Hv1 Hv Hid) in Hp1. congruence. }
  assert (forall v1, v1 ∈ vs -> v_id v1 = v_id v -> v1 = v) as Hsame by (intros; by eapply same_id).
  split; [done|..].
  - intros m i id. rewrite Hheld. case_decide as E.
    + destruct E as [-> ->]. intros [= <-]. destruct (Hslot i eq_refl) as (_ & _ & _ & _ & h & ? & ? & ?).
      exists (begin (Some i) v), h. split_and!; try done.
      pose proof (in_update (v_id v) (begin (Some i)) vs v Hv) as Hu. by rewrite Nat.eqb_refl in Hu.
    + intros H. destruct (K2 m i id H) as (v1 & h & Hv1 & Hid & ? & ? & ? & ? & ? & ?). exists v1, h.
      pose proof (Hother m i id H) as Hne. split_and!; try tauto.
      * apply in_update_ne; [done|congruence].
      * rewrite Hheap; done.
  - intros v' i Hv' Hp' Hr' Hs'. upd Hv' (v_id v).
    + rewrite (Hsame u Hin E) in *. simpl in *. rewrite Hheld, decide_True; done.
    + rewrite Hheld. case_decide as E'; [|by apply K3]. destruct E' as [-> E']. exfalso.
      destruct (Hslot i eq_refl) as (Hn & _). rewrite <- E', (K3 u i Hin Hp' Hr' Hs') in Hn. done.
  - intros m i id. rewrite Hleft, Hheld, Hc. intros H. destruct (K4 m i id H) as (H1 & H2 & H3). split_and!.
    + case_decide as E; [|done]. destruct E as [-> ->]. destruct (Hslot i eq_refl) as (_ & Hn & _). congruence.
    + done.
    + intros Hst. destruct (H3 Hst) as (v1 & Hv1 & <- & ? & ? & ?). exists v1. split; [|done].
      apply in_update_ne; [done|]. intros E. rewrite (Hsame v1 Hv1 E) in *. congruence.
  - intros v' Hv' Hp'. upd Hv' (v_id v); [done|]. rewrite Hc. destruct (K5 u Hin Hp') as (? & i & ? & ?).
    split; [done|]. exists i. by rewrite Hleft.
  - intros v' Hv' Hp'. upd Hv' (v_id v); [done|auto].
  - intros v' Hv' Hr'. upd Hv' (v_id v); [rewrite (Hsame u Hin E) in *; done|].
    rewrite Hheap by done. auto.
  - intros v' i Hv' Hs'. upd Hv' (v_id v); [|by apply K8]. rewrite (Hsame u Hin E) in *. simpl in *.
    destruct (Hslot i Hs') as (_ & _ & ? & ? & _). done.
  - intros v' Hv' Hu. assert (used t (v_id v')) as Hu'.
    { destruct Hu as [Hu|(m & i & Hu)]; [left; congruence|right]. exists m, i. by rewrite <- Hleft. }
    upd Hv' (v_id v); [|by apply K9]. rewrite (Hsame u Hin E) in *. by destruct (K9 v Hv Hu').
  - intros m i m' i' id. rewrite !Hleft. apply K10.
Qed.


(** *** bind *)
Lemma choose_slot_some ms n p k : choose_slot ms n p = Some k -> (k < n)%nat /\ is_free ms k = true.
Proof.
  unfold choose_slot. destruct ((_ && _) && _) eqn:E.
  - intros [= <-]. apply andb_true_iff in E as [[E1 E2]%andb_true_iff E3]. split; [lia|done].
  - unfold lowest_free. intros [Hin%in_seq Hf]%List.find_some. split; [lia|done].
Qed.

Lemma choose_slot_none ms n p i : choose_slot ms n p = None -> (i < n)%nat -> is_free ms i = false.
Proof.
  unfold choose_slot. destruct (_ && _); [done|]. intros Hn Hi.
  apply (List.find_none _ _ Hn). apply in_seq. lia.
Qed.

Lemma is_free_spec ms i : is_free ms i = true <-> at_slot (holders ms) i = None /\ at_slot (orphans ms) i = None.
Proof. unfold is_free. destruct (at_slot (holders ms) i), (at_slot (orphans ms) i); naive_solver. Qed.

Lemma modelLocked_slots t m n :
  (forall i, at_slot (holders (modelLocked t m n)) i = held_slot t m i) /\
  (forall i, at_slot (orphans (modelLocked t m n)) i = left_slot t m i) /\
  (n <= length (holders (modelLocked t m n)))%nat.
Proof.
  unfold modelLocked. simpl. split_and!; [intros; apply at_slot_grown..|].
  rewrite length_app, length_replicate. lia.
Qed.

Lemma modelLocked_len t m n :
  length (holders (get_slots t m)) = length (orphans (get_slots t m)) ->
  length (holders (modelLocked t m n)) = length (orphans (modelLocked t m n)).
Proof. intros H. unfold modelLocked. simpl. by rewrite !length_app, H. Qed.

Lemma linked_bind t t' vs v n preferred now slot :
  NoDup (map v_id vs) -> linked t vs -> v ∈ vs -> v_phase v = Granted -> holdsSlot v = true ->
  slot_count conf (v_model v) = Some n ->
  bind t (v_model v) n preferred (v_id v) now = (slot, t') ->
  linked t' (update (v_id v) (begin slot) vs).
Proof.
  intros Hnd Hl Hv Hp Hh Hn Hb. destruct (modelLocked_slots t (v_model v) n) as (M1 & M2 & M3).
  pose proof (modelLocked_len t (v_model v) n (k_len _ _ Hl _)) as M4.
  pose proof (k_len _ _ Hl) as Hlen.
  unfold bind in Hb. set (ms := modelLocked t (v_model v) n) in *. clearbody ms.
  destruct (choose_slot ms n preferred) as [k|] eqn:Ec; injection Hb as <- <-.
  - apply choose_slot_some in Ec as [Hk [H1 H2]%is_free_spec].
    apply (linked_begin t); try done.
    + intros m. rewrite get_slots_put. case_decide; [|apply Hlen]. simpl. by rewrite length_insert.
    + intros m i. unfold held_slot at 1. rewrite get_slots_put. destruct (decide (m = v_model v)) as [->|Hne]; simpl.
      * rewrite at_slot_insert by lia. rewrite M1. repeat case_decide; naive_solver.
      * rewrite decide_False by naive_solver. done.
    + intros m i. unfold left_slot at 1. rewrite get_slots_put. case_decide as E; simpl; [subst; apply M2|done].
    + intros id Hne. simpl. by rewrite lookup_insert_ne.
    + intros i [= <-]. rewrite <- M1, <- M2. split_and!; try done; [eauto|].
      simpl. rewrite lookup_insert_eq. eauto.
  - apply (linked_begin t); try done.
    + intros m. unfold put_slots. rewrite get_slots_put. case_decide; [done|apply Hlen].
    + intros m i. unfold held_slot at 1, put_slots. rewrite get_slots_put. rewrite (decide_False (P := None = Some i /\ _)) by naive_solver.
      case_decide as E; [subst; apply M1|done].
    + intros m i. unfold left_slot at 1, put_slots. rewrite get_slots_put. case_decide as E; [subst; apply M2|done].
Qed.


(** *** unbind *)
Definition leaves (o : bool) (ev : ServeDoneEvent) (v : Served) : Served :=
  return_ (if o then Orphaned else Sending) ev v.

(** A request that holds slot [i] returns; [o] says whether it leaves the slot
    orphaned. *)
Lemma linked_end t t' vs v i (o : bool) ev :
  NoDup (map v_id vs) -> linked t vs -> v ∈ vs -> v_phase v = Forwarding -> v_rel v = NoRelease -> v_slot v = Some i ->
  (forall m, length (holders (get_slots t' m)) = length (orphans (get_slots t' m))) ->
  (forall m j, held_slot t' m j = if decide (m = v_model v /\ j = i) then None else held_slot t m j) ->
  (forall m j, left_slot t' m j = if decide (o = true /\ m = v_model v /\ j = i) then Some (v_id v) else left_slot t m j) ->
  closed t' = closed t -> heap t' = heap t ->
  linked t' (update (v_id v) (leaves o ev) vs).
Proof.
  intros Hnd [K1 K2 K3 K4 K5 K6 K7 K8 K9 K10] Hv Hp Hr Hs Hlen Hheld Hleft Hc Hheap.
  assert (forall v1, v1 ∈ vs -> v_id v1 = v_id v -> v1 = v) as Hsame by (intros; by eapply same_id).
  pose proof (K3 v i Hv Hp Hr Hs) as Hmine.
  assert (leaves o ev v ∈ update (v_id v) (leaves o ev) vs) as Hnew
    by (pose proof (in_update (v_id v) (leaves o ev) vs v Hv) as Hu; by rewrite Nat.eqb_refl in Hu).
  split; [done|..].
  - intros m j id. rewrite Hheap, Hheld. destruct (decide (m = v_model v /\ j = i)) as [E|E]; [intros [=]|]. intros H.
    destruct (K2 m j id H) as (v1 & h & Hv1 & Hid & Hm & ? & ? & Hj & ?). exists v1, h. split; [|done].
    apply in_update_ne; [done|]. intros E1. rewrite (Hsame v1 Hv1 E1) in *. naive_solver.
  - intros v' j Hv' Hp' Hr' Hs'. upd Hv' (v_id v); [by destruct o|]. rewrite Hheld, decide_False; [by apply K3|].
    intros [Em ->]. pose proof (K3 u i Hin Hp' Hr' Hs') as H. rewrite Em in H. congruence.
  - intros m j id. rewrite Hleft, Hheld, Hc. destruct (decide (o = true /\ m = v_model v /\ j = i)) as [E|E].
    + destruct E as (-> & -> & ->). intros [= <-]. split_and!; [by rewrite decide_True| |].
      * intros Hcl. by destruct (K9 v Hv (or_introl Hcl)).
      * intros _. by exists (leaves true ev v).
    + intros H. destruct (K4 m j id H) as (H1 & H2 & H3). split_and!; [by destruct (decide (m = v_model v /\ j = i))|done|].
      intros Hst. destruct (H3 Hst) as (v1 & Hv1 & <- & ? & ? & ?). exists v1. split; [|done].
      apply in_update_ne; [done|]. intros E1. rewrite (Hsame v1 Hv1 E1) in *. congruence.
  - intros v'. rewrite Hc. intros Hv' Hp'. upd Hv' (v_id v).
    + rewrite (Hsame u Hin E) in *. destruct o; [|done]. split; [done|]. exists i. split; [done|]. right.
      rewrite Hleft. by rewrite decide_True.
    + destruct (K5 u Hin Hp') as (? & j & ? & Ho). split; [done|]. exists j. split; [done|].
      destruct Ho as [?|Ho]; [by left|right]. rewrite Hleft, decide_False; [done|].
      intros (_ & Em & ->). destruct (K4 _ _ _ Ho) as (Hn & _). rewrite Em in Hn. congruence.
  - intros v' Hv' Hp'. upd Hv' (v_id v); [by destruct o|auto].
  - intros v'. rewrite Hheap. intros Hv' Hr'. upd Hv' (v_id v); [rewrite (Hsame u Hin E) in *; done|auto].
  - intros v' j Hv' Hs'. upd Hv' (v_id v); [rewrite (Hsame u Hin E) in *; exact (K8 v j Hv Hs')|by apply K8].
  - intros v' Hv' Hu. upd Hv' (v_id v); [by destruct o|]. apply K9; [done|].
    destruct Hu as [Hu|(m & j & Hu)]; [left; congruence|right]. exists m, j. rewrite Hleft in Hu.
    destruct (decide (o = true /\ m = v_model v /\ j = i)); [congruence|done].
  - assert (forall m j, left_slot t m j <> Some (v_id v)) as Hno.
    { intros m j H. by destruct (K9 v Hv (or_intror (ex_intro _ m (ex_intro _ j H)))). }
    intros m j m' j' id. rewrite !Hleft. clear Hleft.
    destruct (decide (o = true /\ m = v_model v /\ j = i)), (decide (o = true /\ m' = v_model v /\ j' = i)).
    + naive_solver.
    + intros [= <-] H. by destruct (Hno m' j').
    + intros H [= <-]. by destruct (Hno m j).
    + apply K10.
Qed.

Lemma held_slot_models t m i id : held_slot t m i = Some id -> models t !! m = Some (get_slots t m).
Proof. unfold held_slot, get_slots. destruct (models t !! m); [done|]. simpl. unfold at_slot. by rewrite lookup_nil. Qed.

Lemma unbind_spec t m id c now h :
  held_slot t m (h_slot h) = Some id -> heap t !! id = Some h -> h_released h = false ->
  length (holders (get_slots t m)) = length (orphans (get_slots t m)) ->
  let '(orphan, t') := unbind t m id c now in
  (orphan = None \/ orphan = Some id) /\
  (forall m', length (holders (get_slots t m')) = length (orphans (get_slots t m')) ->
     length (holders (get_slots t' m')) = length (orphans (get_slots t' m'))) /\
  (forall m' j, held_slot t' m' j = if decide (m' = m /\ j = h_slot h) then None else held_slot t m' j) /\
  (forall m' j, left_slot t' m' j =
     if decide (bool_decide (is_Some orphan) = true /\ m' = m /\ j = h_slot h) then Some id else left_slot t m' j) /\
  closed t' = closed t /\ heap t' = heap t.
Proof.
  intros Hh Hp Hr Hlen. pose proof (at_slot_lt _ _ _ Hh) as Hlt. unfold unbind.
  rewrite (held_slot_models _ _ _ _ Hh), Hp, Hr. unfold held_slot in Hh. cbn [holders orphans].
  rewrite decide_True by done. cbv zeta.
  match goal with |- context [if ?b then (None, _) else _] => destruct b end; split_and!;
    try (by left); try (by right); try done; unfold put_slots.
  - intros m' Hm. rewrite get_slots_put. case_decide; [|done]. simpl. by rewrite length_insert.
  - intros m' j. unfold held_slot at 1. rewrite get_slots_put. destruct (decide (m' = m)) as [->|Hne]; simpl.
    + rewrite at_slot_insert by done. unfold held_slot. repeat case_decide; naive_solver.
    + by rewrite decide_False by naive_solver.
  - intros m' j. unfold left_slot at 1. rewrite get_slots_put.
    rewrite (decide_False (P := bool_decide _ = true /\ _)) by (rewrite bool_decide_eq_true; intros [[? ?] _]; done).
    by case_decide; subst.
  - intros m' Hm. rewrite get_slots_put. case_decide; [|done]. simpl. by rewrite !length_insert.
  - intros m' j. unfold held_slot at 1. rewrite get_slots_put. destruct (decide (m' = m)) as [->|Hne]; simpl.
    + rewrite at_slot_insert by done. unfold held_slot. repeat case_decide; naive_solver.
    + by rewrite decide_False by naive_solver.
  - intros m' j. unfold left_slot at 1. rewrite get_slots_put, (bool_decide_eq_true_2 (is_Some (Some id))) by done.
    destruct (decide (m' = m)) as [->|Hne]; simpl.
    + rewrite at_slot_insert by lia. unfold left_slot. repeat case_decide; naive_solver.
    + by rewrite decide_False by naive_solver.
Qed.


Lemma update_ext id f g vs : (forall v, v ∈ vs -> v_id v = id -> f v = g v) -> update id f vs = update id g vs.
Proof.
  intros H. apply List.map_ext_in. intros v Hv%list_elem_of_In.
  destruct (Nat.eqb_spec (v_id v) id); [by apply H|done].
Qed.

Lemma linked_return t vs v now c cut looping :
  NoDup (map v_id vs) -> linked t vs -> v ∈ vs -> v_phase v = Forwarding ->
  let '(v', t') := end_serve v now c cut looping t in linked t' (update (v_id v) (fun _ => v') vs).
Proof.
  intros Hnd Hl Hv Hp. unfold end_serve.
  assert (linked t (update (v_id v) (fun _ => leaves false (done_event v cut looping) v) vs) \/
          v_rel v = NoRelease /\ v_slot v <> None) as Hcase.
  { destruct (decide (v_rel v = NoRelease /\ v_slot v <> None)) as [?|Hn]; [by right|left].
    apply (linked_served t vs); [done|..].
    - intros v' Hv'. left. upd Hv' (v_id v); [|exists u; split; [done|apply further_refl]].
      exists u. split; [done|]. rewrite (same_id vs u v Hnd Hin Hv E). split; try done. by right; left.
    - intros u Hu Hpu Hr Hs. apply in_update_ne; [done|]. intros E. rewrite (same_id vs u v Hnd Hu Hv E) in *. tauto.
    - intros _ u Hu Hpu _. apply in_update_ne; [done|]. intros E. rewrite (same_id vs u v Hnd Hu Hv E) in *. congruence. }
  destruct (v_slot v) as [i|] eqn:Hs; [|destruct Hcase as [?|[_ ?]]; done].
  destruct (decide (v_rel v = NoRelease)) as [Hr|Hr].
  - pose proof (k_held _ _ Hl v i Hv Hp Hr Hs) as Hh.
    destruct (k_holder _ _ Hl _ _ _ Hh) as (_ & h & _ & _ & _ & _ & _ & _ & Hhp & <- & Hrel).
    pose proof (unbind_spec t (v_model v) (v_id v) c now h Hh Hhp Hrel (k_len _ _ Hl _)) as Hu.
    destruct (unbind t (v_model v) (v_id v) c now) as [orphan t']. destruct Hu as (Ho & U1 & U2 & U3 & U4 & U5).
    rewrite (update_ext _ _ (leaves (bool_decide (is_Some orphan)) (done_event v cut looping))).
    + eapply linked_end; try done. intros m. apply U1, (k_len _ _ Hl).
    + intros u Hu E. rewrite (same_id vs u v Hnd Hu Hv E). by destruct Ho as [->| ->].
  - destruct (k_rel _ _ Hl v Hv Hr) as (_ & h & Hhp & Hrel). unfold unbind. rewrite Hhp, Hrel.
    destruct Hcase as [Hcase|[? _]]; [|done]. by destruct (models t !! v_model v).
Qed.

(** *** observe *)

(** Release goroutines are started for [ids]. *)
Definition spawn (vs : list Served) (ids : list nat) : list Served :=
  foldl (fun vs id => update id (set_rel Spawned) vs) vs ids.

Lemma spawn_ids vs ids : map v_id (spawn vs ids) = map v_id vs.
Proof.
  revert vs. induction ids as [|id ids IH]; intros vs; simpl; [done|]. rewrite IH. by apply update_ids.
Qed.

(** The table while a reading of [m] is folded in. *)
Definition during (t : slotTable) (m : string) (o : reading) : slotTable :=
  mkTable (<[m := o_slots o]> (models t)) (o_heap o) (o_closed o).

Lemma held_during t m o m' i :
  held_slot (during t m o) m' i = if decide (m' = m) then at_slot (holders (o_slots o)) i else held_slot t m' i.
Proof. unfold held_slot, during. rewrite get_slots_put. by case_decide. Qed.

Lemma left_during t m o m' i :
  left_slot (during t m o) m' i = if decide (m' = m) then at_slot (orphans (o_slots o)) i else left_slot t m' i.
Proof. unfold left_slot, during. rewrite get_slots_put. by case_decide. Qed.

Lemma len_during t m o :
  (forall m', length (holders (get_slots t m')) = length (orphans (get_slots t m'))) ->
  length (holders (o_slots o)) = length (orphans (o_slots o)) ->
  forall m', length (holders (get_slots (during t m o) m')) = length (orphans (get_slots (during t m o) m')).
Proof. intros Ht Ho m'. unfold during. rewrite get_slots_put. case_decide; [done|apply Ht]. Qed.

(** The channels of the orphans in the slots [gone] are closed. *)
Lemma linked_close t t' vs (gone : string -> nat -> bool) :
  linked t vs ->
  (forall m, length (holders (get_slots t' m)) = length (orphans (get_slots t' m))) ->
  (forall m j, held_slot t' m j = held_slot t m j) ->
  (forall m j, left_slot t' m j = if gone m j then None else left_slot t m j) ->
  (forall id, id ∈ closed t' <-> id ∈ closed t \/ exists m j, gone m j = true /\ left_slot t m j = Some id) ->
  heap t' = heap t -> linked t' vs.
Proof.
  intros [K1 K2 K3 K4 K5 K6 K7 K8 K9 K10] Hlen Hheld Hleft Hc Hheap.
  assert (forall m j id, left_slot t' m j = Some id -> left_slot t m j = Some id /\ id ∉ closed t') as Hold.
  { intros m j id. rewrite Hleft. destruct (gone m j) eqn:Eg; [done|]. intros H. split; [done|].
    rewrite Hc. intros [Hin|(m' & j' & Eg' & H')]; [by destruct (K4 _ _ _ H) as (_ & ? & _)|].
    destruct (K10 _ _ _ _ _ H H') as [-> ->]. congruence. }
  split; [done|..].
  - intros m j id. rewrite Hheld, Hheap. apply K2.
  - intros v j. rewrite Hheld. apply K3.
  - intros m j id H. apply Hold in H as [H Hne]. rewrite Hheld. destruct (K4 m j id H) as (? & ? & ?). done.
  - intros v Hv Hp. destruct (K5 v Hv Hp) as (? & j & ? & Ho). split; [done|]. exists j.
    split; [done|]. rewrite Hc, Hleft. destruct Ho as [Ho|Ho]; [by left; left|].
    destruct (gone (v_model v) j) eqn:Eg; [left; right; eauto|by right].
  - done.
  - intros v. rewrite Hheap. apply K7.
  - apply K8.
  - intros v Hv Hu. apply K9; [done|]. destruct Hu as [Hu|(m & j & Hu)].
    + apply Hc in Hu as [Hu|(m & j & _ & Hu)]; [by left|right; eauto].
    + right. exists m, j. by apply Hold.
  - intros m1 i1 m2 i2 id H1 H2. apply (K10 m1 i1 m2 i2 id); by apply Hold.
Qed.

(** A holder whose slot reads idle too long is a phantom. *)
Lemma linked_phantom t t' vs m i id h :
  NoDup (map v_id vs) -> linked t vs -> held_slot t m i = Some id -> heap t !! id = Some h ->
  (forall m, length (holders (get_slots t' m)) = length (orphans (get_slots t' m))) ->
  (forall m' j, held_slot t' m' j = if decide (m' = m /\ j = i) then None else held_slot t m' j) ->
  (forall m' j, left_slot t' m' j = left_slot t m' j) -> closed t' = closed t ->
  heap t' = <[id := mkHolder (h_slot h) (boundAt h) (lastBusy h) true]> (heap t) ->
  linked t' (update id (set_rel Spawned) vs).
Proof.
  intros Hnd [K1 K2 K3 K4 K5 K6 K7 K8 K9 K10] Hh Hhp Hlen Hheld Hleft Hc Hheap.
  destruct (K2 m i id Hh) as (v & h' & Hv & Hid & Hm & Hp & Hr & Hs & _). subst id.
  assert (forall v1, v1 ∈ vs -> v_id v1 = v_id v -> v1 = v) as Hsame by (intros; by eapply same_id).
  split; [done|..].
  - intros m' j id. rewrite Hheld. destruct (decide (m' = m /\ j = i)) as [|E]; [done|]. intros H.
    destruct (K2 m' j id H) as (v1 & h1 & Hv1 & Hid1 & Hm1 & ? & ? & Hs1 & ? & ?).
    assert (v_id v1 <> v_id v) as Hne by (intros E1; rewrite (Hsame v1 Hv1 E1) in *; naive_solver).
    exists v1, h1. rewrite Hheap, lookup_insert_ne by congruence. split; [by apply in_update_ne|done].
  - intros v' j Hv' Hp' Hr' Hs'. upd Hv' (v_id v); [done|]. rewrite Hheld, decide_False; [by apply K3|].
    intros [E1 ->]. pose proof (K3 u i Hin Hp' Hr' Hs') as H. rewrite E1 in H. congruence.
  - intros m' j id. rewrite Hleft, Hc, Hheld. intros H. destruct (K4 m' j id H) as (? & ? & H3).
    split_and!; [by destruct (decide (m' = m /\ j = i))|done|]. intros Hst.
    destruct (H3 Hst) as (v1 & Hv1 & <- & ? & ? & ?). exists v1. split; [|done]. apply in_update_ne; [done|].
    intros E. rewrite (Hsame v1 Hv1 E) in *. congruence.
  - intros v' Hv' Hp'. rewrite Hc. upd Hv' (v_id v); [rewrite (Hsame u Hin E) in *; simpl in *; congruence|].
    destruct (K5 u Hin Hp') as (? & j & ? & ?). split; [done|]. exists j. by rewrite Hleft.
  - intros v' Hv' Hp'. upd Hv' (v_id v); [rewrite (Hsame u Hin E) in *; simpl in *; congruence|auto].
  - intros v' Hv' Hr'. rewrite Hheap. upd Hv' (v_id v).
    + rewrite (Hsame u Hin E) in *. simpl. rewrite Hs. split; [done|]. unfold v_id at 1. simpl. fold (v_id v).
      rewrite lookup_insert_eq. eauto.
    + rewrite lookup_insert_ne by congruence. auto.
  - intros v' j Hv' Hs'. upd Hv' (v_id v); [rewrite (Hsame u Hin E) in *; exact (K8 v j Hv Hs')|by apply K8].
  - intros v' Hv' Hu. assert (used t (v_id v')) as Hu'.
    { destruct Hu as [Hu|(m' & j & Hu)]; [left; congruence|right]. exists m', j. by rewrite <- Hleft. }
    upd Hv' (v_id v); [|by apply K9]. rewrite (Hsame u Hin E) in *. by apply (K9 v Hv Hu').
  - intros m1 i1 m2 i2 id. rewrite !Hleft. apply K10.
Qed.


(** One slot of a reading: its orphan, then its holder. *)
Definition settle_orphan (isBusy : bool) (i : nat) (o : reading) : reading :=
  match at_slot (orphans (o_slots o)) i with
  | Some ch =>
    if negb isBusy
    then mkReading (mkSlots (holders (o_slots o)) (<[i := None]> (orphans (o_slots o))) (busy (o_slots o))
                      (lastObserved (o_slots o))) (o_heap o) ({[ch]} ∪ o_closed o) (o_releases o)
    else o
  | None => o
  end.

Lemma linked_settle t vs m o isBusy i :
  linked (during t m o) vs -> linked (during t m (settle_orphan isBusy i o)) vs.
Proof.
  intros Hl. unfold settle_orphan. destruct (at_slot (orphans (o_slots o)) i) as [ch|] eqn:Ech; [|done].
  destruct isBusy; simpl; [done|]. pose proof (at_slot_lt _ _ _ Ech) as Hlt.
  pose proof (k_len _ _ Hl) as Hlen.
  apply (linked_close (during t m o) _ vs (fun m' j => bool_decide (m' = m /\ j = i))); [done|..].
  - intros m'. specialize (Hlen m'). revert Hlen. unfold during. rewrite !get_slots_put. case_decide; [|done].
    simpl. by rewrite length_insert.
  - intros m' j. by rewrite !held_during.
  - intros m' j. rewrite !left_during. destruct (decide (m' = m)) as [->|Hne]; simpl.
    + rewrite at_slot_insert by done. destruct (decide (j = i)) as [->|];
        [by rewrite bool_decide_eq_true_2|by rewrite bool_decide_eq_false_2 by tauto].
    + by rewrite bool_decide_eq_false_2 by tauto.
  - intros id. simpl. rewrite elem_of_union, elem_of_singleton. split.
    + intros [->|?]; [right|by left]. exists m, i. rewrite bool_decide_eq_true_2 by done.
      by rewrite left_during, decide_True.
    + intros [?|(m' & j & [-> ->]%bool_decide_eq_true_1 & H)]; [by right|left].
      rewrite left_during, decide_True, Ech in H by done. congruence.
  - done.
Qed.

Lemma used_settle t m o isBusy i id : used (during t m (settle_orphan isBusy i o)) id -> used (during t m o) id.
Proof.
  unfold settle_orphan. destruct (at_slot (orphans (o_slots o)) i) as [ch|] eqn:Ech; [|done].
  destruct isBusy; simpl; [done|]. pose proof (at_slot_lt _ _ _ Ech) as Hlt.
  intros [Hu|(m' & j & Hu)].
  - simpl in Hu. apply elem_of_union in Hu as [->%elem_of_singleton|Hu]; [right|by left].
    exists m, i. by rewrite left_during, decide_True.
  - right. exists m', j. revert Hu. rewrite !left_during. case_decide; [|done]. simpl.
    rewrite at_slot_insert by done. by case_decide.
Qed.

Lemma observe_slot_step t vs m o i b phantomAfter now :
  NoDup (map v_id vs) -> linked (during t m o) vs ->
  exists ids, o_releases (observe_slot b phantomAfter now o i) = o_releases o ++ ids /\
    linked (during t m (observe_slot b phantomAfter now o i)) (spawn vs ids) /\
    (forall id, used (during t m (observe_slot b phantomAfter now o i)) id -> used (during t m o) id).
Proof.
  intros Hnd Hl. set (isBusy := default false (b !! i)).
  pose proof (linked_settle t vs m o isBusy i Hl) as H1. pose proof (used_settle t m o isBusy i) as Hused.
  set (o1 := settle_orphan isBusy i o) in *.
  assert (observe_slot b phantomAfter now o i =
    match at_slot (holders (o_slots o1)) i with
    | None => o1
    | Some id =>
      match o_heap o1 !! id with
      | None => o1
      | Some h =>
        if isBusy : bool then
          mkReading (o_slots o1) (<[id := mkHolder (h_slot h) (boundAt h) now (h_released h)]> (o_heap o1)) (o_closed o1) (o_releases o1)
        else if (0 <? phantomAfter) && (phantomAfter <=? time_sub now (lastBusy h)) then
          mkReading (mkSlots (<[i := None]> (holders (o_slots o1))) (orphans (o_slots o1)) (busy (o_slots o1)) (lastObserved (o_slots o1)))
            (<[id := mkHolder (h_slot h) (boundAt h) (lastBusy h) true]> (o_heap o1)) (o_closed o1) (o_releases o1 ++ [id])
        else o1
      end
    end) as ->.
  { subst o1. unfold observe_slot, settle_orphan. fold isBusy. destruct o as [ms hp c rels]. simpl.
    destruct (at_slot (orphans ms) i); [destruct isBusy|]; simpl; by repeat case_match. }
  assert (o_releases o1 = o_releases o) as <- by (subst o1; unfold settle_orphan; by repeat case_match).
  clearbody o1.
  assert (exists ids, o_releases o1 = o_releases o1 ++ ids /\ linked (during t m o1) (spawn vs ids) /\
            forall id, used (during t m o1) id -> used (during t m o) id) as Hstay
    by (exists []; by rewrite app_nil_r).
  destruct (at_slot (holders (o_slots o1)) i) as [id|] eqn:Eh; [|done].
  destruct (o_heap o1 !! id) as [h|] eqn:Ehp; [|done].
  pose proof (at_slot_lt _ _ _ Eh) as Hlt. pose proof (k_len _ _ H1) as Hlen.
  destruct isBusy.
  - exists []. split_and!; [by rewrite app_nil_r| |exact Hused]. apply (linked_table (during t m o1)); [done..|].
    + intros id' h' Hh'. simpl in *. destruct (decide (id' = id)) as [->|Hne].
      * rewrite lookup_insert_eq. rewrite Ehp in Hh'. injection Hh' as <-. eauto.
      * rewrite lookup_insert_ne by done. eauto.
  - destruct ((_ <? _) && _); [|done]. exists [id]. split_and!; [done| |].
    2: { intros id' Hu. apply Hused. destruct Hu as [Hu|(m' & j & Hu)]; [by left|right]. exists m', j.
         revert Hu. by rewrite !left_during. }
    apply (linked_phantom (during t m o1) _ vs m i id h); try done.
    + by rewrite held_during, decide_True.
    + intros m'. specialize (Hlen m'). revert Hlen. unfold during. rewrite !get_slots_put. case_decide; [|done].
      simpl. by rewrite length_insert.
    + intros m' j. rewrite !held_during. destruct (decide (m' = m)) as [->|Hne]; simpl.
      * rewrite at_slot_insert by done. destruct (decide (j = i)) as [->|];
          [by rewrite decide_True|by rewrite decide_False by tauto].
      * by rewrite decide_False by tauto.
    + intros m' j. by rewrite !left_during.
Qed.

Lemma observe_slots t m b phantomAfter now ks o vs :
  NoDup (map v_id vs) -> linked (during t m o) vs ->
  exists ids, o_releases (foldl (observe_slot b phantomAfter now) o ks) = o_releases o ++ ids /\
    linked (during t m (foldl (observe_slot b phantomAfter now) o ks)) (spawn vs ids) /\
    (forall id, used (during t m (foldl (observe_slot b phantomAfter now) o ks)) id -> used (during t m o) id).
Proof.
  revert o vs. induction ks as [|i ks IH]; intros o vs Hnd Hl; simpl.
  - exists []. by rewrite app_nil_r.
  - destruct (observe_slot_step t vs m o i b phantomAfter now Hnd Hl) as (ids1 & E1 & H1 & U1).
    destruct (IH (observe_slot b phantomAfter now o i) (spawn vs ids1)) as (ids2 & E2 & H2 & U2); [by rewrite spawn_ids|exact H1|].
    exists (ids1 ++ ids2). rewrite E2, E1, app_assoc. split_and!; [done| |auto]. unfold spawn in *. by rewrite foldl_app.
Qed.

Lemma linked_observe t vs m b phantomAfter now :
  NoDup (map v_id vs) -> linked t vs ->
  let '(ids, t') := observe t m b phantomAfter now in
  linked t' (spawn vs ids) /\ forall id, used t' id -> used t id.
Proof.
  intros Hnd Hl. pose proof (k_len _ _ Hl) as Hlen. unfold observe. destruct b as [b|].
  - cbv zeta. set (ms := mkSlots _ _ b now). set (o := mkReading ms _ _ _).
    destruct (modelLocked_slots t m (length b)) as (M1 & M2 & _).
    assert (linked (during t m o) vs) as H0.
    { apply (linked_table t); try done.
      - apply len_during; [done|]. apply (modelLocked_len t m (length b)), Hlen.
      - intros m' i. rewrite held_during. case_decide as E; [subst m'; apply M1|done].
      - intros m' i. rewrite left_during. case_decide as E; [subst m'; apply M2|done].
      - intros id h Hh. by exists h. }
    destruct (observe_slots t m b phantomAfter now (seq 0 (length (holders ms))) o vs Hnd H0) as (ids & E & H1 & U1).
    rewrite E. split; [exact H1|]. intros id Hu. apply U1 in Hu as [Hu|(m' & i & Hu)]; [by left|right].
    exists m', i. revert Hu. rewrite left_during. case_decide as E'; [subst m'; by rewrite <- M2|done].
  - cbv beta iota zeta. destruct (modelLocked_slots t m 0) as (M1 & M2 & _).
    pose proof (modelLocked_len t m 0 (Hlen m)) as M4. set (ms := modelLocked t m 0) in *. clearbody ms. split.
    2: { intros id [Hu|(m' & i & Hu)].
      - simpl in Hu. apply elem_of_union in Hu as [Hu|Hu]; [right|by left].
        apply elem_of_list_to_set, list_elem_of_omap in Hu as (x & Hx & E). simpl in E. subst x.
        apply list_elem_of_lookup in Hx as [j Hj]. exists m, j. rewrite <- M2. unfold at_slot. by rewrite Hj.
      - right. exists m', i. revert Hu. unfold left_slot at 1. rewrite get_slots_put.
        case_decide; simpl; [by rewrite at_slot_none|done]. }
    apply (linked_close t _ vs (fun m' _ => bool_decide (m' = m))); [done|..].
    + intros m'. rewrite get_slots_put. case_decide; [|apply Hlen]. simpl. by rewrite length_replicate.
    + intros m' j. unfold held_slot at 1. rewrite get_slots_put. case_decide as E; [subst m'; apply M1|done].
    + intros m' j. unfold left_slot at 1. rewrite get_slots_put. case_decide as E.
      * rewrite bool_decide_eq_true_2 by done. apply at_slot_none.
      * by rewrite bool_decide_eq_false_2.
    + intros id. simpl. rewrite elem_of_union, elem_of_list_to_set, list_elem_of_omap. split.
      * intros [(x & Hx & E)|?]; [right|by left]. simpl in E. subst x.
        apply list_elem_of_lookup in Hx as [j Hj]. exists m, j. rewrite bool_decide_eq_true_2 by done.
        rewrite <- M2. unfold at_slot. by rewrite Hj.
      * intros [?|(m' & j & ->%bool_decide_eq_true_1 & H)]; [by right|left].
        rewrite <- M2 in H. unfold at_slot in H. destruct (orphans ms !! j) as [x|] eqn:Ej; [|done]. simpl in H. subst x.
        exists (Some id). split; [by eapply list_elem_of_lookup_2|done].
    + done.
Qed.


(** *** The channels in use grow by the requests that leave a slot behind *)
Lemma used_bind t m n preferred id now id' : used (bind t m n preferred id now).2 id' -> used t id'.
Proof.
  destruct (modelLocked_slots t m n) as (_ & M2 & _). unfold bind.
  destruct (choose_slot _ _ _) as [k|]; simpl; (intros [Hu|(m' & i & Hu)]; [by left|right]); exists m', i; revert Hu;
    unfold left_slot at 1, put_slots; rewrite get_slots_put; (case_decide as E; [subst m'; simpl; by rewrite <- M2|done]).
Qed.

Lemma at_slot_insert_some l i j x y : at_slot (<[i := Some x]> l) j = Some y -> y = x \/ at_slot l j = Some y.
Proof.
  unfold at_slot. destruct (decide (i < length l)%nat) as [Hi|Hi]; [|rewrite list_insert_ge by lia; by right].
  destruct (decide (j = i)) as [->|Hne]; [rewrite list_lookup_insert_eq by done|rewrite list_lookup_insert_ne by done];
    [intros [= <-]; by left|by right].
Qed.

Lemma used_unbind t m id c now id' : used (unbind t m id c now).2 id' -> used t id' \/ id' = id.
Proof.
  unfold unbind. destruct (models t !! m) as [ms|] eqn:Em; [|by left]. destruct (heap t !! id); [|by left].
  destruct (h_released _); [by left|]. cbv zeta.
  assert (orphans ms = orphans (get_slots t m)) as E by (unfold get_slots; by rewrite Em).
  destruct (negb c || _ || _); simpl; (intros [Hu|(m' & i & Hu)]; [by left; left|]); revert Hu;
    unfold left_slot, put_slots; rewrite get_slots_put; case_decide; subst; simpl; rewrite ?E.
  - intros. left. right. by exists m, i.
  - intros. left. right. by exists m', i.
  - intros [->|Hu]%at_slot_insert_some; [by right|left; right]. by exists m, i.
  - intros. left. right. by exists m', i.
Qed.

End linked.
End ServingSlots.
