(* ===== verification/ServingRuns.v ===== *)
(** The invariant of the serving layer over every run: names are unique, and
    the slot table agrees with the requests that are served. *)

From S2P Require Import Prelude Tier Swappers SchedTypes KvWarm Grace Fifo FifoBase FifoDecide FifoConserve SlotBind Serving ServingSlots.

Module ServingRuns.
Import Tier Swapper Sched KvWarm Grace Fifo FifoBase FifoConserve SlotBind Serving ServingSlots.

(** ** Who is handed a handler *)
Definition grants (l : list Effect) : list HandlerReq :=
  flat_map (fun e => match e with EGrantServe r _ true => [r] | _ => [] end) l.

Lemma granted_by_reqs l : map v_req (granted_by l) = grants l.
Proof.
  induction l as [|e l IH]; [done|]. unfold granted_by, grants in *. simpl. rewrite map_app, IH.
  by destruct e as [| |? ? []| | | | | | |].
Qed.

Lemma granted_by_ids l : map v_id (granted_by l) = map Respond (grants l).
Proof. rewrite <- granted_by_reqs, map_map. done. Qed.

Lemma granted_by_new l v :
  v ∈ granted_by l -> v_phase v = Granted /\ v_rel v = NoRelease /\ v_slot v = None /\ v_event v = None.
Proof.
  unfold granted_by. rewrite list_elem_of_In, in_flat_map. intros (e & _ & Hv%list_elem_of_In).
  destruct e as [| |? ? []| | | | | | |]; try by apply elem_of_nil in Hv.
  by apply list_elem_of_singleton in Hv as ->.
Qed.

Lemma shutdown_grants err s : exists l, OnShutdown err s = set_log s (log s ++ l) /\ grants l = [].
Proof.
  assert (forall ws s, exists l, foldl (fun s w => emit (EGrantError w (ErrShutdown err)) s) s ws
            = set_log s (log s ++ l) /\ grants l = []) as Hg.
  { clear. induction ws as [|w ws IH]; intros s; simpl; [exists []; by rewrite app_nil_r, set_log_log|].
    destruct (IH (emit (EGrantError w (ErrShutdown err)) s)) as (l & -> & Hl).
    exists (EGrantError w (ErrShutdown err) :: l). unfold emit. simpl. by rewrite <- app_assoc. }
  unfold OnShutdown. cbv zeta.
  match goal with |- context [foldl _ s ?ws] => destruct (Hg ws s) as (l1 & E1 & G1) end. rewrite E1.
  match goal with |- context [foldl _ ?x (queued ?x)] => destruct (Hg (queued x) x) as (l2 & E2 & G2) end. rewrite E2.
  match goal with |- context [foldl _ ?x (penalized ?x)] => destruct (Hg (penalized x) x) as (l3 & E3 & G3) end. rewrite E3.
  exists (l1 ++ l2 ++ l3). simpl. split; [by rewrite !app_assoc|].
  unfold grants in *. by rewrite !flat_map_app, G1, G2, G3.
Qed.

Section grants.
Context {A : Type} (f : HandlerReq -> A) {Hf : Unstamped f}.
Hypothesis Hseq : forall r n, f (set_seq r n) = f r.

Lemma answers_grants l : exists lost, answers f l ≡ₚ lost ++ map f (grants l).
Proof.
  induction l as [|e l (lost & IH)]; [by exists []|].
  change (answers f (e :: l)) with (answer f e ++ answers f l).
  change (grants (e :: l)) with ((match e with EGrantServe r _ true => [r] | _ => [] end) ++ grants l).
  rewrite map_app. destruct e as [? []| |? ? []| | | | | | |]; simpl;
    first [ by exists lost | exists (f req :: lost); by rewrite IH | idtac ].
  exists lost. rewrite IH. by rewrite Permutation_middle.
Qed.

(** One event of the scheduler moves requests from those it holds to those it
    hands a handler, and loses the others it lets go. *)
Lemma step_grants {planner : Swapper} cfg env ev s :
  exists new lost, log (step cfg env ev s) = log s ++ new /\
    lost ++ map f (grants new) ++ held f (step cfg env ev s) ≡ₚ
      (match ev with Request req => [f req] | _ => [] end) ++ held f s.
Proof.
  assert (forall s' extra, conserves f s s' extra ->
    exists new lost, log s' = log s ++ new /\ lost ++ map f (grants new) ++ held f s' ≡ₚ extra ++ held f s) as Hc.
  { intros s' extra (new & L & P). destruct (answers_grants new) as (lost & Hl). exists new, lost.
    split; [done|]. by rewrite <- P, Hl, <- app_assoc. }
  assert (forall extra, exists new lost, log s = log s ++ new /\ lost ++ map f (grants new) ++ held f s ≡ₚ extra ++ held f s) as Hstay
    by (intros extra; exists [], extra; by rewrite app_nil_r).
  destruct ev as [req|req|ev|ev| |targets timeout|err| |session]; cbn [step].
  - destruct (sendAdmission_cases env req None s) as [[_ Hg]|[Hg _]].
    + rewrite (OnRequest_gone cfg env req s Hg). apply Hstay.
    + destruct (OnRequest_conserves cfg f env req s Hg) as [H|[[-> Ha]|[err E]]].
      { rewrite Hseq in H. by apply Hc. } { apply Hstay. }
      rewrite E. exists [EAdmit req (Some err)], [f req]. split; [done|]. done.
  - destruct (OnCancel_drops cfg f env req s) as (ws & l & L & Ha & P & _).
    destruct (answers_grants l) as (lost & Hl). rewrite Ha in Hl.
    apply Permutation_nil_l in Hl. symmetry in Hl. apply app_eq_nil in Hl as [_ Hg].
    exists l, (map f ws). split; [exact L|]. rewrite Hg. exact P.
  - apply Hc, OnSwapDone_conserves, Hf.
  - apply Hc, OnServeDone_conserves, Hf.
  - apply Hc, OnTick_conserves, Hf.
  - apply Hc, OnUnload_conserves, Hf.
  - destruct (shutdown_grants err s) as (l & -> & Hl). exists l, []. by rewrite Hl.
  - apply Hstay.
  - apply Hstay.
Qed.

End grants.

Section runs.
Context {planner : Swapper}.
Variable cfg : Settings.
Variable conf : gmap string ServeConfig.
Variable slotPhantomAfter : Z.
Variable strict : Prop.

Abbreviation linked := (linked conf strict).
Abbreviation act := (act cfg conf slotPhantomAfter).

Record inv (r : Router) : Prop := {
  i_names : NoDup (map v_id (served r) ++ held Respond (sched r));
  i_fresh : forall id, id ∈ map v_id (served r) ++ held Respond (sched r) -> (id < nextID r)%nat;
  i_used : forall id, used (slots r) id -> (id < nextID r)%nat /\ id ∉ held Respond (sched r);
  i_linked : linked (slots r) (served r);
}.

Lemma inv_served r : inv r -> NoDup (map v_id (served r)).
Proof. intros [Hn _ _ _]. by apply NoDup_app in Hn as [? _]. Qed.

Lemma inv_id r v : inv r -> v ∈ served r -> (v_id v < nextID r)%nat /\ v_id v ∉ held Respond (sched r).
Proof.
  intros [Hn Hf _ _] Hv. assert (v_id v ∈ map v_id (served r)) as Hin by (apply elem_of_map; eauto). split.
  - apply Hf, elem_of_app. by left.
  - apply NoDup_app in Hn as (_ & Hn & _). by apply Hn.
Qed.

(** *** The run loop *)
Definition asks (ev : Event) : list nat := match ev with Request req => [Respond req] | _ => [] end.

Lemma run_loop_inv env ev vs next r :
  NoDup (map v_id vs ++ asks ev ++ held Respond (sched r)) ->
  (forall id, id ∈ map v_id vs ++ asks ev ++ held Respond (sched r) -> (id < next)%nat) ->
  (forall id, used (slots r) id -> (id < next)%nat /\ id ∉ asks ev ++ held Respond (sched r)) ->
  linked (slots r) vs -> inv (run_loop cfg env ev vs next r).
Proof.
  intros Hn Hf Hu Hl. unfold run_loop.
  destruct (step_grants Respond (fun _ _ => eq_refl) cfg env ev (sched r)) as (new & lost & El & P).
  rewrite El, drop_app_length. set (s := step cfg env ev (sched r)) in *. clearbody s.
  change (match ev with Request req => [Respond req] | _ => [] end) with (asks ev) in P.
  assert (map v_id vs ++ asks ev ++ held Respond (sched r) ≡ₚ
          lost ++ map v_id (vs ++ granted_by new) ++ held Respond s) as P'.
  { rewrite <- P, map_app, granted_by_ids. rewrite <- !app_assoc. apply Permutation_app_swap_app. }
  split; simpl.
  - rewrite P' in Hn. by apply NoDup_app in Hn as (_ & _ & ?).
  - intros id Hid. apply Hf. rewrite P'. apply elem_of_app. by right.
  - intros id H. destruct (Hu id H) as [? Hnot]. split; [done|]. intros Hin. apply Hnot.
    rewrite <- P. apply elem_of_app. right. apply elem_of_app. by right.
  - apply (linked_served _ _ _ vs); [done|..].
    + intros v [Hv|Hv]%elem_of_app; [left; exists v; split; [done|apply further_refl]|right].
      destruct (granted_by_new _ _ Hv) as (? & ? & ? & _). split_and!; try done.
      intros Hused. destruct (Hu _ Hused) as [_ Hnot]. apply Hnot. rewrite <- P, <- granted_by_ids.
      apply elem_of_app. right. apply elem_of_app. left. apply elem_of_map. eauto.
    + intros. apply elem_of_app. by left.
    + intros. apply elem_of_app. by left.
Qed.

(** Requests that finished drop out. *)
Lemma filter_ids (keep : Served -> bool) vs : sublist (map v_id (List.filter keep vs)) (map v_id vs).
Proof.
  induction vs as [|v vs IH]; [done|]. simpl. destruct (keep v); simpl; by constructor.
Qed.

Lemma linked_filter t vs (keep : Served -> bool) :
  linked t vs -> (forall v, v ∈ vs -> keep v = false -> v_phase v = Finished) -> linked t (List.filter keep vs).
Proof.
  intros Hl Hk.
  assert (forall v, v ∈ vs -> v_phase v <> Finished -> v ∈ List.filter keep vs) as Hin.
  { intros v Hv Hp. apply list_elem_of_In, List.filter_In. split; [by apply list_elem_of_In|].
    destruct (keep v) eqn:E; [done|]. by destruct (Hp (Hk v Hv E)). }
  apply (linked_served _ _ _ vs); [done|..].
  - intros v Hv%list_elem_of_In. apply List.filter_In in Hv as [Hv _]. left. exists v.
    split; [by apply list_elem_of_In|apply further_refl].
  - intros v Hv Hp _ _. apply Hin; congruence.
  - intros _ v Hv Hp _. apply Hin; congruence.
Qed.

Lemma linked_update t vs v g :
  NoDup (map v_id vs) -> linked t vs -> v ∈ vs -> further v (g v) ->
  ~ (v_phase v = Forwarding /\ v_rel v = NoRelease) ->
  (strict -> v_phase v = Orphaned -> v_id v ∈ closed t) -> linked t (update (v_id v) g vs).
Proof.
  intros Hnd Hl Hv Hg Hp Hs. apply (linked_served _ _ _ vs); [done|..].
  - intros v' (u & Hu & ->)%elem_of_update. left. destruct (Nat.eqb_spec (v_id u) (v_id v)) as [E|E].
    + rewrite (same_id vs u v Hnd Hu Hv E). by exists v.
    + exists u. split; [done|apply further_refl].
  - intros u Hu Hpu Hr _. apply in_update_ne; [done|]. intros E. rewrite (same_id vs u v Hnd Hu Hv E) in *. tauto.
  - intros Hst u Hu Hpu Hc. apply in_update_ne; [done|]. intros E. rewrite (same_id vs u v Hnd Hu Hv E) in *. auto.
Qed.

(** The names and the scheduler stay; only the table and the requests move. *)
Lemma inv_moves r t vs :
  inv r -> map v_id vs = map v_id (served r) ->
  (forall id, used t id -> used (slots r) id \/ id ∈ map v_id (served r)) -> linked t vs ->
  forall down, inv (mkRouter (sched r) t vs (nextID r) down).
Proof.
  intros Hi Eid Hu Hl down. pose proof Hi as [Hn Hf Hus _]. split; simpl; rewrite ?Eid; [done|done| |done].
  intros id Hid. destruct (Hu id Hid) as [H|H]; [by apply Hus|]. apply elem_of_map in H as (v & Hv & ->).
  by apply inv_id.
Qed.

Lemma inv_deliver env sv vs r :
  inv r -> map v_id vs = map v_id (served r) -> linked (slots r) vs ->
  (forall v, settled v = true -> v_phase v = Finished) ->
  inv (run_loop cfg env (ServeDoneE sv) (List.filter (fun v => negb (settled v)) vs) (nextID r) r).
Proof.
  intros [Hn Hf Hu _] Eid Hl Hs.
  assert (sublist (map v_id (List.filter (fun v => negb (settled v)) vs) ++ held Respond (sched r))
            (map v_id (served r) ++ held Respond (sched r))) as Hsub.
  { apply sublist_app; [|done]. rewrite <- Eid. apply filter_ids. }
  apply run_loop_inv; simpl.
  - by eapply sublist_NoDup.
  - intros id Hid. apply Hf. by apply (elem_of_submseteq _ _ _ Hid), sublist_submseteq.
  - exact Hu.
  - apply linked_filter; [done|]. intros v _ E. apply Hs. by destruct (settled v).
Qed.

Lemma settled_finished v : settled v = true -> v_phase v = Finished.
Proof. unfold settled. by intros [->%bool_decide_eq_true_1 _]%andb_true_iff. Qed.

Definition stale (a : Action) : Prop := match a with AStale _ _ => True | _ => False end.

Lemma begin_inv id now post preferred r v :
  inv r -> find_served id (served r) = Some v -> v_phase v = Granted ->
  let '(slot, t) := begin_serve conf v now post preferred (slots r) in
  inv (with_slots r t (update id (begin slot) (served r))).
Proof.
  intros Hi Hf Hp. apply find_served_spec in Hf as [Hv <-]. pose proof (inv_served r Hi) as Hnd.
  pose proof (i_linked r Hi) as Hl. unfold begin_serve.
  assert (inv (with_slots r (slots r) (update (v_id v) (begin None) (served r)))) as Hnone.
  { apply inv_moves; [done|by apply update_ids|by left|].
    apply (linked_begin conf strict (slots r)); try done. apply Hl. }
  destruct (slot_count conf (v_model v)) as [n|] eqn:Hc; [|done].
  destruct (holdsSlot v) eqn:Hh; [|done]. destruct post; [|done]. simpl.
  destruct (bind _ _ _ _ _ _) as [slot t] eqn:Eb. apply inv_moves; [done|by apply update_ids| |].
  - intros id Hu. left. apply (used_bind _ (v_model v) n preferred (v_id v) now). by rewrite Eb.
  - by eapply linked_bind.
Qed.

Lemma return_inv id now c cut looping r v :
  inv r -> find_served id (served r) = Some v -> v_phase v = Forwarding ->
  let '(v', t) := end_serve v now c cut looping (slots r) in
  inv (mkRouter (sched r) t (update id (fun _ => v') (served r)) (nextID r) (down r)).
Proof.
  intros Hi Hf Hp. apply find_served_spec in Hf as [Hv <-]. pose proof (inv_served r Hi) as Hnd.
  pose proof (linked_return conf strict (slots r) (served r) v now c cut looping Hnd (i_linked r Hi) Hv Hp) as Hl.
  assert (forall id, used (end_serve v now c cut looping (slots r)).2 id -> used (slots r) id \/ id = v_id v) as Hu.
  { intros id. unfold end_serve. destruct (v_slot v); [|by left].
    pose proof (used_unbind (slots r) (v_model v) (v_id v) c now id) as H.
    destruct (unbind _ _ _ _ _). exact H. }
  assert (v_id (end_serve v now c cut looping (slots r)).1 = v_id v) as Hid
    by (unfold end_serve; destruct (v_slot v); [by destruct (unbind _ _ _ _ _)|done]).
  destruct (end_serve v now c cut looping (slots r)) as [v' t]. apply inv_moves; [done| |by intros id [?| ->]%Hu; [left|right; apply elem_of_map; eauto]|done].
  unfold update. rewrite map_map. apply List.map_ext. intros u.
  destruct (Nat.eqb_spec (v_id u) (v_id v)); simpl in *; congruence.
Qed.

Lemma act_inv a r r' : inv r -> (strict -> ~ stale a) -> act a r = Some r' -> inv r'.
Proof.
  intros Hi Hst. pose proof (inv_served r Hi) as Hnd. pose proof Hi as [Hn Hf Hu Hl].
  destruct a as [env ev|env a|id now post preferred|id now c1 c2 looping|model b now|id|id|id now|env id|env id];
    cbn [Serving.act].
  - destruct (outside ev && negb (down r)) eqn:E; [|done]. intros [= <-].
    assert (asks ev = []) as Ea by (by destruct ev). apply run_loop_inv; rewrite ?Ea; done.
  - destruct (down r); [done|]. intros [= <-].
    assert (nextID r ∉ map v_id (served r) ++ held Respond (sched r)) as Hnew by (intros H%Hf; lia).
    apply run_loop_inv; simpl.
    + rewrite <- Permutation_middle. by constructor.
    + intros id. rewrite <- Permutation_middle. intros [->|H%Hf]%elem_of_cons; lia.
    + intros id H. destruct (Hu id H). split; [lia|]. intros [->|?]%elem_of_cons; [lia|done].
    + done.
  - destruct (find_served id (served r)) as [v|] eqn:E; [|done]. destruct (decide (v_phase v = Granted)); [|done].
    pose proof (begin_inv id now post preferred r v Hi E) as H.
    destruct (begin_serve _ _ _ _ _ _) as [slot t]. intros [= <-]. by apply H.
  - destruct (find_served id (served r)) as [v|] eqn:E; [|done]. destruct (decide (v_phase v = Forwarding)); [|done].
    pose proof (return_inv id now c1 (c1 || c2) looping r v) as H.
    destruct (end_serve _ _ _ _ _ _) as [v' t]. intros [= <-]. by apply H.
  - pose proof (linked_observe conf strict (slots r) (served r) model b slotPhantomAfter now Hnd Hl) as H.
    destruct (observe _ _ _ _ _) as [ids t]. intros [= <-]. destruct H as [H1 H2].
    apply inv_moves; [done|apply spawn_ids|by left; apply H2|done].
  - destruct (find_served id (served r)) as [v|] eqn:E; [|done]. destruct (decide (v_rel v = Spawned)) as [Hr|]; [|done].
    intros [= <-]. apply find_served_spec in E as [Hv <-].
    apply inv_moves; [done|by apply update_ids|by left|]. apply linked_update; try done; [|rewrite Hr; by intros [_ ?]|].
    + split; try done; [by left|]. simpl. by rewrite Hr.
    + intros _ Ho. destruct (k_orphaned _ _ _ _ Hl v Hv Ho) as [? _]. congruence.
  - destruct (find_served id (served r)) as [v|] eqn:E; [|done]. destruct (_ && _) eqn:Eb; [|done].
    apply andb_true_iff in Eb as [Hp%bool_decide_eq_true_1 Hc%bool_decide_eq_true_1].
    intros [= <-]. apply find_served_spec in E as [Hv <-].
    apply inv_moves; [done|by apply update_ids|by left|]. apply linked_update; try done; [|intros [? _]; congruence].
    split; try done. by right; left.
  - destruct (find_served id (served r)) as [v|] eqn:E; [|done]. destruct (_ && _) eqn:Eb; [|done].
    apply andb_true_iff in Eb as [Hp%bool_decide_eq_true_1 _].
    intros [= <-]. apply find_served_spec in E as [Hv <-].
    apply inv_moves; [done|by apply update_ids|by left|]. apply linked_update; try done; [|intros [? _]; congruence|].
    + split; try done. by right; left.
    + intros Hs. by destruct (Hst Hs).
  - destruct (find_served id (served r)) as [v|] eqn:E; [|done]. destruct (v_event v) as [sv|]; [|done].
    destruct (_ && _) eqn:Eb; [|done]. apply andb_true_iff in Eb as [Hp%bool_decide_eq_true_1 _].
    intros [= <-]. apply find_served_spec in E as [Hv <-].
    apply inv_deliver; [done|by apply update_ids| |apply settled_finished].
    apply linked_update; try done; [|intros [? _]; congruence|congruence].
    split; try done. by right; right.
  - destruct (find_served id (served r)) as [v|] eqn:E; [|done].
    destruct (_ && _) eqn:Eb; [|done]. apply andb_true_iff in Eb as [Hr%bool_decide_eq_true_1 _].
    intros [= <-]. apply find_served_spec in E as [Hv <-].
    apply inv_deliver; [done|by apply update_ids| |apply settled_finished].
    apply linked_update; try done; [|rewrite Hr; by intros [_ ?]|].
    + split; try done; [by left|]. simpl. by rewrite Hr.
    + intros _ Ho. destruct (k_orphaned _ _ _ _ Hl v Hv Ho) as [? _]. congruence.
Qed.

Lemma inv_new : inv newRouter.
Proof.
  split; simpl; [constructor|by intros id ?%elem_of_nil| |].
  - intros id [Hu|(m & i & Hu)]; simpl in *; [set_solver|].
    unfold left_slot, get_slots in Hu. simpl in Hu. rewrite lookup_empty in Hu. done.
  - assert (forall m i, held_slot newSlotTable m i = None /\ left_slot newSlotTable m i = None) as H0.
    { intros m i. unfold held_slot, left_slot, get_slots. simpl. by rewrite lookup_empty. }
    split; try (intros ? H; by apply elem_of_nil in H); try (intros ? ? H; by apply elem_of_nil in H).
    + intros m. unfold get_slots. simpl. by rewrite lookup_empty.
    + intros m i id. by rewrite (proj1 (H0 m i)).
    + intros m i id. by rewrite (proj2 (H0 m i)).
    + intros m i m' i' id. by rewrite (proj2 (H0 m i)).
Qed.

Lemma run_inv allowed r :
  (forall a r, allowed a r -> strict -> ~ stale a) -> Serving.run cfg conf slotPhantomAfter allowed r -> inv r.
Proof.
  intros Ha. induction 1 as [|a r r' _ IH Hok E]; [apply inv_new|]. eapply act_inv; [exact IH|by eapply Ha|exact E].
Qed.

End runs.
End ServingRuns.
