(* ===== verification/ServingBooks.v ===== *)
(** The books of the whole router: the scheduler's ledger against the requests
    the goroutines actually serve, in every interleaving in which no handler
    returns while its early release is on its way. *)

From S2P Require Import Prelude Tier Swappers SchedTypes KvWarm Grace Fifo FifoBase FifoDecide FifoConserve FifoBooks SlotBind Serving ServingSlots ServingRuns.

Module ServingBooks.
Import Tier Swapper Sched KvWarm Grace Fifo FifoBase FifoConserve FifoBooks SlotBind Serving ServingSlots ServingRuns.

(** What the books hold of a served request. *)
Definition out_of (v : Served) : list out :=
  if StatusRead (v_req v) then []
  else if decide (v_phase v = Finished) then
    if decide (v_rel v = Releasing) then [place (mkOut (v_req v) (v_model v) false)] else []
  else [mkOut (v_req v) (v_model v) (bool_decide (v_rel v = Released))].

Definition books_of (vs : list Served) : list out := flat_map out_of vs.

Lemma books_of_app vs ws : books_of (vs ++ ws) = books_of vs ++ books_of ws.
Proof. apply flat_map_app. Qed.

Lemma books_of_granted l : books_of (granted_by l) = outs_of l.
Proof.
  induction l as [|e l IH]; [done|]. change (e :: l) with ([e] ++ l).
  rewrite outs_app, <- IH. unfold granted_by. rewrite flat_map_app, books_of_app. f_equal.
  destruct e as [| |? ? []| | | | | | |]; try done.
Qed.

Lemma books_of_settled vs : books_of (List.filter (fun v => negb (settled v)) vs) = books_of vs.
Proof.
  induction vs as [|v vs IH]; [done|]. simpl. destruct (settled v) eqn:E; simpl; [|by rewrite IH].
  rewrite IH. unfold settled in E. apply andb_true_iff in E as [E1%bool_decide_eq_true_1 E2%bool_decide_eq_true_1].
  unfold out_of. rewrite E1. simpl. destruct E2 as [-> | ->]; by destruct (StatusRead (v_req v)).
Qed.

Lemma books_of_update id g vs :
  (forall v, v ∈ vs -> v_id v = id -> out_of (g v) = out_of v) -> books_of (update id g vs) = books_of vs.
Proof.
  induction vs as [|v vs IH]; intros Hg; [done|]. simpl. rewrite IH by (intros u Hu; apply Hg; by right). f_equal.
  destruct (Nat.eqb_spec (v_id v) id); [apply Hg; [by left|done]|done].
Qed.

(** What a request's completion says of it. *)
Definition tells (sv : ServeDoneEvent) (v : Served) : Prop :=
  sv_statusRead sv = StatusRead (v_req v) /\ sv_capReleaseOnly sv = false /\ sv_model sv = v_model v /\
  sv_tokens sv = EstimatedTokens (v_req v) /\ sv_ctx sv = Ctx (v_req v) /\ sv_holder sv = Preempted (v_req v) /\
  sv_capReleased sv = capReleased v.

Definition returned (v : Served) : Prop := v_phase v = Orphaned \/ v_phase v = Sending \/ v_phase v = Finished.

Record fair (v : Served) : Prop := {
  fr_returned : returned v -> v_rel v <> Spawned;
  fr_event sv : v_event v = Some sv -> returned v /\ tells sv v;
}.

(** Every attempt's flag is its own. *)
Definition label (r : HandlerReq) : nat * option nat := (Respond r, Preempted r).
#[export] Instance unstamped_label : Unstamped label. Proof. solve_unstamped. Qed.
Definition own (x : nat * option nat) : Prop := x.2 = Some x.1.

(** *** Phantoms hold the slot they lose *)
Lemma observe_ids t m b phantomAfter now id :
  id ∈ (observe t m b phantomAfter now).1 -> exists i, held_slot t m i = Some id.
Proof.
  unfold observe. destruct b as [b|]; simpl; [|by intros ?%elem_of_nil].
  destruct (modelLocked_slots t m (length b)) as (M1 & _ & _).
  set (ms := mkSlots _ _ b now). set (ks := seq 0 _). clearbody ks.
  assert (forall ks o,
    (forall i id, at_slot (holders (o_slots o)) i = Some id -> held_slot t m i = Some id) ->
    (forall id, id ∈ o_releases o -> exists i, held_slot t m i = Some id) ->
    forall id, id ∈ o_releases (foldl (observe_slot b phantomAfter now) o ks) -> exists i, held_slot t m i = Some id)
    as H; [clear|by apply H; simpl; [intros i id'; rewrite M1|intros ? ?%elem_of_nil]].
  induction ks as [|i ks IH]; intros o Hh Hr; [done|]. simpl. apply IH.
  - intros j id. unfold observe_slot. repeat case_match; simplify_eq/=; try apply Hh; intros Hj; apply Hh;
      revert Hj; unfold at_slot; (destruct (decide (j = i)) as [->|]; [|by rewrite list_lookup_insert_ne]);
      (destruct (decide (i < length (holders (o_slots o)))%nat);
        [by rewrite list_lookup_insert_eq|by rewrite list_insert_ge by lia]).
  - intros id. unfold observe_slot. repeat case_match; simplify_eq/=; try apply Hr;
      (intros [?| ->%list_elem_of_singleton]%elem_of_app; [by apply Hr|eauto]).
Qed.

Section books.
Context {planner : Swapper}.
Variable cfg : Settings.
Variable conf : gmap string ServeConfig.
Variable slotPhantomAfter : Z.

Abbreviation inv := (inv conf).
Abbreviation linked := (linked conf).

Record tracked (r : Router) : Prop := {
  t_books : lawful cfg (sched r) (books_of (served r));
  t_own x : x ∈ map label (map v_req (served r)) ++ held label (sched r) -> own x;
  t_fair v : v ∈ served r -> fair v;
}.

(** The handler of [v] returns while no release of its place is under way. *)
Definition calm (a : Action) (r : Router) : Prop :=
  match a with
  | AReturn id _ _ _ _ => forall v, find_served id (served r) = Some v -> v_rel v <> Spawned
  | _ => True
  end.

(** *** The run loop *)
Lemma run_loop_tracked env ev vs next r :
  lawful cfg (step cfg env ev (sched r))
    (books_of vs ++ outs_of (drop (length (log (sched r))) (log (step cfg env ev (sched r))))) ->
  (forall x, x ∈ map label (map v_req vs) ++ held label (sched r) -> own x) ->
  (forall req, ev = Request req -> own (label req)) ->
  (forall v, v ∈ vs -> fair v) -> tracked (run_loop cfg env ev vs next r).
Proof.
  intros Hb Ho Hreq Hf. unfold run_loop.
  destruct (step_grants label (fun _ _ => eq_refl) cfg env ev (sched r)) as (new & lost & El & P).
  assert (forall x, x ∈ map label (grants new) ++ held label (step cfg env ev (sched r)) -> own x) as Hown.
  { intros x Hx. assert (x ∈ lost ++ map label (grants new) ++ held label (step cfg env ev (sched r))) as Hx'
      by (apply elem_of_app; by right).
    rewrite P in Hx'. apply elem_of_app in Hx' as [Hx'|Hx']; [|apply Ho, elem_of_app; by right].
    destruct ev; try by apply elem_of_nil in Hx'. apply list_elem_of_singleton in Hx' as ->. by apply Hreq. }
  rewrite El, drop_app_length in *. split; simpl.
  - by rewrite books_of_app, books_of_granted.
  - intros x. rewrite !map_app, granted_by_reqs, <- app_assoc. intros [Hx|Hx]%elem_of_app; [|by apply Hown].
    apply Ho, elem_of_app. by left.
  - intros v [Hv|Hv]%elem_of_app; [by apply Hf|].
    destruct (granted_by_new _ _ Hv) as (Hp & _ & _ & He). split; [intros [?|[?|?]]; congruence|congruence].
Qed.

(** The scheduler stays; the requests move on. *)
Lemma tracked_moves r t vs :
  tracked r -> books_of vs = books_of (served r) -> map v_req vs = map v_req (served r) ->
  (forall v, v ∈ vs -> fair v) -> forall down, tracked (mkRouter (sched r) t vs (nextID r) down).
Proof. intros [T1 T2 T3] Eb Er Hf down. split; simpl; rewrite ?Eb, ?Er; done. Qed.

Lemma update_reqs id g vs : (forall v, v_req (g v) = v_req v) -> map v_req (update id g vs) = map v_req vs.
Proof.
  intros Hg. unfold update. rewrite map_map. apply List.map_ext. intros v. by destruct (Nat.eqb _ _).
Qed.

Lemma fair_update id g vs :
  (forall v, v ∈ vs -> fair v) -> (forall v, v ∈ vs -> v_id v = id -> fair (g v)) ->
  forall v, v ∈ update id g vs -> fair v.
Proof.
  intros Hf Hg v (u & Hu & ->)%elem_of_update. destruct (Nat.eqb_spec (v_id u) id); auto.
Qed.

(** The requests of [l1 ++ l2] can be told from [v]. *)
Lemma identified_split r l1 v l2 :
  tracked r -> served r = l1 ++ v :: l2 -> (forall x, x ∈ l1 ++ l2 -> v_id x <> v_id v) ->
  identified (mkOut (v_req v) (v_model v) (bool_decide (v_rel v = Released))) (books_of l1 ++ books_of l2).
Proof.
  intros [_ Ho _] E Hne.
  assert (forall u, u ∈ served r -> Preempted (v_req u) = Some (v_id u)) as Hid.
  { intros u Hu. apply (Ho (label (v_req u))), elem_of_app. left. apply elem_of_map. exists (v_req u).
    split; [|done]. apply elem_of_map. eauto. }
  exists (v_id v). split; [simpl; apply Hid; rewrite E; apply elem_of_app; right; by left|].
  intros o Hin _. rewrite <- books_of_app in Hin. unfold books_of in Hin.
  apply list_elem_of_In, in_flat_map in Hin as (u & Hu & Hin). apply list_elem_of_In in Hu, Hin.
  assert (Preempted (o_req o) = None \/ Preempted (o_req o) = Preempted (v_req u)) as [-> | ->]; [|done|].
  - unfold out_of in Hin. repeat case_match; try by apply elem_of_nil in Hin.
    + apply list_elem_of_singleton in Hin as ->. by left.
    + apply list_elem_of_singleton in Hin as ->. by right.
  - rewrite Hid; [intros [= ?]; by apply (Hne u)|]. rewrite E. apply elem_of_app.
    apply elem_of_app in Hu as [?|?]; [by left|right; by right].
Qed.

Lemma OnServeDone_status env sv s :
  sv_statusRead sv = true -> log (OnServeDone cfg env sv s) = log s.
Proof. intros H. unfold OnServeDone. by rewrite H. Qed.

Lemma books_of_mid l1 v l2 : books_of (l1 ++ v :: l2) = books_of l1 ++ out_of v ++ books_of l2.
Proof. by rewrite books_of_app. Qed.

(** A completion reaches the run loop. *)
Lemma deliver_books env sv id r v :
  inv False r -> tracked r -> find_served id (served r) = Some v -> v_event v = Some sv -> v_phase v = Sending ->
  lawful cfg (OnServeDone cfg env sv (sched r))
    (books_of (update id (set_phase Finished) (served r)) ++
     outs_of (drop (length (log (sched r))) (log (OnServeDone cfg env sv (sched r))))).
Proof.
  intros Hi Ht Hf He Hp. pose proof Ht as [Hb _ Hfair].
  destruct (find_served_split id (served r) v (set_phase Finished) (inv_served _ _ r Hi) Hf)
    as (l1 & l2 & E & -> & Hid & Hne).
  assert (v ∈ served r) as Hv by (rewrite E; apply elem_of_app; right; by left).
  destruct (Hfair v Hv) as [F1 F2]. destruct (F2 sv He) as (Hret & T1 & T2 & T3 & T4 & T5 & T6 & T7).
  specialize (F1 Hret). pose proof (identified_split r l1 v l2 Ht E) as Hident. subst id. specialize (Hident Hne).
  rewrite E, books_of_mid in Hb. rewrite books_of_mid. unfold out_of in *. simpl. rewrite Hp in Hb.
  destruct (StatusRead (v_req v)) eqn:Hs; simpl in *.
  { rewrite OnServeDone_status, drop_all, app_nil_r by done. by apply law_status. }
  assert (reports sv (mkOut (v_req v) (v_model v) (bool_decide (v_rel v = Released)))) as Hrep by done.
  unfold capReleased in T7. destruct (v_rel v) eqn:Hr; simpl in *; [|done|..].
  - by apply (law_finish _ _ _ _ _ _ _ Hb).
  - by apply (law_overtake _ _ _ _ _ _ _ Hb).
  - by apply (law_finish _ _ _ _ _ _ _ Hb).
Qed.

(** An early release reaches the run loop. *)
Lemma release_books env id r v :
  inv False r -> tracked r -> find_served id (served r) = Some v -> v_rel v = Releasing ->
  lawful cfg (OnServeDone cfg env (release_event v) (sched r))
    (books_of (update id (set_rel Released) (served r)) ++
     outs_of (drop (length (log (sched r))) (log (OnServeDone cfg env (release_event v) (sched r))))).
Proof.
  intros Hi Ht Hf Hr. pose proof Ht as [Hb _ _].
  destruct (find_served_split id (served r) v (set_rel Released) (inv_served _ _ r Hi) Hf)
    as (l1 & l2 & E & -> & Hid & Hne).
  assert (v ∈ served r) as Hv by (rewrite E; apply elem_of_app; right; by left).
  assert (StatusRead (v_req v) = false) as Hs.
  { destruct (k_rel _ _ _ _ (i_linked _ _ r Hi) v Hv) as [Hslot _]; [congruence|].
    destruct (v_slot v) as [k|] eqn:Ek; [|done].
    destruct (k_slot _ _ _ _ (i_linked _ _ r Hi) v k Hv Ek) as [Hh _]. unfold holdsSlot in Hh.
    by destruct (StatusRead (v_req v)). }
  rewrite E, books_of_mid in Hb. rewrite books_of_mid. unfold out_of in *. simpl. rewrite Hs, Hr in *. simpl in *.
  destruct (decide (v_phase v = Finished)) as [Hp|Hp]; simpl in *.
  - pose proof (law_release _ env (release_event v) _ _ _ _ Hb) as H.
    rewrite <- app_assoc in H |- *. apply (law_forget _ _ (release (place (mkOut (v_req v) (v_model v) false))));
      [by apply H|done].
  - by apply (law_release _ env (release_event v) _ _ _ _ Hb).
Qed.

Lemma filter_in vs v : v ∈ List.filter (fun v => negb (settled v)) vs -> v ∈ vs.
Proof. intros [Hv _]%list_elem_of_In%List.filter_In. by apply list_elem_of_In. Qed.

(** One request moves on, and nothing the books hold of it changes. *)
Lemma update_tracked r t id v g down :
  inv False r -> tracked r -> find_served id (served r) = Some v ->
  v_req (g v) = v_req v -> out_of (g v) = out_of v -> fair (g v) ->
  tracked (mkRouter (sched r) t (update id g (served r)) (nextID r) down).
Proof.
  intros Hi Ht Hf Hr Ho Hfair. apply find_served_spec in Hf as [Hv <-].
  assert (forall u, u ∈ served r -> v_id u = v_id v -> u = v) as Hsame
    by (intros u Hu Hid; exact (same_id _ u v (inv_served _ _ r Hi) Hu Hv Hid)).
  apply tracked_moves; [done|..].
  - apply books_of_update. intros u Hu Hid. by rewrite (Hsame u Hu Hid).
  - unfold update. rewrite map_map. apply List.map_ext_in. intros u Hu%list_elem_of_In.
    destruct (Nat.eqb_spec (v_id u) (v_id v)); [by rewrite (Hsame u)|done].
  - apply fair_update; [apply (t_fair _ Ht)|]. intros u Hu Hid. by rewrite (Hsame u Hu Hid).
Qed.

Lemma deliver_tracked env sv id r v g :
  inv False r -> tracked r -> find_served id (served r) = Some v -> v_req (g v) = v_req v -> fair (g v) ->
  lawful cfg (OnServeDone cfg env sv (sched r))
    (books_of (update id g (served r)) ++
     outs_of (drop (length (log (sched r))) (log (OnServeDone cfg env sv (sched r))))) ->
  tracked (run_loop cfg env (ServeDoneE sv)
    (List.filter (fun v => negb (settled v)) (update id g (served r))) (nextID r) r).
Proof.
  intros Hi Ht Hf Hr Hfair Hb. apply find_served_spec in Hf as [Hv <-].
  assert (forall u, u ∈ served r -> v_id u = v_id v -> u = v) as Hsame
    by (intros u Hu Hid; exact (same_id _ u v (inv_served _ _ r Hi) Hu Hv Hid)).
  apply run_loop_tracked; [by rewrite books_of_settled| |done|].
  - intros x [Hx|Hx]%elem_of_app; [|apply (t_own _ Ht), elem_of_app; by right].
    apply (t_own _ Ht), elem_of_app. left. apply elem_of_map in Hx as (q & Hq & ->).
    apply elem_of_map in Hq as (w & Hw%filter_in & ->).
    apply elem_of_update in Hw as (u & Hu & ->). apply elem_of_map. exists (v_req u).
    split; [apply elem_of_map; eauto|].
    destruct (Nat.eqb_spec (v_id u) (v_id v)) as [E|]; [rewrite (Hsame u Hu E); by rewrite Hr|done].
  - intros w Hw%filter_in. revert w Hw. apply fair_update; [apply (t_fair _ Ht)|].
    intros u Hu Hid. by rewrite (Hsame u Hu Hid).
Qed.

Lemma spawn_tracked ids vs :
  (forall v, v ∈ vs -> fair v) ->
  (forall v, v ∈ vs -> v_id v ∈ ids -> v_phase v = Forwarding /\ (v_rel v = NoRelease \/ v_rel v = Spawned)) ->
  books_of (spawn vs ids) = books_of vs /\ map v_req (spawn vs ids) = map v_req vs /\
  (forall v, v ∈ spawn vs ids -> fair v).
Proof.
  revert vs. induction ids as [|id ids IH]; intros vs Hf Hv; [done|]. simpl.
  assert (forall v, v ∈ vs -> v_id v = id -> out_of (set_rel Spawned v) = out_of v /\ fair (set_rel Spawned v)) as Hs.
  { intros v Hin <-. destruct (Hv v Hin) as [Hp Hr]; [by left|]. split.
    - unfold out_of. simpl. rewrite Hp. by destruct Hr as [-> | ->].
    - split; [intros [?|[?|?]]; simpl in *; congruence|]. intros sv He.
      destruct (fr_event _ (Hf v Hin) sv He) as [[?|[?|?]] _]; congruence. }
  destruct (IH (update id (set_rel Spawned) vs)) as (E1 & E2 & E3).
  - apply fair_update; [done|]. intros v Hin E. by apply Hs.
  - intros v (u & Hu & ->)%elem_of_update. destruct (Nat.eqb_spec (v_id u) id) as [E|E].
    + intros _. destruct (Hv u Hu) as [Hp _]; [rewrite E; by left|]. by split; [|right].
    + intros Hin. apply Hv; [done|by right].
  - unfold spawn in *. rewrite E1, E2. split_and!; [|by apply update_reqs|done].
    apply books_of_update. intros v Hin E. by apply Hs.
Qed.

(** The completion of an orphan is no longer withheld. *)
Lemma sending_tracked r id v :
  inv False r -> tracked r -> find_served id (served r) = Some v -> v_phase v = Orphaned ->
  tracked (with_served r (update id (set_phase Sending) (served r))).
Proof.
  intros Hi Ht E Hp. pose proof (find_served_spec _ _ _ E) as [Hv _]. destruct (t_fair _ Ht v Hv) as [F1 F2].
  apply (update_tracked _ _ _ v); try done.
  - unfold out_of. simpl. by rewrite Hp.
  - split; [intros _; apply F1; by left|]. intros sv He. split; [right; by left|by apply F2].
Qed.

Lemma act_tracked a r r' :
  inv False r -> tracked r -> calm a r -> act cfg conf slotPhantomAfter a r = Some r' -> tracked r'.
Proof.
  intros Hi Ht Hc. pose proof Ht as [Hb Ho Hf]. pose proof (i_linked _ _ r Hi) as Hl.
  destruct a as [env ev|env a|id now post preferred|id now c1 c2 looping|model b now|id|id|id now|env id|env id];
    cbn [act].
  - destruct (outside ev && negb (down r)) eqn:E; [|done]. intros [= <-].
    apply run_loop_tracked; [|done|by intros req ->|done]. apply law_event; [done|by intros sv ->].
  - destruct (down r); [done|]. intros [= <-].
    apply run_loop_tracked; [by apply law_event|done|by intros req [= <-]|done].
  - destruct (find_served id (served r)) as [v|] eqn:E; [|done].
    destruct (decide (v_phase v = Granted)) as [Hp|]; [|done].
    destruct (begin_serve _ _ _ _ _ _) as [slot t]. intros [= <-].
    pose proof (find_served_spec _ _ _ E) as [Hv _]. apply (update_tracked _ _ _ v); try done.
    + unfold out_of. simpl. by rewrite Hp.
    + split; [intros [?|[?|?]]; simpl in *; congruence|]. intros sv He.
      destruct (fr_event _ (Hf v Hv) sv He) as [[?|[?|?]] _]; congruence.
  - destruct (find_served id (served r)) as [v|] eqn:E; [|done].
    destruct (decide (v_phase v = Forwarding)) as [Hp|]; [|done].
    specialize (Hc v E). pose proof (find_served_spec _ _ _ E) as [Hv _].
    assert (exists p t, end_serve v now c1 (c1 || c2) looping (slots r) =
              (return_ p (done_event v (c1 || c2) looping) v, t) /\ (p = Orphaned \/ p = Sending)) as (p & t & -> & Hq).
    { unfold end_serve. destruct (v_slot v); [destruct (unbind _ _ _ _ _) as [[o|] t]|]; eauto. }
    intros [= <-]. apply (update_tracked _ _ _ v); try done.
    + unfold out_of. simpl. rewrite Hp. by destruct Hq as [-> | ->].
    + split; [done|]. intros sv [= <-]. split; [|done]. unfold returned. simpl. tauto.
  - pose proof (observe_ids (slots r) model b slotPhantomAfter now) as Hids.
    destruct (observe _ _ _ _ _) as [ids t]. intros [= <-]. simpl in Hids.
    destruct (spawn_tracked ids (served r) Hf) as (E1 & E2 & E3); [|by apply tracked_moves].
    intros v Hv Hin. destruct (Hids _ Hin) as [k Hk].
    destruct (k_holder _ _ _ _ Hl _ _ _ Hk) as (u & h & Hu & Hid & _ & Hp & Hr & _).
    rewrite (same_id _ u v (inv_served _ _ r Hi) Hu Hv Hid) in *. tauto.
  - destruct (find_served id (served r)) as [v|] eqn:E; [|done].
    destruct (decide (v_rel v = Spawned)) as [Hr|]; [|done]. intros [= <-].
    pose proof (find_served_spec _ _ _ E) as [Hv _]. destruct (Hf v Hv) as [F1 F2].
    apply (update_tracked _ _ _ v); try done.
    + unfold out_of. simpl. rewrite Hr. destruct (decide (v_phase v = Finished)) as [Hp|]; [|done].
      destruct F1; [by right; right|done].
    + split; [done|]. intros sv He. destruct (F2 sv He) as [Hret _]. by destruct (F1 Hret).
  - destruct (find_served id (served r)) as [v|] eqn:E; [|done]. destruct (_ && _) eqn:Eb; [|done].
    apply andb_true_iff in Eb as [Hp%bool_decide_eq_true_1 _]. intros [= <-]. by apply (sending_tracked _ _ v).
  - destruct (find_served id (served r)) as [v|] eqn:E; [|done]. destruct (_ && _) eqn:Eb; [|done].
    apply andb_true_iff in Eb as [Hp%bool_decide_eq_true_1 _]. intros [= <-]. by apply (sending_tracked _ _ v).
  - destruct (find_served id (served r)) as [v|] eqn:E; [|done]. destruct (v_event v) as [sv|] eqn:He; [|done].
    destruct (_ && _) eqn:Eb; [|done]. apply andb_true_iff in Eb as [Hp%bool_decide_eq_true_1 _].
    intros [= <-]. pose proof (find_served_spec _ _ _ E) as [Hv _]. destruct (Hf v Hv) as [F1 F2].
    apply (deliver_tracked _ _ _ _ v); try done; [|by apply (deliver_books _ _ _ _ v)].
    split; [intros _; apply F1; right; by left|]. intros sv' He'. split; [right; by right|by apply F2].
  - destruct (find_served id (served r)) as [v|] eqn:E; [|done].
    destruct (_ && _) eqn:Eb; [|done]. apply andb_true_iff in Eb as [Hr%bool_decide_eq_true_1 _].
    intros [= <-]. pose proof (find_served_spec _ _ _ E) as [Hv _]. destruct (Hf v Hv) as [F1 F2].
    apply (deliver_tracked _ _ _ _ v); try done; [|by apply release_books].
    split; [done|]. intros sv He. destruct (F2 sv He) as [Hret (? & ? & ? & ? & ? & ? & Hc')]. split; [done|].
    split_and!; try done. rewrite Hc'. unfold capReleased. simpl. by rewrite Hr.
Qed.

Lemma run_tracked allowed r :
  (forall a r, allowed a r -> calm a r) -> Serving.run cfg conf slotPhantomAfter allowed r ->
  inv False r /\ tracked r.
Proof.
  intros Ha Hr. split; [by eapply run_inv, Hr|]. induction Hr as [|a r r' Hr IH Hok E].
  - split; simpl; [apply law_new|by intros x ?%elem_of_nil|by intros v ?%elem_of_nil].
  - eapply act_tracked; [|exact IH|by apply Ha|exact E]. by eapply run_inv, Hr.
Qed.

(** The scheduler of a router only ever takes events. *)
Lemma router_reachable allowed r : Serving.run cfg conf slotPhantomAfter allowed r -> reachable cfg (sched r).
Proof.
  induction 1 as [|a r r' _ IH _ E]; [apply reach_new|].
  destruct a as [env ev|env a|id now post preferred|id now c1 c2 looping|model b now|id|id|id now|env id|env id];
    cbn [act] in E; repeat (case_match; simplify_eq; try done);
    first [exact IH | exact (reach_step _ _ _ _ IH)].
Qed.

(** ** What the books say of the requests that are served *)

(** [v] counts against the limit of its model. *)
Definition counts (m : string) (v : Served) : bool :=
  String.eqb (v_model v) m && negb (StatusRead (v_req v)) && negb (bool_decide (v_rel v = Released)) &&
  (negb (bool_decide (v_phase v = Finished)) || bool_decide (v_rel v = Releasing)).

Lemma in_flight_counts m vs : tally (in_flight m) (books_of vs) = Z.of_nat (length (List.filter (counts m) vs)).
Proof.
  induction vs as [|v vs IH]; [done|]. simpl. change (books_of (v :: vs)) with (out_of v ++ books_of vs).
  rewrite tally_app, IH. assert (tally (in_flight m) (out_of v) = one (counts m v)) as ->.
  { unfold out_of, counts. destruct (StatusRead (v_req v)); simpl; [by rewrite andb_false_r|]. rewrite andb_true_r.
    destruct (decide (v_phase v = Finished)) as [Hp|Hp].
    - rewrite Hp, (bool_decide_eq_true_2 (Finished = Finished)) by done. simpl. destruct (decide (v_rel v = Releasing)) as [Hr|Hr].
      + rewrite Hr, tally_cons, tally_nil. unfold in_flight, on. simpl. rewrite !andb_true_r. lia.
      + by rewrite tally_nil, (bool_decide_eq_false_2 (v_rel v = Releasing)), andb_false_r by done.
    - rewrite (bool_decide_eq_false_2 (v_phase v = Finished)), tally_cons, tally_nil by done. simpl. unfold in_flight, on. simpl.
      rewrite andb_true_r. lia. }
  destruct (counts m v); simpl; lia.
Qed.

(** [v] is served in a slot, or waits for one. *)
Definition slotted (m : string) (v : Served) : bool :=
  String.eqb (v_model v) m && holdsSlot v && bool_decide (v_rel v = NoRelease) && negb (bool_decide (v_phase v = Finished)).

Lemma capped_slotted m vs :
  Z.of_nat (length (List.filter (slotted m) vs)) <= tally (capped m) (books_of vs).
Proof.
  induction vs as [|v vs IH]; [done|]. simpl. change (books_of (v :: vs)) with (out_of v ++ books_of vs).
  rewrite tally_app. assert (one (slotted m v) <= tally (capped m) (out_of v)); [|destruct (slotted m v); simpl in *; lia].
  assert (0 <= tally (capped m) (out_of v)) as H0.
  { apply tally_nonneg. intros o. unfold capped, one. by case_match. }
  destruct (slotted m v) eqn:E; [|done]. unfold slotted, holdsSlot in E.
  apply andb_true_iff in E as [[[E1 [E2 E3]%andb_true_iff]%andb_true_iff E4%bool_decide_eq_true_1]%andb_true_iff E5].
  apply negb_true_iff in E2, E3. apply negb_true_iff, bool_decide_eq_false_1 in E5.
  unfold out_of. rewrite E2, (decide_False (P := v_phase v = Finished)), E4 by done.
  rewrite tally_cons, tally_nil. unfold capped, on. simpl. rewrite E1, E3. simpl. lia.
Qed.

End books.
End ServingBooks.
