(* ===== verification/ServingSpec.v ===== *)
(** What the serving layer promises: exact books and a respected limit however
    the goroutines interleave, a slot of its own for every granted request, no
    eviction of a model that is serving; and the two interleavings in which a
    promise fails. *)

From S2P Require Import Prelude Tier Swappers SchedTypes KvWarm Grace Fifo FifoBase FifoConserve FifoSafety FifoBooks SchedExample SlotBind Serving ServingSlots ServingRuns ServingBooks.

Module ServingSpec.
Import Tier Swapper Group Sched KvWarm Grace Fifo FifoBase FifoConserve FifoSafety FifoBooks SlotBind Serving ServingSlots ServingRuns ServingBooks.

(** [v] occupies slot [i] of [m]: it is served there, or was cut there and the
    slot was not seen idle since. *)
Definition occupies (r : Router) (v : Served) (m : string) (i : nat) : Prop :=
  v_model v = m /\ v_slot v = Some i /\
  (v_phase v = Forwarding /\ v_rel v = NoRelease \/ v_phase v = Orphaned /\ v_id v ∉ closed (slots r)).

(** No slot reading went missing long enough for an orphan to be given up. *)
Definition watched (a : Action) (r : Router) : Prop := calm a r /\ ~ stale a.

Section spec.
Context {planner : Swapper}.
Variable cfg : Settings.
Variable conf : gmap string ServeConfig.

Lemma occupies_table r v m i :
  linked conf False (slots r) (served r) -> v ∈ served r -> occupies r v m i ->
  (held_slot (slots r) m i = Some (v_id v) /\ left_slot (slots r) m i = None) \/
  (left_slot (slots r) m i = Some (v_id v) /\ held_slot (slots r) m i = None).
Proof.
  intros Hl Hv (<- & Hs & [[Hp Hr]|[Hp Hc]]).
  - left. pose proof (k_held _ _ _ _ Hl v i Hv Hp Hr Hs) as Hh. split; [done|].
    destruct (left_slot (slots r) (v_model v) i) as [id|] eqn:E; [|done].
    destruct (k_orphan _ _ _ _ Hl _ _ _ E) as (? & _). congruence.
  - right. destruct (k_orphaned _ _ _ _ Hl v Hv Hp) as (_ & j & Hj & [?|Ho]); [done|].
    assert (j = i) as -> by congruence. split; [done|]. by destruct (k_orphan _ _ _ _ Hl _ _ _ Ho).
Qed.

(** A slot that is not free is occupied by a request that is served. *)
Lemma taken_slot r m i :
  linked conf True (slots r) (served r) ->
  held_slot (slots r) m i <> None \/ left_slot (slots r) m i <> None ->
  exists v, v ∈ served r /\ v_slot v = Some i /\ slotted m v = true.
Proof.
  intros Hl Ht. unfold slotted.
  assert (exists v, v ∈ served r /\ v_model v = m /\ v_slot v = Some i /\ v_rel v = NoRelease /\
            (v_phase v = Forwarding \/ v_phase v = Orphaned)) as (v & Hv & <- & Hs & Hr & Hp).
  { destruct (held_slot (slots r) m i) as [id|] eqn:Eh.
    - destruct (k_holder _ _ _ _ Hl _ _ _ Eh) as (v & h & ? & _ & ? & ? & ? & ? & _). exists v. tauto.
    - destruct (left_slot (slots r) m i) as [id|] eqn:El; [|by destruct Ht].
      destruct (k_orphan _ _ _ _ Hl _ _ _ El) as (_ & _ & H). destruct (H I) as (v & Hv & _ & Hm & Hp & Hs).
      exists v. destruct (k_orphaned _ _ _ _ Hl v Hv Hp) as [? _]. tauto. }
  exists v. split_and!; [done..|]. destruct (k_slot _ _ _ _ Hl v i Hv Hs) as [-> _].
  rewrite String.eqb_refl, Hr. by destruct Hp as [-> | ->].
Qed.

(** Distinct slots taken by served requests, and one more request without. *)
Lemma slotted_pigeonhole m n vs v :
  (forall i, (i < n)%nat -> exists v, v ∈ vs /\ v_slot v = Some i /\ slotted m v = true) ->
  v ∈ vs -> v_slot v = None -> slotted m v = true -> (n < length (List.filter (slotted m) vs))%nat.
Proof.
  intros Ht Hv Hs Hm.
  assert (forall u, u ∈ vs -> slotted m u = true -> v_slot u ∈ map v_slot (List.filter (slotted m) vs)) as Hin.
  { intros u Hu Hsu. apply elem_of_map. exists u. split; [|done].
    apply list_elem_of_In, List.filter_In. split; [by apply list_elem_of_In|done]. }
  assert ((None :: map Some (seq 0 n)) ⊆+ map v_slot (List.filter (slotted m) vs)) as Hsub.
  { apply NoDup_submseteq.
    - constructor; [intros (? & ? & [=])%elem_of_map|]. apply NoDup_fmap; [apply _|apply NoDup_seq].
    - intros x [->|(i & Hi & ->)%elem_of_map]%elem_of_cons; [rewrite <- Hs; by apply Hin|].
      apply elem_of_seq in Hi. destruct (Ht i) as (u & Hu & <- & Hsu); [lia|]. by apply Hin. }
  apply submseteq_length in Hsub. simpl in Hsub. rewrite !length_map, length_seq in Hsub. lia.
Qed.

End spec.

(** ** Concrete interleavings *)
Section exec.
Context {planner : Swapper}.
Variable cfg : Settings.
Variable conf : gmap string ServeConfig.
Variable slotPhantomAfter : Z.
Variable ok : Action -> Router -> bool.

Fixpoint exec (acts : list Action) (r : Router) : option Router :=
  match acts with
  | [] => Some r
  | a :: acts =>
    if ok a r then
      match act cfg conf slotPhantomAfter a r with Some r' => exec acts r' | None => None end
    else None
  end.

Lemma exec_run allowed acts r r' :
  (forall a r, ok a r = true -> allowed a r) ->
  Serving.run cfg conf slotPhantomAfter allowed r -> exec acts r = Some r' ->
  Serving.run cfg conf slotPhantomAfter allowed r'.
Proof.
  intros Hok. revert r. induction acts as [|a acts IH]; intros r Hr; simpl; [by intros [= <-]|].
  destruct (ok a r) eqn:Ea; [|done]. destruct (act _ _ _ a r) as [r1|] eqn:E; [|done].
  apply IH. eapply run_act; [exact Hr|by apply Hok|exact E].
Qed.
End exec.

(** Executable forms of [calm] and [watched]. *)
Definition calmb (a : Action) (r : Router) : bool :=
  match a with
  | AReturn id _ _ _ _ =>
    match find_served id (served r) with Some v => negb (bool_decide (v_rel v = Spawned)) | None => true end
  | _ => true
  end.
Definition watchedb (a : Action) (r : Router) : bool :=
  calmb a r && match a with AStale _ _ => false | _ => true end.

Lemma calmb_calm a r : calmb a r = true -> calm a r.
Proof.
  destruct a; simpl; try done. intros H v E. rewrite E in H. by apply negb_true_iff, bool_decide_eq_false_1 in H.
Qed.

Lemma watchedb_watched a r : watchedb a r = true -> watched a r.
Proof.
  unfold watchedb. intros [H1%calmb_calm H2]%andb_true_iff. split; [done|]. destruct a; (discriminate H2 || intros []). 
Qed.

(** [coder] serves two requests, in slots of its own; loading [chat] evicts it. *)
Import SchedExample.
Definition ex_settings : Settings :=
  newSettings (mkFifoConfig ∅ ∅ 0)
    (<["coder"%string := mkModelConfig 2 0 0]> (<["chat"%string := mkModelConfig 0 0 0]> ∅)) false.
Definition ex_serve : gmap string ServeConfig := <["coder"%string := mkServeConfig true true 2]> ∅.

Definition ex_attempt (model : string) : Attempt :=
  mkAttempt model 100 "s" normal false false false None.
Definition ready (t : Z) : Env := ex_env ["coder"%string] t.
Definition at_ (t : Z) : Z := t * nsec_second.

Definition ex_exec (ok : Action -> Router -> bool) (acts : list Action) : Router :=
  default newRouter (exec (planner := ex_planner) ex_settings ex_serve (60 * nsec_second) ok acts newRouter).

Lemma ex_exec_run ok allowed acts :
  (forall a r, ok a r = true -> allowed a r) ->
  Serving.run (planner := ex_planner) ex_settings ex_serve (60 * nsec_second) allowed (ex_exec ok acts).
Proof.
  intros Hok. unfold ex_exec. destruct (exec _ _ _ _ _ _) as [r|] eqn:E; simpl; [|apply run_new].
  eapply exec_run; [exact Hok|apply run_new|exact E].
Qed.

Definition any (a : Action) (r : Router) : bool := true.

(** Two requests begin, in slots 0 and 1. *)
Definition two_turns : list Action :=
  [ AAttempt (ready 100) (ex_attempt "coder"); AAttempt (ready 100) (ex_attempt "coder");
    ABegin 0 (at_ 100) true 0; ABegin 1 (at_ 100) true 0 ].

(** Slot 0 reads idle for a minute while request 0 is still served. *)
Definition phantom : list Action :=
  two_turns ++ [ AObserve "coder" (Some [false; true]) (at_ 160) ].

(** Its release runs after its handler has read the flag. *)
Definition race : list Action :=
  phantom ++ [ AReturn 0 (at_ 161) false false false; ARelease 0;
               ADeliver (ready 161) 0; ADeliverRelease (ready 161) 0;
               AAttempt (ready 162) (ex_attempt "chat") ].

(** The same goroutines without the race. *)
Definition calm_phantom : list Action :=
  phantom ++ [ ARelease 0; AReturn 0 (at_ 161) false false false;
               ADeliver (ready 161) 0; ADeliverRelease (ready 161) 0;
               AAttempt (ready 162) (ex_attempt "coder") ].

(** A lone request is declared a phantom, and [chat] is loaded while it is
    still served. *)
Definition phantom_evicted : list Action :=
  [ AAttempt (ready 100) (ex_attempt "coder"); ABegin 0 (at_ 100) true 0;
    AObserve "coder" (Some [false; false]) (at_ 160); ARelease 0; ADeliverRelease (ready 161) 0;
    AAttempt (ready 162) (ex_attempt "chat") ].

(** Request 0 is cut while its slot is busy, the readings stop, its place is
    given back and the next request is granted. *)
Definition silence : list Action :=
  two_turns ++ [ AObserve "coder" (Some [true; true]) (at_ 101);
                 AReturn 0 (at_ 102) true false false; AStale 0 (at_ 140); ADeliver (ready 140) 0;
                 AAttempt (ready 141) (ex_attempt "coder") ].

(** ** The promises *)

(** C5. However the run loop, the serving goroutines, the slot readings and
    the early releases interleave, as long as no handler returns between the
    start of its early release and the moment that release marks its place as
    given back: the in-flight count of a model is the number of its requests
    whose place was not given back, and those that occupy a slot or wait to be
    bound to one never exceed the model's concurrency limit. *)
Theorem router_books {planner : Swapper} (cfg : Settings) (conf : gmap string ServeConfig)
    (slotPhantomAfter : Z) (r : Router)
    (Hr : Serving.run cfg conf slotPhantomAfter calm r) (m : string) :
  get0 (inFlight (sched r)) m = Z.of_nat (length (List.filter (counts m) (served r))) /\
  Z.of_nat (length (List.filter (slotted m) (served r))) <= Z.max 0 (limit cfg m).
Proof.
  destruct (run_tracked cfg conf slotPhantomAfter calm r (fun _ _ H => H) Hr) as [_ [Hb _ _]].
  apply lawful_ledger in Hb. split.
  - by rewrite (l_inFlight _ _ _ Hb), in_flight_counts.
  - etransitivity; [apply capped_slotted|apply (l_cap _ _ _ Hb)].
Qed.

Lemma router_books_witness :
  get0 (inFlight (sched (ex_exec calmb calm_phantom))) "coder" = 2 /\
  2 <= limit ex_settings "coder".
Proof.
  destruct (router_books (planner := ex_planner) ex_settings ex_serve (60 * nsec_second) _
    (ex_exec_run calmb calm calm_phantom calmb_calm) "coder") as [H1 H2].
  revert H1 H2. vm_compute. intros H1 H2. split; [exact H1|exact H2].
Defined.



(** In every interleaving, two served requests never occupy the same slot
    of a model, an orphaned slot counting as occupied until it reads idle; and a
    slot that is occupied is one of the model's. *)
Theorem slots_exclusive {planner : Swapper} (cfg : Settings) (conf : gmap string ServeConfig)
    (slotPhantomAfter : Z) (r : Router)
    (Hr : Serving.run cfg conf slotPhantomAfter (fun _ _ => True) r) (v1 v2 : Served) (m : string) (i : nat)
    (Hv1 : v1 ∈ served r) (Hv2 : v2 ∈ served r) (H1 : occupies r v1 m i) (H2 : occupies r v2 m i) :
  v1 = v2 /\ exists n, slot_count conf m = Some n /\ (i < n)%nat.
Proof.
  pose proof (run_inv cfg conf slotPhantomAfter False _ r (fun _ _ _ H => False_ind _ H) Hr) as Hi.
  pose proof (i_linked _ _ r Hi) as Hl. split.
  - apply (same_id _ v1 v2 (inv_served _ _ r Hi)); [done..|].
    destruct (occupies_table conf r v1 m i Hl Hv1 H1) as [[E1 E1']|[E1 E1']],
      (occupies_table conf r v2 m i Hl Hv2 H2) as [[E2 E2']|[E2 E2']]; congruence.
  - destruct H1 as (<- & Hs & _). by destruct (k_slot _ _ _ _ Hl v1 i Hv1 Hs) as [_ ?].
Qed.

Lemma slots_exclusive_witness :
  exists v, v ∈ served (ex_exec any two_turns) /\ v_slot v = Some 0%nat /\
    exists n, slot_count ex_serve "coder" = Some n /\ (0 < n)%nat.
Proof.
  destruct (served (ex_exec any two_turns)) as [|v vs] eqn:Ev; [vm_compute in Ev; discriminate Ev|].
  assert (v ∈ served (ex_exec any two_turns)) as Hv by (rewrite Ev; left).
  assert (occupies (ex_exec any two_turns) v "coder" 0) as Ho.
  { clear Hv. vm_compute in Ev. injection Ev as <- _. split_and!; [reflexivity..|left; split; reflexivity]. }
  exists v. split; [rewrite <- Ev; exact Hv|]. split; [exact (proj1 (proj2 Ho))|].
  exact (proj2 (slots_exclusive (planner := ex_planner) ex_settings ex_serve (60 * nsec_second) _
    (ex_exec_run any _ two_turns (fun _ _ _ => I)) v v "coder" 0 Hv Hv Ho Ho)).
Defined.



(** The early release of a place races with the end of its request: the
    release goroutine is started, the handler reads the flag and returns, and
    only then does the goroutine mark the place as given back.  The place is
    given back twice, and a model that is serving a request is evicted. *)
Theorem release_race :
  exists r v sw,
    Serving.run (planner := ex_planner) ex_settings ex_serve (60 * nsec_second) (fun _ _ => True) r /\
    v ∈ served r /\ v_model v = "coder"%string /\ v_phase v = Forwarding /\ v_rel v = NoRelease /\
    get0 (inFlight (sched r)) "coder" = 0 /\
    active (sched r) !! "chat"%string = Some sw /\ v_model v ∈ sw_evict sw.
Proof.
  set (r := ex_exec any race).
  destruct (served r) as [|v vs] eqn:Ev; [vm_compute in Ev; discriminate Ev|].
  destruct (active (sched r) !! "chat"%string) as [sw|] eqn:Es; [|vm_compute in Es; discriminate Es].
  exists r, v, sw. split; [apply ex_exec_run; intros; exact I|]. rewrite Ev, Es. split; [left|].
  assert (get0 (inFlight (sched r)) "coder" = 0) as -> by (vm_compute; reflexivity).
  vm_compute in Ev, Es. injection Ev as <- _. injection Es as <-. split_and!; [reflexivity..|left].
Qed.

(** Without readings the guarantee fails: the place of an orphan is given back
    after [slotObserveStale] while the table still counts its slot as taken, so
    the next granted request finds no slot although the limit is the slot count. *)
Theorem stale_orphan_unbound :
  exists r v n,
    Serving.run (planner := ex_planner) ex_settings ex_serve (60 * nsec_second) calm r /\
    v ∈ served r /\ v_phase v = Granted /\ holdsSlot v = true /\
    slot_count ex_serve (v_model v) = Some n /\ limit ex_settings (v_model v) = Z.of_nat n /\
    forall preferred now, (bind (slots r) (v_model v) n preferred (v_id v) now).1 = None.
Proof.
  set (r := ex_exec calmb silence).
  destruct (served r) as [|u [|v vs]] eqn:Ev; [vm_compute in Ev; discriminate Ev..|].
  exists r, v, 2%nat. split; [apply ex_exec_run, calmb_calm|]. rewrite Ev. split; [right; left|].
  assert (v_model v = "coder"%string /\ v_phase v = Granted /\ holdsSlot v = true) as (Hm & Hp & Hh)
    by (vm_compute in Ev; injection Ev as _ <- _; split_and!; reflexivity).
  rewrite Hm. split; [exact Hp|]. split; [exact Hh|]. split; [reflexivity|]. split; [reflexivity|].
  intros preferred now. clear Ev Hm Hp Hh. unfold bind.
  destruct (choose_slot _ 2 preferred) as [i|] eqn:Ec; [exfalso|reflexivity].
  apply choose_slot_some in Ec as [Hlt Hf]. destruct i as [|[|i]]; [vm_compute in Hf; discriminate Hf..|lia].
Qed.

End ServingSpec.
