(* ===== verification/Float64.v ===== *)
(** Go's [float64]: IEEE 754 binary64, by the Standard Library's executable
    specification of floating point. *)

From Stdlib Require Import SpecFloat.
From S2P Require Import Prelude.

Module Float64.

Definition float64 : Type := spec_float.

Definition of_int (z : Z) : float64 := binary_normalize 53 1024 z 0 false.
Definition fadd (x y : float64) : float64 := SFadd 53 1024 x y.
Definition fsub (x y : float64) : float64 := SFsub 53 1024 x y.
Definition fmul (x y : float64) : float64 := SFmul 53 1024 x y.
Definition fdiv (x y : float64) : float64 := SFdiv 53 1024 x y.
Definition fleb (x y : float64) : bool := SFleb x y.
Definition fltb (x y : float64) : bool := SFltb x y.

(** [int64(x)]: towards zero; Go leaves the result open when it does not fit. *)
Definition to_int (x : float64) : Z :=
  match x with
  | S754_finite s m e =>
    let n := if 0 <=? e then Z.pos m * 2 ^ e else Z.pos m / 2 ^ (- e) in
    if s then - n else n
  | _ => 0
  end.

(** [time.Duration.Minutes] *)
Definition minutes (d : Z) : float64 :=
  fadd (of_int (Z.quot d nsec_minute)) (fdiv (of_int (Z.rem d nsec_minute)) (of_int (60 * nsec_second))).

(** [time.Duration.Seconds] *)
Definition seconds (d : Z) : float64 :=
  fadd (of_int (Z.quot d nsec_second)) (fdiv (of_int (Z.rem d nsec_second)) (of_int nsec_second)).

End Float64.
