(* ===== verification/LoopTrack.v ===== *)
(** The loop guard ([internal/swaputil/looptrack.go]): trailing runs of
    same-size responses, the strike ladder, timed holds, and the yield floor.

    A nil [*LoopTracker] is [None]; the clock is the argument [now]; the events
    handed to the observer are returned beside the new tracker. *)

From S2P Require Import Prelude Float64.

Module LoopTrack.
Import Float64.

Definition DefaultLoopRunBar : Z := 20.
Definition DefaultLoopTolerance : Z := 2.
Definition DefaultMaxLoopTokens : Z := 256.
Definition DefaultLoopMaxPeriod : Z := 3.
Definition loopHistoryMin : Z := 64.
Definition loopSessionTTL : Z := 30 * nsec_minute.
Definition PenaltyReasonLoop : string := "loop".
Definition PenaltyReasonYield : string := "yield".
Definition DefaultYieldFloorTokPerMin : float64 := of_int 10.
Definition DefaultYieldFloorMinutes : Z := 15.
Definition PenaltyEventStrike : string := "strike".
Definition PenaltyEventHoldStart : string := "hold-start".
Definition PenaltyEventHoldEnd : string := "hold-end".
Definition PenaltyEventUnpenalize : string := "unpenalize".

Record LoopGuard := mkGuard {
  RunBar : Z;
  ToleranceTokens : Z;
  Strikes : Z;
  PenaltySeconds : list Z;
  ClearRequests : Z;
  MaxLoopTokens : Z;
  MaxPeriod : Z;
  YieldFloorTokPerMin : float64;
  YieldFloorMinutes : Z;
}.

Definition DefaultLoopGuard : LoopGuard :=
  mkGuard DefaultLoopRunBar DefaultLoopTolerance 3 [0; 900; 3600] 10 DefaultMaxLoopTokens
    DefaultLoopMaxPeriod DefaultYieldFloorTokPerMin DefaultYieldFloorMinutes.

Record LoopPenaltyEvent := mkEvent {
  ev_SessionID : string;
  ev_Kind : string;
  ev_Reason : string;
  ev_Strike : Z;
  ev_HoldSeconds : Z;
  ev_UniformRun : Z;
  ev_TypicalTokens : Z;
  ev_Source : string;
  ev_UserAgent : string;
}.

Record PenaltyState := mkPenalty {
  ps_Reason : string;
  ps_Strike : Z;
  ps_Strikes : Z;
  ps_Held : bool;
  ps_HeldForever : bool;
  ps_Until : Z;
  ps_UniformRun : Z;
  ps_TypicalTokens : Z;
}.

Record yieldRecord := mkYield { y_at : Z; y_tokens : Z; y_session : string }.

Definition yieldRingMax : Z := 128.

Record loopHistory := mkHistory {
  tokens : list Z;
  last : Z;
  strike : Z;
  heldUntil : Z;
  heldForever : bool;
  clearStreak : Z;
  yieldRing : list yieldRecord;
  yieldHead : Z;
  yieldCount : Z;
  yieldBreachStart : Z;
  yieldLastStrike : Z;
}.

(** [&loopHistory{}] *)
Definition new_history : loopHistory :=
  mkHistory [] 0 0 0 false 0 (replicate (Z.to_nat yieldRingMax) (mkYield 0 0 "")) 0 0 0 0.

Record LoopTracker := mkTracker {
  guard : LoopGuard;
  historyMax : Z;
  sessions : gmap string loopHistory;
}.

Definition set_sessions (t : LoopTracker) x : LoopTracker := mkTracker (guard t) (historyMax t) x.
Definition put (t : LoopTracker) (id : string) (h : loopHistory) : LoopTracker :=
  set_sessions t (<[id := h]> (sessions t)).

(** [now.Before(heldUntil)] of a set deadline, or a hold without one. *)
Definition hold_active (h : loopHistory) (now : Z) : bool :=
  heldForever h || (negb (is_zero_time (heldUntil h)) && before now (heldUntil h)).

Definition set_breach (h : loopHistory) (start : Z) : loopHistory :=
  mkHistory (tokens h) (last h) (strike h) (heldUntil h) (heldForever h) (clearStreak h)
    (yieldRing h) (yieldHead h) (yieldCount h) start (yieldLastStrike h).
Definition set_lastStrike (h : loopHistory) (at_ : Z) : loopHistory :=
  mkHistory (tokens h) (last h) (strike h) (heldUntil h) (heldForever h) (clearStreak h)
    (yieldRing h) (yieldHead h) (yieldCount h) (yieldBreachStart h) at_.
Definition set_clearStreak (h : loopHistory) (n : Z) : loopHistory :=
  mkHistory (tokens h) (last h) (strike h) (heldUntil h) (heldForever h) n
    (yieldRing h) (yieldHead h) (yieldCount h) (yieldBreachStart h) (yieldLastStrike h).
Definition set_penalty (h : loopHistory) (strike until : Z) (forever : bool) : loopHistory :=
  mkHistory (tokens h) (last h) strike until forever (clearStreak h)
    (yieldRing h) (yieldHead h) (yieldCount h) (yieldBreachStart h) (yieldLastStrike h).

(** *** Construction *)
Definition NewLoopTracker (g : LoopGuard) : LoopTracker :=
  let g := mkGuard
    (if RunBar g <=? 0 then DefaultLoopRunBar else RunBar g)
    (if ToleranceTokens g <? 0 then DefaultLoopTolerance else ToleranceTokens g)
    (if Strikes g <? 1 then 1 else Strikes g)
    (PenaltySeconds g)
    (if ClearRequests g <? 1 then ClearRequests DefaultLoopGuard else ClearRequests g)
    (if MaxLoopTokens g <? 1 then DefaultMaxLoopTokens else MaxLoopTokens g)
    (if MaxPeriod g <? 1 then DefaultLoopMaxPeriod else MaxPeriod g)
    (YieldFloorTokPerMin g) (YieldFloorMinutes g) in
  let historyMax := i64 (RunBar g * Strikes g + 1) in
  mkTracker g (if historyMax <? loopHistoryMin then loopHistoryMin else historyMax) ∅.

(** *** Trailing runs *)

(** [periodRun]: [back] is the history from the newest response on; [los] and
    [his] hold the smallest and largest response of each phase so far. *)
Fixpoint period_walk (tolerance maxTokens : Z) (p : nat) (back los his : list Z) (run : nat) : nat :=
  match back with
  | [] => run
  | v :: back =>
    if maxTokens <? v then run
    else
      let ph := (run mod p)%nat in
      if Nat.eqb ph (length los) then
        period_walk tolerance maxTokens p back (los ++ [v]) (his ++ [v]) (S run)
      else
        let lo := if v <? nth ph los 0 then v else nth ph los 0 in
        let hi := if nth ph his 0 <? v then v else nth ph his 0 in
        if tolerance <? i64 (hi - lo) then run
        else period_walk tolerance maxTokens p back (<[ph := lo]> los) (<[ph := hi]> his) (S run)
  end.

Definition periodRun (tokens : list Z) (tolerance maxTokens : Z) (p : Z) : Z :=
  Z.of_nat (period_walk tolerance maxTokens (Z.to_nat p) (rev tokens) [] [] 0).

Fixpoint best_run (tokens : list Z) (tolerance maxTokens : Z) (p : Z) (n : nat) (best : Z) : Z :=
  match n with
  | O => best
  | S n =>
    let run := periodRun tokens tolerance maxTokens p in
    let run := if (1 <? p) && (run <? 2 * p) then 0 else run in
    best_run tokens tolerance maxTokens (p + 1) n (if best <? run then run else best)
  end.

Definition runLocked (tokens : list Z) (tolerance maxTokens maxPeriod : Z) : Z :=
  best_run tokens tolerance maxTokens 1 (Z.to_nat maxPeriod) 0.

Definition medianOfRun (tokens : list Z) (tolerance maxTokens maxPeriod : Z) : Z :=
  let run := runLocked tokens tolerance maxTokens maxPeriod in
  if run =? 0 then 0
  else
    let vals := merge_sort Z.le (drop (length tokens - Z.to_nat run) tokens) in
    nth (length vals / 2) vals 0.

Definition run_of (t : LoopTracker) (h : loopHistory) : Z :=
  runLocked (tokens h) (ToleranceTokens (guard t)) (MaxLoopTokens (guard t)) (MaxPeriod (guard t)).
Definition median_of (t : LoopTracker) (h : loopHistory) : Z :=
  medianOfRun (tokens h) (ToleranceTokens (guard t)) (MaxLoopTokens (guard t)) (MaxPeriod (guard t)).

Definition Run (t : option LoopTracker) (sessionID : string) : Z :=
  match t with
  | None => 0
  | Some t => match sessions t !! sessionID with None => 0 | Some h => run_of t h end
  end.

Definition Looping (t : option LoopTracker) (sessionID : string) : bool :=
  match t with
  | None => false
  | Some tr => RunBar (guard tr) <=? Run t sessionID
  end.

(** *** The strike ladder *)
Definition holdSecondsFor (t : LoopTracker) (strike : Z) : Z :=
  if (strike <? 1) || (Z.of_nat (length (PenaltySeconds (guard t))) <? strike) then 0
  else nth (Z.to_nat (strike - 1)) (PenaltySeconds (guard t)) 0.

Definition loop_event (id kind : string) (strike hold run typical : Z) : LoopPenaltyEvent :=
  mkEvent id kind PenaltyReasonLoop strike hold run typical "" "".

Definition advanceLocked (t : LoopTracker) (sessionID : string) (h : loopHistory) (now : Z)
  : loopHistory * list LoopPenaltyEvent :=
  let run := run_of t h in
  if run <? RunBar (guard t) then
    let h := set_clearStreak h (clearStreak h + 1) in
    if (clearStreak h <? ClearRequests (guard t)) || (strike h =? 0) then (h, [])
    else
      let held := negb (is_zero_time (heldUntil h)) || heldForever h in
      (set_clearStreak (set_penalty h 0 0 false) 0,
       if held then [loop_event sessionID PenaltyEventHoldEnd (strike h) 0 run 0] else [])
  else
    let h := set_clearStreak h 0 in
    let target := Z.quot run (RunBar (guard t)) in
    let target := if Strikes (guard t) <? target then Strikes (guard t) else target in
    if target <=? strike h then (h, [])
    else
      let hold := holdSecondsFor t target in
      let typical := median_of t h in
      let struck := loop_event sessionID PenaltyEventStrike target hold run typical in
      let started := loop_event sessionID PenaltyEventHoldStart target hold run typical in
      if hold <? 0 then (set_penalty h target 0 true, [struck; started])
      else if 0 <? hold then
        (set_penalty h target (now + i64 (hold * nsec_second)) false, [struck; started])
      else (set_penalty h target (heldUntil h) (heldForever h), [struck]).

Definition pruneLocked (t : LoopTracker) (now : Z) : LoopTracker :=
  set_sessions t (filter (fun kv : string * loopHistory =>
    hold_active kv.2 now || negb (loopSessionTTL <=? time_sub now (last kv.2)) = true) (sessions t)).

Definition append_tokens (t : LoopTracker) (h : loopHistory) (respTokens now : Z) : loopHistory :=
  let toks := tokens h ++ [respTokens] in
  let toks := if historyMax t <? Z.of_nat (length toks)
              then drop (length toks - Z.to_nat (historyMax t)) toks else toks in
  mkHistory toks now (strike h) (heldUntil h) (heldForever h) (clearStreak h)
    (yieldRing h) (yieldHead h) (yieldCount h) (yieldBreachStart h) (yieldLastStrike h).

Definition append_yield (h : loopHistory) (r : yieldRecord) : loopHistory :=
  mkHistory (tokens h) (last h) (strike h) (heldUntil h) (heldForever h) (clearStreak h)
    (<[Z.to_nat (Z.rem (yieldHead h) yieldRingMax) := r]> (yieldRing h))
    (yieldHead h + 1) (yieldCount h + 1) (yieldBreachStart h) (yieldLastStrike h).

Definition history (t : LoopTracker) (id : string) : loopHistory :=
  default new_history (sessions t !! id).

Definition Record_ (t : option LoopTracker) (now : Z) (sessionID : string) (respTokens : Z)
  : option LoopTracker * list LoopPenaltyEvent :=
  match t with
  | None => (None, [])
  | Some t =>
    if String.eqb sessionID "" then (Some t, [])
    else
      let h := append_tokens t (history t sessionID) respTokens now in
      let h := append_yield h (mkYield now respTokens sessionID) in
      let '(h, events) := advanceLocked t sessionID h now in
      (Some (pruneLocked (put t sessionID h) now), events)
  end.

(** *** Holds *)
Definition expireHoldLocked (sessionID : string) (h : loopHistory) (now : Z)
  : loopHistory * list LoopPenaltyEvent :=
  if heldForever h || is_zero_time (heldUntil h) || before now (heldUntil h) then (h, [])
  else (set_penalty h (strike h) 0 (heldForever h),
        [loop_event sessionID PenaltyEventHoldEnd (strike h) 0 0 0]).

(** [held, until, forever] *)
Definition Held (t : option LoopTracker) (now : Z) (sessionID : string)
  : (bool * Z * bool) * option LoopTracker * list LoopPenaltyEvent :=
  match t with
  | None => (false, 0, false, None, [])
  | Some t =>
    if String.eqb sessionID "" then (false, 0, false, Some t, [])
    else match sessions t !! sessionID with
    | None => (false, 0, false, Some t, [])
    | Some h =>
      let '(h, events) := expireHoldLocked sessionID h now in
      (heldForever h || negb (is_zero_time (heldUntil h)),
       if heldForever h then 0 else heldUntil h, heldForever h,
       Some (put t sessionID h), events)
    end
  end.

Definition Penalty (t : option LoopTracker) (now : Z) (sessionID : string)
  : option PenaltyState * option LoopTracker * list LoopPenaltyEvent :=
  match t with
  | None => (None, None, [])
  | Some t =>
    if String.eqb sessionID "" then (None, Some t, [])
    else match sessions t !! sessionID with
    | None => (None, Some t, [])
    | Some h =>
      if strike h =? 0 then (None, Some t, [])
      else
        let '(h, events) := expireHoldLocked sessionID h now in
        (Some (mkPenalty PenaltyReasonLoop (strike h) (Strikes (guard t))
                 (heldForever h || negb (is_zero_time (heldUntil h))) (heldForever h)
                 (if heldForever h then 0 else heldUntil h) (run_of t h) (median_of t h)),
         Some (put t sessionID h), events)
    end
  end.

Definition Unpenalize (t : option LoopTracker) (sessionID source userAgent : string)
  : option LoopTracker * list LoopPenaltyEvent :=
  match t with
  | None => (None, [])
  | Some t =>
    if String.eqb sessionID "" then (Some t, [])
    else match sessions t !! sessionID with
    | None => (Some t, [])
    | Some h =>
      (Some (set_sessions t (delete sessionID (sessions t))),
       [mkEvent sessionID PenaltyEventUnpenalize PenaltyReasonLoop (strike h) 0 0 0 source userAgent])
    end
  end.

Definition HeldSessions (t : option LoopTracker) (now : Z) : list string :=
  match t with
  | None => []
  | Some t => sort_strings (map fst (List.filter (fun kv => hold_active kv.2 now) (map_to_list (sessions t))))
  end.

(** *** The yield floor *)
Definition yieldFloorMinutes (t : LoopTracker) : Z :=
  if YieldFloorMinutes (guard t) <=? 0 then DefaultYieldFloorMinutes else YieldFloorMinutes (guard t).

Definition yieldFloorTokPerMin (t : LoopTracker) : float64 :=
  if fleb (YieldFloorTokPerMin (guard t)) (of_int 0) then DefaultYieldFloorTokPerMin
  else YieldFloorTokPerMin (guard t).

Definition InflightYield (t : option LoopTracker) (elapsed produced : Z) : float64 :=
  match t with
  | None => of_int 0
  | Some _ =>
    if (elapsed <=? 0) || (produced <=? 0) then of_int 0
    else fdiv (of_int produced) (minutes elapsed)
  end.

Definition yield_event (t : LoopTracker) (sessionID : string) (yield : float64) : LoopPenaltyEvent :=
  mkEvent sessionID PenaltyEventStrike PenaltyReasonYield 1 0 0
    (to_int (fmul yield (of_int (yieldFloorMinutes t)))) "" "".

(** [time.Duration(floor)*time.Minute] *)
Definition yield_window (t : LoopTracker) : Z := i64 (yieldFloorMinutes t * nsec_minute).

Definition CheckYieldFloor (t : option LoopTracker) (now : Z) (sessionID : string) (elapsed produced : Z)
  : option LoopPenaltyEvent * option LoopTracker :=
  match t with
  | None => (None, None)
  | Some t =>
    if String.eqb sessionID "" then (None, Some t)
    else if yieldFloorMinutes t <=? 0 then (None, Some t)
    else
      let yield := InflightYield (Some t) elapsed produced in
      let h := history t sessionID in
      if fleb (yieldFloorTokPerMin t) yield || (produced <=? 0) then
        (None, Some (put t sessionID (set_breach h 0)))
      else if is_zero_time (yieldBreachStart h) then
        let h := set_breach h (now - elapsed) in
        if yield_window t <=? elapsed then
          (Some (yield_event t sessionID yield), Some (put t sessionID (set_lastStrike h now)))
        else (None, Some (put t sessionID h))
      else if time_sub now (yieldBreachStart h) <? yield_window t then
        (None, Some (put t sessionID h))
      else if negb (is_zero_time (yieldLastStrike h)) &&
              (time_sub now (yieldLastStrike h) <? yield_window t) then
        (None, Some (put t sessionID h))
      else (Some (yield_event t sessionID yield), Some (put t sessionID (set_lastStrike h now)))
  end.

End LoopTrack.
