(* ===== verification/LoopRuns.v ===== *)
(** Trailing runs: [runLocked] finds the longest trailing stretch of the
    history that repeats a cycle of response sizes. *)

From S2P Require Import Prelude Float64 LoopTrack.

Module LoopRuns.
Import LoopTrack.

Section runs.
Variables tolerance maxTokens : Z.

(** The last [n] responses of [tokens] stay below the ceiling and repeat a
    cycle of [p] sizes; [nth i (rev tokens) 0] is the response [i] steps back. *)
Definition periodic (tokens : list Z) (p n : nat) : Prop :=
  (n <= length tokens)%nat /\
  (forall i, (i < n)%nat -> nth i (rev tokens) 0 <= maxTokens) /\
  (forall i j, (i < n)%nat -> (j < n)%nat -> (i mod p = j mod p)%nat ->
     nth i (rev tokens) 0 - nth j (rev tokens) 0 <= tolerance).

Lemma periodic_less tokens p n k : periodic tokens p n -> (k <= n)%nat -> periodic tokens p k.
Proof.
  intros (H1 & H2 & H3) Hk. split_and!; [lia|intros i Hi; apply H2; lia|].
  intros i j Hi Hj. apply H3; lia.
Qed.

Section walk.
Variables (b : list Z) (p : nat).
Hypothesis Hp : (0 < p)%nat.
Hypothesis Htol : 0 <= tolerance.
Hypothesis Hb : Forall (fun v => 0 <= v <= max_int64) b.

Abbreviation at_ i := (nth i b 0).

Definition good (n : nat) : Prop :=
  (forall i, (i < n)%nat -> at_ i <= maxTokens) /\
  (forall i j, (i < n)%nat -> (j < n)%nat -> (i mod p = j mod p)%nat -> at_ i - at_ j <= tolerance).

(** [x] is the bound, in the direction [le], of phase [ph] among the first [n]. *)
Definition extreme (le : Z -> Z -> Prop) (n ph : nat) (x : Z) : Prop :=
  (exists i, (i < n)%nat /\ (i mod p)%nat = ph /\ at_ i = x) /\
  forall i, (i < n)%nat -> (i mod p)%nat = ph -> le x (at_ i).

Record phases (n : nat) (los his : list Z) : Prop := {
  ph_los : length los = (n `min` p)%nat;
  ph_his : length his = (n `min` p)%nat;
  ph_lo : forall ph, (ph < length los)%nat -> extreme Z.le n ph (nth ph los 0);
  ph_hi : forall ph, (ph < length his)%nat -> extreme Z.ge n ph (nth ph his 0);
}.

Lemma nth_insert_eq (l : list Z) i x : (i < length l)%nat -> nth i (<[i := x]> l) 0 = x.
Proof. intros Hi. apply nth_lookup_Some. by apply list_lookup_insert_eq. Qed.

Lemma nth_insert_ne (l : list Z) i j x : i <> j -> nth j (<[i := x]> l) 0 = nth j l 0.
Proof. intros Hne. by rewrite !nth_lookup, list_lookup_insert_ne. Qed.

Lemma extreme_grow le n ph x :
  (n mod p)%nat <> ph -> extreme le n ph x -> extreme le (S n) ph x.
Proof.
  intros Hne [(i & Hi & Hm & E) Hall]. split; [exists i; split_and!; [lia|done|done]|].
  intros j Hj Hmj. apply Hall; [|done]. assert (j <> n) by (intros ->; done). lia.
Qed.

Lemma extreme_first le n : (n < p)%nat -> le (at_ n) (at_ n) -> extreme le (S n) n (at_ n).
Proof.
  intros Hn Hle. split; [exists n; split_and!; [lia|by apply Nat.mod_small|done]|].
  intros i Hi Hm. rewrite Nat.mod_small in Hm by lia. by subst i.
Qed.

Lemma extreme_lo n x : extreme Z.le n (n mod p) x ->
  extreme Z.le (S n) (n mod p) (if at_ n <? x then at_ n else x).
Proof.
  intros [(i & Hi & Hm & E) Hall]. split.
  - destruct (Z.ltb_spec (at_ n) x); [exists n|exists i]; split_and!; try done; lia.
  - intros j Hj Hmj. destruct (decide (j = n)) as [->|Hne]; [destruct (Z.ltb_spec (at_ n) x); lia|].
    specialize (Hall j ltac:(lia) Hmj). destruct (Z.ltb_spec (at_ n) x); lia.
Qed.

Lemma extreme_hi n x : extreme Z.ge n (n mod p) x ->
  extreme Z.ge (S n) (n mod p) (if x <? at_ n then at_ n else x).
Proof.
  intros [(i & Hi & Hm & E) Hall]. split.
  - destruct (Z.ltb_spec x (at_ n)); [exists n|exists i]; split_and!; try done; lia.
  - intros j Hj Hmj. destruct (decide (j = n)) as [->|Hne]; [destruct (Z.ltb_spec x (at_ n)); lia|].
    specialize (Hall j ltac:(lia) Hmj). destruct (Z.ltb_spec x (at_ n)); lia.
Qed.

Lemma at_bound i : 0 <= at_ i <= max_int64.
Proof.
  destruct (nth_in_or_default i b 0) as [Hin| ->]; [|unfold max_int64; lia].
  rewrite Forall_forall in Hb. by apply Hb, list_elem_of_In.
Qed.

Lemma at_diff i j : i64 (at_ i - at_ j) = at_ i - at_ j.
Proof. pose proof (at_bound i). pose proof (at_bound j). apply i64_id. unfold max_int64, min_int64 in *. lia. Qed.

(** A new phase starts. *)
Lemma phases_new n los his :
  length los = (n mod p)%nat -> phases n los his ->
  (n < p)%nat /\ phases (S n) (los ++ [at_ n]) (his ++ [at_ n]).
Proof.
  intros Hph [L1 L2 H1 H2]. pose proof (Nat.mod_upper_bound n p ltac:(lia)) as Hub.
  assert (n < p)%nat as Hn by (rewrite L1 in Hph; destruct (Nat.min_spec n p) as [[? ?]|[? ?]]; lia). split; [done|]. rewrite Nat.mod_small in Hph by done.
  split.
  - rewrite length_app; cbn [length]. lia.
  - rewrite length_app; cbn [length]. lia.
  - intros ph. rewrite length_app; cbn [length]. intros Hlt. destruct (decide (ph = n)) as [->|Hne].
    + rewrite app_nth2 by lia. replace (n - length los)%nat with 0%nat by lia. cbn [nth]. apply extreme_first; [done|lia].
    + rewrite app_nth1 by lia. apply extreme_grow; [by rewrite Nat.mod_small|]. apply H1. lia.
  - intros ph. rewrite length_app; cbn [length]. intros Hlt. destruct (decide (ph = n)) as [->|Hne].
    + rewrite app_nth2 by lia. replace (n - length his)%nat with 0%nat by lia. cbn [nth]. apply extreme_first; [done|lia].
    + rewrite app_nth1 by lia. apply extreme_grow; [by rewrite Nat.mod_small|]. apply H2. lia.
Qed.

(** An old phase takes another sample. *)
Lemma phases_old n los his :
  length los <> (n mod p)%nat -> phases n los his ->
  let ph := (n mod p)%nat in
  let lo := if at_ n <? nth ph los 0 then at_ n else nth ph los 0 in
  let hi := if nth ph his 0 <? at_ n then at_ n else nth ph his 0 in
  extreme Z.le (S n) ph lo /\ extreme Z.ge (S n) ph hi /\ phases (S n) (<[ph := lo]> los) (<[ph := hi]> his).
Proof.
  intros Hne [L1 L2 H1 H2] ph lo hi. pose proof (Nat.mod_upper_bound n p ltac:(lia)).
  assert (ph < length los)%nat as Hlos.
  { subst ph. destruct (Nat.lt_ge_cases n p); [rewrite Nat.mod_small in * by done|]; lia. }
  assert (ph < length his)%nat as Hhis by lia.
  assert (p <= n)%nat as Hpn.
  { subst ph. destruct (Nat.lt_ge_cases n p); [rewrite Nat.mod_small in * by done; lia|done]. }
  pose proof (extreme_lo n _ (H1 ph Hlos)) as Elo. pose proof (extreme_hi n _ (H2 ph Hhis)) as Ehi.
  split_and!; [done|done|]. split.
  - rewrite length_insert. lia.
  - rewrite length_insert. lia.
  - intros q. rewrite length_insert. intros Hq. destruct (decide (q = ph)) as [->|Hqn].
    + by rewrite nth_insert_eq.
    + rewrite nth_insert_ne by done. apply extreme_grow; [done|by apply H1].
  - intros q. rewrite length_insert. intros Hq. destruct (decide (q = ph)) as [->|Hqn].
    + by rewrite nth_insert_eq.
    + rewrite nth_insert_ne by done. apply extreme_grow; [done|by apply H2].
Qed.

Lemma good_step n :
  good n -> at_ n <= maxTokens ->
  (forall i, (i < n)%nat -> (i mod p = n mod p)%nat -> at_ i - at_ n <= tolerance /\ at_ n - at_ i <= tolerance) ->
  good (S n).
Proof.
  intros [G1 G2] Hv Hn. split.
  - intros i Hi. destruct (decide (i = n)) as [->|]; [done|]. apply G1. lia.
  - intros i j Hi Hj Hm. destruct (decide (i = n)) as [->|], (decide (j = n)) as [->|].
    + lia.
    + apply Hn; [lia|done].
    + apply Hn; [lia|done].
    + apply G2; [lia|lia|done].
Qed.

Lemma walk_correct los his n :
  phases n los his -> good n -> (n <= length b)%nat ->
  let r := period_walk tolerance maxTokens p (drop n b) los his n in
  (r <= length b)%nat /\ good r /\ (r < length b -> ~ good (S r))%nat.
Proof.
  remember (drop n b) as back eqn:Hback. revert n los his Hback.
  induction back as [|v back IH]; intros n los his Hback Hph Hgood Hn; simpl.
  { assert (length (drop n b) = 0%nat) as Hlen by by rewrite <- Hback. rewrite length_drop in Hlen.
    split_and!; [lia|done|lia]. }
  assert (n < length b)%nat as Hlt.
  { assert (length (drop n b) = S (length back)) as Hlen by by rewrite <- Hback. rewrite length_drop in Hlen. lia. }
  assert (v = at_ n /\ back = drop (S n) b) as [-> Hback'].
  { pose proof (drop_S b (at_ n) n) as Hd. rewrite Hd in Hback; [by injection Hback|].
    destruct (lookup_lt_is_Some_2 b n Hlt) as [x Hx]. by rewrite (nth_lookup_Some b n 0 x Hx). }
  destruct (Z.ltb_spec maxTokens (at_ n)) as [Hbig|Hsmall].
  { split_and!; [lia|done|]. intros _ [G _]. specialize (G n ltac:(lia)). lia. }
  destruct (Nat.eqb_spec (n mod p) (length los)) as [Heq|Hneq].
  { destruct (phases_new n los his (eq_sym Heq) Hph) as [Hnp Hph']. apply IH; [done|done| |lia].
    apply good_step; [done|done|]. intros i Hi Hm. rewrite !Nat.mod_small in Hm by lia. lia. }
  destruct (phases_old n los his (not_eq_sym Hneq) Hph) as (Elo & Ehi & Hph').
  set (lo := if at_ n <? nth (n mod p) los 0 then _ else _) in *.
  set (hi := if nth (n mod p) his 0 <? at_ n then _ else _) in *.
  pose proof Elo as [(i & Hi & Hmi & Ei) Hlo]. pose proof Ehi as [(j & Hj & Hmj & Ej) Hhi].
  assert (i64 (hi - lo) = hi - lo) as -> by (rewrite <- Ei, <- Ej; apply at_diff).
  destruct (Z.ltb_spec tolerance (hi - lo)) as [Hwide|Hfine].
  - split_and!; [lia|done|]. intros _ [_ G]. specialize (G j i Hj Hi ltac:(lia)). lia.
  - apply IH; [done|done| |lia]. apply good_step; [done|done|]. intros k Hk Hmk.
    pose proof (Hlo k ltac:(lia) Hmk). pose proof (Hhi k ltac:(lia) Hmk).
    pose proof (Hlo n ltac:(lia) eq_refl). pose proof (Hhi n ltac:(lia) eq_refl). lia.
Qed.
End walk.

Lemma periodRun_correct tokens p :
  0 < p -> 0 <= tolerance -> Forall (fun v => 0 <= v <= max_int64) tokens ->
  let r := periodRun tokens tolerance maxTokens p in
  0 <= r <= Z.of_nat (length tokens) /\
  forall n, (n <= length tokens)%nat -> periodic tokens (Z.to_nat p) n <-> Z.of_nat n <= r.
Proof.
  intros Hp Htol Hb. unfold periodRun.
  assert (Forall (fun v => 0 <= v <= max_int64) (rev tokens)) as Hb' by by apply Forall_rev.
  destruct (walk_correct (rev tokens) (Z.to_nat p) ltac:(lia) Htol Hb' [] [] 0) as (H1 & H2 & H3).
  { split; simpl; try lia. } { split; intros; lia. } { lia. }
  rewrite drop_0 in *. rewrite length_rev in *. set (r := period_walk _ _ _ _ _ _ _) in *.
  split; [lia|]. intros n Hn. split.
  - intros (_ & G1 & G2). destruct (Nat.le_gt_cases n r) as [|Hgt]; [lia|]. exfalso.
    apply H3; [lia|]. split; intros; [apply G1|apply G2]; lia.
  - intros Hr. destruct H2 as [G1 G2]. split_and!; [done|intros; apply G1; lia|intros; apply G2; lia].
Qed.

(** A run of period [p] counts; a longer cycle only once it was seen twice. *)
Definition counts (tokens : list Z) (p n : nat) : Prop :=
  periodic tokens p n /\ (1 < p -> 2 * p <= n)%nat.

Lemma best_run_correct tokens k p best :
  0 < p -> 0 <= tolerance -> Forall (fun v => 0 <= v <= max_int64) tokens -> 0 <= best ->
  let r := best_run tokens tolerance maxTokens p k best in
  best <= r /\
  (r = best \/ exists q, p <= Z.of_nat q < p + Z.of_nat k /\ counts tokens q (Z.to_nat r)) /\
  (forall q n, p <= Z.of_nat q < p + Z.of_nat k -> counts tokens q n -> Z.of_nat n <= r).
Proof.
  intros Hp Htol Hb. revert p best Hp. induction k as [|k IH]; intros p best Hp Hbest; cbn [best_run].
  { split_and!; [lia|by left|lia]. }
  destruct (periodRun_correct tokens p Hp Htol Hb) as [Hr Hspec].
  set (run := periodRun tokens tolerance maxTokens p) in *.
  set (run' := if (1 <? p) && (run <? 2 * p) then 0 else run).
  assert (run' = 0 \/ counts tokens (Z.to_nat p) (Z.to_nat run')) as Hrun.
  { subst run'. destruct ((1 <? p) && (run <? 2 * p)) eqn:E; [by left|right].
    split; [apply Hspec; lia|]. intros H1. apply andb_false_iff in E as [E|E]; lia. }
  assert (forall n, counts tokens (Z.to_nat p) n -> Z.of_nat n <= run') as Hmax.
  { intros n [Hper H2]. assert (Z.of_nat n <= run) by (apply Hspec; [apply Hper|done]).
    subst run'. destruct (Z.ltb_spec 1 p); simpl; [|done]. destruct (Z.ltb_spec run (2 * p)); lia. }
  destruct (IH (p + 1) (if best <? run' then run' else best)) as (I1 & I2 & I3); [lia|case_match; lia|].
  set (r := best_run _ _ _ _ _ _) in *. split_and!.
  - destruct (Z.ltb_spec best run'); lia.
  - destruct I2 as [I2|(q & Hq & Hc)]; [|right; exists q; split; [lia|done]].
    destruct (Z.ltb_spec best run'); [|by left]. right. exists (Z.to_nat p). split; [lia|].
    rewrite I2. destruct Hrun as [Hz|?]; [lia|done].
  - intros q n Hq Hc. destruct (decide (Z.of_nat q = p)) as [E|Hne]; [|apply (I3 q n); [lia|done]].
    replace q with (Z.to_nat p) in Hc by lia. specialize (Hmax n Hc).
    destruct (Z.ltb_spec best run'); lia.
Qed.
End runs.

(** C25. The loop verdict reads the longest trailing repetition: the run is the
    largest [n] such that the last [n] responses all stay at or below the output
    ceiling and repeat, within the tolerance, a cycle of at most [maxPeriod]
    sizes, a cycle of two or more counting only once every position was seen
    twice. *)
Theorem runLocked_correct (tokens : list Z) (tolerance maxTokens maxPeriod : Z)
    (Htol : 0 <= tolerance) (Hb : Forall (fun v => 0 <= v <= max_int64) tokens) :
  let r := runLocked tokens tolerance maxTokens maxPeriod in
  (r = 0 \/ exists p, 1 <= Z.of_nat p <= maxPeriod /\ counts tolerance maxTokens tokens p (Z.to_nat r)) /\
  (forall p n, 1 <= Z.of_nat p <= maxPeriod -> counts tolerance maxTokens tokens p n -> Z.of_nat n <= r).
Proof.
  destruct (best_run_correct tolerance maxTokens tokens (Z.to_nat maxPeriod) 1 0) as (_ & H1 & H2); try done.
  cbv zeta. split.
  - destruct H1 as [?|(q & Hq & Hc)]; [by left|right]. exists q. split; [lia|done].
  - intros p n Hp. apply H2. lia.
Qed.

(** The alternation of 278 and 281 tokens, after one large response. *)
Definition alternating : list Z := [1083; 46; 278; 281; 278; 281; 278; 281].

Lemma runLocked_correct_witness :
  runLocked alternating 2 512 3 = 6 /\
  (forall n, counts 2 512 alternating 2 n -> Z.of_nat n <= 6) /\ runLocked alternating 2 512 1 = 1.
Proof.
  split; [vm_compute; reflexivity|]. split; [|vm_compute; reflexivity]. intros n.
  apply (runLocked_correct alternating 2 512 3); [lia| |lia].
  unfold alternating, max_int64. repeat (constructor; [lia|]). constructor.
Defined.
End LoopRuns.
