(* ===== verification/LoopGuard.v ===== *)
(** The strike ladder of the loop guard: its invariant, the climb of a uniform
    loop, recovery, holds that stand, and the yield floor. *)

From S2P Require Import Prelude Float64 LoopTrack LoopRuns.

Module LoopLadder.
Import Float64 LoopTrack LoopRuns.

(** *** Operations on a tracker *)
Inductive op :=
| ORecord (now : Z) (id : string) (n : Z)
| OHeld (now : Z) (id : string)
| OPenalty (now : Z) (id : string)
| OUnpenalize (id source agent : string)
| OYield (now : Z) (id : string) (elapsed produced : Z).

Definition apply_op (t : LoopTracker) (o : op) : LoopTracker :=
  default t
    match o with
    | ORecord now id n => (Record_ (Some t) now id n).1
    | OHeld now id => (Held (Some t) now id).1.2
    | OPenalty now id => (Penalty (Some t) now id).1.2
    | OUnpenalize id source agent => (Unpenalize (Some t) id source agent).1
    | OYield now id elapsed produced => (CheckYieldFloor (Some t) now id elapsed produced).2
    end.

Definition apply_ops (t : LoopTracker) (os : list op) : LoopTracker := foldl apply_op t os.

(** *** The invariant of a session's history *)
Record sound (t : LoopTracker) (h : loopHistory) : Prop := {
  so_strike : 0 <= strike h <= Strikes (guard t);
  so_hold : heldForever h = true \/ heldUntil h <> 0 -> 1 <= strike h;
  so_forever : heldForever h = true -> heldUntil h = 0;
  so_streak : 0 <= clearStreak h;
  so_tokens : Z.of_nat (length (tokens h)) <= historyMax t;
  so_ring : length (yieldRing h) = Z.to_nat yieldRingMax;
  so_head : yieldHead h = yieldCount h /\ 0 <= yieldCount h;
}.

Record configured (t : LoopTracker) : Prop := {
  co_runBar : 1 <= RunBar (guard t);
  co_tolerance : 0 <= ToleranceTokens (guard t);
  co_strikes : 1 <= Strikes (guard t);
  co_clear : 1 <= ClearRequests (guard t);
  co_max : 1 <= MaxLoopTokens (guard t);
  co_period : 1 <= MaxPeriod (guard t);
  co_history : loopHistoryMin <= historyMax t;
}.

Definition all_sound (t : LoopTracker) : Prop :=
  configured t /\ forall id h, sessions t !! id = Some h -> sound t h.

Lemma configured_new g : configured (NewLoopTracker g).
Proof.
  unfold NewLoopTracker, DefaultLoopRunBar, DefaultLoopTolerance, DefaultMaxLoopTokens, DefaultLoopMaxPeriod.
  split; cbn; zcases; lia.
Qed.

Lemma all_sound_new g : all_sound (NewLoopTracker g).
Proof. split; [apply configured_new|]. intros id h Hh. simpl in Hh. by rewrite lookup_empty in Hh. Qed.

Lemma sound_new t : configured t -> sound t new_history.
Proof.
  intros [H1 H2 H3 H4 H5 H6 H7]. unfold loopHistoryMin in H7. split; simpl; try done; try lia.
Qed.

Lemma sound_history t id : all_sound t -> sound t (history t id).
Proof.
  intros [Hc Hs]. unfold history. destruct (sessions t !! id) as [h|] eqn:E; simpl; [by eapply Hs|].
  by apply sound_new.
Qed.

Lemma all_sound_put t id h : all_sound t -> sound t h -> all_sound (put t id h).
Proof.
  intros [Hc Hs] Hh. split; [by destruct Hc|]. intros id' h' Hin. simpl in Hin.
  assert (sound t h') as Hh'; [|by destruct Hh'].
  apply lookup_insert_Some in Hin as [[_ <-]|[_ Hin]]; [done|by eapply Hs].
Qed.

Lemma all_sound_sub t m : all_sound t -> (forall id h, m !! id = Some h -> sessions t !! id = Some h) ->
  all_sound (set_sessions t m).
Proof.
  intros [Hc Hs] Hm. split; [by destruct Hc|]. intros id h Hin. destruct (Hs id h (Hm id h Hin)). by split.
Qed.

Lemma sound_expire t id h now : sound t h -> sound t (expireHoldLocked id h now).1.
Proof.
  intros [S1 S2 S3 S4 S5 S6 S7]. unfold expireHoldLocked.
  destruct (heldForever h) eqn:Hf; simpl; [by split; rewrite ?Hf|].
  destruct (is_zero_time _ || _); simpl; [by split; rewrite ?Hf|]. split; simpl; try done.
  by intros [?|?].
Qed.

Lemma append_tokens_length t h n now :
  0 <= historyMax t -> Z.of_nat (length (tokens (append_tokens t h n now))) <= historyMax t.
Proof.
  intros H0. unfold append_tokens. simpl. case_match; [|lia]. rewrite length_drop. lia.
Qed.

Lemma sound_appended t h now n r :
  configured t -> sound t h -> sound t (append_yield (append_tokens t h n now) r).
Proof.
  intros Hc [S1 S2 S3 S4 S5 S6 S7]. destruct Hc as [_ _ _ _ _ _ Hh]. unfold loopHistoryMin in Hh.
  split; try done.
  - simpl. apply (append_tokens_length t h n now). lia.
  - simpl. by rewrite length_insert.
  - simpl. lia.
Qed.

Lemma sound_advance t id h now : configured t -> sound t h -> sound t (advanceLocked t id h now).1.
Proof.
  intros Hc [S1 S2 S3 S4 S5 S6 S7]. destruct Hc as [C1 _ C3 _ _ _ _]. unfold advanceLocked.
  destruct (run_of t h <? RunBar (guard t)).
  - destruct (_ || _); simpl; [split; simpl; try done; lia|].
    split; simpl; try done; lia.
  - set (target := if _ <? Z.quot _ _ then _ else _).
    change (strike (set_clearStreak h 0)) with (strike h).
    destruct (Z.leb_spec target (strike h)); simpl; [split; simpl; try done; lia|].
    assert (1 <= target <= Strikes (guard t)).
    { split; [lia|]. subst target. case_match; lia. }
    destruct (holdSecondsFor t target <? 0); simpl; [split; simpl; try done; lia|].
    destruct (0 <? holdSecondsFor t target); simpl; split; simpl; try done; lia.
Qed.

Lemma all_sound_op t o : all_sound t -> all_sound (apply_op t o).
Proof.
  intros Hs. unfold apply_op. destruct o as [now id n|now id|now id|id src ua|now id el pr]; simpl.
  - destruct (String.eqb id ""); [done|].
    destruct (advanceLocked t id _ now) as [h ev] eqn:E. simpl. unfold pruneLocked.
    apply all_sound_sub.
    + apply all_sound_put; [done|]. replace h with (h, ev).1 by done. rewrite <- E.
      apply sound_advance; [apply Hs|]. apply sound_appended; [apply Hs|]. by apply sound_history.
    + intros id' h'. by intros [? _]%map_lookup_filter_Some.
  - destruct (String.eqb id ""); [done|]. destruct (sessions t !! id) as [h|] eqn:Hh; simpl; [|done].
    pose proof (sound_expire t id h now (proj2 Hs id h Hh)) as He.
    destruct (expireHoldLocked id h now) as [h' ev]. simpl in *. by apply all_sound_put.
  - destruct (String.eqb id ""); [done|]. destruct (sessions t !! id) as [h|] eqn:Hh; simpl; [|done].
    destruct (strike h =? 0); [done|]. pose proof (sound_expire t id h now (proj2 Hs id h Hh)) as He.
    destruct (expireHoldLocked id h now) as [h' ev]. simpl in *. by apply all_sound_put.
  - destruct (String.eqb id ""); [done|]. destruct (sessions t !! id) as [h|] eqn:Hh; simpl; [|done].
    apply all_sound_sub; [done|]. intros id' h'. by intros [_ ?]%lookup_delete_Some.
  - destruct (String.eqb id ""); [done|]. destruct (yieldFloorMinutes t <=? 0); [done|].
    pose proof (sound_history t id Hs) as [S1 S2 S3 S4 S5 S6 S7].
    repeat (case_match; simpl); by (apply all_sound_put; [done|]; split).
Qed.

Lemma all_sound_ops os t : all_sound t -> all_sound (apply_ops t os).
Proof. revert t. induction os as [|o os IH]; intros t Hs; [done|]. by apply IH, all_sound_op. Qed.

(** *** Holds *)
Lemma expire_active id h now :
  hold_active h now = true -> expireHoldLocked id h now = (h, []).
Proof.
  unfold hold_active, expireHoldLocked. destruct (heldForever h); simpl; [done|].
  intros [Hz Hb]%andb_true_iff. rewrite Hb. by rewrite orb_true_r.
Qed.

(** [o] is about another session, or cannot touch a hold; it happens while the
    hold is active. *)
Definition during (o : op) (id : string) (h : loopHistory) : Prop :=
  match o with
  | ORecord now id' _ => id' <> id /\ hold_active h now = true
  | OHeld now id' | OPenalty now id' => id' = id -> hold_active h now = true
  | OUnpenalize id' _ _ => id' <> id
  | OYield _ _ _ _ => True
  end.

Definition same_hold (h h' : loopHistory) : Prop :=
  strike h' = strike h /\ heldUntil h' = heldUntil h /\ heldForever h' = heldForever h.

Lemma kept t id h id' h' :
  sessions t !! id = Some h -> (id' = id -> same_hold h h') ->
  exists k, <[id' := h']> (sessions t) !! id = Some k /\ same_hold h k.
Proof.
  intros Hh Hsame. destruct (decide (id' = id)) as [->|Hne].
  - exists h'. rewrite lookup_insert_eq. auto.
  - exists h. by rewrite lookup_insert_ne.
Qed.

Lemma hold_kept t o id h :
  sessions t !! id = Some h -> during o id h ->
  exists h', sessions (apply_op t o) !! id = Some h' /\ same_hold h h'.
Proof.
  intros Hh Hd. assert (exists h', sessions t !! id = Some h' /\ same_hold h h') as Hsame by by exists h.
  unfold apply_op. destruct o as [now id' n|now id'|now id'|id' src ua|now id' el pr]; simpl in Hd |- *.
  - destruct (String.eqb id' ""); [done|]. destruct Hd as [Hne Hact].
    destruct (advanceLocked t id' _ now) as [h1 ev]. simpl. exists h. split; [|done].
    apply map_lookup_filter_Some. split; [by rewrite lookup_insert_ne|]. simpl. by rewrite Hact.
  - destruct (String.eqb id' ""); [done|]. destruct (sessions t !! id') as [h1|] eqn:H1; simpl; [|done].
    destruct (decide (id' = id)) as [->|Hne].
    + rewrite Hh in H1. injection H1 as <-. rewrite expire_active by auto. by apply kept.
    + destruct (expireHoldLocked id' h1 now). by apply kept.
  - destruct (String.eqb id' ""); [done|]. destruct (sessions t !! id') as [h1|] eqn:H1; simpl; [|done].
    destruct (strike h1 =? 0); [done|]. destruct (decide (id' = id)) as [->|Hne].
    + rewrite Hh in H1. injection H1 as <-. rewrite expire_active by auto. by apply kept.
    + destruct (expireHoldLocked id' h1 now). by apply kept.
  - destruct (String.eqb id' ""); [done|]. destruct (sessions t !! id') as [h1|]; simpl; [|done].
    exists h. by rewrite lookup_delete_ne.
  - destruct (String.eqb id' ""); [done|]. destruct (_ <=? 0); [done|].
    assert (id' = id -> same_hold h (history t id')) as Hhist
      by (intros ->; unfold history; by rewrite Hh).
    repeat (case_match; simpl); by apply kept.
Qed.

(** *** Recording *)
Lemma record_own t now id n :
  id <> ""%string ->
  sessions (apply_op t (ORecord now id n)) !! id =
    Some (advanceLocked t id (append_yield (append_tokens t (history t id) n now)
                                (mkYield now n id)) now).1.
Proof.
  intros Hid. unfold apply_op. simpl. rewrite (proj2 (String.eqb_neq id "") Hid).
  set (h0 := append_yield _ _). assert (last h0 = now) as Hlast by done. clearbody h0.
  assert (last (advanceLocked t id h0 now).1 = now) as Hlast'.
  { rewrite <- Hlast. unfold advanceLocked. by repeat (case_match; simpl). }
  destruct (advanceLocked t id h0 now) as [h ev]. simpl in *.
  apply map_lookup_filter_Some. split; [apply lookup_insert_eq|]. simpl. rewrite Hlast'.
  assert (time_sub now now = 0) as ->.
  { unfold time_sub. rewrite Z.sub_diag. done. }
  by rewrite orb_true_r.
Qed.

Lemma apply_op_guard t o : guard (apply_op t o) = guard t /\ historyMax (apply_op t o) = historyMax t.
Proof.
  unfold apply_op. destruct o; simpl; repeat (case_match; simpl in *; simplify_eq; try done).
Qed.

Definition set_last_tokens t toks n : list Z :=
  if historyMax t <? Z.of_nat (length (toks ++ [n]))
  then drop (length (toks ++ [n]) - Z.to_nat (historyMax t)) (toks ++ [n]) else toks ++ [n].

Lemma last_token t toks n : 1 <= historyMax t -> exists front, set_last_tokens t toks n = front ++ [n].
Proof.
  intros H1. unfold set_last_tokens. destruct (Z.ltb_spec (historyMax t) (Z.of_nat (length (toks ++ [n])))); [|by eexists].
  exists (drop (length (toks ++ [n]) - Z.to_nat (historyMax t)) toks).
  apply drop_app_le. rewrite length_app in *. simpl in *. lia.
Qed.

(** A response above the ceiling ends the run. *)
Lemma run_above front n tol mx mp : mx < n -> runLocked (front ++ [n]) tol mx mp = 0.
Proof.
  intros Hn. assert (forall p, periodRun (front ++ [n]) tol mx p = 0) as Hp.
  { intros p. unfold periodRun. rewrite rev_app_distr. simpl. by rewrite (proj2 (Z.ltb_lt _ _) Hn). }
  unfold runLocked. generalize (Z.to_nat mp) as k. generalize 1 as p.
  intros p k. revert p. induction k as [|k IH]; intros p; cbn [best_run]; [done|].
  rewrite Hp. destruct (_ && _); apply IH.
Qed.

(** *** A uniform loop *)
Lemma run_replicate m v tol mx mp :
  0 <= tol -> 0 <= v <= mx -> v <= max_int64 -> 1 <= mp ->
  runLocked (replicate m v) tol mx mp = Z.of_nat m.
Proof.
  intros Htol Hv Hm Hmp. destruct (best_run_correct tol mx (replicate m v) (Z.to_nat mp) 1 0) as (H0 & H1 & H2); try done.
  { apply Forall_replicate. lia. }
  fold (runLocked (replicate m v) tol mx mp) in *. set (r := runLocked _ _ _ _) in *.
  assert (forall i, (i < m)%nat -> nth i (rev (replicate m v)) 0 = v) as Hnth.
  { intros i Hi. assert (In (nth i (rev (replicate m v)) 0) (replicate m v)) as Hin%list_elem_of_In.
    { apply in_rev, nth_In. by rewrite length_rev, length_replicate. }
    by apply elem_of_replicate_inv in Hin. }
  assert (Z.of_nat m <= r).
  { apply (H2 1%nat m); [lia|]. split; [|lia]. split_and!; [by rewrite length_replicate|..].
    - intros i Hi. rewrite Hnth by done. lia.
    - intros i j Hi Hj _. rewrite !Hnth by done. lia. }
  destruct H1 as [?|(q & _ & [(Hlen & _) _])]; [lia|]. rewrite length_replicate in Hlen. lia.
Qed.

Lemma tokens_replicate t k v :
  1 <= historyMax t ->
  set_last_tokens t (replicate (k `min` Z.to_nat (historyMax t)) v) v =
    replicate (S k `min` Z.to_nat (historyMax t)) v.
Proof.
  intros H1. unfold set_last_tokens. change [v] with (replicate 1 v).
  rewrite <- replicate_add, length_replicate.
  destruct (Z.ltb_spec (historyMax t) (Z.of_nat (k `min` Z.to_nat (historyMax t) + 1))).
  - rewrite drop_replicate. f_equal. lia.
  - f_equal. lia.
Qed.

Lemma advance_tokens t id h now : tokens (advanceLocked t id h now).1 = tokens h.
Proof. unfold advanceLocked. by repeat (case_match; simpl). Qed.

Lemma advance_climbs t id h now k :
  configured t -> RunBar (guard t) * Strikes (guard t) <= historyMax t ->
  run_of t h = Z.min k (historyMax t) -> 1 <= k ->
  strike h = Z.min (Strikes (guard t)) ((k - 1) / RunBar (guard t)) ->
  strike (advanceLocked t id h now).1 = Z.min (Strikes (guard t)) (k / RunBar (guard t)).
Proof.
  intros [C1 _ C3 _ _ _ C7] Hcap Hrun Hk Hs. unfold loopHistoryMin in C7. unfold advanceLocked. rewrite Hrun.
  set (b := RunBar (guard t)) in *. set (n := Strikes (guard t)) in *. set (m := historyMax t) in *.
  assert (b <= m) as Hbm by nia.
  assert ((k - 1) / b <= k / b) as Hmono by (apply Z.div_le_mono; lia).
  destruct (Z.ltb_spec (Z.min k m) b) as [Hlow|Hhigh].
  { assert (k < b) as Hkb by lia. rewrite (Z.div_small k b) by lia. rewrite (Z.div_small (k - 1) b) in Hs by lia.
    assert (strike h = 0) as Hz by lia. change (strike (set_clearStreak h (clearStreak h + 1))) with (strike h).
    rewrite Hz, Z.eqb_refl, orb_true_r. simpl. lia. }
  rewrite Z.quot_div_nonneg by lia. change (strike (set_clearStreak h 0)) with (strike h).
  assert (Z.min n (Z.min k m / b) = Z.min n (k / b)) as Hcut.
  { destruct (Z.le_gt_cases k m); [by rewrite (Z.min_l k m)|]. rewrite (Z.min_r k m) by lia.
    assert (n <= m / b) by (apply Z.div_le_lower_bound; lia).
    assert (m / b <= k / b) by (apply Z.div_le_mono; lia). lia. }
  assert ((if n <? Z.min k m / b then n else Z.min k m / b) = Z.min n (k / b)) as -> by (case_match; lia).
  set (target := Z.min n (k / b)) in *. assert (strike h <= target) by lia.
  destruct (Z.leb_spec target (strike h)); simpl; [lia|]. by repeat (case_match; simpl).
Qed.

Definition climb (t : LoopTracker) (id : string) (v : Z) (times : list Z) : LoopTracker :=
  apply_ops t (map (fun now => ORecord now id v) times).

Lemma climb_inv t id v times k :
  id <> ""%string -> 0 <= v <= MaxLoopTokens (guard t) -> v <= max_int64 ->
  configured t -> RunBar (guard t) * Strikes (guard t) <= historyMax t ->
  tokens (history t id) = replicate (k `min` Z.to_nat (historyMax t)) v ->
  strike (history t id) = Z.min (Strikes (guard t)) (Z.of_nat k / RunBar (guard t)) ->
  let t' := climb t id v times in
  let n := (k + length times)%nat in
  tokens (history t' id) = replicate (n `min` Z.to_nat (historyMax t)) v /\
  strike (history t' id) = Z.min (Strikes (guard t)) (Z.of_nat n / RunBar (guard t)) /\
  guard t' = guard t /\ historyMax t' = historyMax t.
Proof.
  intros Hid Hv Hv64 Hc Hcap. revert t k Hv Hc Hcap.
  induction times as [|now times IH]; intros t k Hv Hc Hcap Htok Hstr; [by rewrite Nat.add_0_r|].
  cbn [climb map apply_ops foldl length]. rewrite Nat.add_succ_r. set (t1 := apply_op t (ORecord now id v)).
  destruct (apply_op_guard t (ORecord now id v)) as [G1 G2]. fold t1 in G1, G2.
  pose proof (record_own t now id v Hid) as Hown. fold t1 in Hown.
  set (h := append_yield (append_tokens t (history t id) v now) _) in Hown.
  assert (tokens h = replicate (S k `min` Z.to_nat (historyMax t)) v) as Hh.
  { change (tokens h) with (set_last_tokens t (tokens (history t id)) v). rewrite Htok.
    apply tokens_replicate. destruct Hc as [_ _ _ _ _ _ H7]. unfold loopHistoryMin in H7. lia. }
  assert (history t1 id = (advanceLocked t id h now).1) as Ht1 by (unfold history; by rewrite Hown).
  assert (run_of t h = Z.min (Z.of_nat (S k)) (historyMax t)) as Hrun.
  { unfold run_of. rewrite Hh. destruct Hc as [_ H2 _ _ _ H6 H7]. unfold loopHistoryMin in H7.
    rewrite run_replicate by done. lia. }
  pose proof (advance_climbs t id h now (Z.of_nat (S k)) Hc Hcap Hrun ltac:(lia)) as Hadv.
  replace (Z.of_nat (S k) - 1) with (Z.of_nat k) in Hadv by lia. specialize (Hadv Hstr).
  rewrite <- G1, <- G2. specialize (IH t1 (S k)). rewrite G1, G2 in IH. rewrite G1, G2.
  apply IH; [done| |done| |].
  - destruct Hc. split; rewrite ?G1, ?G2; done.
  - rewrite Ht1, advance_tokens. exact Hh.
  - rewrite Ht1. exact Hadv.
Qed.

(** *** Recovery *)
Lemma advance_low t id h now :
  sound t h -> run_of t h < RunBar (guard t) ->
  let h' := (advanceLocked t id h now).1 in
  (strike h' = 0 \/ (strike h' = strike h /\ clearStreak h' = clearStreak h + 1 /\ clearStreak h' < ClearRequests (guard t))).
Proof.
  intros Hs Hrun. unfold advanceLocked. rewrite (proj2 (Z.ltb_lt _ _) Hrun).
  destruct (Z.ltb_spec (clearStreak (set_clearStreak h (clearStreak h + 1))) (ClearRequests (guard t))) as [Hl|Hl].
  - simpl. right. split_and!; [done|done|]. exact Hl.
  - simpl. destruct (Z.eqb_spec (strike h) 0); simpl; auto.
Qed.

Lemma recovery_inv t id (resp : list (Z * Z)) k :
  id <> ""%string -> all_sound t -> Forall (fun r => MaxLoopTokens (guard t) < r.2) resp ->
  (strike (history t id) = 0 \/ k <= clearStreak (history t id) < ClearRequests (guard t)) ->
  let t' := apply_ops t (map (fun r => ORecord r.1 id r.2) resp) in
  (strike (history t' id) = 0 \/
   k + Z.of_nat (length resp) <= clearStreak (history t' id) < ClearRequests (guard t)).
Proof.
  intros Hid. revert t k. induction resp as [|[now n] resp IH]; intros t k Hs Hall Hinv.
  { simpl. by rewrite Z.add_0_r. }
  inversion_clear Hall as [|? ? Hn Hall']. simpl in Hn.
  cbn [map apply_ops foldl fst snd length]. set (t1 := apply_op t (ORecord now id n)).
  destruct (apply_op_guard t (ORecord now id n)) as [G1 G2]. fold t1 in G1, G2.
  pose proof (record_own t now id n Hid) as Hown. fold t1 in Hown.
  set (h := append_yield (append_tokens t (history t id) n now) _) in Hown.
  assert (history t1 id = (advanceLocked t id h now).1) as Ht1 by (unfold history; by rewrite Hown).
  assert (sound t h) as Hh by (apply sound_appended; [apply Hs|by apply sound_history]).
  assert (run_of t h = 0) as Hrun.
  { unfold run_of. destruct Hs as [[_ _ _ _ _ _ H7] _]. unfold loopHistoryMin in H7.
    destruct (last_token t (tokens (history t id)) n ltac:(lia)) as [front Hf].
    change (tokens h) with (set_last_tokens t (tokens (history t id)) n). rewrite Hf. by apply run_above. }
  assert (run_of t h < RunBar (guard t)) as Hlow by (destruct Hs as [[H1 _ _ _ _ _ _] _]; lia).
  pose proof (advance_low t id h now Hh Hlow) as Hadv. cbv zeta in Hadv. rewrite <- Ht1 in Hadv.
  specialize (IH t1 (k + 1)). rewrite G1 in IH.
  replace (k + Z.of_nat (S (length resp))) with (k + 1 + Z.of_nat (length resp)) by lia.
  apply IH; [by apply all_sound_op|done|].
  change (clearStreak h) with (clearStreak (history t id)) in Hadv.
  change (strike h) with (strike (history t id)) in Hadv. destruct Hadv as [?|(E1 & E2 & E3)]; [by left|].
  destruct Hinv as [Hz|Hk]; [left; congruence|right; lia].
Qed.

(** ** Claims *)

(** Whatever is recorded, asked or un-penalized, in whatever order: every
    session's strike stays within the ladder, a hold exists only at a strike of
    at least one, an endless hold carries no deadline, and the response and
    yield rings stay within their bounds. *)
Theorem penalty_invariant (g : LoopGuard) (os : list op) (id : string) (h : loopHistory)
    (Hh : sessions (apply_ops (NewLoopTracker g) os) !! id = Some h) :
  let t := apply_ops (NewLoopTracker g) os in
  0 <= strike h <= Strikes (guard t) /\
  (heldForever h = true \/ heldUntil h <> 0 -> 1 <= strike h) /\
  (heldForever h = true -> heldUntil h = 0) /\
  Z.of_nat (length (tokens h)) <= historyMax t /\
  length (yieldRing h) = Z.to_nat yieldRingMax.
Proof.
  cbv zeta. destruct (all_sound_ops os _ (all_sound_new g)) as [_ Hs]. destruct (Hs id h Hh) as [S1 S2 S3 S4 S5 S6 S7].
  exact (conj S1 (conj S2 (conj S3 (conj S5 S6)))).
Qed.

(** A hold stands.  While it is active, nothing but the session's own next
    response or an operator's un-penalizing touches it - not other sessions,
    not the pruning of idle sessions, not reading it, not a yield strike - and
    the admission gate answers held exactly while it is active, with its
    deadline. *)
Theorem hold_stands (t : LoopTracker) (o : op) (id : string) (h : loopHistory) (now : Z)
    (Hid : id <> ""%string) (Hh : sessions t !! id = Some h) (Hd : during o id h) :
  (exists h', sessions (apply_op t o) !! id = Some h' /\ same_hold h h') /\
  (Held (Some t) now id).1.1 =
    (hold_active h now,
     if heldForever h then 0 else if hold_active h now then heldUntil h else 0, heldForever h).
Proof.
  split; [by apply hold_kept|]. simpl. rewrite (proj2 (String.eqb_neq id "") Hid), Hh.
  unfold expireHoldLocked, hold_active. destruct (heldForever h) eqn:Hf; simpl; [by rewrite Hf|].
  unfold is_zero_time. destruct (heldUntil h =? 0) eqn:Hz; simpl.
  - rewrite ?Hf, ?Hz. simpl. by apply Z.eqb_eq in Hz as ->.
  - destruct (before now (heldUntil h)); simpl; by rewrite ?Hf, ?Hz.
Qed.

(** A uniform loop climbs the ladder to its top: after [n] responses of one
    size below the ceiling the session is at strike [n / RunBar], capped at the
    number of strikes - the ring of responses is always long enough to reach
    the top strike, and no strike is skipped. *)
Theorem uniform_loop_strikes (g : LoopGuard) (id : string) (v : Z) (times : list Z)
    (Hid : id <> ""%string) (Hv : 0 <= v <= MaxLoopTokens (guard (NewLoopTracker g))) (Hv64 : v <= max_int64)
    (Hfit : RunBar (guard (NewLoopTracker g)) * Strikes (guard (NewLoopTracker g)) + 1 <= max_int64) :
  let t := climb (NewLoopTracker g) id v times in
  let n := Z.of_nat (length times) in
  strike (history t id) = Z.min (Strikes (guard t)) (n / RunBar (guard t)) /\
  Run (Some t) id = Z.min n (historyMax t).
Proof.
  pose proof (configured_new g) as Hc. set (t0 := NewLoopTracker g) in *.
  assert (RunBar (guard t0) * Strikes (guard t0) <= historyMax t0) as Hcap.
  { destruct Hc as [C1 _ C3 _ _ _ _]. change (historyMax t0) with
      (let hm := i64 (RunBar (guard t0) * Strikes (guard t0) + 1) in if hm <? loopHistoryMin then loopHistoryMin else hm).
    cbv zeta. assert (1 <= RunBar (guard t0) * Strikes (guard t0)) by nia. rewrite i64_id by (unfold min_int64; lia).
    destruct (Z.ltb_spec (RunBar (guard t0) * Strikes (guard t0) + 1) loopHistoryMin); lia. }
  assert (Z.of_nat 0 / RunBar (guard t0) = 0) as Hz by (destruct Hc; apply Z.div_small; lia).
  destruct (climb_inv t0 id v times 0 Hid Hv Hv64 Hc Hcap) as (H1 & H2 & H3 & H4).
  { unfold history. change (sessions t0) with (∅ : gmap string loopHistory). by rewrite lookup_empty. }
  { unfold history. change (sessions t0) with (∅ : gmap string loopHistory). rewrite lookup_empty, Hz.
    destruct Hc as [_ _ C3 _ _ _ _]. change (strike (default new_history None)) with 0. lia. }
  cbv zeta. set (t := climb t0 id v times) in *. rewrite Nat.add_0_l in H1, H2. rewrite H3, H4. split; [done|].
  destruct Hc as [_ C2 _ _ _ C6 C7]. unfold loopHistoryMin in C7.
  assert (Run (Some t) id = run_of t (history t id)) as ->.
  { unfold Run, history. destruct (sessions t !! id); [done|]. simpl. unfold run_of, runLocked. simpl.
    generalize (Z.to_nat (MaxPeriod (guard t))) as k. generalize 1 as p. intros p k. revert p.
    induction k as [|k IH]; intros p; cbn [best_run]; [done|]. unfold periodRun at 1 2 3. simpl.
    by destruct (_ && _); rewrite <- IH. }
  unfold run_of. rewrite H1, H3. rewrite run_replicate by done. lia.
Qed.

(** Recovery forgives: after [ClearRequests] responses above the ceiling in
    a row, the session has no strike and no hold left, whatever happened
    before. *)
Theorem recovery_forgives (g : LoopGuard) (os : list op) (id : string) (resp : list (Z * Z))
    (Hid : id <> ""%string)
    (Hbig : Forall (fun r => MaxLoopTokens (guard (apply_ops (NewLoopTracker g) os)) < r.2) resp)
    (Hlen : ClearRequests (guard (apply_ops (NewLoopTracker g) os)) <= Z.of_nat (length resp)) :
  let h := history (apply_ops (apply_ops (NewLoopTracker g) os) (map (fun r => ORecord r.1 id r.2) resp)) id in
  strike h = 0 /\ heldForever h = false /\ heldUntil h = 0.
Proof.
  pose proof (all_sound_ops os _ (all_sound_new g)) as Hs. set (t := apply_ops (NewLoopTracker g) os) in *.
  pose proof (sound_history t id Hs) as Hh.
  (* one response first: it establishes the invariant on the streak *)
  destruct resp as [|[now n] resp]; [destruct Hs as [[? ? ? ? ? ? ?] _]; simpl in Hlen; lia|].
  inversion_clear Hbig as [|? ? Hn Hall]. simpl in Hn, Hlen.
  cbn [map apply_ops foldl fst snd]. set (t1 := apply_op t (ORecord now id n)).
  destruct (apply_op_guard t (ORecord now id n)) as [G1 G2]. fold t1 in G1, G2.
  assert (all_sound t1) as Hs1 by by apply all_sound_op.
  assert (strike (history t1 id) = 0 \/ 1 <= clearStreak (history t1 id) < ClearRequests (guard t1)) as H1.
  { pose proof (record_own t now id n Hid) as Hown. fold t1 in Hown.
    set (h := append_yield (append_tokens t (history t id) n now) _) in Hown.
    assert (history t1 id = (advanceLocked t id h now).1) as Ht1 by (unfold history; by rewrite Hown).
    pose proof (proj1 Hs) as [C1 _ _ _ _ _ C7]. unfold loopHistoryMin in C7.
    assert (sound t h) as Hsh by (apply sound_appended; [apply Hs|done]).
    destruct (last_token t (tokens (history t id)) n ltac:(lia)) as [front Hf].
    assert (run_of t h = 0) as Hrun.
    { unfold run_of. change (tokens h) with (set_last_tokens t (tokens (history t id)) n). rewrite Hf.
      by apply run_above. }
    destruct (advance_low t id h now Hsh ltac:(lia)) as [Hz|(E1 & E2 & E3)]; rewrite <- Ht1 in *; [by left|right].
    rewrite G1. destruct Hh as [_ _ _ Hstreak _ _ _]. change (clearStreak h) with (clearStreak (history t id)) in E2. lia. }
  pose proof (recovery_inv t1 id resp 1 Hid Hs1 ltac:(by rewrite G1) H1) as Hfin. cbv zeta in Hfin. rewrite G1 in Hfin.
  set (t2 := apply_ops t1 _) in *. assert (strike (history t2 id) = 0) as Hz by (destruct Hfin; lia).
  pose proof (sound_history t2 id (all_sound_ops _ _ Hs1)) as [_ S2 _ _ _ _ _]. rewrite Hz in S2.
  split; [exact Hz|].
  destruct (heldForever (history t2 id)) eqn:Hf; [exfalso; lia|]. split; [exact Hf|].
  destruct (decide (heldUntil (history t2 id) = 0)); [done|]. exfalso. lia.
Qed.

(** The yield floor only watches.  A yield strike fires for a named session
    only when the request produces tokens below the floor and has been glacial
    for the whole window, on its own age or since the breach was first seen;
    and no check, striking or not, moves any session's strikes, holds or
    responses: yield strikes never escalate into the penalty ladder. *)
Theorem yield_strikes_alone (t : LoopTracker) (now : Z) (id : string) (elapsed produced : Z) :
  let r := CheckYieldFloor (Some t) now id elapsed produced in
  (forall ev, r.1 = Some ev ->
     ev_Reason ev = PenaltyReasonYield /\ ev_SessionID ev = id /\ id <> ""%string /\ 0 < produced /\
     fleb (yieldFloorTokPerMin t) (InflightYield (Some t) elapsed produced) = false /\
     (yield_window t <= elapsed \/
      yieldBreachStart (history t id) <> 0 /\ yield_window t <= time_sub now (yieldBreachStart (history t id)))) /\
  (forall id', let h := history t id' in let h' := history (default t r.2) id' in
     same_hold h h' /\ tokens h' = tokens h /\ clearStreak h' = clearStreak h).
Proof.
  cbv zeta. unfold CheckYieldFloor. destruct (String.eqb_spec id "") as [->|Hid]; [by split|].
  destruct (yieldFloorMinutes t <=? 0); [by split|]. cbv zeta.
  assert (forall h' id', same_hold (history t id) h' /\ tokens h' = tokens (history t id) /\
            clearStreak h' = clearStreak (history t id) ->
          same_hold (history t id') (history (put t id h') id') /\
          tokens (history (put t id h') id') = tokens (history t id') /\
          clearStreak (history (put t id h') id') = clearStreak (history t id')) as Hput.
  { intros h' id' H. unfold history at 2 3 5. simpl. destruct (decide (id' = id)) as [->|Hne].
    - by rewrite lookup_insert_eq.
    - by rewrite lookup_insert_ne. }
  destruct (fleb _ _) eqn:Hf; simpl; [split; [done|intros; by apply Hput]|].
  destruct (Z.leb_spec produced 0) as [Hp|Hp]; simpl; [split; [done|intros; by apply Hput]|].
  unfold is_zero_time. destruct (Z.eqb_spec (yieldBreachStart (history t id)) 0) as [Hb|Hb].
  - destruct (Z.leb_spec (yield_window t) elapsed) as [Hw|Hw]; simpl;
      (split; [|intros; by apply Hput]); [|done]. intros ev [= <-]. auto 10.
  - destruct (Z.ltb_spec (time_sub now (yieldBreachStart (history t id))) (yield_window t)) as [Hw|Hw]; simpl;
      [split; [done|intros; by apply Hput]|].
    destruct (_ && _); simpl; (split; [|intros; by apply Hput]); [done|]. intros ev [= <-]. auto 10.
Qed.

(** One window can bring a session more than one yield strike: once the
    check of another request of the session resets the breach, and once the
    pruning of another session's response forgets that a strike was given. *)
Theorem yield_strikes_twice :
  let t0 := NewLoopTracker DefaultLoopGuard in
  let start := 63000000000 * nsec_second in
  let glacial t := CheckYieldFloor (Some t) start "s" (20 * nsec_minute) 100 in
  let t1 := default t0 (glacial t0).2 in
  let healthy := CheckYieldFloor (Some t1) start "s" nsec_minute 1000 in
  let t2 := default t1 healthy.2 in
  let t3 := default t1 (Record_ (Some t1) start "other" 300).1 in
  (glacial t0).1 <> None /\ (glacial t1).1 = None /\ healthy.1 = None /\
  (glacial t2).1 <> None /\ (glacial t3).1 <> None.
Proof. vm_compute. repeat split; discriminate. Qed.

(** *** Concrete inputs *)

(** Forty responses of 47 tokens, twenty seconds apart. *)
Definition looped : list op :=
  map (fun i => ORecord ((1000 + 20 * Z.of_nat i) * nsec_second) "s" 47) (seq 0 40).

Abbreviation looped_tracker := (apply_ops (NewLoopTracker DefaultLoopGuard) looped).

Lemma penalty_invariant_witness :
  exists h, sessions looped_tracker !! "s"%string = Some h /\ strike h = 2 /\ heldUntil h <> 0 /\
    1 <= strike h.
Proof.
  destruct (sessions looped_tracker !! "s"%string) as [h|] eqn:Hh; [|vm_compute in Hh; discriminate].
  exists h. assert (strike h = 2 /\ heldUntil h <> 0) as [H1 H2].
  { revert Hh. vm_compute. intros [= <-]. split; [reflexivity|discriminate]. }
  split; [reflexivity|]. split; [exact H1|]. split; [exact H2|].
  destruct (penalty_invariant DefaultLoopGuard looped "s" h Hh) as (_ & H & _). apply H. right. exact H2.
Defined.

Lemma hold_stands_witness :
  (Held (Some looped_tracker) (2000 * nsec_second) "s").1.1 = (true, 2680 * nsec_second, false) /\
  exists h', sessions (apply_op looped_tracker (ORecord (2000 * nsec_second) "other" 300)) !! "s"%string = Some h' /\
    strike h' = 2.
Proof.
  destruct (sessions looped_tracker !! "s"%string) as [h|] eqn:Hh; [|vm_compute in Hh; discriminate].
  assert (strike h = 2 /\ hold_active h (2000 * nsec_second) = true) as [H1 H2].
  { revert Hh. vm_compute. intros [= <-]. split; reflexivity. }
  split; [vm_compute; reflexivity|].
  destruct (hold_stands looped_tracker (ORecord (2000 * nsec_second) "other" 300) "s" h (2000 * nsec_second))
    as [(h' & Hh' & Hst & _) _]; [discriminate|exact Hh|split; [discriminate|exact H2]|].
  exists h'. split; [exact Hh'|]. rewrite Hst. exact H1.
Defined.

Lemma uniform_loop_strikes_witness :
  strike (history (climb (NewLoopTracker DefaultLoopGuard) "s" 47 (repeat 1000 65)) "s") = 3 /\
  strike (history (climb (NewLoopTracker DefaultLoopGuard) "s" 47 (repeat 1000 19)) "s") = 0.
Proof.
  split.
  - destruct (uniform_loop_strikes DefaultLoopGuard "s" 47 (repeat 1000 65)) as [-> _];
      [discriminate|vm_compute; split; discriminate|vm_compute; discriminate|vm_compute; discriminate|].
    vm_compute. reflexivity.
  - destruct (uniform_loop_strikes DefaultLoopGuard "s" 47 (repeat 1000 19)) as [-> _];
      [discriminate|vm_compute; split; discriminate|vm_compute; discriminate|vm_compute; discriminate|].
    vm_compute. reflexivity.
Defined.

Lemma recovery_forgives_witness :
  strike (history looped_tracker "s") = 2 /\
  strike (history (apply_ops looped_tracker (map (fun r => ORecord r.1 "s" r.2) (repeat (3000 * nsec_second, 900) 10))) "s") = 0.
Proof.
  split; [vm_compute; reflexivity|].
  destruct (recovery_forgives DefaultLoopGuard looped "s" (repeat (3000 * nsec_second, 900) 10)) as [H _]; [..|exact H].
  - discriminate.
  - replace (MaxLoopTokens _) with 256 by (vm_compute; reflexivity). simpl. repeat (constructor; [simpl; lia|]). constructor.
  - vm_compute. discriminate.
Defined.
End LoopLadder.
