(* ===== verification/MonoDeque.v ===== *)
(** The sliding-window minimum of the memory brake ([push] and the first half of
    [trackRise] in [internal/membrake/brake.go]): a monotonic queue of samples in
    a fixed ring, and the proof that its head is the minimum of the window. *)

From S2P Require Import Prelude.

Module MonoDeque.

(** A ring of timestamps and values; the queue is the [d_n] slots from
    [d_head] on. *)
Record deque := mkDeque { dT : list Z; dV : list Z; d_head : nat; d_n : nat }.

Definition cap (q : deque) : nat := length (dT q).

Definition new_deque (capacity : nat) : deque :=
  mkDeque (replicate capacity 0) (replicate capacity 0) 0 0.

Definition clear (q : deque) : deque := mkDeque (dT q) (dV q) 0 0.

(** The value at the head: [dqV[head]]. *)
Definition front (q : deque) : Z := nth (d_head q) (dV q) 0.

(** Pop from the back every value that is at least [v]. *)
Fixpoint pop_back (values : list Z) (c head : nat) (v : Z) (n : nat) : nat :=
  match n with
  | O => O
  | S k => if v <=? nth ((head + k) mod c) values 0 then pop_back values c head v k else n
  end.

(** Pop from the front what is older than the window, but never the last one. *)
Fixpoint pop_front (times : list Z) (c : nat) (ts win : Z) (head n : nat) : nat * nat :=
  match n with
  | S (S _ as k) =>
    if win <? i64 (ts - nth head times 0) then pop_front times c ts win ((head + 1) mod c) k
    else (head, n)
  | _ => (head, n)
  end.

Definition push (q : deque) (ts v win : Z) : deque :=
  let c := cap q in
  let n := pop_back (dV q) c (d_head q) v (d_n q) in
  let '(head, n) := if Nat.eqb n c then (((d_head q + 1) mod c)%nat, (n - 1)%nat) else (d_head q, n) in
  let i := ((head + n) mod c)%nat in
  let times := <[i := ts]> (dT q) in
  let values := <[i := v]> (dV q) in
  let '(head, n) := pop_front times c ts win head (n + 1) in
  mkDeque times values head n.

(** ** The queue as a list *)
Definition slot (q : deque) (k : nat) : Z * Z :=
  (nth ((d_head q + k) mod cap q) (dT q) 0, nth ((d_head q + k) mod cap q) (dV q) 0).

Definition contents_from (times values : list Z) (c head n : nat) : list (Z * Z) :=
  map (fun k => (nth ((head + k) mod c) times 0, nth ((head + k) mod c) values 0)) (seq 0 n).

Definition contents (q : deque) : list (Z * Z) :=
  contents_from (dT q) (dV q) (cap q) (d_head q) (d_n q).

Record ring (q : deque) : Prop := {
  ri_cap : (0 < cap q)%nat;
  ri_values : length (dV q) = cap q;
  ri_head : (d_head q < cap q)%nat;
  ri_n : (d_n q <= cap q)%nat;
}.

Fixpoint drop_back_rev (v : Z) (l : list (Z * Z)) : list (Z * Z) :=
  match l with
  | [] => []
  | e :: l => if v <=? e.2 then drop_back_rev v l else e :: l
  end.

Definition drop_back (v : Z) (l : list (Z * Z)) : list (Z * Z) := rev (drop_back_rev v (rev l)).

Fixpoint drop_front (ts win : Z) (l : list (Z * Z)) : list (Z * Z) :=
  match l with
  | e :: (_ :: _) as rest => if win <? i64 (ts - e.1) then drop_front ts win rest else l
  | _ => l
  end.

Definition list_push (c : nat) (l : list (Z * Z)) (ts v win : Z) : list (Z * Z) :=
  let l := drop_back v l in
  let l := if Nat.eqb (length l) c then tail l else l in
  drop_front ts win (l ++ [(ts, v)]).

Lemma pop_front_step times c ts win head n :
  pop_front times c ts win head (S (S n)) =
    if win <? i64 (ts - nth head times 0) then pop_front times c ts win ((head + 1) mod c) (S n)
    else (head, S (S n)).
Proof. done. Qed.

Lemma drop_front_step ts win e e' l :
  drop_front ts win (e :: e' :: l) =
    if win <? i64 (ts - e.1) then drop_front ts win (e' :: l) else e :: e' :: l.
Proof. done. Qed.

Section refine.
Variables (times values : list Z) (c : nat).
Hypothesis Hc : (0 < c)%nat.

Lemma contents_length head n : length (contents_from times values c head n) = n.
Proof. unfold contents_from. by rewrite length_map, length_seq. Qed.

Lemma contents_snoc head n :
  contents_from times values c head (S n) =
    contents_from times values c head n ++
      [(nth ((head + n) mod c) times 0, nth ((head + n) mod c) values 0)].
Proof. unfold contents_from. rewrite seq_S, map_app. done. Qed.

Lemma contents_cons head n :
  (head < c)%nat ->
  contents_from times values c head (S n) =
    (nth head times 0, nth head values 0) :: contents_from times values c ((head + 1) mod c) n.
Proof.
  intros Hh. unfold contents_from. simpl. rewrite Nat.add_0_r, Nat.mod_small by done. f_equal.
  rewrite <- seq_shift, map_map. apply map_ext. intros k.
  assert ((((head + 1) mod c + k) mod c) = ((head + S k) mod c))%nat as ->; [|done].
  rewrite Nat.Div0.add_mod_idemp_l. f_equal. lia.
Qed.

Lemma pop_back_contents head v n :
  contents_from times values c head (pop_back values c head v n) =
    drop_back v (contents_from times values c head n) /\ (pop_back values c head v n <= n)%nat.
Proof.
  unfold drop_back. induction n as [|n [IH Hle]]; [done|]. cbn [pop_back].
  rewrite contents_snoc, rev_app_distr. cbn [rev app drop_back_rev snd].
  destruct (v <=? nth ((head + n) mod c) values 0) eqn:E.
  - split; [exact IH|lia].
  - split; [|lia]. rewrite contents_snoc. cbn [rev]. by rewrite rev_involutive.
Qed.

Lemma pop_front_contents ts win head n :
  (head < c)%nat ->
  let r := pop_front times c ts win head n in
  contents_from times values c r.1 r.2 = drop_front ts win (contents_from times values c head n) /\
  (r.1 < c)%nat /\ (r.2 <= n)%nat.
Proof.
  revert head. induction n as [|n IH]; intros head Hh; [done|].
  destruct n as [|n]; [done|]. rewrite pop_front_step. cbv zeta.
  pose proof (contents_cons head (S n) Hh) as E0.
  pose proof (contents_cons ((head + 1) mod c) n (Nat.mod_upper_bound (head + 1) c ltac:(lia))) as E.
  destruct (win <? i64 (ts - nth head times 0)) eqn:Hold.
  - destruct (IH ((head + 1) mod c)%nat) as (H1 & H2 & H3); [by apply Nat.mod_upper_bound; lia|].
    rewrite H1, E0, E, drop_front_step. cbn [fst]. rewrite Hold. split_and!; [done|done|lia].
  - cbn [fst snd]. rewrite E0, E, drop_front_step. cbn [fst]. rewrite Hold. split_and!; [done|done|lia].
Qed.
End refine.

Lemma mod_apart c h k n : (k < n)%nat -> (n < c)%nat -> ((h + k) mod c <> (h + n) mod c)%nat.
Proof.
  intros Hk Hn E. assert (c <> 0)%nat as Hc0 by lia. pose proof (Nat.mod_upper_bound (h + k) c Hc0) as Hr.
  replace (h + n)%nat with ((h + k) + (n - k))%nat in E by lia.
  rewrite (Nat.Div0.add_mod (h + k) (n - k)), (Nat.mod_small (n - k)) in E by lia.
  set (r := ((h + k) mod c)%nat) in *. destruct (Nat.lt_ge_cases (r + (n - k)) c) as [Hlt|Hge].
  - rewrite Nat.mod_small in E by done. lia.
  - assert (((r + (n - k)) mod c = r + (n - k) - c)%nat) as E2.
    { replace (r + (n - k))%nat with ((r + (n - k) - c) + 1 * c)%nat at 1 by lia.
      rewrite Nat.Div0.mod_add. apply Nat.mod_small. lia. }
    lia.
Qed.

(** Writing the slot after the last leaves the queue as it was. *)
Lemma contents_insert times values c head n ts v :
  (n < c)%nat ->
  contents_from (<[((head + n) mod c)%nat := ts]> times) (<[((head + n) mod c)%nat := v]> values) c head n =
    contents_from times values c head n.
Proof.
  intros Hn. unfold contents_from. apply map_ext_in. intros k [_ Hk]%in_seq.
  pose proof (mod_apart c head k n ltac:(lia) Hn) as Hne.
  rewrite !nth_lookup, !list_lookup_insert_ne by done. done.
Qed.

Lemma contents_tail times values c head n :
  (head < c)%nat -> contents_from times values c ((head + 1) mod c) (n - 1) = tail (contents_from times values c head n).
Proof.
  intros Hh. destruct n as [|n]; [done|]. rewrite (contents_cons times values c) by (done || lia).
  simpl. by rewrite Nat.sub_0_r.
Qed.

(** The ring implements the queue. *)
Lemma push_refines q ts v win :
  ring q -> ring (push q ts v win) /\ cap (push q ts v win) = cap q /\
  contents (push q ts v win) = list_push (cap q) (contents q) ts v win.
Proof.
  intros [Hc Hv Hh Hn]. unfold push, list_push. cbv zeta.
  destruct (pop_back_contents (dT q) (dV q) (cap q) Hc (d_head q) v (d_n q)) as [E1 L1].
  fold (contents q) in E1. set (n1 := pop_back _ _ _ _ _) in *.
  assert (length (drop_back v (contents q)) = n1) as Hlen by (rewrite <- E1; apply contents_length).
  rewrite Hlen. set (hn := if Nat.eqb n1 (cap q) then _ else (d_head q, n1)).
  assert (contents_from (dT q) (dV q) (cap q) hn.1 hn.2 =
            (if Nat.eqb n1 (cap q) then tail (drop_back v (contents q)) else drop_back v (contents q)) /\
          (hn.1 < cap q)%nat /\ (hn.2 < cap q)%nat) as (E2 & Hh2 & Hn2).
  { subst hn. destruct (Nat.eqb_spec n1 (cap q)); simpl.
    - rewrite contents_tail by done. rewrite E1. split_and!; [done|apply Nat.mod_upper_bound; lia|lia].
    - rewrite E1. split_and!; [done|done|lia]. }
  destruct hn as [h n]. simpl in E2, Hh2, Hn2. rewrite <- E2.
  set (i := ((h + n) mod cap q)%nat). set (times := <[i := ts]> (dT q)). set (values := <[i := v]> (dV q)).
  assert (i < cap q)%nat as Hi by (apply Nat.mod_upper_bound; lia).
  assert (length times = cap q) as Ht by apply length_insert.
  assert (contents_from times values (cap q) h (n + 1) =
            contents_from (dT q) (dV q) (cap q) h n ++ [(ts, v)]) as E3.
  { rewrite Nat.add_1_r, contents_snoc. subst times values. unfold i at 1 2. rewrite contents_insert by done.
    f_equal. fold i. by rewrite !nth_lookup, !list_lookup_insert_eq by (rewrite ?Hv; done). }
  destruct (pop_front_contents times values (cap q) Hc ts win h (n + 1) Hh2) as (E4 & Hh4 & Hn4).
  rewrite E3 in E4. destruct (pop_front times (cap q) ts win h (n + 1)) as [h' n']. simpl in *.
  split; [|split; [exact Ht|]].
  - split; unfold cap; simpl; rewrite ?Ht; try done; [|lia]. subst values. by rewrite length_insert.
  - unfold contents, cap. simpl. by rewrite Ht.
Qed.

(** ** The head is the minimum of the window *)

(** [s] is in the window that ends at [now]. *)
Definition in_window (win now : Z) (s : Z * Z) : bool := now - s.1 <=? win.

Definition last_time (ss : list (Z * Z)) : Z := default 0 (fst <$> last ss).

(** Every sample is taken at or after the ones before it, at a time that fits. *)
Definition in_order (ss : list (Z * Z)) : Prop :=
  StronglySorted (fun a b => a.1 <= b.1) ss /\ Forall (fun s => 0 <= s.1 <= max_int64) ss.

(** What the queue holds after the samples [ss]. *)
Record minima (win : Z) (ss l : list (Z * Z)) : Prop := {
  mi_sub : sublist l ss;
  mi_inc : StronglySorted (fun a b => a.2 < b.2) l;
  mi_win : Forall (fun e => in_window win (last_time ss) e = true) l;
  mi_dom : forall s, s ∈ ss -> in_window win (last_time ss) s = true ->
    exists e, e ∈ l /\ s.1 <= e.1 /\ e.2 <= s.2;
}.

Lemma drop_back_filter v l :
  StronglySorted (fun a b : Z * Z => a.2 < b.2) l -> drop_back v l = List.filter (fun e => e.2 <? v) l.
Proof.
  unfold drop_back. induction l as [|e l IH] using rev_ind; intros Hs; [done|].
  rewrite rev_app_distr, List.filter_app. cbn [rev app drop_back_rev].
  apply StronglySorted_app in Hs as (Hcross & Hl & _).
  destruct (Z.leb_spec v e.2) as [Hv|Hv].
  - cbn [List.filter]. rewrite (proj2 (Z.ltb_ge _ _) Hv), app_nil_r. by apply IH.
  - cbn [List.filter rev]. rewrite rev_involutive, (proj2 (Z.ltb_lt _ _) Hv). f_equal.
    symmetry. apply forallb_filter_id, forallb_forall. intros x Hx%list_elem_of_In.
    apply Z.ltb_lt. specialize (Hcross x e Hx ltac:(by left)). simpl in Hcross. lia.
Qed.

Lemma drop_front_filter ts win l :
  0 <= win -> Forall (fun e => 0 <= e.1 <= ts) l -> ts <= max_int64 ->
  StronglySorted (fun a b : Z * Z => a.1 <= b.1) l -> (exists x, last l = Some x /\ x.1 = ts) ->
  drop_front ts win l = List.filter (in_window win ts) l.
Proof.
  intros Hwin Hb Hts Hs Hlast. induction l as [|e l IH]; [done|].
  inversion_clear Hb as [|? ? He Hl]. inversion_clear Hs as [|? ? Hsl Hall].
  assert (i64 (ts - e.1) = ts - e.1) as Hi by (apply i64_id; unfold min_int64; lia).
  destruct l as [|e' l].
  { destruct Hlast as (x & [= ->] & Hx). cbn. unfold in_window.
    by replace (ts - x.1 <=? win) with true by (symmetry; apply Z.leb_le; lia). }
  rewrite drop_front_step, Hi. assert (drop_front ts win (e' :: l) = List.filter (in_window win ts) (e' :: l)) as IH'
    by (apply IH; done).
  destruct (Z.ltb_spec win (ts - e.1)) as [Hold|Hnew].
  - rewrite IH'. cbn [List.filter]. replace (in_window win ts e) with false; [done|]. symmetry. apply Z.leb_gt. done.
  - symmetry. apply forallb_filter_id, forallb_forall. intros x Hx%list_elem_of_In.
    unfold in_window. apply Z.leb_le. apply elem_of_cons in Hx as [->|Hx]; [done|].
    rewrite Forall_forall in Hall. specialize (Hall x Hx). lia.
Qed.

Lemma last_time_snoc ss s : last_time (ss ++ [s]) = s.1.
Proof. unfold last_time. by rewrite last_snoc. Qed.

Lemma sublist_filterb (f : Z * Z -> bool) l : sublist (List.filter f l) l.
Proof. induction l as [|x l IH]; simpl; [constructor|]. destruct (f x); by constructor. Qed.

Lemma filterb_sublist (f : Z * Z -> bool) l k : sublist l k -> sublist (List.filter f l) (List.filter f k).
Proof.
  induction 1 as [|x l k Hl IH|x l k Hl IH]; simpl; [constructor| |].
  - destruct (f x); [by constructor|done].
  - destruct (f x); [by constructor|done].
Qed.

Lemma sorted_sublist (R : Z * Z -> Z * Z -> Prop) l k : sublist l k -> StronglySorted R k -> StronglySorted R l.
Proof.
  induction 1 as [|x l k Hl IH|x l k Hl IH]; intros Hk; [constructor| |]; inversion_clear Hk as [|? ? Hs Hall].
  - constructor; [by apply IH|]. rewrite Forall_forall in *. intros y Hy. apply Hall.
    by eapply elem_of_sublist.
  - by apply IH.
Qed.

Lemma Forall_sublist' (P : Z * Z -> Prop) l k : sublist l k -> Forall P k -> Forall P l.
Proof. rewrite !Forall_forall. intros Hs Hk x Hx. apply Hk. by eapply elem_of_sublist. Qed.

(** One sample keeps the minima, as long as the ring has room. *)
Lemma list_push_minima c win ss l ts v :
  0 <= win -> in_order (ss ++ [(ts, v)]) -> minima win ss l ->
  (length (List.filter (in_window win (last_time ss)) ss) < c)%nat ->
  minima win (ss ++ [(ts, v)]) (list_push c l ts v win).
Proof.
  intros Hwin [Hs Hb] [M1 M2 M3 M4] Hroom.
  apply StronglySorted_app in Hs as (Hcross & Hss & _).
  assert (forall s, s ∈ ss -> s.1 <= ts) as Hle by (intros s Hin; apply (Hcross s (ts, v) Hin); by left).
  apply Forall_app in Hb as [Hb Hx]. inversion_clear Hx as [|? ? Hts _]. simpl in Hts.
  unfold list_push. rewrite (drop_back_filter v l M2).
  assert (sublist l (List.filter (in_window win (last_time ss)) ss)) as Hsub.
  { replace l with (List.filter (in_window win (last_time ss)) l); [by apply filterb_sublist|].
    apply forallb_filter_id, forallb_forall. intros x Hx%list_elem_of_In. rewrite Forall_forall in M3. auto. }
  set (l1 := List.filter _ l). assert (sublist l1 l) as Hl1 by apply sublist_filterb.
  assert (length l1 < c)%nat as Hlen.
  { apply sublist_length in Hl1. apply sublist_length in Hsub. lia. }
  rewrite (proj2 (Nat.eqb_neq (length l1) c)) by lia.
  assert (sublist (l1 ++ [(ts, v)]) (ss ++ [(ts, v)])) as Hsub2.
  { apply sublist_app; [|done]. by etransitivity. }
  assert (StronglySorted (fun a b : Z * Z => a.1 <= b.1) (l1 ++ [(ts, v)])) as Hsorted.
  { eapply sorted_sublist; [exact Hsub2|]. apply StronglySorted_app. split_and!; [done|done|].
    repeat constructor. }
  assert (forall s, s ∈ l1 -> s ∈ ss) as Hin1.
  { intros s Hs. eapply elem_of_sublist; [exact Hs|]. by etransitivity. }
  rewrite drop_front_filter; [|done| |lia|done|exists (ts, v); by rewrite last_snoc].
  2: { apply Forall_app. split; [|by repeat constructor; simpl; lia]. apply Forall_forall. intros s Hs.
       specialize (Hin1 s Hs). rewrite Forall_forall in Hb. specialize (Hb s Hin1). specialize (Hle s Hin1). lia. }
  set (l2 := List.filter (in_window win ts) _).
  assert (sublist l2 (l1 ++ [(ts, v)])) as Hl2 by apply sublist_filterb.
  split.
  - by etransitivity.
  - eapply sorted_sublist; [exact Hl2|]. apply StronglySorted_app. split_and!.
    + intros a b [Ha Hav]%elem_of_filterb Hb0%list_elem_of_singleton. subst b. simpl. by apply Z.ltb_lt.
    + by eapply sorted_sublist.
    + repeat constructor.
  - rewrite last_time_snoc. apply Forall_forall. intros e [_ He]%elem_of_filterb. exact He.
  - rewrite last_time_snoc. intros s Hin Hw. simpl in Hw.
    assert ((ts, v) ∈ l2) as Hlast.
    { apply elem_of_filterb. split; [apply elem_of_app; right; by left|].
      unfold in_window. simpl. apply Z.leb_le. lia. }
    apply elem_of_app in Hin as [Hin|Hin%list_elem_of_singleton]; [|subst s; exists (ts, v); simpl; split_and!; [done|lia|lia]].
    specialize (Hle s Hin). destruct (M4 s Hin) as (e & He & Ht & Hv).
    { unfold in_window in *. apply Z.leb_le. apply Z.leb_le in Hw.
      assert (last_time ss <= ts); [|lia]. unfold last_time. destruct (last ss) as [y|] eqn:E; simpl; [|lia].
      rewrite last_Some in E. destruct E as [k ->]. apply (Hcross y (ts, v)); [|by left].
      apply elem_of_app. right. by left. }
    destruct (Z.ltb_spec e.2 v) as [Hev|Hev].
    + exists e. split_and!; [|done|done]. apply elem_of_filterb. split.
      * apply elem_of_app. left. apply elem_of_filterb. split; [done|by apply Z.ltb_lt].
      * unfold in_window in *. apply Z.leb_le. apply Z.leb_le in Hw. lia.
    + exists (ts, v). simpl. split_and!; [done|lia|lia].
Qed.

(** A run of samples into a ring. *)
Definition feed (q : deque) (win : Z) (ss : list (Z * Z)) : deque :=
  foldl (fun q s => push q s.1 s.2 win) q ss.

(** Before each sample, the window of the one before held fewer samples than the
    ring has slots. *)
Definition fits (capacity : nat) (win : Z) (ss : list (Z * Z)) : Prop :=
  forall k, (k < length ss)%nat ->
    (length (List.filter (in_window win (last_time (take k ss))) (take k ss)) < capacity)%nat.

Lemma ring_new capacity : (0 < capacity)%nat -> ring (new_deque capacity).
Proof. intros Hc. split; unfold cap; simpl; rewrite ?length_replicate; lia. Qed.

Lemma ring_clear q : ring q -> ring (clear q).
Proof. intros [H1 H2 H3 H4]. split; unfold cap in *; simpl; lia. Qed.

Lemma feed_snoc q win ss s : feed q win (ss ++ [s]) = push (feed q win ss) s.1 s.2 win.
Proof. unfold feed. by rewrite foldl_app. Qed.

Lemma in_order_prefix ss ks : in_order (ss ++ ks) -> in_order ss.
Proof.
  intros [Hs Hb]. apply StronglySorted_app in Hs as (_ & Hs & _). by apply Forall_app in Hb as [Hb _].
Qed.

Lemma fits_prefix c win ss ks : fits c win (ss ++ ks) -> fits c win ss.
Proof.
  intros Hf k Hk. specialize (Hf k). rewrite length_app in Hf. rewrite take_app_le in Hf by lia.
  apply Hf. lia.
Qed.

Lemma feed_minima q win ss :
  ring q -> d_n q = 0%nat -> 0 <= win -> in_order ss -> fits (cap q) win ss ->
  ring (feed q win ss) /\ cap (feed q win ss) = cap q /\ minima win ss (contents (feed q win ss)).
Proof.
  intros Hq Hn Hwin. induction ss as [|s ss IH] using rev_ind; intros Ho Hf.
  { simpl. split_and!; [done|done|]. unfold contents. rewrite Hn.
    split; [constructor|constructor|constructor|]. intros s Hs. by apply elem_of_nil in Hs. }
  destruct IH as (Hr & Hcap & Hm); [by eapply in_order_prefix|by eapply fits_prefix|].
  rewrite feed_snoc. destruct s as [ts v]. simpl.
  destruct (push_refines (feed q win ss) ts v win Hr) as (H1 & H2 & H3).
  split_and!; [exact H1|by rewrite H2|]. rewrite H3, Hcap.
  apply list_push_minima; [done|done|exact Hm|]. specialize (Hf (length ss)).
  rewrite length_app, take_app_length in Hf. apply Hf. simpl. lia.
Qed.

Lemma minima_front win ss q :
  ring q -> ss <> [] -> 0 <= win -> minima win ss (contents q) ->
  (exists s, s ∈ ss /\ in_window win (last_time ss) s = true /\ s.2 = front q) /\
  (forall s, s ∈ ss -> in_window win (last_time ss) s = true -> front q <= s.2).
Proof.
  intros [Hc _ Hh _] Hne Hwin [M1 M2 M3 M4].
  assert (exists x, x ∈ ss /\ in_window win (last_time ss) x = true) as (x & Hx & Hxw).
  { destruct ss as [|s ss] using rev_ind; [done|]. exists s. split; [apply elem_of_app; right; by left|].
    rewrite last_time_snoc. unfold in_window. apply Z.leb_le. lia. }
  destruct (M4 x Hx Hxw) as (e0 & He0 & _).
  assert (exists e l, contents q = e :: l /\ e.2 = front q) as (e & l & E & Hf).
  { unfold contents in *. destruct (d_n q) as [|n]; [by apply elem_of_nil in He0|].
    rewrite (contents_cons (dT q) (dV q) (cap q) Hc) by done. by eexists _, _. }
  rewrite E in *. rewrite <- Hf. split.
  - exists e. inversion_clear M3 as [|? ? H3 _]. split_and!; [|done|done].
    eapply elem_of_sublist; [|exact M1]. by left.
  - intros s Hs Hw. destruct (M4 s Hs Hw) as (e' & He' & _ & Hle). inversion_clear M2 as [|? ? _ Hall].
    apply elem_of_cons in He' as [->|He']; [done|]. rewrite Forall_forall in Hall. specialize (Hall e' He'). lia.
Qed.

Lemma feed_minimum q win ss :
  ring q -> d_n q = 0%nat -> 0 <= win -> ss <> [] -> in_order ss -> fits (cap q) win ss ->
  (exists s, s ∈ ss /\ in_window win (last_time ss) s = true /\ s.2 = front (feed q win ss)) /\
  (forall s, s ∈ ss -> in_window win (last_time ss) s = true -> front (feed q win ss) <= s.2).
Proof.
  intros Hq Hn Hwin Hne Ho Hf. destruct (feed_minima q win ss Hq Hn Hwin Ho Hf) as (Hr & _ & Hm).
  by apply minima_front.
Qed.

(** The sliding minimum is exact: after any samples in time order that the
    ring has room for, the value at the head of the ring is the least sample of
    the window that ends at the newest one - whatever the ring held before it
    was cleared, however it wrapped around, and however many samples were
    dropped from either end. *)
Theorem window_minimum (q : deque) (win : Z) (ss : list (Z * Z))
    (Hq : ring q) (Hwin : 0 <= win) (Hne : ss <> []) (Ho : in_order ss) (Hf : fits (cap q) win ss) :
  let q' := feed (clear q) win ss in
  (exists s, s ∈ ss /\ in_window win (last_time ss) s = true /\ s.2 = front q') /\
  (forall s, s ∈ ss -> in_window win (last_time ss) s = true -> front q' <= s.2).
Proof. apply (feed_minimum (clear q)); [by apply ring_clear|done|done|done|done|exact Hf]. Qed.

(** A ring of three slots and a window of ten: the ring wraps, the early minimum
    leaves the window. *)
Definition ex_samples : list (Z * Z) := [(1, 5); (4, 7); (9, 9); (13, 8); (16, 20)].

Lemma window_minimum_witness :
  front (feed (clear (new_deque 4)) 10 ex_samples) = 8 /\ (forall s, s ∈ ex_samples -> in_window 10 16 s = true -> 8 <= s.2).
Proof.
  split; [vm_compute; reflexivity|].
  destruct (window_minimum (new_deque 4) 10 ex_samples) as [_ H].
  - apply ring_new. lia.
  - lia.
  - discriminate.
  - split; unfold ex_samples, max_int64; repeat constructor; simpl; lia.
  - intros k Hk. do 5 (destruct k as [|k]; [vm_compute; lia|]). simpl in Hk. lia.
  - intros s Hs Hw. apply (H s Hs Hw).
Defined.
End MonoDeque.
