(* ===== verification/Brake.v ===== *)
(** The memory brake ([internal/membrake/brake.go]): the rolling-window trigger
    that kills every local model server, and the gate that keeps loads parked
    until the file cache has drained.

    Times are nanoseconds since the Unix epoch.  Signals, files, logs and the
    purge goroutine are effects in [log]; samples, live children, process
    groups, [ps], [msync] and [glob] answer from an [Env].  The text of markers
    and log lines is not modelled, the values they report are. *)

From Stdlib Require Import Ascii.
From S2P Require Import Prelude Float64 MonoDeque.

Module MemBrake.
Import Float64 MonoDeque.

Definition gib : Z := 2 ^ 30.
Definition killExitWait : Z := 30 * nsec_second.
Definition reEvictEvery : Z := 15 * nsec_second.
Definition drainSettle : Z := 60 * nsec_second.
Definition holdLogEvery : Z := 5 * nsec_minute.
Definition purgeTimeout : Z := 10 * nsec_minute.
Definition quietBackoffReset : Z := 30 * nsec_minute.
Definition maxQuietWindow : Z := 60 * nsec_minute.
Definition splashReprobeSecs : Z := 30.

(** [a - b] on [int64] *)
Definition sub64 (a b : Z) : Z := i64 (a - b).

Record Reading := mkReading { Wired : Z; FileBacked : Z; SwapUsed : Z }.

(** [Reading.metric]: [int64(FileBacked)] *)
Definition metric (r : Reading) : Z := i64 (FileBacked r).

Record LiveChild := mkChild { ID : string; Pgid : Z; Files : list string }.

(** [round2(float64(bytes) / gib)] *)
Definition round2 (f : float64) : float64 :=
  fdiv (of_int (to_int (fadd (fmul f (of_int 100)) (fdiv (of_int 1) (of_int 2))))) (of_int 100).
Definition gb (bytes : Z) : float64 := fdiv (of_int bytes) (of_int gib).

Record Event := mkEvent {
  At : Z;
  GrowthGB : float64;
  FileGB : float64;
  WindowMinGB : float64;
  WindowSpanS : Z;
  WiredGB : float64;
  SwapGB : float64;
  Killed : list (string * Z);
}.

(** The parameters [New] derives from the configuration. *)
Record MemoryBrakeConfig := mkConfig {
  SampleIntervalMs : Z;
  WindowMinutes : Z;
  cfg_GrowthGB : float64;
  ArmAfterMinutes : Z;
  ConfirmSamples : Z;
  DrainBelowGB : float64;
  SplashGrowthGB : float64;
  HoldStatePath : string;
  PurgeAfterMinutes : Z;
}.

Definition interval (c : MemoryBrakeConfig) : Z := i64 (SampleIntervalMs c * 1000000).
Definition window (c : MemoryBrakeConfig) : Z := i64 (WindowMinutes c * nsec_minute).
Definition armAfter (c : MemoryBrakeConfig) : Z := i64 (ArmAfterMinutes c * nsec_minute).
Definition threshold (c : MemoryBrakeConfig) : Z := to_int (fmul (cfg_GrowthGB c) (of_int gib)).
Definition drainBelow (c : MemoryBrakeConfig) : Z := to_int (fmul (DrainBelowGB c) (of_int gib)).
Definition splashThreshold (c : MemoryBrakeConfig) : Z := to_int (fmul (SplashGrowthGB c) (of_int gib)).

(** *** Effects *)
Inductive marker :=
| MBrake (ev : Event) (threshold : Z)
| MEvict (evicted before after failed : Z)
| MRelease (fileBacked held_s quiet_s backoff : Z)
| MPurgeStart (fileBacked : Z)
| MPurgeStuck (running_s fileBacked : Z)
| MPurgeFailed
| MPurgeResult (before after : Z).

Inductive Effect :=
| EKill (pgid : Z)
| EEvict (path : string)
| EPurge
| EMark (m : marker)
| EWarn
| EWriteHold (seconds : Z)
| ERemoveHold.

Record Env := mkEnv {
  env_sample : list Effect -> option Reading;
  env_children : list Effect -> list LiveChild * bool;
  env_alive : list Effect -> Z -> bool;
  env_isSplash : list Effect -> Z -> bool;
  env_evict : list Effect -> string -> bool;
  env_glob : list Effect -> string -> list string;
}.

(** *** The hold: the admission gate *)
Record Hold := mkHold {
  holding : bool;
  fileBacked : Z;
  h_drainBelow : Z;
  h_last : option Event;
  released : bool;          (* the channel is non-nil: loads park on it *)
}.

Definition hold_Set (h : Hold) (ev : Event) (drainBelow : Z) : Hold :=
  if holding h then mkHold true (fileBacked h) drainBelow (Some ev) (released h)
  else mkHold true (fileBacked h) drainBelow (Some ev) true.

Definition hold_Record (h : Hold) (ev : Event) : Hold :=
  mkHold (holding h) (fileBacked h) (h_drainBelow h) (Some ev) (released h).

Definition hold_Release (h : Hold) : Hold :=
  if holding h then mkHold false (fileBacked h) (h_drainBelow h) (h_last h) false else h.

Definition hold_store (h : Hold) (bytes : Z) : Hold :=
  mkHold (holding h) bytes (h_drainBelow h) (h_last h) (released h).

(** [Wait] parks the caller. *)
Definition hold_parks (h : Hold) : bool := released h.

Record Status := mkStatus {
  st_Enabled : bool; st_Holding : bool; st_RemainingSeconds : Z;
  st_FileBackedGB : float64; st_DrainBelowGB : float64; st_Last : option Event }.

Definition CurrentStatus (running : bool) (h : Hold) : Status :=
  mkStatus running (holding h) 0
    (if holding h then round2 (gb (fileBacked h)) else of_int 0)
    (if holding h then round2 (gb (h_drainBelow h)) else of_int 0) (h_last h).

(** *** The brake *)
Record postKill := mkPost {
  p_active : bool;
  p_killedAt : Z;
  p_pgids : list Z;
  p_evicted : bool;
  p_lastEvict : Z;
  p_belowSince : Z;
  p_lastLog : Z;
  p_lastRiseAt : Z;
  p_evictedAt : Z;
}.

Record Brake := mkBrake {
  hold : Hold;
  files : gset string;
  post : postKill;
  lastReleaseAt : Z;
  backoff : Z;
  qdq : deque;
  dq : deque;
  winStart : Z;
  consec : Z;
  lastDisarm : Z;
  lastGrowth : Z;
  started : bool;
  splashKnown : gset Z;
  splashNegAt : gmap Z Z;
  effThreshold : Z;
  kids : list LiveChild;
  purging : bool;
  lastPurgeAttempt : Z;
  purgeStartedAt : Z;
  lastStuckReport : Z;
  log : list Effect;
}.

(** *** Field updates *)
Definition set_hold (b : Brake) x : Brake := mkBrake x (files b) (post b) (lastReleaseAt b)
    (backoff b) (qdq b) (dq b) (winStart b) (consec b) (lastDisarm b) (lastGrowth b)
    (started b) (splashKnown b) (splashNegAt b) (effThreshold b) (kids b) (purging b)
    (lastPurgeAttempt b) (purgeStartedAt b) (lastStuckReport b) (log b).
Definition set_files (b : Brake) x : Brake := mkBrake (hold b) x (post b) (lastReleaseAt b)
    (backoff b) (qdq b) (dq b) (winStart b) (consec b) (lastDisarm b) (lastGrowth b)
    (started b) (splashKnown b) (splashNegAt b) (effThreshold b) (kids b) (purging b)
    (lastPurgeAttempt b) (purgeStartedAt b) (lastStuckReport b) (log b).
Definition set_post (b : Brake) x : Brake := mkBrake (hold b) (files b) x (lastReleaseAt b)
    (backoff b) (qdq b) (dq b) (winStart b) (consec b) (lastDisarm b) (lastGrowth b)
    (started b) (splashKnown b) (splashNegAt b) (effThreshold b) (kids b) (purging b)
    (lastPurgeAttempt b) (purgeStartedAt b) (lastStuckReport b) (log b).
Definition set_lastReleaseAt (b : Brake) x : Brake := mkBrake (hold b) (files b) (post b) x
    (backoff b) (qdq b) (dq b) (winStart b) (consec b) (lastDisarm b) (lastGrowth b)
    (started b) (splashKnown b) (splashNegAt b) (effThreshold b) (kids b) (purging b)
    (lastPurgeAttempt b) (purgeStartedAt b) (lastStuckReport b) (log b).
Definition set_backoff (b : Brake) x : Brake := mkBrake (hold b) (files b) (post b)
    (lastReleaseAt b) x (qdq b) (dq b) (winStart b) (consec b) (lastDisarm b) (lastGrowth b)
    (started b) (splashKnown b) (splashNegAt b) (effThreshold b) (kids b) (purging b)
    (lastPurgeAttempt b) (purgeStartedAt b) (lastStuckReport b) (log b).
Definition set_qdq (b : Brake) x : Brake := mkBrake (hold b) (files b) (post b)
    (lastReleaseAt b) (backoff b) x (dq b) (winStart b) (consec b) (lastDisarm b)
    (lastGrowth b) (started b) (splashKnown b) (splashNegAt b) (effThreshold b) (kids b)
    (purging b) (lastPurgeAttempt b) (purgeStartedAt b) (lastStuckReport b) (log b).
Definition set_dq (b : Brake) x : Brake := mkBrake (hold b) (files b) (post b)
    (lastReleaseAt b) (backoff b) (qdq b) x (winStart b) (consec b) (lastDisarm b)
    (lastGrowth b) (started b) (splashKnown b) (splashNegAt b) (effThreshold b) (kids b)
    (purging b) (lastPurgeAttempt b) (purgeStartedAt b) (lastStuckReport b) (log b).
Definition set_winStart (b : Brake) x : Brake := mkBrake (hold b) (files b) (post b)
    (lastReleaseAt b) (backoff b) (qdq b) (dq b) x (consec b) (lastDisarm b) (lastGrowth b)
    (started b) (splashKnown b) (splashNegAt b) (effThreshold b) (kids b) (purging b)
    (lastPurgeAttempt b) (purgeStartedAt b) (lastStuckReport b) (log b).
Definition set_consec (b : Brake) x : Brake := mkBrake (hold b) (files b) (post b)
    (lastReleaseAt b) (backoff b) (qdq b) (dq b) (winStart b) x (lastDisarm b) (lastGrowth
    b) (started b) (splashKnown b) (splashNegAt b) (effThreshold b) (kids b) (purging b)
    (lastPurgeAttempt b) (purgeStartedAt b) (lastStuckReport b) (log b).
Definition set_lastDisarm (b : Brake) x : Brake := mkBrake (hold b) (files b) (post b)
    (lastReleaseAt b) (backoff b) (qdq b) (dq b) (winStart b) (consec b) x (lastGrowth b)
    (started b) (splashKnown b) (splashNegAt b) (effThreshold b) (kids b) (purging b)
    (lastPurgeAttempt b) (purgeStartedAt b) (lastStuckReport b) (log b).
Definition set_lastGrowth (b : Brake) x : Brake := mkBrake (hold b) (files b) (post b)
    (lastReleaseAt b) (backoff b) (qdq b) (dq b) (winStart b) (consec b) (lastDisarm b) x
    (started b) (splashKnown b) (splashNegAt b) (effThreshold b) (kids b) (purging b)
    (lastPurgeAttempt b) (purgeStartedAt b) (lastStuckReport b) (log b).
Definition set_started (b : Brake) x : Brake := mkBrake (hold b) (files b) (post b)
    (lastReleaseAt b) (backoff b) (qdq b) (dq b) (winStart b) (consec b) (lastDisarm b)
    (lastGrowth b) x (splashKnown b) (splashNegAt b) (effThreshold b) (kids b) (purging b)
    (lastPurgeAttempt b) (purgeStartedAt b) (lastStuckReport b) (log b).
Definition set_splashKnown (b : Brake) x : Brake := mkBrake (hold b) (files b) (post b)
    (lastReleaseAt b) (backoff b) (qdq b) (dq b) (winStart b) (consec b) (lastDisarm b)
    (lastGrowth b) (started b) x (splashNegAt b) (effThreshold b) (kids b) (purging b)
    (lastPurgeAttempt b) (purgeStartedAt b) (lastStuckReport b) (log b).
Definition set_splashNegAt (b : Brake) x : Brake := mkBrake (hold b) (files b) (post b)
    (lastReleaseAt b) (backoff b) (qdq b) (dq b) (winStart b) (consec b) (lastDisarm b)
    (lastGrowth b) (started b) (splashKnown b) x (effThreshold b) (kids b) (purging b)
    (lastPurgeAttempt b) (purgeStartedAt b) (lastStuckReport b) (log b).
Definition set_effThreshold (b : Brake) x : Brake := mkBrake (hold b) (files b) (post b)
    (lastReleaseAt b) (backoff b) (qdq b) (dq b) (winStart b) (consec b) (lastDisarm b)
    (lastGrowth b) (started b) (splashKnown b) (splashNegAt b) x (kids b) (purging b)
    (lastPurgeAttempt b) (purgeStartedAt b) (lastStuckReport b) (log b).
Definition set_kids (b : Brake) x : Brake := mkBrake (hold b) (files b) (post b)
    (lastReleaseAt b) (backoff b) (qdq b) (dq b) (winStart b) (consec b) (lastDisarm b)
    (lastGrowth b) (started b) (splashKnown b) (splashNegAt b) (effThreshold b) x (purging
    b) (lastPurgeAttempt b) (purgeStartedAt b) (lastStuckReport b) (log b).
Definition set_purging (b : Brake) x : Brake := mkBrake (hold b) (files b) (post b)
    (lastReleaseAt b) (backoff b) (qdq b) (dq b) (winStart b) (consec b) (lastDisarm b)
    (lastGrowth b) (started b) (splashKnown b) (splashNegAt b) (effThreshold b) (kids b) x
    (lastPurgeAttempt b) (purgeStartedAt b) (lastStuckReport b) (log b).
Definition set_lastPurgeAttempt (b : Brake) x : Brake := mkBrake (hold b) (files b) (post b)
    (lastReleaseAt b) (backoff b) (qdq b) (dq b) (winStart b) (consec b) (lastDisarm b)
    (lastGrowth b) (started b) (splashKnown b) (splashNegAt b) (effThreshold b) (kids b)
    (purging b) x (purgeStartedAt b) (lastStuckReport b) (log b).
Definition set_purgeStartedAt (b : Brake) x : Brake := mkBrake (hold b) (files b) (post b)
    (lastReleaseAt b) (backoff b) (qdq b) (dq b) (winStart b) (consec b) (lastDisarm b)
    (lastGrowth b) (started b) (splashKnown b) (splashNegAt b) (effThreshold b) (kids b)
    (purging b) (lastPurgeAttempt b) x (lastStuckReport b) (log b).
Definition set_lastStuckReport (b : Brake) x : Brake := mkBrake (hold b) (files b) (post b)
    (lastReleaseAt b) (backoff b) (qdq b) (dq b) (winStart b) (consec b) (lastDisarm b)
    (lastGrowth b) (started b) (splashKnown b) (splashNegAt b) (effThreshold b) (kids b)
    (purging b) (lastPurgeAttempt b) (purgeStartedAt b) x (log b).
Definition set_log (b : Brake) x : Brake := mkBrake (hold b) (files b) (post b)
    (lastReleaseAt b) (backoff b) (qdq b) (dq b) (winStart b) (consec b) (lastDisarm b)
    (lastGrowth b) (started b) (splashKnown b) (splashNegAt b) (effThreshold b) (kids b)
    (purging b) (lastPurgeAttempt b) (purgeStartedAt b) (lastStuckReport b) x.

Definition emit (e : Effect) (b : Brake) : Brake := set_log b (log b ++ [e]).
Definition mark (m : marker) (b : Brake) : Brake := emit (EMark m) b.
Definition warn (b : Brake) : Brake := emit EWarn b.

Definition set_post_active (p : postKill) x : postKill :=
  mkPost x (p_killedAt p) (p_pgids p) (p_evicted p) (p_lastEvict p) (p_belowSince p) (p_lastLog p)
    (p_lastRiseAt p) (p_evictedAt p).
Definition set_post_evict (p : postKill) (evicted : bool) (lastEvict lastLog evictedAt : Z) : postKill :=
  mkPost (p_active p) (p_killedAt p) (p_pgids p) evicted lastEvict (p_belowSince p) lastLog
    (p_lastRiseAt p) evictedAt.
Definition set_post_lastEvict (p : postKill) x : postKill :=
  mkPost (p_active p) (p_killedAt p) (p_pgids p) (p_evicted p) x (p_belowSince p) (p_lastLog p)
    (p_lastRiseAt p) (p_evictedAt p).
Definition set_post_below (p : postKill) x : postKill :=
  mkPost (p_active p) (p_killedAt p) (p_pgids p) (p_evicted p) (p_lastEvict p) x (p_lastLog p)
    (p_lastRiseAt p) (p_evictedAt p).
Definition set_post_lastLog (p : postKill) x : postKill :=
  mkPost (p_active p) (p_killedAt p) (p_pgids p) (p_evicted p) (p_lastEvict p) (p_belowSince p) x
    (p_lastRiseAt p) (p_evictedAt p).
Definition set_post_rise (p : postKill) x : postKill :=
  mkPost (p_active p) (p_killedAt p) (p_pgids p) (p_evicted p) (p_lastEvict p) (p_belowSince p)
    (p_lastLog p) x (p_evictedAt p).

Section brake.
Variable cfg : MemoryBrakeConfig.
Variable env : Env.

(** *** The persisted hold *)
Definition writeHoldState (now : Z) (b : Brake) : Brake :=
  if String.eqb (HoldStatePath cfg) "" then b else emit (EWriteHold (now / nsec_second)) b.

Definition removeHoldState (b : Brake) : Brake :=
  if String.eqb (HoldStatePath cfg) "" then b else emit ERemoveHold b.

(** *** The trigger's window *)
Definition resetWindow (now : Z) (b : Brake) : Brake :=
  set_lastDisarm (set_winStart (set_consec (set_dq b (clear (dq b))) 0) now) now.

Definition push_sample (ts v : Z) (b : Brake) : Brake := set_dq b (push (dq b) ts v (window cfg)).

(** *** The threshold *)
Fixpoint splash_scan (ks : list LiveChild) (now : Z) (b : Brake) : Z * Brake :=
  match ks with
  | [] => (splashThreshold cfg, b)
  | k :: ks =>
    let pgid := Pgid k in
    if bool_decide (pgid ∈ splashKnown b) then splash_scan ks now b
    else if match splashNegAt b !! pgid with
            | Some at_ => sub64 now at_ <? splashReprobeSecs * nsec_second
            | None => false
            end then (threshold cfg, b)
    else if env_isSplash env (log b) pgid then
      splash_scan ks now
        (set_splashNegAt (set_splashKnown b ({[pgid]} ∪ splashKnown b)) (delete pgid (splashNegAt b)))
    else (threshold cfg, set_splashNegAt b (<[pgid := now]> (splashNegAt b)))
  end.

Definition thresholdFor (ks : list LiveChild) (now : Z) (b : Brake) : Z * Brake :=
  if (splashThreshold cfg <=? 0) || (Z.of_nat (length ks) =? 0) then (threshold cfg, b)
  else splash_scan ks now b.

(** *** The quiet window *)
Definition quietWindow (b : Brake) : Z :=
  let w := i64 (Z.shiftl (window cfg) (backoff b)) in
  if (maxQuietWindow <? w) || (w <=? 0) then maxQuietWindow else w.

Definition quietSatisfied (ts : Z) (b : Brake) : bool :=
  (p_lastRiseAt (post b) =? 0) || (quietWindow b <=? sub64 ts (p_lastRiseAt (post b))).

Definition trackRise (ts v : Z) (b : Brake) : Brake :=
  let b := set_qdq b (push (qdq b) ts v (quietWindow b)) in
  if threshold cfg <=? sub64 v (front (qdq b)) then set_post b (set_post_rise (post b) ts) else b.

(** *** The trip *)
Definition bump_backoff (now : Z) (b : Brake) : Brake :=
  if lastReleaseAt b =? 0 then b
  else if sub64 now (lastReleaseAt b) <? quietBackoffReset then
    if i64 (Z.shiftl (window cfg) (backoff b)) <? maxQuietWindow then set_backoff b (backoff b + 1) else b
  else set_backoff b 0.

Definition trip (now : Z) (r : Reading) (growth windowMin span : Z) (b : Brake) : Brake :=
  let b := foldl (fun b k => emit (EKill (Pgid k)) b) b (kids b) in
  let ev := mkEvent now (round2 (gb growth)) (round2 (gb (FileBacked r))) (round2 (gb windowMin))
              (Z.quot span nsec_second) (round2 (gb (Wired r))) (round2 (gb (SwapUsed r)))
              (map (fun k => (ID k, Pgid k)) (kids b)) in
  let b := if 0 <? drainBelow cfg
           then writeHoldState now (set_hold b (hold_Set (hold b) ev (drainBelow cfg)))
           else set_hold b (hold_Record (hold b) ev) in
  let b := bump_backoff now b in
  let b := set_post b (mkPost true now (map Pgid (kids b)) false 0 0 0 0 0) in
  let b := set_qdq b (clear (qdq b)) in
  let b := set_lastStuckReport (set_lastPurgeAttempt b now) 0 in
  mark (MBrake ev (effThreshold b)) (warn b).

(** *** Eviction *)
Definition is_digit (c : ascii) : bool := bool_decide (Ascii.nat_of_ascii c ∈ seq 48 10).

Fixpoint starts_digits (n : nat) (s : string) : option string :=
  match n, s with
  | O, s => Some s
  | S n, String c s => if is_digit c then starts_digits n s else None
  | S _, EmptyString => None
  end.

(** The tail of a first shard's name: [-ddddd-of-ddddd.gguf]; gives [ddddd]
    after [-of-]. *)
Definition shard_tail (s : string) : option string :=
  match s with
  | String "-" s =>
    match starts_digits 5 s with
    | Some s =>
      if String.prefix "-of-" s then
        let s := String.substring 4 (String.length s - 4) s in
        match starts_digits 5 s with
        | Some ".gguf" => Some (String.substring 0 5 s)
        | _ => None
        end
      else None
    | None => None
    end
  | _ => None
  end.

(** [splitGGUF.FindStringSubmatch]: the base name and the shard count. *)
Definition split_gguf (f : string) : option (string * string) :=
  let n := (String.length f - 20)%nat in
  if (String.length f <? 20)%nat then None
  else match shard_tail (String.substring n 20 f) with
       | Some total => Some (String.substring 0 n f, total)
       | None => None
       end.

Definition expandSplits (fs : gset string) (b : Brake) : list string :=
  sort_strings (remove_dups (flat_map (fun f =>
    f :: match split_gguf f with
         | Some (base, total) =>
           env_glob env (log b) (base ++ "-[0-9][0-9][0-9][0-9][0-9]-of-" ++ total ++ ".gguf")
         | None => []
         end) (elements fs))).

Fixpoint evict_paths (paths : list string) (failed : Z) (b : Brake) : Z * Brake :=
  match paths with
  | [] => (failed, b)
  | p :: paths =>
    let ok := env_evict env (log b) p in
    evict_paths paths (if ok then failed else failed + 1) (emit (EEvict p) b)
  end.

Definition evictAll (r : Reading) (first : bool) (b : Brake) : Brake :=
  let paths := expandSplits (files b) b in
  let before := FileBacked r in
  let '(failed, b) := evict_paths paths 0 b in
  let '(after, b) := match env_sample env (log b) with
                     | Some cur => (FileBacked cur, set_hold b (hold_store (hold b) (metric cur)))
                     | None => (before, b)
                     end in
  let freed := fdiv (fsub (of_int before) (of_int after)) (of_int gib) in
  if negb first && fltb freed (fdiv (of_int 1) (of_int 2)) then b
  else
    let b := warn b in
    if first then mark (MEvict (Z.of_nat (length paths) - failed) before after failed) b else b.

(** *** The purge valve *)
Definition reportStuck (now running_s fileBacked : Z) (b : Brake) : Brake :=
  mark (MPurgeStuck running_s fileBacked) (warn (set_lastStuckReport b now)).

(** [startPurge], up to the goroutine it spawns: [EPurge]. *)
Definition startPurge (now : Z) (b : Brake) : Brake :=
  emit EPurge (set_purgeStartedAt (set_lastPurgeAttempt (set_purging b true) now) now).

Definition maybePurge (now : Z) (r : Reading) (b : Brake) : Brake :=
  if PurgeAfterMinutes cfg <=? 0 then b
  else
    let every := i64 (PurgeAfterMinutes cfg * nsec_minute) in
    let last := if lastPurgeAttempt b <? lastStuckReport b then lastStuckReport b else lastPurgeAttempt b in
    if sub64 now last <? every then b
    else if purging b then
      reportStuck now (Z.quot (sub64 now (purgeStartedAt b)) nsec_second) (FileBacked r) b
    else startPurge now b.

(** *** The gate *)
Definition holdLog (ts : Z) (b : Brake) : Brake :=
  if sub64 ts (p_lastLog (post b)) <? holdLogEvery then b
  else warn (set_post b (set_post_lastLog (post b) ts)).

(** [d.Round(time.Second) / time.Second]: halves away from zero. *)
Definition round_seconds (d : Z) : Z :=
  let round d := (let r := d mod nsec_second in
                  if r + r <? nsec_second then d - r else d - r + nsec_second) / nsec_second in
  if d <? 0 then - round (- d) else round d.

Definition releaseAfterDrain (now : Z) (r : Reading) (b : Brake) : Brake :=
  let b := set_post b (set_post_active (post b) false) in
  if negb (holding (hold b)) then b
  else
    let held := round_seconds (sub64 now (p_killedAt (post b))) in
    let b := set_lastReleaseAt (set_hold b (hold_Release (hold b))) now in
    let b := removeHoldState b in
    let p := post b in
    let quiet_s := if negb (p_lastRiseAt p =? 0) then Z.quot (sub64 now (p_lastRiseAt p)) nsec_second
                   else if negb (p_evictedAt p =? 0) then Z.quot (sub64 now (p_evictedAt p)) nsec_second
                   else Z.quot (sub64 now (p_killedAt p)) nsec_second in
    mark (MRelease (FileBacked r) held quiet_s (backoff b)) (warn b).

(** A killed group still exists: [b.alive(g)] for some of them. *)
Definition still_dying (b : Brake) : bool := existsb (env_alive env (log b)) (p_pgids (post b)).

Definition drain (ts : Z) (r : Reading) (b : Brake) : Brake :=
  if negb (p_evicted (post b)) then
    if (sub64 ts (p_killedAt (post b)) <? killExitWait) && still_dying b then b
    else
      let b := evictAll r true b in
      trackRise ts (metric r) (set_post b (set_post_evict (post b) true ts ts ts))
  else
    let b := trackRise ts (metric r) b in
    if (metric r <? drainBelow cfg) || (drainBelow cfg =? 0) then
      let b := if p_belowSince (post b) =? 0 then set_post b (set_post_below (post b) ts) else b in
      if (drainBelow cfg =? 0) ||
         ((drainSettle <=? sub64 ts (p_belowSince (post b))) && quietSatisfied ts b)
      then releaseAfterDrain ts r b
      else holdLog ts b
    else
      let b := set_post b (set_post_below (post b) 0) in
      let b := if reEvictEvery <=? sub64 ts (p_lastEvict (post b)) then
                 let b := evictAll r false b in set_post b (set_post_lastEvict (post b) ts)
               else b in
      holdLog ts (maybePurge ts r b).

(** *** One sample *)
Definition look (ts : Z) (r : Reading) (b : Brake) : Brake * bool :=
  let b := set_hold b (hold_store (hold b) (metric r)) in
  let '(ks, loading) := env_children env (log b) in
  let b := set_kids b ks in
  (set_files b (foldl (fun fs k => foldl (fun fs f => {[f]} ∪ fs) fs (Files k)) (files b) ks), loading).

Definition observe (ts : Z) (r : Reading) (b : Brake) : bool * Brake :=
  let '(b, loading) := look ts r b in
  let b := if p_active (post b) then drain ts r b else b in
  let b := if negb (started b) || loading || (Z.of_nat (length (kids b)) =? 0)
           then resetWindow ts (set_started b true) else b in
  let b := push_sample ts (metric r) b in
  let armed := armAfter cfg <=? sub64 ts (lastDisarm b) in
  let b := set_lastGrowth b (-1) in
  if negb armed then (false, set_consec b 0)
  else
    let lo := front (dq b) in
    let growth := sub64 (metric r) lo in
    let b := set_lastGrowth b growth in
    let '(t, b) := thresholdFor (kids b) ts b in
    let b := set_effThreshold b t in
    if growth <? effThreshold b then (false, set_consec b 0)
    else
      let b := set_consec b (consec b + 1) in
      if consec b <? ConfirmSamples cfg then (false, b)
      else
        let span := sub64 ts (winStart b) in
        let span := if window cfg <? span then window cfg else span in
        (true, resetWindow ts (trip ts r growth lo span b)).

Definition Step (now : Z) (b : Brake) : bool * Brake :=
  match env_sample env (log b) with
  | None => (false, b)
  | Some r => observe now r b
  end.

(** *** The purge goroutine, from its start marker to its return *)
Inductive purge_result := PurgeOk | PurgeStillRunning | PurgeFailed.

Definition purgeMark (fileBacked : Z) (b : Brake) : Brake := mark (MPurgeStart fileBacked) b.

Definition purgeTimedOut (now fileBacked : Z) (b : Brake) : Brake :=
  reportStuck now (Z.quot purgeTimeout nsec_second) fileBacked b.

Definition purgeReturn (now before : Z) (res : purge_result) (b : Brake) : Brake :=
  let b := match res with
           | PurgeStillRunning => reportStuck now (-1) before b
           | PurgeFailed => mark MPurgeFailed (warn b)
           | PurgeOk =>
             let after := match env_sample env (log b) with Some cur => FileBacked cur | None => before end in
             mark (MPurgeResult before after) (warn b)
           end in
  set_purging b false.

End brake.

(** *** Construction *)

(** [loadHoldState], given what the hold-state file says: [None] when there is
    none, otherwise the parsed seconds or, when they do not parse, the clock. *)
Definition loadHoldState (cfg : MemoryBrakeConfig) (now : Z) (file : option (option Z)) (b : Brake) : Brake :=
  if String.eqb (HoldStatePath cfg) "" then b
  else if drainBelow cfg <=? 0 then emit ERemoveHold b
  else match file with
  | None => b
  | Some parsed =>
    let killedAt := default (now / nsec_second) parsed in
    let killedAtNS := i64 (killedAt * nsec_second) in
    let ev := mkEvent (killedAt * nsec_second) (of_int 0) (of_int 0) (of_int 0) 0 (of_int 0) (of_int 0) [] in
    let b := set_hold b (hold_Set (hold b) ev (drainBelow cfg)) in
    let b := set_post b (mkPost true killedAtNS [] true 0 0 0 0 0) in
    warn (set_lastPurgeAttempt b killedAtNS)
  end.

Definition new_hold : Hold := mkHold false 0 0 None false.

Definition New (cfg : MemoryBrakeConfig) (now : Z) (file : option (option Z)) : Brake :=
  let capacity := Z.to_nat (Z.quot (window cfg) (interval cfg) + 8) in
  let qcapacity := Z.to_nat (Z.quot maxQuietWindow (interval cfg) + 8) in
  loadHoldState cfg now file
    (mkBrake new_hold ∅ (mkPost false 0 [] false 0 0 0 0 0) 0 0 (new_deque qcapacity) (new_deque capacity)
       0 0 0 0 false ∅ ∅ 0 [] false 0 0 0 []).

(** *** Runs: samples, and the steps of the purge goroutine *)
Inductive BrakeEvent :=
| Sample (now : Z)
| PurgeMarked (fileBacked : Z)
| PurgeTimedOut (now fileBacked : Z)
| PurgeReturned (now before : Z) (res : purge_result).

Definition step (cfg : MemoryBrakeConfig) (env : Env) (ev : BrakeEvent) (b : Brake) : Brake :=
  match ev with
  | Sample now => (Step cfg env now b).2
  | PurgeMarked fb => purgeMark fb b
  | PurgeTimedOut now fb => purgeTimedOut now fb b
  | PurgeReturned now before res => purgeReturn env now before res b
  end.

End MemBrake.
