(* ===== verification/BrakeGate.v ===== *)
(** The gate of the memory brake: what has to be true of the samples since the
    eviction before loads are admitted again; the trip; the purge valve. *)

From S2P Require Import Prelude Float64 MonoDeque Brake.

Module BrakeGate.
Import Float64 MonoDeque MemBrake.

Section gate.
Variable cfg : MemoryBrakeConfig.

(** The part of the state the gate's rule reads. *)
Record same_gate (b b' : Brake) : Prop := {
  sg_active : p_active (post b') = p_active (post b);
  sg_evicted : p_evicted (post b') = p_evicted (post b);
  sg_below : p_belowSince (post b') = p_belowSince (post b);
  sg_rise : p_lastRiseAt (post b') = p_lastRiseAt (post b);
  sg_ring : qdq b' = qdq b;
  sg_backoff : backoff b' = backoff b;
  sg_holding : holding (hold b') = holding (hold b);
}.

Lemma same_gate_refl b : same_gate b b.
Proof. by split. Qed.

Lemma same_gate_trans b1 b2 b3 : same_gate b1 b2 -> same_gate b2 b3 -> same_gate b1 b3.
Proof. intros [] []. split; congruence. Qed.

Section env.
Variable env : Env.

Lemma evict_paths_gate paths failed b : same_gate b (evict_paths env paths failed b).2.
Proof.
  revert failed b. induction paths as [|p paths IH]; intros failed b; simpl; [apply same_gate_refl|].
  eapply same_gate_trans; [|apply IH]. by split.
Qed.

Lemma evictAll_gate r first b : same_gate b (evictAll env r first b).
Proof.
  unfold evictAll. pose proof (evict_paths_gate (expandSplits env (files b) b) 0 b) as Hp.
  destruct (evict_paths env _ 0 b) as [failed b1]. simpl in Hp.
  destruct (env_sample env (log b1)) as [cur|]; (destruct (negb first && _); [|destruct first]);
    (eapply same_gate_trans; [exact Hp|by split]).
Qed.

Lemma holdLog_gate ts b : same_gate b (holdLog ts b).
Proof. unfold holdLog. by destruct (_ <? _). Qed.

Lemma maybePurge_gate ts r b : same_gate b (maybePurge cfg ts r b).
Proof. unfold maybePurge. repeat case_match; by split. Qed.

Lemma trackRise_facts ts v b :
  let b' := trackRise cfg ts v b in
  qdq b' = push (qdq b) ts v (quietWindow cfg b) /\ backoff b' = backoff b /\ hold b' = hold b /\
  p_active (post b') = p_active (post b) /\ p_evicted (post b') = p_evicted (post b) /\
  p_belowSince (post b') = p_belowSince (post b) /\
  p_lastRiseAt (post b') = if threshold cfg <=? sub64 v (front (push (qdq b) ts v (quietWindow cfg b)))
                           then ts else p_lastRiseAt (post b).
Proof. unfold trackRise. cbv zeta. simpl. by destruct (threshold cfg <=? _). Qed.

(** *** The samples since the eviction *)

(** The last of the samples [ss] stands [growthGB] above one of its quiet
    window. *)
Definition risen (win : Z) (ss : list (Z * Z)) : Prop :=
  exists s x, last ss = Some x /\ s ∈ ss /\ in_window win x.1 s = true /\ threshold cfg <= x.2 - s.2.

Definition plausible (ss : list (Z * Z)) : Prop :=
  in_order ss /\ Forall (fun s => 0 < s.1 /\ 0 <= s.2 <= max_int64) ss.

(** [b] has seen the samples [ss] since the eviction; [q] is the ring as the
    trip left it. *)
Record watching (q : deque) (b : Brake) (ss : list (Z * Z)) : Prop := {
  wa_ring : qdq b = feed q (quietWindow cfg b) ss;
  wa_early : p_evicted (post b) = false -> ss = [];
  wa_below : p_belowSince (post b) = 0 \/
    exists ss1 s ss2, ss = ss1 ++ s :: ss2 /\ s.1 = p_belowSince (post b) /\
      Forall (fun s => s.2 < drainBelow cfg) (s :: ss2);
  wa_rise : forall ss1 s ss2, ss = ss1 ++ s :: ss2 -> risen (quietWindow cfg b) (ss1 ++ [s]) ->
    p_lastRiseAt (post b) <> 0 /\ s.1 <= p_lastRiseAt (post b);
  wa_stamp : p_lastRiseAt (post b) = 0 \/ exists s, s ∈ ss /\ s.1 = p_lastRiseAt (post b);
}.

Lemma quietWindow_gate b b' : backoff b' = backoff b -> quietWindow cfg b' = quietWindow cfg b.
Proof. intros E. unfold quietWindow. by rewrite E. Qed.

Lemma watching_same q b b' ss :
  p_evicted (post b') = p_evicted (post b) -> p_belowSince (post b') = p_belowSince (post b) ->
  p_lastRiseAt (post b') = p_lastRiseAt (post b) -> qdq b' = qdq b -> backoff b' = backoff b ->
  watching q b ss -> watching q b' ss.
Proof.
  intros S2 S3 S4 S5 S6 [W1 W2 W3 W4 W5].
  split; rewrite ?S2, ?S3, ?S4, ?S5, ?(quietWindow_gate b b' S6); done.
Qed.

Lemma watching_gate q b b' ss : same_gate b b' -> watching q b ss -> watching q b' ss.
Proof. intros []. by apply watching_same. Qed.

Lemma release_fields ts r b :
  let b' := releaseAfterDrain cfg ts r b in
  p_evicted (post b') = p_evicted (post b) /\ p_belowSince (post b') = p_belowSince (post b) /\
  p_lastRiseAt (post b') = p_lastRiseAt (post b) /\ qdq b' = qdq b /\ backoff b' = backoff b.
Proof.
  unfold releaseAfterDrain, removeHoldState. simpl. destruct (holding (hold b)); simpl; [|done].
  by destruct (String.eqb _ _).
Qed.

(** [quietWindow] stays between nothing and an hour. *)
Lemma quietWindow_bounds b : 0 < quietWindow cfg b <= maxQuietWindow.
Proof.
  unfold quietWindow. destruct (Z.ltb_spec maxQuietWindow (i64 (Z.shiftl (window cfg) (backoff b)))); simpl;
    [unfold maxQuietWindow, nsec_minute, nsec_second; lia|].
  destruct (Z.leb_spec (i64 (Z.shiftl (window cfg) (backoff b))) 0); [|lia].
  unfold maxQuietWindow, nsec_minute, nsec_second; lia.
Qed.

Lemma plausible_last ss ts v : plausible (ss ++ [(ts, v)]) ->
  0 < ts <= max_int64 /\ 0 <= v <= max_int64 /\ forall s, s ∈ ss -> 0 < s.1 <= ts /\ 0 <= s.2 <= max_int64.
Proof.
  intros [[Hs Hb] Hv]. apply StronglySorted_app in Hs as (Hc & _ & _).
  apply Forall_app in Hb as [_ Hb]. apply Forall_app in Hv as [Hv1 Hv2].
  inversion_clear Hb as [|? ? Hts _]. inversion_clear Hv2 as [|? ? Hvv _]. simpl in *.
  split_and!; try lia. intros s Hin. rewrite Forall_forall in Hv1. specialize (Hv1 s Hin).
  specialize (Hc s (ts, v) Hin ltac:(by left)). simpl in Hc. lia.
Qed.

(** A sample after the eviction. *)
Lemma watching_track q b ss ts v :
  ring q -> d_n q = 0%nat -> 0 < threshold cfg ->
  plausible (ss ++ [(ts, v)]) -> fits (cap q) (quietWindow cfg b) (ss ++ [(ts, v)]) ->
  p_evicted (post b) = true -> p_belowSince (post b) = 0 \/ v < drainBelow cfg ->
  watching q b ss -> watching q (trackRise cfg ts v b) (ss ++ [(ts, v)]).
Proof.
  intros Hq Hn Hthr Hp Hf Hev Hbelow [W1 W2 W3 W4 W5].
  destruct (trackRise_facts ts v b) as (T1 & T2 & T3 & T4 & T5 & T6 & T7).
  set (b' := trackRise cfg ts v b) in *. pose proof (quietWindow_gate b b' T2) as Ew.
  pose proof (quietWindow_bounds b) as Hw. set (w := quietWindow cfg b) in *.
  assert (qdq b' = feed q w (ss ++ [(ts, v)])) as Ering by (rewrite T1, feed_snoc, W1; done).
  pose proof (plausible_last ss ts v Hp) as (Hts & Hv & Hall). destruct Hp as [Ho _].
  assert (ss ++ [(ts, v)] <> []) as Hne by (by destruct ss).
  destruct (feed_minimum q w (ss ++ [(ts, v)]) Hq Hn ltac:(lia) Hne Ho Hf) as [(m & Hm & Hmw & Em) Hmin].
  rewrite <- Ering, T1 in Em, Hmin. rewrite last_time_snoc in *. simpl in *.
  set (lo := front (push (qdq b) ts v w)) in *.
  assert (0 <= lo <= v) as Hlo.
  { split; [|apply (Hmin (ts, v)); [apply elem_of_app; right; by left|unfold in_window; simpl; lia]].
    rewrite <- Em. apply elem_of_app in Hm as [Hm|Hm%list_elem_of_singleton]; [by apply Hall in Hm; lia|subst m; simpl; lia]. }
  assert (sub64 v lo = v - lo) as Esub by (apply i64_id; unfold min_int64; lia). rewrite Esub in T7.
  assert (p_lastRiseAt (post b') = p_lastRiseAt (post b) \/ p_lastRiseAt (post b') = ts) as Hrise
    by (rewrite T7; case_match; auto).
  split.
  - by rewrite Ew.
  - by rewrite T5, Hev.
  - rewrite T6. destruct W3 as [W3|(ss1 & s & ss2 & -> & Es & Hb)]; [by left|]. destruct Hbelow as [Hz|Hlt]; [by left|].
    right. exists ss1, s, (ss2 ++ [(ts, v)]). rewrite <- app_assoc. split_and!; [done|done|].
    inversion_clear Hb as [|? ? Hs0 Hs2]. constructor; [done|]. apply Forall_app. split; [done|]. by repeat constructor.
  - rewrite Ew. intros ss1 s ss2 E (x & y & Hy & Hx & Hxw & Hge). rewrite last_snoc in Hy. injection Hy as <-.
    destruct ss2 as [|z ss2] using rev_ind.
    + apply app_inj_tail in E as [<- <-]. simpl in *.
      assert (threshold cfg <=? v - lo = true) as Hr.
      { apply Z.leb_le. specialize (Hmin x Hx Hxw). lia. }
      rewrite T7, Hr. lia.
    + clear IHss2. rewrite app_comm_cons, app_assoc in E. apply app_inj_tail in E as [-> _].
      destruct (W4 ss1 s ss2 eq_refl) as [H1 H2]; [by exists x, s; rewrite last_snoc|].
      assert (s ∈ ss1 ++ s :: ss2) as Hin by (apply elem_of_app; right; by left).
      specialize (Hall s Hin). rewrite T7. case_match; lia.
  - destruct Hrise as [-> | ->]; [|right; exists (ts, v); split; [apply elem_of_app; right; by left|done]].
    destruct W5 as [?|(s & Hs & E)]; [by left|right; exists s; split; [apply elem_of_app; by left|done]].
Qed.

(** What the trace is after a sample: the samples before the eviction do not
    count. *)
Definition seen (b' : Brake) (ss : list (Z * Z)) (s : Z * Z) : list (Z * Z) :=
  if p_evicted (post b') then ss ++ [s] else ss.

Lemma evicted_track ts v b : p_evicted (post (trackRise cfg ts v b)) = p_evicted (post b).
Proof. apply trackRise_facts. Qed.

(** What holds when the gate opens. *)
Definition drained (b : Brake) (ss : list (Z * Z)) (ts : Z) : Prop :=
  (exists ss1 s ss2, ss = ss1 ++ s :: ss2 /\ drainSettle <= ts - s.1 /\
     Forall (fun s => s.2 < drainBelow cfg) (s :: ss2)) /\
  (forall ss1 s ss2, ss = ss1 ++ s :: ss2 -> ts - s.1 < quietWindow cfg b -> ~ risen (quietWindow cfg b) (ss1 ++ [s])).

Lemma watching_below q b ss ts v :
  watching q b (ss ++ [(ts, v)]) -> v < drainBelow cfg -> p_belowSince (post b) = 0 ->
  watching q (set_post b (set_post_below (post b) ts)) (ss ++ [(ts, v)]).
Proof.
  intros [W1 W2 W3 W4 W5] Hv Hz. split; try done. right. exists ss, (ts, v), []. split_and!; [done|done|by repeat constructor].
Qed.

Lemma watching_unbelow q b ss : watching q b ss -> watching q (set_post b (set_post_below (post b) 0)) ss.
Proof. intros [W1 W2 W3 W4 W5]. split; try done. by left. Qed.

Lemma settled q b ss ts :
  watching q b ss -> plausible ss -> Forall (fun s => s.1 <= ts) ss -> ts <= max_int64 ->
  p_belowSince (post b) <> 0 ->
  drainSettle <= sub64 ts (p_belowSince (post b)) -> quietSatisfied cfg ts b = true -> drained b ss ts.
Proof.
  intros [W1 W2 W3 W4 W5] [Ho Hp] Hle Hts Hb Hsettle Hquiet. rewrite Forall_forall in Hp, Hle. pose proof Hp as Hp0.
  pose proof (quietWindow_bounds b) as Hw. split.
  - destruct W3 as [?|(ss1 & s & ss2 & E & Es & Hall)]; [done|]. exists ss1, s, ss2. split_and!; [done| |done].
    assert (s ∈ ss) as Hin by (rewrite E; apply elem_of_app; right; by left).
    specialize (Hp s Hin). specialize (Hle s Hin). rewrite <- Es in Hsettle. unfold sub64 in Hsettle.
    rewrite i64_id in Hsettle by (unfold min_int64; lia). lia.
  - intros ss1 s ss2 E Hnear Hrisen. destruct (W4 ss1 s ss2 E Hrisen) as [H1 H2].
    assert (s ∈ ss) as Hin by (rewrite E; apply elem_of_app; right; by left).
    specialize (Hp s Hin). unfold quietSatisfied in Hquiet.
    rewrite (proj2 (Z.eqb_neq _ _) H1) in Hquiet. simpl in Hquiet. apply Z.leb_le in Hquiet.
    destruct W5 as [?|(y & Hy & Ey)]; [done|]. assert (0 < y.1) by (destruct (Hp0 y Hy); lia).
    specialize (Hle y Hy). unfold sub64 in Hquiet. rewrite <- Ey in *.
    rewrite i64_id in Hquiet by (unfold min_int64; lia). lia.
Qed.

(** A sample on which the gate stays shut keeps the watch; one on which it opens
    comes from a drained cache. *)
Lemma drain_watch q b ss ts r :
  ring q -> d_n q = 0%nat -> 0 < threshold cfg -> drainBelow cfg <> 0 ->
  plausible (ss ++ [(ts, metric r)]) -> fits (cap q) (quietWindow cfg b) (ss ++ [(ts, metric r)]) ->
  watching q b ss ->
  let b' := drain cfg env ts r b in
  watching q b' (seen b' ss (ts, metric r)) /\ backoff b' = backoff b /\
  (holding (hold b) = true -> holding (hold b') = false -> drained b (ss ++ [(ts, metric r)]) ts).
Proof.
  intros Hq Hn Hthr Hdb Hp Hf Hw. pose proof (plausible_last ss ts (metric r) Hp) as (Hts & Hm & Hall).
  unfold drain. destruct (p_evicted (post b)) eqn:Hev; simpl.
  2:{ destruct (_ && still_dying env b); [split_and!; [|done|congruence]; unfold seen; by rewrite Hev|].
      pose proof (wa_early _ _ _ Hw Hev) as ->. pose proof (evictAll_gate r true b) as Hg.
      set (b1 := evictAll env r true b) in *. set (b2 := set_post b1 (set_post_evict (post b1) true ts ts ts)).
      assert (watching q b2 []) as Hw2.
      { pose proof (watching_gate q b b1 [] Hg Hw) as [W1 W2 W3 W4 W5]. by split. }
      destruct (trackRise_facts ts (metric r) b2) as (T1 & T2 & T3 & T4 & T5 & T6 & T7).
      assert (quietWindow cfg b2 = quietWindow cfg b) as Eq by (apply quietWindow_gate, Hg).
      assert (watching q (trackRise cfg ts (metric r) b2) [(ts, metric r)]) as Hw3.
      { apply (watching_track q b2 [] ts (metric r)); try done; [by rewrite Eq|].
        left. destruct Hw2 as [_ _ [?|(ss1 & s & ss2 & E & _)] _ _]; [done|by destruct ss1]. }
      split_and!.
      - unfold seen. rewrite T5. exact Hw3.
      - rewrite T2. apply Hg.
      - rewrite T3. change (hold b2) with (hold b1). rewrite (sg_holding _ _ Hg). congruence. }
  destruct (trackRise_facts ts (metric r) b) as (T1 & T2 & T3 & T4 & T5 & T6 & T7).
  set (b1 := trackRise cfg ts (metric r) b) in *.
  assert (quietWindow cfg b1 = quietWindow cfg b) as Eq by by apply quietWindow_gate.
  assert (drainBelow cfg =? 0 = false) as Hdb0 by by apply Z.eqb_neq. rewrite Hdb0, orb_false_r.
  assert (p_evicted (post b1) = true) as Hev1 by by rewrite T5.
  destruct (Z.ltb_spec (metric r) (drainBelow cfg)) as [Hlow|Hhigh].
  - assert (watching q b1 (ss ++ [(ts, metric r)])) as Hw1 by (apply watching_track; auto).
    set (b2 := if p_belowSince (post b1) =? 0 then _ else b1).
    assert (watching q b2 (ss ++ [(ts, metric r)]) /\ p_belowSince (post b2) <> 0 /\ p_evicted (post b2) = true /\
            backoff b2 = backoff b /\ hold b2 = hold b) as (Hw2 & Hnz & Hev2 & Hbk & Hh).
    { subst b2. destruct (Z.eqb_spec (p_belowSince (post b1)) 0).
      - split_and!; [by apply watching_below|simpl; lia|done|done|done].
      - by split_and!. }
    clearbody b2. simpl. destruct (Z.leb_spec drainSettle (sub64 ts (p_belowSince (post b2)))) as [Hs|Hs]; simpl;
      [destruct (quietSatisfied cfg ts b2) eqn:Hquiet|].
    + assert (drained b2 (ss ++ [(ts, metric r)]) ts) as Hd.
      { apply (settled q b2); try done; [|lia]. apply Forall_app. split; [|by repeat constructor].
        apply Forall_forall. intros s Hin. specialize (Hall s Hin). lia. }
      assert (quietWindow cfg b2 = quietWindow cfg b) as Eq2 by by apply quietWindow_gate.
      destruct (release_fields ts r b2) as (R1 & R2 & R3 & R4 & R5).
      unfold seen. rewrite R1, Hev2. split_and!; [by apply (watching_same q b2)|congruence|].
      intros _ _. unfold drained in *. by rewrite Eq2 in Hd.
    + destruct (holdLog_gate ts b2) as [S1 S2 S3 S4 S5 S6 S7]. unfold seen. rewrite S2, Hev2.
      split_and!; [apply (watching_gate q b2); [by split|done]|congruence|rewrite S7, Hh; congruence].
    + destruct (holdLog_gate ts b2) as [S1 S2 S3 S4 S5 S6 S7]. unfold seen. rewrite S2, Hev2.
      split_and!; [apply (watching_gate q b2); [by split|done]|congruence|rewrite S7, Hh; congruence].
  - (* above the level: nothing opens *)
    set (b0 := set_post b (set_post_below (post b) 0)).
    assert (watching q (trackRise cfg ts (metric r) b0) (ss ++ [(ts, metric r)])) as Hw0
      by (apply watching_track; auto; by apply watching_unbelow).
    assert (trackRise cfg ts (metric r) b0 = set_post b1 (set_post_below (post b1) 0)) as E0.
    { subst b0 b1. unfold trackRise. simpl. change (quietWindow cfg (set_post b _)) with (quietWindow cfg b).
      by destruct (threshold cfg <=? _). }
    rewrite E0 in Hw0. set (b2 := set_post b1 (set_post_below (post b1) 0)) in *.
    match goal with |- context [holdLog ts ?x] => set (b3 := x) end.
    assert (same_gate b2 b3) as Hg.
    { subst b3. eapply same_gate_trans; [|apply maybePurge_gate]. destruct (reEvictEvery <=? _); [|apply same_gate_refl].
      eapply same_gate_trans; [apply (evictAll_gate r false)|by split]. }
    clearbody b3. pose proof (same_gate_trans _ _ _ Hg (holdLog_gate ts b3)) as Hg'.
    split_and!.
    + unfold seen. rewrite (sg_evicted _ _ Hg'). change (p_evicted (post b2)) with (p_evicted (post b1)).
      rewrite Hev1. by apply (watching_gate q b2).
    + rewrite (sg_backoff _ _ Hg'). exact T2.
    + rewrite (sg_holding _ _ Hg'). change (hold b2) with (hold b1). rewrite T3. congruence.
Qed.

(** *** One sample *)
Lemma look_gate ts r b : same_gate b (look env ts r b).1.
Proof. unfold look. destruct (env_children env _) as [ks loading]. by split. Qed.

Lemma splash_scan_gate ks now b : same_gate b (splash_scan cfg env ks now b).2.
Proof.
  revert b. induction ks as [|k ks IH]; intros b; simpl; [apply same_gate_refl|].
  destruct (bool_decide _); [apply IH|]. destruct (match _ with Some _ => _ | None => _ end); [apply same_gate_refl|].
  destruct (env_isSplash _ _ _); [|by split]. eapply same_gate_trans; [|apply IH]. by split.
Qed.

Lemma thresholdFor_gate ks now b : same_gate b (thresholdFor cfg env ks now b).2.
Proof. unfold thresholdFor. destruct (_ || _); [apply same_gate_refl|apply splash_scan_gate]. Qed.

(** What drains on this sample. *)
Definition drained_state ts r b : Brake :=
  let b1 := (look env ts r b).1 in if p_active (post b1) then drain cfg env ts r b1 else b1.

Lemma kill_gate ks b : same_gate b (foldl (fun b k => emit (EKill (Pgid k)) b) b ks).
Proof. revert b. induction ks as [|k ks IH]; intros b; [by split|]. eapply same_gate_trans; [|apply IH]. by split. Qed.

Lemma trip_holding ts r g lo span b :
  holding (hold (trip cfg ts r g lo span b)) = if 0 <? drainBelow cfg then true else holding (hold b).
Proof.
  unfold trip. pose proof (kill_gate (kids b) b) as Hk. set (b1 := foldl _ b (kids b)) in *.
  rewrite <- (sg_holding _ _ Hk). unfold bump_backoff, writeHoldState, hold_Set, hold_Record.
  repeat (case_match; simpl in *; try done).
Qed.

Lemma reset_hold ts b : hold (resetWindow ts b) = hold b.
Proof. done. Qed.

(** The rest of a sample leaves the gate alone, unless it trips. *)
Lemma observe_gate ts r b :
  match observe cfg env ts r b with
  | (false, b') => same_gate (drained_state ts r b) b'
  | (true, b') => holding (hold b') = if 0 <? drainBelow cfg then true else holding (hold (drained_state ts r b))
  end.
Proof.
  unfold observe, drained_state. destruct (look env ts r b) as [b1 loading]. simpl.
  set (b2 := if p_active (post b1) then _ else b1). cbv zeta.
  set (b3 := if negb (started b2) || loading || _ then _ else b2).
  assert (same_gate b2 b3) as H3.
  { subst b3. generalize (negb (started b2) || loading || (Z.of_nat (length (kids b2)) =? 0)) as c.
    intros []; [by split|apply same_gate_refl]. }
  clearbody b3. destruct (negb (armAfter cfg <=? _)).
  { eapply same_gate_trans; [exact H3|by split]. }
  match goal with |- context [thresholdFor cfg env ?k ?n ?x] =>
    pose proof (thresholdFor_gate k n x) as H4; destruct (thresholdFor cfg env k n x) as [t b4] end.
  simpl in H4. cbv beta iota zeta. assert (same_gate b2 b4) as H5.
  { eapply same_gate_trans; [exact H3|]. eapply same_gate_trans; [|exact H4]. by split. }
  match goal with |- context [if ?c then (false, _) else _] => destruct c end; [eapply same_gate_trans; [exact H5|by split]|].
  match goal with |- context [if ?c then (false, _) else _] => destruct c end; [eapply same_gate_trans; [exact H5|by split]|].
  match goal with |- context [trip cfg ?a ?c ?d ?e ?f ?g] => pose proof (trip_holding a c d e f g) as Ht;
    set (b5 := trip cfg a c d e f g) in * end.
  rewrite reset_hold, Ht, <- (sg_holding _ _ H5). reflexivity.
Qed.

End env.

(** *** Runs *)

(** [b] has watched the samples [ss] since the ring was cleared to [q] by a trip,
    or found fresh after a restart: samples that do not trip, and whatever the
    purge goroutine does. *)
Inductive watch : deque -> Brake -> list (Z * Z) -> Prop :=
| watch_shut b :
    ring (qdq b) -> d_n (qdq b) = 0%nat -> p_belowSince (post b) = 0 -> p_lastRiseAt (post b) = 0 ->
    watch (qdq b) b []
| watch_sample env q b ss ts r :
    watch q b ss -> p_active (post b) = true -> env_sample env (log b) = Some r ->
    plausible (ss ++ [(ts, metric r)]) -> fits (cap q) (quietWindow cfg b) (ss ++ [(ts, metric r)]) ->
    (observe cfg env ts r b).1 = false ->
    let b' := step cfg env (Sample ts) b in watch q b' (seen b' ss (ts, metric r))
| watch_purge env q b ss ev :
    watch q b ss -> (forall ts, ev <> Sample ts) -> watch q (step cfg env ev b) ss.

Lemma purge_gate env ev b : (forall ts, ev <> Sample ts) -> same_gate b (step cfg env ev b).
Proof.
  intros Hev. destruct ev as [ts|fb|ts fb|ts fb res]; simpl; [by destruct (Hev ts)|by split|by split|].
  destruct res; by split.
Qed.

Lemma watch_watching q b ss :
  0 < threshold cfg -> drainBelow cfg <> 0 -> watch q b ss -> ring q /\ d_n q = 0%nat /\ watching q b ss.
Proof.
  intros Hthr Hdb. induction 1 as [b Hr Hn Hb Hrise|env q b ss ts r _ (Hq & Hn & IH) Hact Hs Hp Hf Ho b'|env q b ss ev _ (Hq & Hn & IH) Hev].
  - split_and!; [done|done|]. split; [done|done|by left| |by left].
    intros ss1 s ss2 E. by destruct ss1.
  - split_and!; [done|done|]. subst b'. simpl. unfold Step. rewrite Hs.
    pose proof (observe_gate env ts r b) as Hg. unfold drained_state in Hg.
    destruct (observe cfg env ts r b) as [tripped b']. simpl in Ho. subst tripped. simpl.
    pose proof (look_gate env ts r b) as Hl. set (b1 := (look env ts r b).1) in *.
    rewrite (sg_active _ _ Hl), Hact in Hg. assert (quietWindow cfg b1 = quietWindow cfg b) as Eq
      by (apply quietWindow_gate, Hl).
    rewrite <- Eq in Hf.
    destruct (drain_watch env q b1 ss ts r Hq Hn Hthr Hdb Hp Hf (watching_gate q b b1 ss Hl IH)) as (Hw & _ & _).
    unfold seen in *. rewrite (sg_evicted _ _ Hg). by apply (watching_gate q (drain cfg env ts r b1)).
  - split_and!; [done|done|]. apply (watching_gate q b); [by apply purge_gate|done].
Qed.

End gate.

(** C21. The gate opens only into a drained and quiet cache.  If a sample opens
    it, then since the eviction: the cache stood below the drain level at every
    sample from at least [drainSettle] ago on, and at no sample of the last
    quiet window had it risen by [growthGB] above any sample of the quiet
    window before that one - no purge, re-eviction or drop hides such a rise. *)
Theorem gate_opens_drained (cfg : MemoryBrakeConfig) (env : Env) (q : deque) (b : Brake)
    (ss : list (Z * Z)) (ts : Z) (r : Reading)
    (Hthr : 0 < threshold cfg) (Hdb : drainBelow cfg <> 0) (Hw : watch cfg q b ss)
    (Hs : env_sample env (log b) = Some r) (Hp : plausible (ss ++ [(ts, metric r)]))
    (Hf : fits (cap q) (quietWindow cfg b) (ss ++ [(ts, metric r)]))
    (Hshut : holding (hold b) = true)
    (Hopen : holding (hold (step cfg env (Sample ts) b)) = false) :
  drained cfg b (ss ++ [(ts, metric r)]) ts.
Proof.
  destruct (watch_watching cfg q b ss Hthr Hdb Hw) as (Hq & Hn & Hwat). revert Hopen. simpl. unfold Step. rewrite Hs.
  pose proof (look_gate env ts r b) as Hl.
  assert (holding (hold (drained_state cfg env ts r b)) = false ->
          drained cfg b (ss ++ [(ts, metric r)]) ts) as Hopens.
  { unfold drained_state. set (b1 := (look env ts r b).1) in *. rewrite (sg_active _ _ Hl).
    destruct (p_active (post b)); [|rewrite (sg_holding _ _ Hl); congruence].
    assert (quietWindow cfg b1 = quietWindow cfg b) as Eq by (apply quietWindow_gate, Hl).
    destruct (drain_watch cfg env q b1 ss ts r Hq Hn Hthr Hdb Hp) as (_ & _ & Hd); [by rewrite Eq|by apply (watching_gate cfg q b)|].
    intros Hopen. unfold drained in *. rewrite Eq in Hd. apply Hd; [by rewrite (sg_holding _ _ Hl)|done]. }
  pose proof (observe_gate cfg env ts r b) as Hg. destruct (observe cfg env ts r b) as [[|] b']; simpl.
  - rewrite Hg. destruct (0 <? drainBelow cfg); [done|exact Hopens].
  - rewrite (sg_holding _ _ Hg). exact Hopens.
Qed.
(** *** The trip *)
Lemma front_pushed q ts v win : ring q -> front (push (clear q) ts v win) = v.
Proof.
  intros Hq. destruct (push_refines (clear q) ts v win (ring_clear q Hq)) as (Hr & Hcap & Hc).
  change (contents (clear q)) with (@nil (Z * Z)) in Hc. unfold list_push, drop_back in Hc. simpl in Hc.
  destruct Hq as [H1 _ _ _]. change (cap (clear q)) with (cap q) in Hc.
  destruct (cap q) as [|c] eqn:Ec; [lia|]. simpl in Hc. set (q' := push (clear q) ts v win) in *.
  destruct Hr as [R1 R2 R3 R4]. unfold contents in Hc. destruct (d_n q') as [|n] eqn:En; [discriminate|].
  rewrite (contents_cons (dT q') (dV q') (cap q') R1) in Hc by done. by injection Hc.
Qed.

Section trip.
Variables (cfg : MemoryBrakeConfig) (env : Env).

Lemma splash_scan_threshold ks now b :
  (splash_scan cfg env ks now b).1 = threshold cfg \/ (splash_scan cfg env ks now b).1 = splashThreshold cfg.
Proof.
  revert b. induction ks as [|k ks IH]; intros b; simpl; [by right|].
  destruct (bool_decide _); [apply IH|]. destruct (match _ with Some _ => _ | None => _ end); [by left|].
  destruct (env_isSplash _ _ _); [apply IH|by left].
Qed.

Lemma thresholdFor_cases ks now b :
  (thresholdFor cfg env ks now b).1 = threshold cfg \/
  (0 < splashThreshold cfg /\ (thresholdFor cfg env ks now b).1 = splashThreshold cfg).
Proof.
  unfold thresholdFor. destruct (Z.leb_spec (splashThreshold cfg) 0); simpl; [by left|].
  destruct (_ =? 0); [by left|]. destruct (splash_scan_threshold ks now b); auto.
Qed.

(** How many purges [l] starts, and what it makes of the flag [p]: one only when
    none was in flight. *)
Definition starts (l : list Effect) : nat := length (List.filter (fun e => match e with EPurge => true | _ => false end) l).

Definition purges (p : bool) (l : list Effect) (p' : bool) : Prop :=
  (starts l = 0%nat /\ p' = p) \/ (starts l = 1%nat /\ p = false /\ p' = true).

Lemma starts_app l k : starts (l ++ k) = (starts l + starts k)%nat.
Proof. unfold starts. by rewrite List.filter_app, length_app. Qed.

Lemma purges_app p1 l1 p2 l2 p3 : purges p1 l1 p2 -> purges p2 l2 p3 -> purges p1 (l1 ++ l2) p3.
Proof.
  unfold purges. rewrite starts_app. intros [[-> ->]|(-> & -> & ->)] [[-> ->]|(-> & H & ->)]; auto. discriminate.
Qed.

Definition keeps_log (b b' : Brake) : Prop :=
  exists l, log b' = log b ++ l /\ purges (purging b) l (purging b').

Lemma keeps_log_refl b b' : log b' = log b -> purging b' = purging b -> keeps_log b b'.
Proof. intros E1 E2. exists []. rewrite app_nil_r. split; [done|by left]. Qed.

Lemma keeps_log_trans b1 b2 b3 : keeps_log b1 b2 -> keeps_log b2 b3 -> keeps_log b1 b3.
Proof.
  intros (l1 & L1 & P1) (l2 & L2 & P2). exists (l1 ++ l2). rewrite L2, L1, app_assoc.
  split; [done|by eapply purges_app].
Qed.

(** What a sample does not touch of the log, the children and the ring of the
    trigger. *)
Record keeps (b b' : Brake) : Prop := {
  ke_log : keeps_log b b';
  ke_kids : kids b' = kids b;
  ke_dq : dq b' = dq b;
  ke_started : started b' = started b;
  ke_consec : consec b' = consec b;
  ke_growth : lastGrowth b' = lastGrowth b;
}.

Lemma keeps_refl b : keeps b b.
Proof. split; try done. by apply keeps_log_refl. Qed.

Lemma kept_trans b1 b2 b3 : keeps b1 b2 -> keeps b2 b3 -> keeps b1 b3.
Proof.
  intros [L1] [L2]. split; [by eapply keeps_log_trans|congruence..].
Qed.

Lemma keeps_emit b b' l : log b' = log b ++ l -> purges (purging b) l (purging b') -> kids b' = kids b -> dq b' = dq b -> started b' = started b ->
  consec b' = consec b -> lastGrowth b' = lastGrowth b -> keeps b b'.
Proof. intros. split; try done. by exists l. Qed.

Ltac kept := first
  [ by eapply (keeps_emit _ _ []); [simpl; by rewrite ?app_nil_r|by left|..]
  | by eapply keeps_emit; [simpl; rewrite <- ?app_assoc; reflexivity|by left|..]
  | by eapply keeps_emit; [simpl; rewrite <- ?app_assoc; reflexivity|by right|..] ].

Lemma keeps_evict_paths paths failed b : keeps b (evict_paths env paths failed b).2.
Proof.
  revert failed b. induction paths as [|p paths IH]; intros failed b; simpl; [apply keeps_refl|].
  eapply kept_trans; [|apply IH]. kept.
Qed.

Lemma keeps_evictAll r first b : keeps b (evictAll env r first b).
Proof.
  unfold evictAll. pose proof (keeps_evict_paths (expandSplits env (files b) b) 0 b) as Hp.
  destruct (evict_paths env _ 0 b) as [failed b1]. simpl in Hp.
  destruct (env_sample env (log b1)) as [cur|]; (destruct (negb first && _); [|destruct first]);
    (eapply kept_trans; [exact Hp|kept]).
Qed.

Lemma keeps_trackRise ts v b : keeps b (trackRise cfg ts v b).
Proof. unfold trackRise. destruct (_ <=? _); kept. Qed.

Lemma keeps_holdLog ts b : keeps b (holdLog ts b).
Proof. unfold holdLog. destruct (_ <? _); kept. Qed.

Lemma keeps_maybePurge ts r b : keeps b (maybePurge cfg ts r b).
Proof. unfold maybePurge. repeat case_match; kept. Qed.

Lemma kept_release ts r b : keeps b (releaseAfterDrain cfg ts r b).
Proof.
  unfold releaseAfterDrain, removeHoldState. destruct (negb _); [kept|].
  destruct (String.eqb _ _); kept.
Qed.

Lemma kept_drain ts r b : keeps b (drain cfg env ts r b).
Proof.
  unfold drain. destruct (negb _).
  { destruct (_ && still_dying env b); [kept|].
    eapply kept_trans; [apply (keeps_evictAll r true)|]. eapply kept_trans; [|apply keeps_trackRise]. kept. }
  eapply kept_trans; [apply (keeps_trackRise ts (metric r))|]. set (b1 := trackRise _ _ _ _).
  destruct (_ || (drainBelow cfg =? 0)).
  - set (b2 := if _ =? 0 then _ else b1). assert (keeps b1 b2) as H2 by (subst b2; destruct (_ =? 0); kept).
    eapply kept_trans; [exact H2|]. destruct (_ || (_ && _)); [apply kept_release|apply keeps_holdLog].
  - eapply kept_trans; [|apply keeps_holdLog]. eapply kept_trans; [|apply keeps_maybePurge].
    destruct (reEvictEvery <=? _); [|kept]. set (b2 := set_post b1 _).
    eapply (kept_trans b1 b2); [subst b2; kept|]. eapply kept_trans; [apply (keeps_evictAll r false)|]. kept.
Qed.

Lemma keeps_scan ks now b : keeps b (splash_scan cfg env ks now b).2.
Proof.
  revert b. induction ks as [|k ks IH]; intros b; simpl; [apply keeps_refl|].
  destruct (bool_decide _); [apply IH|]. destruct (match _ with Some _ => _ | None => _ end); [apply keeps_refl|].
  destruct (env_isSplash _ _ _); [|kept]. eapply kept_trans; [|apply IH]. kept.
Qed.

Lemma keeps_thresholdFor ks now b : keeps b (thresholdFor cfg env ks now b).2.
Proof. unfold thresholdFor. destruct (_ || _); [apply keeps_refl|apply keeps_scan]. Qed.

Lemma kill_log ks b : log (foldl (fun b k => emit (EKill (Pgid k)) b) b ks) = log b ++ map (fun k => EKill (Pgid k)) ks.
Proof.
  revert b. induction ks as [|k ks IH]; intros b; simpl; [by rewrite app_nil_r|].
  rewrite IH. simpl. by rewrite <- app_assoc.
Qed.

Lemma kill_fields ks b :
  let b' := foldl (fun b k => emit (EKill (Pgid k)) b) b ks in
  kids b' = kids b /\ effThreshold b' = effThreshold b /\ lastGrowth b' = lastGrowth b.
Proof. revert b. induction ks as [|k ks IH]; intros b; [done|]. apply (IH (emit _ b)). Qed.

(** The trip kills first, and records whom. *)
Lemma trip_facts ts r g lo span b :
  let b' := trip cfg ts r g lo span b in
  (exists l, log b' = log b ++ map (fun k => EKill (Pgid k)) (kids b) ++ l) /\
  p_active (post b') = true /\ p_pgids (post b') = map Pgid (kids b) /\ p_killedAt (post b') = ts /\
  p_evicted (post b') = false /\ effThreshold b' = effThreshold b /\ lastGrowth b' = lastGrowth b.
Proof.
  unfold trip. set (b1 := foldl _ b (kids b)).
  assert (kids b1 = kids b /\ effThreshold b1 = effThreshold b /\ lastGrowth b1 = lastGrowth b) as (E1 & E2 & E3) by apply kill_fields.
  assert (log b1 = log b ++ map (fun k => EKill (Pgid k)) (kids b)) as El by apply kill_log.
  clearbody b1. cbv zeta. unfold bump_backoff, writeHoldState.
  destruct (0 <? drainBelow cfg); [destruct (String.eqb _ _)|]; simpl;
    repeat (case_match; simpl); rewrite ?E1, ?E2, ?E3, El, <- ?app_assoc; (split; [by eexists|done]).
Qed.

Lemma keeps_kill ks b : keeps b (foldl (fun b k => emit (EKill (Pgid k)) b) b ks).
Proof. revert b. induction ks as [|k ks IH]; intros b; [apply keeps_refl|]. eapply kept_trans; [|apply IH]. kept. Qed.

Lemma keeps_trip ts r g lo span b : keeps b (trip cfg ts r g lo span b).
Proof.
  unfold trip. eapply kept_trans; [apply (keeps_kill (kids b))|]. set (b1 := foldl _ b (kids b)). clearbody b1.
  unfold bump_backoff, writeHoldState. destruct (0 <? drainBelow cfg); [destruct (String.eqb _ _)|]; simpl;
    repeat (case_match; simpl); kept.
Qed.

(** A sample starts at most one purge, and none while one is in flight. *)
Lemma sample_purges ts b :
  let b' := step cfg env (Sample ts) b in exists l, log b' = log b ++ l /\ purges (purging b) l (purging b').
Proof.
  simpl. unfold Step. destruct (env_sample env (log b)) as [r|];
    [|exists []; rewrite app_nil_r; split; [done|by left]].
  unfold observe. destruct (look env ts r b) as [b1 loading] eqn:El.
  assert (keeps_log b b1) as H1.
  { unfold look in El. destruct (env_children env _). injection El as <- _. by apply keeps_log_refl. }
  set (b2 := if p_active (post b1) then _ else b1).
  assert (keeps_log b1 b2) as H2.
  { subst b2. destruct (p_active (post b1)); [apply (kept_drain ts r b1)|by apply keeps_log_refl]. }
  pose proof (keeps_log_trans _ _ _ H1 H2) as H12. clear H1 H2. clearbody b2. cbv zeta.
  set (c := negb (started b2) || loading || _). set (b3 := if c then _ else b2).
  assert (keeps_log b2 b3) as H3 by (subst b3; destruct c; by apply keeps_log_refl).
  pose proof (keeps_log_trans _ _ _ H12 H3) as H13. clear H12 H3. clearbody b3.
  destruct (negb (armAfter cfg <=? _)).
  { eapply keeps_log_trans; [exact H13|by apply keeps_log_refl]. }
  match goal with |- context [thresholdFor cfg env ?k ?n ?x] =>
    pose proof (ke_log _ _ (keeps_thresholdFor k n x)) as H4; destruct (thresholdFor cfg env k n x) as [t b4] end.
  simpl in H4. assert (keeps_log b b4) as H5.
  { eapply keeps_log_trans; [exact H13|]. eapply keeps_log_trans; [|exact H4]. by apply keeps_log_refl. }
  match goal with |- context [if ?c then (false, _) else _] => destruct c end;
    [eapply keeps_log_trans; [exact H5|by apply keeps_log_refl]|].
  match goal with |- context [if ?c then (false, _) else _] => destruct c end;
    [eapply keeps_log_trans; [exact H5|by apply keeps_log_refl]|].
  match goal with |- context [trip cfg ?a ?r ?d ?e ?f ?g] =>
    pose proof (ke_log _ _ (keeps_trip a r d e f g)) as H6; generalize dependent (trip cfg a r d e f g) end.
  intros b6 H6. eapply keeps_log_trans; [exact H5|]. eapply keeps_log_trans; [exact H6|]. by apply keeps_log_refl.
Qed.
End trip.

(** The trip is one action on all: when a sample trips the brake, it was not
    the first one, some child was live and none was loading or stopping, the
    cache had grown by the threshold in force, above the minimum of the window,
    on as many samples in a row as the configuration asks for; every live
    child's group is killed, before anything else is written; the sequence of
    eviction and draining starts; and the gate is shut when a drain level is
    configured. *)
Theorem trip_kills_all (cfg : MemoryBrakeConfig) (env : Env) (ts : Z) (r : Reading) (b b' : Brake)
    (Hthr : 0 < threshold cfg) (Hr : ring (dq b)) (Ht : observe cfg env ts r b = (true, b')) :
  let ks := (env_children env (log b)).1 in
  ks <> [] /\ (env_children env (log b)).2 = false /\ started b = true /\
  ConfirmSamples cfg <= consec b + 1 /\
  (effThreshold b' = threshold cfg \/ 0 < splashThreshold cfg /\ effThreshold b' = splashThreshold cfg) /\
  effThreshold b' <= lastGrowth b' /\
  (exists l1 l2, log b' = log b ++ l1 ++ map (fun k => EKill (Pgid k)) ks ++ l2) /\
  p_active (post b') = true /\ p_evicted (post b') = false /\ p_pgids (post b') = map Pgid ks /\
  consec b' = 0 /\ (0 < drainBelow cfg -> holding (hold b') = true).
Proof.
  revert Ht. unfold observe, look. change (log (set_hold b _)) with (log b).
  destruct (env_children env (log b)) as [ks loading]. simpl fst. simpl snd. cbv beta iota zeta.
  set (b1 := set_files _ _). set (b2 := if p_active (post b1) then _ else b1).
  assert (keeps b1 b2) as [(l1 & L1 & _) K1 K2 K3 K4 _] by (subst b2; destruct (p_active _); [apply kept_drain|apply keeps_refl]).
  change (log b1) with (log b) in L1. change (kids b1) with ks in K1. change (dq b1) with (dq b) in K2.
  change (started b1) with (started b) in K3. change (consec b1) with (consec b) in K4. clearbody b2.
  set (c := negb (started b2) || loading || _). set (b3 := if c then _ else b2).
  assert (kids b3 = ks /\ log b3 = log b ++ l1) as [E1 E2] by (subst b3; destruct c; simpl; auto).
  destruct (negb (armAfter cfg <=? _)); [done|].
  match goal with |- context [thresholdFor cfg env ?k ?n ?x] =>
    pose proof (thresholdFor_cases cfg env k n x) as Hcase; pose proof (keeps_thresholdFor cfg env k n x) as Hk;
    destruct (thresholdFor cfg env k n x) as [t b4] end.
  simpl fst in Hcase. destruct Hk as [(l2 & L2 & _) K5 _ _ K6 K7]. simpl in L2, K5, K6, K7.
  set (growth := sub64 _ _). set (b5 := set_effThreshold b4 t). change (effThreshold b5) with t.
  destruct (Z.ltb_spec growth t) as [|Hgrow]; [done|].
  match goal with |- context [if ?c then (false, _) else _] => destruct c eqn:Hconf end; [done|].
  match goal with |- context [trip cfg ?a ?r ?d ?e ?f ?g] =>
    pose proof (trip_facts cfg a r d e f g) as Hf; pose proof (trip_holding cfg a r d e f g) as Hh;
    generalize dependent (trip cfg a r d e f g) end.
  intros b6 Hf Hh. intros [= <-]. destruct Hf as ((l3 & L3) & F1 & F2 & F3 & F4 & F5 & F6).
  simpl in F2, F5, F6, L3, Hh, Hconf. rewrite reset_hold. simpl.
  assert (0 < t) as Ht by (destruct Hcase as [-> | [? ->]]; lia).
  assert (c = false) as Hc.
  { destruct c eqn:Ec; [exfalso|done]. subst growth b3. simpl in Hgrow. rewrite K2 in Hgrow.
    rewrite (front_pushed (dq b) ts (metric r) (window cfg) Hr) in Hgrow. unfold sub64 in Hgrow.
    rewrite Z.sub_diag in Hgrow. vm_compute (i64 0) in Hgrow. lia. }
  assert (consec b3 = consec b) as Ec by (subst b3; rewrite Hc; exact K4).
  subst c. apply orb_false_iff in Hc as [[Hst Hload]%orb_false_iff Hlen].
  rewrite K5, E1 in F2, L3. rewrite K3 in Hst. rewrite K1 in Hlen.
  rewrite K6, Ec in Hconf. rewrite F5, F6, K7.
  split_and!; try done.
  - intros ->. done.
  - by apply negb_false_iff in Hst.
  - by apply Z.ltb_ge in Hconf.
  - exists (l1 ++ l2), l3. by rewrite L3, L2, E2, <- !app_assoc.
  - intros Hd. rewrite Hh. by rewrite (proj2 (Z.ltb_lt _ _) Hd).
Qed.
(** *** Purges in flight: samples start them, the goroutine reports and returns. *)
Inductive flights (cfg : MemoryBrakeConfig) : Brake -> nat -> Prop :=
| fl_new b : purging b = false -> flights cfg b 0
| fl_sample env ts b n : flights cfg b n ->
    let b' := step cfg env (Sample ts) b in
    flights cfg b' (n + starts (drop (length (log b)) (log b')))
| fl_report env ev b n : flights cfg b n ->
    (exists fb, ev = PurgeMarked fb) \/ (exists ts fb, ev = PurgeTimedOut ts fb) ->
    flights cfg (step cfg env ev b) n
| fl_return env ts fb res b n : flights cfg b (S n) -> flights cfg (step cfg env (PurgeReturned ts fb res) b) n.

(** One purge at a time: whatever samples arrive and whatever the purge
    goroutine reports, in any interleaving, at most one purge is in flight, and
    the flag says whether one is. *)
Theorem purge_single_flight (cfg : MemoryBrakeConfig) (b : Brake) (n : nat) (Hn : flights cfg b n) :
  (n <= 1)%nat /\ (purging b = true <-> n = 1%nat).
Proof.
  induction Hn as [b Hb|env ts b n _ [IH1 IH2] b'|env ev b n _ IH Hev|env ts fb res b n _ [IH1 IH2]].
  - rewrite Hb. split; [lia|done].
  - destruct (sample_purges cfg env ts b) as (l & El & Hl). subst b'. rewrite El, drop_app_length.
    destruct Hl as [[-> ->]|(-> & Hf & ->)]; [by rewrite Nat.add_0_r|].
    assert (n <> 1%nat) by (intros ->; rewrite (proj2 IH2 eq_refl) in Hf; done). split; [lia|]. split; [lia|done].
  - destruct Hev as [(fb & ->)|(ts & fb & ->)]; exact IH.
  - assert (n = 0%nat) as -> by lia. split; [lia|]. simpl. unfold purgeReturn. split; [done|lia].
Qed.

(** *** Concrete inputs *)

(** A growth of 3.5 GB within five minutes trips, the gate opens below 8 GB; a
    sample a minute. *)
Definition ex_cfg : MemoryBrakeConfig :=
  mkConfig 60000 5 (fdiv (of_int 7) (of_int 2)) 0 1 (of_int 8) (of_int 0) "/hold" 1.

Definition ex_reading (gigabytes : Z) : Reading := mkReading 0 (gigabytes * gib) 0.

(** The world shows [g] GB of file-backed memory; one child runs, or none. *)
Definition ex_world (g : Z) (running : bool) : Env := {|
  env_sample := fun _ => Some (ex_reading g);
  env_children := fun _ => (if running then [mkChild "coder" 42 ["/m.gguf"]] else [], false);
  env_alive := fun _ _ => false;
  env_isSplash := fun _ _ => false;
  env_evict := fun _ _ => true;
  env_glob := fun _ _ => [];
|}.

Definition secs (n : Z) : Z := (1700000000 + n) * nsec_second.

Definition run_brake (b : Brake) (samples : list (Z * Z * bool)) : Brake :=
  foldl (fun b s => step ex_cfg (ex_world s.1.2 s.2) (Sample (secs s.1.1)) b) b samples.

Definition fresh : Brake := New ex_cfg (secs 0) None.

(** The child runs at 1 GB for a while. *)
Definition calm : Brake := run_brake fresh [(0, 1, true); (10, 1, true)].

Lemma ring_calm : ring (dq calm).
Proof. split; vm_compute; lia. Qed.

Lemma trip_kills_all_witness :
  exists b', observe ex_cfg (ex_world 6 true) (secs 20) (ex_reading 6) calm = (true, b') /\
    holding (hold b') = true /\ p_pgids (post b') = [42].
Proof.
  destruct (observe ex_cfg (ex_world 6 true) (secs 20) (ex_reading 6) calm) as [tripped b'] eqn:E.
  assert (tripped = true) as -> by (change tripped with (tripped, b').1; rewrite <- E; vm_compute; reflexivity).
  exists b'. split; [reflexivity|].
  destruct (trip_kills_all ex_cfg (ex_world 6 true) (secs 20) (ex_reading 6) calm b'
    ltac:(vm_compute; reflexivity) ring_calm E) as (_ & _ & _ & _ & _ & _ & _ & _ & _ & H1 & _ & H2).
  split; [apply H2; vm_compute; reflexivity|exact H1].
Defined.

(** Tripped at 20 s; evicted at 30 s, when the cache stands at 6 GB. *)
Definition tripped : Brake := run_brake calm [(20, 6, true)].
Definition evicted : Brake := step ex_cfg (ex_world 6 false) (Sample (secs 30)) tripped.

Lemma plausible_two a b : 0 < a.1 -> a.1 <= b.1 -> b.1 <= max_int64 -> 0 <= a.2 <= max_int64 ->
  0 <= b.2 <= max_int64 -> plausible [a; b].
Proof. intros. split; [split|]; repeat constructor; lia. Qed.

Lemma plausible_one a : 0 < a.1 <= max_int64 -> 0 <= a.2 <= max_int64 -> plausible [a].
Proof. intros. split; [split|]; repeat constructor; lia. Qed.

Lemma watch_sample_eq env q b ss ts r b' ss' :
  watch ex_cfg q b ss -> p_active (post b) = true -> env_sample env (log b) = Some r ->
  plausible (ss ++ [(ts, metric r)]) -> fits (cap q) (quietWindow ex_cfg b) (ss ++ [(ts, metric r)]) ->
  (observe ex_cfg env ts r b).1 = false ->
  step ex_cfg env (Sample ts) b = b' -> seen b' ss (ts, metric r) = ss' -> watch ex_cfg q b' ss'.
Proof. intros H1 H2 H3 H4 H5 H6 <- <-. by apply watch_sample. Qed.

Lemma watch_evicted : watch ex_cfg (qdq tripped) evicted [(secs 30, metric (ex_reading 6))].
Proof.
  apply (watch_sample_eq (ex_world 6 false) (qdq tripped) tripped [] (secs 30) (ex_reading 6)).
  - apply (watch_shut ex_cfg tripped); [split; vm_compute; lia|vm_compute; reflexivity..].
  - vm_compute. reflexivity.
  - reflexivity.
  - apply plausible_one; vm_compute; split; congruence.
  - intros k Hk. destruct k as [|k]; [vm_compute; lia|simpl in Hk; lia].
  - vm_compute. reflexivity.
  - vm_compute. reflexivity.
  - vm_compute. reflexivity.
Qed.

(** Below the level from 40 s on; at 100 s the gate opens. *)
Definition below : Brake := step ex_cfg (ex_world 6 false) (Sample (secs 40)) evicted.
Definition opened : Brake := step ex_cfg (ex_world 6 false) (Sample (secs 100)) below.

Definition seen_below : list (Z * Z) := [(secs 30, metric (ex_reading 6)); (secs 40, metric (ex_reading 6))].

Lemma watch_below : watch ex_cfg (qdq tripped) below seen_below.
Proof.
  apply (watch_sample_eq (ex_world 6 false) (qdq tripped) evicted [(secs 30, metric (ex_reading 6))]
    (secs 40) (ex_reading 6)).
  - exact watch_evicted.
  - vm_compute. reflexivity.
  - reflexivity.
  - apply plausible_two; vm_compute; congruence || (split; congruence).
  - intros k Hk. destruct k as [|[|k]]; [vm_compute; lia|vm_compute; lia|simpl in Hk; lia].
  - vm_compute. reflexivity.
  - vm_compute. reflexivity.
  - vm_compute. reflexivity.
Qed.

Lemma gate_opens_drained_witness :
  holding (hold below) = true /\ holding (hold opened) = false /\
  drained ex_cfg below (seen_below ++ [(secs 100, metric (ex_reading 6))]) (secs 100).
Proof.
  split; [vm_compute; reflexivity|]. split; [vm_compute; reflexivity|].
  apply (gate_opens_drained ex_cfg (ex_world 6 false) (qdq tripped) below seen_below (secs 100) (ex_reading 6)).
  - vm_compute. reflexivity.
  - vm_compute. discriminate.
  - exact watch_below.
  - reflexivity.
  - split; [split|]; repeat constructor; vm_compute; congruence.
  - intros k Hk. destruct k as [|[|[|k]]]; [vm_compute; lia|vm_compute; lia|vm_compute; lia|simpl in Hk; lia].
  - vm_compute. reflexivity.
  - vm_compute. reflexivity.
Defined.

(** The quiet window is not waited for when no rise was ever seen: in this
    run the gate opens seventy seconds after the eviction, a fraction of the
    quiet window of five minutes that is in force. *)
Theorem gate_opens_before_quiet_window :
  holding (hold evicted) = true /\ p_evictedAt (post evicted) = secs 30 /\
  holding (hold opened) = false /\ lastReleaseAt opened = secs 100 /\
  quietWindow ex_cfg below = 5 * nsec_minute /\ secs 100 - secs 30 < quietWindow ex_cfg below.
Proof. vm_compute. repeat split; reflexivity. Qed.

(** A purge a minute after the kill, while the cache stays full. *)
Definition stuck_samples : list (Z * Z * bool) := [(30, 20, false); (90, 20, false); (160, 20, false)].
Abbreviation stuck := (run_brake tripped stuck_samples).

Lemma flights_run samples b n : flights ex_cfg b n -> exists m, flights ex_cfg (run_brake b samples) m.
Proof.
  revert b n. induction samples as [|s ss IH]; intros b n Hb; [by exists n|].
  simpl. eapply IH. by apply (fl_sample ex_cfg (ex_world s.1.2 s.2) (secs s.1.1) b n).
Qed.

Lemma purge_single_flight_witness :
  purging stuck = true /\ lastStuckReport stuck = secs 160 /\ exists n, flights ex_cfg stuck n /\ n = 1%nat.
Proof.
  assert (flights ex_cfg tripped 0) as H0 by (apply fl_new; vm_compute; reflexivity).
  destruct (flights_run stuck_samples tripped 0 H0) as [n Hn].
  assert (purging stuck = true) as Hp by (vm_compute; reflexivity).
  split; [exact Hp|]. split; [vm_compute; reflexivity|]. exists n. split; [exact Hn|].
  apply (purge_single_flight ex_cfg stuck n Hn). exact Hp.
Defined.

End BrakeGate.
