(* ===== verification/Process.v ===== *)
(** A supervised child process ([internal/process/process_command.go],
    [reclaim.go], [live_registry.go]): the run goroutine that owns its life
    cycle, the goroutine that starts it, the goroutines that unload it when idle
    or restart it after compute errors, and the requests it serves.

    Each action is one atomic step of one goroutine.  Requests to the run
    goroutine and children are numbered in the order they appear; a request's
    response channel carries its number. *)

From S2P Require Import Prelude SchedTypes.

Module Process.
Import Sched.

Definition computeErrorRestartThreshold : Z := 3.

(** Why a start fails, and the other errors callers are given. *)
Inductive start_error :=
| ErrProxyMissing | ErrCommand | ErrProxyURL | ErrExec
| ErrStartAborted | ErrUpstreamPrematureExit | ErrHealthTimeout.

Inductive proc_error :=
| ErrStart (err : start_error)
| ErrDown | ErrExited | ErrStopped | ErrCannotStart (s : ProcessState).

(** What a caller asked: [WaitReady], [EnsureReady], [Run] or [Stop]. *)
Inductive asked := AskWait | AskEnsure | AskRun | AskStop.

#[export] Instance start_error_eq_dec : EqDecision start_error. Proof. solve_decision. Defined.
#[export] Instance proc_error_eq_dec : EqDecision proc_error. Proof. solve_decision. Defined.
#[export] Instance asked_eq_dec : EqDecision asked. Proof. solve_decision. Defined.

Record startReq := mkStartReq { s_respond : nat; s_block : bool }.
Definition asks_start (r : startReq) : asked := if s_block r then AskRun else AskEnsure.

(** An answer on a response channel; [None] is nil. *)
Record answer := mkAnswer { a_id : nat; a_asked : asked; a_err : option proc_error }.

(** The goroutine that runs [startWithOrphanReclaim]: before the child is
    spawned, health checks, killing the child it gives up, its result in the
    channel.  [again] is the retry after a reclaimed port. *)
Inductive starter :=
| NoStart
| Launching (again : bool)
| Checking (again : bool) (c : nat)
| Abandoning (c : nat) (err : start_error)
| Result (res : nat + start_error).

(** Where the run goroutine is: in its select; waiting for the start; waiting for
    the start it cancelled, for a Stop or for the end of the parent context; in
    [killProcess]; returned. *)
Inductive killing :=
| KStop (stop : nat)
| KShutdown
| KStartStop (req : startReq) (stop : nat)
| KStartShutdown (req : startReq).

Inductive point :=
| Select
| Waiting (req : startReq)
| Cancelled (req : startReq) (stop : option nat)
| Killing (c : nat) (k : killing)
| Returned.

(** The goroutines of the TTL and of the restart after compute errors: ticking,
    about to call Stop, in Stop, gone. *)
Inductive helper :=
| TtlTicking
| TtlStopping
| TtlInStop (stop : nat)
| RestartStopping
| RestartInStop (stop : nat)
| Gone.

(** A request in [ServeHTTP]: it loaded the handler of [c]; it is counted; over. *)
Inductive visit :=
| Loaded (c : nat) (websocket statusRead : bool)
| Inside (c : nat) (counted statusRead : bool)
| Left.

#[export] Instance helper_eq_dec : EqDecision helper. Proof. solve_decision. Defined.
#[export] Instance visit_eq_dec : EqDecision visit. Proof. solve_decision. Defined.

Record ProcConfig := mkProcConfig { UnloadAfter : Z; IgnoreWebsockets : bool }.

Record Proc := mkProc {
  p_point : point;
  p_state : ProcessState;
  p_cmd : option nat;
  p_handler : option nat;
  readyWaiters : list nat;
  runResp : option nat;
  p_starter : starter;
  p_cancelled : bool;                  (* startCtx was cancelled *)
  p_parent : bool;                     (* parentCtx was cancelled *)
  p_live : list nat;                   (* children that run, newest first *)
  p_registry : option nat;             (* the live registry's entry *)
  p_lastUse : Z;
  p_inflight : Z;
  p_errors : Z;                        (* computeErrorCount *)
  p_restarting : bool;                 (* computeErrorRestarting *)
  p_helpers : list helper;
  p_visits : list visit;
  p_answers : list answer;
  p_events : list (ProcessState * ProcessState);
  p_nextReq : nat;
  p_nextChild : nat;
}.

Definition New : Proc :=
  mkProc Select StateStopped None None [] None NoStart false false [] None 0 0 0 false [] [] [] [] 0 0.

(** Field updates. *)
Definition set_point (p : Proc) x := mkProc x (p_state p) (p_cmd p) (p_handler p) (readyWaiters p) (runResp p) (p_starter p) (p_cancelled p) (p_parent p) (p_live p) (p_registry p) (p_lastUse p) (p_inflight p) (p_errors p) (p_restarting p) (p_helpers p) (p_visits p) (p_answers p) (p_events p) (p_nextReq p) (p_nextChild p).
Definition set_child (p : Proc) c h := mkProc (p_point p) (p_state p) c h (readyWaiters p) (runResp p) (p_starter p) (p_cancelled p) (p_parent p) (p_live p) (p_registry p) (p_lastUse p) (p_inflight p) (p_errors p) (p_restarting p) (p_helpers p) (p_visits p) (p_answers p) (p_events p) (p_nextReq p) (p_nextChild p).
Definition set_parked (p : Proc) ws r := mkProc (p_point p) (p_state p) (p_cmd p) (p_handler p) ws r (p_starter p) (p_cancelled p) (p_parent p) (p_live p) (p_registry p) (p_lastUse p) (p_inflight p) (p_errors p) (p_restarting p) (p_helpers p) (p_visits p) (p_answers p) (p_events p) (p_nextReq p) (p_nextChild p).
Definition set_starter (p : Proc) x c := mkProc (p_point p) (p_state p) (p_cmd p) (p_handler p) (readyWaiters p) (runResp p) x c (p_parent p) (p_live p) (p_registry p) (p_lastUse p) (p_inflight p) (p_errors p) (p_restarting p) (p_helpers p) (p_visits p) (p_answers p) (p_events p) (p_nextReq p) (p_nextChild p).
Definition set_parent (p : Proc) := mkProc (p_point p) (p_state p) (p_cmd p) (p_handler p) (readyWaiters p) (runResp p) (p_starter p) (p_cancelled p) true (p_live p) (p_registry p) (p_lastUse p) (p_inflight p) (p_errors p) (p_restarting p) (p_helpers p) (p_visits p) (p_answers p) (p_events p) (p_nextReq p) (p_nextChild p).
Definition set_live (p : Proc) l r n := mkProc (p_point p) (p_state p) (p_cmd p) (p_handler p) (readyWaiters p) (runResp p) (p_starter p) (p_cancelled p) (p_parent p) l r (p_lastUse p) (p_inflight p) (p_errors p) (p_restarting p) (p_helpers p) (p_visits p) (p_answers p) (p_events p) (p_nextReq p) n.
Definition set_use (p : Proc) u i := mkProc (p_point p) (p_state p) (p_cmd p) (p_handler p) (readyWaiters p) (runResp p) (p_starter p) (p_cancelled p) (p_parent p) (p_live p) (p_registry p) u i (p_errors p) (p_restarting p) (p_helpers p) (p_visits p) (p_answers p) (p_events p) (p_nextReq p) (p_nextChild p).
Definition set_errors (p : Proc) e r := mkProc (p_point p) (p_state p) (p_cmd p) (p_handler p) (readyWaiters p) (runResp p) (p_starter p) (p_cancelled p) (p_parent p) (p_live p) (p_registry p) (p_lastUse p) (p_inflight p) e r (p_helpers p) (p_visits p) (p_answers p) (p_events p) (p_nextReq p) (p_nextChild p).
Definition set_others (p : Proc) hs vs := mkProc (p_point p) (p_state p) (p_cmd p) (p_handler p) (readyWaiters p) (runResp p) (p_starter p) (p_cancelled p) (p_parent p) (p_live p) (p_registry p) (p_lastUse p) (p_inflight p) (p_errors p) (p_restarting p) hs vs (p_answers p) (p_events p) (p_nextReq p) (p_nextChild p).
Definition set_next (p : Proc) n := mkProc (p_point p) (p_state p) (p_cmd p) (p_handler p) (readyWaiters p) (runResp p) (p_starter p) (p_cancelled p) (p_parent p) (p_live p) (p_registry p) (p_lastUse p) (p_inflight p) (p_errors p) (p_restarting p) (p_helpers p) (p_visits p) (p_answers p) (p_events p) n (p_nextChild p).

Definition setState (s : ProcessState) (p : Proc) : Proc :=
  mkProc (p_point p) s (p_cmd p) (p_handler p) (readyWaiters p) (runResp p) (p_starter p) (p_cancelled p) (p_parent p) (p_live p) (p_registry p) (p_lastUse p) (p_inflight p) (p_errors p) (p_restarting p) (p_helpers p) (p_visits p) (p_answers p)
    (if decide (p_state p = s) then p_events p else p_events p ++ [(p_state p, s)]) (p_nextReq p) (p_nextChild p).

(** A send on a response channel: they are buffered, so it does not block. *)
Definition respond (id : nat) (q : asked) (err : option proc_error) (p : Proc) : Proc :=
  mkProc (p_point p) (p_state p) (p_cmd p) (p_handler p) (readyWaiters p) (runResp p) (p_starter p) (p_cancelled p) (p_parent p) (p_live p) (p_registry p) (p_lastUse p) (p_inflight p) (p_errors p) (p_restarting p) (p_helpers p) (p_visits p)
    (p_answers p ++ [mkAnswer id q err]) (p_events p) (p_nextReq p) (p_nextChild p).

Definition notifyWaiters (err : option proc_error) (p : Proc) : Proc :=
  let ws := readyWaiters p in
  set_parked (foldl (fun p w => respond w AskWait err p) p ws) [] (runResp p).

Definition respondRun (err : option proc_error) (p : Proc) : Proc :=
  match runResp p with
  | Some id => set_parked (respond id AskRun err p) (readyWaiters p) None
  | None => p
  end.

Definition answered (id : nat) (p : Proc) : bool :=
  existsb (fun a => Nat.eqb (a_id a) id) (p_answers p).

Definition down (p : Proc) : Proc :=
  set_point (respondRun (Some ErrDown) (notifyWaiters (Some ErrDown) p)) Returned.

(** [doStart] begins under a fresh context, with a fresh streak of compute errors. *)
Definition launch (p : Proc) : Proc := set_errors (set_starter p (Launching false) false) 0 false.

Section process.
Variable cfg : ProcConfig.

(** *** The select of the run goroutine *)
Definition onWaitReady (p : Proc) : Proc :=
  let id := p_nextReq p in
  let p := set_next p (S id) in
  match p_state p with
  | StateReady => respond id AskWait None p
  | StateShutdown => respond id AskWait (Some ErrDown) p
  | _ => set_parked p (readyWaiters p ++ [id]) (runResp p)
  end.

Definition onStart (block : bool) (p : Proc) : Proc :=
  let req := mkStartReq (p_nextReq p) block in
  let p := set_next p (S (p_nextReq p)) in
  match negb block, p_state p with
  | true, StateReady => respond (s_respond req) AskEnsure None p
  | true, StateShutdown => respond (s_respond req) AskEnsure (Some ErrDown) p
  | _, StateStopped => set_point (launch (setState StateStarting p)) (Waiting req)
  | _, s => respond (s_respond req) (asks_start req) (Some (ErrCannotStart s)) p
  end.

(** The end of a Stop of a running or stopped process. *)
Definition stopped (toreDown : bool) (stop : nat) (p : Proc) : Proc :=
  let p := setState StateStopped p in
  let p := if toreDown then notifyWaiters (Some ErrStopped) p else p in
  set_point (respond stop AskStop None (respondRun None p)) Select.

Definition onStop (p : Proc) : option Proc :=
  let stop := p_nextReq p in
  let p := set_next p (S stop) in
  match p_point p with
  | Select =>
    match p_cmd p with
    | Some c => Some (set_point (setState StateStopping p) (Killing c (KStop stop)))
    | None => Some (stopped false stop p)
    end
  | Waiting req => Some (set_point (set_starter p (p_starter p) true) (Cancelled req (Some stop)))
  | _ => None
  end.

Definition onParentDone (p : Proc) : option Proc :=
  match p_point p with
  | Select =>
    let p := setState StateShutdown p in
    match p_cmd p with
    | Some c => Some (set_point (set_child p (Some c) None) (Killing c KShutdown))
    | None => Some (down p)
    end
  | Waiting req =>
    Some (set_point (setState StateShutdown (set_starter p (p_starter p) true)) (Cancelled req None))
  | _ => None
  end.

(** The child exited on its own. *)
Definition onCmdDone (p : Proc) : Proc :=
  let p := setState StateStopped (set_child p None None) in
  respondRun (Some ErrExited) (notifyWaiters (Some ErrExited) p).

(** The result of the start, or of the start that was cancelled. *)
Definition onResult (now : Z) (p : Proc) : option Proc :=
  match p_point p, p_starter p with
  | Waiting req, Result (inl c) =>
    let p := set_starter p NoStart false in
    let p := setState StateReady (set_use (set_child p (Some c) (Some c)) now (p_inflight p)) in
    let p := notifyWaiters None p in
    let p := if s_block req then set_parked p (readyWaiters p) (Some (s_respond req))
             else respond (s_respond req) AskEnsure None p in
    let p := if 0 <? UnloadAfter cfg then set_others p (p_helpers p ++ [TtlTicking]) (p_visits p) else p in
    Some (set_point p Select)
  | Waiting req, Result (inr err) =>
    let p := notifyWaiters (Some (ErrStart err)) (setState StateStopped (set_starter p NoStart false)) in
    Some (set_point (respond (s_respond req) (asks_start req) (Some (ErrStart err)) p) Select)
  | Cancelled req (Some stop), Result res =>
    let p := set_starter p NoStart false in
    match res with
    | inl c => Some (set_point p (Killing c (KStartStop req stop)))
    | inr _ =>
      let p := notifyWaiters (Some (ErrStart ErrStartAborted)) (setState StateStopped p) in
      let p := respond (s_respond req) (asks_start req) (Some (ErrStart ErrStartAborted)) p in
      Some (set_point (respond stop AskStop None p) Select)
    end
  | Cancelled req None, Result res =>
    let p := set_starter p NoStart false in
    match res with
    | inl c => Some (set_point p (Killing c (KStartShutdown req)))
    | inr _ => Some (down p)
    end
  | _, _ => None
  end.

(** [killProcess] returns once the child is gone. *)
Definition onKilled (p : Proc) : option Proc :=
  match p_point p with
  | Killing c k =>
    if decide (c ∈ p_live p) then None
    else
      match k with
      | KStop stop => Some (stopped true stop (set_child p None None))
      | KShutdown => Some (down (set_child p None None))
      | KStartStop req stop =>
        let p := notifyWaiters (Some (ErrStart ErrStartAborted)) (setState StateStopped p) in
        let p := respond (s_respond req) (asks_start req) (Some (ErrStart ErrStartAborted)) p in
        Some (set_point (respond stop AskStop None p) Select)
      | KStartShutdown _ => Some (down p)
      end
  | _ => None
  end.

(** *** The starting goroutine *)
Inductive start_step :=
| SFail (err : start_error)          (* before the child is spawned *)
| SSpawn
| SAbort                            (* startCtx was cancelled *)
| STimeout
| SHealthy
| SPremature (reclaimed : bool)     (* the child exited; its port was reclaimed *)
| SKilled.

Definition early (err : start_error) : bool :=
  match err with ErrProxyMissing | ErrCommand | ErrProxyURL | ErrExec => true | _ => false end.

Definition onStarter (st : start_step) (p : Proc) : option Proc :=
  match st, p_starter p with
  | SFail err, Launching _ =>
    if early err then Some (set_starter p (Result (inr err)) (p_cancelled p)) else None
  | SSpawn, Launching again =>
    let c := p_nextChild p in
    Some (set_starter (set_live p (c :: p_live p) (Some c) (S c)) (Checking again c) (p_cancelled p))
  | SAbort, Checking _ c =>
    if p_cancelled p then Some (set_starter p (Abandoning c ErrStartAborted) true) else None
  | STimeout, Checking _ c => Some (set_starter p (Abandoning c ErrHealthTimeout) (p_cancelled p))
  | SHealthy, Checking _ c => Some (set_starter p (Result (inl c)) (p_cancelled p))
  | SPremature reclaimed, Checking again c =>
    if decide (c ∈ p_live p) then None
    else if negb again && reclaimed then Some (set_errors (set_starter p (Launching true) (p_cancelled p)) 0 false)
    else Some (set_starter p (Result (inr ErrUpstreamPrematureExit)) (p_cancelled p))
  | SKilled, Abandoning c err =>
    if decide (c ∈ p_live p) then None else Some (set_starter p (Result (inr err)) (p_cancelled p))
  | _, _ => None
  end.

(** *** Requests *)
Definition serve (websocket statusRead : bool) (p : Proc) : Proc :=
  match p_handler p with
  | Some c => set_others p (p_helpers p) (p_visits p ++ [Loaded c websocket statusRead])
  | None => p                          (* 503: not ready *)
  end.

Definition enter (i : nat) (p : Proc) : option Proc :=
  match p_visits p !! i with
  | Some (Loaded c websocket statusRead) =>
    if IgnoreWebsockets cfg && websocket
    then Some (set_others p (p_helpers p) (<[i := Inside c false statusRead]> (p_visits p)))
    else Some (set_use (set_others p (p_helpers p) (<[i := Inside c true statusRead]> (p_visits p)))
                 (p_lastUse p) (p_inflight p + 1))
  | _ => None
  end.

Definition leave (i : nat) (now : Z) (p : Proc) : option Proc :=
  match p_visits p !! i with
  | Some (Inside c counted statusRead) =>
    let p := set_others p (p_helpers p) (<[i := Left]> (p_visits p)) in
    if counted then Some (set_use p (if statusRead then p_lastUse p else now) (p_inflight p - 1)) else Some p
  | _ => None
  end.

(** [trackComputeErrorState] on a response with status [code], its body starting
    with the signature or not. *)
Definition trackComputeErrorState (code : Z) (signature : bool) (p : Proc) : Proc :=
  if (200 <=? code) && (code <? 300) then set_errors p 0 (p_restarting p)
  else if (code =? 500) && signature then
    let count := p_errors p + 1 in
    if (computeErrorRestartThreshold <=? count) && negb (p_restarting p)
    then set_others (set_errors p count true) (p_helpers p ++ [RestartStopping]) (p_visits p)
    else set_errors p count (p_restarting p)
  else p.

(** *** The helpers *)
Definition set_helper (i : nat) (h : helper) (p : Proc) : Proc :=
  set_others p (<[i := h]> (p_helpers p)) (p_visits p).

Definition tick (i : nat) (now : Z) (pinned : bool) (p : Proc) : option Proc :=
  match p_helpers p !! i with
  | Some TtlTicking =>
    if decide (p_state p = StateReady) then
      if pinned || negb (p_inflight p =? 0) then Some p
      else if UnloadAfter cfg * nsec_second <? time_sub now (p_lastUse p)
      then Some (set_helper i TtlStopping p) else Some p
    else Some (set_helper i Gone p)
  | _ => None
  end.

(** A helper's Stop reaches the run goroutine. *)
Definition helperStop (i : nat) (p : Proc) : option Proc :=
  match p_helpers p !! i with
  | Some TtlStopping => onStop (set_helper i (TtlInStop (p_nextReq p)) p)
  | Some RestartStopping => onStop (set_helper i (RestartInStop (p_nextReq p)) p)
  | _ => None
  end.

(** A helper's Stop returns: it was answered, or the parent context ended before
    the run goroutine took it. *)
Definition helperReturn (i : nat) (p : Proc) : option Proc :=
  match p_helpers p !! i with
  | Some (TtlInStop stop) => if answered stop p then Some (set_helper i Gone p) else None
  | Some (RestartInStop stop) =>
    if answered stop p then Some (set_errors (set_helper i Gone p) 0 false) else None
  | Some TtlStopping => if p_parent p then Some (set_helper i Gone p) else None
  | Some RestartStopping => if p_parent p then Some (set_errors (set_helper i Gone p) 0 false) else None
  | _ => None
  end.

(** *** Actions *)
Inductive Action :=
| AWaitReady | AStart (block : bool) | AStop
| ACancelParent | AParentDone | ACmdDone | AResult (now : Z) | AKilled
| AStarter (st : start_step) | ADie (c : nat)
| AServe (websocket statusRead : bool) | AEnter (i : nat) | ALeave (i : nat) (now : Z)
| AResponse (code : Z) (signature : bool)
| ATick (i : nat) (now : Z) (pinned : bool) | AHelperStop (i : nat) | AHelperReturn (i : nat).

Definition selecting (p : Proc) : bool := match p_point p with Select => true | _ => false end.

Definition act (a : Action) (p : Proc) : option Proc :=
  match a with
  | AWaitReady => if selecting p then Some (onWaitReady p) else None
  | AStart block => if selecting p then Some (onStart block p) else None
  | AStop => onStop p
  | ACancelParent => Some (set_parent p)
  | AParentDone => if p_parent p then onParentDone p else None
  | ACmdDone =>
    match p_cmd p with
    | Some c => if selecting p && negb (bool_decide (c ∈ p_live p)) then Some (onCmdDone p) else None
    | None => None
    end
  | AResult now => onResult now p
  | AKilled => onKilled p
  | AStarter st => onStarter st p
  | ADie c =>
    if decide (c ∈ p_live p)
    then Some (set_live p (List.filter (fun d => negb (Nat.eqb d c)) (p_live p)) None (p_nextChild p)) else None
  | AServe websocket statusRead => Some (serve websocket statusRead p)
  | AEnter i => enter i p
  | ALeave i now => leave i now p
  | AResponse code signature => Some (trackComputeErrorState code signature p)
  | ATick i now pinned => tick i now pinned p
  | AHelperStop i => helperStop i p
  | AHelperReturn i => helperReturn i p
  end.

Inductive run : Proc -> Prop :=
| run_start : run New
| run_step a p p' : run p -> act a p = Some p' -> run p'.

End process.
End Process.
