(* ===== verification/ProcessInv.v ===== *)
(** The life cycle of a child process: the invariant of the run goroutine in
    every interleaving with the goroutines around it. *)

From S2P Require Import Prelude SchedTypes Process.

Module ProcessInv.
Import Sched Process.

(** ** What the helpers of the run goroutine change *)
Definition add_answers (l : list answer) (p : Proc) : Proc :=
  mkProc (p_point p) (p_state p) (p_cmd p) (p_handler p) (readyWaiters p) (runResp p) (p_starter p) (p_cancelled p) (p_parent p) (p_live p) (p_registry p) (p_lastUse p) (p_inflight p) (p_errors p) (p_restarting p) (p_helpers p) (p_visits p)
    (p_answers p ++ l) (p_events p) (p_nextReq p) (p_nextChild p).

Definition wait_answers (err : option proc_error) (ws : list nat) : list answer :=
  map (fun w => mkAnswer w AskWait err) ws.
Definition run_answers (err : option proc_error) (r : option nat) : list answer :=
  match r with Some id => [mkAnswer id AskRun err] | None => [] end.

Lemma notifyWaiters_eq err p :
  notifyWaiters err p = set_parked (add_answers (wait_answers err (readyWaiters p)) p) [] (runResp p).
Proof.
  unfold notifyWaiters.
  assert (forall ws p, foldl (fun p w => respond w AskWait err p) p ws = add_answers (wait_answers err ws) p) as ->; [|done].
  induction ws as [|w ws IH]; intros q; simpl; [unfold add_answers; rewrite app_nil_r; by destruct q|].
  rewrite IH. unfold add_answers, respond. simpl. by rewrite <- app_assoc.
Qed.

Lemma respondRun_eq err p :
  respondRun err p = set_parked (add_answers (run_answers err (runResp p)) p) (readyWaiters p) None.
Proof.
  unfold respondRun, add_answers. destruct p as [? ? ? ? ? [] ]; simpl; [done|]. unfold set_parked. simpl. by rewrite app_nil_r.
Qed.

#[local] Arguments notifyWaiters : simpl never.
#[local] Arguments respondRun : simpl never.

(** The fields of a process as variables, and the helpers' sends as lists. *)
Ltac fields p := destruct p as [pt sta cmd hd ws rr sr cn pa lv rg lu fl er rs hs vs an ev nr nc]; simpl in *.
Ltac answers_eq := rewrite ?notifyWaiters_eq, ?respondRun_eq in *; simpl.

(** ** Who owns the child *)
Definition starter_child (st : starter) : option nat :=
  match st with
  | Checking _ c | Abandoning c _ | Result (inl c) => Some c
  | _ => None
  end.

Definition owner (p : Proc) : option nat :=
  match p_point p with
  | Select => p_cmd p
  | Waiting _ | Cancelled _ _ => starter_child (p_starter p)
  | Killing c _ => Some c
  | Returned => None
  end.

(** What holds where the run goroutine is. *)
Definition settled_at (p : Proc) : Prop :=
  match p_point p with
  | Select =>
    p_starter p = NoStart /\ p_handler p = p_cmd p /\
    match p_cmd p with
    | Some _ => p_state p = StateReady /\ readyWaiters p = []
    | None => p_state p = StateStopped /\ runResp p = None
    end
  | Waiting _ => p_starter p <> NoStart /\ p_cmd p = None /\ p_handler p = None /\ p_state p = StateStarting /\
      runResp p = None
  | Cancelled _ stop => p_starter p <> NoStart /\ p_cmd p = None /\ p_handler p = None /\ runResp p = None /\
      p_state p = (match stop with Some _ => StateStarting | None => StateShutdown end) /\ p_cancelled p = true
  | Killing c k =>
    p_starter p = NoStart /\
    match k with
    | KStop _ => p_cmd p = Some c /\ p_handler p = Some c /\ p_state p = StateStopping /\ readyWaiters p = []
    | KShutdown => p_cmd p = Some c /\ p_handler p = None /\ p_state p = StateShutdown /\ readyWaiters p = []
    | KStartStop _ _ => p_cmd p = None /\ p_handler p = None /\ p_state p = StateStarting /\ runResp p = None
    | KStartShutdown _ => p_cmd p = None /\ p_handler p = None /\ p_state p = StateShutdown /\ runResp p = None
    end
  | Returned => p_starter p = NoStart /\ p_cmd p = None /\ p_handler p = None /\ p_state p = StateShutdown /\
      readyWaiters p = [] /\ runResp p = None
  end.

(** ** The requests that are not answered yet *)
Definition option_ids (o : option nat) : list nat := match o with Some id => [id] | None => [] end.

Definition point_ids (pt : point) : list nat :=
  match pt with
  | Select | Returned => []
  | Waiting req => [s_respond req]
  | Cancelled req stop => s_respond req :: option_ids stop
  | Killing _ (KStop stop) => [stop]
  | Killing _ KShutdown => []
  | Killing _ (KStartStop req stop) => [s_respond req; stop]
  | Killing _ (KStartShutdown req) => [s_respond req]
  end.

Definition parked (p : Proc) : list nat := readyWaiters p ++ option_ids (runResp p) ++ point_ids (p_point p).

(** Requests inside [ServeHTTP] that count. *)
Definition counted (v : visit) : Z := match v with Inside _ true _ => 1 | _ => 0 end.

Record sound (p : Proc) : Prop := {
  s_live : p_live p = [] \/ exists c, owner p = Some c /\ p_live p = [c];
  s_registry : p_registry p = hd_error (p_live p);
  s_settled : settled_at p;
  s_inflight : p_inflight p = sumZ (map counted (p_visits p));
}.

Lemma sumZ_insert l i (v v' : visit) :
  l !! i = Some v -> sumZ (map counted (<[i := v']> l)) = sumZ (map counted l) - counted v + counted v'.
Proof.
  revert i. induction l as [|x l IH]; intros i Hi; [done|]. destruct i as [|i]; simpl in *.
  - injection Hi as ->. lia.
  - rewrite IH by done. lia.
Qed.

Lemma sumZ_snoc l (v : visit) : sumZ (map counted (l ++ [v])) = sumZ (map counted l) + counted v.
Proof. rewrite map_app, sumZ_app. simpl. lia. Qed.


(** Only the requests and the helpers move. *)
Definition aside (p p' : Proc) : Prop :=
  p_point p' = p_point p /\ p_state p' = p_state p /\ p_cmd p' = p_cmd p /\ p_handler p' = p_handler p /\
  readyWaiters p' = readyWaiters p /\ runResp p' = runResp p /\ p_starter p' = p_starter p /\
  p_cancelled p' = p_cancelled p /\ p_live p' = p_live p /\ p_registry p' = p_registry p /\
  p_answers p' = p_answers p /\ p_events p' = p_events p /\ p_nextReq p' = p_nextReq p.

Lemma sound_aside p p' :
  aside p p' -> p_inflight p' - sumZ (map counted (p_visits p')) = p_inflight p - sumZ (map counted (p_visits p)) ->
  sound p -> sound p'.
Proof.
  intros (E1 & E2 & E3 & E4 & E5 & E6 & E7 & E8 & E9 & E10 & _) Hi [H1 H2 H3 H4].
  split; unfold owner, settled_at in *; rewrite ?E1, ?E2, ?E3, ?E4, ?E5, ?E6, ?E7, ?E8, ?E9, ?E10; try done. lia.
Qed.

Section inv.
Variable cfg : ProcConfig.

(** The actions that leave the run goroutine and the child alone. *)
Definition bystander (a : Action) : bool :=
  match a with
  | ACancelParent | AServe _ _ | AEnter _ | ALeave _ _ | AResponse _ _ | ATick _ _ _ | AHelperReturn _ => true
  | _ => false
  end.

Lemma bystander_aside a p p' : bystander a = true -> act cfg a p = Some p' ->
  aside p p' /\ p_inflight p' - sumZ (map counted (p_visits p')) = p_inflight p - sumZ (map counted (p_visits p)).
Proof.
  intros Hb E. destruct a; try done; cbn [act] in E.
  - injection E as <-. done.
  - injection E as <-. unfold serve. destruct (p_handler p); [|done]. split; [done|]. simpl. rewrite sumZ_snoc. simpl. lia.
  - unfold enter in E. destruct (p_visits p !! i) as [[c ws sr| |]|] eqn:Ev; try done.
    destruct (_ && _); injection E as <-; (split; [done|]); simpl; rewrite (sumZ_insert _ _ _ _ Ev); simpl; lia.
  - unfold leave in E. destruct (p_visits p !! i) as [[|c cnt sr|]|] eqn:Ev; try done.
    destruct cnt; injection E as <-; (split; [done|]); simpl; rewrite (sumZ_insert _ _ _ _ Ev); simpl; lia.
  - injection E as <-. unfold trackComputeErrorState. repeat case_match; done.
  - unfold tick in E. repeat case_match; simplify_eq; done.
  - unfold helperReturn in E. repeat case_match; simplify_eq; done.
Qed.

(** The select. *)
Lemma live_none p : sound p -> owner p = None -> p_live p = [].
Proof. intros Hs Ho. destruct (s_live p Hs) as [?|(c & E & _)]; [done|congruence]. Qed.

Ltac at_point :=
  match goal with H : settled_at _ |- _ => unfold settled_at in H end.

Ltac solve_sound :=
  split; simpl; try done; unfold settled_at, owner in *; simpl; naive_solver.

Lemma sound_onStop p p' : sound p -> onStop p = Some p' -> sound p'.
Proof.
  intros [H1 H2 H3 H4]. unfold onStop, stopped. answers_eq. at_point. unfold owner in *.
  fields p.
  destruct pt; simpl; try done.
  - destruct cmd as [c|]; simpl; intros [= <-]; answers_eq; solve_sound.
  - intros [= <-]. solve_sound.
Qed.

Lemma sound_onParentDone p p' : sound p -> onParentDone p = Some p' -> sound p'.
Proof.
  intros [H1 H2 H3 H4]. unfold onParentDone, down. answers_eq. at_point. unfold owner in *. fields p.
  destruct pt; simpl; try done.
  - destruct cmd as [c|]; simpl; intros [= <-]; answers_eq; solve_sound.
  - intros [= <-]. answers_eq. solve_sound.
Qed.

Lemma sound_onCmdDone p c : sound p -> p_point p = Select -> p_cmd p = Some c -> c ∉ p_live p -> sound (onCmdDone p).
Proof.
  intros [H1 H2 H3 H4] Hp Hc Hn. unfold onCmdDone. answers_eq. at_point. unfold owner in *. fields p. subst pt cmd.
  assert (lv = []) as -> by (destruct H1 as [?|(d & [= <-] & ->)]; [done|destruct Hn; by left]). solve_sound.
Qed.

Lemma sound_onResult now p p' : sound p -> onResult cfg now p = Some p' -> sound p'.
Proof.
  intros [H1 H2 H3 H4]. unfold onResult, down. answers_eq. at_point. unfold owner in *. fields p.
  destruct pt as [|req|req [stop|]| |]; try done; destruct sr as [| | | |[c|err]]; try done; simpl in *.
  - intros [= <-]. answers_eq. destruct (s_block req), (0 <? UnloadAfter cfg); solve_sound.
  - intros [= <-]. answers_eq. solve_sound.
  - intros [= <-]. answers_eq. solve_sound.
  - intros [= <-]. answers_eq. solve_sound.
  - intros [= <-]. answers_eq. solve_sound.
  - intros [= <-]. answers_eq. solve_sound.
Qed.

Lemma sound_onKilled p p' : sound p -> onKilled p = Some p' -> sound p'.
Proof.
  intros [H1 H2 H3 H4]. unfold onKilled, stopped, down. at_point. unfold owner in *. fields p.
  destruct pt as [|req|req stop|c k|]; try done. destruct (decide (c ∈ lv)) as [|Hn]; [done|].
  assert (lv = []) as -> by (destruct H1 as [?|(d & [= <-] & ->)]; [done|destruct Hn; by left]).
  destruct k; intros [= <-]; simpl; answers_eq; solve_sound.
Qed.

Lemma sound_onStarter st p p' : sound p -> onStarter st p = Some p' -> sound p'.
Proof.
  intros [H1 H2 H3 H4]. unfold onStarter. at_point. unfold owner in *. fields p.
  destruct pt as [|req|req stop|d k|]; [destruct H3 as [-> _]; by destruct st| | |destruct H3 as [-> _]; by destruct st
    |destruct H3 as [-> _]; by destruct st];
    (destruct st, sr as [|ag|ag d|d e|res]; simpl; try done; intros E; repeat case_match; simplify_eq/=;
     split; simpl; try done; unfold settled_at, owner; simpl; try naive_solver);
    left; (destruct H1 as [|(? & [= <-] & ->)]; [done|by destruct n; left]).
Qed.

Lemma sound_die p c : sound p -> c ∈ p_live p ->
  sound (set_live p (List.filter (fun d => negb (Nat.eqb d c)) (p_live p)) None (p_nextChild p)).
Proof.
  intros [H1 H2 H3 H4] Hc.
  assert (List.filter (fun d => negb (Nat.eqb d c)) (p_live p) = []) as E.
  { destruct H1 as [E|(d & _ & E)]; rewrite E in *; [done|]. apply list_elem_of_singleton in Hc as ->.
    simpl. by rewrite Nat.eqb_refl. }
  rewrite E. split; simpl; try done. by left.
Qed.

Lemma sound_select p p' :
  sound p -> p_point p = Select -> (p' = onWaitReady p \/ exists block, p' = onStart block p) -> sound p'.
Proof.
  intros [H1 H2 H3 H4] Hp Hcase. at_point. unfold owner in *.
  destruct Hcase as [->|[block ->]]; unfold onWaitReady, onStart; fields p; subst pt;
    (destruct cmd as [c|]; destruct H3 as (-> & -> & -> & H3)); simpl; [solve_sound..| |];
    destruct block; simpl; solve_sound.
Qed.

Lemma act_sound a p p' : sound p -> act cfg a p = Some p' -> sound p'.
Proof.
  intros Hs E. destruct (bystander a) eqn:Hb.
  { destruct (bystander_aside a p p' Hb E) as [Ha Hi]. by eapply sound_aside. }
  destruct a; try done; cbn [act] in E.
  - unfold selecting in E. destruct (p_point p) eqn:Ep; try done. injection E as <-. apply (sound_select p); auto.
  - unfold selecting in E. destruct (p_point p) eqn:Ep; try done. injection E as <-. apply (sound_select p); eauto.
  - by apply (sound_onStop p).
  - destruct (p_parent p); [by apply (sound_onParentDone p)|done].
  - destruct (p_cmd p) as [c|] eqn:Ec; [|done]. destruct (selecting p && _) eqn:Eb; [|done]. injection E as <-.
    apply andb_true_iff in Eb as [Ep Hn%negb_true_iff%bool_decide_eq_false_1].
    unfold selecting in Ep. destruct (p_point p) eqn:Ep'; try done. by apply (sound_onCmdDone p c).
  - by eapply sound_onResult.
  - by eapply sound_onKilled.
  - by eapply sound_onStarter.
  - destruct (decide (c ∈ p_live p)); [|done]. injection E as <-. by apply sound_die.
  - unfold helperStop in E. destruct (p_helpers p !! i) as [[]|]; try done;
      (eapply sound_onStop; [|exact E]; apply (sound_aside p); done).
Qed.

Lemma run_sound p : run cfg p -> sound p.
Proof.
  induction 1 as [|a p p' _ IH E]; [|by eapply act_sound]. split; simpl; try done. by left.
Qed.

End inv.
End ProcessInv.
