(* ===== verification/ProcessAnswers.v ===== *)
(** What callers of a child process are told: every request is answered once,
    and the answer is true when it is sent. *)

From stdpp Require Import list_tactics.
From S2P Require Import Prelude SchedTypes Process ProcessInv.

Module ProcessAnswers.
Import Sched Process ProcessInv.

(** The answer [a] agrees with the process it leaves behind. *)
Definition tells_truth (p : Proc) (a : answer) : Prop :=
  match a_asked a, a_err a with
  | AskWait, None | AskEnsure, None => p_state p = StateReady /\ p_handler p <> None
  | AskStop, None | AskRun, None => p_state p = StateStopped /\ p_live p = []
  | AskStop, Some _ => False
  | AskRun, Some (ErrCannotStart s) => s = StateReady /\ p_state p = StateReady
  | _, Some (ErrCannotStart _) => False
  | _, Some ErrDown => p_state p = StateShutdown /\ p_live p = []
  | _, Some _ => p_state p = StateStopped /\ p_live p = []
  end.

(** From [p] to [p'], requests move from those that arrive and those that wait
    to those that are answered; only the end of the parent context drops one,
    the caller of the start it cuts short. *)
Record answers_step (p p' : Proc) (new : list answer) (lost : list nat) : Prop := {
  n_log : p_answers p' = p_answers p ++ new;
  n_true : Forall (tells_truth p') new;
  n_next : (p_nextReq p <= p_nextReq p')%nat;
  n_moves : map a_id new ++ lost ++ parked p' ≡ₚ
              seq (p_nextReq p) (p_nextReq p' - p_nextReq p) ++ parked p;
  n_lost : lost = [] \/ p_point p' = Returned /\ p_point p <> Returned /\ exists id, lost = [id];
  n_end : p_point p = Returned -> p_point p' = Returned;
}.

Lemma wait_ids err ws : map a_id (wait_answers err ws) = ws.
Proof. unfold wait_answers. rewrite map_map. apply List.map_id. Qed.

Lemma run_ids err r : map a_id (run_answers err r) = option_ids r.
Proof. by destruct r. Qed.

Lemma wait_true p err ws :
  tells_truth p (mkAnswer 0 AskWait err) -> Forall (tells_truth p) (wait_answers err ws).
Proof. intros H. apply Forall_map, Forall_true. intros w. exact H. Qed.

Lemma run_true p err r : tells_truth p (mkAnswer 0 AskRun err) -> Forall (tells_truth p) (run_answers err r).
Proof. intros H. destruct r; simpl; [by constructor|constructor]. Qed.

Lemma answers_stay p p' :
  p_answers p' = p_answers p -> p_nextReq p' = p_nextReq p -> parked p' = parked p ->
  (p_point p = Returned -> p_point p' = Returned) -> exists new lost, answers_step p p' new lost.
Proof.
  intros E1 E2 E3 E4. exists [], []. split; rewrite ?E1, ?E2, ?E3; try done; [by rewrite app_nil_r|by rewrite Nat.sub_diag|by left].
Qed.

Ltac perm :=
  rewrite ?map_app, ?wait_ids, ?run_ids; unfold parked; simpl;
  rewrite ?Nat.sub_diag, ?Nat.sub_succ_l, ?Nat.sub_diag by lia; simpl;
  rewrite ?app_nil_r; solve_Permutation.

(** The answers of a step: their log, their truth, their permutation. *)
Ltac answers_done :=
  split; simpl;
  [ first [rewrite <- ?app_assoc; reflexivity | by rewrite app_nil_r]
  | rewrite ?Forall_app; repeat split; repeat constructor;
    try (apply wait_true; simpl; unfold tells_truth; simpl); try (apply run_true; unfold tells_truth; simpl); try naive_solver
  | lia | perm | first [by left | right; split_and!; by eauto] | done ].

Section answers.
Variable cfg : ProcConfig.

Lemma answers_onStop p p' : sound p -> onStop p = Some p' -> exists new lost, answers_step p p' new lost.
Proof.
  intros [H1 H2 H3 H4]. unfold onStop, stopped. unfold settled_at, owner in *.
  fields p.
  destruct pt; simpl; try done.
  - destruct cmd as [c|]; simpl; intros [= <-].
    + exists [], []. answers_done.
    + destruct H1 as [->|(? & [=] & _)]. rewrite !respondRun_eq. eexists _, []. answers_done.
  - intros [= <-]. exists [], []. answers_done.
Qed.

Lemma answers_onParentDone p p' : sound p -> onParentDone p = Some p' -> exists new lost, answers_step p p' new lost.
Proof.
  intros [H1 H2 H3 H4]. unfold onParentDone, down, settled_at, owner in *. fields p.
  destruct pt; simpl; try done.
  - destruct cmd as [c|]; simpl; intros [= <-]; answers_eq.
    + exists [], []. answers_done.
    + destruct H1 as [->|(? & [=] & _)]. eexists _, []. answers_done.
  - intros [= <-]. exists [], []. answers_done.
Qed.

Lemma answers_onCmdDone p c :
  sound p -> p_point p = Select -> p_cmd p = Some c -> c ∉ p_live p -> exists new lost, answers_step p (onCmdDone p) new lost.
Proof.
  intros [H1 H2 H3 H4] Hp Hc Hn. unfold onCmdDone, settled_at, owner in *. fields p. subst pt cmd.
  assert (lv = []) as -> by (destruct H1 as [?|(d & [= <-] & ->)]; [done|destruct Hn; by left]).
  answers_eq. eexists _, []. answers_done.
Qed.

Lemma answers_onResult now p p' : sound p -> onResult cfg now p = Some p' -> exists new lost, answers_step p p' new lost.
Proof.
  intros [H1 H2 H3 H4]. unfold onResult, down, settled_at, owner in *. fields p.
  destruct pt as [|[id block]|[id block] [stop|]| |]; try done; destruct sr as [| | | |[c|err]]; try done; simpl in *;
    destruct H3 as (_ & -> & -> & H3).
  - intros [= <-]. destruct H3 as [-> ->]. answers_eq. destruct block, (0 <? UnloadAfter cfg); simpl; eexists _, []; answers_done.
  - intros [= <-]. destruct H3 as [-> ->]. destruct H1 as [->|(? & [=] & _)]. answers_eq. eexists _, [].
    answers_done; by destruct block.
  - intros [= <-]. exists [], []. answers_done.
  - intros [= <-]. destruct H1 as [->|(? & [=] & _)]. answers_eq. eexists _, []. answers_done; by destruct block.
  - intros [= <-]. exists [], []. answers_done.
  - intros [= <-]. destruct H1 as [->|(? & [=] & _)]. answers_eq. eexists _, [id]. answers_done.
Qed.

Lemma answers_onKilled p p' : sound p -> onKilled p = Some p' -> exists new lost, answers_step p p' new lost.
Proof.
  intros [H1 H2 H3 H4]. unfold onKilled, stopped, down, settled_at, owner in *. fields p.
  destruct pt as [|req|req stop|c k|]; try done. destruct (decide (c ∈ lv)) as [|Hn]; [done|].
  assert (lv = []) as -> by (destruct H1 as [?|(d & [= <-] & ->)]; [done|destruct Hn; by left]).
  destruct k as [stop| |[id block] stop|[id block]]; intros [= <-]; simpl; answers_eq.
  - eexists _, []. answers_done.
  - eexists _, []. answers_done.
  - eexists _, []. answers_done; by destruct block.
  - eexists _, [id]. answers_done.
Qed.

Lemma answers_select p p' :
  sound p -> p_point p = Select -> (p' = onWaitReady p \/ exists block, p' = onStart block p) ->
  exists new lost, answers_step p p' new lost.
Proof.
  intros [H1 H2 H3 H4] Hp Hcase. unfold settled_at, owner in *.
  destruct Hcase as [->|[block ->]]; unfold onWaitReady, onStart; fields p; subst pt;
    (destruct cmd as [c|]; destruct H3 as (-> & -> & -> & H3)); simpl; try destruct block; simpl;
    eexists _, []; answers_done.
Qed.

Lemma act_answers a p p' : sound p -> act cfg a p = Some p' -> exists new lost, answers_step p p' new lost.
Proof.
  intros Hs E. destruct (bystander a) eqn:Hb.
  { destruct (bystander_aside cfg a p p' Hb E) as [(E1 & E2 & E3 & E4 & E5 & E6 & E7 & E8 & E9 & E10 & E11 & E12 & E13) _].
    apply answers_stay; try congruence. unfold parked. congruence. }
  destruct a; try done; cbn [act] in E.
  - unfold selecting in E. destruct (p_point p) eqn:Ep; try done. injection E as <-. apply answers_select; auto.
  - unfold selecting in E. destruct (p_point p) eqn:Ep; try done. injection E as <-. apply answers_select; eauto.
  - by apply answers_onStop.
  - destruct (p_parent p); [by apply answers_onParentDone|done].
  - destruct (p_cmd p) as [c|] eqn:Ec; [|done]. destruct (selecting p && _) eqn:Eb; [|done]. injection E as <-.
    apply andb_true_iff in Eb as [Ep Hn%negb_true_iff%bool_decide_eq_false_1].
    unfold selecting in Ep. destruct (p_point p) eqn:Ep'; try done. by apply (answers_onCmdDone p c).
  - by eapply answers_onResult.
  - by eapply answers_onKilled.
  - unfold onStarter in E. apply answers_stay; repeat case_match; by simplify_eq/=.
  - destruct (decide (c ∈ p_live p)); [|done]. injection E as <-. by apply answers_stay.
  - unfold helperStop in E. destruct (p_helpers p !! i) as [[]|]; try done;
      (eapply answers_onStop in E; [|apply (sound_aside p); [done|done|exact Hs]];
       destruct E as (new & lost & [A1 A2 A3 A4 A5 A6]); exists new, lost; split; assumption).
Qed.

Lemma seq_split n m : (n <= m)%nat -> seq 0 m = seq 0 n ++ seq n (m - n).
Proof. intros H. replace m with (n + (m - n))%nat at 1 by lia. by rewrite seq_app. Qed.

(** Every request is answered, or waits, or was cut short by the end. *)
Lemma run_answered p : run cfg p ->
  exists lost, map a_id (p_answers p) ++ lost ++ parked p ≡ₚ seq 0 (p_nextReq p) /\
    (lost = [] \/ p_point p = Returned /\ exists id, lost = [id]).
Proof.
  intros Hr. induction Hr as [|a p p' Hr IH E]; [exists []; by split; [|left]|].
  destruct IH as (lost & P & Hl).
  destruct (act_answers a p p' (run_sound cfg p Hr) E) as (new & more & [A1 A2 A3 A4 A5 A6]).
  exists (lost ++ more). split.
  - rewrite A1, (seq_split _ _ A3), <- P, map_app.
    transitivity (map a_id (p_answers p) ++ lost ++ (map a_id new ++ more ++ parked p')); [solve_Permutation|].
    rewrite A4. solve_Permutation.
  - destruct Hl as [->|(Hp & id & ->)].
    + destruct A5 as [->|(? & ? & ?)]; [by left|by right].
    + destruct A5 as [->|(? & ? & ?)]; [|done]. right. split; [by apply A6|by exists id].
Qed.

(** ** The run goroutine always comes back *)

(** The steps of the starting goroutine, of the child's end, and of the run
    goroutine outside its select. *)
Definition internal (a : Action) : bool :=
  match a with AResult _ | AKilled | AStarter _ | ADie _ => true | _ => false end.

Definition starter_steps (st : starter) : nat :=
  match st with
  | NoStart => 0
  | Result _ => 1
  | Abandoning _ _ => 3
  | Checking true _ => 5
  | Launching true => 7
  | Checking false _ => 9
  | Launching false => 11
  end.

Definition point_steps (pt : point) : nat :=
  match pt with Select | Returned => 0 | Killing _ _ => 1 | Waiting _ | Cancelled _ _ => 3 end.

Definition steps_left (p : Proc) : nat := starter_steps (p_starter p) + point_steps (p_point p) + length (p_live p).

Definition idle (p : Proc) : Prop := p_point p = Select \/ p_point p = Returned.

Lemma starter_progress p :
  p_starter p <> NoStart -> (forall res, p_starter p = Result res -> is_Some (onResult cfg 0 p)) ->
  exists a p', internal a = true /\ act cfg a p = Some p'.
Proof.
  intros Hn Hres. destruct (p_starter p) as [|again|again c|c err|res] eqn:Es; [done|..].
  - exists (AStarter SSpawn). simpl. rewrite Es. eauto.
  - exists (AStarter SHealthy). simpl. rewrite Es. eauto.
  - destruct (decide (c ∈ p_live p)) as [Hc|Hc].
    + exists (ADie c). simpl. rewrite decide_True by done. eauto.
    + exists (AStarter SKilled). simpl. rewrite Es, decide_False by done. eauto.
  - destruct (Hres res eq_refl) as [p' E]. exists (AResult 0). eauto.
Qed.

Lemma internal_progress p : sound p -> idle p \/ exists a p', internal a = true /\ act cfg a p = Some p'.
Proof.
  intros [H1 H2 H3 H4]. unfold settled_at, idle in *. destruct (p_point p) as [|req|req stop|c k|] eqn:Ep; auto; right.
  - apply starter_progress; [by destruct H3|]. intros res Es. unfold onResult. rewrite Ep, Es. destruct res; eauto.
  - apply starter_progress; [by destruct H3|]. intros res Es. unfold onResult. rewrite Ep, Es. destruct res, stop; eauto.
  - destruct (decide (c ∈ p_live p)) as [Hc|Hc].
    + exists (ADie c). simpl. rewrite decide_True by done. eauto.
    + exists AKilled. simpl. unfold onKilled. rewrite Ep, decide_False by done. destruct k; eauto.
Qed.

Lemma filter_length_in (l : list nat) c :
  c ∈ l -> (length (List.filter (fun d => negb (Nat.eqb d c)) l) < length l)%nat.
Proof.
  induction l as [|d l IH]; [intros Hc; by apply elem_of_nil in Hc|]. simpl.
  destruct (Nat.eqb_spec d c) as [->|Hne]; simpl.
  - intros _. pose proof (List.filter_length_le (fun d => negb (Nat.eqb d c)) l). lia.
  - intros [->|Hc]%elem_of_cons; [done|]. specialize (IH Hc). lia.
Qed.

Lemma internal_decreases a p p' : internal a = true -> act cfg a p = Some p' -> (steps_left p' < steps_left p)%nat.
Proof.
  intros Hi. unfold steps_left. destruct a as [| | | | | |now| |st|c| | | | | | |]; try done; cbn [act]; clear Hi.
  - unfold onResult, down. destruct (p_point p) as [|req|req [stop|]| |] eqn:Ep; try done;
      destruct (p_starter p) as [| | | |[c|err]] eqn:Es; try done; intros [= <-]; answers_eq; rewrite ?Ep; try lia.
    destruct (s_block req), (0 <? UnloadAfter cfg); simpl; lia.
  - unfold onKilled, stopped, down. destruct (p_point p) as [|req|req stop|c k|] eqn:Ep; try done.
    destruct (decide _); [done|]. destruct k; intros [= <-]; answers_eq; lia.
  - unfold onStarter. destruct st, (p_starter p) as [|[]|[] c|c e|res] eqn:Es; try done; intros E;
      repeat case_match; simplify_eq/=; lia.
  - destruct (decide (c ∈ p_live p)) as [Hc|]; [|done]. intros [= <-]. simpl.
    pose proof (filter_length_in _ _ Hc). lia.
Qed.

Fixpoint perform (acts : list Action) (p : Proc) : option Proc :=
  match acts with
  | [] => Some p
  | a :: acts => match act cfg a p with Some p' => perform acts p' | None => None end
  end.

Lemma perform_run acts p p' : run cfg p -> perform acts p = Some p' -> run cfg p'.
Proof.
  revert p. induction acts as [|a acts IH]; intros p Hp; simpl; [by intros [= <-]|].
  destruct (act cfg a p) as [p1|] eqn:E; [|done]. apply IH. by eapply run_step.
Qed.

Lemma perform_decreases acts p p' :
  Forall (fun a => internal a = true) acts -> perform acts p = Some p' ->
  (length acts + steps_left p' <= steps_left p)%nat.
Proof.
  intros Ha. revert p. induction Ha as [|a acts Hi Ha IH]; intros p; simpl; [by intros [= <-]|].
  destruct (act cfg a p) as [p1|] eqn:E; [|done]. intros Hp. specialize (IH p1 Hp).
  pose proof (internal_decreases a p p1 Hi E). lia.
Qed.

Lemma steps_bounded p : sound p -> (steps_left p <= 15)%nat.
Proof.
  intros [H1 _ H3 _]. unfold steps_left, settled_at, owner in *.
  assert (length (p_live p) <= 1)%nat by (destruct H1 as [->|(c & _ & ->)]; simpl; lia).
  destruct (p_point p); simpl; try (destruct H3 as [-> _]; simpl; lia);
    destruct (p_starter p) as [|[]|[] c|c e|res]; simpl; lia.
Qed.

End answers.
End ProcessAnswers.
