(* ===== verification/ProcessSpec.v ===== *)
(** What a supervised child process promises: one child at a time, lawful state
    changes, true answers to every caller, and a run goroutine that always comes
    back; and the idle timer's one broken promise. *)

From S2P Require Import Prelude SchedTypes Process ProcessInv ProcessAnswers.

Module ProcessSpec.
Import Sched Process ProcessInv ProcessAnswers.

(** The transitions of [ProcessState]. *)
Definition edge (s s' : ProcessState) : bool :=
  match s, s' with
  | StateStopped, (StateStarting | StateShutdown)
  | StateStarting, (StateReady | StateStopped | StateShutdown)
  | StateReady, (StateStopping | StateStopped | StateShutdown)
  | StateStopping, StateStopped => true
  | _, _ => false
  end.

(** [evs] is a path of transitions from [s] to [s']. *)
Fixpoint path (s : ProcessState) (evs : list (ProcessState * ProcessState)) (s' : ProcessState) : Prop :=
  match evs with
  | [] => s = s'
  | (a, b) :: evs => a = s /\ edge a b = true /\ path b evs s'
  end.

Lemma path_snoc s evs s1 s2 : path s evs s1 -> edge s1 s2 = true -> path s (evs ++ [(s1, s2)]) s2.
Proof.
  revert s. induction evs as [|[a b] evs IH]; intros s; simpl; [by intros ->|].
  intros (-> & He & Hp) Hs. split_and!; [done|done|by apply IH].
Qed.

Section spec.
Variable cfg : ProcConfig.

Definition moves_state (p p' : Proc) : Prop :=
  p_events p' = p_events p /\ p_state p' = p_state p \/
  p_events p' = p_events p ++ [(p_state p, p_state p')] /\ edge (p_state p) (p_state p') = true.

Lemma moves_onStop p p' : sound p -> onStop p = Some p' -> moves_state p p'.
Proof.
  intros [H1 H2 H3 H4]. unfold onStop, stopped, settled_at, moves_state in *. fields p.
  destruct pt; simpl; try done; [destruct cmd as [c|]|]; intros [= <-]; answers_eq; simpl; repeat case_decide; naive_solver.
Qed.

Lemma act_moves a p p' : sound p -> act cfg a p = Some p' -> moves_state p p'.
Proof.
  intros Hs E. destruct (bystander a) eqn:Hb.
  { destruct (bystander_aside cfg a p p' Hb E) as [(E1 & E2 & E3 & E4 & E5 & E6 & E7 & E8 & E9 & E10 & E11 & E12 & E13) _].
    by left. }
  pose proof Hs as [H1 H2 H3 H4]. destruct a as [|block| | | | |now| |st|c| | | | | |i|]; try done; cbn [act] in E.
  - unfold selecting in E. destruct (p_point p) eqn:Ep; try done. injection E as <-. left. unfold onWaitReady.
    simpl. destruct (p_state p) eqn:Est; by rewrite <- ?Est.
  - unfold selecting, settled_at in *. destruct (p_point p) eqn:Ep; try done. injection E as <-. unfold onStart, moves_state.
    fields p. destruct cmd; destruct H3 as (_ & _ & -> & _); destruct block; simpl; naive_solver.
  - by apply moves_onStop.
  - destruct (p_parent p); [|done]. unfold onParentDone, down, settled_at, moves_state in *.
    fields p.
    destruct pt; simpl in *; try done; [destruct cmd as [c|]|]; injection E as <-; answers_eq; repeat case_decide; naive_solver.
  - destruct (p_cmd p) as [c|] eqn:Ec; [|done]. destruct (selecting p && _) eqn:Eb; [|done]. injection E as <-.
    apply andb_true_iff in Eb as [Ep _]. unfold selecting, settled_at, onCmdDone, moves_state in *.
    destruct (p_point p); try done. rewrite Ec in H3. destruct H3 as (_ & _ & Hst & _). answers_eq. rewrite Hst. by right.
  - unfold onResult, down, settled_at, moves_state in *.
    fields p.
    destruct pt as [|[id block]|[id block] [stop|]| |]; try done; destruct sr as [| | | |[c|err]]; try done; simpl in *;
      injection E as <-; answers_eq; try (destruct block, (0 <? UnloadAfter cfg)); simpl; repeat case_decide; naive_solver.
  - unfold onKilled, stopped, down, settled_at, moves_state in *.
    fields p.
    destruct pt as [|req|req stop|c k|]; try done. destruct (decide (c ∈ lv)); [done|].
    destruct k; injection E as <-; answers_eq; repeat case_decide; naive_solver.
  - unfold onStarter in E. left. repeat case_match; by simplify_eq/=.
  - destruct (decide (c ∈ p_live p)); [|done]. injection E as <-. by left.
  - unfold helperStop in E. destruct (p_helpers p !! i) as [[]|]; try done;
      (apply moves_onStop in E; [exact E|apply (sound_aside p); [done|done|exact Hs]]).
Qed.

Lemma run_path p : run cfg p -> path StateStopped (p_events p) (p_state p).
Proof.
  induction 1 as [|a p p' Hr IH E]; [done|].
  destruct (act_moves a p p' (run_sound cfg p Hr) E) as [[-> ->]|[-> He]]; [done|]. by apply path_snoc.
Qed.

End spec.
(** ** Concrete runs *)

(** A model that is unloaded after a minute of idleness. *)
Definition ex_proc : ProcConfig := mkProcConfig 60 false.
Definition secs (t : Z) : Z := t * nsec_second.

Definition start_up (now : Z) : list Action :=
  [ AStart false; AStarter SSpawn; AStarter SHealthy; AResult now ].

(** A caller waits, the process starts, a Run is refused, the child dies. *)
Definition crash : list Action :=
  [AWaitReady] ++ start_up (secs 100) ++ [AStart true; ADie 0; ACmdDone; AStop].

(** A start that a Stop cuts short once its child runs. *)
Definition cut_short : list Action := [ AStart true; AStarter SSpawn; AStop ].

(** The timer of the first child decides to unload it; before its Stop is taken,
    the process is restarted and serves a request. *)
Definition late_unload : list Action :=
  start_up (secs 100) ++ [ ATick 0 (secs 161) false; AStop; ADie 0; AKilled ] ++
  start_up (secs 162) ++ [ AServe false false; AEnter 0; AHelperStop 0 ].

Definition performed (acts : list Action) : Proc := default New (perform ex_proc acts New).

Lemma performed_run acts : run ex_proc (performed acts).
Proof.
  unfold performed. destruct (perform ex_proc acts New) as [p|] eqn:E; [|apply run_start].
  eapply perform_run; [apply run_start|exact E].
Qed.

(** ** The promises *)

(** C22. In every interleaving at most one child runs, and the live registry
    lists exactly that one.  A stopped process has no child and publishes no
    handler; a ready one publishes the handler of the child it holds; once the
    run goroutine returned nothing is left.  The published states follow the
    life cycle, and the in-flight count is the number of counted requests. *)
Theorem child_lifecycle (cfg : ProcConfig) (p : Proc) (Hp : run cfg p) :
  (length (p_live p) <= 1)%nat /\ p_registry p = hd_error (p_live p) /\
  (p_state p = StateStopped -> p_live p = [] /\ p_handler p = None) /\
  (p_state p = StateReady -> exists c, p_cmd p = Some c /\ p_handler p = Some c) /\
  (p_point p = Returned -> p_state p = StateShutdown /\ p_live p = [] /\ p_handler p = None) /\
  path StateStopped (p_events p) (p_state p) /\
  p_inflight p = sumZ (map counted (p_visits p)).
Proof.
  pose proof (run_sound cfg p Hp) as [H1 H2 H3 H4]. split_and!; [|done| | | |by eapply run_path|done].
  - destruct H1 as [->|(c & _ & ->)]; simpl; lia.
  - intros Hs. unfold settled_at, owner in *.
    destruct (p_point p) as [|req|req [stop|]|c []|]; [destruct (p_cmd p)|..]; destruct_and? H3; try congruence.
    split; [|congruence]. by destruct H1 as [?|(c & ? & _)].
  - intros Hs. unfold settled_at in *.
    destruct (p_point p) as [|req|req [stop|]|c []|]; [destruct (p_cmd p) as [c|]|..]; destruct_and? H3; try congruence.
    by exists c.
  - intros Hr. unfold settled_at, owner in *. rewrite Hr in *. naive_solver.
Qed.

Lemma child_lifecycle_witness :
  p_state (performed crash) = StateStopped /\ p_live (performed crash) = [] /\
  path StateStopped [(StateStopped, StateStarting); (StateStarting, StateReady); (StateReady, StateStopped)] StateStopped.
Proof.
  destruct (child_lifecycle ex_proc (performed crash) (performed_run crash)) as (_ & _ & H1 & _ & _ & H2 & _).
  assert (p_state (performed crash) = StateStopped) as E by (vm_compute; reflexivity).
  split; [exact E|]. split; [exact (proj1 (H1 E))|]. exact H2.
Defined.

(** C23. Every request to the run goroutine is answered at most once and is
    otherwise still waiting (the caller of a start that the end of the parent
    context cuts short excepted, who watches that context), and every answer is
    true when it is sent: nil from WaitReady and EnsureReady means ready, nil
    from Stop and Run means stopped with no child left, an error means that the
    process is stopped or shut down with no child left, and only a second Run
    of a ready process is refused. *)
Theorem callers_told_truth (cfg : ProcConfig) (p : Proc) (Hp : run cfg p) :
  NoDup (map a_id (p_answers p)) /\
  (exists lost, map a_id (p_answers p) ++ lost ++ parked p ≡ₚ seq 0 (p_nextReq p) /\
     (lost = [] \/ p_point p = Returned /\ exists id, lost = [id])) /\
  (forall a p', act cfg a p = Some p' ->
     exists new, p_answers p' = p_answers p ++ new /\ Forall (tells_truth p') new).
Proof.
  destruct (run_answered cfg p Hp) as (lost & P & Hl). split_and!.
  - pose proof (NoDup_seq 0 (p_nextReq p)) as Hn. rewrite <- P in Hn. by apply NoDup_app in Hn as [? _].
  - by exists lost.
  - intros a p' E. destruct (act_answers cfg a p p' (run_sound cfg p Hp) E) as (new & more & [A1 A2 _ _ _ _]).
    by exists new.
Qed.

Lemma callers_told_truth_witness :
  p_answers (performed crash) =
    [ mkAnswer 0 AskWait None; mkAnswer 1 AskEnsure None; mkAnswer 2 AskRun (Some (ErrCannotStart StateReady));
      mkAnswer 3 AskStop None ] /\
  NoDup [0; 1; 2; 3]%nat.
Proof.
  split; [vm_compute; reflexivity|].
  exact (proj1 (callers_told_truth ex_proc (performed crash) (performed_run crash))).
Defined.

(** The run goroutine always comes back to its select or returns: from any
    state, whatever the starting goroutine does and whenever children die, at
    most fifteen such steps follow one another, and when no further one is
    possible the run goroutine is in its select or has returned. *)
Theorem run_goroutine_returns (cfg : ProcConfig) (p p' : Proc) (acts : list Action)
    (Hp : run cfg p) (Hacts : Forall (fun a => internal a = true) acts)
    (Hrun : perform cfg acts p = Some p') :
  (length acts <= 15)%nat /\
  ((forall a, internal a = true -> act cfg a p' = None) -> p_point p' = Select \/ p_point p' = Returned).
Proof.
  split.
  - pose proof (perform_decreases cfg acts p p' Hacts Hrun). pose proof (steps_bounded p (run_sound cfg p Hp)). lia.
  - intros Hstuck. destruct (internal_progress cfg p' (run_sound cfg p' (perform_run cfg acts p p' Hp Hrun)))
      as [?|(a & p1 & Ha & E)]; [done|]. by rewrite (Hstuck a Ha) in E.
Qed.

Definition aborted : list Action := [ AStarter SAbort; ADie 0; AStarter SKilled; AResult 0 ].

Lemma run_goroutine_returns_witness :
  (length aborted <= 15)%nat /\ p_point (performed (cut_short ++ aborted)) = Select.
Proof.
  destruct (perform ex_proc aborted (performed cut_short)) as [p'|] eqn:E; [|vm_compute in E; discriminate E].
  split; [|vm_compute; reflexivity].
  refine (proj1 (run_goroutine_returns ex_proc (performed cut_short) p' aborted (performed_run cut_short) _ E)).
  repeat constructor.
Defined.

(** The idle timer can stop a process in the middle of a response, and one
    that was just restarted: it looks at the state, the requests in flight and
    the last use, and only then asks for the Stop, which stops whatever child
    runs when it is taken. *)
Theorem idle_timer_race :
  exists p stop,
    run ex_proc p /\ p_helpers p !! 0%nat = Some (TtlInStop stop) /\ p_point p = Killing 1 (KStop stop) /\
    p_visits p !! 0%nat = Some (Inside 1 true false) /\ p_inflight p = 1 /\ p_lastUse p = secs 162.
Proof.
  exists (performed late_unload), 3%nat. split; [apply performed_run|].
  split_and!; vm_compute; reflexivity.
Qed.

End ProcessSpec.
