(* ===== verification/SlotAffinity.v ===== *)
(** Session lanes ([internal/server/slot_affinity.go]): which slot of a model
    each session is pinned to, and the middleware that pins the requests.  The
    store's mutex makes every operation atomic.  The clock reading of an
    operation is its argument [now], the order in which it ranges over the map
    of sessions its argument [range]. *)

From stdpp Require Import pretty.
From S2P Require Import Prelude.

Module SlotAffinity.

Definition slotAffinityMaxSessions : Z := 256.
Definition slotAffinityMinLearnInputTokens : Z := 2048.
Definition slotAffinityMinInjectBodyBytes : Z := 16384.
Definition slotAffinityActiveWindow : Z := 15 * nsec_minute.
Definition slotAffinityLiveWindow : Z := 2 * nsec_minute.

(** [strconv.Atoi]: an optional sign, then decimal digits, within 64 bits. *)
Fixpoint parse_digits (acc : Z) (s : string) : option Z :=
  match s with
  | EmptyString => Some acc
  | String c s =>
    let d := Z.of_nat (Ascii.nat_of_ascii c) - 48 in
    if (0 <=? d) && (d <=? 9) then parse_digits (10 * acc + d) s else None
  end.

Definition parse_unsigned (s : string) : option Z :=
  match s with EmptyString => None | _ => parse_digits 0 s end.

Definition Atoi (s : string) : option Z :=
  let z := match s with
           | String c r =>
             if (Ascii.nat_of_ascii c =? 45)%nat then Z.opp <$> parse_unsigned r
             else if (Ascii.nat_of_ascii c =? 43)%nat then parse_unsigned r
             else parse_unsigned s
           | EmptyString => None
           end in
  z ≫= fun z => if (min_int64 <=? z) && (z <=? max_int64) then Some z else None.

(** The fields of a model's configuration that matter here. *)
Record ModelConfig := mkModelConfig {
  SlotAffinity_ : bool;
  SlotsEndpoint : option bool;
  ConcurrencyLimit : Z;
}.

Definition HasSlotsEndpoint (mc : ModelConfig) : bool := default true (SlotsEndpoint mc).

Record slotAffinityEntry := mkEntry {
  slot : Z;
  seen : Z;
  assigned : Z;
  inflight : Z;
  lastEnd : Z;
}.

Notation sessions := (gmap string slotAffinityEntry).

Record slotAffinityStore := mkStore {
  cfg : gmap string ModelConfig;
  maxSessions : Z;
  minLearnInputTokens : Z;
  minInjectBodyBytes : Z;
  activeWindow : Z;
  liveWindow : Z;
  byModel : gmap string sessions;
  resolveResident : option (string -> option string);
}.

Definition newSlotAffinityStore (cfg : gmap string ModelConfig) : slotAffinityStore :=
  mkStore cfg slotAffinityMaxSessions slotAffinityMinLearnInputTokens slotAffinityMinInjectBodyBytes
    slotAffinityActiveWindow slotAffinityLiveWindow ∅ None.

Definition set_byModel (s : slotAffinityStore) (m : gmap string sessions) : slotAffinityStore :=
  mkStore (cfg s) (maxSessions s) (minLearnInputTokens s) (minInjectBodyBytes s)
    (activeWindow s) (liveWindow s) m (resolveResident s).

(** [s.byModel[modelID]]; a nil map reads as an empty one. *)
Definition lanes (s : slotAffinityStore) (modelID : string) : sessions :=
  default ∅ (byModel s !! modelID).

Definition put_lanes (s : slotAffinityStore) (modelID : string) (m : sessions) : slotAffinityStore :=
  set_byModel s (<[modelID := m]> (byModel s)).

(** When a session last started or ended a request. *)
Definition last_use (e : slotAffinityEntry) : Z :=
  if after (lastEnd e) (seen e) then lastEnd e else seen e.

Definition liveLocked (s : slotAffinityStore) (e : slotAffinityEntry) (now : Z) : bool :=
  if 0 <? inflight e then true else time_sub now (last_use e) <=? liveWindow s.

Definition affinityLaneKey (metadata : gmap string string) : string :=
  let sessionID := default "" (metadata !! "session_id") in
  if String.eqb sessionID "" then ""
  else
    let agentID := default "" (metadata !! "agent_id") in
    if negb (String.eqb agentID "") then (sessionID +:+ "/" +:+ agentID)%string else sessionID.

Definition enabled (s : slotAffinityStore) (modelID : string) : bool :=
  match cfg s !! modelID with
  | Some mc => SlotAffinity_ mc && HasSlotsEndpoint mc
  | None => false
  end.

Section Range.
Context (range : sessions -> list (string * slotAffinityEntry)).

(** One session of [slotLoadLocked]. *)
Definition load_step (s : slotAffinityStore) (exclude : string) (nSlots now : Z)
  (acc : list Z * list Z) (ke : string * slotAffinityEntry) : list Z * list Z :=
  let '(live, lastUsed) := acc in
  let '(key, e) := ke in
  if (slot e <? 0) || (nSlots <=? slot e) then acc
  else
    let i := Z.to_nat (slot e) in
    let last := last_use e in
    let lastUsed := if after last (lastUsed !!! i) then <[i := last]> lastUsed else lastUsed in
    if negb (String.eqb key exclude) && liveLocked s e now
    then (<[i := live !!! i + 1]> live, lastUsed) else (live, lastUsed).

Definition slotLoadLocked (s : slotAffinityStore) (ss : sessions) (exclude : string) (nSlots now : Z)
  : list Z * list Z :=
  foldl (load_step s exclude nSlots now)
    (replicate (Z.to_nat nSlots) 0, replicate (Z.to_nat nSlots) 0) (range ss).

Definition pick_step (live lastUsed : list Z) (best id : nat) : nat :=
  if live !!! id <? live !!! best then id
  else if (live !!! id =? live !!! best) && before (lastUsed !!! id) (lastUsed !!! best) then id
  else best.

Definition pickSlotLocked (live lastUsed : list Z) : nat :=
  foldl (pick_step live lastUsed) 0%nat (seq 1 (length live - 1)).

Definition oldest_step (acc : option (string * Z)) (ke : string * slotAffinityEntry) : option (string * Z) :=
  match acc with
  | None => Some (ke.1, seen ke.2)
  | Some (_, oldest) => if before (seen ke.2) oldest then Some (ke.1, seen ke.2) else acc
  end.

Definition evictOldestLocked (ss : sessions) : sessions :=
  match foldl oldest_step None (range ss) with
  | Some (oldestKey, _) => delete oldestKey ss
  | None => ss
  end.

(** The eviction of [learn] and [assign] when the map is full. *)
Definition make_room (s : slotAffinityStore) (ss : sessions) : sessions :=
  if maxSessions s <=? Z.of_nat (size ss) then evictOldestLocked ss else ss.

Definition learn (s : slotAffinityStore) (modelID sessionID : string) (slot_ now : Z) : slotAffinityStore :=
  if negb (enabled s modelID) || String.eqb sessionID "" || (slot_ <? 0) then s
  else
    let ss := lanes s modelID in
    let exists_ := ss !! sessionID in
    let e := default (mkEntry 0 0 0 0 0) exists_ in
    let ss := if negb (bool_decide (is_Some exists_)) then make_room s ss else ss in
    let assigned_ := if negb (bool_decide (is_Some exists_)) || negb (slot e =? slot_) then now else assigned e in
    put_lanes s modelID (<[sessionID := mkEntry slot_ now assigned_ (inflight e) (lastEnd e)]> ss).

Definition set_seen (e : slotAffinityEntry) (now : Z) : slotAffinityEntry :=
  mkEntry (slot e) now (assigned e) (inflight e) (lastEnd e).

Definition lookup_ (s : slotAffinityStore) (modelID sessionID : string) (now : Z)
  : option Z * slotAffinityStore :=
  if negb (enabled s modelID) || String.eqb sessionID "" then (None, s)
  else match lanes s modelID !! sessionID with
       | None => (None, s)
       | Some e => (Some (slot e), put_lanes s modelID (<[sessionID := set_seen e now]> (lanes s modelID)))
       end.

Definition assign (s : slotAffinityStore) (modelID sessionID : string) (nSlots now : Z)
  : option Z * slotAffinityStore :=
  if negb (enabled s modelID) || String.eqb sessionID "" || (nSlots <=? 1) then (None, s)
  else
    let ss := lanes s modelID in
    match ss !! sessionID with
    | Some e => (Some (slot e), put_lanes s modelID (<[sessionID := set_seen e now]> ss))
    | None =>
      let '(live, lastUsed) := slotLoadLocked s ss sessionID nSlots now in
      let best := Z.of_nat (pickSlotLocked live lastUsed) in
      (Some best, put_lanes s modelID (<[sessionID := mkEntry best now now 0 0]> (make_room s ss)))
    end.

(** [other] was placed on its slot before the session asking. *)
Definition older (key : string) (other : slotAffinityEntry) (sessionID : string) (e : slotAffinityEntry) : bool :=
  before (assigned other) (assigned e) || ((assigned other =? assigned e) && String.ltb key sessionID).

Definition shared_with_older (s : slotAffinityStore) (ss : sessions) (sessionID : string)
  (e : slotAffinityEntry) (now : Z) : bool :=
  existsb (fun ke => negb (String.eqb ke.1 sessionID || negb (slot ke.2 =? slot e) || negb (liveLocked s ke.2 now)) &&
                     older ke.1 ke.2 sessionID e) (range ss).

(** The entry after the collision check of [lookupRepair]. *)
Definition repair (s : slotAffinityStore) (ss : sessions) (sessionID : string) (e : slotAffinityEntry)
  (nSlots now : Z) : slotAffinityEntry :=
  if (1 <? nSlots) && (0 <=? slot e) && (slot e <? nSlots) && shared_with_older s ss sessionID e now then
    let '(live, lastUsed) := slotLoadLocked s ss sessionID nSlots now in
    let target := pickSlotLocked live lastUsed in
    if (live !!! target =? 0) && negb (Z.of_nat target =? slot e)
    then mkEntry (Z.of_nat target) (seen e) now (inflight e) (lastEnd e) else e
  else e.

Definition lookupRepair (s : slotAffinityStore) (modelID sessionID : string) (nSlots now : Z)
  : option Z * slotAffinityStore :=
  if negb (enabled s modelID) || String.eqb sessionID "" then (None, s)
  else
    let ss := lanes s modelID in
    match ss !! sessionID with
    | None => (None, s)
    | Some e =>
      let e := set_seen (repair s ss sessionID e nSlots now) now in
      (Some (slot e), put_lanes s modelID (<[sessionID := e]> ss))
    end.

Definition adjustInflight (s : slotAffinityStore) (modelID sessionID : string) (delta now : Z) : slotAffinityStore :=
  if String.eqb sessionID "" then s
  else match lanes s modelID !! sessionID with
       | None => s
       | Some e =>
         let n := if inflight e + delta <? 0 then 0 else inflight e + delta in
         let ended := if delta <? 0 then now else lastEnd e in
         put_lanes s modelID
           (<[sessionID := mkEntry (slot e) (seen e) (assigned e) n ended]> (lanes s modelID))
       end.

Definition begin (s : slotAffinityStore) (modelID sessionID : string) (now : Z) : slotAffinityStore :=
  adjustInflight s modelID sessionID 1 now.

Definition end_ (s : slotAffinityStore) (modelID sessionID : string) (now : Z) : slotAffinityStore :=
  adjustInflight s modelID sessionID (-1) now.

Record HotSlot := mkHotSlot { hs_Slot : Z; hs_SessionID : string; IdleSeconds : Z }.

Definition hot_step (nSlots cutoff now : Z) (out : list HotSlot) (ke : string * slotAffinityEntry) : list HotSlot :=
  let '(sessionID, e) := ke in
  if (slot e <? 0) || (nSlots <=? slot e) || negb (after (seen e) cutoff) then out
  else
    let idle := Z.quot (time_sub now (seen e)) nsec_second in
    let i := Z.to_nat (slot e) in
    match out !! i with
    | Some cur => if String.eqb (hs_SessionID cur) "" || (idle <? IdleSeconds cur)
                  then <[i := mkHotSlot (slot e) sessionID idle]> out else out
    | None => out
    end.

Definition hotSlots (s : slotAffinityStore) (modelID : string) (nSlots now : Z) : list HotSlot :=
  if nSlots <=? 0 then []
  else
    let cutoff := now - activeWindow s in
    foldl (hot_step nSlots cutoff now) ((fun i => mkHotSlot i "" 0) <$> seqZ 0 nSlots)
      (range (lanes s modelID)).

(** The 15-minute activity count of [scratchSlot]. *)
Definition count_step (cutoff : Z) (counts : gmap Z Z) (ke : string * slotAffinityEntry) : gmap Z Z :=
  if after (seen ke.2) cutoff then <[slot ke.2 := get0 counts (slot ke.2) + 1]> counts else counts.

Definition scratch_step (live : list Z) (counts : gmap Z Z) (best id : nat) : nat :=
  if (live !!! id <? live !!! best) ||
     ((live !!! id =? live !!! best) && (get0 counts (Z.of_nat id) <? get0 counts (Z.of_nat best)))
  then id else best.

Definition scratchSlot (s : slotAffinityStore) (modelID : string) (nSlots now : Z) : option Z :=
  if negb (enabled s modelID) || (nSlots <=? 1) then None
  else
    let '(live, _) := slotLoadLocked s (lanes s modelID) "" nSlots now in
    let counts := foldl (count_step (now - activeWindow s)) ∅ (range (lanes s modelID)) in
    let n := Z.to_nat nSlots in
    Some (Z.of_nat (foldl (scratch_step live counts) (n - 1)%nat (reverse (seq 0 (n - 1))))).

Definition forget (s : slotAffinityStore) (modelID : string) : slotAffinityStore :=
  set_byModel s (delete modelID (byModel s)).

Definition sessionCount (s : slotAffinityStore) (modelID : string) : Z := Z.of_nat (size (lanes s modelID)).

Definition onProcessStateChange (s : slotAffinityStore) (ProcessName NewState : string) : slotAffinityStore :=
  if String.eqb NewState "stopping" || String.eqb NewState "stopped" || String.eqb NewState "shutdown"
  then forget s ProcessName else s.

(** The fields of an [ActivityLogEntry] that are read. *)
Record ActivityLogEntry := mkActivity {
  RespStatusCode : Z; InputTokens : Z; al_Metadata : gmap string string; al_Model : string }.

Definition learnFromEntry (s : slotAffinityStore) (entry : ActivityLogEntry) (now : Z) : slotAffinityStore :=
  if negb (RespStatusCode entry =? 200) then s
  else if InputTokens entry <? minLearnInputTokens s then s
  else
    let sessionID := affinityLaneKey (al_Metadata entry) in
    match al_Metadata entry !! "slot_id" with
    | None => s
    | Some slotStr =>
      if String.eqb sessionID "" then s
      else match Atoi slotStr with
           | None => s
           | Some slot_ => learn s (al_Model entry) sessionID slot_ now
           end
    end.

End Range.

(** ** The middleware *)

(** The request context ([swaputil.ReqContextData]), as far as it is used. *)
Record ReqContextData := mkData { ModelID : string; Metadata : gmap string string; Body : option string }.

Record Request := mkRequest {
  Method : string;
  ContentType : string;
  Context_ : option ReqContextData;     (* [None]: [FetchContext] fails *)
  r_Body : option string;               (* [None]: reading the body fails *)
  ContentLength : Z;
  SlotRebound : option (string * string);  (* the model and lane of the callback of [WithSlotRebound] *)
}.

(** What a middleware does with a request: answer it with a status, or hand it
    on, after stamping the live entry.  [lane] is the session whose [begin] and
    [end] bracket the call of the next handler. *)
Inductive handled : Type :=
| Answer (status : Z)
| Next (r : Request) (stamps : list (string * string)) (lane : option (string * string)).

Definition contains (sub s : string) : bool := bool_decide (is_Some (String.index 0 sub s)).

Section Middleware.
(** [gjson.ValidBytes] and [sjson.SetBytes] of an integer. *)
Context (ValidBytes : string -> bool) (SetBytes : string -> string -> Z -> option string).
(** The iteration order and the clock of the repair, of the assignment and of
    the scratch pick. *)
Context (range : sessions -> list (string * slotAffinityEntry)) (now1 now2 : Z).

Definition with_context (r : Request) (data : ReqContextData) : Request :=
  mkRequest (Method r) (ContentType r) (Some data) (r_Body r) (ContentLength r) (SlotRebound r).

Definition with_body (r : Request) (body : string) : Request :=
  mkRequest (Method r) (ContentType r) (Context_ r) (Some body) (ContentLength r) (SlotRebound r).

(** The model that serves the request, when the one asked for is an alias. *)
Definition resident_of (s : slotAffinityStore) (modelID : string) : option string :=
  match cfg s !! modelID with
  | Some _ => None
  | None => resolveResident s ≫= fun f => f modelID
  end.

(** The slot of the request, the lane it belongs to, and the store. *)
Definition choose (s : slotAffinityStore) (modelID : string) (metadata : gmap string string) (body : string)
  : option Z * string * slotAffinityStore :=
  let nSlots := match cfg s !! modelID with Some mc => ConcurrencyLimit mc | None => 0 end in
  if Z.of_nat (String.length body) <? minInjectBodyBytes s
  then (scratchSlot range s modelID nSlots now1, "", s)
  else
    let sessionID := affinityLaneKey metadata in
    let '(slot_, s) := lookupRepair range s modelID sessionID nSlots now1 in
    match slot_ with
    | Some slot_ => (Some slot_, sessionID, s)
    | None =>
      let '(slot_, s) := assign range s modelID sessionID nSlots now2 in
      (slot_, sessionID, s)
    end.

(** The body of the handler once the body of the request is read. *)
Definition inject (s : slotAffinityStore) (r : Request) (data : ReqContextData) (body : string)
  : handled * slotAffinityStore :=
  let '(r, data, stamps, modelID) :=
    match resident_of s (ModelID data) with
    | Some resolved =>
      let data := mkData (ModelID data) (<["resolved_model" := resolved]> (Metadata data)) (Some body) in
      (with_context r data, data, [("resolved_model", resolved)], resolved)
    | None => (r, data, [], ModelID data)
    end in
  let '(slot_, sessionID, s) := choose s modelID (Metadata data) body in
  match slot_ with
  | None => (Next r stamps None, s)
  | Some slot_ =>
    if negb (ValidBytes body) then (Next r stamps None, s)
    else match SetBytes body "id_slot" slot_ with
         | None => (Answer 500, s)
         | Some body =>
           let data := mkData (ModelID data) (<["slot_affinity" := pretty slot_]> (Metadata data)) (Some body) in
           let lane := if String.eqb sessionID "" then None else Some (modelID, sessionID) in
           let rebound := if String.eqb sessionID "" then SlotRebound r else lane in
           (Next (mkRequest (Method r) (ContentType r) (Some data) (Some body)
                    (Z.of_nat (String.length body)) rebound)
              (stamps ++ [("slot_affinity", pretty slot_)]) lane, s)
         end
  end.

Definition middleware (s : slotAffinityStore) (r : Request) : handled * slotAffinityStore :=
  if negb (String.eqb (Method r) "POST") || negb (contains "application/json" (ContentType r))
  then (Next r [] None, s)
  else match Context_ r with
       | None => (Answer 404, s)
       | Some data =>
         match Body data with
         | Some body => inject s r data body
         | None =>
           match r_Body r with
           | None => (Answer 400, s)
           | Some body => inject s (with_body r body) data body
           end
         end
       end.

End Middleware.

(** ** Sequences of operations, each with its own clock and iteration order *)

Inductive op : Type :=
| Learn (modelID sessionID : string) (slot_ : Z)
| Lookup (modelID sessionID : string)
| Assign (modelID sessionID : string) (nSlots : Z)
| LookupRepair (modelID sessionID : string) (nSlots : Z)
| Begin (modelID sessionID : string)
| End_ (modelID sessionID : string)
| StateChange (ProcessName NewState : string).

Record event := mkEvent {
  ev_range : sessions -> list (string * slotAffinityEntry); ev_now : Z; ev_op : op }.

Definition apply (s : slotAffinityStore) (ev : event) : slotAffinityStore :=
  let now := ev_now ev in
  match ev_op ev with
  | Learn m k slot_ => learn (ev_range ev) s m k slot_ now
  | Lookup m k => (lookup_ s m k now).2
  | Assign m k n => (assign (ev_range ev) s m k n now).2
  | LookupRepair m k n => (lookupRepair (ev_range ev) s m k n now).2
  | Begin m k => begin s m k now
  | End_ m k => end_ s m k now
  | StateChange p st => onProcessStateChange s p st
  end.

Definition run (s : slotAffinityStore) (evs : list event) : slotAffinityStore := foldl apply s evs.

(** A Go map is ranged over in any order, each entry once. *)
Definition ranges (range : sessions -> list (string * slotAffinityEntry)) : Prop :=
  forall ss, range ss ≡ₚ map_to_list ss.

End SlotAffinity.
