(* ===== verification/SlotPlacement.v ===== *)
(** Correctness of the session lanes (SlotAffinity.v): the load of the slots and
    the choice among them, the placement of a new session, the repair of a
    collision and its convergence, the scratch slot, the bounds of the store. *)

From S2P Require Import Prelude SlotAffinity.

Module Placement.
Import SlotAffinity.

(** ** The load of the slots *)

(** [ke] is a live session other than [exclude] on slot [i]. *)
Definition live_on (s : slotAffinityStore) (exclude : string) (now i : Z) (ke : string * slotAffinityEntry) : Prop :=
  slot ke.2 = i /\ ke.1 <> exclude /\ liveLocked s ke.2 now = true.

#[export] Instance live_on_dec s exclude now i ke : Decision (live_on s exclude now i ke).
Proof. apply _. Defined.

Definition live_count (s : slotAffinityStore) (ss : sessions) (exclude : string) (now i : Z) : Z :=
  Z.of_nat (length (filter (live_on s exclude now i) (map_to_list ss))).

(** When any session last used slot [i]; [0] when none did. *)
Definition last_used_list (l : list (string * slotAffinityEntry)) (i : Z) : Z :=
  foldr Z.max 0 (last_use ∘ snd <$> filter (fun ke => slot ke.2 = i) l).

Definition last_used (ss : sessions) (i : Z) : Z := last_used_list (map_to_list ss) i.

#[export] Instance foldr_max_perm : Proper ((≡ₚ) ==> eq) (foldr Z.max 0).
Proof. intros l k Hlk. induction Hlk; simpl; lia. Qed.

#[export] Instance last_used_list_perm : Proper ((≡ₚ) ==> eq ==> eq) last_used_list.
Proof. intros l k Hlk ? i ->. unfold last_used_list. by rewrite Hlk. Qed.

Lemma foldr_max_ge b l : b <= foldr Z.max b l.
Proof. induction l; simpl; lia. Qed.

Lemma foldr_max_base x b l : foldr Z.max (Z.max x b) l = Z.max x (foldr Z.max b l).
Proof. induction l; simpl; lia. Qed.

Section Load.
Context (s : slotAffinityStore) (exclude : string) (nSlots now : Z).

Lemma load_step_length acc ke :
  length (load_step s exclude nSlots now acc ke).1 = length acc.1 /\
  length (load_step s exclude nSlots now acc ke).2 = length acc.2.
Proof.
  destruct acc as [live lu], ke as [k e]. unfold load_step.
  destruct (_ || _); [done|]. destruct (after _ _), (_ && _); simpl; by rewrite ?length_insert.
Qed.

Lemma load_fold_length l acc :
  length (foldl (load_step s exclude nSlots now) acc l).1 = length acc.1 /\
  length (foldl (load_step s exclude nSlots now) acc l).2 = length acc.2.
Proof.
  revert acc. induction l as [|ke l IH]; intros acc; simpl; [done|].
  destruct (IH (load_step s exclude nSlots now acc ke)) as [-> ->]. apply load_step_length.
Qed.

Lemma load_step_at acc ke i :
  length acc.1 = Z.to_nat nSlots -> length acc.2 = Z.to_nat nSlots -> (i < Z.to_nat nSlots)%nat ->
  (load_step s exclude nSlots now acc ke).1 !!! i =
    acc.1 !!! i + (if decide (live_on s exclude now (Z.of_nat i) ke) then 1 else 0) /\
  (load_step s exclude nSlots now acc ke).2 !!! i =
    (if decide (slot ke.2 = Z.of_nat i) then Z.max (last_use ke.2) (acc.2 !!! i) else acc.2 !!! i).
Proof.
  destruct acc as [live lu], ke as [k e]. simpl. intros Hl Hu Hi. unfold load_step.
  destruct (Z.ltb_spec (slot e) 0), (Z.leb_spec nSlots (slot e)); simpl;
    try (rewrite !decide_False by (unfold live_on; simpl; lia); lia).
  set (j := Z.to_nat (slot e)).
  assert (j < length live)%nat by lia. assert (j < length lu)%nat by lia.
  assert (bool_decide (k <> exclude /\ liveLocked s e now = true) =
          negb (String.eqb k exclude) && liveLocked s e now) as <-.
  { destruct (String.eqb_spec k exclude), (liveLocked s e now); case_bool_decide; naive_solver. }
  destruct (decide (slot e = Z.of_nat i)) as [Hs|Hs].
  - assert (j = i) as -> by lia.
    assert ((if after (last_use e) (lu !!! i) then <[i:=last_use e]> lu else lu) !!! i =
            Z.max (last_use e) (lu !!! i)) as Hmax.
    { unfold after. destruct (Z.ltb_spec (lu !!! i) (last_use e)).
      - rewrite list_lookup_total_insert_eq by done. lia.
      - lia. }
    case_bool_decide; simpl; (split; [|done]).
    + rewrite list_lookup_total_insert_eq, decide_True by done. lia.
    + rewrite decide_False by (unfold live_on; naive_solver). lia.
  - assert (j <> i) by lia. rewrite decide_False by (unfold live_on; naive_solver).
    destruct (after _ _), (bool_decide _); simpl; rewrite ?list_lookup_total_insert_ne by done; lia.
Qed.

Lemma load_fold_at l acc i :
  length acc.1 = Z.to_nat nSlots -> length acc.2 = Z.to_nat nSlots -> (i < Z.to_nat nSlots)%nat ->
  (foldl (load_step s exclude nSlots now) acc l).1 !!! i =
    acc.1 !!! i + Z.of_nat (length (filter (live_on s exclude now (Z.of_nat i)) l)) /\
  (foldl (load_step s exclude nSlots now) acc l).2 !!! i =
    Z.max (acc.2 !!! i) (foldr Z.max (acc.2 !!! i) (last_use ∘ snd <$> filter (fun ke => slot ke.2 = Z.of_nat i) l)).
Proof.
  revert acc. induction l as [|ke l IH]; intros acc Hl Hu Hi; simpl; [lia|].
  destruct (load_step_length acc ke) as [Hl' Hu'].
  destruct (load_step_at acc ke i Hl Hu Hi) as [H1 H2].
  destruct (IH (load_step s exclude nSlots now acc ke)) as [-> ->]; [congruence|congruence|done|].
  rewrite H1, H2, !filter_cons. split.
  - destruct (decide (live_on _ _ _ _ _)); simpl; lia.
  - destruct (decide (slot ke.2 = _)); [|done]. rewrite fmap_cons, foldr_max_base. cbn [foldr].
    change ((last_use ∘ snd) ke) with (last_use ke.2). lia.
Qed.

End Load.

Lemma slotLoad_correct range s ss exclude nSlots now :
  ranges range ->
  let load := slotLoadLocked range s ss exclude nSlots now in
  length load.1 = Z.to_nat nSlots /\
  forall i, (i < Z.to_nat nSlots)%nat ->
    load.1 !!! i = live_count s ss exclude now (Z.of_nat i) /\ load.2 !!! i = last_used ss (Z.of_nat i).
Proof.
  intros Hr. simpl. unfold slotLoadLocked. split.
  - rewrite (proj1 (load_fold_length _ _ _ _ _ _)). apply length_replicate.
  - intros i Hi.
    destruct (load_fold_at s exclude nSlots now (range ss)
                (replicate (Z.to_nat nSlots) 0, replicate (Z.to_nat nSlots) 0) i) as [-> ->];
      [apply length_replicate|apply length_replicate|done|].
    simpl. rewrite !lookup_total_replicate_2 by done. unfold live_count, last_used.
    pose proof (Hr ss) as Hp. rewrite <-Hp. split; [lia|]. unfold last_used_list.
    pose proof (foldr_max_ge 0 (last_use ∘ snd <$> filter (fun ke => slot ke.2 = Z.of_nat i) (range ss))). lia.
Qed.

(** ** The choice among the slots *)

(** A fold that keeps the better of two candidates ends with a best one.  [T]
    relates a candidate to those tried after it, for the ties. *)
Lemma foldl_least {A} (R T : A -> A -> Prop) `{!Transitive R} step :
  (forall b, R b b) ->
  (forall b x, T b x -> (step b x = b \/ step b x = x) /\ R (step b x) b /\ R (step b x) x) ->
  forall l b, StronglySorted T (b :: l) ->
  foldl step b l ∈ b :: l /\ forall y, y ∈ b :: l -> R (foldl step b l) y.
Proof.
  intros Hrefl Hstep. induction l as [|x l IH]; intros b Hs; simpl.
  - split; [constructor|]. intros y ->%list_elem_of_singleton. apply Hrefl.
  - apply StronglySorted_inv in Hs as [Hs Hb]. apply StronglySorted_inv in Hs as [Hs Hx].
    apply Forall_cons in Hb as [Hbx Hb]. destruct (Hstep b x Hbx) as (Hor & Hb' & Hx').
    destruct (IH (step b x)) as [Hin Hle].
    { constructor; [done|]. by destruct Hor as [-> | ->]. }
    split.
    + apply elem_of_cons in Hin as [Hin|Hin]; [|by do 2 right].
      rewrite Hin. destruct Hor as [-> | ->]; [left|right; left].
    + pose proof (Hle (step b x) (list_elem_of_here _ _)).
      intros y [->|[->|Hy]%elem_of_cons]%elem_of_cons; [by etrans..|]. apply Hle. by right.
Qed.

Lemma seq_increasing a n : StronglySorted lt (seq a n).
Proof.
  revert a. induction n as [|n IH]; intros a; simpl; constructor; [done|].
  apply Forall_forall. intros x [? _]%elem_of_seq. lia.
Qed.

Lemma reverse_seq_decreasing n : StronglySorted gt (n :: reverse (seq 0 n)).
Proof.
  induction n as [|n IH]; [repeat constructor|].
  rewrite seq_S, reverse_app. simpl. constructor; [done|].
  apply Forall_forall. intros x Hx. apply elem_of_cons in Hx as [->|Hx]; [lia|].
  rewrite elem_of_reverse, elem_of_seq in Hx. lia.
Qed.

(** Slot [a] comes before slot [b] in the order of placement. *)
Definition placed_before (live used : Z -> Z) (a b : Z) : Prop :=
  live a < live b \/ live a = live b /\ (used a < used b \/ used a = used b /\ a <= b).

Lemma pickSlot_correct live used :
  (0 < length live)%nat ->
  (pickSlotLocked live used < length live)%nat /\
  forall j, (j < length live)%nat ->
    placed_before (fun i => live !!! Z.to_nat i) (fun i => used !!! Z.to_nat i)
      (Z.of_nat (pickSlotLocked live used)) (Z.of_nat j).
Proof.
  intros Hn. unfold pickSlotLocked.
  set (R := fun a b : nat => placed_before (fun i => live !!! Z.to_nat i) (fun i => used !!! Z.to_nat i)
                               (Z.of_nat a) (Z.of_nat b)).
  assert (Transitive R) by (intros a b c; unfold R, placed_before; lia).
  destruct (foldl_least R lt (pick_step live used)) with (b := 0%nat) (l := seq 1 (length live - 1))
    as [Hin Hle].
  - intros b. unfold R, placed_before. lia.
  - intros b x Hbx. unfold pick_step, R, placed_before, before. rewrite !Nat2Z.id.
    destruct (Z.ltb_spec (live !!! x) (live !!! b)), (Z.eqb_spec (live !!! x) (live !!! b)),
      (Z.ltb_spec (used !!! x) (used !!! b)); simpl; rewrite ?Nat2Z.id; lia.
  - apply (seq_increasing 0 (S (length live - 1))).
  - change (0%nat :: seq 1 (length live - 1)) with (seq 0 (S (length live - 1))) in *.
    rewrite elem_of_seq in Hin. split; [lia|]. intros j Hj. apply Hle, elem_of_seq. lia.
Qed.

(** The slot chosen for a session, in terms of the map of sessions. *)
Lemma pick_from_load range s ss exclude nSlots now :
  ranges range -> 0 < nSlots ->
  let load := slotLoadLocked range s ss exclude nSlots now in
  let best := pickSlotLocked load.1 load.2 in
  (best < Z.to_nat nSlots)%nat /\
  load.1 !!! best = live_count s ss exclude now (Z.of_nat best) /\
  forall j, 0 <= j < nSlots ->
    placed_before (live_count s ss exclude now) (last_used ss) (Z.of_nat best) j.
Proof.
  intros Hr Hn load best. destruct (slotLoad_correct range s ss exclude nSlots now Hr) as [Hlen Hat].
  fold load in Hlen, Hat. destruct (pickSlot_correct load.1 load.2) as [Hb Hle]; [lia|].
  fold best in Hb, Hle. rewrite Hlen in Hb. split; [done|]. split; [by apply Hat|].
  intros j Hj. specialize (Hle (Z.to_nat j) ltac:(lia)). unfold placed_before in *.
  rewrite Z2Nat.id, !Nat2Z.id in Hle by lia.
  destruct (Hat best Hb) as [H1 H2], (Hat (Z.to_nat j) ltac:(lia)) as [H3 H4].
  rewrite Z2Nat.id in H3, H4 by lia. rewrite H1, H2, H3, H4 in Hle. done.
Qed.

(** ** Eviction *)

Lemma evictOldest_spec range ss :
  ranges range -> ss <> ∅ ->
  exists k e, ss !! k = Some e /\ evictOldestLocked range ss = delete k ss /\
    forall k' e', ss !! k' = Some e' -> seen e <= seen e'.
Proof.
  intros Hr Hne. unfold evictOldestLocked.
  assert (forall l k t, exists e, foldl oldest_step (Some (k, t)) l = Some e /\
            ((exists ke, ke ∈ l /\ e = (ke.1, seen ke.2)) \/ e = (k, t)) /\
            e.2 <= t /\ forall ke, ke ∈ l -> e.2 <= seen ke.2) as Hfold.
  { induction l as [|ke l IH]; intros k t; cbn [foldl].
    - exists (k, t). repeat split; [by right|simpl; lia|]. by intros ke ?%elem_of_nil.
    - unfold oldest_step at 2. unfold before. destruct (Z.ltb_spec (seen ke.2) t);
        [destruct (IH ke.1 (seen ke.2)) as (e & -> & Hor & Ht & Hle)|destruct (IH k t) as (e & -> & Hor & Ht & Hle)];
        exists e; (split; [done|]); (split; [|split; [lia|]]).
      all: try (intros ke' [->|?]%elem_of_cons; [lia|by apply Hle]).
      + left. destruct Hor as [(ke' & ? & ?)| ->]; [exists ke'|exists ke]; split; try done; [by right|left].
      + destruct Hor as [(ke' & ? & ?)| ->]; [left; exists ke'; split; [by right|done]|by right]. }
  pose proof (Hr ss) as Hp. destruct (range ss) as [|ke l] eqn:E.
  { apply symmetry, Permutation_nil_r, map_to_list_empty_iff in Hp. done. }
  cbn [foldl oldest_step]. destruct (Hfold l ke.1 (seen ke.2)) as (e & -> & Hor & Ht & Hle).
  assert (exists ke', ke' ∈ ke :: l /\ e = (ke'.1, seen ke'.2)) as (ke' & Hin & ->).
  { destruct Hor as [(ke' & ? & ?)| ->]; [exists ke'|exists ke]; split; try done; [by right|left]. }
  rewrite Hp in Hin. destruct ke' as [k' e']. apply elem_of_map_to_list in Hin.
  exists k', e'. split; [done|]. split; [done|]. simpl in *.
  intros j f Hj%elem_of_map_to_list. rewrite <-Hp in Hj.
  apply elem_of_cons in Hj as [Hj|Hj]; [by subst|by apply (Hle _ Hj)].
Qed.

Lemma size_nonempty {A} (m : gmap string A) : (0 < size m)%nat -> m <> ∅.
Proof. intros H ->. rewrite map_size_empty in H. lia. Qed.

(** [make_room] drops nothing, or one least recently seen session. *)
Lemma make_room_spec range s ss :
  ranges range -> 0 < maxSessions s ->
  Z.of_nat (size ss) < maxSessions s /\ make_room range s ss = ss \/
  maxSessions s <= Z.of_nat (size ss) /\ exists k e, ss !! k = Some e /\ make_room range s ss = delete k ss /\
    forall k' e', ss !! k' = Some e' -> seen e <= seen e'.
Proof.
  intros Hr Hmax. unfold make_room. destruct (Z.leb_spec (maxSessions s) (Z.of_nat (size ss))); [right|by left].
  split; [done|]. apply evictOldest_spec; [done|]. apply size_nonempty. lia.
Qed.

Lemma make_room_lookup range s ss k e :
  ranges range -> 0 < maxSessions s -> make_room range s ss !! k = Some e -> ss !! k = Some e.
Proof.
  intros Hr Hmax. destruct (make_room_spec range s ss Hr Hmax) as [(_ & ->)|(_ & k0 & ? & _ & -> & _)]; [done|].
  rewrite lookup_delete_Some. naive_solver.
Qed.

Lemma make_room_size range s ss :
  ranges range -> 0 < maxSessions s -> Z.of_nat (size ss) <= maxSessions s ->
  Z.of_nat (size (make_room range s ss)) < maxSessions s.
Proof.
  intros Hr Hmax Hs. destruct (make_room_spec range s ss Hr Hmax) as [(? & ->)|(_ & k0 & ? & Hk & -> & _)]; [done|].
  rewrite map_size_delete_Some by eauto. lia.
Qed.

(** ** The state after an operation *)

Lemma lanes_put_eq s m ss : lanes (put_lanes s m ss) m = ss.
Proof. unfold lanes. simpl. by rewrite lookup_insert_eq. Qed.

Lemma lanes_put_ne s m m' ss : m <> m' -> lanes (put_lanes s m ss) m' = lanes s m'.
Proof. intros. unfold lanes. simpl. by rewrite lookup_insert_ne. Qed.

Lemma enabled_true s m : enabled s m = true -> negb (enabled s m) = false.
Proof. by intros ->. Qed.

Lemma eqb_nonempty k : k <> "" -> String.eqb k "" = false.
Proof. apply String.eqb_neq. Qed.

(** A session without a lane is placed on the first slot in the order of
    placement: fewest live sessions, then least recently used, then lowest
    number.  The lane it gets is fresh, every other lane keeps its slot, and a
    lane is dropped only from a full table, a least recently seen one. *)
Theorem assign_correct range s m k n now :
  ranges range -> 0 < maxSessions s -> enabled s m = true -> k <> "" -> 1 < n -> lanes s m !! k = None ->
  exists i s', assign range s m k n now = (Some i, s') /\ 0 <= i < n /\
    (forall j, 0 <= j < n ->
       placed_before (live_count s (lanes s m) k now) (last_used (lanes s m)) i j) /\
    lanes s' m !! k = Some (mkEntry i now now 0 0) /\
    (forall k' e, k' <> k -> lanes s' m !! k' = Some e -> lanes s m !! k' = Some e) /\
    (forall k' e, lanes s m !! k' = Some e -> lanes s' m !! k' = None ->
       maxSessions s <= sessionCount s m /\ forall k2 e2, lanes s m !! k2 = Some e2 -> seen e <= seen e2) /\
    (forall m', m' <> m -> lanes s' m' = lanes s m').
Proof.
  intros Hr Hmax Hen Hk Hn Hnone. unfold assign. rewrite Hen, eqb_nonempty, Hnone by done. simpl.
  destruct (Z.leb_spec n 1); [lia|].
  destruct (pick_from_load range s (lanes s m) k n now Hr ltac:(lia)) as (Hb & _ & Hbest).
  destruct (slotLoadLocked range s (lanes s m) k n now) as [live used]. simpl in *.
  eexists _, _. split; [done|]. split; [lia|]. split; [done|]. rewrite lanes_put_eq, lookup_insert_eq.
  split; [done|]. split; [|split].
  - intros k' e Hne. rewrite lookup_insert_ne by done. by apply make_room_lookup.
  - intros k' e Hk'. rewrite lookup_insert_None. intros [Hdrop Hne]. unfold sessionCount.
    destruct (make_room_spec range s (lanes s m) Hr Hmax) as [(? & Heq)|(? & k0 & e0 & ? & Heq & Hold)];
      rewrite Heq in Hdrop; [congruence|].
    split; [done|]. apply lookup_delete_None in Hdrop as [->|]; [|congruence]. naive_solver.
  - intros m' Hm. by rewrite lanes_put_ne.
Qed.

(** ** Repair *)

(** No other session of [ss] is live on slot [i]. *)
Definition free_slot (s : slotAffinityStore) (ss : sessions) (k : string) (now i : Z) : Prop :=
  forall k' e', ss !! k' = Some e' -> k' <> k -> liveLocked s e' now = true -> slot e' <> i.

(** A live session that was placed before [k] shares its slot. *)
Definition collides (s : slotAffinityStore) (ss : sessions) (k : string) (e : slotAffinityEntry) (now : Z) : Prop :=
  exists k' e', ss !! k' = Some e' /\ k' <> k /\ slot e' = slot e /\ liveLocked s e' now = true /\
    older k' e' k e = true.

Lemma live_count_free s ss k now i : live_count s ss k now i = 0 <-> free_slot s ss k now i.
Proof.
  unfold live_count, free_slot. split.
  - intros Hc k' e' Hk' Hne Hl Hs.
    assert ((k', e') ∈ filter (live_on s k now i) (map_to_list ss)) as Hin.
    { apply list_elem_of_filter. split; [by repeat split|]. by apply elem_of_map_to_list. }
    apply list_elem_of_In, List.in_split in Hin as (l1 & l2 & Heq). rewrite Heq, length_app in Hc. simpl in Hc. lia.
  - intros Hfree. destruct (filter _ _) as [|[k' e'] l] eqn:E; [done|].
    assert ((k', e') ∈ filter (live_on s k now i) (map_to_list ss)) as Hin by (rewrite E; left).
    apply list_elem_of_filter in Hin as [(Hs & Hne & Hl) Hin]. apply elem_of_map_to_list in Hin.
    by destruct (Hfree k' e').
Qed.

Lemma shared_with_older_spec range s ss k e now :
  ranges range -> shared_with_older range s ss k e now = true <-> collides s ss k e now.
Proof.
  intros Hr. unfold shared_with_older, collides. rewrite existsb_exists. split.
  - intros ([k' e'] & Hin & [Hb Ho]%andb_prop). apply list_elem_of_In in Hin.
    pose proof (Hr ss) as Hp. rewrite Hp in Hin. apply elem_of_map_to_list in Hin. simpl in *.
    apply negb_true_iff, orb_false_iff in Hb as [[Hk Hs]%orb_false_iff Hl].
    apply String.eqb_neq in Hk. apply negb_false_iff in Hs, Hl. apply Z.eqb_eq in Hs. eauto 10.
  - intros (k' & e' & Hin & Hk & Hs & Hl & Ho). exists (k', e'). split.
    { apply list_elem_of_In. pose proof (Hr ss) as Hp. rewrite Hp. by apply elem_of_map_to_list. }
    simpl. by rewrite Hl, Ho, Hs, Z.eqb_refl, (proj2 (String.eqb_neq k' k)).
Qed.

(** The lane after the collision check: it moves exactly when an older live
    session shares its slot and some slot has no other live session, and it
    moves to such a slot. *)
Lemma repair_spec range s ss k e n now :
  ranges range ->
  (repair range s ss k e n now = e /\
   ~ (0 <= slot e < n /\ collides s ss k e now /\ exists i, 0 <= i < n /\ free_slot s ss k now i)) \/
  (0 <= slot e < n /\ collides s ss k e now /\ exists i, 0 <= i < n /\ free_slot s ss k now i /\ i <> slot e /\
   repair range s ss k e n now = mkEntry i (seen e) now (inflight e) (lastEnd e)).
Proof.
  intros Hr. unfold repair.
  assert (collides s ss k e now -> 0 <= slot e < n -> forall i, free_slot s ss k now i -> i <> slot e) as Hne.
  { intros (k' & e' & Hk' & Hnek & Hs & Hl & _) _ i Hf ->. by apply (Hf k' e'). }
  pose proof (shared_with_older_spec range s ss k e now Hr) as Hsh.
  destruct (Z.ltb_spec 1 n), (Z.leb_spec 0 (slot e)), (Z.ltb_spec (slot e) n); simpl; try (left; split; [done|lia]).
  - destruct (shared_with_older range s ss k e now).
    2: { left. split; [done|]. intros (_ & Hc & _). apply Hsh in Hc. done. }
    assert (collides s ss k e now) as Hcol by (by apply Hsh).
    destruct (pick_from_load range s ss k n now Hr ltac:(lia)) as (Hb & Hcount & Hbest).
    destruct (slotLoadLocked range s ss k n now) as [live used]. simpl in *. rewrite Hcount.
    destruct (Z.eqb_spec (live_count s ss k now (Z.of_nat (pickSlotLocked live used))) 0) as [Hz|Hz]; simpl.
    + right. split; [done|]. split; [done|]. pose proof Hz as Hf. apply live_count_free in Hf.
      exists (Z.of_nat (pickSlotLocked live used)). split; [lia|]. split; [done|].
      assert (Z.of_nat (pickSlotLocked live used) <> slot e) by (by apply Hne).
      split; [done|]. by rewrite (proj2 (Z.eqb_neq _ _)).
    + left. split; [done|]. intros (_ & _ & i & Hi & Hf). apply live_count_free in Hf.
      specialize (Hbest i Hi). unfold placed_before, live_count in *. lia.
  - left. split; [done|]. intros (? & (k' & e' & Hk' & Hnek & Hs & Hl & _) & i & Hi & Hf).
    destruct (Hf k' e' Hk' Hnek Hl). lia.
Qed.

(** A request of a session with a lane: the lane moves exactly when a live
    session that was placed earlier shares its slot and some slot has no other
    live session; then it goes to such a slot.  Otherwise it stays.  No other
    lane changes. *)
Theorem lookupRepair_correct range s m k n now e :
  ranges range -> enabled s m = true -> k <> "" -> lanes s m !! k = Some e ->
  exists e' s', lookupRepair range s m k n now = (Some (slot e'), s') /\
    lanes s' m = <[k := e']> (lanes s m) /\
    seen e' = now /\ inflight e' = inflight e /\ lastEnd e' = lastEnd e /\
    (slot e' <> slot e <->
       0 <= slot e < n /\ collides s (lanes s m) k e now /\
       exists i, 0 <= i < n /\ free_slot s (lanes s m) k now i) /\
    (slot e' = slot e -> assigned e' = assigned e) /\
    (slot e' <> slot e -> 0 <= slot e' < n /\ free_slot s (lanes s m) k now (slot e') /\ assigned e' = now).
Proof.
  intros Hr Hen Hk Hlane. unfold lookupRepair. rewrite Hen, eqb_nonempty, Hlane by done. simpl.
  eexists (set_seen _ now), _. split; [done|]. rewrite lanes_put_eq. split; [done|].
  destruct (repair_spec range s (lanes s m) k e n now Hr)
    as [(-> & Hno)|(Hin & Hc & i & Hi & Hf & Hne & ->)]; simpl.
  - do 3 (split; [done|]). split; [tauto|]. split; [done|]. intros []. done.
  - do 3 (split; [done|]). split; [naive_solver|]. split; done.
Qed.

(** ** A round of repairs settles *)

(** A request of session [c_key], served at [c_now]. *)
Record call := mkCall { c_range : sessions -> list (string * slotAffinityEntry); c_key : string; c_now : Z }.

Definition repairs (s : slotAffinityStore) (m : string) (n : Z) (calls : list call) : slotAffinityStore :=
  foldl (fun s c => (lookupRepair (c_range c) s m (c_key c) n (c_now c)).2) s calls.

(** From [t0] to [t1] the live sessions of [m] are those of [L], at most one per
    slot on average, each on a slot of the model. *)
Record crew (m : string) (n : Z) (L : gset string) (t0 t1 : Z) (s : slotAffinityStore) : Prop := {
  crew_enabled : enabled s m = true;
  crew_window : t1 - t0 <= liveWindow s;
  crew_size : Z.of_nat (size L) <= n;
  crew_lane : forall k, k ∈ L -> k <> "" /\ exists e, lanes s m !! k = Some e /\ 0 <= slot e < n /\
                forall t, t0 <= t <= t1 -> liveLocked s e t = true;
  crew_others : forall k e t, k ∉ L -> lanes s m !! k = Some e -> t0 <= t <= t1 -> liveLocked s e t = false;
}.

(** [k] has no older session of [L] beside it. *)
Definition placed (m : string) (L : gset string) (s : slotAffinityStore) (k : string) : Prop :=
  forall j ej ek, j ∈ L -> j <> k -> lanes s m !! j = Some ej -> lanes s m !! k = Some ek ->
    slot ej = slot ek -> older j ej k ek = false.

Definition within (L : gset string) (t0 t1 : Z) (c : call) : Prop :=
  ranges (c_range c) /\ c_key c ∈ L /\ t0 <= c_now c <= t1.

Lemma older_total j ej k ek : j <> k -> older j ej k ek = false -> older k ek j ej = true.
Proof.
  unfold older, before. intros Hne.
  destruct (Z.ltb_spec (assigned ej) (assigned ek)), (Z.ltb_spec (assigned ek) (assigned ej)); simpl; try done.
  destruct (Z.eqb_spec (assigned ej) (assigned ek)), (Z.eqb_spec (assigned ek) (assigned ej)); try lia; simpl.
  unfold String.ltb. rewrite (String.compare_antisym k j). destruct (String.compare j k) eqn:E; try done.
  by apply String.compare_eq_iff in E.
Qed.

Lemma touched_live s e t : 0 <= liveWindow s -> t - seen e <= liveWindow s -> liveLocked s e t = true.
Proof.
  intros H0 Hw. unfold liveLocked, last_use, after, time_sub, max_int64, min_int64.
  destruct (0 <? inflight e); [done|]. apply Z.leb_le. destruct (Z.ltb_spec (seen e) (lastEnd e)); zcases; lia.
Qed.

(** Fewer other live sessions than slots leave a slot free. *)
Lemma crew_free_slot m n L t0 t1 s k t :
  crew m n L t0 t1 s -> k ∈ L -> t0 <= t <= t1 -> exists i, 0 <= i < n /\ free_slot s (lanes s m) k t i.
Proof.
  intros Hc Hk Ht.
  destruct (decide (Exists (fun i => live_count s (lanes s m) k t i = 0) (seqZ 0 n))) as [Hex|Hno].
  { apply Exists_exists in Hex as (i & Hi & H0). exists i. apply elem_of_seqZ in Hi.
    split; [lia|by apply live_count_free]. }
  exfalso.
  set (f := fun j => default 0 (slot <$> lanes s m !! j)).
  assert (seqZ 0 n ⊆+ (f <$> elements (L ∖ {[k]}))) as Hsub.
  { apply NoDup_submseteq; [apply NoDup_seqZ|]. intros i Hi. apply list_elem_of_fmap.
    assert (live_count s (lanes s m) k t i <> 0) as Hlc.
    { intros H0. apply Hno, Exists_exists. eauto. }
    unfold live_count in Hlc. destruct (filter _ _) as [|[j e] l] eqn:E; [done|].
    assert ((j, e) ∈ filter (live_on s k t i) (map_to_list (lanes s m))) as Hin by (rewrite E; left).
    apply list_elem_of_filter in Hin as [(Hs & Hne & Hl) Hin]. apply elem_of_map_to_list in Hin. simpl in *.
    exists j. split; [unfold f; by rewrite Hin|]. apply elem_of_elements, elem_of_difference. split.
    - destruct (decide (j ∈ L)); [done|]. by rewrite (crew_others _ _ _ _ _ _ Hc j e t) in Hl.
    - by apply not_elem_of_singleton. }
  apply submseteq_length in Hsub. rewrite length_seqZ, length_fmap in Hsub.
  change (length (elements (L ∖ {[k]}))) with (size (L ∖ {[k]})) in Hsub.
  rewrite size_difference in Hsub by set_solver. rewrite size_singleton in Hsub.
  pose proof (crew_size _ _ _ _ _ _ Hc). assert (size L <> 0%nat); [|lia].
  intros H0%size_empty_inv. set_solver.
Qed.

(** One request: the crew stays, the caller is placed, who was placed stays so. *)
Lemma repair_step m n L t0 t1 s c :
  crew m n L t0 t1 s -> within L t0 t1 c ->
  let s' := (lookupRepair (c_range c) s m (c_key c) n (c_now c)).2 in
  crew m n L t0 t1 s' /\ placed m L s' (c_key c) /\
  (forall k, k ∈ L -> placed m L s k -> placed m L s' k).
Proof.
  intros Hc (Hr & Hk & Ht). destruct c as [range k t]; simpl in *.
  destruct (crew_lane _ _ _ _ _ _ Hc k Hk) as (Hne & e & Hlane & Hslot & Hlive).
  destruct (lookupRepair_correct range s m k n t e Hr (crew_enabled _ _ _ _ _ _ Hc) Hne Hlane)
    as (e' & s' & Heq & Hlanes & Hseen & Hinf & Hend & Hmove & Hstay & Hgo).
  rewrite Heq. simpl.
  assert (liveWindow s' = liveWindow s /\ cfg s' = cfg s) as [Hlw Hcfg].
  { unfold lookupRepair in Heq. rewrite (crew_enabled _ _ _ _ _ _ Hc), eqb_nonempty, Hlane in Heq by done.
    simpl in Heq. injection Heq as _ <-. done. }
  assert (forall e t, liveLocked s' e t = liveLocked s e t) as Hll by (intros; unfold liveLocked; by rewrite Hlw).
  assert (0 <= slot e' < n) as Hslot' by (destruct (decide (slot e' = slot e)) as [->|Hm]; [done|by apply Hgo]).
  assert (forall j ej, j ∈ L -> j <> k -> slot e' <> slot e -> lanes s m !! j = Some ej -> slot ej <> slot e') as Halone.
  { intros j ej Hj Hjk Hm Hlj. destruct (Hgo Hm) as (_ & Hf & _). apply (Hf j ej Hlj Hjk).
    destruct (crew_lane _ _ _ _ _ _ Hc j Hj) as (_ & ej' & Hlj' & _ & Hl). assert (ej = ej') as -> by congruence.
    by apply Hl. }
  split; [|split].
  - destruct Hc as [He Hw Hsz Hl Ho]. constructor.
    + unfold enabled in *. by rewrite Hcfg.
    + by rewrite Hlw.
    + done.
    + intros j Hj. rewrite Hlanes. destruct (decide (j = k)) as [->|Hjk].
      * split; [done|]. exists e'. rewrite lookup_insert_eq. split; [done|]. split; [done|].
        intros u Hu. rewrite Hll. apply touched_live; lia.
      * rewrite lookup_insert_ne by done. destruct (Hl j Hj) as (? & ej & ? & ? & Hlj).
        split; [done|]. exists ej. split; [done|]. split; [done|]. intros u Hu. rewrite Hll. by apply Hlj.
    + intros j ej u Hj. rewrite Hlanes, lookup_insert_ne by (intros ->; done). rewrite Hll. by apply Ho.
  - intros j ej ek Hj Hjk. rewrite Hlanes, lookup_insert_eq, lookup_insert_ne by done.
    intros Hlj [= <-] Hs. destruct (decide (slot e' = slot e)) as [Hm|Hm]; [|by destruct (Halone j ej Hj Hjk Hm Hlj)].
    assert (~ collides s (lanes s m) k e t) as Hno.
    { intros Hcol. apply (proj2 Hmove); [|done]. split; [done|]. split; [done|]. by eapply crew_free_slot. }
    destruct (older j ej k e') eqn:Ho; [|done]. destruct Hno. exists j, ej. split; [done|]. split; [done|].
    split; [congruence|]. split.
    + destruct (crew_lane _ _ _ _ _ _ Hc j Hj) as (_ & ej' & Hlj' & _ & Hl). assert (ej = ej') as -> by congruence.
      by apply Hl.
    + unfold older in *. by rewrite <-(Hstay Hm).
  - intros x Hx Hp j ej ex Hj Hjx. rewrite Hlanes. destruct (decide (x = k)) as [->|Hxk].
    + rewrite lookup_insert_eq, lookup_insert_ne by done. intros Hlj [= <-] Hs.
      destruct (decide (slot e' = slot e)) as [Hm|Hm]; [|by destruct (Halone j ej Hj Hjx Hm Hlj)].
      specialize (Hp j ej e Hj Hjx Hlj Hlane ltac:(congruence)). unfold older in *. by rewrite (Hstay Hm).
    + rewrite (lookup_insert_ne _ k x) by done. destruct (decide (j = k)) as [->|Hjk].
      * rewrite lookup_insert_eq. intros [= <-] Hlx Hs.
        destruct (decide (slot e' = slot e)) as [Hm|Hm]; [|by destruct (Halone x ex Hx Hxk Hm Hlx)].
        specialize (Hp k e ex Hk Hjx Hlane Hlx ltac:(congruence)). unfold older in *. by rewrite (Hstay Hm).
      * rewrite lookup_insert_ne by done. intros. by eapply Hp.
Qed.

Lemma repairs_step m n L t0 t1 calls s :
  crew m n L t0 t1 s -> Forall (within L t0 t1) calls ->
  crew m n L t0 t1 (repairs s m n calls) /\
  forall k, k ∈ L -> k ∈ c_key <$> calls \/ placed m L s k -> placed m L (repairs s m n calls) k.
Proof.
  unfold repairs. revert s. induction calls as [|c calls IH]; intros s Hc Hcalls; cbn [foldl].
  - split; [done|]. by intros k _ [?%elem_of_nil|].
  - apply Forall_cons in Hcalls as [Hw Hcalls]. destruct (repair_step m n L t0 t1 s c Hc Hw) as (Hc' & Hnew & Hold).
    destruct (IH _ Hc' Hcalls) as [Hc'' Hp]. split; [done|].
    intros k Hk [[->|Hin]%elem_of_cons|Hin]; apply Hp; auto.
Qed.

(** C17. Let the live sessions of a model be at most as many as its slots.  Once
    each of them has sent a request, in any order and within the live window,
    no two share a slot, and from then on no request of theirs moves: the lanes
    settle and cannot ping-pong. *)
Theorem repair_round_settles m n L t0 t1 s calls :
  crew m n L t0 t1 s -> Forall (within L t0 t1) calls -> (forall k, k ∈ L -> k ∈ c_key <$> calls) ->
  let s' := repairs s m n calls in
  (forall j k ej ek, j ∈ L -> k ∈ L -> j <> k -> lanes s' m !! j = Some ej -> lanes s' m !! k = Some ek ->
     slot ej <> slot ek) /\
  (forall c, within L t0 t1 c ->
     (lookupRepair (c_range c) s' m (c_key c) n (c_now c)).1 = slot <$> lanes s' m !! c_key c).
Proof.
  intros Hc Hcalls Hall s'. destruct (repairs_step m n L t0 t1 calls s Hc Hcalls) as [Hc' Hp].
  fold s' in Hc', Hp. assert (forall k, k ∈ L -> placed m L s' k) as Hpl by eauto. split.
  - intros j k ej ek Hj Hk Hjk Hlj Hlk Hs.
    pose proof (Hpl k Hk j ej ek Hj Hjk Hlj Hlk Hs) as Ho.
    apply older_total in Ho; [|done]. rewrite (Hpl j Hj k ek ej) in Ho; done.
  - intros c (Hr & Hk & Ht). destruct (crew_lane _ _ _ _ _ _ Hc' _ Hk) as (Hne & e & Hlane & _ & _).
    destruct (lookupRepair_correct (c_range c) s' m (c_key c) n (c_now c) e Hr (crew_enabled _ _ _ _ _ _ Hc') Hne Hlane)
      as (e' & s'' & -> & _ & _ & _ & _ & Hmove & _). rewrite Hlane. simpl. f_equal.
    destruct (decide (slot e' = slot e)) as [|Hm]; [done|]. exfalso.
    apply Hmove in Hm as (_ & (j & ej & Hlj & Hjk & Hs & Hl & Ho) & _).
    destruct (decide (j ∈ L)) as [Hj|Hj].
    + by rewrite (Hpl _ Hk j ej e Hj Hjk Hlj Hlane Hs) in Ho.
    + by rewrite (crew_others _ _ _ _ _ _ Hc' j ej (c_now c) Hj Hlj Ht) in Hl.
Qed.

(** ** The scratch slot *)

(** How many sessions of slot [i] were seen within the activity window. *)
Definition active_count (s : slotAffinityStore) (ss : sessions) (now i : Z) : Z :=
  Z.of_nat (length (filter (fun ke => slot ke.2 = i /\ now - activeWindow s < seen ke.2) (map_to_list ss))).

Lemma count_fold cutoff l counts i :
  get0 (foldl (count_step cutoff) counts l) i =
  get0 counts i + Z.of_nat (length (filter (fun ke => slot ke.2 = i /\ cutoff < seen ke.2) l)).
Proof.
  revert counts. induction l as [|[k e] l IH]; intros counts; cbn [foldl].
  - rewrite filter_nil. simpl. lia.
  - rewrite IH, filter_cons. unfold count_step, after. simpl.
    destruct (Z.ltb_spec cutoff (seen e)).
    + destruct (decide (slot e = i)) as [->|].
      * rewrite get0_insert_eq, decide_True by done. simpl. lia.
      * rewrite get0_insert_ne, decide_False by naive_solver. done.
    + rewrite decide_False by lia. done.
Qed.

(** A request without a lane gets the slot with the fewest live sessions,
    among these one with the fewest sessions of the last 15 minutes, among
    these the highest; the store does not change. *)
Theorem scratchSlot_correct range s m n now :
  ranges range -> enabled s m = true -> 1 < n ->
  exists i, scratchSlot range s m n now = Some i /\ 0 <= i < n /\
    let live := live_count s (lanes s m) "" now in
    let active := active_count s (lanes s m) now in
    forall j, 0 <= j < n ->
      live i < live j \/ live i = live j /\ (active i < active j \/ active i = active j /\ j <= i).
Proof.
  intros Hr Hen Hn. unfold scratchSlot. rewrite Hen. destruct (Z.leb_spec n 1); [lia|]. simpl.
  destruct (slotLoad_correct range s (lanes s m) "" n now Hr) as [Hlen Hat].
  destruct (slotLoadLocked range s (lanes s m) "" n now) as [live used]. simpl in *.
  set (counts := foldl _ ∅ _).
  assert (forall i, get0 counts i = active_count s (lanes s m) now i) as Hcounts.
  { intros i. unfold counts. rewrite count_fold. unfold active_count. pose proof (Hr (lanes s m)) as Hp.
    rewrite Hp. unfold get0. rewrite lookup_empty. simpl. lia. }
  clearbody counts. eexists. split; [done|].
  set (key := fun i : nat => (live !!! i, get0 counts (Z.of_nat i))).
  set (R := fun a b : nat => (key a).1 < (key b).1 \/ (key a).1 = (key b).1 /\
                             ((key a).2 < (key b).2 \/ (key a).2 = (key b).2 /\ (b <= a)%nat)).
  assert (Transitive R) by (intros a b c; unfold R; lia).
  destruct (foldl_least R gt (scratch_step live counts)) with (b := (Z.to_nat n - 1)%nat)
    (l := reverse (seq 0 (Z.to_nat n - 1))) as [Hin Hle].
  - intros b. unfold R. lia.
  - intros b x Hbx. unfold scratch_step, R, key. simpl. zcases; simpl; lia.
  - apply reverse_seq_decreasing.
  - set (best := foldl _ _ _) in *.
    assert (forall i, i ∈ (Z.to_nat n - 1)%nat :: reverse (seq 0 (Z.to_nat n - 1)) <-> (i < Z.to_nat n)%nat) as Hmem.
    { intros i. rewrite elem_of_cons, elem_of_reverse, elem_of_seq. lia. }
    rewrite Hmem in Hin. split; [lia|]. intros j Hj.
    specialize (Hle (Z.to_nat j)). rewrite Hmem in Hle. specialize (Hle ltac:(lia)). unfold R, key in Hle. simpl in Hle.
    rewrite !Hcounts in Hle. rewrite (proj1 (Hat best Hin)), (proj1 (Hat (Z.to_nat j) ltac:(lia))) in Hle.
    rewrite Z2Nat.id in Hle by lia. lia.
Qed.

End Placement.
