(* ===== verification/SlotLanes.v ===== *)
(** The store of session lanes over any sequence of operations: well-formedness
    (SlotAffinity.v's [run]), the in-flight counts, what a stop forgets, and the
    runs at which the theorems of SlotPlacement.v are instantiated. *)

From S2P Require Import Prelude SlotAffinity SlotPlacement.

Module Lanes.
Import SlotAffinity Placement.

(** ** What an operation keeps *)

Lemma put_lanes_lookup s m ss m' ss' :
  byModel (put_lanes s m ss) !! m' = Some ss' ->
  m' = m /\ ss' = ss \/ m' <> m /\ byModel s !! m' = Some ss'.
Proof. simpl. rewrite lookup_insert_Some. naive_solver. Qed.

(** Every operation rewrites the lanes of one model or drops them. *)
Inductive edit (s : slotAffinityStore) : slotAffinityStore -> Prop :=
| edit_none : edit s s
| edit_put m ss : enabled s m = true \/ is_Some (byModel s !! m) -> edit s (put_lanes s m ss)
| edit_forget m : edit s (forget s m).

Lemma lanes_some s m k e : lanes s m !! k = Some e -> is_Some (byModel s !! m).
Proof. unfold lanes. destruct (byModel s !! m); [by eauto|]. simpl. by rewrite lookup_empty. Qed.

Lemma apply_edit s ev : edit s (apply s ev).
Proof.
  destruct ev as [range now [m k i|m k|m k n|m k n|m k|m k|p st]]; unfold apply; simpl.
  - unfold learn. destruct (enabled s m) eqn:E; simpl; [|constructor]. destruct (_ || _); [constructor|].
    constructor. by left.
  - unfold lookup_. destruct (enabled s m) eqn:E; simpl; [|constructor]. destruct (String.eqb k ""); [constructor|].
    destruct (lanes s m !! k); simpl; constructor. by left.
  - unfold assign. destruct (enabled s m) eqn:E; simpl; [|constructor]. destruct (_ || _); [constructor|].
    destruct (lanes s m !! k); [|destruct (slotLoadLocked _ _ _ _ _ _)]; simpl; constructor; by left.
  - unfold lookupRepair. destruct (enabled s m) eqn:E; simpl; [|constructor]. destruct (String.eqb k ""); [constructor|].
    destruct (lanes s m !! k); simpl; constructor. by left.
  - unfold begin, adjustInflight. destruct (String.eqb k ""); [constructor|].
    destruct (lanes s m !! k) eqn:E; constructor. right. by eapply lanes_some.
  - unfold end_, adjustInflight. destruct (String.eqb k ""); [constructor|].
    destruct (lanes s m !! k) eqn:E; constructor. right. by eapply lanes_some.
  - unfold onProcessStateChange. destruct (_ || _); constructor.
Qed.

Lemma edit_cfg s s' : edit s s' ->
  cfg s' = cfg s /\ maxSessions s' = maxSessions s /\ liveWindow s' = liveWindow s.
Proof. by intros []. Qed.

Section Limits.
(** The number of slots of each model. *)
Context (nSlots : string -> Z).

(** The slots an operation names are slots of its model. *)
Definition for_limits (o : op) : Prop :=
  match o with
  | Learn m _ i => i < nSlots m
  | Assign m _ n | LookupRepair m _ n => n = nSlots m
  | _ => True
  end.

Record lane_ok (m : string) (now : Z) (k : string) (e : slotAffinityEntry) : Prop := {
  lo_key : k <> "";
  lo_slot : 0 <= slot e < nSlots m;
  lo_inflight : 0 <= inflight e;
  lo_times : assigned e <= seen e /\ seen e <= now /\ lastEnd e <= now;
}.

Definition lanes_ok (max : Z) (m : string) (now : Z) (ss : sessions) : Prop :=
  Z.of_nat (size ss) <= max /\ forall k e, ss !! k = Some e -> lane_ok m now k e.

(** The store is well formed at time [now]. *)
Definition store_ok (s : slotAffinityStore) (now : Z) : Prop :=
  forall m ss, byModel s !! m = Some ss -> enabled s m = true /\ lanes_ok (maxSessions s) m now ss.

Lemma lane_ok_mono m now now' k e : now <= now' -> lane_ok m now k e -> lane_ok m now' k e.
Proof. intros Hle [Hk Hs Hi Ht]. constructor; [done..|lia]. Qed.

Lemma lanes_ok_mono max m now now' ss : now <= now' -> lanes_ok max m now ss -> lanes_ok max m now' ss.
Proof. intros Hle [Hsz Hl]. split; [done|]. intros k e Hk. eapply lane_ok_mono; [done|by apply Hl]. Qed.

(** Rewriting a lane that is there. *)
Lemma lanes_ok_update max m now ss k e0 e :
  lanes_ok max m now ss -> ss !! k = Some e0 -> lane_ok m now k e -> lanes_ok max m now (<[k := e]> ss).
Proof.
  intros [Hsz Hl] Hk He. split.
  - by rewrite map_size_insert_Some by eauto.
  - intros k' e'. rewrite lookup_insert_Some. intros [[<- <-]|[_ Hk']]; [done|by apply Hl].
Qed.

(** Adding a lane after making room. *)
Lemma lanes_ok_add range s m now ss k e :
  ranges range -> 0 < maxSessions s -> lanes_ok (maxSessions s) m now ss -> ss !! k = None -> lane_ok m now k e ->
  lanes_ok (maxSessions s) m now (<[k := e]> (make_room range s ss)).
Proof.
  intros Hr Hmax [Hsz Hl] Hk He. split.
  - pose proof (make_room_size range s ss Hr Hmax Hsz). rewrite map_size_insert_None; [lia|].
    destruct (make_room range s ss !! k) eqn:E; [|done]. apply make_room_lookup in E; [congruence|done|done].
  - intros k' e'. rewrite lookup_insert_Some. intros [[<- <-]|[_ Hk']]; [done|].
    by apply Hl, (make_room_lookup range s).
Qed.

Lemma store_ok_lanes s now m : store_ok s now -> enabled s m = true -> 0 < maxSessions s ->
  lanes_ok (maxSessions s) m now (lanes s m).
Proof.
  intros Hok Hen Hmax. unfold lanes. destruct (byModel s !! m) as [ss|] eqn:E; simpl.
  - by apply Hok.
  - split; [rewrite map_size_empty; lia|]. intros k e. by rewrite lookup_empty.
Qed.

Lemma store_ok_put s now m ss :
  store_ok s now -> enabled s m = true -> lanes_ok (maxSessions s) m now ss -> store_ok (put_lanes s m ss) now.
Proof.
  intros Hok Hen Hss m' ss' [[-> ->]|[Hm Hss']]%put_lanes_lookup; [done|]. by apply Hok.
Qed.

Lemma repair_lane_ok range s ss m k e n now :
  ranges range -> n = nSlots m -> lane_ok m now k e -> lane_ok m now k (set_seen (repair range s ss k e n now) now).
Proof.
  intros Hr -> [Hk Hs Hi Ht]. destruct (repair_spec range s ss k e (nSlots m) now Hr)
    as [(-> & _)|(_ & _ & i & Hin & _ & _ & ->)]; constructor; simpl; (lia || done).
Qed.

Lemma apply_ok s ev now :
  ranges (ev_range ev) -> for_limits (ev_op ev) -> 0 <= now <= ev_now ev -> 0 < maxSessions s ->
  store_ok s now -> store_ok (apply s ev) (ev_now ev).
Proof.
  intros Hr Hlim Hnow Hmax Hok0.
  assert (store_ok s (ev_now ev)) as Hok.
  { intros m ss Hss. destruct (Hok0 m ss Hss). split; [done|]. by apply (lanes_ok_mono _ _ now); [lia|]. }
  clear Hok0. destruct ev as [range t [m k i|m k|m k n|m k n|m k|m k|p st]]; unfold apply; simpl in *.
  - unfold learn. destruct (enabled s m) eqn:Hen; simpl; [|done].
    destruct (String.eqb_spec k ""), (Z.ltb_spec i 0); simpl; [done..|].
    pose proof (store_ok_lanes s t m Hok Hen Hmax) as Hl. apply store_ok_put; [done|done|].
    destruct (lanes s m !! k) as [e|] eqn:E; simpl.
    + pose proof (proj2 Hl k e E) as [_ Hs Hi Ht]. eapply lanes_ok_update; [done|done|].
      constructor; simpl; [done|lia|done|]. destruct (slot e =? i); simpl; lia.
    + apply lanes_ok_add; [done..|]. constructor; simpl; (lia || done).
  - unfold lookup_. destruct (enabled s m) eqn:Hen; simpl; [|done]. destruct (String.eqb_spec k ""); [done|]. simpl.
    destruct (lanes s m !! k) as [e|] eqn:E; [|done]. simpl.
    pose proof (store_ok_lanes s t m Hok Hen Hmax) as Hl. pose proof (proj2 Hl k e E) as [_ Hs Hi Ht].
    apply store_ok_put; [done|done|]. eapply lanes_ok_update; [done|done|]. constructor; simpl; (lia || done).
  - unfold assign. destruct (enabled s m) eqn:Hen; simpl; [|done]. destruct (String.eqb_spec k ""); [done|]. simpl.
    destruct (Z.leb_spec n 1); [done|]. pose proof (store_ok_lanes s t m Hok Hen Hmax) as Hl.
    destruct (lanes s m !! k) as [e|] eqn:E; simpl.
    + pose proof (proj2 Hl k e E) as [_ Hs Hi Ht]. apply store_ok_put; [done|done|].
      eapply lanes_ok_update; [done|done|]. constructor; simpl; (lia || done).
    + pose proof (pick_from_load range s (lanes s m) k n t Hr ltac:(lia)) as (Hb & _).
      destruct (slotLoadLocked range s (lanes s m) k n t) as [live used]. simpl in *.
      apply store_ok_put; [done|done|]. apply lanes_ok_add; [done..|]. constructor; simpl; (lia || done).
  - unfold lookupRepair. destruct (enabled s m) eqn:Hen; simpl; [|done]. destruct (String.eqb_spec k ""); [done|]. simpl.
    destruct (lanes s m !! k) as [e|] eqn:E; [|done]. simpl.
    pose proof (store_ok_lanes s t m Hok Hen Hmax) as Hl. apply store_ok_put; [done|done|].
    eapply lanes_ok_update; [done|done|]. apply repair_lane_ok; [done..|]. by apply Hl.
  - unfold begin, adjustInflight. destruct (String.eqb_spec k ""); [done|].
    destruct (lanes s m !! k) as [e|] eqn:E; [|done]. destruct (lanes_some _ _ _ _ E) as [ss Hss].
    destruct (Hok m ss Hss) as [Hen _]. pose proof (store_ok_lanes s t m Hok Hen Hmax) as Hl.
    pose proof (proj2 Hl k e E) as [_ Hs Hi Ht]. apply store_ok_put; [done|done|].
    eapply lanes_ok_update; [done|done|]. constructor; simpl; zcases; (lia || done).
  - unfold end_, adjustInflight. destruct (String.eqb_spec k ""); [done|].
    destruct (lanes s m !! k) as [e|] eqn:E; [|done]. destruct (lanes_some _ _ _ _ E) as [ss Hss].
    destruct (Hok m ss Hss) as [Hen _]. pose proof (store_ok_lanes s t m Hok Hen Hmax) as Hl.
    pose proof (proj2 Hl k e E) as [_ Hs Hi Ht]. apply store_ok_put; [done|done|].
    eapply lanes_ok_update; [done|done|]. constructor; simpl; zcases; (lia || done).
  - unfold onProcessStateChange. destruct (_ || _); [|done].
    intros m ss. simpl. rewrite lookup_delete_Some. intros [_ Hss]. by apply Hok.
Qed.

Definition clocked (t : Z) (evs : list event) : Prop := StronglySorted Z.le (t :: (ev_now <$> evs)).

Lemma run_ok evs s now :
  0 <= now -> 0 < maxSessions s -> clocked now evs ->
  Forall (fun ev => ranges (ev_range ev) /\ for_limits (ev_op ev)) evs -> store_ok s now ->
  store_ok (run s evs) (default now (last (ev_now <$> evs))).
Proof.
  revert s now. induction evs as [|ev evs IH]; intros s now Hnow Hmax Hcl Hevs Hok; [done|].
  apply Forall_cons in Hevs as [[Hr Hlim] Hevs]. apply StronglySorted_inv in Hcl as [Hcl Hle].
  apply Forall_cons in Hle as [Hle _].
  assert (store_ok (apply s ev) (ev_now ev)) as Hok' by (apply (apply_ok s ev now); [done|done|lia|done|done]).
  specialize (IH (apply s ev) (ev_now ev)). cbn [run foldl]. fold (run (apply s ev) evs).
  rewrite fmap_cons, last_cons. destruct (edit_cfg _ _ (apply_edit s ev)) as (_ & Hm & _).
  specialize (IH ltac:(lia) ltac:(lia) Hcl Hevs Hok'). destruct (last (ev_now <$> evs)); done.
Qed.


End Limits.

(** ** Requests in flight *)

(** How many requests of a lane began and did not end. *)
Definition delta (m k : string) (ev : event) : Z :=
  match ev_op ev with
  | Begin m' k' => if decide (m' = m /\ k' = k) then 1 else 0
  | End_ m' k' => if decide (m' = m /\ k' = k) then -1 else 0
  | _ => 0
  end.

Definition pending (m k : string) (evs : list event) : Z := sumZ (delta m k <$> evs).

Lemma pending_cons m k ev evs : pending m k (ev :: evs) = delta m k ev + pending m k evs.
Proof. done. Qed.

Lemma adjust_inflight s m k m' k' d now e :
  k' <> "" -> lanes s m' !! k' = Some e ->
  0 <= inflight e + (if decide (m = m' /\ k = k') then d else 0) ->
  exists e', lanes (adjustInflight s m k d now) m' !! k' = Some e' /\
    inflight e' = inflight e + (if decide (m = m' /\ k = k') then d else 0).
Proof.
  intros Hne He. unfold adjustInflight. destruct (decide (m = m' /\ k = k')) as [[-> ->]|Hno].
  - intros H0. rewrite eqb_nonempty, He, lanes_put_eq, lookup_insert_eq by done. eexists. split; [done|].
    simpl. zcases; lia.
  - intros _. exists e. rewrite Z.add_0_r. split; [|done].
    destruct (String.eqb k ""); [done|]. destruct (lanes s m !! k) as [e0|]; [|done].
    destruct (decide (m = m')) as [->|].
    + rewrite lanes_put_eq, lookup_insert_ne by naive_solver. done.
    + by rewrite lanes_put_ne.
Qed.

(** A put on the lanes of a model that leaves the in-flight count of a lane. *)
Lemma put_inflight s m ss m' k e e' :
  lanes s m' !! k = Some e -> (m = m' -> ss !! k = Some e' -> inflight e' = inflight e) ->
  lanes (put_lanes s m ss) m' !! k = Some e' -> inflight e' = inflight e.
Proof.
  intros He Hss. destruct (decide (m = m')) as [->|]; [rewrite lanes_put_eq; by apply Hss|].
  rewrite lanes_put_ne by done. congruence.
Qed.

Lemma apply_inflight s ev m k e e' :
  ranges (ev_range ev) -> 0 < maxSessions s -> k <> "" ->
  lanes s m !! k = Some e -> lanes (apply s ev) m !! k = Some e' ->
  0 <= inflight e + delta m k ev -> inflight e' = inflight e + delta m k ev.
Proof.
  intros Hr Hmax Hk He He' Hd. destruct ev as [range t [m0 k0 i|m0 k0|m0 k0 n|m0 k0 n|m0 k0|m0 k0|p st]];
    unfold apply, delta in *; simpl in *; rewrite ?Z.add_0_r in *.
  5: { destruct (adjust_inflight s m0 k0 m k 1 t e Hk He Hd) as (e'' & Hl & <-). unfold begin in He'. congruence. }
  5: { destruct (adjust_inflight s m0 k0 m k (-1) t e Hk He Hd) as (e'' & Hl & <-). unfold end_ in He'. congruence. }
  - revert He'. unfold learn. destruct (_ || _); [congruence|]. apply put_inflight; [done|]. intros ->.
    destruct (decide (k0 = k)) as [->|].
    + rewrite He, lookup_insert_eq. by intros [= <-].
    + rewrite lookup_insert_ne by done. destruct (negb _).
      * intros Hm%make_room_lookup; [congruence|done|done].
      * congruence.
  - revert He'. unfold lookup_. destruct (_ || _); [simpl; congruence|].
    destruct (lanes s m0 !! k0) as [e0|] eqn:E; simpl; [|congruence]. apply put_inflight; [done|]. intros ->.
    rewrite lookup_insert_Some. intros [[-> <-]|[_ ?]]; simpl; congruence.
  - revert He'. unfold assign. destruct (_ || _); [simpl; congruence|].
    destruct (lanes s m0 !! k0) as [e0|] eqn:E; [|destruct (slotLoadLocked _ _ _ _ _ _)]; simpl;
      (apply put_inflight; [done|]); intros ->; rewrite lookup_insert_Some.
    + intros [[-> <-]|[_ ?]]; simpl; congruence.
    + intros [[-> <-]|[_ Hm%make_room_lookup]]; [congruence|congruence|done|done].
  - revert He'. unfold lookupRepair. destruct (_ || _); [simpl; congruence|].
    destruct (lanes s m0 !! k0) as [e0|] eqn:E; simpl; [|congruence]. apply put_inflight; [done|]. intros ->.
    rewrite lookup_insert_Some. intros [[-> <-]|[_ ?]]; simpl; [|congruence].
    destruct (repair_spec range s (lanes s m) k e0 n t Hr) as [(-> & _)|(_ & _ & i & _ & _ & _ & ->)]; simpl; congruence.
  - revert He'. unfold onProcessStateChange. destruct (_ || _); [|congruence]. unfold forget, lanes. simpl.
    destruct (decide (p = m)) as [->|]; [by rewrite lookup_delete_eq|]. rewrite lookup_delete_ne by done.
    unfold lanes in He. congruence.
Qed.

(** The lane of [k] is there after every prefix of [evs], and requests end after
    they began. *)
Fixpoint kept (s : slotAffinityStore) (m k : string) (evs : list event) : Prop :=
  is_Some (lanes s m !! k) /\
  match evs with [] => True | ev :: evs => kept (apply s ev) m k evs end.

Definition balanced (m k : string) (n : Z) (evs : list event) : Prop :=
  forall l, l `prefix_of` evs -> 0 <= n + pending m k l.

Lemma kept_inflight evs s m k e :
  Forall (fun ev => ranges (ev_range ev)) evs -> 0 < maxSessions s -> k <> "" ->
  kept s m k evs -> lanes s m !! k = Some e -> balanced m k (inflight e) evs ->
  exists e', lanes (run s evs) m !! k = Some e' /\ inflight e' = inflight e + pending m k evs.
Proof.
  revert s e. induction evs as [|ev evs IH]; intros s e Hr Hmax Hk Hkept He Hbal.
  - exists e. unfold pending. simpl. split; [done|lia].
  - apply Forall_cons in Hr as [Hr Hrs]. destruct Hkept as [_ Hkept].
    assert (is_Some (lanes (apply s ev) m !! k)) as [e1 He1] by (destruct evs; apply Hkept).
    assert (0 <= inflight e + delta m k ev) as H1.
    { specialize (Hbal [ev] ltac:(apply prefix_cons, prefix_nil)). rewrite pending_cons in Hbal.
      change (pending m k []) with 0 in Hbal. lia. }
    pose proof (apply_inflight s ev m k e e1 Hr Hmax Hk He He1 H1) as Hinf.
    destruct (IH (apply s ev) e1 Hrs) as (e' & He' & Hinf').
    + by destruct (edit_cfg _ _ (apply_edit s ev)) as (_ & -> & _).
    + done.
    + done.
    + done.
    + intros l Hl. specialize (Hbal (ev :: l) ltac:(by apply prefix_cons)). rewrite pending_cons in Hbal. lia.
    + exists e'. split; [done|]. rewrite Hinf', Hinf, pending_cons. lia.
Qed.

(** As long as a lane is not dropped its in-flight count is exact, so a
    session with a request being served counts as live however long ago it
    began. *)
Theorem served_lane_live evs s m k e now :
  Forall (fun ev => ranges (ev_range ev)) evs -> 0 < maxSessions s -> k <> "" ->
  lanes s m !! k = Some e -> kept s m k evs -> balanced m k (inflight e) evs ->
  exists e', lanes (run s evs) m !! k = Some e' /\ inflight e' = inflight e + pending m k evs /\
    (0 < inflight e + pending m k evs -> liveLocked (run s evs) e' now = true).
Proof.
  intros Hr Hmax Hk He Hkept Hbal. destruct (kept_inflight evs s m k e Hr Hmax Hk Hkept He Hbal) as (e' & He' & Hinf).
  exists e'. split; [done|]. split; [done|]. intros Hpos. unfold liveLocked. rewrite Hinf. by zdecide.
Qed.

(** ** A stop *)

(** After the process of a model left its running states no session has a lane
    of it, until an operation places it anew. *)
Lemma stop_forgets s m st : st = "stopping" \/ st = "stopped" \/ st = "shutdown" ->
  lanes (onProcessStateChange s m st) m = ∅ /\ forall m', m' <> m -> lanes (onProcessStateChange s m st) m' = lanes s m'.
Proof.
  intros Hst. assert (onProcessStateChange s m st = forget s m) as -> by (by destruct Hst as [->|[->| ->]]).
  unfold forget, lanes. simpl. rewrite lookup_delete_eq. split; [done|]. intros. by rewrite lookup_delete_ne.
Qed.

(** ** The middleware *)

Section Pins.
Context (ValidBytes : string -> bool) (SetBytes : string -> string -> Z -> option string).
Context (range : sessions -> list (string * slotAffinityEntry)) (now1 now2 : Z).

(** The body the handler works on. *)
Definition body_of (r : Request) : option string :=
  Context_ r ≫= fun data => match Body data with Some b => Some b | None => r_Body r end.

(** The request as it is handed on with slot [i] injected into its body. *)
Definition pinned (r : Request) (data : ReqContextData) (body : string) (i : Z) (rebound : option (string * string)) : Request :=
  mkRequest (Method r) (ContentType r)
    (Some (mkData (ModelID data) (<["slot_affinity" := pretty.pretty i]> (Metadata data)) (Some body)))
    (Some body) (Z.of_nat (String.length body)) rebound.

Lemma lane_after_repair s m k n :
  enabled s m = true -> k <> "" ->
  match lookupRepair range s m k n now1 with
  | (Some i, s') => exists e, lanes s' m !! k = Some e /\ slot e = i
  | (None, s') => s' = s /\ lanes s m !! k = None
  end.
Proof.
  intros Hen Hk. unfold lookupRepair. rewrite Hen, eqb_nonempty by done. simpl.
  destruct (lanes s m !! k) as [e|] eqn:E; [|done]. rewrite lanes_put_eq, lookup_insert_eq. eauto.
Qed.

(** A full-size JSON request of a session, for a model that opted in, goes
    out with the slot of the session's lane in its body, the lane follows a
    rebinding, and the lane's in-flight count brackets the call.  A small
    request gets the scratch slot and touches no lane; a request without a
    session passes through. *)
Theorem middleware_correct s r data body mc setb :
  ranges range -> 0 < maxSessions s -> String.eqb (Method r) "POST" = true ->
  contains "application/json" (ContentType r) = true ->
  Context_ r = Some data -> body_of r = Some body ->
  cfg s !! ModelID data = Some mc -> enabled s (ModelID data) = true -> 1 < ConcurrencyLimit mc ->
  ValidBytes body = true -> (forall i, SetBytes body "id_slot" i = Some (setb i)) ->
  let m := ModelID data in
  let key := affinityLaneKey (Metadata data) in
  let out := middleware ValidBytes SetBytes range now1 now2 s r in
  if Z.of_nat (String.length body) <? minInjectBodyBytes s then
    exists i, scratchSlot range s m (ConcurrencyLimit mc) now1 = Some i /\ 0 <= i < ConcurrencyLimit mc /\
      out = (Next (pinned r data (setb i) i (SlotRebound r)) [("slot_affinity", pretty.pretty i)] None, s)
  else if String.eqb key "" then
    exists r', out = (Next r' [] None, s) /\ body_of r' = Some body
  else exists e s', lanes s' m !! key = Some e /\
    (s' = (lookupRepair range s m key (ConcurrencyLimit mc) now1).2 \/
     s' = (assign range s m key (ConcurrencyLimit mc) now2).2) /\
    out = (Next (pinned r data (setb (slot e)) (slot e) (Some (m, key)))
             [("slot_affinity", pretty.pretty (slot e))] (Some (m, key)), s').
Proof.
  intros Hr Hmax Hpost Hjson Hctx Hbody Hmc Hen Hn Hvalid Hset m key out.
  assert (out = inject ValidBytes SetBytes range now1 now2 s
                  (match Body data with Some _ => r | None => with_body r body end) data body) as Hout.
  { unfold out, middleware. unfold body_of in Hbody. rewrite Hpost, Hjson. simpl. rewrite Hctx in *. simpl in Hbody.
    destruct (Body data); [congruence|]. rewrite Hbody. done. }
  assert (body_of (match Body data with Some _ => r | None => with_body r body end) = Some body) as Hbody'.
  { unfold body_of in *. destruct (Body data) eqn:E; [done|]. simpl. rewrite Hctx in *. simpl in *. by rewrite E. }
  revert Hout Hbody'. set (r1 := match Body data with Some _ => r | None => with_body r body end). intros Hout Hbody'.
  assert (Method r1 = Method r /\ ContentType r1 = ContentType r /\ SlotRebound r1 = SlotRebound r) as (H1 & H2 & H3)
    by (unfold r1; by destruct (Body data)). rewrite Hout. unfold pinned. rewrite <-H1, <-H2, <-H3.
  clearbody r1. clear out Hout Hbody Hctx Hpost Hjson H1 H2 H3.
  unfold inject, resident_of, choose. rewrite Hmc. cbv beta zeta iota. rewrite Hmc. fold m key. fold m in Hen.
  destruct (_ <? _) eqn:Hsize.
  - destruct (scratchSlot_correct range s m (ConcurrencyLimit mc) now1 Hr Hen Hn) as (i & Hi & Hin & _).
    exists i. rewrite Hi, Hvalid, Hset. done.
  - destruct (String.eqb_spec key "") as [->|Hk].
    + exists r1. unfold lookupRepair, assign. rewrite Hen. simpl. rewrite Hen. done.
    + pose proof (lane_after_repair s m key (ConcurrencyLimit mc) Hen Hk) as Hl.
      destruct (lookupRepair range s m key (ConcurrencyLimit mc) now1) as [[i|] s1].
      * destruct Hl as (e & He & <-). exists e, s1. rewrite Hvalid, Hset. simpl.
        split; [done|]. split; [by left|]. by rewrite eqb_nonempty.
      * destruct Hl as [-> Hnone].
        destruct (assign_correct range s m key (ConcurrencyLimit mc) now2) as (i & s' & Ha & _ & _ & He & _); try done.
        rewrite Ha, Hvalid, Hset. exists (mkEntry i now2 now2 0 0), s'. simpl.
        split; [done|]. split; [by right|]. by rewrite eqb_nonempty.
Qed.

End Pins.

(** ** Runs *)

Lemma map_to_list_ranges : ranges map_to_list.
Proof. by intros ss. Qed.

Definition ex_cfg : gmap string ModelConfig := {["m" := mkModelConfig true None 2]}.

Definition at_ (sec : Z) (o : op) : event := mkEvent map_to_list (sec * nsec_second) o.

(** A session's request is being served when its model is reloaded: the lane is
    forgotten, and the lane that the rebinding of the replayed request creates
    starts with no request in flight. *)
Definition reload_run : list event :=
  [at_ 1000 (Assign "m" "A" 2); at_ 1000 (Begin "m" "A"); at_ 1010 (StateChange "m" "stopped");
   at_ 1020 (Learn "m" "A" 0); at_ 1150 (Assign "m" "B" 2); at_ 1150 (Begin "m" "B")].

(** After a reload under a request that is replayed, its session no longer
    counts as live although its request is still being served: a newcomer is
    placed on its slot. *)
Theorem reload_forgets_serving :
  let s := run (newSlotAffinityStore ex_cfg) reload_run in
  pending "m" "A" reload_run = 1 /\
  (exists e, lanes s "m" !! "A" = Some e /\ liveLocked s e (1150 * nsec_second) = false) /\
  (assign map_to_list s "m" "C" 2 (1151 * nsec_second)).1 = slot <$> lanes s "m" !! "A".
Proof.
  split; [done|]. split; [|vm_compute; reflexivity].
  exists (mkEntry 0 1020000000000 1020000000000 0 0). split; vm_compute; reflexivity.
Qed.

(** ** The theorems on concrete runs *)

Definition two_lanes : slotAffinityStore :=
  run (newSlotAffinityStore ex_cfg) [at_ 1000 (Learn "m" "A" 0); at_ 1001 (Learn "m" "B" 0)].

Definition both : list call :=
  [mkCall map_to_list "B" (1010 * nsec_second); mkCall map_to_list "A" (1020 * nsec_second)].

Definition AB : gset string := {["A"; "B"]}.

Lemma elem_of_AB k : k ∈ AB <-> k = "A" \/ k = "B".
Proof. unfold AB. set_solver. Qed.

Lemma two_lanes_elem k e : lanes two_lanes "m" !! k = Some e -> k = "A" \/ k = "B".
Proof.
  intros H. assert (k ∈ (map_to_list (lanes two_lanes "m")).*1) as Hin.
  { apply list_elem_of_fmap. exists (k, e). split; [done|]. by apply elem_of_map_to_list. }
  assert ((map_to_list (lanes two_lanes "m")).*1 = ["A"; "B"]) as Heq by (vm_compute; reflexivity).
  rewrite Heq in Hin. apply elem_of_cons in Hin as [|Hin%list_elem_of_singleton]; [by left|by right].
Qed.

Lemma two_lanes_crew : crew "m" 2 AB (1005 * nsec_second) (1030 * nsec_second) two_lanes.
Proof.
  assert (forall e t, 0 <= inflight e -> 1000 * nsec_second <= last_use e ->
            1005 * nsec_second <= t <= 1030 * nsec_second -> liveLocked two_lanes e t = true) as Hl.
  { intros e t _ Hu Ht. unfold liveLocked. destruct (0 <? inflight e); [done|].
    change (liveWindow two_lanes) with (2 * nsec_minute). unfold nsec_minute, nsec_second in *.
    apply Z.leb_le. unfold time_sub, max_int64, min_int64. zcases; lia. }
  constructor.
  - vm_compute; reflexivity.
  - vm_compute; discriminate.
  - vm_compute; discriminate.
  - intros k [->| ->]%elem_of_AB.
    + split; [done|]. exists (mkEntry 0 (1000 * nsec_second) (1000 * nsec_second) 0 0).
      split; [vm_compute; reflexivity|]. split; [done|]. intros t. apply Hl; vm_compute; discriminate.
    + split; [done|]. exists (mkEntry 0 (1001 * nsec_second) (1001 * nsec_second) 0 0).
      split; [vm_compute; reflexivity|]. split; [done|]. intros t. apply Hl; vm_compute; discriminate.
  - intros k e t Hk He. exfalso. by apply Hk, elem_of_AB, (two_lanes_elem k e).
Qed.

Lemma assign_correct_witness :
  exists i s', assign map_to_list two_lanes "m" "C" 2 (1010 * nsec_second) = (Some i, s') /\ 0 <= i < 2.
Proof.
  destruct (assign_correct map_to_list two_lanes "m" "C" 2 (1010 * nsec_second) map_to_list_ranges
              eq_refl eq_refl ltac:(discriminate) eq_refl eq_refl) as (i & s' & H & Hi & _).
  exists i, s'. exact (conj H Hi).
Defined.

Lemma lookupRepair_correct_witness :
  exists e' s', lookupRepair map_to_list two_lanes "m" "B" 2 (1010 * nsec_second) = (Some (slot e'), s') /\
    seen e' = 1010 * nsec_second.
Proof.
  assert (lanes two_lanes "m" !! "B" = Some (mkEntry 0 (1001 * nsec_second) (1001 * nsec_second) 0 0)) as HB
    by (vm_compute; reflexivity).
  destruct (lookupRepair_correct map_to_list two_lanes "m" "B" 2 (1010 * nsec_second) _ map_to_list_ranges
              eq_refl ltac:(discriminate) HB) as (e' & s' & H & _ & Hs & _).
  exists e', s'. exact (conj H Hs).
Defined.

Lemma both_within : Forall (within AB (1005 * nsec_second) (1030 * nsec_second)) both.
Proof.
  apply Forall_cons. split; [|apply Forall_cons; split; [|constructor]];
    (split; [apply map_to_list_ranges|split; [apply elem_of_AB; auto|unfold nsec_second; simpl; lia]]).
Qed.

Lemma repair_round_settles_witness :
  exists ej ek, lanes (repairs two_lanes "m" 2 both) "m" !! "A" = Some ej /\
    lanes (repairs two_lanes "m" 2 both) "m" !! "B" = Some ek /\ slot ej <> slot ek.
Proof.
  assert (exists ej, lanes (repairs two_lanes "m" 2 both) "m" !! "A" = Some ej) as [ej Hj] by (vm_compute; eexists; reflexivity).
  assert (exists ek, lanes (repairs two_lanes "m" 2 both) "m" !! "B" = Some ek) as [ek Hk] by (vm_compute; eexists; reflexivity).
  exists ej, ek. split; [exact Hj|]. split; [exact Hk|]. revert Hj Hk.
  apply (repair_round_settles "m" 2 AB (1005 * nsec_second) (1030 * nsec_second)
           two_lanes both two_lanes_crew both_within).
  - intros k [->| ->]%elem_of_AB; [right; left|left].
  - apply elem_of_AB. by left.
  - apply elem_of_AB. by right.
  - discriminate.
Defined.

Lemma scratchSlot_correct_witness : exists i, scratchSlot map_to_list two_lanes "m" 2 (1010 * nsec_second) = Some i /\ 0 <= i < 2.
Proof.
  destruct (scratchSlot_correct map_to_list two_lanes "m" 2 (1010 * nsec_second) map_to_list_ranges eq_refl eq_refl)
    as (i & H & Hi & _).
  exists i. exact (conj H Hi).
Defined.


Lemma served_lane_live_witness :
  exists e', lanes (run two_lanes [at_ 1010 (Begin "m" "A")]) "m" !! "A" = Some e' /\
    liveLocked (run two_lanes [at_ 1010 (Begin "m" "A")]) e' (2000 * nsec_second) = true.
Proof.
  assert (lanes two_lanes "m" !! "A" = Some (mkEntry 0 (1000 * nsec_second) (1000 * nsec_second) 0 0)) as HA
    by (vm_compute; reflexivity).
  assert (kept two_lanes "m" "A" [at_ 1010 (Begin "m" "A")]) as Hkept.
  { split; [rewrite HA; eauto|]. split; [|exact I].
    exists (mkEntry 0 (1000 * nsec_second) (1000 * nsec_second) 1 0). vm_compute. reflexivity. }
  assert (balanced "m" "A" 0 [at_ 1010 (Begin "m" "A")]) as Hbal.
  { intros l Hl. destruct l as [|ev l]; [vm_compute; discriminate|].
    pose proof (prefix_cons_inv_1 _ _ _ _ Hl) as ->. apply prefix_cons_inv_2, prefix_nil_inv in Hl as ->.
    vm_compute. discriminate. }
  assert (Forall (fun ev => ranges (ev_range ev)) [at_ 1010 (Begin "m" "A")]) as Hr
    by (repeat constructor; apply map_to_list_ranges).
  destruct (served_lane_live [at_ 1010 (Begin "m" "A")] two_lanes "m" "A" _ (2000 * nsec_second)
    Hr eq_refl ltac:(discriminate) HA Hkept Hbal)
    as (e' & He' & _ & Hlive).
  exists e'. exact (conj He' (Hlive eq_refl)).
Defined.

Definition big_body : string := Nat.iter 20000 (fun s => String (Ascii.ascii_of_nat 120) s) "".

Definition ex_data : ReqContextData := mkData "m" {["session_id" := "A"]} (Some big_body).

Definition ex_request : Request := mkRequest "POST" "application/json" (Some ex_data) None 20000 None.

(** The injected body, as a function of the slot. *)
Definition ex_set (body key : string) (i : Z) : option string := Some (pretty.pretty i).

Lemma middleware_correct_witness :
  exists e s', lanes s' "m" !! "A" = Some e /\
    middleware (fun _ => true) ex_set map_to_list (1010 * nsec_second) (1010 * nsec_second) two_lanes ex_request =
    (Next (pinned ex_request ex_data (pretty.pretty (slot e)) (slot e) (Some ("m", "A")))
       [("slot_affinity", pretty.pretty (slot e))] (Some ("m", "A")), s').
Proof.
  assert ((Z.of_nat (String.length big_body) <? minInjectBodyBytes two_lanes) = false) as Hsize
    by (vm_compute; reflexivity).
  assert (affinityLaneKey (Metadata ex_data) = "A") as Hkey by (vm_compute; reflexivity).
  pose proof (middleware_correct (fun _ => true) ex_set map_to_list (1010 * nsec_second) (1010 * nsec_second)
    two_lanes ex_request ex_data big_body (mkModelConfig true None 2) (fun i => pretty.pretty i) map_to_list_ranges
    eq_refl eq_refl eq_refl eq_refl eq_refl eq_refl eq_refl eq_refl eq_refl (fun i => eq_refl)) as H.
  cbv zeta in H. rewrite Hsize, Hkey in H.
  destruct H as (e & s' & He & _ & Hout). exists e, s'. exact (conj He Hout).
Defined.

End Lanes.
