(* ===== verification/AdmissionScan.v ===== *)
(** Admission frames ([internal/router/sseadmission.go]): a byte-wise scan of an
    SSE stream that spots the first frame with content and, on a replayed
    attempt, drops the attempt's own [message_start].  A byte is an integer. *)

From S2P Require Import Prelude Runes.

Module AdmissionScan.

Definition admLineCap : nat := 64.

Definition LF : Z := 10.
Definition CR : Z := 13.

Inductive admState : Type :=
| admFrameStart | admComment | admEventLine | admPassFrame | admDropFrame | admDone.

#[export] Instance admState_eq_dec : EqDecision admState.
Proof. solve_decision. Defined.

Record admissionResult := mkResult { content : bool; msgStart : bool; dropped : bool }.

Definition no_result : admissionResult := mkResult false false false.

(** [line] is [s.line[:s.n]]; the bytes of the array beyond [n] are never read. *)
Record admissionScan := mkScan {
  state : admState;
  filter_ : bool;
  line : list Z;
  lineLen : Z;
}.

Definition reset (filter_ : bool) : admissionScan := mkScan admFrameStart filter_ [] 0.

(** [bytes.HasPrefix] with the rest of the slice. *)
Fixpoint strip_prefix (p l : list Z) : option (list Z) :=
  match p, l with
  | [], l => Some l
  | b :: p, c :: l => if b =? c then strip_prefix p l else None
  | _ :: _, [] => None
  end.

Fixpoint drop_cr (l : list Z) : list Z :=
  match l with b :: l' => if b =? CR then drop_cr l' else l | [] => [] end.

(** [bytes.TrimRight(l, CR)]. *)
Definition trim_cr (l : list Z) : list Z := reverse (drop_cr (reverse l)).

(** The trimmed value of an [event:] line, as runes; [[]] for another field. *)
Definition eventName (line : list Z) : list Z :=
  match strip_prefix (bytes_of_string "event:") (trim_cr line) with
  | Some rest => trim_space (decode_runes rest)
  | None => []
  end.

Inductive event_kind : Type := MessageStart | Ping | OtherEvent.

(** The cases of the [switch] on [eventName]. *)
Definition kind_of (line : list Z) : event_kind :=
  if bool_decide (eventName line = bytes_of_string "message_start") then MessageStart
  else if bool_decide (eventName line = bytes_of_string "ping") then Ping
  else OtherEvent.

(** One byte of the loop of [feed]: the scan, the bytes appended to [out] when
    filtering, and the result; [None] when the byte ends the scan. *)
Definition feed_byte (s : admissionScan) (b : Z) (res : admissionResult)
  : option (admissionScan * list Z * admissionResult) :=
  match state s with
  | admFrameStart =>
    if (b =? LF) || (b =? CR) then Some (s, [b], res)
    else if b =? 58 then Some (mkScan admComment (filter_ s) (line s) (lineLen s), [b], res)
    else if b =? 101 then Some (mkScan admEventLine (filter_ s) [b] (lineLen s), [], res)
    else None
  | admComment =>
    Some (mkScan (if b =? LF then admFrameStart else admComment) (filter_ s) (line s) (lineLen s), [b], res)
  | admEventLine =>
    if negb (b =? LF) then
      if (length (line s) =? admLineCap)%nat then None
      else Some (mkScan admEventLine (filter_ s) (line s ++ [b]) (lineLen s), [], res)
    else
      match kind_of (line s) with
      | MessageStart =>
        if filter_ s
        then Some (mkScan admDropFrame true [] 0, [], mkResult (content res) (msgStart res) true)
        else Some (mkScan admPassFrame false [] 0, [], mkResult (content res) true (dropped res))
      | Ping => Some (mkScan admPassFrame (filter_ s) [] 0, line s ++ [b], res)
      | OtherEvent => None
      end
  | admPassFrame | admDropFrame =>
    let out := if bool_decide (state s = admPassFrame) then [b] else [] in
    if b =? LF then
      Some (mkScan (if lineLen s =? 0 then admFrameStart else state s) (filter_ s) (line s) 0, out, res)
    else Some (mkScan (state s) (filter_ s) (line s)
                 (if negb (b =? CR) then lineLen s + 1 else lineLen s), out, res)
  | admDone => None
  end.

(** [finish] with [rest = p[i:]]. *)
Definition finish (s : admissionScan) (p out rest : list Z) (res : admissionResult)
  : admissionScan * list Z * admissionResult :=
  let res := mkResult true (msgStart res) (dropped res) in
  let s' := mkScan admDone (filter_ s) (line s) (lineLen s) in
  if negb (filter_ s) then (s', p, res)
  else
    let out := if bool_decide (state s = admEventLine) then out ++ line s else out in
    (s', out ++ rest, res).

Fixpoint feed_loop (s : admissionScan) (p out rest : list Z) (res : admissionResult)
  : admissionScan * list Z * admissionResult :=
  match rest with
  | [] => (s, if negb (filter_ s) then p else out, res)
  | b :: rest' =>
    match feed_byte s b res with
    | None => finish s p out rest res
    | Some (s', o, res') => feed_loop s' p (out ++ o) rest' res'
    end
  end.

Definition feed (s : admissionScan) (p : list Z) : admissionScan * list Z * admissionResult :=
  if bool_decide (state s = admDone) || (length p =? 0)%nat then (s, p, no_result)
  else feed_loop s p [] p no_result.

(** The chunks of a stream, fed one after the other. *)
Fixpoint feeds (s : admissionScan) (ps : list (list Z)) : admissionScan * list Z * list admissionResult :=
  match ps with
  | [] => (s, [], [])
  | p :: ps =>
    let '(s, out, res) := feed s p in
    let '(s, outs, ress) := feeds s ps in
    (s, out ++ outs, res :: ress)
  end.

(** ** Chunking *)

Definition join (r1 r2 : admissionResult) : admissionResult :=
  mkResult (content r1 || content r2) (msgStart r1 || msgStart r2) (dropped r1 || dropped r2).

#[export] Instance join_assoc : Assoc eq join.
Proof. intros [] [] []. unfold join. simpl. f_equal; by rewrite orb_assoc. Qed.

Lemma join_no_l r : join no_result r = r.
Proof. by destruct r. Qed.

Lemma join_no_r r : join r no_result = r.
Proof. destruct r as [a b c]. unfold join. simpl. by rewrite !orb_false_r. Qed.

(** The result of a byte is joined to what was seen before. *)
Lemma feed_byte_res s b res :
  feed_byte s b res =
  match feed_byte s b no_result with Some (s', o, r) => Some (s', o, join res r) | None => None end.
Proof.
  unfold feed_byte. destruct (state s).
  - destruct (_ || _); [by rewrite join_no_r|]. do 2 (destruct (b =? _); [by rewrite join_no_r|]). done.
  - by rewrite join_no_r.
  - destruct (negb _).
    + destruct (_ =? _)%nat; [done|]. by rewrite join_no_r.
    + destruct (kind_of (line s)); [|by rewrite join_no_r|done].
      destruct res as [a b' c], (filter_ s); unfold join; simpl; by rewrite ?orb_false_r, ?orb_true_r.
  - destruct (b =? LF); by rewrite join_no_r.
  - destruct (b =? LF); by rewrite join_no_r.
  - done.
Qed.

Lemma feed_byte_filter s b res s' o r : feed_byte s b res = Some (s', o, r) -> filter_ s' = filter_ s.
Proof.
  unfold feed_byte. destruct (state s); repeat case_match; intros; simplify_eq/=; done.
Qed.

Lemma feed_byte_not_done s b res s' o r : feed_byte s b res = Some (s', o, r) -> state s' <> admDone.
Proof.
  unfold feed_byte. destruct (state s) eqn:E; repeat case_match; intros; simplify_eq/=; rewrite ?E; done.
Qed.

(** The loop without the chunk: the forwarded bytes of a filtering scan. *)
Fixpoint scan_bytes (s : admissionScan) (rest : list Z) : admissionScan * list Z * admissionResult :=
  match rest with
  | [] => (s, [], no_result)
  | b :: rest' =>
    if bool_decide (state s = admDone) then (s, rest, no_result)
    else match feed_byte s b no_result with
         | None => (mkScan admDone (filter_ s) (line s) (lineLen s),
                    (if bool_decide (state s = admEventLine) then line s else []) ++ rest,
                    mkResult true false false)
         | Some (s', o, r) =>
           let '(s2, o2, r2) := scan_bytes s' rest' in (s2, o ++ o2, join r r2)
         end
  end.

Lemma feed_loop_scan s p out rest res :
  state s <> admDone ->
  feed_loop s p out rest res =
  let '(s2, o2, r2) := scan_bytes s rest in (s2, if filter_ s then out ++ o2 else p, join res r2).
Proof.
  revert s out res. induction rest as [|b rest IH]; intros s out res Hd; cbn [feed_loop scan_bytes].
  - rewrite join_no_r, app_nil_r. by destruct (filter_ s).
  - rewrite (bool_decide_eq_false_2 _ Hd), feed_byte_res.
    destruct (feed_byte s b no_result) as [[[s' o] r]|] eqn:E.
    + rewrite (IH s' (out ++ o) (join res r)) by (by eapply feed_byte_not_done).
      rewrite (feed_byte_filter _ _ _ _ _ _ E). destruct (scan_bytes s' rest) as [[s2 o2] r2].
      by rewrite <-(assoc_L (++)), <-(assoc_L join).
    + unfold finish. destruct (filter_ s); simpl.
      * destruct res as [a b' c]. unfold join. simpl. rewrite orb_true_r, !orb_false_r.
        case_bool_decide; simpl; by rewrite <-?(assoc_L (++)).
      * destruct res as [a b' c]. unfold join. simpl. by rewrite orb_true_r, !orb_false_r.
Qed.

Lemma feed_scan s p :
  feed s p = let '(s2, o2, r2) := scan_bytes s p in (s2, if filter_ s then o2 else p, r2).
Proof.
  unfold feed. case_bool_decide as Hd; simpl.
  - destruct p; simpl; [by destruct (filter_ s)|]. rewrite bool_decide_eq_true_2 by done. by destruct (filter_ s).
  - destruct (length p =? 0)%nat eqn:E.
    + apply Nat.eqb_eq, nil_length_inv in E as ->. simpl. by destruct (filter_ s).
    + rewrite feed_loop_scan by done. destruct (scan_bytes s p) as [[s2 o2] r2]. by rewrite join_no_l.
Qed.

Lemma scan_done s rest : state s = admDone -> scan_bytes s rest = (s, rest, no_result).
Proof. intros H. destruct rest; simpl; [done|]. by rewrite bool_decide_eq_true_2. Qed.

Lemma scan_app s p q :
  scan_bytes s (p ++ q) =
  let '(s1, o1, r1) := scan_bytes s p in
  let '(s2, o2, r2) := scan_bytes s1 q in (s2, o1 ++ o2, join r1 r2).
Proof.
  revert s. induction p as [|b p IH]; intros s; cbn [app scan_bytes].
  - destruct (scan_bytes s q) as [[s2 o2] r2]. by rewrite join_no_l.
  - case_bool_decide as Hd.
    + rewrite scan_done by done. by rewrite join_no_r.
    + destruct (feed_byte s b no_result) as [[[s' o] r]|] eqn:E.
      * rewrite IH. destruct (scan_bytes s' p) as [[s1 o1] r1]. destruct (scan_bytes s1 q) as [[s2 o2] r2].
        by rewrite <-(assoc_L (++)), <-(assoc_L join).
      * rewrite scan_done by done. rewrite join_no_r. by rewrite <-(assoc_L (++)).
Qed.

Lemma scan_filter s p : let '(s2, _, _) := scan_bytes s p in filter_ s2 = filter_ s.
Proof.
  revert s. induction p as [|b p IH]; intros s; cbn [scan_bytes]; [done|].
  case_bool_decide; [done|]. destruct (feed_byte s b no_result) as [[[s' o] r]|] eqn:E; [|done].
  specialize (IH s'). destruct (scan_bytes s' p) as [[s2 o2] r2]. by rewrite IH, (feed_byte_filter _ _ _ _ _ _ E).
Qed.

(** How the proxy chunked the stream does not matter: feeding the chunks
    one by one forwards the same bytes, ends in the same state and sees the same
    frames as feeding the whole stream at once. *)
Theorem feed_chunking s ps :
  let '(s1, out, ress) := feeds s ps in
  feed s (concat ps) = (s1, out, foldr join no_result ress).
Proof.
  revert s. induction ps as [|p ps IH]; intros s; cbn [feeds concat].
  - rewrite feed_scan. simpl. by destruct (filter_ s).
  - rewrite !feed_scan, scan_app. pose proof (scan_filter s p) as Hf.
    destruct (scan_bytes s p) as [[s1 o1] r1]. specialize (IH s1).
    destruct (feeds s1 ps) as [[s2 out] ress]. rewrite feed_scan in IH.
    destruct (scan_bytes s1 (concat ps)) as [[s3 o3] r3]. rewrite Hf in IH. injection IH as -> <- ->.
    simpl. by destruct (filter_ s).
Qed.

(** ** Frames *)

(** Admission traffic: a blank line (or a stray CR), a comment, and an event
    frame, whose lines have a byte other than CR and which ends with an empty
    line. *)
Inductive frame : Type :=
| FSkip (b : Z)
| FComment (text : list Z)
| FEvent (eventLine : list Z) (body : list (list Z)) (crs : nat).

Definition render (f : frame) : list Z :=
  match f with
  | FSkip b => [b]
  | FComment text => 58 :: text ++ [LF]
  | FEvent l body crs => l ++ [LF] ++ concat ((fun x => x ++ [LF]) <$> body) ++ replicate crs CR ++ [LF]
  end.

Definition is_message_start (f : frame) : bool :=
  match f with FEvent l _ _ => if kind_of l is MessageStart then true else false | _ => false end.

Definition event_line (l : list Z) : Prop := head l = Some 101 /\ LF ∉ l.

Definition admission (f : frame) : Prop :=
  match f with
  | FSkip b => b = LF \/ b = CR
  | FComment text => LF ∉ text
  | FEvent l body _ =>
    event_line l /\ (length l <= admLineCap)%nat /\ kind_of l <> OtherEvent /\
    Forall (fun x => LF ∉ x /\ (exists c, c ∈ x /\ c <> CR)) body
  end.

(** The start of a frame that is not admission traffic. *)
Definition content_start (tail : list Z) : Prop :=
  (exists b t, tail = b :: t /\ b <> LF /\ b <> CR /\ b <> 58 /\ b <> 101) \/
  (exists l t, tail = l ++ LF :: t /\ event_line l /\ (length l <= admLineCap)%nat /\ kind_of l = OtherEvent) \/
  (exists l t, tail = l ++ t /\ event_line l /\ (admLineCap < length l)%nat).

Lemma scan_comment s text :
  state s = admComment -> LF ∉ text ->
  scan_bytes s (text ++ [LF]) = (mkScan admFrameStart (filter_ s) (line s) (lineLen s), text ++ [LF], no_result).
Proof.
  intros Hs. destruct s as [st f l ll]; simpl in Hs; subst st.
  induction text as [|b text IH]; intros Hlf; [done|].
  apply not_elem_of_cons in Hlf as [Hb Hlf]. cbn [app scan_bytes]. rewrite bool_decide_eq_false_2 by done.
  unfold feed_byte. simpl. rewrite (proj2 (Z.eqb_neq b LF)) by done. rewrite IH by done. by rewrite join_no_l.
Qed.

Lemma scan_event_line s l :
  state s = admEventLine -> LF ∉ l -> (length (line s) + length l <= admLineCap)%nat ->
  scan_bytes s l = (mkScan admEventLine (filter_ s) (line s ++ l) (lineLen s), [], no_result).
Proof.
  destruct s as [st f ln ll]; simpl. intros ->. revert ln.
  induction l as [|b l IH]; intros ln Hlf Hlen; cbn [scan_bytes]; [by rewrite app_nil_r|].
  apply not_elem_of_cons in Hlf as [Hb Hlf]. rewrite bool_decide_eq_false_2 by done.
  unfold feed_byte. simpl in *. rewrite (proj2 (Z.eqb_neq b LF)) by done. simpl.
  rewrite (proj2 (Nat.eqb_neq _ _)) by lia. rewrite IH; [|done|rewrite length_app; simpl; lia].
  by rewrite <-(assoc_L (++)).
Qed.

(** The bytes that a frame being passed or dropped contributes. *)
Definition emit (st : admState) (l : list Z) : list Z := if bool_decide (st = admPassFrame) then l else [].

Lemma emit_cat st l k : emit st (l ++ k) = emit st l ++ emit st k.
Proof. unfold emit. by case_bool_decide. Qed.

Definition in_frame (st : admState) : Prop := st = admPassFrame \/ st = admDropFrame.

Lemma scan_line_bytes st f ln ll x :
  in_frame st -> LF ∉ x ->
  scan_bytes (mkScan st f ln ll) x =
  (mkScan st f ln (ll + Z.of_nat (length (List.filter (fun b => negb (b =? CR)) x))), emit st x, no_result).
Proof.
  intros Hst. revert ll. induction x as [|b x IH]; intros ll Hlf; cbn [scan_bytes].
  - simpl. rewrite Z.add_0_r. unfold emit. by case_bool_decide.
  - apply not_elem_of_cons in Hlf as [Hb Hlf]. rewrite bool_decide_eq_false_2 by (by destruct Hst; subst).
    assert (feed_byte (mkScan st f ln ll) b no_result =
            Some (mkScan st f ln (if negb (b =? CR) then ll + 1 else ll), emit st [b], no_result)) as ->.
    { unfold feed_byte, emit. destruct Hst as [-> | ->]; simpl; by rewrite (proj2 (Z.eqb_neq b LF)). }
    rewrite IH by done. change (b :: x) with ([b] ++ x). rewrite emit_cat, join_no_l. simpl.
    destruct (negb (b =? CR)); simpl;
      match goal with |- (mkScan _ _ _ ?a, _, _) = (mkScan _ _ _ ?c, _, _) => replace a with c by lia; done end.
Qed.

Lemma scan_line st f ln x :
  in_frame st -> LF ∉ x -> (exists c, c ∈ x /\ c <> CR) ->
  scan_bytes (mkScan st f ln 0) (x ++ [LF]) = (mkScan st f ln 0, emit st (x ++ [LF]), no_result).
Proof.
  intros Hst Hlf (c & Hc & Hcr). rewrite scan_app, scan_line_bytes by done.
  assert (0 < Z.of_nat (length (List.filter (fun b => negb (b =? CR)) x))) as Hpos.
  { assert (c ∈ List.filter (fun b => negb (b =? CR)) x) as Hin.
    { apply elem_of_filterb. split; [done|]. by rewrite (proj2 (Z.eqb_neq c CR)). }
    destruct (List.filter _ x); [by apply elem_of_nil in Hin|simpl; lia]. }
  cbn [scan_bytes]. rewrite bool_decide_eq_false_2 by (by destruct Hst; subst).
  unfold feed_byte. destruct Hst as [-> | ->]; simpl; rewrite (proj2 (Z.eqb_neq _ 0)) by lia;
    rewrite emit_cat; done.
Qed.

Lemma scan_body st f ln body crs :
  in_frame st -> Forall (fun x => LF ∉ x /\ (exists c, c ∈ x /\ c <> CR)) body ->
  scan_bytes (mkScan st f ln 0) (concat ((fun x => x ++ [LF]) <$> body) ++ replicate crs CR ++ [LF]) =
  (mkScan admFrameStart f ln 0, emit st (concat ((fun x => x ++ [LF]) <$> body) ++ replicate crs CR ++ [LF]), no_result).
Proof.
  intros Hst. induction 1 as [|x body [Hlf Hc] Hbody IH].
  - cbn [fmap list_fmap concat app].
    assert (LF ∉ replicate crs CR) as Hlf by (intros [? _]%elem_of_replicate; discriminate).
    rewrite scan_app, scan_line_bytes by done.
    assert (List.filter (fun b => negb (b =? CR)) (replicate crs CR) = []) as -> by (clear; induction crs; [done|simpl; done]).
    cbn [scan_bytes]. rewrite bool_decide_eq_false_2 by (by destruct Hst; subst).
    unfold feed_byte. destruct Hst as [-> | ->]; done.
  - rewrite fmap_cons. cbn [concat]. rewrite <-app_assoc, scan_app, scan_line, IH by done.
    by rewrite <-emit_cat.
Qed.

(** One admission frame. *)
Lemma scan_frame s f :
  state s = admFrameStart -> admission f ->
  exists s' o, scan_bytes s (render f) = (s', o, mkResult false (negb (filter_ s) && is_message_start f)
                                                   (filter_ s && is_message_start f)) /\
    state s' = admFrameStart /\ filter_ s' = filter_ s /\
    (filter_ s = true -> o = if is_message_start f then [] else render f).
Proof.
  destruct s as [st flt ln ll]; simpl. intros ->. destruct f as [b|text|l body crs]; simpl.
  - intros [-> | ->]; rewrite !andb_false_r; eexists _, _; (split; [reflexivity|]); done.
  - intros Hlf. rewrite !andb_false_r. unfold feed_byte. simpl. rewrite scan_comment by done. by eexists _, _.
  - intros ((Hhd & Hlf) & Hlen & Hk & Hbody). destruct l as [|b l]; [done|]. injection Hhd as ->.
    apply not_elem_of_cons in Hlf as [_ Hlf]. cbn [app scan_bytes].
    rewrite bool_decide_eq_false_2 by done.
    assert (feed_byte (mkScan admFrameStart flt ln ll) 101 no_result =
            Some (mkScan admEventLine flt [101] ll, [], no_result)) as -> by done.
    rewrite scan_app, scan_event_line by (simpl in *; (done || lia)). cbn [app filter_ line lineLen scan_bytes].
    rewrite bool_decide_eq_false_2 by done.
    assert (feed_byte (mkScan admEventLine flt (101 :: l) ll) LF no_result =
      match kind_of (101 :: l) with
      | MessageStart => if flt then Some (mkScan admDropFrame true [] 0, [], mkResult false false true)
                        else Some (mkScan admPassFrame false [] 0, [], mkResult false true false)
      | Ping => Some (mkScan admPassFrame flt [] 0, (101 :: l) ++ [LF], no_result)
      | OtherEvent => None
      end) as -> by done.
    destruct (kind_of (101 :: l)); [destruct flt| |done]; rewrite scan_body by (done || (left; done) || (right; done));
      eexists _, _; (split; [rewrite ?andb_false_r; reflexivity|]); (split; [done|]); (split; [done|]); try done.
    intros _. unfold emit. simpl. by rewrite <-app_assoc.
Qed.

Lemma scan_frames s fs :
  state s = admFrameStart -> Forall admission fs ->
  exists s' o, scan_bytes s (concat (render <$> fs)) =
      (s', o, mkResult false (negb (filter_ s) && existsb is_message_start fs) (filter_ s && existsb is_message_start fs)) /\
    state s' = admFrameStart /\ filter_ s' = filter_ s /\
    (filter_ s = true -> o = concat (render <$> List.filter (fun f => negb (is_message_start f)) fs)).
Proof.
  intros Hs Hfs. revert s Hs. induction Hfs as [|f fs Hf Hfs IH]; intros s Hs.
  - simpl. rewrite !andb_false_r. by exists s, [].
  - rewrite fmap_cons. cbn [concat]. rewrite scan_app.
    destruct (scan_frame s f Hs Hf) as (s1 & o1 & -> & Hs1 & Hf1 & Ho1).
    destruct (IH s1 Hs1) as (s2 & o2 & -> & Hs2 & Hf2 & Ho2). rewrite Hf1 in *.
    eexists s2, _. split.
    + unfold join. simpl. by rewrite !andb_orb_distrib_r.
    + split; [done|]. split; [done|]. intros Ht. rewrite (Ho1 Ht), (Ho2 Ht). simpl.
      by destruct (is_message_start f).
Qed.

Lemma scan_content s tail :
  state s = admFrameStart -> content_start tail ->
  exists s', scan_bytes s tail = (s', tail, mkResult true false false) /\ state s' = admDone.
Proof.
  destruct s as [st flt ln ll]; simpl. intros ->.
  assert (forall l t, scan_bytes (mkScan admFrameStart flt ln ll) (101 :: l ++ t) =
            let '(s2, o, r) := scan_bytes (mkScan admEventLine flt [101] ll) (l ++ t) in (s2, o, join no_result r)) as Hline.
  { intros l t. done. }
  intros [(b & t & -> & Hlf & Hcr & H58 & H101)|[(l & t & -> & (Hhd & Hlf) & Hlen & Hk)|(l & t & -> & (Hhd & Hlf) & Hlen)]].
  - cbn [scan_bytes]. rewrite bool_decide_eq_false_2 by done. unfold feed_byte. simpl.
    rewrite !(proj2 (Z.eqb_neq b _)) by done. eexists. split; [reflexivity|done].
  - destruct l as [|b l]; [done|]. injection Hhd as ->. apply not_elem_of_cons in Hlf as [_ Hlf].
    cbn [app]. rewrite Hline, scan_app, scan_event_line by (simpl in *; (done || lia)). cbn [app filter_ line lineLen scan_bytes].
    rewrite bool_decide_eq_false_2 by done.
    assert (feed_byte (mkScan admEventLine flt (101 :: l) ll) LF no_result = None) as ->
      by (unfold feed_byte; simpl; by rewrite Hk).
    eexists. split; [reflexivity|done].
  - destruct l as [|b l]; [done|]. injection Hhd as ->. apply not_elem_of_cons in Hlf as [_ Hlf].
    simpl in Hlen. assert (exists l1 c l2, l = l1 ++ c :: l2 /\ length l1 = 63%nat) as (l1 & c & l2 & -> & Hl1).
    { exists (take 63 l). destruct (drop 63 l) as [|c l2] eqn:E.
      - apply (f_equal length) in E. rewrite length_drop in E. unfold admLineCap in *. simpl in *. lia.
      - exists c, l2. rewrite <-E, take_drop. split; [done|]. rewrite length_take. unfold admLineCap in *. lia. }
    apply not_elem_of_app in Hlf as [Hlf1 [Hc _]%not_elem_of_cons].
    cbn [app]. rewrite Hline, <-app_assoc, scan_app, scan_event_line by (simpl; rewrite ?Hl1; (done || (unfold admLineCap; lia))).
    cbn [app filter_ line lineLen scan_bytes]. rewrite bool_decide_eq_false_2 by done.
    assert (feed_byte (mkScan admEventLine flt (101 :: l1) ll) c no_result = None) as ->.
    { unfold feed_byte. cbn [state line]. rewrite (proj2 (Z.eqb_neq c LF)) by done. simpl. by rewrite Hl1. }
    eexists. split; [reflexivity|done].
Qed.

(** On a stream of comments, pings and [message_start] frames, followed or
    not by a frame with content, a filtering scan forwards every byte except
    those of the [message_start] frames, a scan that does not filter forwards
    every byte, and the result says whether a [message_start] went through or
    was dropped and whether content began. *)
Theorem admission_frames_exact flt fs tail :
  Forall admission fs -> tail = [] \/ content_start tail ->
  exists s', feed (reset flt) (concat (render <$> fs) ++ tail) =
    (s', (if flt then concat (render <$> List.filter (fun f => negb (is_message_start f)) fs)
          else concat (render <$> fs)) ++ tail,
     mkResult (negb (bool_decide (tail = []))) (negb flt && existsb is_message_start fs)
       (flt && existsb is_message_start fs)) /\
    state s' = if bool_decide (tail = []) then admFrameStart else admDone.
Proof.
  intros Hfs Htail. rewrite feed_scan, scan_app.
  destruct (scan_frames (reset flt) fs eq_refl Hfs) as (s1 & o1 & -> & Hs1 & Hf1 & Ho1). simpl in *.
  destruct Htail as [->|Hc].
  - simpl. rewrite join_no_r, app_nil_r. exists s1. split; [|done]. destruct flt; [by rewrite Ho1, app_nil_r|done].
  - assert (tail <> []) as Hne.
    { intros ->. destruct Hc as [(? & ? & ? & _)|[(l & ? & H & _)|(l & ? & H & (Hh & _) & _)]]; [done|by destruct l|].
      symmetry in H. apply app_eq_nil in H as [-> _]. done. }
    destruct (scan_content s1 tail Hs1 Hc) as (s2 & -> & Hs2). exists s2.
    rewrite (bool_decide_eq_false_2 _ Hne). split; [|done].
    unfold join. simpl. rewrite !orb_false_r. destruct flt; [by rewrite Ho1|done].
Qed.

Definition ex_frames : list frame :=
  [FComment []; FSkip LF; FEvent (bytes_of_string "event: ping") [bytes_of_string "data: {}"] 0;
   FEvent (bytes_of_string "event: message_start") [bytes_of_string "data: {}"] 0].

Definition ex_tail : list Z := bytes_of_string "data: x".

Lemma ex_frames_admission : Forall admission ex_frames.
Proof.
  assert (forall name, LF ∉ name -> head name = Some 101 -> (length name <= admLineCap)%nat -> kind_of name <> OtherEvent ->
            admission (FEvent name [bytes_of_string "data: {}"] 0)) as Hev.
  { intros name H1 H2 H3 H4. do 2 (split; [done|]). split; [done|]. constructor; [|constructor]. split.
    - apply (bool_decide_unpack _). vm_compute. exact I.
    - exists 100. split; [left|discriminate]. }
  apply Forall_cons. split; [apply not_elem_of_nil|]. apply Forall_cons. split; [by left|].
  repeat (apply Forall_cons; split; [apply Hev|]); try apply Forall_nil_2; try reflexivity; try discriminate;
    try (vm_compute; lia); apply (bool_decide_unpack _); vm_compute; exact I.
Qed.

Lemma ex_tail_content : content_start ex_tail.
Proof. left. exists 100, (bytes_of_string "ata: x"). split; [reflexivity|]. repeat split; discriminate. Qed.

Lemma admission_frames_exact_witness :
  exists s', feed (reset true) (concat (render <$> ex_frames) ++ ex_tail) =
    (s', concat (render <$> take 3 ex_frames) ++ ex_tail, mkResult true false true).
Proof.
  destruct (admission_frames_exact true ex_frames ex_tail ex_frames_admission (or_intror ex_tail_content)) as (s' & H & _).
  exists s'. exact H.
Defined.

End AdmissionScan.
