(* ===== verification/PingWriter.v ===== *)
(** The keepalive writer of an Anthropic stream ([internal/router/pinging.go]),
    with the part of its stall guard that decides ([peerstall.go]) and the
    writer of a preemptible attempt ([preempt.go]).

    A [pingWriter] is shared by the handler that copies the upstream response
    and by the ping loop; its mutex makes [tryPing], [WriteHeader] and
    [prefillStallCut] atomic, while [Write] takes the bytes under the mutex and
    hands them to the client after it ([write_begin], [write_end]).  What the
    client is sent is logged in [out]. *)

From S2P Require Import Prelude Runes AdmissionScan.

Module PingWriter.
Import AdmissionScan.

Definition maxReplayHeld : Z := 270 * nsec_second.
Definition pingQuietDelay : Z := 20 * nsec_second.
Definition pingInterval : Z := 15 * nsec_second.
Definition pingZeroBudget : Z := maxReplayHeld.

(** What is written to the client: a status line, a ping event, an error event,
    bytes of the upstream. *)
Inductive emission : Type :=
| EHead (code : Z)
| EPing
| EError (errType : string)
| EData (bytes : list Z).

Record pingWriter := mkPw {
  stopped : bool;
  errored : bool;
  start : Z;
  lastPing : Z;
  headersSent : bool;
  pingsStarted : bool;
  wroteBody : bool;
  pingedThisGap : bool;
  lastBodyWrite : Z;
  tail : list Z;
  wroteContent : bool;
  pastAdmission : bool;
  msgStartSent : bool;
  scan : admissionScan;
  slotStart : Z;
  allowed : bool;
  (* the stall guard: its two budgets, its latch and the verdict that cancelled *)
  g_timeout : Z;
  g_slotTimeout : Z;
  fired : option string;
  (* the ping loop, the write of the handler under way, the client *)
  looping : bool;
  pending : option (list Z);
  out : list emission;
}.

Definition newPingWriter (allowed : bool) (timeout slotTimeout now : Z) : pingWriter :=
  mkPw false false now 0 false false false false 0 [] false false false (reset false) 0 allowed
    timeout slotTimeout None true None [].

(** ** Field updates *)

Definition emits (pw : pingWriter) (es : list emission) : pingWriter :=
  mkPw (stopped pw) (errored pw) (start pw) (lastPing pw) (headersSent pw) (pingsStarted pw) (wroteBody pw)
    (pingedThisGap pw) (lastBodyWrite pw) (tail pw) (wroteContent pw) (pastAdmission pw) (msgStartSent pw) (scan pw)
    (slotStart pw) (allowed pw) (g_timeout pw) (g_slotTimeout pw) (fired pw) (looping pw) (pending pw) (out pw ++ es).

Definition set_errored (pw : pingWriter) : pingWriter :=
  mkPw (stopped pw) true (start pw) (lastPing pw) (headersSent pw) (pingsStarted pw) (wroteBody pw)
    (pingedThisGap pw) (lastBodyWrite pw) (tail pw) (wroteContent pw) (pastAdmission pw) (msgStartSent pw) (scan pw)
    (slotStart pw) (allowed pw) (g_timeout pw) (g_slotTimeout pw) (fired pw) (looping pw) (pending pw) (out pw).

Definition set_headers (pw : pingWriter) (pings : bool) : pingWriter :=
  mkPw (stopped pw) (errored pw) (start pw) (lastPing pw) true (pings || pingsStarted pw) (wroteBody pw)
    (pingedThisGap pw) (lastBodyWrite pw) (tail pw) (wroteContent pw) (pastAdmission pw) (msgStartSent pw) (scan pw)
    (slotStart pw) (allowed pw) (g_timeout pw) (g_slotTimeout pw) (fired pw) (looping pw) (pending pw) (out pw).

Definition set_pinged (pw : pingWriter) (now : Z) : pingWriter :=
  mkPw (stopped pw) (errored pw) (start pw) now (headersSent pw) (pingsStarted pw) (wroteBody pw)
    true (lastBodyWrite pw) (tail pw) (wroteContent pw) (pastAdmission pw) (msgStartSent pw) (scan pw)
    (slotStart pw) (allowed pw) (g_timeout pw) (g_slotTimeout pw) (fired pw) (looping pw) (pending pw) (out pw).

Definition set_fired (pw : pingWriter) (f : option string) : pingWriter :=
  mkPw (stopped pw) (errored pw) (start pw) (lastPing pw) (headersSent pw) (pingsStarted pw) (wroteBody pw)
    (pingedThisGap pw) (lastBodyWrite pw) (tail pw) (wroteContent pw) (pastAdmission pw) (msgStartSent pw) (scan pw)
    (slotStart pw) (allowed pw) (g_timeout pw) (g_slotTimeout pw) f (looping pw) (pending pw) (out pw).

Definition set_scan (pw : pingWriter) (s : admissionScan) : pingWriter :=
  mkPw (stopped pw) (errored pw) (start pw) (lastPing pw) (headersSent pw) (pingsStarted pw) (wroteBody pw)
    (pingedThisGap pw) (lastBodyWrite pw) (tail pw) (wroteContent pw) (pastAdmission pw) (msgStartSent pw) s
    (slotStart pw) (allowed pw) (g_timeout pw) (g_slotTimeout pw) (fired pw) (looping pw) (pending pw) (out pw).

Definition set_grant (pw : pingWriter) (slotStart : Z) (allowed stopped looping : bool) (pending : option (list Z)) : pingWriter :=
  mkPw stopped (errored pw) (start pw) (lastPing pw) (headersSent pw) (pingsStarted pw) (wroteBody pw)
    (pingedThisGap pw) (lastBodyWrite pw) (tail pw) (wroteContent pw) (pastAdmission pw) (msgStartSent pw) (scan pw)
    slotStart allowed (g_timeout pw) (g_slotTimeout pw) (fired pw) looping pending (out pw).

(** ** The stall guard *)

(** [fire]: only the first verdict counts. *)
Definition fire (pw : pingWriter) (verdict : string) : pingWriter :=
  match fired pw with Some _ => pw | None => set_fired pw (Some verdict) end.

Definition stalled (pw : pingWriter) : bool := bool_decide (is_Some (fired pw)).

(** The guard around one write to the client: [burned] tells that the write used
    up the whole budget. *)
Definition guard_write (pw : pingWriter) (burned : bool) : pingWriter :=
  if g_timeout pw <=? 0 then pw else if burned then fire pw "peer-stalled" else pw.

(** ** The writer *)

Definition slotGranted (pw : pingWriter) (now : Z) : pingWriter :=
  set_grant pw now (allowed pw) (stopped pw) (looping pw) (pending pw).

Definition allowPings (pw : pingWriter) : pingWriter :=
  set_grant pw (slotStart pw) true (stopped pw) (looping pw) (pending pw).

Definition pingsCommitted (pw : pingWriter) : bool := pingsStarted pw.

Definition writeSSEErrorLocked (pw : pingWriter) (errType : string) : pingWriter :=
  emits (set_errored pw) [EError errType].

(** Commit the status line of a ping stream, if there is none yet. *)
Definition commit_sse (pw : pingWriter) : pingWriter :=
  if headersSent pw then pw else set_headers (emits pw [EHead 200]) true.

Definition ends_event (l : list Z) : bool := bool_decide (l = [LF; LF]).

(** One run of the ping loop's body: the delay until the next, or [None] when
    the loop ends.  [err]: the write of the ping failed. *)
Definition tryPing (pw : pingWriter) (now : Z) (err burned : bool) : pingWriter * option Z :=
  if stopped pw || errored pw then (pw, None)
  else if negb (allowed pw) then (pw, Some pingInterval)
  else if negb (wroteBody pw) && pingsStarted pw && negb (is_zero_time (slotStart pw)) &&
          (pingZeroBudget <=? time_sub now (slotStart pw)) then
    (fire (writeSSEErrorLocked pw "overloaded_error") "zero-output-budget", None)
  else if (0 <? g_slotTimeout pw) && wroteBody pw && negb (is_zero_time (slotStart pw)) &&
          (g_slotTimeout pw <=? time_sub now (lastBodyWrite pw)) then
    (fire (writeSSEErrorLocked pw "api_error") "slot-stalled", None)
  else
    let '(base, delay) :=
      if pingedThisGap pw then (lastPing pw, pingInterval)
      else (if wroteBody pw then lastBodyWrite pw else start pw, pingQuietDelay) in
    let remaining := time_sub (base + delay) now in
    if 0 <? remaining then (pw, Some remaining)
    else if wroteBody pw && negb (ends_event (tail pw)) then (pw, Some pingInterval)
    else
      let pw := guard_write (emits (commit_sse pw) [EPing]) burned in
      if err then (pw, None)
      else if stalled pw then (pw, None)
      else (set_pinged pw now, Some pingInterval).

(** [strings.Split(p, LF)]. *)
Fixpoint split_lf (p : list Z) : list (list Z) :=
  match p with
  | [] => [[]]
  | b :: p =>
    if b =? LF then [] :: split_lf p
    else match split_lf p with l :: ls => (b :: l) :: ls | [] => [[b]] end
  end.

(** [strings.TrimSuffix(line, CR)]. *)
Definition trim_one_cr (l : list Z) : list Z :=
  match reverse l with b :: r => if b =? CR then reverse r else l | [] => [] end.

Fixpoint comment_lines (ls : list (list Z)) (sawComment : bool) : bool :=
  match ls with
  | [] => sawComment
  | l :: ls =>
    match trim_one_cr l with
    | [] => comment_lines ls sawComment
    | b :: _ => if b =? 58 then comment_lines ls true else false
    end
  end.

Definition isSSECommentOnly (p : list Z) : bool := comment_lines (split_lf p) false.

Definition last2 (l : list Z) : list Z := drop (length l - 2) l.

(** The first half of [Write], under the mutex: the bytes to forward are left in
    [pending]. *)
Definition write_begin (pw : pingWriter) (p : list Z) (now : Z) : pingWriter :=
  let '(o, past, sent, sc) :=
    if negb (pastAdmission pw) then
      let '(sc, o, res) := feed (scan pw) p in
      (o, content res, msgStartSent pw || msgStart res, sc)
    else (p, true, msgStartSent pw, scan pw) in
  let tl := if (2 <=? length o)%nat then last2 o else last2 (tail pw ++ o) in
  mkPw (stopped pw) (errored pw) (start pw) (lastPing pw) (headersSent pw) (pingsStarted pw) true
    false now tl (wroteContent pw || negb (isSSECommentOnly p)) past sent sc
    (slotStart pw) (allowed pw) (g_timeout pw) (g_slotTimeout pw) (fired pw) (looping pw)
    (if errored pw || (length o =? 0)%nat then None else Some o) (out pw).

(** The second half: the write to the client, under the guard. *)
Definition write_end (pw : pingWriter) (burned : bool) : pingWriter :=
  match pending pw with
  | None => pw
  | Some o =>
    guard_write (emits (set_grant pw (slotStart pw) (allowed pw) (stopped pw) (looping pw) None) [EData o]) burned
  end.

Definition WriteHeader (pw : pingWriter) (code : Z) : pingWriter :=
  let pw := set_scan pw (reset (msgStartSent pw)) in
  if negb (pingsStarted pw) && negb (headersSent pw) then set_headers (emits pw [EHead code]) false
  else if (400 <=? code) && negb (errored pw) then emits (set_errored pw) [EError "api_error"]
  else pw.

Definition preFirstToken (pw : pingWriter) : bool := negb (wroteContent pw).

Definition replaySafe (pw : pingWriter) : bool :=
  negb (pastAdmission pw) && (bool_decide (tail pw = []) || ends_event (tail pw)).

Definition prefillStallCut (pw : pingWriter) : pingWriter * bool :=
  if stopped pw || errored pw || wroteContent pw then (pw, false)
  else (fire (writeSSEErrorLocked (commit_sse pw) "api_error") "prefill-stalled", true).

Definition Flush (pw : pingWriter) (burned : bool) : pingWriter := guard_write pw burned.

Definition stop (pw : pingWriter) : pingWriter :=
  set_grant pw (slotStart pw) (allowed pw) true (looping pw) (pending pw).

(** ** Any interleaving of the handler, the ping loop, the watcher *)

Inductive action : Type :=
| Tick (now : Z) (err burned : bool)
| Head (code : Z)
| WriteBegin (p : list Z) (now : Z)
| WriteEnd (burned : bool)
| FlushBody (burned : bool)
| Granted (now : Z)
| Allow
| PrefillCut
| Stop.

(** The handler is one goroutine: it starts nothing while a write is under way,
    and it has returned when the writer is stopped.  The loop runs until
    [tryPing] ends it. *)
Definition act (pw : pingWriter) (a : action) : option pingWriter :=
  match a with
  | Tick now err burned =>
    if looping pw then
      let '(pw, wait) := tryPing pw now err burned in
      Some (set_grant pw (slotStart pw) (allowed pw) (stopped pw) (bool_decide (is_Some wait)) (pending pw))
    else None
  | Head code => if stopped pw || bool_decide (is_Some (pending pw)) then None else Some (WriteHeader pw code)
  | WriteBegin p now => if stopped pw || bool_decide (is_Some (pending pw)) then None else Some (write_begin pw p now)
  | WriteEnd burned => if bool_decide (is_Some (pending pw)) then Some (write_end pw burned) else None
  | FlushBody burned => if stopped pw || bool_decide (is_Some (pending pw)) then None else Some (Flush pw burned)
  | Granted now => Some (slotGranted pw now)
  | Allow => Some (allowPings pw)
  | PrefillCut => Some (prefillStallCut pw).1
  | Stop => if bool_decide (is_Some (pending pw)) then None else Some (stop pw)
  end.

Fixpoint run (pw : pingWriter) (acts : list action) : option pingWriter :=
  match acts with [] => Some pw | a :: acts => match act pw a with Some pw => run pw acts | None => None end end.

(** ** The writer of an attempt ([preemptResponseWriter]) *)

(** [pw]: the writer below, here a [pingWriter]; the flags are the attempt's. *)
Record attempt := mkAttempt {
  preempted : bool;
  replayWanted : option bool;    (* [None]: not eligible for a replay *)
  wroteHeader : bool;
}.

(** [WriteHeader] of the attempt's writer: the attempt, and what it does to the
    writer below: nothing, the given status, or the give-up answer. *)
Inductive below : Type := Nothing | PassHeader (code : Z) | GiveUp | PassBytes (b : list Z).

Definition attempt_WriteHeader (a : attempt) (code : Z) : attempt * below :=
  if wroteHeader a then (a, PassHeader code)
  else
    let a := mkAttempt (preempted a) (replayWanted a) true in
    if preempted a then
      match replayWanted a with
      | Some _ => (mkAttempt true (Some true) true, Nothing)
      | None => (a, GiveUp)
      end
    else (a, PassHeader code).

(** [Write]: the calls to the writer below, in order.  [safe] is the answer of
    the gate's [replaySafe] once the header was handled. *)
Definition attempt_Write (a : attempt) (b : list Z) (safe : bool) : attempt * list below :=
  let '(a, first) := if wroteHeader a then (a, []) else let '(a, o) := attempt_WriteHeader a 200 in (a, [o]) in
  if bool_decide (replayWanted a = Some true) then (a, first)
  else if preempted a && bool_decide (is_Some (replayWanted a)) && safe then (a, first)
  else (a, first ++ [PassBytes b]).

End PingWriter.
