(* ===== verification/PingSpec.v ===== *)
(** What the client of a [pingWriter] (PingWriter.v) reads, in every
    interleaving of the handler, the ping loop and the stall watcher: one status
    line, at most one error event, pings between events only, one
    [message_start]. *)

From S2P Require Import Prelude Runes AdmissionScan PingWriter.

Module PingSpec.
Import AdmissionScan PingWriter.

(** ** What was sent *)

Definition is_head (e : emission) : bool := match e with EHead _ => true | _ => false end.
Definition is_error (e : emission) : bool := match e with EError _ => true | _ => false end.

Definition data_of (e : emission) : list Z := match e with EData b => b | _ => [] end.
Definition data (es : list emission) : list Z := es ≫= data_of.

Lemma data_app l k : data (l ++ k) = data l ++ data k.
Proof. apply bind_app. Qed.

(** Pings and data only. *)
Definition plain (es : list emission) : Prop := Forall (fun e => is_head e = false /\ is_error e = false) es.

(** A stream of the client: nothing, or a status line and then pings and data;
    once ended by an error event, at most one chunk follows it. *)
Definition stream_open (es : list emission) : Prop := es = [] \/ exists c r, es = EHead c :: r /\ plain r.

Definition stream_ended (es : list emission) (more : bool) : Prop :=
  exists c r t k, es = EHead c :: r ++ EError t :: k /\ plain r /\
    (k = [] \/ more = false /\ exists o, k = [EData o]).

(** The handler sends its status line first, and a write that is under way ends
    before the ping loop or the slot-stall verdict could be due. *)
Definition lawful (pw : pingWriter) (a : action) : Prop :=
  match a with
  | WriteBegin _ _ => headersSent pw = true
  | Tick now _ _ =>
    is_Some (pending pw) -> time_sub now (lastBodyWrite pw) < pingQuietDelay /\
      (0 < g_slotTimeout pw -> time_sub now (lastBodyWrite pw) < g_slotTimeout pw)
  | _ => True
  end.

Fixpoint lawful_run (pw : pingWriter) (acts : list action) : Prop :=
  match acts with
  | [] => True
  | a :: acts => lawful pw a /\ match act pw a with Some pw => lawful_run pw acts | None => False end
  end.

(** ** The invariant *)

Record pw_ok (pw : pingWriter) : Prop := {
  ok_stream : if errored pw then stream_ended (out pw) (bool_decide (is_Some (pending pw)))
              else stream_open (out pw);
  ok_headers : headersSent pw = bool_decide (out pw <> []);
  ok_pings : pingsStarted pw = true -> headersSent pw = true;
  ok_body : wroteBody pw = true -> headersSent pw = true;
  ok_silent : wroteBody pw = false -> data (out pw) = [] /\ pending pw = None /\ tail pw = [];
  ok_tail : errored pw = false -> tail pw = last2 (data (out pw) ++ default [] (pending pw));
  ok_boundary : forall l r, out pw = l ++ EPing :: r -> data l = [] \/ ends_event (last2 (data l)) = true;
}.

Lemma last2_short l : (length l <= 2)%nat -> last2 l = l.
Proof. intros. unfold last2. by replace (length l - 2)%nat with 0%nat by lia. Qed.

Lemma last2_length l : (length (last2 l) <= 2)%nat.
Proof. unfold last2. rewrite length_drop. lia. Qed.

Lemma last2_app_long l o : (2 <= length o)%nat -> last2 (l ++ o) = last2 o.
Proof.
  intros. unfold last2. rewrite length_app, drop_app, drop_ge by lia. simpl. f_equal. lia.
Qed.

Lemma last2_app_last2 l o : last2 (last2 l ++ o) = last2 (l ++ o).
Proof.
  unfold last2. rewrite !length_app, !length_drop.
  destruct (decide (length l <= 2)%nat).
  - replace (length l - 2)%nat with 0%nat by lia. rewrite drop_0, Nat.sub_0_r. done.
  - rewrite !drop_app, drop_drop, length_drop. f_equal; f_equal; lia.
Qed.

(** The tail after a write follows the bytes forwarded. *)
Lemma tail_step d o : (if (2 <=? length o)%nat then last2 o else last2 (last2 d ++ o)) = last2 (d ++ o).
Proof.
  destruct (Nat.leb_spec 2 (length o)); [by rewrite last2_app_long|apply last2_app_last2].
Qed.

Lemma stream_open_snoc es e : stream_open es -> es <> [] -> is_head e = false -> is_error e = false -> stream_open (es ++ [e]).
Proof.
  intros [->|(c & r & -> & Hr)] Hne Hh He; [done|]. right. exists c, (r ++ [e]). split; [done|].
  apply Forall_app. split; [done|]. by constructor.
Qed.

Lemma stream_error es t more : stream_open es -> es <> [] -> stream_ended (es ++ [EError t]) more.
Proof. intros [->|(c & r & -> & Hr)] Hne; [done|]. exists c, r, t, []. repeat split; [done|by left]. Qed.

(** A new emission that is not a ping keeps the boundaries; a ping needs one. *)
Lemma boundary_snoc es e :
  (forall l r, es = l ++ EPing :: r -> data l = [] \/ ends_event (last2 (data l)) = true) ->
  (e = EPing -> data es = [] \/ ends_event (last2 (data es)) = true) ->
  forall l r, es ++ [e] = l ++ EPing :: r -> data l = [] \/ ends_event (last2 (data l)) = true.
Proof.
  intros Hes He l r Heq. destruct r as [|x r _] using rev_ind.
  - apply app_inj_tail in Heq as [-> ->]. by apply He.
  - rewrite app_comm_cons, app_assoc in Heq. apply app_inj_tail in Heq as [-> _]. by eapply Hes.
Qed.

Lemma data_snoc_other es e : data_of e = [] -> data (es ++ [e]) = data es.
Proof. intros He. rewrite data_app. unfold data at 2. simpl. by rewrite He, !app_nil_r. Qed.

(** ** Every operation keeps it *)

(** Updates of fields the invariant does not read. *)
Lemma pw_ok_same pw pw' :
  pw_ok pw -> errored pw' = errored pw -> out pw' = out pw -> pending pw' = pending pw ->
  headersSent pw' = headersSent pw -> pingsStarted pw' = pingsStarted pw -> wroteBody pw' = wroteBody pw ->
  tail pw' = tail pw -> pw_ok pw'.
Proof.
  intros [H1 H2 H3 H4 H5 H6 H7] He Ho Hp Hh Hps Hw Ht.
  constructor; rewrite ?He, ?Ho, ?Hp, ?Hh, ?Hps, ?Hw, ?Ht; done.
Qed.

Lemma pw_ok_fire pw v : pw_ok pw -> pw_ok (fire pw v).
Proof. intros H. unfold fire. destruct (fired pw); [done|]. by eapply pw_ok_same. Qed.

Lemma pw_ok_guard pw b : pw_ok pw -> pw_ok (guard_write pw b).
Proof. intros H. unfold guard_write. destruct (_ <=? _); [done|]. destruct b; [by apply pw_ok_fire|done]. Qed.

Lemma pw_ok_grant pw s al st lo : pw_ok pw -> pw_ok (set_grant pw s al st lo (pending pw)).
Proof. intros H. by eapply pw_ok_same. Qed.

Lemma out_nonempty pw : pw_ok pw -> headersSent pw = true -> out pw <> [].
Proof. intros H Hh. rewrite (ok_headers pw H) in Hh. by apply bool_decide_eq_true in Hh. Qed.

Lemma pw_ok_error pw t : pw_ok pw -> errored pw = false -> headersSent pw = true -> pw_ok (writeSSEErrorLocked pw t).
Proof.
  intros H He Hh. pose proof (out_nonempty pw H Hh) as Hne. destruct H as [H1 H2 H3 H4 H5 H6 H7]. rewrite He in H1.
  constructor; simpl; try done.
  - by apply stream_error.
  - rewrite Hh. symmetry. apply bool_decide_eq_true. by destruct (out pw).
  - intros Hw. destruct (H5 Hw) as (? & ? & ?). by rewrite data_snoc_other.
  - by apply boundary_snoc.
Qed.

Lemma pw_ok_commit pw : pw_ok pw -> errored pw = false -> pw_ok (commit_sse pw) /\ headersSent (commit_sse pw) = true.
Proof.
  intros H He. unfold commit_sse. destruct (headersSent pw) eqn:Hh; [done|]. split; [|done].
  destruct H as [H1 H2 H3 H4 H5 H6 H7]. rewrite He, ?Hh in *.
  assert (out pw = []) as Ho by (symmetry in H2; apply bool_decide_eq_false in H2; by destruct (out pw); [|destruct H2]).
  constructor; simpl; rewrite ?He, Ho in *; simpl; try done.
  - right. exists 200, []. split; [done|apply Forall_nil_2].
  - intros l r Heq. destruct l as [|x [|y l]]; simplify_eq/=.
Qed.

Lemma pw_ok_WriteHeader pw c : pw_ok pw -> pw_ok (WriteHeader pw c).
Proof.
  intros H. unfold WriteHeader. set (pw1 := set_scan pw (reset (msgStartSent pw))).
  assert (pw_ok pw1) as H1 by (by eapply pw_ok_same).
  assert (errored pw1 = errored pw /\ headersSent pw1 = headersSent pw /\ pingsStarted pw1 = pingsStarted pw) as (He & Hh & Hp)
    by done. clearbody pw1. clear H He Hh Hp pw.
  destruct (negb (pingsStarted pw1) && negb (headersSent pw1)) eqn:Hb.
  - apply andb_prop in Hb as [Hp Hh]. apply negb_true_iff in Hp, Hh.
    destruct H1 as [H1 H2 H3 H4 H5 H6 H7]. rewrite Hh in *.
    assert (out pw1 = []) as Ho by (symmetry in H2; apply bool_decide_eq_false in H2; by destruct (out pw1); [|destruct H2]).
    assert (wroteBody pw1 = false) as Hw by (destruct (wroteBody pw1); [by discriminate H4|done]).
    destruct (errored pw1) eqn:He.
    { destruct H1 as (c' & r & t & k & Heq & _). by rewrite Ho in Heq. }
    constructor; simpl; rewrite ?He, ?Ho, ?Hp, ?Hw in *; simpl; try done.
    + right. exists c, []. split; [done|apply Forall_nil_2].
    + intros l r Heq. destruct l as [|x [|y l]]; simplify_eq/=.
  - destruct ((400 <=? c) && negb (errored pw1)) eqn:Hc; [|done].
    apply andb_prop in Hc as [_ He]. apply negb_true_iff in He. apply (pw_ok_error pw1 "api_error"); [done|done|].
    apply andb_false_iff in Hb as [Hb|Hb]; apply negb_false_iff in Hb; [by apply (ok_pings pw1)|done].
Qed.

Lemma pw_ok_prefill pw : pw_ok pw -> pw_ok (prefillStallCut pw).1.
Proof.
  intros H. unfold prefillStallCut. destruct (stopped pw || errored pw || wroteContent pw) eqn:Hb; [done|]. simpl.
  apply orb_false_iff in Hb as [[_ He]%orb_false_iff _]. apply pw_ok_fire.
  destruct (pw_ok_commit pw H He) as [Hc Hh]. apply pw_ok_error; [done| |done].
  unfold commit_sse. by destruct (headersSent pw).
Qed.

Lemma pw_ok_write_begin pw p now :
  pw_ok pw -> headersSent pw = true -> pending pw = None -> pw_ok (write_begin pw p now).
Proof.
  intros [H1 H2 H3 H4 H5 H6 H7] Hh Hp. unfold write_begin.
  destruct (if negb (pastAdmission pw) then _ else _) as [[[o past] sent] sc].
  assert (errored pw = false -> (if (2 <=? length o)%nat then last2 o else last2 (tail pw ++ o)) =
            last2 (data (out pw) ++ default [] (if errored pw || (length o =? 0)%nat then None else Some o))) as Htail.
  { intros He. rewrite (H6 He), Hp, He. simpl orb. cbn [default]. rewrite app_nil_r, tail_step.
    destruct (Nat.eqb_spec (length o) 0) as [E|]; [|done]. apply nil_length_inv in E as ->. done. }
  revert Htail. generalize (if (2 <=? length o)%nat then last2 o else last2 (tail pw ++ o)). intros tl Htail.
  constructor; simpl; rewrite ?Hp in *; try done. by destruct (errored pw).
Qed.

Lemma pw_ok_write_end pw b : pw_ok pw -> pw_ok (write_end pw b).
Proof.
  intros H. unfold write_end. destruct (pending pw) as [o|] eqn:Hp; [|done]. apply pw_ok_guard.
  destruct (wroteBody pw) eqn:Hw; [|by destruct (ok_silent pw H Hw) as (_ & ? & _); congruence].
  pose proof (out_nonempty pw H (ok_body pw H Hw)) as Hne.
  destruct H as [H1 H2 H3 H4 H5 H6 H7]. constructor; simpl; rewrite ?Hw in *; try done.
  - rewrite Hp in H1. simpl in H1. destruct (errored pw).
    + destruct H1 as (c & r & t & k & -> & Hr & Hk). exists c, r, t, (k ++ [EData o]).
      split; [by rewrite app_comm_cons, <-!app_assoc|]. split; [done|]. right. split; [done|].
      destruct Hk as [->|[? _]]; [by exists o|done].
    + by apply stream_open_snoc.
  - rewrite (H4 eq_refl). symmetry. apply bool_decide_eq_true. by destruct (out pw).
  - intros He. rewrite (H6 He), Hp, data_app. simpl. by rewrite !app_nil_r.
  - by apply boundary_snoc.
Qed.

Lemma time_sub_pos t u : 0 < t - u -> 0 < time_sub t u.
Proof. unfold time_sub, max_int64, min_int64. zcases; lia. Qed.

Lemma time_sub_small t u d : min_int64 < d <= max_int64 -> time_sub t u < d -> t - u < d.
Proof. intros Hd H. pose proof (time_sub_ltb t u d Hd) as E. apply Z.ltb_lt. rewrite <-E. by apply Z.ltb_lt. Qed.

(** Nothing is sent by the ping loop while a write is under way. *)
Lemma lawful_quiet pw now err burned :
  lawful pw (Tick now err burned) -> is_Some (pending pw) -> pingedThisGap pw = false -> wroteBody pw = true ->
  (tryPing pw now err burned).1 = pw.
Proof.
  intros Hl Hp Hg Hw. destruct (Hl Hp) as (Hq & Hs). unfold tryPing.
  destruct (stopped pw || errored pw); [done|]. destruct (allowed pw); [|done]. simpl. rewrite Hw, Hg. simpl.
  assert ((0 <? g_slotTimeout pw) && true && negb (is_zero_time (slotStart pw)) &&
          (g_slotTimeout pw <=? time_sub now (lastBodyWrite pw)) = false) as ->.
  { destruct (Z.ltb_spec 0 (g_slotTimeout pw)); [|done].
    rewrite (proj2 (Z.leb_gt _ _)) by auto. by rewrite andb_false_r. }
  apply time_sub_small in Hq; [|done].
  by rewrite (proj2 (Z.ltb_lt _ _)) by (apply time_sub_pos; lia).
Qed.

(** While a write is under way the gap has not been pinged. *)
Definition gap_ok (pw : pingWriter) : Prop := is_Some (pending pw) -> pingedThisGap pw = false /\ wroteBody pw = true.

Lemma pw_ok_tick pw now err burned :
  pw_ok pw -> gap_ok pw -> lawful pw (Tick now err burned) -> pw_ok (tryPing pw now err burned).1.
Proof.
  intros H Hgap Hl. destruct (pending pw) as [o|] eqn:Hp.
  { destruct (Hgap ltac:(eauto)). by rewrite lawful_quiet by eauto. }
  unfold tryPing. destruct (stopped pw || errored pw) eqn:Hb; [done|]. apply orb_false_iff in Hb as [_ He].
  destruct (allowed pw); [|done]. simpl.
  destruct (negb (wroteBody pw) && pingsStarted pw && _ && _) eqn:Hz.
  { apply pw_ok_fire, pw_ok_error; [done|done|]. apply (ok_pings pw H).
    by apply andb_prop in Hz as [[[_ ?]%andb_prop _]%andb_prop _]. }
  destruct ((0 <? g_slotTimeout pw) && wroteBody pw && _ && _) eqn:Hs.
  { apply pw_ok_fire, pw_ok_error; [done|done|]. apply (ok_body pw H).
    by apply andb_prop in Hs as [[[_ ?]%andb_prop _]%andb_prop _]. }
  destruct (if pingedThisGap pw then _ else _) as [base delay]. destruct (0 <? time_sub _ _); [done|].
  destruct (wroteBody pw && negb (ends_event (tail pw))) eqn:Hw; [done|].
  destruct (pw_ok_commit pw H He) as [Hc Hh].
  assert (pw_ok (emits (commit_sse pw) [EPing])) as Hping.
  { assert (errored (commit_sse pw) = false /\ pending (commit_sse pw) = None /\ data (out (commit_sse pw)) = data (out pw))
      as (He' & Hp' & Hd). { unfold commit_sse. destruct (headersSent pw); [done|]. simpl. by rewrite data_snoc_other. }
    assert (data (out pw) = [] \/ ends_event (last2 (data (out pw))) = true) as Hbd.
    { destruct (wroteBody pw) eqn:Hwb.
      - right. simpl in Hw. apply negb_false_iff in Hw. rewrite (ok_tail pw H He), Hp in Hw. simpl in Hw. by rewrite app_nil_r in Hw.
      - left. apply (ok_silent pw H Hwb). }
    pose proof (out_nonempty _ Hc Hh) as Hne. destruct Hc as [H1 H2 H3 H4 H5 H6 H7]. rewrite He' in *.
    constructor; simpl; rewrite ?He' in *; try done.
    - by apply stream_open_snoc.
    - rewrite Hh. symmetry. apply bool_decide_eq_true. by destruct (out (commit_sse pw)).
    - intros Hw'. rewrite data_snoc_other by done. by apply H5.
    - intros _. rewrite data_snoc_other by done. by apply H6.
    - apply boundary_snoc; [done|]. by rewrite Hd. }
  pose proof (pw_ok_guard _ burned Hping) as Hg.
  destruct err; [done|]. destruct (stalled _); [done|]. by eapply pw_ok_same.
Qed.

Lemma gap_ok_act pw a pw' : gap_ok pw -> lawful pw a -> act pw a = Some pw' -> gap_ok pw'.
Proof.
  unfold gap_ok. destruct a as [now err burned|code|p now|burned|burned|now| | |]; simpl; intros Hg Hl Ha.
  - destruct (looping pw); [|done]. destruct (tryPing pw now err burned) as [pw1 w] eqn:E. simplify_eq/=.
    intros Hp. assert (pending pw1 = pending pw) as Hpp.
    { apply (f_equal fst) in E. simpl in E. subst pw1. unfold tryPing, fire, guard_write, commit_sse, fire.
      repeat case_match; simpl; try done; by repeat case_match. }
    rewrite Hpp in Hp. destruct (Hg Hp) as [H1 H2].
    pose proof (lawful_quiet pw now err burned Hl Hp H1 H2) as Hq. rewrite E in Hq. simpl in Hq. by subst.
  - destruct (_ || _) eqn:Hb; [done|]. simplify_eq/=. apply orb_false_iff in Hb as [_ Hb].
    apply bool_decide_eq_false in Hb. intros Hp. destruct Hb. revert Hp. unfold WriteHeader. by repeat case_match.
  - destruct (_ || _); [done|]. simplify_eq/=. intros _. unfold write_begin.
    by destruct (if negb (pastAdmission pw) then _ else _) as [[[? ?] ?] ?].
  - case_bool_decide; [|done]. simplify_eq/=. unfold write_end. destruct (pending pw) as [o|] eqn:Hp; [|by rewrite Hp; intros []].
    intros [x Hx]. exfalso. revert Hx. unfold guard_write, fire. by repeat case_match.
  - destruct (_ || _); [done|]. simplify_eq/=. unfold Flush, guard_write, fire. by repeat case_match.
  - by simplify_eq/=.
  - by simplify_eq/=.
  - simplify_eq/=. unfold prefillStallCut, fire, commit_sse. by repeat case_match.
  - case_bool_decide; [done|]. by simplify_eq/=.
Qed.

Lemma pw_ok_act pw a pw' : pw_ok pw -> gap_ok pw -> lawful pw a -> act pw a = Some pw' -> pw_ok pw'.
Proof.
  destruct a as [now err burned|code|p now|burned|burned|now| | |]; intros H Hg Hl Ha; simpl in Ha.
  - destruct (looping pw); [|done]. pose proof (pw_ok_tick pw now err burned H Hg Hl) as Ht.
    destruct (tryPing pw now err burned) as [pw1 w]. simplify_eq/=. by apply pw_ok_grant.
  - destruct (_ || _); [done|]. simplify_eq/=. by apply pw_ok_WriteHeader.
  - destruct (stopped pw || _) eqn:Hb; [done|]. simplify_eq/=. apply orb_false_iff in Hb as [_ Hb].
    apply bool_decide_eq_false in Hb. apply pw_ok_write_begin; [done|done|]. by destruct (pending pw); [destruct Hb|].
  - case_bool_decide; [|done]. simplify_eq/=. by apply pw_ok_write_end.
  - destruct (_ || _); [done|]. simplify_eq/=. by apply pw_ok_guard.
  - simplify_eq/=. by apply pw_ok_grant.
  - simplify_eq/=. by apply pw_ok_grant.
  - simplify_eq/=. by apply pw_ok_prefill.
  - case_bool_decide; [done|]. simplify_eq/=. by apply pw_ok_grant.
Qed.

Lemma pw_ok_run acts pw pw' : pw_ok pw -> gap_ok pw -> lawful_run pw acts -> run pw acts = Some pw' -> pw_ok pw'.
Proof.
  revert pw. induction acts as [|a acts IH]; intros pw H Hg Hl Hr; simpl in *; [by simplify_eq|].
  destruct Hl as [Hl Hls]. destruct (act pw a) as [pw1|] eqn:E; [|done].
  apply (IH pw1); [by eapply pw_ok_act|by eapply gap_ok_act|done|done].
Qed.

Lemma pw_ok_new al t st now : pw_ok (newPingWriter al t st now) /\ gap_ok (newPingWriter al t st now).
Proof.
  split; [|by intros []]. constructor; simpl; try done; [by left|]. intros l r Heq. by destruct l.
Qed.


(** ** One [message_start] *)

(** What the handler does to the scan: [None] is a [WriteHeader], [Some p] a
    [Write]; with the bytes forwarded. *)
Definition scan_state : Type := admissionScan * bool * bool.

Definition handler_step (st : scan_state) (h : option (list Z)) : scan_state * list Z :=
  let '(sc, past, sent) := st in
  match h with
  | None => ((reset sent, past, sent), [])
  | Some p =>
    if past then (st, p)
    else let '(sc, o, res) := feed sc p in ((sc, content res, sent || msgStart res), o)
  end.

#[local] Arguments handler_step : simpl never.

Fixpoint forwarded (st : scan_state) (hs : list (option (list Z))) : scan_state * list Z :=
  match hs with
  | [] => (st, [])
  | h :: hs => let '(st, o) := handler_step st h in let '(st, os) := forwarded st hs in (st, o ++ os)
  end.

Definition handler_act (a : action) : option (option (list Z)) :=
  match a with Head _ => Some None | WriteBegin p _ => Some (Some p) | _ => None end.

Definition scan_of (pw : pingWriter) : scan_state := (scan pw, pastAdmission pw, msgStartSent pw).

Definition sent_data (pw : pingWriter) : list Z := data (out pw) ++ default [] (pending pw).

Lemma data_out_ping pw now err burned :
  data (out (tryPing pw now err burned).1) = data (out pw) /\ pending (tryPing pw now err burned).1 = pending pw /\
  scan_of (tryPing pw now err burned).1 = scan_of pw /\
  (errored pw = true -> errored (tryPing pw now err burned).1 = true).
Proof.
  unfold tryPing, fire, guard_write, commit_sse, fire, scan_of.
  repeat case_match; simpl; repeat case_match; simpl; rewrite ?data_app; simpl; rewrite ?app_nil_r; done.
Qed.

Lemma act_forwarded pw a pw' :
  act pw a = Some pw' -> errored pw' = false ->
  errored pw = false /\
  match handler_act a with
  | Some h => scan_of pw' = (handler_step (scan_of pw) h).1 /\ sent_data pw' = sent_data pw ++ (handler_step (scan_of pw) h).2
  | None => scan_of pw' = scan_of pw /\ sent_data pw' = sent_data pw
  end.
Proof.
  unfold sent_data. destruct a as [now err burned|code|p now|burned|burned|now| | |]; simpl; intros Ha He.
  - destruct (looping pw); [|done]. destruct (data_out_ping pw now err burned) as (H1 & H2 & H3 & H4).
    destruct (tryPing pw now err burned) as [pw1 w]. simplify_eq/=. rewrite H1, H2. unfold scan_of in *. simpl.
    split; [destruct (errored pw); [by rewrite H4 in He|done]|]. split; congruence.
  - destruct (_ || _); [done|]. simplify_eq/=. unfold WriteHeader in *. revert He.
    repeat case_match; simpl; intros He; rewrite ?data_app; simpl; rewrite ?app_nil_r; try done.
  - destruct (stopped pw || _) eqn:Hb; [done|]. simplify_eq/=. apply orb_false_iff in Hb as [_ Hb].
    apply bool_decide_eq_false in Hb. assert (pending pw = None) as Hp by (by destruct (pending pw); [destruct Hb|]).
    revert He. unfold write_begin, scan_of, handler_step. rewrite Hp. simpl. rewrite app_nil_r.
    destruct (pastAdmission pw) eqn:Hpast; simpl.
    + intros He. split; [done|]. rewrite He. simpl. destruct (Nat.eqb_spec (length p) 0) as [E|]; [|done].
      by apply nil_length_inv in E as ->.
    + destruct (feed (scan pw) p) as [[sc o] res]. simpl. intros He. split; [done|]. rewrite He. simpl.
      destruct (Nat.eqb_spec (length o) 0) as [E|]; [|done]. by apply nil_length_inv in E as ->.
  - case_bool_decide; [|done]. simplify_eq/=. revert He. unfold write_end, scan_of.
    destruct (pending pw) as [o|] eqn:Hp; [|done]. unfold guard_write, fire.
    repeat case_match; simpl; intros; rewrite ?data_app; simpl; rewrite ?app_nil_r; done.
  - destruct (_ || _); [done|]. simplify_eq/=. revert He. unfold Flush, guard_write, fire, scan_of. by repeat case_match.
  - by simplify_eq/=.
  - by simplify_eq/=.
  - simplify_eq/=. revert He. unfold prefillStallCut, fire, commit_sse, scan_of.
    repeat case_match; simpl; intros; rewrite ?data_app; simpl; rewrite ?app_nil_r; done.
  - case_bool_decide; [done|]. by simplify_eq/=.
Qed.

Lemma run_forwarded acts pw pw' :
  run pw acts = Some pw' -> errored pw' = false ->
  sent_data pw' = sent_data pw ++ (forwarded (scan_of pw) (omap handler_act acts)).2 /\
  errored pw = false.
Proof.
  revert pw. induction acts as [|a acts IH]; intros pw Hr He; simpl in *.
  - simplify_eq. by rewrite app_nil_r.
  - destruct (act pw a) as [pw1|] eqn:E; [|done]. destruct (IH pw1 Hr He) as [IH1 He1].
    destruct (act_forwarded pw a pw1 E He1) as [He0 Hst]. split; [|done]. rewrite IH1.
    destruct (handler_act a) as [h|]; simpl; destruct Hst as [-> ->]; [|done].
    destruct (handler_step (scan_of pw) h) as [st o]. simpl. destruct (forwarded st _) as [st' os]. simpl. by rewrite app_assoc.
Qed.

(** The chunks of one attempt. *)
Lemma forwarded_chunks sc past sent ps :
  (past = true -> state sc = admDone) ->
  let '(sc', o, ress) := feeds sc ps in
  forwarded (sc, past, sent) (Some <$> ps) =
  ((sc', past || content (foldr join no_result ress), sent || msgStart (foldr join no_result ress)), o).
Proof.
  revert sc past sent. induction ps as [|p ps IH]; intros sc past sent Hp; cbn [feeds fmap list_fmap forwarded].
  - by rewrite !orb_false_r.
  - unfold handler_step. destruct past.
    + assert (feed sc p = (sc, p, no_result)) as ->.
      { unfold feed. by rewrite bool_decide_eq_true_2 by (by apply Hp). }
      specialize (IH sc true sent Hp). destruct (feeds sc ps) as [[sc' o] ress]. simpl in *. rewrite IH. simpl. done.
    + pose proof (feed_scan sc p) as Hf. destruct (feed sc p) as [[sc1 o1] res] eqn:E.
      assert (content res = true -> state sc1 = admDone) as Hc.
      { destruct (scan_bytes sc p) as [[s2 o2] r2] eqn:Es. injection Hf as -> _ ->.
        clear -Es. revert sc o2 r2 Es. induction p as [|b p IH]; intros sc o2 r2; cbn [scan_bytes]; [by intros [= <- <- <-]|].
        case_bool_decide; [by intros [= <- <- <-]|].
        destruct (feed_byte sc b no_result) as [[[s' o] r]|] eqn:Eb; [|by intros [= <- <- <-]].
        destruct (scan_bytes s' p) as [[s3 o3] r3] eqn:Ep. intros [= <- <- <-]. unfold join. simpl.
        assert (content r = false) as ->; [|by eapply IH].
        clear -Eb. unfold feed_byte in Eb. repeat case_match; simplify_eq/=; done. }
      specialize (IH sc1 (content res) (sent || msgStart res) Hc). destruct (feeds sc1 ps) as [[sc' o] ress].
      rewrite IH. unfold join. simpl. by rewrite orb_assoc.
Qed.

(** The frames of the attempts that reach the client: once a [message_start]
    went out, those of later attempts are dropped. *)
Fixpoint delivered (sent : bool) (attempts : list (list frame)) : list frame :=
  match attempts with
  | [] => []
  | fs :: rest =>
    (if sent then List.filter (fun f => negb (is_message_start f)) fs else fs) ++
    delivered (sent || existsb is_message_start fs) rest
  end.

(** The calls of the attempts, each chunked in any way; [tail] ends the last. *)
Inductive attempts_calls : list (list frame) -> list Z -> list (option (list Z)) -> Prop :=
| calls_last fs tail ps :
    Forall admission fs -> tail = [] \/ content_start tail -> concat ps = concat (render <$> fs) ++ tail ->
    attempts_calls [fs] tail (None :: (Some <$> ps))
| calls_replay fs rest tail ps calls :
    Forall admission fs -> concat ps = concat (render <$> fs) ->
    attempts_calls rest tail calls -> attempts_calls (fs :: rest) tail (None :: (Some <$> ps) ++ calls).

Lemma forwarded_app st hs1 hs2 :
  forwarded st (hs1 ++ hs2) =
  let '(st1, o1) := forwarded st hs1 in let '(st2, o2) := forwarded st1 hs2 in (st2, o1 ++ o2).
Proof.
  revert st. induction hs1 as [|h hs1 IH]; intros st; simpl; [by destruct (forwarded st hs2)|].
  destruct (handler_step st h) as [st1 o1]. rewrite IH. destruct (forwarded st1 hs1) as [st2 o2].
  destruct (forwarded st2 hs2) as [st3 o3]. by rewrite app_assoc.
Qed.

Lemma forwarded_attempt sc sent fs tail ps :
  Forall admission fs -> tail = [] \/ content_start tail -> concat ps = concat (render <$> fs) ++ tail ->
  exists sc', forwarded (sc, false, sent) (None :: (Some <$> ps)) =
    ((sc', negb (bool_decide (tail = [])), sent || existsb is_message_start fs),
     concat (render <$> (if sent then List.filter (fun f => negb (is_message_start f)) fs else fs)) ++ tail).
Proof.
  intros Hfs Ht Hps. cbn [forwarded].
  change (handler_step (sc, false, sent) None) with ((reset sent, false, sent), @nil Z). cbv iota beta.
  pose proof (forwarded_chunks (reset sent) false sent ps ltac:(done)) as Hc.
  pose proof (feed_chunking (reset sent) ps) as Hf. destruct (feeds (reset sent) ps) as [[sc' o] ress].
  rewrite Hps in Hf. destruct (admission_frames_exact sent fs tail Hfs Ht) as (s' & Hex & _).
  rewrite Hex in Hf. injection Hf as _ Ho Hres. rewrite Hc, <-Hres, <-Ho. exists sc'. simpl.
  destruct sent; simpl; done.
Qed.

Lemma forwarded_attempts attempts tail calls sc sent :
  attempts_calls attempts tail calls ->
  (forwarded (sc, false, sent) calls).2 = concat (render <$> delivered sent attempts) ++ tail.
Proof.
  intros H. revert sc sent. induction H as [fs tail ps Hfs Ht Hps|fs rest tail ps calls Hfs Hps Hrest IH]; intros sc sent.
  - destruct (forwarded_attempt sc sent fs tail ps Hfs Ht Hps) as [sc' ->]. simpl. by rewrite app_nil_r.
  - destruct (forwarded_attempt sc sent fs [] ps Hfs (or_introl eq_refl)) as [sc' Hf]; [by rewrite app_nil_r|].
    rewrite app_comm_cons, forwarded_app, Hf. simpl. specialize (IH sc' (sent || existsb is_message_start fs)).
    destruct (forwarded _ calls) as [st o]. simpl in *. by rewrite IH, fmap_app, concat_app, app_nil_r, <-app_assoc.
Qed.

Lemma delivered_sent attempts : List.filter is_message_start (delivered true attempts) = [].
Proof.
  induction attempts as [|fs rest IH]; simpl; [done|]. rewrite List.filter_app, IH, app_nil_r.
  clear. induction fs as [|f fs IH]; simpl; [done|]. destruct (is_message_start f) eqn:E; simpl; rewrite ?E; done.
Qed.

(** C14. A request that was cut and replayed before any content: whatever pings
    were sent in between and however the attempts were chunked, the client reads
    the admission frames of all attempts and the content of the last one, with
    the [message_start] of every attempt after the first that sent one left
    out, so at most one if no attempt sends two. *)
Theorem one_message_start al t st now acts pw attempts tail :
  run (newPingWriter al t st now) acts = Some pw -> errored pw = false -> pending pw = None ->
  attempts_calls attempts tail (omap handler_act acts) ->
  data (out pw) = concat (render <$> delivered false attempts) ++ tail /\
  (Forall (fun fs => (length (List.filter is_message_start fs) <= 1)%nat) attempts ->
   (length (List.filter is_message_start (delivered false attempts)) <= 1)%nat).
Proof.
  intros Hr He Hp Hc. destruct (run_forwarded acts _ pw Hr He) as [Hd _]. unfold sent_data in Hd. rewrite Hp in Hd.
  simpl in Hd. rewrite app_nil_r in Hd. split.
  - rewrite Hd. by apply forwarded_attempts.
  - clear. induction 1 as [|fs rest Hfs Hrest IH]; simpl; [lia|]. rewrite List.filter_app, length_app.
    destruct (existsb is_message_start fs) eqn:E.
    + rewrite delivered_sent. simpl. lia.
    + assert (List.filter is_message_start fs = []) as ->; [|simpl; lia].
      clear -E. induction fs as [|f fs IH]; simpl in *; [done|]. apply orb_false_iff in E as [-> E]. by apply IH.
Qed.

(** ** Concrete streams *)

Definition ex_second (s : Z) : Z := 1000000 * nsec_second + s * nsec_second.

(** Parked and pinged, granted, the upstream's stream begun, and cut by the
    prefill watcher before any content. *)
Definition ex_cut_stream : list action :=
  [Tick (ex_second 20) false false; Granted (ex_second 30); Head 200;
   WriteBegin (bytes_of_string ": " ++ [LF; LF]) (ex_second 31); Tick (ex_second 32) false false; WriteEnd false;
   Tick (ex_second 60) false false; PrefillCut; Head 502].


(** Two attempts, the first cut after its [message_start]. *)
Definition ex_attempt : list Z := concat (render <$> ex_frames).

Definition ex_replayed : list action :=
  [Granted (ex_second 0); Head 200; WriteBegin ex_attempt (ex_second 1); WriteEnd false; Tick (ex_second 30) false false;
   Granted (ex_second 40); Head 200; WriteBegin (take 20 (ex_attempt ++ ex_tail)) (ex_second 41); WriteEnd false;
   WriteBegin (drop 20 (ex_attempt ++ ex_tail)) (ex_second 42); WriteEnd false].

Lemma one_message_start_witness :
  exists pw, run (newPingWriter true 0 0 (ex_second 0)) ex_replayed = Some pw /\
    data (out pw) = ex_attempt ++ concat (render <$> take 3 ex_frames) ++ ex_tail.
Proof.
  assert (exists pw, run (newPingWriter true 0 0 (ex_second 0)) ex_replayed = Some pw /\ errored pw = false /\ pending pw = None)
    as (pw & Hr & He & Hp) by (by vm_compute; eexists).
  exists pw. split; [exact Hr|].
  pose proof ex_frames_admission as Hf. pose proof (or_intror ex_tail_content : ex_tail = [] \/ content_start ex_tail) as Ht.
  assert (attempts_calls [ex_frames; ex_frames] ex_tail (omap handler_act ex_replayed)) as Hc.
  { apply (calls_replay ex_frames [ex_frames] ex_tail [ex_attempt]
      [None; Some (take 20 (ex_attempt ++ ex_tail)); Some (drop 20 (ex_attempt ++ ex_tail))]); [exact Hf|by vm_compute|].
    apply (calls_last ex_frames ex_tail [take 20 (ex_attempt ++ ex_tail); drop 20 (ex_attempt ++ ex_tail)]);
      [exact Hf|exact Ht|by vm_compute]. }
  rewrite (proj1 (one_message_start true 0 0 (ex_second 0) ex_replayed pw [ex_frames; ex_frames] ex_tail Hr He Hp Hc)).
  by vm_compute.
Defined.

End PingSpec.
