(* ===== verification/RequestLoop.v ===== *)
(** One client request in the router ([ServeHTTP] of [internal/router/base.go],
    after the request context was read): its attempts, each handed to the
    scheduler, parked, granted or given up, served, and replayed when it was
    preempted before any content; with the writer of Anthropic streams
    (PingWriter.v) where it has one.

    Each action is one step of the request's goroutine, of its client, of the
    scheduler or of the goroutines of the writer. *)

From S2P Require Import Prelude Float64 AdmissionScan PingWriter.

Module RequestLoop.
Import Float64 PingWriter.

Definition maxReplays : Z := 5.
Definition parkGiveUpBudget : Z := maxReplayHeld.
Definition deadlineBudget : Z := maxReplayHeld.
Definition defaultPrefillRate : float64 := of_int 75.

(** What is fixed for the request at its arrival. *)
Record Params := mkParams {
  Preemptible : bool;               (* of its tier *)
  Streaming : bool;
  SendLoadingState : bool;
  anthropicPath : bool;             (* isAnthropicStreamPath *)
  loadingPath : bool;               (* isLoadingPath *)
  session_id : string;              (* of its metadata *)
  estimatedTokens : Z;
  PrefillTokensPerSecond : option float64;   (* of the model, if configured *)
  peerTimeout : Z;
  slotTimeout : Z;
}.

Definition keepaliveArmed (p : Params) : bool := Streaming p && SendLoadingState p && anthropicPath p.

Definition prefillRate (p : Params) : float64 :=
  match PrefillTokensPerSecond p with
  | Some r => if fltb (of_int 0) r then r else defaultPrefillRate
  | None => defaultPrefillRate
  end.

Definition sessionExempt (p : Params) : bool := negb (String.eqb (session_id p) "").

(** [deadlineRefuse]: the request is refused before it is handed over. *)
Definition deadlineRefuse (p : Params) (replayStart now : Z) : bool :=
  if negb (Preemptible p) || keepaliveArmed p then false
  else
    let estSeconds := fdiv (of_int (estimatedTokens p)) (prefillRate p) in
    let remainingSeconds := seconds (deadlineBudget - time_sub now replayStart) in
    if fleb estSeconds remainingSeconds then false
    else if negb (String.eqb (session_id p) "") then false
    else true.

(** [armParkGiveUp]: when the give-up of a parked request fires. *)
Definition armParkGiveUp (p : Params) (responseCommitted : bool) (replayStart now : Z) : option Z :=
  if negb (Preemptible p) || responseCommitted then None
  else
    let remaining := parkGiveUpBudget - time_sub now replayStart in
    Some (now + (if remaining <? 0 then 0 else remaining)).

(** Where the request's goroutine is: about to hand the attempt over, waiting
    for the admission, parked, inside the handler, returned. *)
Inductive stage := Submitting | Admitting | Parked | Serving | Returned.

#[export] Instance stage_eq_dec : EqDecision stage.
Proof. solve_decision. Defined.

(** What the scheduler was sent for an attempt. *)
Inductive message := Submit (attempt : Z) | CancelMsg (attempt : Z).

(** How the request ended, when it was the router that ended it. *)
Inductive verdict := DeadlineRefused | GivenUp | ShutDown | ErrorAnswer | ClientLeft | Suppressed | Served.

Record Loop := mkLoop {
  at_stage : stage;
  replayCount : Z;
  replayStart : Z;
  pw : option pingWriter;
  raw : list emission;             (* what reached a client without a pingWriter *)
  att : attempt;
  ctxDone : bool;                  (* the context of the attempt is cancelled *)
  clientGone : bool;
  giveUp : option Z;               (* the armed give-up of the current wait *)
  lw : bool;                       (* a loading stream is live *)
  msgs : list message;
  ended : option verdict;
}.

Section loop.
Variable p : Params.
(** The bodies of the give-up answer and of an error. *)
Variable preemptGiveUpBody errorBody : list Z.

Definition set_stage (l : Loop) (s : stage) (giveUp : option Z) : Loop :=
  mkLoop s (replayCount l) (replayStart l) (pw l) (raw l) (att l) (ctxDone l) (clientGone l) giveUp (lw l) (msgs l) (ended l).

Definition set_pw (l : Loop) (w : option pingWriter) (raw : list emission) : Loop :=
  mkLoop (at_stage l) (replayCount l) (replayStart l) w raw (att l) (ctxDone l) (clientGone l) (giveUp l) (lw l) (msgs l) (ended l).

Definition set_att (l : Loop) (a : attempt) (done gone : bool) : Loop :=
  mkLoop (at_stage l) (replayCount l) (replayStart l) (pw l) (raw l) a done gone (giveUp l) (lw l) (msgs l) (ended l).

Definition send (l : Loop) (ms : list message) : Loop :=
  mkLoop (at_stage l) (replayCount l) (replayStart l) (pw l) (raw l) (att l) (ctxDone l) (clientGone l) (giveUp l) (lw l)
    (msgs l ++ ms) (ended l).

(** [WriteHeader] and [Write] on the request's writer [w]. *)
Definition w_header (l : Loop) (code : Z) : Loop :=
  match pw l with
  | Some w => set_pw l (Some (WriteHeader w code)) (raw l)
  | None => set_pw l None (raw l ++ [EHead code])
  end.

Definition w_bytes (l : Loop) (b : list Z) (now : Z) : Loop :=
  match pw l with
  | Some w => set_pw l (Some (write_end (write_begin w b now) false)) (raw l)
  | None => set_pw l None (raw l ++ [EData b])
  end.

Definition writePreemptGiveUp (l : Loop) (now : Z) : Loop := w_bytes (w_header l 503) preemptGiveUpBody now.

(** [SendError]; the recorder below a request without a [pingWriter] knows
    whether a response started, and then nothing is sent. *)
Definition SendError (l : Loop) (code now : Z) : Loop :=
  match pw l, raw l with
  | None, _ :: _ => l
  | _, _ => w_bytes (w_header l code) errorBody now
  end.

(** The return of [ServeHTTP]: the writer is stopped. *)
Definition return_ (l : Loop) (v : verdict) : Loop :=
  mkLoop Returned (replayCount l) (replayStart l) (stop <$> pw l) (raw l) (att l) true (clientGone l) None (lw l) (msgs l) (Some v).

(** The top of the loop: the deadline check, the fresh context and flags of the
    attempt, and whether it may be replayed. *)
Definition replayEligible (l : Loop) (now : Z) : bool :=
  match pw l with Some w => allowed w | None => false end ||
  ((replayCount l <? maxReplays) && (time_sub now (replayStart l) <? maxReplayHeld)).

Definition begin_attempt (l : Loop) (now : Z) : Loop :=
  if deadlineRefuse p (replayStart l) now then return_ (writePreemptGiveUp l now) DeadlineRefused
  else
    let eligible := replayEligible l now in
    let w := if eligible then pw l else allowPings <$> pw l in
    mkLoop Submitting (replayCount l) (replayStart l) w (raw l)
      (PingWriter.mkAttempt false (if eligible then Some false else None) false)
      (clientGone l) (clientGone l) None false (msgs l) (ended l).

Definition start_loop (now : Z) : Loop :=
  let w := if keepaliveArmed p
           then Some (newPingWriter (negb (Preemptible p)) (peerTimeout p) (slotTimeout p) now) else None in
  begin_attempt (mkLoop Submitting 0 now w [] (PingWriter.mkAttempt false None false) false false None false [] None) now.

Definition attempt_no (l : Loop) : Z := replayCount l + 1.

(** The end of the loop's body, once the handler returned. *)
Definition after_handler (l : Loop) (now : Z) : Loop :=
  let wanted :=
    match replayWanted (att l) with
    | Some w => w || (preempted (att l) && match pw l with Some w => replaySafe w | None => false end)
    | None => false
    end in
  if wanted then
    if match pw l with Some w => negb (replaySafe w) | None => false end
    then return_ (w_header l 503) Suppressed
    else begin_attempt
           (mkLoop (at_stage l) (replayCount l + 1) (replayStart l) (pw l) (raw l) (att l) (ctxDone l) (clientGone l) None
              (lw l) (msgs l) (ended l)) now
  else return_ l Served.

(** The calls of the handler on the attempt's writer, handed to the writer
    below.  A [pingWriter] takes the bytes now and sends them in a later step. *)
Definition do_below (l : Loop) (o : below) (now : Z) : Loop :=
  match o with
  | Nothing => l
  | PassHeader code => w_header l code
  | GiveUp => writePreemptGiveUp l now
  | PassBytes b =>
    match pw l with
    | Some w => set_pw l (Some (write_begin w b now)) (raw l)
    | None => w_bytes l b now
    end
  end.

Definition handler_header (l : Loop) (code now : Z) : Loop :=
  let '(a, o) := attempt_WriteHeader (att l) code in
  do_below (set_att l a (ctxDone l) (clientGone l)) o now.

Definition handler_write (l : Loop) (b : list Z) (now : Z) : Loop :=
  let safe := match pw l with Some w => replaySafe w | None => false end in
  let '(a, os) := attempt_Write (att l) b safe in
  foldl (fun l o => do_below l o now) (set_att l a (ctxDone l) (clientGone l)) os.

Definition pw_idle (l : Loop) : bool :=
  match pw l with Some w => negb (bool_decide (is_Some (pending w))) | None => true end.

Inductive action : Type :=
(* the request's goroutine *)
| HandOver (now : Z)
| AdmissionAnswer (err : option Z) (ready : bool) (now : Z)   (* the status of a rejection *)
| Granted (err : option Z) (now : Z)
| GiveUpFires (now : Z)
| SeesDone                                              (* the context of the attempt is done *)
| SeesShutdown (now : Z)
| HandlerHeader (code now : Z)
| HandlerWrite (b : list Z) (now : Z)
| HandlerWrote (burned : bool)
| HandlerFlush (burned : bool)
| HandlerReturns (now : Z)
(* the others *)
| Preempt                                               (* the scheduler boots the granted attempt *)
| ClientLeaves
| PingLoop (now : Z) (err burned : bool)
| PrefillStalled
| Surrender (now : Z).                                  (* the timer that unmutes the pings *)

(** A step of a goroutine of the writer; a verdict of the stall guard cancels
    the attempt. *)
Definition writer_step (l : Loop) (a : PingWriter.action) : option Loop :=
  match pw l with
  | Some w =>
    match PingWriter.act w a with
    | Some w' =>
      let cut := negb (bool_decide (is_Some (fired w))) && bool_decide (is_Some (fired w')) in
      Some (set_att (set_pw l (Some w') (raw l)) (att l) (ctxDone l || cut) (clientGone l))
    | None => None
    end
  | None => None
  end.

Definition act (l : Loop) (a : action) : option Loop :=
  match a, at_stage l with
  | HandOver now, Submitting =>
    Some (set_stage (send l [Submit (attempt_no l)]) Admitting (armParkGiveUp p (keepaliveArmed p) (replayStart l) now))
  | AdmissionAnswer (Some code) _ now, Admitting => Some (return_ (SendError l code now) ErrorAnswer)
  | AdmissionAnswer None ready now, Admitting =>
    let loading := (attempt_no l =? 1) && Streaming p && SendLoadingState p && loadingPath p && negb ready in
    Some (mkLoop Parked (replayCount l) (replayStart l) (pw l) (raw l) (att l) (ctxDone l) (clientGone l)
            (armParkGiveUp p (keepaliveArmed p || loading) (replayStart l) now) loading (msgs l) (ended l))
  | Granted (Some code) now, Parked => Some (return_ (if lw l then l else SendError l code now) ErrorAnswer)
  | Granted None now, Parked =>
    Some (set_stage (set_pw l ((fun w => slotGranted w now) <$> pw l) (raw l)) Serving None)
  | GiveUpFires now, (Admitting | Parked) =>
    match giveUp l with
    | Some t =>
      if now <? t then None
      else if sessionExempt p then Some (set_stage l (at_stage l) None)
      else Some (send (return_ (writePreemptGiveUp (set_att l (att l) true (clientGone l)) now) GivenUp)
                   [CancelMsg (attempt_no l)])
    | None => None
    end
  | SeesDone, Submitting => if ctxDone l then Some (return_ l ClientLeft) else None
  | SeesDone, (Admitting | Parked) =>
    if ctxDone l then Some (return_ (send l [CancelMsg (attempt_no l)]) ClientLeft) else None
  | SeesShutdown now, (Submitting | Admitting) => Some (return_ (SendError l 500 now) ShutDown)
  | SeesShutdown now, Parked => Some (return_ (if lw l then l else SendError l 500 now) ShutDown)
  | HandlerHeader code now, Serving => if pw_idle l then Some (handler_header l code now) else None
  | HandlerWrite b now, Serving => if pw_idle l then Some (handler_write l b now) else None
  | HandlerWrote burned, Serving => writer_step l (WriteEnd burned)
  | HandlerFlush burned, Serving => writer_step l (FlushBody burned)
  | HandlerReturns now, Serving => if pw_idle l then Some (after_handler l now) else None
  | Preempt, Serving =>
    let a := att l in
    Some (set_att l (PingWriter.mkAttempt true (replayWanted a) (wroteHeader a)) true (clientGone l))
  | ClientLeaves, (Submitting | Admitting | Parked | Serving) => Some (set_att l (att l) true true)
  | PingLoop now err burned, _ => writer_step l (Tick now err burned)
  | PrefillStalled, _ => writer_step l PrefillCut
  | Surrender now, (Submitting | Admitting | Parked | Serving) =>
    if Preemptible p && (maxReplayHeld <=? now - replayStart l) then writer_step l Allow else None
  | _, _ => None
  end.

Fixpoint run (l : Loop) (acts : list action) : option Loop :=
  match acts with [] => Some l | a :: acts => match act l a with Some l => run l acts | None => None end end.

End loop.

End RequestLoop.
