(* ===== verification/RequestSpec.v ===== *)
(** What a request of the router without a keepalive writer (RequestLoop.v)
    promises: at most six attempts, and one answer that no attempt that was cut
    contributed to. *)

From S2P Require Import Prelude Float64 AdmissionScan PingWriter PingSpec RequestLoop.

Module RequestSpec.
Import PingWriter PingSpec RequestLoop.

#[local] Arguments writePreemptGiveUp : simpl never.
#[local] Arguments SendError : simpl never.

Section spec.
Variable p : Params.
Variable giveUpBody errorBody : list Z.

Abbreviation act := (act p giveUpBody errorBody).
Abbreviation run := (run p giveUpBody errorBody).
Abbreviation start_loop := (start_loop p giveUpBody).
Abbreviation begin_attempt := (begin_attempt p giveUpBody).

(** The handler sends one header per attempt; ticks are timely. *)
Definition lawful_step (l : Loop) (a : action) : Prop :=
  match a with
  | HandlerHeader _ _ => wroteHeader (att l) = false
  | PingLoop now err burned => match pw l with Some w => lawful w (Tick now err burned) | None => True end
  | _ => True
  end.

Fixpoint lawful_steps (l : Loop) (acts : list action) : Prop :=
  match acts with
  | [] => True
  | a :: acts => lawful_step l a /\ match act l a with Some l => lawful_steps l acts | None => False end
  end.

(** Rule induction over the lawful runs. *)
Lemma run_ind (P : Loop -> Prop) :
  (forall l a l', P l -> lawful_step l a -> act l a = Some l' -> P l') ->
  forall acts l l', P l -> lawful_steps l acts -> run l acts = Some l' -> P l'.
Proof.
  intros Hstep. induction acts as [|a acts IH]; intros l l' Hl Hlaw Hr; simpl in *; [by simplify_eq|].
  destruct Hlaw as [Ha Hlaw]. destruct (act l a) as [l1|] eqn:E; [|done]. by eapply IH; [eapply Hstep| |].
Qed.

(** ** A silent request: no keepalive writer, no loading stream *)

(** Neither a stream of the Anthropic path nor one of the loading paths. *)
Definition silent : Prop :=
  keepaliveArmed p = false /\ Streaming p && SendLoadingState p && loadingPath p = false.

(** What has reached the client, by stage and by how the request ended. *)
Definition answered (l : Loop) : Prop :=
  match at_stage l with
  | Submitting | Admitting | Parked => raw l = [] /\ ended l = None
  | Serving => ended l = None /\
    if wroteHeader (att l) && negb (bool_decide (replayWanted (att l) = Some true))
    then exists c r, raw l = EHead c :: r /\ plain r else raw l = []
  | Returned =>
    match ended l with
    | Some DeadlineRefused | Some GivenUp => raw l = [EHead 503; EData giveUpBody]
    | Some ErrorAnswer => exists c, raw l = [EHead c; EData errorBody]
    | Some ShutDown => raw l = [EHead 500; EData errorBody]
    | Some ClientLeft => raw l = []
    | Some Served => stream_open (raw l)
    | Some Suppressed | None => False
    end
  end.

Record silent_ok (l : Loop) : Prop := {
  so_pw : pw l = None;
  so_lw : lw l = false;
  so_count : 0 <= replayCount l <= maxReplays;
  so_wanted : at_stage l <> Returned -> is_Some (replayWanted (att l)) -> replayCount l < maxReplays;
  so_swallowed : at_stage l <> Returned -> replayWanted (att l) = Some true -> wroteHeader (att l) = true;
  so_fresh : at_stage l = Submitting \/ at_stage l = Admitting \/ at_stage l = Parked -> wroteHeader (att l) = false;
  so_answered : answered l;
}.


(** Close the side conditions that hold because the stage is another one. *)
Ltac wrong_stage := simpl in *; try done; try (intros [?|[?|?]]; congruence); try (intros; congruence).

Lemma plain_data b r : plain r -> plain (r ++ [EData b]).
Proof. intros H. apply Forall_app. split; [done|]. by constructor. Qed.

Lemma stream_open_data es b : (exists c r, es = EHead c :: r /\ plain r) -> exists c r, es ++ [EData b] = EHead c :: r /\ plain r.
Proof. intros (c & r & -> & Hr). exists c, (r ++ [EData b]). split; [done|]. by apply plain_data. Qed.

Lemma begin_attempt_ok l now :
  pw l = None -> lw l = false -> raw l = [] -> ended l = None -> 0 <= replayCount l <= maxReplays ->
  silent_ok (begin_attempt l now).
Proof.
  intros Hpw Hlw Hraw Hend Hc. unfold RequestLoop.begin_attempt. destruct (deadlineRefuse p _ _).
  - unfold writePreemptGiveUp, w_header, w_bytes. rewrite Hpw. simpl.
    constructor; simpl; rewrite ?Hraw; wrong_stage.
  - unfold replayEligible. rewrite Hpw. simpl. constructor; simpl; try done.
    + by destruct (_ && _).
    + intros _. destruct (Z.ltb_spec (replayCount l) maxReplays); [done|]. simpl. by intros [].
    + intros _. by destruct (_ && _).
Qed.

(** The give-up of a parked request and a plain error, on an empty response. *)
Lemma give_up_raw l now : pw l = None -> raw l = [] ->
  writePreemptGiveUp giveUpBody l now = set_pw l None [EHead 503; EData giveUpBody].
Proof. intros Hpw Hraw. unfold writePreemptGiveUp, w_header, w_bytes. by rewrite Hpw, Hraw. Qed.

Lemma error_raw l code now : pw l = None -> raw l = [] ->
  SendError errorBody l code now = set_pw l None [EHead code; EData errorBody].
Proof. intros Hpw Hraw. unfold SendError, w_header, w_bytes. by rewrite Hpw, Hraw. Qed.

Lemma handler_header_ok l code now :
  silent_ok l -> at_stage l = Serving -> wroteHeader (att l) = false -> silent_ok (handler_header giveUpBody l code now).
Proof.
  intros [H1 H2 H3 H4 H5 H7 H6] Hst Hw. unfold answered in H6. rewrite Hst, Hw in H6. destruct H6 as [He Hraw].
  specialize (H4 ltac:(congruence)). specialize (H5 ltac:(congruence)).
  unfold handler_header, attempt_WriteHeader. rewrite Hw.
  destruct (preempted (att l)) eqn:Hp; [destruct (replayWanted (att l)) as [[]|] eqn:Hr|]; simpl.
  - by rewrite H5 in Hw.
  - constructor; simpl; rewrite ?Hst; wrong_stage; [by intros; apply H4; eauto|]. unfold answered. simpl. by rewrite Hst.
  - rewrite give_up_raw by done. constructor; simpl; rewrite ?Hst; wrong_stage.
    unfold answered. simpl. rewrite Hst. split; [done|]. eexists _, _. split; [done|]. by repeat constructor.
  - unfold w_header. simpl. rewrite H1. constructor; simpl; rewrite ?Hst; wrong_stage.
    unfold answered. simpl. rewrite Hst. split; [done|].
    rewrite bool_decide_eq_false_2 by (intros Hr; by rewrite H5 in Hw). simpl. rewrite Hraw.
    exists code, []. split; [done|]. apply Forall_nil_2.
Qed.

(** Bytes after the header. *)
Lemma silent_bytes_ok l b now :
  silent_ok l -> at_stage l = Serving -> wroteHeader (att l) = true -> replayWanted (att l) <> Some true ->
  silent_ok (w_bytes l b now).
Proof.
  intros [H1 H2 H3 H4 H5 H7 H6] Hst Hw Hr. unfold answered in H6. rewrite Hst, Hw, (bool_decide_eq_false_2 _ Hr) in H6.
  destruct H6 as [He Hraw]. unfold w_bytes. rewrite H1. constructor; simpl; rewrite ?Hst in *; wrong_stage.
  unfold answered. simpl. rewrite Hst, Hw, (bool_decide_eq_false_2 _ Hr). simpl. split; [done|]. by apply stream_open_data.
Qed.

Lemma handler_write_ok l b now :
  silent_ok l -> at_stage l = Serving -> silent_ok (handler_write giveUpBody l b now).
Proof.
  intros H Hst. pose proof H as [H1 _ _ _ H5 _ _]. unfold handler_write, attempt_Write. rewrite H1.
  assert (exists l1, silent_ok l1 /\ at_stage l1 = Serving /\ wroteHeader (att l1) = true /\ pw l1 = None /\
            (let '(a, first) := if wroteHeader (att l) then (att l, [])
                                else let '(a, o) := attempt_WriteHeader (att l) 200 in (a, [o]) in
             att l1 = a /\ foldl (fun l o => do_below giveUpBody l o now) (set_att l a (ctxDone l) (clientGone l)) first = l1))
    as (l1 & Hl1 & Hst1 & Hw1 & Hpw1 & Hfold).
  { destruct (wroteHeader (att l)) eqn:Hw.
    - exists l. split; [done|]. split; [done|]. split; [done|]. split; [done|]. split; [done|]. by destruct l.
    - pose proof (handler_header_ok l 200 now H Hst Hw) as Hh. unfold handler_header in Hh.
      destruct (attempt_WriteHeader (att l) 200) as [a o] eqn:Ha. simpl. eexists. split; [exact Hh|].
      assert (wroteHeader a = true) as Hwa.
      { unfold attempt_WriteHeader in Ha. rewrite Hw in Ha. repeat case_match; by simplify_eq/=. }
      unfold do_below, writePreemptGiveUp, w_header, w_bytes. simpl. rewrite H1. by destruct o; simpl. }
  destruct (if wroteHeader (att l) then _ else _) as [a first]. destruct Hfold as [Ha Hfold]. subst a.
  case_bool_decide as Hr; [by rewrite Hfold|].
  destruct (preempted _ && _ && false) eqn:Hx; [by rewrite andb_false_r in Hx|].
  rewrite foldl_app, Hfold. simpl. rewrite Hpw1. by apply silent_bytes_ok.
Qed.

Lemma silent_ok_step l a l' :
  silent -> silent_ok l -> lawful_step l a -> act l a = Some l' -> silent_ok l'.
Proof.
  intros [Hk Hload] H Hlaw Hact. pose proof H as [H1 H2 H3 H4 H5 H7 H6]. unfold answered in H6.
  assert (forall s, writer_step l s = None) as Hws by (intros s; unfold writer_step; by rewrite H1).
  destruct a as [now|[code|] ready now|[code|] now|now| |now|code now|b now|burned|burned|now| | |now err burned| |now];
    simpl in Hact; rewrite ?Hws in Hact; destruct (at_stage l) eqn:Hst; try done; rewrite ?Hst in H6;
    try specialize (H4 ltac:(congruence)); try specialize (H5 ltac:(congruence));
    try destruct H6 as [Hraw He]; try (destruct (pw_idle l); [|done]).
  - simplify_eq/=. specialize (H7 (or_introl eq_refl)). by constructor; simpl.
  - simplify_eq/=. rewrite error_raw by done. constructor; simpl; wrong_stage. unfold answered. simpl. eauto.
  - simplify_eq/=. specialize (H7 (or_intror (or_introl eq_refl))).
    assert ((attempt_no l =? 1) && Streaming p && SendLoadingState p && loadingPath p && negb ready = false) as ->.
    { destruct (attempt_no l =? 1); [|done]. simpl. by rewrite Hload. }
    by constructor; simpl.
  - simplify_eq/=. rewrite H2, error_raw by done. constructor; simpl; wrong_stage. unfold answered. simpl. eauto.
  - simplify_eq/=. specialize (H7 (or_intror (or_intror eq_refl))). rewrite H1.
    constructor; simpl; wrong_stage. unfold answered. simpl. by rewrite H7.
  - destruct (giveUp l) as [t|]; [|done]. destruct (now <? t); [done|].
    specialize (H7 (or_intror (or_introl eq_refl))). destruct (sessionExempt p); simplify_eq/=; [by constructor; simpl|].
    rewrite give_up_raw by done. constructor; simpl; wrong_stage.
  - destruct (giveUp l) as [t|]; [|done]. destruct (now <? t); [done|].
    specialize (H7 (or_intror (or_intror eq_refl))). destruct (sessionExempt p); simplify_eq/=; [by constructor; simpl|].
    rewrite give_up_raw by done. constructor; simpl; wrong_stage.
  - destruct (ctxDone l); [|done]. simplify_eq/=. constructor; simpl; rewrite ?H1; wrong_stage.
  - destruct (ctxDone l); [|done]. simplify_eq/=. constructor; simpl; rewrite ?H1; wrong_stage.
  - destruct (ctxDone l); [|done]. simplify_eq/=. constructor; simpl; rewrite ?H1; wrong_stage.
  - simplify_eq/=. rewrite error_raw by done. constructor; wrong_stage.
  - simplify_eq/=. rewrite error_raw by done. constructor; wrong_stage.
  - simplify_eq/=. rewrite H2, error_raw by done. constructor; wrong_stage.
  - simplify_eq/=. by apply handler_header_ok.
  - simplify_eq/=. by apply handler_write_ok.
  - simplify_eq/=. unfold after_handler. rewrite H1.
    assert (match replayWanted (att l) with Some w => w || (preempted (att l) && false) | None => false end =
            bool_decide (replayWanted (att l) = Some true)) as ->.
    { rewrite andb_false_r. by destruct (replayWanted (att l)) as [[]|]. }
    case_bool_decide as Hr.
    + apply begin_attempt_ok; simpl; try done; [|specialize (H4 ltac:(rewrite Hr; eauto)); lia].
      by rewrite (H5 Hr) in He.
    + constructor; simpl; rewrite ?H1; wrong_stage. unfold answered. simpl. destruct (wroteHeader (att l)); simpl in He; [by right|by left].
  - simplify_eq/=. constructor; simpl; rewrite ?Hst; wrong_stage. unfold answered. simpl. by rewrite Hst.
  - simplify_eq/=. specialize (H7 (or_introl eq_refl)). constructor; simpl; rewrite ?Hst; wrong_stage.
    unfold answered. simpl. by rewrite Hst.
  - simplify_eq/=. specialize (H7 (or_intror (or_introl eq_refl))). constructor; simpl; rewrite ?Hst; wrong_stage.
    unfold answered. simpl. by rewrite Hst.
  - simplify_eq/=. specialize (H7 (or_intror (or_intror eq_refl))). constructor; simpl; rewrite ?Hst; wrong_stage.
    unfold answered. simpl. by rewrite Hst.
  - simplify_eq/=. constructor; simpl; rewrite ?Hst; wrong_stage. unfold answered. simpl. by rewrite Hst.
  - by destruct (Preemptible p && _).
  - by destruct (Preemptible p && _).
  - by destruct (Preemptible p && _).
  - by destruct (Preemptible p && _).
Qed.


End spec.

(** ** A request that is booted and replayed *)

(** Not streamed, of the default tier, without a session. *)
Definition ex_request : Params := mkParams false false true true false "" 1000 None 0 0.

Definition at_second (s : Z) : Z := 1000000 * nsec_second + s * nsec_second.

(** Cut after 200 seconds of its first attempt, served by its second. *)
Definition ex_replayed : list action :=
  [HandOver (at_second 0); AdmissionAnswer None true (at_second 0); Granted None (at_second 0);
   Preempt; HandlerHeader 502 (at_second 200); HandlerWrite [7] (at_second 200); HandlerReturns (at_second 200);
   HandOver (at_second 200); AdmissionAnswer None true (at_second 200); Granted None (at_second 210);
   HandlerHeader 200 (at_second 211); HandlerWrite [1; 2] (at_second 212); HandlerReturns (at_second 213)].


End RequestSpec.
