(* ===== verification/RequestMessages.v ===== *)
(** What a request of the router (RequestLoop.v) tells the scheduler: its attempts,
    one after the other, and an abandoned one once. *)

From S2P Require Import Prelude Float64 AdmissionScan PingWriter PingSpec RequestLoop RequestSpec.

Module RequestMessages.
Import Float64 PingWriter PingSpec RequestLoop RequestSpec.

Section spec.
Variable p : Params.
Variable giveUpBody errorBody : list Z.

Abbreviation act := (act p giveUpBody errorBody).
Abbreviation run := (run p giveUpBody errorBody).
Abbreviation start_loop := (start_loop p giveUpBody).
Abbreviation begin_attempt := (begin_attempt p giveUpBody).
Abbreviation after_handler := (after_handler p giveUpBody).

(** ** The messages of a request *)

(** The hand-overs of the first [n] attempts. *)
Definition handed (n : Z) : list message := Submit <$> seqZ 1 n.

(** The only requests the router itself turns away. *)
Definition refusable : Prop := Preemptible p = true /\ keepaliveArmed p = false /\ session_id p = ""%string.

Definition sent_ok (l : Loop) : Prop :=
  let n := replayCount l in
  match at_stage l, ended l with
  | Submitting, None => msgs l = handed n
  | (Admitting | Parked | Serving), None => msgs l = handed (n + 1)
  | Returned, Some DeadlineRefused => msgs l = handed n /\ refusable
  | Returned, Some GivenUp => msgs l = handed (n + 1) ++ [CancelMsg (n + 1)] /\ refusable
  | Returned, Some ClientLeft => msgs l = handed n \/ msgs l = handed (n + 1) ++ [CancelMsg (n + 1)]
  | Returned, Some ShutDown => msgs l = handed n \/ msgs l = handed (n + 1)
  | Returned, Some (ErrorAnswer | Suppressed | Served) => msgs l = handed (n + 1)
  | _, _ => False
  end.

Record msgs_ok (l : Loop) : Prop := {
  mo_count : 0 <= replayCount l;
  mo_giveUp : is_Some (giveUp l) -> Preemptible p = true /\ keepaliveArmed p = false;
  mo_sent : sent_ok l;
}.

(** Steps that leave the request where it is. *)
Definition same_place (l l' : Loop) : Prop :=
  at_stage l' = at_stage l /\ replayCount l' = replayCount l /\ msgs l' = msgs l /\ ended l' = ended l /\ giveUp l' = giveUp l.

Lemma same_place_refl l : same_place l l.
Proof. done. Qed.

Lemma same_place_trans l1 l2 l3 : same_place l1 l2 -> same_place l2 l3 -> same_place l1 l3.
Proof. intros (?&?&?&?&?) (?&?&?&?&?). repeat split; congruence. Qed.

Lemma msgs_ok_same l l' : same_place l l' -> msgs_ok l -> msgs_ok l'.
Proof.
  intros (H1 & H2 & H3 & H4 & H5) [Hc Hg Hs]. constructor; [by rewrite H2|by rewrite H5|].
  unfold sent_ok in *. by rewrite H1, H2, H3, H4.
Qed.

Lemma w_header_place l c : same_place l (w_header l c).
Proof. unfold w_header. by destruct (pw l). Qed.

Lemma w_bytes_place l b now : same_place l (w_bytes l b now).
Proof. unfold w_bytes. by destruct (pw l). Qed.

Lemma give_up_place l now : same_place l (writePreemptGiveUp giveUpBody l now).
Proof. eapply same_place_trans; [apply w_header_place|apply w_bytes_place]. Qed.

Lemma error_place l c now : same_place l (SendError errorBody l c now).
Proof.
  unfold SendError. destruct (pw l); [|destruct (raw l); [|done]];
    (eapply same_place_trans; [apply w_header_place|apply w_bytes_place]).
Qed.

Lemma below_place l o now : same_place l (do_below giveUpBody l o now).
Proof.
  destruct o; simpl; [done|apply w_header_place|apply give_up_place|].
  unfold w_bytes. by destruct (pw l).
Qed.

Lemma handler_header_place l code now : same_place l (handler_header giveUpBody l code now).
Proof.
  unfold handler_header. destruct (attempt_WriteHeader (att l) code) as [a o].
  eapply same_place_trans; [|apply below_place]. done.
Qed.

Lemma handler_write_place l b now : same_place l (handler_write giveUpBody l b now).
Proof.
  unfold handler_write. destruct (attempt_Write _ _ _) as [a os].
  assert (forall l0, same_place l0 (foldl (fun l o => do_below giveUpBody l o now) l0 os)) as H.
  { induction os as [|o os IH]; intros l0; [done|]. simpl. eapply same_place_trans; [apply below_place|apply IH]. }
  eapply same_place_trans; [|apply H]. done.
Qed.

Lemma writer_place l a l' : writer_step l a = Some l' -> same_place l l'.
Proof. unfold writer_step. intros H. repeat case_match; by simplify_eq/=. Qed.

(** The return of a request, wherever its answer went. *)
Lemma returned l l' v : same_place l l' ->
  at_stage (return_ l' v) = Returned /\ replayCount (return_ l' v) = replayCount l /\
  msgs (return_ l' v) = msgs l /\ ended (return_ l' v) = Some v /\ giveUp (return_ l' v) = None.
Proof. by intros (H1 & H2 & H3 & H4 & H5). Qed.

Lemma returned_ok l l' v :
  same_place l l' -> 0 <= replayCount l ->
  sent_ok (return_ (set_stage l (at_stage l) None) v) -> msgs_ok (return_ l' v).
Proof.
  intros (H1 & H2 & H3 & H4 & H5) Hc Hs. constructor; simpl; [by rewrite H2|by intros []|].
  unfold sent_ok in *. simpl in *. by rewrite H2, H3.
Qed.

Lemma handed_snoc n : 0 <= n -> handed n ++ [Submit (n + 1)] = handed (n + 1).
Proof.
  intros Hn. unfold handed. rewrite seqZ_app by lia. rewrite fmap_app. f_equal. simpl. f_equal. f_equal. lia.
Qed.

Lemma deadline_refusable start now : deadlineRefuse p start now = true -> refusable.
Proof.
  unfold deadlineRefuse, refusable. destruct (Preemptible p), (keepaliveArmed p); simpl; try done.
  destruct (fleb _ _); [done|]. destruct (String.eqb_spec (session_id p) ""); [done|done].
Qed.

Lemma begin_sent l now :
  0 <= replayCount l -> ended l = None -> msgs l = handed (replayCount l) -> msgs_ok (begin_attempt l now).
Proof.
  intros Hc He Hm. unfold RequestLoop.begin_attempt. destruct (deadlineRefuse p _ _) eqn:Hd.
  - eapply returned_ok; [apply give_up_place|done|]. unfold sent_ok. simpl. split; [done|]. by eapply deadline_refusable.
  - constructor; simpl; [done|by intros []|]. unfold sent_ok. simpl. by rewrite He.
Qed.

Lemma arm_give_up start now committed :
  is_Some (armParkGiveUp p (keepaliveArmed p || committed) start now) -> Preemptible p = true /\ keepaliveArmed p = false.
Proof. unfold armParkGiveUp. destruct (Preemptible p), (keepaliveArmed p); simpl; by intros []. Qed.

Lemma give_up_fires l now l' :
  msgs_ok l -> at_stage l = Admitting \/ at_stage l = Parked -> act l (GiveUpFires now) = Some l' -> msgs_ok l'.
Proof.
  intros [Hc Hg Hs] Hst. simpl. unfold sent_ok in Hs.
  assert (ended l = None /\ msgs l = handed (replayCount l + 1)) as [He Hm].
  { destruct Hst as [Hst|Hst]; rewrite Hst in Hs; by destruct (ended l). }
  destruct (giveUp l) as [t|]; [|by destruct Hst as [->| ->]]. specialize (Hg ltac:(eauto)).
  intros Hact. assert ((if now <? t then None
      else if sessionExempt p then Some (set_stage l (at_stage l) None)
      else Some (send (return_ (writePreemptGiveUp giveUpBody (set_att l (att l) true (clientGone l)) now) GivenUp)
                   [CancelMsg (attempt_no l)])) = Some l') as Hact' by (by destruct Hst as [Hst|Hst]; rewrite Hst in *).
  clear Hact. destruct (now <? t); [done|]. destruct (sessionExempt p) eqn:Hx; simplify_eq/=.
  - constructor; simpl; [done|by intros []|]. unfold sent_ok. simpl. by destruct Hst as [->| ->]; rewrite He.
  - destruct (give_up_place (set_att l (att l) true (clientGone l)) now) as (H1 & H2 & H3 & H4 & H5).
    constructor; simpl in *; [by rewrite H2|by intros []|]. unfold sent_ok. simpl. rewrite H2, H3. simpl.
    split; [by rewrite Hm|]. destruct Hg as [? ?]. unfold sessionExempt in Hx. apply negb_false_iff, String.eqb_eq in Hx. done.
Qed.

Lemma after_handler_sent l now :
  0 <= replayCount l -> ended l = None -> msgs l = handed (replayCount l + 1) -> msgs_ok (after_handler l now).
Proof.
  intros Hc He Hm. unfold RequestLoop.after_handler. destruct (match replayWanted (att l) with Some _ => _ | None => _ end).
  - destruct (match pw l with Some _ => _ | None => _ end).
    + eapply returned_ok; [apply w_header_place|done|]. by unfold sent_ok.
    + apply begin_sent; simpl; [lia|done|done].
  - eapply returned_ok; [apply same_place_refl|done|]. by unfold sent_ok.
Qed.

Lemma msgs_ok_step l a l' : msgs_ok l -> act l a = Some l' -> msgs_ok l'.
Proof.
  intros Hok Hact.
  assert (forall s, writer_step l s = Some l' -> msgs_ok l') as Hw
    by (intros s Hs; eapply msgs_ok_same; [by eapply writer_place|done]).
  destruct a as [now|[code|] ready now|[code|] now|now| |now|code now|b now|burned|burned|now| | |now err burned| |now];
    try (destruct (at_stage l) eqn:Hst; simpl in Hact; rewrite ?Hst in Hact; try done; by eapply Hw);
    try (destruct (at_stage l) eqn:Hst; simpl in Hact; rewrite ?Hst in Hact; try done;
         try (by eapply Hw); try (by eapply give_up_fires; [|eauto|simpl; rewrite Hst]);
         pose proof Hok as [Hc Hg Hs]; unfold sent_ok in Hs; rewrite Hst in Hs; destruct (ended l) as [v|] eqn:He; try done;
         repeat (destruct (ctxDone l); [|done]); repeat (destruct (pw_idle l); [|done]);
         repeat (destruct (Preemptible p && _); [|done]); simplify_eq/=;
         first [ by eapply Hw
               | (eapply msgs_ok_same; [|exact Hok]); first [apply handler_header_place|apply handler_write_place|by split_and!]
               | by apply after_handler_sent
               | (eapply returned_ok; [first [apply error_place|apply same_place_refl|idtac]|done|]; unfold sent_ok; simpl; by eauto)
               | idtac ]).
  - constructor; simpl; [done| |unfold sent_ok; simpl; by rewrite He, Hs, handed_snoc].
    intros Ha. apply (arm_give_up (replayStart l) now false). by rewrite orb_false_r.
  - constructor; simpl; [done|apply arm_give_up|done].
  - eapply returned_ok; [|done|by unfold sent_ok]. destruct (lw l); [apply same_place_refl|apply error_place].
  - constructor; simpl; [done|by intros []|]. unfold sent_ok. simpl. by rewrite He.
  - constructor; simpl; [done|by intros []|]. unfold sent_ok. simpl. right. by rewrite Hs.
  - constructor; simpl; [done|by intros []|]. unfold sent_ok. simpl. right. by rewrite Hs.
  - eapply returned_ok; [|done|by unfold sent_ok; simpl; right]. destruct (lw l); [apply same_place_refl|apply error_place].
Qed.

(** Rule induction over all runs. *)
Lemma run_sent acts l l' : msgs_ok l -> run l acts = Some l' -> msgs_ok l'.
Proof.
  revert l. induction acts as [|a acts IH]; intros l Hl Hr; simpl in *; [by simplify_eq|].
  destruct (act l a) as [l1|] eqn:E; [|done]. eapply IH; [by eapply msgs_ok_step|done].
Qed.

(** In every run of a request, whatever its client, the scheduler, its
    handler and its writer do: the scheduler is handed the attempts one after the
    other, numbered from one, the next only when the handler of the one before
    returned; an attempt that is given up, or whose client leaves while it waits,
    is cancelled with the scheduler, once and as the last message; and only a
    request of a preemptible tier that has neither a session nor a keepalive
    stream is ever refused for its deadline or given up while parked. *)
Theorem attempts_announced now acts l : run (start_loop now) acts = Some l -> sent_ok l.
Proof.
  intros Hr. eapply mo_sent, run_sent; [|exact Hr]. unfold RequestLoop.start_loop. by apply begin_sent.
Qed.

End spec.

(** A booted and replayed request, given up by nobody. *)
Lemma attempts_announced_witness :
  exists l, RequestLoop.run ex_request [] [] (RequestLoop.start_loop ex_request [] (at_second 0)) ex_replayed = Some l /\
    msgs l = [Submit 1; Submit 2] /\ sent_ok ex_request l.
Proof.
  assert (exists l, RequestLoop.run ex_request [] [] (RequestLoop.start_loop ex_request [] (at_second 0)) ex_replayed = Some l /\
    msgs l = [Submit 1; Submit 2]) as (l & Hr & Hm) by (vm_compute; eexists; repeat split).
  exists l. split; [exact Hr|]. split; [exact Hm|].
  exact (attempts_announced ex_request [] [] (at_second 0) ex_replayed l Hr).
Defined.

End RequestMessages.
