(* ===== verification/RequestKeepalive.v ===== *)
(** A request with a keepalive writer (RequestLoop.v over PingWriter.v): it is a
    lawful client of its writer over all its attempts, so what the client reads is
    what PingSpec.v shows of a writer; and a run in which a request that is parked
    for its replay is cut. *)

From S2P Require Import Prelude Float64 AdmissionScan PingWriter PingSpec RequestLoop RequestSpec.

Module RequestKeepalive.
Import PingWriter PingSpec RequestLoop RequestSpec.

(** ** Lawful runs of a writer *)

Definition reaches (w w' : pingWriter) : Prop :=
  exists acts, lawful_run w acts /\ PingWriter.run w acts = Some w'.

Lemma reaches_refl w : reaches w w.
Proof. by exists []. Qed.

Lemma reaches_step w a w' : lawful w a -> PingWriter.act w a = Some w' -> reaches w w'.
Proof. intros Hl Ha. exists [a]. simpl. by rewrite Ha. Qed.

Lemma reaches_trans w1 w2 w3 : reaches w1 w2 -> reaches w2 w3 -> reaches w1 w3.
Proof.
  intros (acts & Hl & Hr) (acts2 & Hl2 & Hr2). exists (acts ++ acts2). revert w1 Hl Hr.
  induction acts as [|a acts IH]; intros w1 Hl Hr; simpl in *; [by simplify_eq|].
  destruct Hl as [Ha Hl]. destruct (PingWriter.act w1 a) as [w|]; [|done].
  by destruct (IH w Hl Hr).
Qed.

(** The writer between two writes of a request that has not returned. *)
Definition calm (w : pingWriter) : Prop := stopped w = false /\ pending w = None.

Lemma calm_header w code : calm w -> pw_ok w ->
  reaches w (WriteHeader w code) /\ calm (WriteHeader w code) /\ headersSent (WriteHeader w code) = true.
Proof.
  intros [Hs Hp] Hok. split; [|split].
  - apply reaches_step with (a := Head code); [done|]. simpl. by rewrite Hs, Hp.
  - unfold WriteHeader, calm. simpl. destruct (_ && _); [by split|]. by destruct (_ && _); split.
  - unfold WriteHeader. simpl. destruct (negb (pingsStarted w) && negb (headersSent w)) eqn:E; [done|].
    assert (headersSent w = true) as Hh.
    { destruct (headersSent w) eqn:Hh; [done|]. rewrite andb_true_r in E. apply negb_false_iff in E.
      by rewrite (ok_pings w Hok E) in Hh. }
    clear E. by destruct (_ && _).
Qed.

Lemma begin_facts w b now :
  stopped (write_begin w b now) = stopped w /\ headersSent (write_begin w b now) = headersSent w.
Proof. unfold write_begin. by destruct (if negb (pastAdmission w) then _ else _) as [[[? ?] ?] ?]. Qed.

Lemma calm_begin w b now : calm w -> headersSent w = true -> reaches w (write_begin w b now).
Proof.
  intros [Hs Hp] Hh. apply reaches_step with (a := WriteBegin b now); [done|]. simpl. by rewrite Hs, Hp.
Qed.

Lemma end_facts w burned :
  pending (write_end w burned) = None /\ stopped (write_end w burned) = stopped w /\
  headersSent (write_end w burned) = headersSent w.
Proof. unfold write_end. destruct (pending w) eqn:E; [|done]. unfold guard_write, fire. by repeat case_match. Qed.

Lemma reaches_end w burned : reaches w (write_end w burned).
Proof.
  destruct (pending w) as [o|] eqn:E; [|unfold write_end; rewrite E; apply reaches_refl].
  apply reaches_step with (a := WriteEnd burned); [done|]. simpl. by rewrite E.
Qed.

Lemma calm_bytes w b now burned : calm w -> headersSent w = true ->
  let w' := write_end (write_begin w b now) burned in
  reaches w w' /\ calm w' /\ headersSent w' = true.
Proof.
  intros Hc Hh w'. destruct (begin_facts w b now) as [H1 H2].
  destruct (end_facts (write_begin w b now) burned) as (H3 & H4 & H5). destruct Hc as [Hs Hp]. split; [|split].
  - eapply reaches_trans; [by apply calm_begin|apply reaches_end].
  - subst w'. by split; [rewrite H4, H1|].
  - subst w'. by rewrite H5, H2.
Qed.

(** The steps of a writer that its goroutines make, or that end a write: none of
    them starts a write, stops the writer or takes its header back. *)
Definition on_its_own (a : PingWriter.action) : bool :=
  match a with Tick _ _ _ | PrefillCut | Allow | WriteEnd _ | FlushBody _ => true | _ => false end.

Lemma act_facts w a w' : on_its_own a = true -> PingWriter.act w a = Some w' ->
  stopped w' = stopped w /\ (pending w = None -> pending w' = None) /\ (headersSent w = true -> headersSent w' = true).
Proof.
  destruct a as [now err burned| | |burned|burned| | | |]; try done; intros _ Ha; simpl in Ha.
  - destruct (looping w); [|done].
    assert (stopped (tryPing w now err burned).1 = stopped w /\ pending (tryPing w now err burned).1 = pending w /\
            (headersSent w = true -> headersSent (tryPing w now err burned).1 = true)) as (H1 & H2 & H3).
    { unfold tryPing, fire, guard_write, commit_sse, fire. repeat case_match; simpl; try done; by repeat case_match. }
    destruct (tryPing w now err burned) as [w1 r]. simplify_eq/=. by rewrite H1, H2.
  - case_bool_decide; [|done]. simplify_eq/=. destruct (end_facts w burned) as (H1 & H2 & H3). by rewrite H1, H2, H3.
  - destruct (_ || _); [done|]. simplify_eq/=. unfold Flush, guard_write, fire. by repeat case_match.
  - by simplify_eq/=.
  - simplify_eq/=. unfold prefillStallCut, fire, commit_sse. by repeat case_match.
Qed.

(** ** The request keeps to them *)

Section spec.
Variable p : Params.
Variable giveUpBody errorBody : list Z.

Abbreviation act := (act p giveUpBody errorBody).
Abbreviation run := (run p giveUpBody errorBody).
Abbreviation start_loop := (start_loop p giveUpBody).
Abbreviation begin_attempt := (begin_attempt p giveUpBody).
Abbreviation after_handler := (after_handler p giveUpBody).

(** The writer a request starts with. *)
Definition first_writer (now : Z) : pingWriter :=
  newPingWriter (negb (Preemptible p)) (peerTimeout p) (slotTimeout p) now.

Record kept (w0 : pingWriter) (l : Loop) (w : pingWriter) : Prop := {
  k_pw : pw l = Some w;
  k_raw : raw l = [];
  k_reaches : reaches w0 w;
  k_open : at_stage l <> Returned -> stopped w = false;
  k_idle : at_stage l <> Serving -> pending w = None;
  k_header : at_stage l <> Returned -> wroteHeader (att l) = true -> replayWanted (att l) <> Some true -> headersSent w = true;
}.

Definition keep_ok (w0 : pingWriter) (l : Loop) : Prop := exists w, kept w0 l w.

(** What holds while the handler calls its writer, for the writer [w] below. *)
Record calling (w0 : pingWriter) (l : Loop) (w : pingWriter) : Prop := {
  c_pw : pw l = Some w;
  c_raw : raw l = [];
  c_reaches : reaches w0 w;
  c_calm : calm w;
}.

Section kept.
Variable w0 : pingWriter.
Hypothesis Hw0 : pw_ok w0 /\ gap_ok w0.

Lemma reaches_ok w : reaches w0 w -> pw_ok w.
Proof. intros (acts & Hl & Hr). destruct Hw0. by eapply pw_ok_run. Qed.

Lemma calling_header l w code : calling w0 l w ->
  exists w', calling w0 (w_header l code) w' /\ headersSent w' = true.
Proof.
  intros [H1 H2 H3 H4]. destruct (calm_header w code H4 (reaches_ok w H3)) as (Hr & Hc & Hh).
  exists (WriteHeader w code). split; [|done]. unfold w_header. rewrite H1.
  constructor; simpl; [done|done|by eapply reaches_trans|done].
Qed.

Lemma calling_bytes l w b now : calling w0 l w -> headersSent w = true ->
  exists w', calling w0 (w_bytes l b now) w' /\ headersSent w' = true.
Proof.
  intros [H1 H2 H3 H4] Hh. destruct (calm_bytes w b now false H4 Hh) as (Hr & Hc & Hh').
  eexists. split; [|exact Hh']. unfold w_bytes. rewrite H1. constructor; simpl; [done|done|by eapply reaches_trans|done].
Qed.

Lemma calling_give_up l w now : calling w0 l w ->
  exists w', calling w0 (writePreemptGiveUp giveUpBody l now) w' /\ headersSent w' = true.
Proof. intros H. destruct (calling_header l w 503 H) as (w' & H' & Hh). by eapply calling_bytes. Qed.

Lemma calling_error l w code now : calling w0 l w -> exists w', calling w0 (SendError errorBody l code now) w'.
Proof.
  intros H. destruct (calling_header l w code H) as (w' & H' & Hh).
  destruct (calling_bytes _ _ errorBody now H' Hh) as (w'' & H'' & _). exists w''.
  unfold SendError. by rewrite (c_pw _ _ _ H).
Qed.

(** A return, after whatever answer. *)
Lemma kept_return l w v : calling w0 l w -> keep_ok w0 (return_ l v).
Proof.
  intros [H1 H2 H3 [H4 H5]]. exists (stop w). constructor; simpl; [by rewrite H1|done| |done|done|done].
  eapply reaches_trans; [exact H3|]. apply reaches_step with (a := Stop); [done|]. simpl. by rewrite H5.
Qed.

Lemma kept_calling l w : kept w0 l w -> at_stage l <> Returned -> pw_idle l = true -> calling w0 l w.
Proof.
  intros [H1 H2 H3 H4 H5 H6] Hst Hi. constructor; [done|done|done|]. split; [by apply H4|].
  unfold pw_idle in Hi. rewrite H1 in Hi. apply negb_true_iff, bool_decide_eq_false in Hi.
  destruct (pending w); [by destruct Hi|done].
Qed.

Lemma kept_waiting l w : kept w0 l w -> at_stage l <> Returned -> at_stage l <> Serving -> calling w0 l w.
Proof. intros [H1 H2 H3 H4 H5 H6] Hst Hst'. constructor; [done|done|done|]. split; [by apply H4|by apply H5]. Qed.

(** The same writer at another point of the request. *)
Lemma kept_move l w l' :
  calling w0 l w -> pw l' = pw l -> raw l' = raw l ->
  (at_stage l' <> Returned -> wroteHeader (att l') = true -> replayWanted (att l') <> Some true -> headersSent w = true) ->
  keep_ok w0 l'.
Proof.
  intros [H1 H2 H3 [H4 H5]] Hp Hr Hh. exists w. constructor; simpl; try done; by congruence.
Qed.

Lemma begin_kept l w now : keepaliveArmed p = true -> calling w0 l w -> keep_ok w0 (begin_attempt l now).
Proof.
  intros Hk Hc. unfold RequestLoop.begin_attempt.
  assert (deadlineRefuse p (replayStart l) now = false) as ->.
  { unfold deadlineRefuse. by rewrite Hk, orb_true_r. }
  destruct (replayEligible l now).
  - by eapply kept_move.
  - destruct Hc as [H1 H2 H3 [H4 H5]]. exists (allowPings w). constructor; simpl; try done; [by rewrite H1|].
    eapply reaches_trans; [exact H3|]. by apply reaches_step with (a := Allow).
Qed.

Lemma after_handler_kept l w now : keepaliveArmed p = true -> calling w0 l w -> keep_ok w0 (after_handler l now).
Proof.
  intros Hk Hc. unfold RequestLoop.after_handler. rewrite (c_pw _ _ _ Hc).
  destruct (match replayWanted (att l) with Some _ => _ | None => _ end); [|by eapply kept_return].
  destruct (negb (replaySafe w)).
  - destruct (calling_header l w 503 Hc) as (w' & Hc' & _). by eapply kept_return.
  - eapply begin_kept; [done|]. by destruct Hc; constructor.
Qed.

(** The header of an attempt, on the way down: the handler's writer has sent a
    header unless it swallowed it for a replay. *)
Lemma header_below l w code now a o :
  calling w0 l w -> attempt_WriteHeader (att l) code = (a, o) ->
  exists w', calling w0 (do_below giveUpBody (set_att l a (ctxDone l) (clientGone l)) o now) w' /\
    wroteHeader a = true /\
    (replayWanted a <> Some true -> wroteHeader (att l) = false \/ headersSent w = true -> headersSent w' = true).
Proof.
  intros Hc Ha. assert (calling w0 (set_att l a (ctxDone l) (clientGone l)) w) as Hc'
    by (by destruct Hc; constructor).
  assert (wroteHeader a = true /\ (forall b, o <> PassBytes b) /\ (o = Nothing -> replayWanted a = Some true)) as (Hw & Hb & Hn).
  { unfold attempt_WriteHeader in Ha. destruct (wroteHeader (att l)) eqn:E; simplify_eq/=; [done|].
    destruct (preempted (att l)), (replayWanted (att l)) as [r|]; by simplify_eq/=. }
  destruct o as [|c| |b]; simpl.
  - exists w. split; [done|]. split; [done|]. intros Hr. by rewrite Hn in Hr.
  - destruct (calling_header _ w c Hc') as (w' & H' & Hh). by exists w'.
  - destruct (calling_give_up _ w now Hc') as (w' & H' & Hh). by exists w'.
  - by destruct (Hb b).
Qed.

Lemma below_att l o now :
  att (do_below giveUpBody l o now) = att l /\ at_stage (do_below giveUpBody l o now) = at_stage l.
Proof. destruct o; simpl; unfold writePreemptGiveUp, w_bytes, w_header; by destruct (pw l). Qed.

Lemma handler_header_kept l w code now :
  kept w0 l w -> pw_idle l = true -> at_stage l = Serving -> keep_ok w0 (handler_header giveUpBody l code now).
Proof.
  intros Hk Hi Hst. pose proof (kept_calling l w Hk ltac:(congruence) Hi) as Hc. unfold handler_header.
  destruct (attempt_WriteHeader (att l) code) as [a o] eqn:Ha.
  destruct (header_below l w code now a o Hc Ha) as (w' & Hc' & Hw & Hh).
  destruct (below_att (set_att l a (ctxDone l) (clientGone l)) o now) as [Ea Es].
  eapply (kept_move _ w'); [exact Hc'|done|done|]. intros _ _. rewrite Ea. simpl. intros Hr. apply Hh; [done|].
  destruct (wroteHeader (att l)) eqn:Hwl; [|by left]. right.
  apply (k_header _ _ _ Hk ltac:(congruence) Hwl). intros Hr'. apply Hr. unfold attempt_WriteHeader in Ha. rewrite Hwl in Ha. by simplify_eq.
Qed.

(** Bytes on the way down. *)
Lemma bytes_below l w b now :
  calling w0 l w -> at_stage l = Serving -> headersSent w = true -> keep_ok w0 (do_below giveUpBody l (PassBytes b) now).
Proof.
  intros [H1 H2 H3 H4] Hst Hh. destruct (begin_facts w b now) as [Hs Hhd]. exists (write_begin w b now). simpl. rewrite H1.
  constructor; simpl; try done; [|by rewrite Hs; destruct H4|by rewrite Hhd].
  eapply reaches_trans; [exact H3|by apply calm_begin].
Qed.

Lemma handler_write_kept l w b now :
  kept w0 l w -> pw_idle l = true -> at_stage l = Serving -> keep_ok w0 (handler_write giveUpBody l b now).
Proof.
  intros Hk Hi Hst. pose proof (kept_calling l w Hk ltac:(congruence) Hi) as Hc. unfold handler_write, attempt_Write.
  rewrite (k_pw _ _ _ Hk).
  assert (exists w', let '(a, first) := if wroteHeader (att l) then (att l, [])
                     else let '(a, o) := attempt_WriteHeader (att l) 200 in (a, [o]) in
     let l1 := foldl (fun l o => do_below giveUpBody l o now) (set_att l a (ctxDone l) (clientGone l)) first in
     calling w0 l1 w' /\ att l1 = a /\ at_stage l1 = Serving /\ (replayWanted a <> Some true -> headersSent w' = true))
    as [w' H].
  { destruct (wroteHeader (att l)) eqn:Hw; simpl.
    - exists w. split; [by destruct Hc; constructor|]. split; [done|]. split; [done|]. intros Hr. apply (k_header _ _ _ Hk); [congruence|done|done].
    - destruct (attempt_WriteHeader (att l) 200) as [a o] eqn:Ha. simpl.
      destruct (header_below l w 200 now a o Hc Ha) as (w' & Hc' & Hwa & Hh). exists w'.
      destruct (below_att (set_att l a (ctxDone l) (clientGone l)) o now) as [Ea Es]. rewrite Ea, Es. simpl.
      split_and!; try done. intros Hr. by apply Hh; [|left]. }
  destruct (if wroteHeader (att l) then _ else _) as [a first]. destruct H as (Hc' & Ha & Hs & Hh).
  assert (forall os, os = first -> keep_ok w0 (foldl (fun l o => do_below giveUpBody l o now)
             (set_att l a (ctxDone l) (clientGone l)) os)) as Hkeep.
  { intros os ->. eapply (kept_move _ w'); [exact Hc'|done|done|]. intros _ _. by rewrite Ha. }
  case_bool_decide as Hr; [by apply Hkeep|]. destruct (preempted a && _ && _); [by apply Hkeep|].
  rewrite foldl_app. simpl. eapply bytes_below; [exact Hc'|done|by apply Hh].
Qed.

(** The goroutines of the writer; a verdict of its guard cancels the attempt. *)
Lemma writer_kept l w s l' :
  kept w0 l w -> writer_step l s = Some l' -> lawful w s -> on_its_own s = true -> keep_ok w0 l'.
Proof.
  intros [H1 H2 H3 H4 H5 H6] Hs Hl Ho. unfold writer_step in Hs. rewrite H1 in Hs.
  destruct (PingWriter.act w s) as [w'|] eqn:Ha; [|done]. simplify_eq/=.
  destruct (act_facts w s w' Ho Ha) as (Hst & Hp & Hh). exists w'. constructor; simpl; auto.
  - eapply reaches_trans; [exact H3|by eapply reaches_step].
  - intros Hr. rewrite Hst. auto.
Qed.

Lemma kept_send l w v ms : calling w0 l w -> keep_ok w0 (send (return_ l v) ms) /\ keep_ok w0 (return_ (send l ms) v).
Proof. intros Hc. destruct (kept_return l w v Hc) as [w' [H1 H2 H3 H4 H5 H6]]. by split; exists w'; constructor. Qed.

Lemma kept_error l w code now v (quiet : bool) :
  calling w0 l w -> keep_ok w0 (return_ (if quiet then l else SendError errorBody l code now) v).
Proof.
  intros Hc. destruct quiet; [by eapply kept_return|].
  destruct (calling_error l w code now Hc) as (w' & Hc'). by eapply kept_return.
Qed.

Lemma kept_give_up l w now l' :
  calling w0 l w ->
  (at_stage l <> Returned -> wroteHeader (att l) = true -> replayWanted (att l) <> Some true -> headersSent w = true) ->
  at_stage l = Admitting \/ at_stage l = Parked -> act l (GiveUpFires now) = Some l' -> keep_ok w0 l'.
Proof.
  intros Hc Hh Hst Hact.
  assert (exists t, (if now <? t then None
      else if sessionExempt p then Some (set_stage l (at_stage l) None)
      else Some (send (return_ (writePreemptGiveUp giveUpBody (set_att l (att l) true (clientGone l)) now) GivenUp)
                   [CancelMsg (attempt_no l)])) = Some l') as [t Ht].
  { simpl in Hact. destruct Hst as [Hst|Hst]; rewrite Hst in *; destruct (giveUp l) as [t|]; try done; by exists t. }
  destruct (now <? t); [done|]. destruct (sessionExempt p); simplify_eq/=.
  - eapply kept_move; [exact Hc|done|done|]. simpl. by apply Hh.
  - destruct (calling_give_up (set_att l (att l) true (clientGone l)) w now) as (w' & Hc' & _);
      [by destruct Hc; constructor|]. by eapply kept_send.
Qed.

Lemma keep_ok_step l a l' :
  keepaliveArmed p = true -> keep_ok w0 l -> lawful_step l a -> act l a = Some l' -> keep_ok w0 l'.
Proof.
  intros Hk [w Hw] Hlaw Hact.
  destruct a as [now|[code|] ready now|[code|] now|now| |now|code now|b now|burned|burned|now| | |now err burned| |now];
    destruct (at_stage l) eqn:Hst; simpl in Hact; rewrite ?Hst in Hact; try done;
    try (destruct (Preemptible p && _); [|done]);
    try (by eapply writer_kept; [exact Hw|exact Hact|first [done|by simpl in Hlaw; rewrite (k_pw _ _ _ Hw) in Hlaw]|done]);
    repeat (destruct (ctxDone l); [|done]);
    try (destruct (pw_idle l) eqn:Hi; [|done]);
    try (pose proof (kept_waiting l w Hw ltac:(congruence) ltac:(congruence)) as Hc);
    try (by eapply kept_give_up; [exact Hc|exact (k_header _ _ _ Hw)|eauto|simpl; rewrite Hst]);
    simplify_eq/=;
    try (by first [apply (kept_error l w _ _ _ _ Hc)|apply (kept_error l w _ _ _ false Hc)|
                   apply (kept_send l w _ _ Hc)|apply (kept_return l w _ Hc)]);
    try (by eapply kept_move; [exact Hc|done|done|simpl; intros _; apply (k_header _ _ _ Hw); congruence]).
  - destruct Hc as [H1 H2 H3 [H4 H5]]. exists (slotGranted w now). constructor; simpl; try done; [by rewrite H1| |].
    + eapply reaches_trans; [exact H3|]. by apply reaches_step with (a := PingWriter.Granted now).
    + intros _. apply (k_header _ _ _ Hw). congruence.
  - by eapply handler_header_kept.
  - by eapply handler_write_kept.
  - eapply after_handler_kept; [done|]. eapply kept_calling; [done|congruence|done].
  - destruct Hw as [H1 H2 H3 H4 H5 H6]. exists w. constructor; simpl; auto; congruence.
  - destruct Hw as [H1 H2 H3 H4 H5 H6]. exists w. constructor; simpl; auto; congruence.
Qed.

End kept.


End spec.

(** ** A request that is parked for its replay *)

(** A default-tier stream without a session, on an otherwise idle configuration. *)
Definition plain_request : Params :=
  mkParams false true true true false "" 1000 None 0 0.

(** Granted at once, pinged while its upstream prefills, booted after 200
    seconds, replayed, and admitted again: it waits for a slot. *)
Definition booted_and_parked : list action :=
  [HandOver (at_second 0); AdmissionAnswer None true (at_second 0); Granted None (at_second 0);
   PingLoop (at_second 20) false false; Preempt; HandlerHeader 502 (at_second 200);
   HandlerReturns (at_second 200); HandOver (at_second 200); AdmissionAnswer None true (at_second 200)].

Lemma parked_replay_cut :
  match run plain_request [] [] (start_loop plain_request [] (at_second 0))
          (booted_and_parked ++ [PingLoop (at_second 270) false false]) with
  | Some l => at_stage l = Parked /\ attempt_no l = 2 /\ raw l = [] /\
      (pw l ≫= fired) = Some "zero-output-budget"%string /\
      out <$> pw l = Some [EHead 200; EPing; EError "overloaded_error"]
  | None => False
  end.
Proof. vm_compute. by repeat split. Qed.

(** Granted in time, it is served by its second attempt. *)
Definition booted_and_served : list action :=
  booted_and_parked ++
  [Granted None (at_second 210); HandlerHeader 200 (at_second 211); HandlerWrite [100] (at_second 212); HandlerWrote false;
   PingLoop (at_second 213) false false; HandlerReturns (at_second 213)].

End RequestKeepalive.
