(* ===== verification/PrefillStall.v ===== *)
(** The watch that ends a request whose upstream prefill has stopped moving
    ([internal/router/prefillstall.go]): per model, the samples of the child's
    slots, one track per slot in prefill, the cut of the requests that can own a
    flat slot, and the restart of the child behind it.

    A Go map is iterated in any order: the operations that iterate take the order
    as an argument. *)

From S2P Require Import Prelude AdmissionScan PingWriter.

Module PrefillStall.
Import PingWriter.

(** One entry of the child's [/slots]. *)
Record upstreamSlot := mkSlot {
  ID : Z;
  IDTask : Z;
  Processing : bool;
  NPrompt : Z;
  Processed : Z;
  Decoded : Z;
}.

Definition inPrefill (s : upstreamSlot) : bool :=
  Processing s && (Decoded s =? 0) && ((NPrompt s =? 0) || (Processed s <? NPrompt s)).

(** One granted request; [h_pw] is the key of its writer, if it has one. *)
Record prefillHolder := mkHolder { h_pw : option Z; granted : Z }.

#[export] Instance holder_eq_dec : EqDecision prefillHolder.
Proof. solve_decision. Defined.

(** The last successful reading of one slot in prefill; [cutAt] is the zero time
    while its request was not cut. *)
Record slotTrack := mkTrack {
  idTask : Z;
  processed : Z;
  since : Z;
  lastSeen : Z;
  cutAt : Z;
  restarted : bool;
}.

Abbreviation track_map := (gmap Z slotTrack).

Section watch.
Variables budget restartAfter : Z.

(** ** A sample *)

Definition read_slot (now : Z) (tracks : track_map) (s : upstreamSlot) : track_map :=
  if negb (inPrefill s) then tracks
  else
    let fresh := mkTrack (IDTask s) (Processed s) now now 0 false in
    match tracks !! ID s with
    | None => <[ID s := fresh]> tracks
    | Some tr =>
      if negb (idTask tr =? IDTask s) || negb (processed tr =? Processed s) then <[ID s := fresh]> tracks
      else <[ID s := mkTrack (idTask tr) (processed tr) (since tr) now (cutAt tr) (restarted tr)]> tracks
    end.

Definition seen (slots : list upstreamSlot) : list Z := ID <$> List.filter inPrefill slots.

(** The tracks after the two first loops of [observe]. *)
Definition read_sample (tracks : track_map) (slots : list upstreamSlot) (now : Z) : track_map :=
  filter (fun kv => kv.1 ∈ seen slots) (foldl (read_slot now) tracks slots).

Definition otherSlotAdvancing (tracks : track_map) (id now : Z) : bool :=
  bool_decide (map_Exists (fun other tr => other <> id /\ time_sub now (since tr) < budget) tracks).

(** ** The requests that are cut *)

Definition candidate (ws : gmap Z pingWriter) (flatSince : Z) (h : prefillHolder) : option Z :=
  match h_pw h with
  | Some k =>
    match ws !! k with
    | Some w => if negb (flatSince <? granted h) && preFirstToken w then Some k else None
    | None => None
    end
  | None => None
  end.

Definition cut_one (acc : gmap Z pingWriter * Z) (k : Z) : gmap Z pingWriter * Z :=
  let '(ws, n) := acc in
  match ws !! k with
  | Some w => let '(w, c) := prefillStallCut w in (<[k := w]> ws, if c then n + 1 else n)
  | None => (ws, n)
  end.

Definition cutHolders (hs : list prefillHolder) (ws : gmap Z pingWriter) (flatSince : Z) : gmap Z pingWriter * Z :=
  foldl cut_one (ws, 0) (omap (candidate ws flatSince) hs).

(** What the watch did about a slot: it cut the requests of a flat span, or
    restarted the child. *)
Inductive event := Cut (id task processed flatSince now : Z) | RestartChild (id task processed flatSince now : Z).

Record verdicts := mkVerdicts { v_tracks : track_map; v_writers : gmap Z pingWriter; v_log : list event }.

Definition mark (tr : slotTrack) (cut : Z) (restart : bool) : slotTrack :=
  mkTrack (idTask tr) (processed tr) (since tr) (lastSeen tr) cut restart.

(** The body of the last loop of [observe]. *)
Definition judge (hs : list prefillHolder) (now : Z) (v : verdicts) (id : Z) : verdicts :=
  match v_tracks v !! id with
  | None => v
  | Some tr =>
    if processed tr <=? 0 then v
    else if time_sub (lastSeen tr) (since tr) <? budget then v
    else if is_zero_time (cutAt tr) then
      if otherSlotAdvancing (v_tracks v) id now then v
      else mkVerdicts (<[id := mark tr now (restarted tr)]> (v_tracks v))
             (cutHolders hs (v_writers v) (since tr)).1
             (v_log v ++ [Cut id (idTask tr) (processed tr) (since tr) now])
    else if (0 <? restartAfter) && negb (restarted tr) && (restartAfter <=? time_sub now (cutAt tr)) then
      mkVerdicts (<[id := mark tr (cutAt tr) true]> (v_tracks v)) (v_writers v)
        (v_log v ++ [RestartChild id (idTask tr) (processed tr) (since tr) now])
    else v
  end.

(** [observe]; [ids] lists the tracks in the order of the iteration. *)
Definition observe (tracks : track_map) (ws : gmap Z pingWriter) (hs : list prefillHolder)
    (slots : list upstreamSlot) (now : Z) (ids : list Z) : verdicts :=
  foldl (judge hs now) (mkVerdicts (read_sample tracks slots now) ws []) ids.

(** ** The watch *)

(** A poll loop has its own tracks; [stopping] once its channel is closed. *)
Record pollLoop := mkPoll { stopping : bool; tracks : track_map }.

Record prefillWatch := mkWatch {
  holders : gmap Z prefillHolder;
  running : bool;
  current : Z;                         (* the loop that [stopCh] stops *)
  loops : gmap Z pollLoop;             (* the poll loops that have not returned *)
  started : Z;                         (* how many were started *)
  writers : gmap Z pingWriter;
  log : list event;
}.

Definition newPrefillWatch : prefillWatch := mkWatch ∅ false 0 ∅ 0 ∅ [].

(** [add]: [h] is the new holder's address. *)
Definition add (w : prefillWatch) (h : Z) (pw : option Z) (granted : Z) : prefillWatch :=
  let hs := <[h := mkHolder pw granted]> (holders w) in
  if running w then mkWatch hs true (current w) (loops w) (started w) (writers w) (log w)
  else mkWatch hs true (started w) (<[started w := mkPoll false ∅]> (loops w)) (started w + 1) (writers w) (log w).

(** The removal that [add] returns. *)
Definition remove (w : prefillWatch) (h : Z) : prefillWatch :=
  let hs := delete h (holders w) in
  if bool_decide (hs = ∅) && running w then
    mkWatch hs false (current w) (alter (fun l => mkPoll true (tracks l)) (current w) (loops w)) (started w) (writers w) (log w)
  else mkWatch hs (running w) (current w) (loops w) (started w) (writers w) (log w).

(** One successful poll of a loop. *)
Definition sample (w : prefillWatch) (i : Z) (l : pollLoop) (slots : list upstreamSlot) (now : Z)
    (order : list (Z * prefillHolder)) (ids : list Z) : prefillWatch :=
  let v := observe (tracks l) (writers w) (snd <$> order) slots now ids in
  mkWatch (holders w) (running w) (current w) (<[i := mkPoll (stopping l) (v_tracks v)]> (loops w)) (started w)
    (v_writers v) (log w ++ v_log v).

Inductive action : Type :=
| Add (h : Z) (pw : option Z) (granted : Z)
| Remove (h : Z)
| Sample (i : Z) (slots : list upstreamSlot) (now : Z) (order : list (Z * prefillHolder)) (ids : list Z)
| LoopReturns (i : Z)
(* a new request, and any step of a writer elsewhere *)
| NewWriter (k : Z) (w : pingWriter)
| Writer (k : Z) (a : PingWriter.action).

(** A loop returns once it was stopped; until its select sees that it may poll. *)
Definition act (w : prefillWatch) (a : action) : option prefillWatch :=
  match a with
  | Add h pw granted => if bool_decide (is_Some (holders w !! h)) then None else Some (add w h pw granted)
  | Remove h => if bool_decide (is_Some (holders w !! h)) then Some (remove w h) else None
  | Sample i slots now order ids =>
    match loops w !! i with
    | Some l =>
      if bool_decide (order ≡ₚ map_to_list (holders w)) &&
         bool_decide (ids ≡ₚ (map_to_list (read_sample (tracks l) slots now)).*1)
      then Some (sample w i l slots now order ids) else None
    | None => None
    end
  | LoopReturns i =>
    match loops w !! i with
    | Some l => if stopping l then
        Some (mkWatch (holders w) (running w) (current w) (delete i (loops w)) (started w) (writers w) (log w)) else None
    | None => None
    end
  | NewWriter k pw =>
    match writers w !! k with
    | None => Some (mkWatch (holders w) (running w) (current w) (loops w) (started w) (<[k := pw]> (writers w)) (log w))
    | Some _ => None
    end
  | Writer k a =>
    match writers w !! k with
    | Some pw =>
      match PingWriter.act pw a with
      | Some pw => Some (mkWatch (holders w) (running w) (current w) (loops w) (started w) (<[k := pw]> (writers w)) (log w))
      | None => None
      end
    | None => None
    end
  end.

Fixpoint run (w : prefillWatch) (acts : list action) : option prefillWatch :=
  match acts with [] => Some w | a :: acts => match act w a with Some w => run w acts | None => None end end.

End watch.
End PrefillStall.
