(* ===== verification/PrefillSpec.v ===== *)
(** What the prefill watch (PrefillStall.v) promises: a sample is judged alike in
    every order of iteration; a request is cut only for a slot whose every sample
    over a whole budget showed the same unfinished task at the same count, once
    per such span, and the child is restarted only behind a cut; the child is
    polled exactly while a request holds a slot. *)

From S2P Require Import Prelude AdmissionScan PingWriter PingSpec PrefillStall.

Module PrefillSpec.
Import PingWriter PrefillStall.

#[local] Arguments prefillStallCut : simpl never.

Lemma skip_elem (x y : Z) l : x <> y -> bool_decide (x ∈ y :: l) = bool_decide (x ∈ l).
Proof. intros Hne. apply bool_decide_ext. rewrite elem_of_cons. split; [by intros [->|?]|by right]. Qed.

(** ** Reading a sample *)

(** What a sample says of a slot in prefill: its task and how far it is. *)
Definition reading (slots : list upstreamSlot) (id : Z) : option (Z * Z) :=
  (fun s => (IDTask s, Processed s)) <$> head (List.filter (fun s => inPrefill s && (ID s =? id)) slots).

Lemma reading_cons s slots id :
  reading (s :: slots) id =
  if inPrefill s && (ID s =? id) then Some (IDTask s, Processed s) else reading slots id.
Proof. unfold reading. simpl. by destruct (inPrefill s && (ID s =? id)). Qed.

Lemma reading_seen slots id : id ∈ seen slots <-> is_Some (reading slots id).
Proof.
  unfold seen. induction slots as [|s slots IH]; [split; [by intros ?%not_elem_of_nil|by intros []]|].
  rewrite reading_cons. simpl. destruct (inPrefill s); simpl; [|done]. rewrite elem_of_cons, IH.
  destruct (Z.eqb_spec (ID s) id) as [->|Hn]; [split; eauto|]. split; [by intros [->|?]|by right].
Qed.

Lemma reading_absent slots id : id ∉ ID <$> slots -> reading slots id = None.
Proof.
  induction slots as [|s slots IH]; [done|]. rewrite reading_cons, fmap_cons, not_elem_of_cons. intros [Hn Hi].
  destruct (Z.eqb_spec (ID s) id); [congruence|]. rewrite andb_false_r. by apply IH.
Qed.

(** What a reading makes of a track. *)
Definition refresh (now : Z) (old : option slotTrack) (r : Z * Z) : slotTrack :=
  match old with
  | Some tr => if (idTask tr =? r.1) && (processed tr =? r.2)
               then mkTrack (idTask tr) (processed tr) (since tr) now (cutAt tr) (restarted tr)
               else mkTrack r.1 r.2 now now 0 false
  | None => mkTrack r.1 r.2 now now 0 false
  end.

Lemma read_slot_lookup now T s id :
  read_slot now T s !! id =
  if inPrefill s && (ID s =? id) then Some (refresh now (T !! id) (IDTask s, Processed s)) else T !! id.
Proof.
  unfold read_slot, refresh. destruct (inPrefill s); simpl; [|done].
  destruct (Z.eqb_spec (ID s) id) as [->|Hn].
  - destruct (T !! id) as [tr|]; [|by rewrite lookup_insert_eq].
    destruct (idTask tr =? IDTask s), (processed tr =? Processed s); simpl; by rewrite lookup_insert_eq.
  - destruct (T !! ID s) as [tr|]; [destruct (_ || _)|]; by rewrite lookup_insert_ne.
Qed.

Lemma read_slots_lookup now slots T id :
  NoDup (ID <$> slots) ->
  foldl (read_slot now) T slots !! id =
  match reading slots id with Some r => Some (refresh now (T !! id) r) | None => T !! id end.
Proof.
  revert T. induction slots as [|s slots IH]; intros T Hnd; [done|]. rewrite fmap_cons, NoDup_cons in Hnd.
  destruct Hnd as [Hs Hnd]. simpl. rewrite IH, read_slot_lookup, reading_cons by done.
  destruct (inPrefill s && (ID s =? id)) eqn:E; [|done]. apply andb_prop in E as [_ <-%Z.eqb_eq].
  by rewrite reading_absent.
Qed.

(** The tracks after a sample, slot by slot. *)
Lemma read_sample_lookup T slots now id :
  NoDup (ID <$> slots) ->
  read_sample T slots now !! id = refresh now (T !! id) <$> reading slots id.
Proof.
  intros Hnd. unfold read_sample. rewrite map_lookup_filter, read_slots_lookup by done.
  pose proof (reading_seen slots id) as Hs. destruct (reading slots id) as [r|] eqn:E; simpl.
  - rewrite option_guard_True; [done|]. simpl. apply Hs. eauto.
  - destruct (T !! id) as [tr|]; [|done]. simpl. rewrite option_guard_False; [done|]. simpl. by intros [? [=]]%Hs.
Qed.

Lemma read_sample_seen T slots now id tr :
  NoDup (ID <$> slots) -> read_sample T slots now !! id = Some tr ->
  lastSeen tr = now /\ reading slots id = Some (idTask tr, processed tr).
Proof.
  intros Hnd. rewrite read_sample_lookup by done. destruct (reading slots id) as [[t q]|]; [|done]. simpl.
  intros [= <-]. unfold refresh. destruct (T !! id) as [tr0|]; simpl; [|done].
  destruct (Z.eqb_spec (idTask tr0) t) as [->|], (Z.eqb_spec (processed tr0) q) as [->|]; done.
Qed.

(** ** The judgement *)

Section watch.
Variables budget restartAfter : Z.

Abbreviation judge := (judge budget restartAfter).
Abbreviation observe := (observe budget restartAfter).
Abbreviation otherSlotAdvancing := (otherSlotAdvancing budget).

Definition ripe (tr : slotTrack) : bool := (0 <? processed tr) && (budget <=? time_sub (lastSeen tr) (since tr)).

Definition to_cut (T : track_map) (now id : Z) (tr : slotTrack) : bool :=
  ripe tr && is_zero_time (cutAt tr) && negb (otherSlotAdvancing T id now).

Definition to_restart (now : Z) (tr : slotTrack) : bool :=
  ripe tr && negb (is_zero_time (cutAt tr)) && (0 <? restartAfter) && negb (restarted tr) &&
  (restartAfter <=? time_sub now (cutAt tr)).

Definition judged (T : track_map) (now id : Z) (tr : slotTrack) : slotTrack :=
  if to_cut T now id tr then mark tr now (restarted tr)
  else if to_restart now tr then mark tr (cutAt tr) true else tr.

Definition event_of (T : track_map) (now id : Z) (tr : slotTrack) : list event :=
  if to_cut T now id tr then [Cut id (idTask tr) (processed tr) (since tr) now]
  else if to_restart now tr then [RestartChild id (idTask tr) (processed tr) (since tr) now] else [].

Lemma judge_cases hs now v id :
  judge hs now v id =
  match v_tracks v !! id with
  | None => v
  | Some tr => mkVerdicts (<[id := judged (v_tracks v) now id tr]> (v_tracks v))
      (if to_cut (v_tracks v) now id tr then (cutHolders hs (v_writers v) (since tr)).1 else v_writers v)
      (v_log v ++ event_of (v_tracks v) now id tr)
  end.
Proof.
  unfold PrefillStall.judge, judged, event_of, to_cut, to_restart, ripe. destruct v as [T ws lg]. simpl.
  destruct (T !! id) as [tr|] eqn:Ht; [|done]. rewrite (Z.ltb_antisym (processed tr) 0), (Z.leb_antisym (time_sub (lastSeen tr) (since tr)) budget).
  destruct (processed tr <=? 0); simpl; [by rewrite (insert_id _ _ _ Ht), app_nil_r|].
  destruct (time_sub (lastSeen tr) (since tr) <? budget); simpl; [by rewrite (insert_id _ _ _ Ht), app_nil_r|].
  destruct (is_zero_time (cutAt tr)); simpl.
  - destruct (otherSlotAdvancing T id now); simpl; [by rewrite (insert_id _ _ _ Ht), app_nil_r|done].
  - destruct ((0 <? restartAfter) && negb (restarted tr) && _); [done|by rewrite (insert_id _ _ _ Ht), app_nil_r].
Qed.

(** The judgement of a slot reads only the spans of the others. *)
Lemma advancing_since T T' id now : since <$> T = since <$> T' -> otherSlotAdvancing T id now = otherSlotAdvancing T' id now.
Proof.
  intros Heq. apply bool_decide_ext.
  assert (forall T1 T2 : track_map, since <$> T1 = since <$> T2 ->
            map_Exists (fun other tr => other <> id /\ time_sub now (since tr) < budget) T1 ->
            map_Exists (fun other tr => other <> id /\ time_sub now (since tr) < budget) T2) as H.
  { clear. intros T1 T2 Heq (other & tr & Ho & Hne & Hlt). apply (f_equal (lookup other)) in Heq.
    rewrite !lookup_fmap, Ho in Heq. destruct (T2 !! other) as [tr2|] eqn:E2; [|done]. simpl in Heq.
    injection Heq as Hs. exists other, tr2. split; [done|]. split; [done|]. by rewrite <-Hs. }
  split; by apply H.
Qed.

Lemma to_cut_since T T' now id tr : since <$> T = since <$> T' -> to_cut T now id tr = to_cut T' now id tr.
Proof. intros H. unfold to_cut. by rewrite (advancing_since T T'). Qed.

Lemma judged_since T now id tr : since (judged T now id tr) = since tr.
Proof. unfold judged. by repeat case_match. Qed.

Lemma insert_since T now id tr :
  T !! id = Some tr -> since <$> <[id := judged T now id tr]> T = since <$> T.
Proof.
  intros Ht. rewrite fmap_insert, judged_since. apply insert_id. by rewrite lookup_fmap, Ht.
Qed.

(** What the slots listed in [ids] do to the writers. *)
Definition cut_slot (T : track_map) (hs : list prefillHolder) (now : Z) (ws : gmap Z pingWriter) (id : Z) : gmap Z pingWriter :=
  match T !! id with
  | Some tr => if to_cut T now id tr then (cutHolders hs ws (since tr)).1 else ws
  | None => ws
  end.

Definition events (T : track_map) (now id : Z) : list event :=
  match T !! id with Some tr => event_of T now id tr | None => [] end.

Lemma judge_all T0 hs now ids T ws lg :
  NoDup ids -> since <$> T = since <$> T0 -> (forall id, id ∈ ids -> T !! id = T0 !! id) ->
  let v := foldl (judge hs now) (mkVerdicts T ws lg) ids in
  (forall id, v_tracks v !! id = if bool_decide (id ∈ ids) then judged T0 now id <$> T0 !! id else T !! id) /\
  v_writers v = foldl (cut_slot T0 hs now) ws ids /\ v_log v = lg ++ (ids ≫= events T0 now).
Proof.
  revert T ws lg. induction ids as [|id ids IH]; intros T ws lg Hnd Hs Hids.
  - simpl. rewrite app_nil_r. by split_and!.
  - apply NoDup_cons in Hnd as [Hid Hnd]. cbn [foldl]. rewrite judge_cases. cbn [v_tracks v_writers v_log].
    pose proof (Hids id ltac:(left)) as Hlook.
    assert (forall tr, to_cut T now id tr = to_cut T0 now id tr) as Hc by (intros tr; by apply to_cut_since).
    assert (cut_slot T0 hs now ws id = match T !! id with
              | Some tr => if to_cut T0 now id tr then (cutHolders hs ws (since tr)).1 else ws | None => ws end /\
            (id :: ids) ≫= events T0 now = match T !! id with Some tr => event_of T0 now id tr | None => [] end ++
              (ids ≫= events T0 now)) as [-> ->] by (rewrite bind_cons; unfold cut_slot, events at 1; by rewrite Hlook).
    destruct (T !! id) as [tr|] eqn:Ht.
    + assert (event_of T now id tr = event_of T0 now id tr /\ judged T now id tr = judged T0 now id tr) as [He Hj]
        by (unfold event_of, judged; by rewrite Hc).
      specialize (IH (<[id := judged T now id tr]> T) (if to_cut T now id tr then (cutHolders hs ws (since tr)).1 else ws)
                    (lg ++ event_of T now id tr) Hnd).
      destruct IH as (H1 & H2 & H3); [by rewrite insert_since|intros id' Hi; rewrite lookup_insert_ne by (intros ->; done);
        by apply Hids; right|].
      split_and!; [|by rewrite H2, Hc|by rewrite H3, He, <-app_assoc].
      intros id'. rewrite H1. destruct (decide (id' = id)) as [->|Hne].
      * rewrite (bool_decide_eq_false_2 (id ∈ ids)) by done. rewrite (bool_decide_eq_true_2 (id ∈ id :: ids)) by left.
        by rewrite lookup_insert_eq, <-Hlook, Hj.
      * rewrite lookup_insert_ne by done.
        by rewrite (skip_elem id' id) by congruence.
    + destruct (IH T ws lg Hnd Hs) as (H1 & H2 & H3); [by intros; apply Hids; right|]. split_and!; [|done|done].
      intros id'. rewrite H1. destruct (decide (id' = id)) as [->|Hne].
      * rewrite (bool_decide_eq_false_2 (id ∈ ids)) by done. rewrite (bool_decide_eq_true_2 (id ∈ id :: ids)) by left. by rewrite <-Hlook.
      * by rewrite (skip_elem id' id) by congruence.
Qed.

(** ** The requests that are cut *)

Lemma cut_twice w : (prefillStallCut (prefillStallCut w).1).1 = (prefillStallCut w).1.
Proof.
  destruct (prefillStallCut w) as [w' c] eqn:E. simpl. unfold prefillStallCut in *.
  destruct (stopped w || errored w || wroteContent w) eqn:Hb; simplify_eq; [by rewrite Hb|].
  assert (errored (fire (writeSSEErrorLocked (commit_sse w) "api_error") "prefill-stalled") = true) as ->.
  { unfold fire. by destruct (fired _). }
  by rewrite orb_true_r.
Qed.

Lemma cut_content w : preFirstToken (prefillStallCut w).1 = preFirstToken w.
Proof. unfold prefillStallCut, preFirstToken, fire, commit_sse. by repeat case_match. Qed.

Lemma cut_ones ks ws n k :
  (foldl cut_one (ws, n) ks).1 !! k = (fun w => if bool_decide (k ∈ ks) then (prefillStallCut w).1 else w) <$> ws !! k.
Proof.
  revert ws n. induction ks as [|k0 ks IH]; intros ws n; cbn [foldl].
  - rewrite bool_decide_eq_false_2 by apply not_elem_of_nil. cbn [fst]. by destruct (ws !! k).
  - unfold cut_one at 2. destruct (ws !! k0) as [w0|] eqn:E0.
    + destruct (prefillStallCut w0) as [w1 c] eqn:E1. rewrite IH. destruct (decide (k0 = k)) as [->|Hne].
      * rewrite lookup_insert_eq, E0. simpl. rewrite (bool_decide_eq_true_2 (k ∈ k :: ks)) by left.
        pose proof (cut_twice w0) as Ht. rewrite E1 in Ht |- *. simpl in *. f_equal. by case_bool_decide.
      * rewrite lookup_insert_ne by done.
        by rewrite (skip_elem k k0) by congruence.
    + rewrite IH. destruct (decide (k0 = k)) as [->|Hne]; [by rewrite E0|].
      by rewrite (skip_elem k k0) by congruence.
Qed.

(** A holder that the cut of a flat span can end: its request, granted before
    the span began, has produced no content. *)
Definition can_own (hs : list prefillHolder) (flatSince k : Z) (w : pingWriter) : Prop :=
  preFirstToken w = true /\ Exists (fun h => h_pw h = Some k /\ granted h <= flatSince) hs.

#[export] Instance can_own_dec hs s k w : Decision (can_own hs s k w).
Proof. unfold can_own. apply _. Defined.

Lemma cutHolders_lookup hs ws s k :
  (cutHolders hs ws s).1 !! k = (fun w => if bool_decide (can_own hs s k w) then (prefillStallCut w).1 else w) <$> ws !! k.
Proof.
  unfold cutHolders. rewrite cut_ones. destruct (ws !! k) as [w|] eqn:E; [|done]. simpl.
  erewrite bool_decide_ext; [done|]. rewrite list_elem_of_omap. unfold can_own. rewrite Exists_exists. split.
  - intros (h & Hh & Hc). unfold candidate in Hc. destruct (h_pw h) as [k'|] eqn:Ek; [|done].
    destruct (ws !! k') as [w'|] eqn:E'; [|done]. destruct (negb (s <? granted h) && preFirstToken w') eqn:Hb; [|done].
    simplify_eq. apply andb_prop in Hb as [Hb Hf]. split; [done|]. exists h. split_and!; [done|done|lia].
  - intros (Hf & h & Hh & Hk & Hg). exists h. split; [done|]. unfold candidate. rewrite Hk, E, Hf.
    by destruct (Z.ltb_spec s (granted h)); [lia|].
Qed.

Lemma can_own_cut hs s k w : can_own hs s k (prefillStallCut w).1 <-> can_own hs s k w.
Proof. unfold can_own. by rewrite cut_content. Qed.

(** The slot [id] ends the request behind [k]; some slot of [ids] does. *)
Definition ends (T : track_map) (hs : list prefillHolder) (now k : Z) (w : pingWriter) (id : Z) : Prop :=
  match T !! id with
  | Some tr => to_cut T now id tr = true /\ can_own hs (since tr) k w
  | None => False
  end.

#[export] Instance ends_dec T hs now k w id : Decision (ends T hs now k w id).
Proof. unfold ends. destruct (T !! id); apply _. Defined.

Definition ended_by (T : track_map) (hs : list prefillHolder) (now k : Z) (w : pingWriter) (ids : list Z) : Prop :=
  Exists (ends T hs now k w) ids.

#[export] Instance ended_by_dec T hs now k w ids : Decision (ended_by T hs now k w ids).
Proof. unfold ended_by. apply _. Defined.

Lemma cut_slot_lookup T hs now ws id k :
  cut_slot T hs now ws id !! k =
  (fun w => if bool_decide (ends T hs now k w id) then (prefillStallCut w).1 else w) <$> ws !! k.
Proof.
  unfold cut_slot. destruct (T !! id) as [tr|] eqn:Ht; [destruct (to_cut T now id tr) eqn:Hc; [rewrite cutHolders_lookup|]|];
    (destruct (ws !! k) as [w|]; [|done]); simpl; f_equal.
  - rewrite (bool_decide_ext (can_own hs (since tr) k w) (ends T hs now k w id)); [done|].
    unfold ends. rewrite Ht, Hc. tauto.
  - rewrite bool_decide_eq_false_2; [done|]. unfold ends. rewrite Ht, Hc. by intros [? _].
  - rewrite bool_decide_eq_false_2; [done|]. unfold ends. rewrite Ht. tauto.
Qed.

Lemma ended_by_cut T hs now k w ids : ended_by T hs now k (prefillStallCut w).1 ids <-> ended_by T hs now k w ids.
Proof.
  unfold ended_by. rewrite !Exists_exists. unfold ends.
  assert (forall id, (match T !! id with Some tr => to_cut T now id tr = true /\ can_own hs (since tr) k (prefillStallCut w).1
                      | None => False end) <->
                     (match T !! id with Some tr => to_cut T now id tr = true /\ can_own hs (since tr) k w
                      | None => False end)) as H
    by (intros id; destruct (T !! id); [by rewrite can_own_cut|done]).
  split; intros (id & Hi & He); exists id; (split; [done|]); by apply H.
Qed.

Lemma cut_slots T hs now ids ws k :
  foldl (cut_slot T hs now) ws ids !! k =
  (fun w => if bool_decide (ended_by T hs now k w ids) then (prefillStallCut w).1 else w) <$> ws !! k.
Proof.
  revert ws. induction ids as [|id ids IH]; intros ws; cbn [foldl]; [by destruct (ws !! k)|].
  rewrite IH, cut_slot_lookup. destruct (ws !! k) as [w|]; [|done]. simpl. f_equal.
  assert (ended_by T hs now k w (id :: ids) <-> ends T hs now k w id \/ ended_by T hs now k w ids) as Hcons
    by apply Exists_cons.
  rewrite (bool_decide_ext _ _ Hcons). destruct (bool_decide_reflect (ends T hs now k w id)) as [He|He].
  - rewrite (bool_decide_eq_true_2 (_ \/ _)) by auto. case_bool_decide; [apply cut_twice|done].
  - rewrite (bool_decide_ext (_ \/ _) (ended_by T hs now k w ids)) by tauto. done.
Qed.

Lemma observe_tracks T ws hs slots now ids id :
  NoDup (ID <$> slots) -> ids ≡ₚ (map_to_list (read_sample T slots now)).*1 ->
  v_tracks (observe T ws hs slots now ids) !! id =
  (fun r => judged (read_sample T slots now) now id (refresh now (T !! id) r)) <$> reading slots id.
Proof.
  intros Hnd Hids. assert (NoDup ids) as Hni by (rewrite Hids; apply NoDup_fst_map_to_list).
  destruct (judge_all (read_sample T slots now) hs now ids (read_sample T slots now) ws [] Hni eq_refl (fun _ _ => eq_refl))
    as (H1 & _ & _). unfold PrefillStall.observe. rewrite H1, read_sample_lookup by done.
  case_bool_decide as Hi; [by destruct (reading slots id)|]. destruct (reading slots id) as [r|] eqn:Er; [|done].
  exfalso. apply Hi. rewrite Hids. apply list_elem_of_fmap. eexists (id, _). split; [done|]. apply elem_of_map_to_list.
  rewrite read_sample_lookup, Er by done. done.
Qed.

Lemma observe_log T ws hs slots now ids :
  ids ≡ₚ (map_to_list (read_sample T slots now)).*1 ->
  v_log (observe T ws hs slots now ids) ≡ₚ
  (map_to_list (read_sample T slots now) ≫= fun kv => event_of (read_sample T slots now) now kv.1 kv.2).
Proof.
  intros Hids. assert (NoDup ids) as Hni by (rewrite Hids; apply NoDup_fst_map_to_list).
  destruct (judge_all (read_sample T slots now) hs now ids (read_sample T slots now) ws [] Hni eq_refl (fun _ _ => eq_refl))
    as (_ & _ & H3). unfold PrefillStall.observe. rewrite H3. simpl. rewrite Hids, list_fmap_bind.
  apply Permutation_refl', Forall_bind_ext.
  apply Forall_forall. intros [id tr] Hi%elem_of_map_to_list. simpl. unfold events. by rewrite Hi.
Qed.

(** One sample is judged alike in every order in which the slots and the
    holders are gone through.  Every slot keeps the track of its reading, marked
    when it was cut or restarted; a slot that is ripe (not at the start, the same
    count over the whole budget) and whose request was not cut, while no other
    slot started or moved within the budget, ends exactly the requests that were
    granted before its flat span and have produced no content, each once; the
    verdicts are one per slot. *)
Theorem observe_correct T ws hs slots now ids :
  NoDup (ID <$> slots) -> ids ≡ₚ (map_to_list (read_sample T slots now)).*1 ->
  let T1 := read_sample T slots now in
  let v := observe T ws hs slots now ids in
  (forall id, v_tracks v !! id =
     (fun r => judged T1 now id (refresh now (T !! id) r)) <$> reading slots id) /\
  (forall k, v_writers v !! k =
     (fun w => if bool_decide (ended_by T1 hs now k w ids) then (prefillStallCut w).1 else w) <$> ws !! k) /\
  v_log v ≡ₚ (map_to_list T1 ≫= fun kv => event_of T1 now kv.1 kv.2).
Proof.
  intros Hnd Hids. split_and!.
  - intros id. by apply observe_tracks.
  - intros k. assert (NoDup ids) as Hni by (rewrite Hids; apply NoDup_fst_map_to_list).
    destruct (judge_all (read_sample T slots now) hs now ids (read_sample T slots now) ws [] Hni eq_refl (fun _ _ => eq_refl))
      as (_ & H2 & _). unfold PrefillStall.observe. rewrite H2. apply cut_slots.
  - by apply observe_log.
Qed.

End watch.

(** ** A frozen slot *)

Definition at_second (s : Z) : Z := 1000000 * nsec_second + s * nsec_second.
Definition ex_budget : Z := 60 * nsec_second.

(** Task 7 of slot 0, at 100 of 1000 tokens. *)
Definition ex_frozen : upstreamSlot := mkSlot 0 7 true 1000 100 0.

(** Seen first 100 seconds before; its request was granted before that, another
    one since. *)
Definition ex_tracks : track_map := {[ 0 := mkTrack 7 100 (at_second 100) (at_second 185) 0 false ]}.
Definition ex_writers : gmap Z pingWriter :=
  {[ 1 := newPingWriter true 0 0 (at_second 40); 2 := newPingWriter true 0 0 (at_second 150) ]}.
Definition ex_holders : list prefillHolder := [mkHolder (Some 1) (at_second 50); mkHolder (Some 2) (at_second 160)].

Lemma observe_correct_witness :
  let v := observe ex_budget 0 ex_tracks ex_writers ex_holders [ex_frozen] (at_second 200) [0] in
  fired <$> v_writers v !! 1 = Some (Some "prefill-stalled"%string) /\ fired <$> v_writers v !! 2 = Some None /\
  v_log v = [Cut 0 7 100 (at_second 100) (at_second 200)] /\
  v_writers v !! 1 = (fun w => (prefillStallCut w).1) <$> ex_writers !! 1.
Proof.
  intros v. split; [by vm_compute|]. split; [by vm_compute|]. split; [by vm_compute|].
  destruct (observe_correct ex_budget 0 ex_tracks ex_writers ex_holders [ex_frozen] (at_second 200) [0]
              ltac:(apply NoDup_singleton) ltac:(by vm_compute)) as (_ & H & _).
  unfold v. rewrite (H 1). by vm_compute.
Defined.

End PrefillSpec.
