(* ===== verification/PrefillLife.v ===== *)
(** The life of one poll loop of the prefill watch (PrefillStall.v): every track
    is the flat span that the loop's samples end with, every cut and restart is
    justified by the samples, and each happens once per span. *)

From S2P Require Import Prelude PingWriter PrefillStall PrefillSpec.

Module PrefillLife.
Import PrefillStall PrefillSpec.

(** One successful poll: the sample, with the writers and holders of the moment
    and the order in which the tracks are gone through. *)
Record poll := mkPollAt {
  p_now : Z;
  p_slots : list upstreamSlot;
  p_ws : gmap Z PingWriter.pingWriter;
  p_hs : list prefillHolder;
  p_ids : list Z;
}.

Section life.
Variables budget restartAfter : Z.

(** The tracks and the verdicts of a loop after its polls, the latest first. *)
Fixpoint life (h : list poll) : track_map * list event :=
  match h with
  | [] => (∅, [])
  | x :: older =>
    let '(tracks, log) := life older in
    let v := observe budget restartAfter tracks (p_ws x) (p_hs x) (p_slots x) (p_now x) (p_ids x) in
    (v_tracks v, log ++ v_log v)
  end.

(** The clock advances from poll to poll; a sample names a slot once; the tracks
    are gone through in some order. *)
Fixpoint lawful_life (h : list poll) : Prop :=
  match h with
  | [] => True
  | x :: older =>
    NoDup (ID <$> p_slots x) /\
    p_ids x ≡ₚ (map_to_list (read_sample (life older).1 (p_slots x) (p_now x))).*1 /\
    0 < p_now x /\ Forall (fun y => p_now y < p_now x) older /\ lawful_life older
  end.

(** The polls [h] end with a span that shows the task [t] at the count [q] in
    every sample, since the time [s], and not in the sample before. *)
Definition flat (h : list poll) (id t q s : Z) : Prop :=
  exists span before, h = span ++ before /\
    Forall (fun x => reading (p_slots x) id = Some (t, q)) span /\
    p_now <$> last span = Some s /\
    match before with x :: _ => reading (p_slots x) id <> Some (t, q) | [] => True end.

(** The tracks are the flat spans of the last sample. *)
Definition track_ok (h : list poll) (id : Z) (tr : slotTrack) : Prop :=
  flat h id (idTask tr) (processed tr) (since tr) /\ p_now <$> head h = Some (lastSeen tr).

(** What justifies a verdict, among the verdicts [log]. *)
Definition due (h : list poll) (id t q s now : Z) : Prop :=
  exists newer x older, h = newer ++ x :: older /\ p_now x = now /\ flat (x :: older) id t q s /\
    0 < q /\ budget <= time_sub now s.

Definition justified (h : list poll) (log : list event) (e : event) : Prop :=
  match e with
  | Cut id t q s now => due h id t q s now
  | RestartChild id t q s now =>
    due h id t q s now /\ exists c, Cut id t q s c ∈ log /\ 0 < restartAfter <= time_sub now c
  end.

(** A verdict up to its moment: which span, and whether it was the restart. *)
Definition key (e : event) : bool * Z * Z :=
  match e with Cut id _ _ s _ => (false, id, s) | RestartChild id _ _ s _ => (true, id, s) end.

Record life_ok (h : list poll) : Prop := {
  lo_tracks : forall id tr, (life h).1 !! id = Some tr -> track_ok h id tr;
  lo_readings : forall id, (life h).1 !! id = None <->
                  match h with x :: _ => reading (p_slots x) id = None | [] => True end;
  lo_justified : Forall (justified h (life h).2) (life h).2;
  lo_once : NoDup (key <$> (life h).2);
  lo_marks : forall id tr, (life h).1 !! id = Some tr ->
    (cutAt tr = 0 -> (false, id, since tr) ∉ key <$> (life h).2) /\
    (cutAt tr <> 0 -> Cut id (idTask tr) (processed tr) (since tr) (cutAt tr) ∈ (life h).2) /\
    (restarted tr = false -> (true, id, since tr) ∉ key <$> (life h).2);
}.

(** ** Spans *)

Lemma flat_fresh x h id t q :
  reading (p_slots x) id = Some (t, q) ->
  match h with y :: _ => reading (p_slots y) id <> Some (t, q) | [] => True end ->
  flat (x :: h) id t q (p_now x).
Proof. intros Hx Hh. exists [x], h. split; [done|]. split; [by constructor|]. by split. Qed.

Lemma flat_more x h id t q s :
  reading (p_slots x) id = Some (t, q) -> flat h id t q s -> flat (x :: h) id t q s.
Proof.
  intros Hx (span & before & -> & Hs & Hl & Hb). exists (x :: span), before.
  split; [done|]. split; [by constructor|]. split; [|done]. by destruct span.
Qed.

Lemma flat_head x h id t q s : flat (x :: h) id t q s -> reading (p_slots x) id = Some (t, q).
Proof.
  intros ([|y span] & before & Heq & Hs & Hl & _); [done|]. simplify_eq/=. by apply Forall_cons in Hs as [? _].
Qed.

Lemma flat_since h id t q s : flat h id t q s -> exists y, y ∈ h /\ p_now y = s.
Proof.
  intros (span & before & -> & _ & Hl & _). destruct (last span) as [y|] eqn:E; [|done]. simplify_eq/=.
  exists y. split; [|done]. apply elem_of_app. left. by apply last_Some_elem_of.
Qed.

Lemma due_more x h id t q s now : due h id t q s now -> due (x :: h) id t q s now.
Proof. intros (newer & y & older & -> & ?). by exists (x :: newer), y, older. Qed.

(** Every verdict was given, for a span that began, before the clock of now. *)
Lemma key_past h x e log :
  Forall (fun y => p_now y < p_now x) h -> Forall (justified h log) log -> e ∈ log -> (key e).2 < p_now x.
Proof.
  intros Ht Hj He. rewrite Forall_forall in Hj. rewrite Forall_forall in Ht. specialize (Hj e He).
  assert (forall id t q s now, due h id t q s now -> s < p_now x) as H.
  { intros id t q s now (newer & y & older & -> & _ & Hf & _). destruct (flat_since _ _ _ _ _ Hf) as (z & Hz & <-).
    apply Ht. apply elem_of_app. by right. }
  destruct e; simpl in *; [by eapply H|]. destruct Hj as [Hj _]. by eapply H.
Qed.

(** ** One poll *)

Definition ev_id (e : event) : Z := match e with Cut id _ _ _ _ | RestartChild id _ _ _ _ => id end.

Abbreviation event_of := (event_of budget restartAfter).
Abbreviation judged := (judged budget restartAfter).

Lemma event_of_one T now id tr e :
  e ∈ event_of T now id tr ->
  event_of T now id tr = [e] /\ ev_id e = id /\ ripe budget tr = true /\
  ((e = Cut id (idTask tr) (processed tr) (since tr) now /\ cutAt tr = 0 /\
    judged T now id tr = mark tr now (restarted tr)) \/
   (e = RestartChild id (idTask tr) (processed tr) (since tr) now /\ cutAt tr <> 0 /\ restarted tr = false /\
    0 < restartAfter <= time_sub now (cutAt tr) /\ judged T now id tr = mark tr (cutAt tr) true)).
Proof.
  unfold PrefillSpec.event_of, PrefillSpec.judged, to_cut, to_restart. destruct (ripe budget tr); simpl; [|by intros ?%elem_of_nil].
  unfold is_zero_time. destruct (Z.eqb_spec (cutAt tr) 0); simpl.
  - destruct (negb _); [|by intros ?%elem_of_nil]. intros ->%list_elem_of_singleton. by split_and!; [..|left].
  - destruct ((0 <? restartAfter) && negb (restarted tr) && (restartAfter <=? time_sub now (cutAt tr))) eqn:E;
      [|by intros ?%elem_of_nil]. intros ->%list_elem_of_singleton. apply andb_prop in E as [[E1 E2]%andb_prop E3].
    apply negb_true_iff in E2. split_and!; [done|done|done|]. right. split_and!; [done|done|done|lia|lia|done].
Qed.

Lemma event_of_none T now id tr : event_of T now id tr = [] -> judged T now id tr = tr.
Proof. unfold PrefillSpec.event_of, PrefillSpec.judged. by repeat case_match. Qed.

Lemma judged_core T now id tr :
  idTask (judged T now id tr) = idTask tr /\ processed (judged T now id tr) = processed tr /\
  since (judged T now id tr) = since tr /\ lastSeen (judged T now id tr) = lastSeen tr.
Proof. unfold PrefillSpec.judged. by repeat case_match. Qed.

(** The verdicts of one poll: at most one per slot. *)
Lemma poll_events T ws hs slots now ids e :
  ids ≡ₚ (map_to_list (read_sample T slots now)).*1 ->
  e ∈ v_log (observe budget restartAfter T ws hs slots now ids) <->
  exists tr, read_sample T slots now !! ev_id e = Some tr /\ e ∈ event_of (read_sample T slots now) now (ev_id e) tr.
Proof.
  intros Hids. rewrite (observe_log _ _ T ws hs slots now ids Hids), list_elem_of_bind. split.
  - intros ([id tr] & He & Hi%elem_of_map_to_list). simpl in He.
    destruct (event_of_one _ _ _ _ _ He) as (_ & <- & _). by exists tr.
  - intros (tr & Hi & He). exists (ev_id e, tr). split; [done|]. by apply elem_of_map_to_list.
Qed.

Lemma key_id e e' : key e = key e' -> ev_id e = ev_id e'.
Proof. destruct e, e'; simpl; congruence. Qed.

Lemma poll_events_once T ws hs slots now ids :
  ids ≡ₚ (map_to_list (read_sample T slots now)).*1 ->
  NoDup (key <$> v_log (observe budget restartAfter T ws hs slots now ids)).
Proof.
  intros Hids. rewrite (observe_log _ _ T ws hs slots now ids Hids).
  pose proof (NoDup_fst_map_to_list (read_sample T slots now)) as Hnd. revert Hnd.
  generalize (read_sample T slots now) at 1 3 as T1. intros T1. generalize (map_to_list T1) as l.
  intros l. clear Hids.
  induction l as [|[id tr] l IH]; intros Hnd; [constructor|]. apply NoDup_cons in Hnd as [Hid Hnd].
  rewrite bind_cons, fmap_app. simpl. apply NoDup_app. split_and!; [| |by apply IH].
  - destruct (event_of (read_sample T slots now) now id tr) as [|e l'] eqn:E; [constructor|].
    destruct (event_of_one (read_sample T slots now) now id tr e) as (E' & _); [rewrite E; left|].
    rewrite E in E'. injection E' as ->. apply NoDup_singleton.
  - intros k (e & -> & He)%list_elem_of_fmap (e' & Hk & He')%list_elem_of_fmap.
    apply event_of_one in He as (_ & He & _). apply list_elem_of_bind in He' as ([id' tr'] & He' & Hl). simpl in He'.
    apply event_of_one in He' as (_ & He' & _). apply key_id in Hk. apply Hid. apply list_elem_of_fmap.
    exists (id', tr'). split; [simpl; congruence|done].
Qed.

(** ** The invariant of a life *)

(** What the marks of a track say of the verdicts so far. *)
Definition marks_ok (log : list event) (id : Z) (tr : slotTrack) : Prop :=
  (cutAt tr = 0 -> (false, id, since tr) ∉ key <$> log) /\
  (cutAt tr <> 0 -> Cut id (idTask tr) (processed tr) (since tr) (cutAt tr) ∈ log) /\
  (restarted tr = false -> (true, id, since tr) ∉ key <$> log).

(** The tracks that a sample leaves, before they are judged. *)
Lemma sampled x h id tr :
  life_ok h -> lawful_life (x :: h) -> read_sample (life h).1 (p_slots x) (p_now x) !! id = Some tr ->
  track_ok (x :: h) id tr /\ marks_ok (life h).2 id tr.
Proof.
  intros [Ht Hr Hj Ho Hm] (Hnd & _ & _ & Hlt & _) Hl. rewrite read_sample_lookup in Hl by done.
  destruct (reading (p_slots x) id) as [[t q]|] eqn:Er; [|done]. simpl in Hl. injection Hl as <-.
  assert (match h with y :: _ => reading (p_slots y) id <> Some (t, q) | [] => True end ->
          track_ok (x :: h) id (mkTrack t q (p_now x) (p_now x) 0 false) /\
          marks_ok (life h).2 id (mkTrack t q (p_now x) (p_now x) 0 false)) as Hfresh.
  { intros Hh. split; [split; [by apply flat_fresh|done]|].
    assert (forall b, (b, id, p_now x) ∉ key <$> (life h).2) as Hk.
    { intros b (e & He & Hi)%list_elem_of_fmap. pose proof (key_past h x e _ Hlt Hj Hi) as Hp. rewrite <-He in Hp. simpl in Hp. lia. }
    by split_and!. }
  unfold refresh. simpl. destruct ((life h).1 !! id) as [tr0|] eqn:E0.
  - destruct (Ht id tr0 E0) as [Hf Hs]. destruct (Z.eqb_spec (idTask tr0) t) as [Et|Et]; simpl; [|].
    + destruct (Z.eqb_spec (processed tr0) q) as [Eq|Eq].
      * subst t q. split; [split; [by apply flat_more|done]|]. exact (Hm id tr0 E0).
      * apply Hfresh. destruct h; [done|]. rewrite (flat_head _ _ _ _ _ _ Hf). congruence.
    + apply Hfresh. destruct h; [done|]. rewrite (flat_head _ _ _ _ _ _ Hf). congruence.
  - apply Hfresh. apply Hr in E0. destruct h; [done|]. by rewrite E0.
Qed.

(** A new verdict is justified and was not given before. *)
Lemma poll_verdict x h log id tr e :
  track_ok (x :: h) id tr -> marks_ok (life h).2 id tr ->
  e ∈ event_of (read_sample (life h).1 (p_slots x) (p_now x)) (p_now x) id tr ->
  justified (x :: h) ((life h).2 ++ log) e /\ key e ∉ key <$> (life h).2.
Proof.
  intros [Hf Hs] (Hm1 & Hm2 & Hm3) He. destruct (event_of_one _ _ _ _ _ He) as (_ & _ & Hr & Hcase).
  assert (due (x :: h) id (idTask tr) (processed tr) (since tr) (p_now x)) as Hd.
  { unfold ripe in Hr. apply andb_prop in Hr as [H1 H2]. injection Hs as Hs. rewrite <-Hs in H2.
    exists [], x, h. split_and!; [done|done|done|lia|lia]. }
  destruct Hcase as [(-> & Hc & _)|(-> & Hc & Hre & Hdue & _)]; simpl.
  - split; [done|]. by apply Hm1.
  - split; [|by apply Hm3]. split; [done|]. exists (cutAt tr). split; [|done]. apply elem_of_app. left. by apply Hm2.
Qed.

Lemma justified_more x h log more e : justified h log e -> justified (x :: h) (log ++ more) e.
Proof.
  destruct e as [id t q s now|id t q s now]; simpl; [apply due_more|]. intros (Hd & c & Hc & Hb).
  split; [by apply due_more|]. exists c. split; [|done]. apply elem_of_app. by left.
Qed.

(** The marks after the verdict of the slot, if there was one. *)
Lemma judged_marks x h v id tr :
  0 < p_now x -> marks_ok (life h).2 id tr ->
  (forall e, e ∈ v -> ev_id e = id -> e ∈ event_of (read_sample (life h).1 (p_slots x) (p_now x)) (p_now x) id tr) ->
  (forall e, e ∈ event_of (read_sample (life h).1 (p_slots x) (p_now x)) (p_now x) id tr -> e ∈ v) ->
  marks_ok ((life h).2 ++ v) id (judged (read_sample (life h).1 (p_slots x) (p_now x)) (p_now x) id tr).
Proof.
  intros Hnow (Hm1 & Hm2 & Hm3) Hv Hv'. set (T1 := read_sample _ _ _) in *.
  assert (forall b s, (b, id, s) ∉ key <$> (life h).2 ->
            (forall e, e ∈ event_of T1 (p_now x) id tr -> key e <> (b, id, s)) -> (b, id, s) ∉ key <$> ((life h).2 ++ v)) as Hout.
  { intros b s Hn He. rewrite fmap_app, elem_of_app. intros [?|(e & Hk & Hi)%list_elem_of_fmap]; [done|].
    apply (He e); [|done]. apply Hv; [done|]. by destruct e; simplify_eq/=. }
  destruct (event_of T1 (p_now x) id tr) as [|e l] eqn:E.
  - rewrite (event_of_none _ _ _ _ E). split_and!.
    + intros Hc. apply Hout; [by apply Hm1|]. by intros e ?%elem_of_nil.
    + intros Hc. apply elem_of_app. left. by apply Hm2.
    + intros Hc. apply Hout; [by apply Hm3|]. by intros e ?%elem_of_nil.
  - destruct (event_of_one T1 (p_now x) id tr e) as (E' & _ & _ & Hcase); [rewrite E; left|].
    rewrite E in E'. injection E' as ->.
    destruct Hcase as [(-> & Hc & ->)|(-> & Hc & Hre & Hdue & ->)]; split_and!; simpl.
    + lia.
    + intros _. apply elem_of_app. right. apply Hv'. left.
    + intros Hre. apply Hout; [by apply Hm3|]. by intros e ->%list_elem_of_singleton.
    + done.
    + intros _. apply elem_of_app. left. by apply Hm2.
    + done.
Qed.

Lemma life_ok_poll x h : life_ok h -> lawful_life (x :: h) -> life_ok (x :: h).
Proof.
  intros Hok Hlaw. pose proof (fun id tr => sampled x h id tr Hok Hlaw) as Hs. destruct Hok as [Ht Hr Hj Ho Hm].
  destruct Hlaw as (Hnd & Hids & Hpos & Hlt & _).
  assert (forall id, (life (x :: h)).1 !! id =
    judged (read_sample (life h).1 (p_slots x) (p_now x)) (p_now x) id <$>
      read_sample (life h).1 (p_slots x) (p_now x) !! id) as Hlook.
  { intros id. simpl. destruct (life h) as [T log]. simpl in *. rewrite observe_tracks, read_sample_lookup by done.
    by destruct (reading (p_slots x) id). }
  set (v := v_log (observe budget restartAfter (life h).1 (p_ws x) (p_hs x) (p_slots x) (p_now x) (p_ids x))).
  assert ((life (x :: h)).2 = (life h).2 ++ v) as Hlog by (subst v; simpl; by destruct (life h)).
  pose proof (fun e => poll_events (life h).1 (p_ws x) (p_hs x) (p_slots x) (p_now x) (p_ids x) e Hids) as Hev.
  fold v in Hev. constructor; rewrite ?Hlog.
  - intros id tr. rewrite Hlook. destruct (read_sample _ _ _ !! id) as [tr1|] eqn:E1; [|done]. intros [= <-].
    destruct (Hs id tr1 E1) as [[Hf Hl] _]. destruct (judged_core (read_sample (life h).1 (p_slots x) (p_now x)) (p_now x) id tr1) as (J1 & J2 & J3 & J4).
    unfold track_ok. by rewrite J1, J2, J3, J4.
  - intros id. rewrite Hlook, read_sample_lookup by done. by destruct (reading (p_slots x) id).
  - apply Forall_app. split.
    + eapply Forall_impl; [exact Hj|]. intros e. apply justified_more.
    + apply Forall_forall. intros e (tr & Hi & He)%Hev. destruct (Hs _ _ Hi) as [H1 H2]. by eapply poll_verdict.
  - rewrite fmap_app. apply NoDup_app. split_and!; [done| |by apply poll_events_once].
    intros k Hk (e & -> & (tr & Hi & He)%Hev)%list_elem_of_fmap. destruct (Hs _ _ Hi) as [H1 H2].
    by destruct (poll_verdict x h [] _ tr e H1 H2 He) as [_ []].
  - intros id tr. rewrite Hlook. destruct (read_sample _ _ _ !! id) as [tr1|] eqn:E1; [|done]. intros [= <-].
    destruct (Hs id tr1 E1) as [_ H2]. apply judged_marks; [done|done| |].
    + intros e (tr & Hi & He)%Hev <-. rewrite E1 in Hi. by simplify_eq.
    + intros e He. apply Hev. destruct (event_of_one _ _ _ _ _ He) as (_ & <- & _). by exists tr1.
Qed.

Lemma life_sound h : lawful_life h -> life_ok h.
Proof.
  induction h as [|x h IH]; intros Hl; [|by apply life_ok_poll; [apply IH, Hl|]].
  constructor; simpl; try done; try (by intros id tr; rewrite lookup_empty); constructor.
Qed.

(** C15. In every life of a poll loop, whatever the child's slots report and
    whichever order the maps are gone through: the tracks are exactly the slots
    that the last sample shows in prefill, each with the flat span the samples
    end with; a request is cut only for a slot whose unfinished task showed the
    same count, above zero, in every sample over a span of the whole budget; the
    child is restarted only for a span that is still flat [restartAfter] after
    its cut; and each happens at most once per span. *)
Theorem prefill_verdicts_sound h :
  lawful_life h ->
  (forall id tr, (life h).1 !! id = Some tr -> track_ok h id tr) /\
  (forall id, is_Some ((life h).1 !! id) <-> match h with x :: _ => is_Some (reading (p_slots x) id) | [] => False end) /\
  Forall (justified h (life h).2) (life h).2 /\ NoDup (key <$> (life h).2).
Proof.
  intros Hl. destruct (life_sound h Hl) as [H1 H2 H3 H4 _]. split_and!; try done. intros id.
  rewrite <-not_eq_None_Some, H2. destruct h; [tauto|]. apply not_eq_None_Some.
Qed.

End life.

(** ** The loops of a watch *)

Section watch.
Variables budget restartAfter : Z.

Record polled (w : prefillWatch) : Prop := {
  po_running : running w = true <-> holders w <> ∅;
  po_known : forall i l, loops w !! i = Some l -> i < started w;
  po_live : forall i l, loops w !! i = Some l -> (stopping l = false <-> running w = true /\ i = current w);
  po_current : running w = true -> is_Some (loops w !! current w);
}.

(** Steps that touch neither the holders nor the loops. *)
Lemma polled_same w w' :
  running w' = running w -> holders w' = holders w -> loops w' = loops w -> started w' = started w ->
  current w' = current w -> polled w -> polled w'.
Proof. intros H1 H2 H3 H4 H5 [P1 P2 P3 P4]. constructor; rewrite ?H1, ?H2, ?H3, ?H4, ?H5; done. Qed.

Lemma polled_add w h pw granted : polled w -> polled (add w h pw granted).
Proof.
  intros [P1 P2 P3 P4]. unfold add. pose proof (insert_non_empty (holders w) h (mkHolder pw granted)) as Hne.
  destruct (running w) eqn:Er.
  - constructor; simpl; [done|done|done|done].
  - constructor; simpl; [done| | |rewrite lookup_insert_eq; eauto].
    + intros i l [[<- _]|[Hi Hl]]%lookup_insert_Some; [lia|]. specialize (P2 i l Hl). lia.
    + intros i l [[<- <-]|[Hi Hl]]%lookup_insert_Some; [done|]. specialize (P2 i l Hl). rewrite (P3 i l Hl).
      split; [by intros []|]. intros [_ ->]. lia.
Qed.

Lemma polled_remove w h : polled w -> polled (remove w h).
Proof.
  intros [P1 P2 P3 P4]. unfold remove. case_bool_decide as He; simpl.
  - destruct (running w) eqn:Er; [|].
    + constructor; simpl; [by split| | |done].
      * intros i l Hl. destruct (decide (current w = i)) as [Hi|Hi].
        -- subst i. rewrite lookup_alter_eq in Hl. destruct (P4 eq_refl) as [l0 Hl0]. by eapply P2.
        -- rewrite lookup_alter_ne in Hl by done. by eapply P2.
      * intros i l Hl. split; [|by intros []]. intros Hst. exfalso. destruct (decide (current w = i)) as [Hi|Hi].
        -- subst i. rewrite lookup_alter_eq in Hl. destruct (loops w !! current w); [|done]. by simplify_eq/=.
        -- rewrite lookup_alter_ne in Hl by done. apply (P3 i l Hl) in Hst as [_ ->]. done.
    + constructor; simpl; [|done|done|done].
      split; [done|]. by rewrite He.
  - constructor; simpl; [|done|done|done]. rewrite P1. split; [done|]. intros _ Hw. apply He. by rewrite Hw, delete_empty.
Qed.

Lemma polled_step w a w' : polled w -> act budget restartAfter w a = Some w' -> polled w'.
Proof.
  intros Hp Ha. destruct a as [h pw granted|h|i slots now order ids|i|k pw|k a]; simpl in Ha.
  - case_bool_decide; [done|]. simplify_eq. by apply polled_add.
  - case_bool_decide; [|done]. simplify_eq. by apply polled_remove.
  - destruct (loops w !! i) as [l|] eqn:El; [|done]. destruct (_ && _); [|done]. simplify_eq.
    destruct Hp as [P1 P2 P3 P4]. unfold sample. constructor; simpl; [done| | |].
    + intros j l' [[<- _]|[_ Hl]]%lookup_insert_Some; by eapply P2.
    + intros j l' [[<- <-]|[_ Hl]]%lookup_insert_Some; [apply (P3 i l El)|by apply P3].
    + intros Hr. destruct (decide (i = current w)) as [->|Hn]; [rewrite lookup_insert_eq; eauto|].
      rewrite lookup_insert_ne by done. auto.
  - destruct (loops w !! i) as [l|] eqn:El; [|done]. destruct (stopping l) eqn:Es; [|done]. simplify_eq.
    destruct Hp as [P1 P2 P3 P4]. constructor; simpl; [done| | |].
    + intros j l' [_ Hl]%lookup_delete_Some. by eapply P2.
    + intros j l' [_ Hl]%lookup_delete_Some. by apply P3.
    + intros Hr. rewrite lookup_delete_ne; [auto|]. intros ->. pose proof (proj2 (P3 _ l El) (conj Hr eq_refl)). congruence.
  - destruct (writers w !! k); [done|]. simplify_eq. by apply (polled_same w).
  - destruct (writers w !! k) as [pw|]; [|done]. destruct (PingWriter.act pw a) as [pw'|]; [|done]. simplify_eq. by apply (polled_same w).
Qed.

(** The child of a model is polled exactly while a request holds one of its
    slots: in every run of the watch, with requests coming and going while the
    poll loops that were stopped still finish, one loop that was not stopped
    exists if a holder exists, never two, and none if there is no holder. *)
Theorem polled_while_held acts w :
  run budget restartAfter newPrefillWatch acts = Some w ->
  (holders w = ∅ -> forall i l, loops w !! i = Some l -> stopping l = true) /\
  (holders w <> ∅ -> exists i, is_Some (loops w !! i) /\
     forall j l, loops w !! j = Some l -> (stopping l = false <-> j = i)).
Proof.
  intros Hr. assert (polled w) as [P1 P2 P3 P4].
  { assert (polled newPrefillWatch) as H0 by (constructor; simpl; try done; by split).
    revert H0 Hr. generalize newPrefillWatch. induction acts as [|a acts IH]; intros w0 H0 Hr; simpl in Hr; [by simplify_eq|].
    destruct (act _ _ w0 a) as [w1|] eqn:E; [|done]. eapply IH; [by eapply polled_step|done]. }
  split.
  - intros He i l Hl. destruct (stopping l) eqn:E; [done|]. apply (P3 i l Hl) in E as [E _]. by apply P1 in E.
  - intros He. apply P1 in He. exists (current w). split; [by apply P4|]. intros j l Hl. rewrite (P3 j l Hl), He. tauto.
Qed.

End watch.

(** ** Concrete lives *)

Definition ex_poll (s : Z) (slots : list upstreamSlot) (ids : list Z) : poll :=
  mkPollAt (at_second s) slots ex_writers ex_holders ids.

(** A frozen slot is cut after the budget, and the child restarted behind it. *)
Definition ex_life : list poll :=
  [ex_poll 300 [ex_frozen] [0]; ex_poll 200 [ex_frozen] [0]; ex_poll 100 [ex_frozen] [0]].

Lemma prefill_verdicts_sound_witness :
  (life ex_budget ex_budget ex_life).2 =
    [Cut 0 7 100 (at_second 100) (at_second 200); RestartChild 0 7 100 (at_second 100) (at_second 300)] /\
  Forall (justified ex_budget ex_budget ex_life (life ex_budget ex_budget ex_life).2) (life ex_budget ex_budget ex_life).2.
Proof.
  assert (lawful_life ex_budget ex_budget ex_life) as Hl.
  { cbn [lawful_life ex_life]. repeat match goal with
      | |- _ /\ _ => split | |- True => exact I | |- NoDup _ => apply NoDup_singleton
      | |- Forall _ (_ :: _) => apply Forall_cons | |- Forall _ [] => apply Forall_nil_2
      | |- _ < _ => vm_compute; reflexivity | |- _ => apply Permutation_refl'; vm_compute; reflexivity
      end. }
  split; [by vm_compute|]. exact (proj1 (proj2 (proj2 (prefill_verdicts_sound ex_budget ex_budget ex_life Hl)))).
Defined.

Definition ex_watch : list action :=
  [NewWriter 1 (PingWriter.newPingWriter true 0 0 (at_second 40)); Add 5 (Some 1) (at_second 50);
   Sample 0 [ex_frozen] (at_second 100) [(5, mkHolder (Some 1) (at_second 50))] [0]; Remove 5; Add 6 None (at_second 120)].

Lemma polled_while_held_witness :
  exists w, run ex_budget 0 newPrefillWatch ex_watch = Some w /\ loops w !! 0 = Some (mkPoll true {[ 0 := mkTrack 7 100 (at_second 100) (at_second 100) 0 false ]}) /\
    exists i, is_Some (loops w !! i) /\ forall j l, loops w !! j = Some l -> (stopping l = false <-> j = i).
Proof.
  assert (exists w, run ex_budget 0 newPrefillWatch ex_watch = Some w /\ bool_decide (holders w = ∅) = false /\
    loops w !! 0 = Some (mkPoll true {[ 0 := mkTrack 7 100 (at_second 100) (at_second 100) 0 false ]})) as (w & Hr & Hh & Hl)
    by (vm_compute; eexists; repeat split).
  exists w. split; [exact Hr|]. split; [exact Hl|]. apply bool_decide_eq_false in Hh.
  exact (proj2 (polled_while_held ex_budget 0 ex_watch w Hr) Hh).
Defined.

(** The span of a task that has not started does not count: when it starts to
    move after 400 seconds, its budget starts. *)
Lemma unstarted_span_is_dropped :
  (since <$> (life ex_budget 0
    [ex_poll 500 [mkSlot 0 7 true 1000 5 0] [0]; ex_poll 400 [mkSlot 0 7 true 1000 0 0] [0];
     ex_poll 100 [mkSlot 0 7 true 1000 0 0] [0]]).1 !! 0) = Some (at_second 500).
Proof. by vm_compute. Qed.

(** Nothing is cut while another slot was taken up within the budget, although
    its task never moved: a frozen slot outlasts five budgets. *)
Lemma unstarted_slot_delays_cut :
  let waiting task := mkSlot 1 task true 500 0 0 in
  (life ex_budget 0
    [ex_poll 400 [ex_frozen; waiting 13] [0; 1]; ex_poll 340 [ex_frozen; waiting 12] [0; 1];
     ex_poll 220 [ex_frozen; waiting 11] [0; 1]; ex_poll 100 [ex_frozen; waiting 10] [0; 1]]).2 = [].
Proof. by vm_compute. Qed.

End PrefillLife.
