(* ===== verification/Inflight.v ===== *)
(** The table of requests in flight ([internal/server/inflight.go]): what each
    handler records, the updates it hands to the bounded outbox, and the publisher
    goroutine that drains it, with the snapshots it falls back on after an
    overflow.  The loop tracker of LoopTrack.v is fed from here.

    The operations on the table are functions; the outbox, its flags and the
    publisher are a machine whose steps interleave, because an operation holds the
    lock of the table while the publisher runs. *)

From S2P Require Import Prelude Runes Float64 Tier LoopTrack AdmissionScan PingWriter.
From stdpp Require Import pretty.

Module Inflight.
Import Float64 LoopTrack AdmissionScan.
Open Scope string_scope.
Open Scope list_scope.
Open Scope Z_scope.

Definition inflightUpdateInterval : Z := 250000000.
Definition inflightOutboxSize : nat := 128.
Definition respCarryMax : Z := 65536.

(** [InflightRequestEntry]; a nil map of metadata is [None].  [ElapsedMs] is set
    from the clock at every copy and is left out. *)
Record InflightRequestEntry := mkEntry {
  ID : string;
  Timestamp : Z;
  Model : string;
  ReqPath : string;
  Method : string;
  ReqHeaders : gmap string string;
  RemoteIP : string;
  RespHeaders : gmap string string;
  RespBytes : Z;
  RespTokens : Z;
  Metadata : option (gmap string string);
}.

Record inflightRequest := mkRequest {
  entry : InflightRequestEntry;
  lastEmitted : Z;
  timer : option Z;              (* when the armed timer fires *)
  tier : string;
  respCarry : list Z;
  firstOutputAt : Z;
}.

Abbreviation requests_map := (gmap string inflightRequest).

Definition meta (e : InflightRequestEntry) : gmap string string := default ∅ (Metadata e).

Definition set_metadata (e : InflightRequestEntry) (m : option (gmap string string)) : InflightRequestEntry :=
  mkEntry (ID e) (Timestamp e) (Model e) (ReqPath e) (Method e) (ReqHeaders e) (RemoteIP e) (RespHeaders e)
    (RespBytes e) (RespTokens e) m.

Definition set_resp (e : InflightRequestEntry) (headers : gmap string string) (bytes tokens : Z) : InflightRequestEntry :=
  mkEntry (ID e) (Timestamp e) (Model e) (ReqPath e) (Method e) (ReqHeaders e) (RemoteIP e) headers
    bytes tokens (Metadata e).

Definition copyMetadata (m : option (gmap string string)) : option (gmap string string) :=
  match m with Some m => if bool_decide (m = ∅) then None else Some m | None => None end.

Definition copyInflightEntry (e : InflightRequestEntry) : InflightRequestEntry := set_metadata e (copyMetadata (Metadata e)).

(** ** Counting model output *)

Definition is_delta_line (line : list Z) : bool :=
  match strip_prefix (bytes_of_string "event:") (PingWriter.trim_one_cr line) with
  | Some rest => bool_decide (trim_space (decode_runes rest) = bytes_of_string "content_block_delta")
  | None => false
  end.

(** The loop of [scanRealOutputDeltas]: the lines of [buf] that end, with the
    line that is being read in [line]. *)
Fixpoint scan_lines (buf line : list Z) (deltas : Z) : Z * list Z :=
  match buf with
  | [] => (deltas, line)
  | b :: buf =>
    if b =? LF then scan_lines buf [] (if is_delta_line line then deltas + 1 else deltas)
    else scan_lines buf (line ++ [b]) deltas
  end.

Definition scanRealOutputDeltas (carry data : list Z) : Z * list Z :=
  let '(deltas, remaining) := scan_lines (carry ++ data) [] 0 in
  (deltas, if respCarryMax <? Z.of_nat (length remaining) then drop (length remaining - Z.to_nat respCarryMax) remaining else remaining).

(** ** Events *)

Inductive operation : Type :=
| Upsert (e : InflightRequestEntry)
| RemoveOp (id : string)
| Snapshot (es : list InflightRequestEntry).

Record event := mkEvent { Total : Z; ByTier : option (gmap string Z); op : operation }.

Definition upsertInflightEvent (e : InflightRequestEntry) : operation := Upsert (copyInflightEntry e).

Definition count_tier (counts : gmap string Z) (req : inflightRequest) : gmap string Z :=
  let t := if String.eqb (tier req) "" then Tier.Name Tier.DefaultTier else tier req in
  <[t := get0 counts t + 1]> counts.

Definition tierSnapshotLocked (tierNames : list string) (reqs : requests_map) : gmap string Z :=
  let counts := foldl (fun c n => <[n := 0]> c) {[ Tier.Name Tier.DefaultTier := 0 ]} tierNames in
  foldl count_tier counts (map_to_list reqs).*2.

Definition byTierOrNil (snapshot : gmap string Z) : option (gmap string Z) :=
  if (size snapshot <=? 1)%nat then None else Some snapshot.

Definition withCountsLocked (tierNames : list string) (reqs : requests_map) (o : operation) : event :=
  mkEvent (Z.of_nat (size reqs)) (byTierOrNil (tierSnapshotLocked tierNames reqs)) o.

(** The order of a snapshot: by arrival, then by id. *)
Definition entry_le (e f : InflightRequestEntry) : Prop :=
  Timestamp e < Timestamp f \/ Timestamp e = Timestamp f /\ String.le (ID e) (ID f).

#[export] Instance entry_le_dec : RelDecision entry_le.
Proof. unfold RelDecision, entry_le. intros e f. apply _. Defined.

Definition snapshotLocked (reqs : requests_map) : list InflightRequestEntry :=
  merge_sort entry_le ((fun req => copyInflightEntry (entry req)) <$> (map_to_list reqs).*2).

Definition Current (tierNames : list string) (reqs : requests_map) : event :=
  withCountsLocked tierNames reqs (Snapshot (snapshotLocked reqs)).

(** ** The table *)

Record table := mkTable { nextID : Z; requests : requests_map; loops : option LoopTracker }.

Definition put (t : table) (id : string) (req : inflightRequest) : table :=
  mkTable (nextID t) (<[id := req]> (requests t)) (loops t).

(** What [Add] reads of a request: its headers are already redacted; [ctx] is
    the model and the metadata of its context, if it has one. *)
Record arrival := mkArrival {
  a_start : Z; a_path : string; a_method : string; a_headers : gmap string string; a_ip : string;
  a_ctx : option (string * option (gmap string string)); a_tier : string;
}.

Definition add_entry (id : string) (r : arrival) : InflightRequestEntry :=
  let m := match a_ctx r with Some (_, m) => copyMetadata m | None => None end in
  let m := if String.eqb (a_tier r) "" then m else Some (<["tier" := a_tier r]> (default ∅ m)) in
  let slot := match a_ctx r with Some (_, Some m) => default "" (m !! "slot_affinity") | _ => "" end in
  let m := if String.eqb slot "" then m else Some (<["slot_id" := slot]> (default ∅ m)) in
  mkEntry id (a_start r) (match a_ctx r with Some (model, _) => model | None => "" end) (a_path r) (a_method r)
    (a_headers r) (a_ip r) ∅ 0 0 m.

(** Each operation gives the table and the update to enqueue, if there is one. *)
Definition Add (t : table) (r : arrival) (now : Z) : table * option operation :=
  let id := pretty (nextID t + 1) in
  let req := mkRequest (add_entry id r) now None (a_tier r) [] 0 in
  (mkTable (nextID t + 1) (<[id := req]> (requests t)) (loops t), Some (upsertInflightEvent (entry req))).

Definition has_suffix (suffix s : string) : bool :=
  let k := (String.length s - String.length suffix)%nat in
  (String.length suffix <=? String.length s)%nat && String.eqb (String.substring k (String.length suffix) s) suffix.

Definition recordLoopLocked (t : table) (req : inflightRequest) (now : Z) : option LoopTracker :=
  match loops t with
  | None => None
  | Some _ =>
    if negb (String.eqb (Method (entry req)) "POST") then loops t
    else if negb (has_suffix "/v1/messages" (ReqPath (entry req))) || (RespTokens (entry req) <=? 0) then loops t
    else (Record_ (loops t) now (default "" (meta (entry req) !! "session_id")) (RespTokens (entry req))).1
  end.

Definition Remove (t : table) (id : string) (now : Z) : table * option operation :=
  match requests t !! id with
  | None => (t, None)
  | Some req => (mkTable (nextID t) (delete id (requests t)) (recordLoopLocked t req now), Some (RemoveOp id))
  end.

(** A request whose entry changed and is emitted now. *)
Definition emit_now (t : table) (id : string) (req : inflightRequest) (e : InflightRequestEntry) (now : Z) : table * option operation :=
  (put t id (mkRequest e now (timer req) (tier req) (respCarry req) (firstOutputAt req)), Some (upsertInflightEvent e)).

Definition SetSlotID (t : table) (id : string) (slot now : Z) : table * option operation :=
  match requests t !! id with
  | None => (t, None)
  | Some req =>
    if String.eqb (default "" (meta (entry req) !! "slot_id")) (pretty slot) then (t, None)
    else emit_now t id req (set_metadata (entry req) (Some (<["slot_id" := pretty slot]> (meta (entry req))))) now
  end.

Definition SetMetadata (t : table) (id key value : string) (now : Z) : table * option operation :=
  match requests t !! id with
  | None => (t, None)
  | Some req =>
    match Metadata (entry req) with
    | None =>
      if String.eqb value "" then (t, None)
      else emit_now t id req (set_metadata (entry req) (Some {[key := value]})) now
    | Some m =>
      emit_now t id req (set_metadata (entry req) (Some (if String.eqb value "" then delete key m else <[key := value]> m))) now
    end
  end.

Definition SetResponseHeaders (t : table) (id : string) (values : gmap string string) (now : Z) : table * option operation :=
  match requests t !! id with
  | None => (t, None)
  | Some req => emit_now t id req (set_resp (entry req) values (RespBytes (entry req)) (RespTokens (entry req))) now
  end.

Definition AddResponseBytes (t : table) (id : string) (data : list Z) (now : Z) : table * option operation :=
  if (length data =? 0)%nat then (t, None)
  else match requests t !! id with
       | None => (t, None)
       | Some req =>
         let '(deltas, carry) := scanRealOutputDeltas (respCarry req) data in
         let first := if (0 <? deltas) && is_zero_time (firstOutputAt req) then now else firstOutputAt req in
         let e := set_resp (entry req) (RespHeaders (entry req)) (RespBytes (entry req) + Z.of_nat (length data))
                    (RespTokens (entry req) + deltas) in
         let remaining := inflightUpdateInterval - time_sub now (lastEmitted req) in
         match timer req with
         | None =>
           if remaining <=? 0
           then (put t id (mkRequest e now None (tier req) carry first), Some (upsertInflightEvent e))
           else (put t id (mkRequest e (lastEmitted req) (Some (now + remaining)) (tier req) carry first), None)
         | Some _ => (put t id (mkRequest e (lastEmitted req) (timer req) (tier req) carry first), None)
         end
       end.

(** The timer that [AddResponseBytes] armed. *)
Definition emitPending (t : table) (id : string) (now : Z) : table * option operation :=
  match requests t !! id with
  | None => (t, None)
  | Some req =>
    (put t id (mkRequest (entry req) now None (tier req) (respCarry req) (firstOutputAt req)), Some (upsertInflightEvent (entry req)))
  end.

(** ** Questions of other parts *)

Definition sessionIDOf (t : table) (id : string) : string :=
  match requests t !! id with Some req => default "" (meta (entry req) !! "session_id") | None => "" end.

(** [loopVerdictFor] and [penaltyGateFor]. *)
Definition loopVerdict (t : table) (id : string) : bool :=
  if String.eqb (sessionIDOf t id) "" || bool_decide (loops t = None) then false else Looping (loops t) (sessionIDOf t id).

Definition penaltyGate (t : table) (id : string) (now : Z) : (bool * Z * bool) * table :=
  if String.eqb (sessionIDOf t id) "" then ((false, 0, false), t)
  else let '(held, l, _) := Held (loops t) now (sessionIDOf t id) in (held, mkTable (nextID t) (requests t) l).

(** The yield floor: the candidates, read under the lock, in some order. *)
Record candidate := mkCandidate { c_id : string; c_session : string; c_elapsed : Z; c_produced : Z }.

Definition yield_candidate (now : Z) (kv : string * inflightRequest) : option candidate :=
  let '(id, req) := kv in
  let sid := default "" (meta (entry req) !! "session_id") in
  if String.eqb sid "" || (RespTokens (entry req) <=? 0) then None
  else
    let start := if is_zero_time (firstOutputAt req) then Timestamp (entry req) else firstOutputAt req in
    Some (mkCandidate id sid (time_sub now start) (RespTokens (entry req))).

Definition yield_candidates (order : list (string * inflightRequest)) (now : Z) : list candidate :=
  omap (yield_candidate now) order.

(** The check of one candidate: the loop tracker, whether it was cancelled, the
    strike.  The lock is free: the request may have ended meanwhile. *)
Definition yield_check (t : table) (c : candidate) (now : Z) : table * option string * option LoopPenaltyEvent :=
  let '(ev, l) := CheckYieldFloor (loops t) now (c_session c) (c_elapsed c) (c_produced c) in
  (mkTable (nextID t) (requests t) l,
   match ev with Some _ => if bool_decide (is_Some (requests t !! c_id c)) then Some (c_id c) else None | None => None end,
   ev).

(** ** The outbox and its publisher *)

(** The place of a goroutine of [publishUpdates]: at its [select], publishing an
    update, about to swap [needsSnapshot], discarding, about to read the table,
    publishing a snapshot, about to clear [publisherRunning], about to look at the
    outbox once more, about to claim [publisherRunning] back. *)
Inductive place : Type :=
| Selecting
| Publishing (e : event)
| Recovering
| Discarding
| Snapshotting
| PublishingSnapshot (e : event)
| Stopping
| Checking
| Claiming.

(** What the holder of the lock still has to do for its update: nothing, record
    the overflow, start the publisher. *)
Inductive lock : Type := Free | Overflow | Start.

Record tracker := mkTracker {
  tbl : table;
  updates : list event;
  needsSnapshot : bool;
  publisherRunning : bool;
  mu : lock;
  publishers : gmap Z place;
  spawned : Z;
  published : list event;        (* what was handed to [publish], in order *)
}.

Section tracker.
Variable tierNames : list string.
Variable outbox : nat.           (* the capacity of [updates] *)

Definition new_tracker (l : option LoopTracker) : tracker := mkTracker (mkTable 0 ∅ l) [] false false Free ∅ 0 [].

(** An operation on the table, up to the [select] of [enqueueLocked]. *)
Definition operate (t : tracker) (r : table * option operation) : tracker :=
  let '(tb, o) := r in
  match o with
  | None => mkTracker tb (updates t) (needsSnapshot t) (publisherRunning t) Free (publishers t) (spawned t) (published t)
  | Some o =>
    let ev := withCountsLocked tierNames (requests tb) o in
    if (length (updates t) <? outbox)%nat
    then mkTracker tb (updates t ++ [ev]) (needsSnapshot t) (publisherRunning t) Start (publishers t) (spawned t) (published t)
    else mkTracker tb (updates t) (needsSnapshot t) (publisherRunning t) Overflow (publishers t) (spawned t) (published t)
  end.

Definition at_place (t : tracker) (i : Z) (p : option place) (ups : list event) (needs running : bool) (pub : list event) : tracker :=
  mkTracker (tbl t) ups needs running (mu t) (partial_alter (fun _ => p) i (publishers t)) (spawned t) pub.

(** One step of a publisher. *)
Definition publisher_step (t : tracker) (i : Z) : option tracker :=
  let go p := at_place t i (Some p) in
  match publishers t !! i with
  | None => None
  | Some Selecting =>
    Some (match updates t with
          | e :: ups => go (Publishing e) ups (needsSnapshot t) (publisherRunning t) (published t)
          | [] => go Stopping [] (needsSnapshot t) (publisherRunning t) (published t)
          end)
  | Some (Publishing e) => Some (go Recovering (updates t) (needsSnapshot t) (publisherRunning t) (published t ++ [e]))
  | Some Recovering =>
    Some (go (if needsSnapshot t then Discarding else Selecting) (updates t) false (publisherRunning t) (published t))
  | Some Discarding =>
    Some (match updates t with
          | _ :: ups => go Discarding ups (needsSnapshot t) (publisherRunning t) (published t)
          | [] => go Snapshotting [] (needsSnapshot t) (publisherRunning t) (published t)
          end)
  | Some Snapshotting =>
    match mu t with
    | Free => Some (go (PublishingSnapshot (Current tierNames (requests (tbl t)))) (updates t) (needsSnapshot t)
                      (publisherRunning t) (published t))
    | _ => None
    end
  | Some (PublishingSnapshot e) => Some (go Recovering (updates t) (needsSnapshot t) (publisherRunning t) (published t ++ [e]))
  | Some Stopping => Some (go Checking (updates t) (needsSnapshot t) false (published t))
  | Some Checking =>
    Some (match updates t with
          | _ :: _ => go Claiming (updates t) (needsSnapshot t) (publisherRunning t) (published t)
          | [] => at_place t i None [] (needsSnapshot t) (publisherRunning t) (published t)
          end)
  | Some Claiming =>
    Some (if publisherRunning t
          then at_place t i None (updates t) (needsSnapshot t) (publisherRunning t) (published t)
          else go Selecting (updates t) (needsSnapshot t) true (published t))
  end.

Inductive action : Type :=
| DoAdd (r : arrival) (now : Z)
| DoRemove (id : string) (now : Z)
| DoSetSlotID (id : string) (slot now : Z)
| DoSetMetadata (id key value : string) (now : Z)
| DoSetResponseHeaders (id : string) (values : gmap string string) (now : Z)
| DoAddResponseBytes (id : string) (data : list Z) (now : Z)
| TimerFires (id : string) (now : Z)
| SetNeedsSnapshot
| StartPublisher
| Publisher (i : Z).

(** The operations of the table wait for the lock. *)
Definition act (t : tracker) (a : action) : option tracker :=
  let locked r := match mu t with Free => Some (operate t r) | _ => None end in
  match a with
  | DoAdd r now => locked (Add (tbl t) r now)
  | DoRemove id now => locked (Remove (tbl t) id now)
  | DoSetSlotID id slot now => locked (SetSlotID (tbl t) id slot now)
  | DoSetMetadata id key value now => locked (SetMetadata (tbl t) id key value now)
  | DoSetResponseHeaders id values now => locked (SetResponseHeaders (tbl t) id values now)
  | DoAddResponseBytes id data now => locked (AddResponseBytes (tbl t) id data now)
  | TimerFires id now =>
    match requests (tbl t) !! id with
    | Some req =>
      match timer req with Some at_ => if at_ <=? now then locked (emitPending (tbl t) id now) else None | None => None end
    | None => locked (emitPending (tbl t) id now)
    end
  | SetNeedsSnapshot =>
    match mu t with
    | Overflow => Some (mkTracker (tbl t) (updates t) true (publisherRunning t) Start (publishers t) (spawned t) (published t))
    | _ => None
    end
  | StartPublisher =>
    match mu t with
    | Start =>
      Some (if publisherRunning t
            then mkTracker (tbl t) (updates t) (needsSnapshot t) true Free (publishers t) (spawned t) (published t)
            else mkTracker (tbl t) (updates t) (needsSnapshot t) true Free
                   (<[spawned t := Selecting]> (publishers t)) (spawned t + 1) (published t))
    | _ => None
    end
  | Publisher i => publisher_step t i
  end.

Fixpoint run (t : tracker) (acts : list action) : option tracker :=
  match acts with [] => Some t | a :: acts => match act t a with Some t => run t acts | None => None end end.

End tracker.
End Inflight.
