(* ===== verification/InflightView.v ===== *)
(** What a subscriber of the in-flight updates (Inflight.v) sees: in every
    interleaving of the handlers, the timers and the publisher it ends up with the
    table, unless an overflow was recorded after the publisher had gone; what that
    costs, in a concrete run; and the counts the updates carry. *)

From S2P Require Import Prelude Runes Tier LoopTrack AdmissionScan Inflight.
From stdpp Require Import pretty.

Module InflightView.
Import Inflight.
Open Scope string_scope.
Open Scope list_scope.
Open Scope Z_scope.

(** ** The subscriber *)

Definition apply_op (v : gmap string InflightRequestEntry) (o : operation) : gmap string InflightRequestEntry :=
  match o with
  | Upsert x => <[ID x := x]> v
  | RemoveOp id => delete id v
  | Snapshot es => list_to_map ((fun x => (ID x, x)) <$> es)
  end.

Definition receive (v : gmap string InflightRequestEntry) (es : list event) : gmap string InflightRequestEntry :=
  foldl (fun v e => apply_op v (op e)) v es.

Lemma receive_app v es fs : receive v (es ++ fs) = receive (receive v es) fs.
Proof. apply foldl_app. Qed.

(** What an update says of a request: nothing, that it ended, its entry. *)
Definition about (o : operation) (id : string) : option (option InflightRequestEntry) :=
  match o with
  | Upsert x => if String.eqb (ID x) id then Some (Some x) else None
  | RemoveOp i => if String.eqb i id then Some None else None
  | Snapshot _ => None
  end.

Definition is_snapshot (o : operation) : bool := match o with Snapshot _ => true | _ => false end.

(** What a queue of updates says of a request, the last one counting. *)
Definition overlay (es : list event) (id : string) : option (option InflightRequestEntry) :=
  foldl (fun acc e => match about (op e) id with Some o => Some o | None => acc end) None es.

Lemma overlay_snoc es e id :
  overlay (es ++ [e]) id = match about (op e) id with Some o => Some o | None => overlay es id end.
Proof. unfold overlay. by rewrite foldl_app. Qed.

Lemma apply_about v o id :
  is_snapshot o = false -> apply_op v o !! id = match about o id with Some x => x | None => v !! id end.
Proof.
  destruct o as [x|i|es]; simpl; [| |done]; intros _.
  - destruct (String.eqb_spec (ID x) id) as [->|?]; [by rewrite lookup_insert_eq|by rewrite lookup_insert_ne].
  - destruct (String.eqb_spec i id) as [->|?]; [by rewrite lookup_delete_eq|by rewrite lookup_delete_ne].
Qed.

Lemma receive_overlay es v id :
  Forall (fun e => is_snapshot (op e) = false) es ->
  receive v es !! id = match overlay es id with Some o => o | None => v !! id end.
Proof.
  induction es as [|e es IH] using rev_ind; [done|]. intros [Hes He]%Forall_app. rewrite Forall_singleton in He.
  rewrite receive_app. simpl. rewrite apply_about, overlay_snoc, IH by done. by destruct (about (op e) id).
Qed.

(** ** The table and what is said of it *)

Definition keys_ok (reqs : requests_map) : Prop := forall id req, reqs !! id = Some req -> ID (entry req) = id.

(** [o] is what a subscriber may hold of a request: the entry as it is, unless a
    timer is armed that will send it. *)
Definition agrees (reqs : requests_map) (id : string) (o : option InflightRequestEntry) : Prop :=
  match o with
  | Some x => exists req, reqs !! id = Some req /\ (timer req = None -> x = copyInflightEntry (entry req))
  | None => reqs !! id = None
  end.

(** An operation tells of every change, save of one that a timer will send. *)
Record told (reqs reqs' : requests_map) (o : option operation) : Prop := {
  t_keys : keys_ok reqs -> keys_ok reqs';
  t_other : forall id v, (match o with Some o => about o id | None => None end) = None -> agrees reqs id v -> agrees reqs' id v;
  t_about : forall id v, (match o with Some o => about o id | None => None end) = Some v -> agrees reqs' id v;
  t_plain : match o with Some o => is_snapshot o = false | None => True end;
}.

Lemma told_same reqs : told reqs reqs None.
Proof. by constructor. Qed.

Lemma agrees_other reqs id req id' v : id' <> id -> agrees (<[id := req]> reqs) id' v <-> agrees reqs id' v.
Proof. intros Hne. unfold agrees. by rewrite lookup_insert_ne. Qed.

Lemma keys_insert reqs id req : ID (entry req) = id -> keys_ok reqs -> keys_ok (<[id := req]> reqs).
Proof. intros Hid Hk id' req' [[<- <-]|[_ H]]%lookup_insert_Some; [done|by apply Hk]. Qed.

Lemma told_emit reqs id req :
  ID (entry req) = id -> told reqs (<[id := req]> reqs) (Some (upsertInflightEvent (entry req))).
Proof.
  intros Hid. constructor; simpl; [by apply keys_insert| | |done]; intros id' v; rewrite Hid;
    destruct (String.eqb_spec id id') as [<-|Hne].
  - done.
  - intros _. by rewrite agrees_other.
  - intros [= <-]. exists req. by rewrite lookup_insert_eq.
  - done.
Qed.

Lemma told_quiet reqs id req req' :
  reqs !! id = Some req -> ID (entry req') = id -> timer req' <> None -> told reqs (<[id := req']> reqs) None.
Proof.
  intros Hl Hid Ht. constructor; simpl; [by apply keys_insert| |done|done]. intros id' v _.
  destruct (decide (id' = id)) as [->|Hne]; [|by rewrite agrees_other].
  destruct v as [x|]; simpl; rewrite lookup_insert_eq; [|congruence]. intros _. by exists req'.
Qed.

Lemma told_remove reqs id : told reqs (delete id reqs) (Some (RemoveOp id)).
Proof.
  constructor; simpl; [| | |done].
  - intros Hk id' req' [_ H]%lookup_delete_Some. by apply Hk.
  - intros id' v. destruct (String.eqb_spec id id') as [<-|Hne]; [done|]. intros _. unfold agrees. by rewrite lookup_delete_ne.
  - intros id' v. destruct (String.eqb_spec id id') as [<-|Hne]; [|done]. intros [= <-]. simpl. by rewrite lookup_delete_eq.
Qed.

(** Every operation of the table tells. *)
Definition tells (t : table) (r : table * option operation) : Prop := told (requests t) (requests r.1) r.2.

Lemma tells_emit_now t id req e now :
  ID e = id -> tells t (emit_now t id req e now).
Proof. intros Hid. exact (told_emit (requests t) id (mkRequest e now _ _ _ _) Hid). Qed.

Lemma tells_Add t r now : tells t (Add t r now).
Proof. exact (told_emit (requests t) _ (mkRequest (add_entry _ r) now None (a_tier r) [] 0) eq_refl). Qed.

Lemma tells_Remove t id now : tells t (Remove t id now).
Proof. unfold Remove. destruct (requests t !! id); [apply told_remove|apply told_same]. Qed.

Section keyed.
Variable t : table.
Hypothesis Hk : keys_ok (requests t).

Lemma tells_SetSlotID id slot now : tells t (SetSlotID t id slot now).
Proof.
  unfold SetSlotID. destruct (requests t !! id) as [req|] eqn:E; [|apply told_same].
  destruct (String.eqb _ _); [apply told_same|]. apply tells_emit_now. by apply Hk.
Qed.

Lemma tells_SetMetadata id key value now : tells t (SetMetadata t id key value now).
Proof.
  unfold SetMetadata. destruct (requests t !! id) as [req|] eqn:E; [|apply told_same].
  destruct (Metadata (entry req)); [apply tells_emit_now; by apply Hk|].
  destruct (String.eqb value ""); [apply told_same|]. apply tells_emit_now. by apply Hk.
Qed.

Lemma tells_SetResponseHeaders id values now : tells t (SetResponseHeaders t id values now).
Proof.
  unfold SetResponseHeaders. destruct (requests t !! id) as [req|] eqn:E; [|apply told_same].
  apply tells_emit_now. by apply Hk.
Qed.

Lemma tells_emitPending id now : tells t (emitPending t id now).
Proof.
  unfold emitPending. destruct (requests t !! id) as [req|] eqn:E; [|apply told_same].
  exact (told_emit (requests t) id (mkRequest (entry req) now None _ _ _) (Hk _ _ E)).
Qed.

Lemma tells_AddResponseBytes id data now : tells t (AddResponseBytes t id data now).
Proof.
  unfold AddResponseBytes. destruct (_ =? 0)%nat; [apply told_same|].
  destruct (requests t !! id) as [req|] eqn:E; [|apply told_same]. pose proof (Hk _ _ E) as Hid.
  destruct (scanRealOutputDeltas (respCarry req) data) as [deltas carry].
  destruct (timer req) eqn:Et; [by apply (told_quiet _ _ req)|].
  destruct (_ <=? 0); [|by apply (told_quiet _ _ req)].
  exact (told_emit (requests t) id (mkRequest (set_resp (entry req) _ _ _) now None _ _ _) Hid).
Qed.

End keyed.

(** ** The machine *)

Section machine.
Variable tierNames : list string.
Variable outbox : nat.

Abbreviation act := (act tierNames outbox).
Abbreviation run := (run tierNames outbox).
Abbreviation operate := (operate tierNames outbox).
Abbreviation publisher_step := (publisher_step tierNames).

(** A publisher that counts as running: it has not cleared the flag. *)
Definition active (p : place) : bool := match p with Checking | Claiming => false | _ => true end.

(** The update it has taken and not yet published. *)
Definition hand (p : place) : list event := match p with Publishing e | PublishingSnapshot e => [e] | _ => [] end.

(** An overflow that is not yet answered by a snapshot. *)
Definition dirty (t : tracker) : Prop := needsSnapshot t = true \/ mu t = Overflow.

(** What the subscriber will hold once everything on its way has arrived. *)
Definition coming (t : tracker) (hands : list event) : gmap string InflightRequestEntry :=
  receive ∅ (published t ++ hands ++ updates t).

Definition synced (t : tracker) (ph : option place) : Prop :=
  match ph with
  | Some Discarding => True
  | Some Snapshotting => forall id v, overlay (updates t) id = Some v -> agrees (requests (tbl t)) id v
  | Some p => forall id, agrees (requests (tbl t)) id (coming t (hand p) !! id)
  | None => forall id, agrees (requests (tbl t)) id (coming t [] !! id)
  end.

(** [ph] is the publisher that is active, if there is one. *)
Record inv (t : tracker) (ph : option (Z * place)) : Prop := {
  i_keys : keys_ok (requests (tbl t));
  i_active : match ph with
             | Some (i, p) => publishers t !! i = Some p /\ active p = true /\ publisherRunning t = true
             | None => publisherRunning t = false
             end;
  i_one : forall j q, publishers t !! j = Some q -> active q = true -> ph = Some (j, q);
  i_spawned : forall j q, publishers t !! j = Some q -> j < spawned t;
  i_wake : updates t <> [] -> publisherRunning t = true \/ mu t <> Free \/
             exists j q, publishers t !! j = Some q /\ active q = false;
  i_plain : Forall (fun e => is_snapshot (op e) = false) (updates t);
  i_sync : ~ dirty t -> synced t (snd <$> ph);
}.

(** *** The operations *)

Lemma synced_told t t' ph o :
  told (requests (tbl t)) (requests (tbl t')) o ->
  published t' = published t ->
  updates t' = updates t ++ match o with Some o => [withCountsLocked tierNames (requests (tbl t')) o] | None => [] end ->
  synced t ph -> synced t' ph.
Proof.
  intros [_ Ho Ha Hp] Hpub Hup Hs.
  assert (forall hands, (forall id, agrees (requests (tbl t)) id (coming t hands !! id)) ->
                        forall id, agrees (requests (tbl t')) id (coming t' hands !! id)) as Hc.
  { intros hands H id. unfold coming. rewrite Hpub, Hup. destruct o as [o|]; [|rewrite app_nil_r; by apply Ho].
    rewrite !app_assoc, receive_app. cbn [receive foldl]. rewrite apply_about by done. cbn [op withCountsLocked].
    destruct (about o id) as [v|] eqn:E; [by apply Ha|]. apply Ho; [done|]. rewrite <-app_assoc. apply H. }
  destruct ph as [[]|]; simpl in *; try done; try (by apply Hc). rewrite Hup. destruct o as [o|].
  - intros id v. rewrite overlay_snoc. cbn [op withCountsLocked]. destruct (about o id) as [v'|] eqn:E.
    + intros [= <-]. by apply Ha.
    + intros Hv. apply Ho; [done|]. by apply Hs.
  - rewrite app_nil_r. intros id v Hv. apply Ho; [done|]. by apply Hs.
Qed.

Lemma inv_operate t ph r :
  inv t ph -> mu t = Free -> tells (tbl t) r -> inv (operate t r) ph.
Proof.
  intros [H1 H2 H3 H4 H5 H6 H7] Hmu Ht. destruct r as [tb o]. unfold tells in Ht. simpl in Ht.
  assert (~ needsSnapshot t = true -> synced t (snd <$> ph)) as H7' by (intros Hn; apply H7; intros [|]; congruence).
  destruct o as [o|]; simpl; [destruct (Nat.ltb_spec (length (updates t)) outbox)|].
  - constructor; simpl; try done; [by apply (t_keys _ _ _ Ht)|by right; left| |].
    + apply Forall_app. split; [done|]. apply Forall_singleton. apply (t_plain _ _ _ Ht).
    + intros Hd. eapply (synced_told t); [exact Ht|done|done|]. apply H7'. intros Hn. apply Hd. by left.
  - constructor; simpl; try done; [by apply (t_keys _ _ _ Ht)|by right; left|]. intros Hd. destruct Hd. by right.
  - constructor; simpl; try done; [by apply (t_keys _ _ _ Ht)| |].
    + intros Hu. destruct (H5 Hu) as [?|[?|?]]; auto.
    + intros Hd. eapply (synced_told t); [exact Ht|done|by rewrite app_nil_r|]. apply H7'. intros Hn. apply Hd. by left.
Qed.

(** *** The publisher *)

(** A publisher moves to another place; [ph'] is the active one afterwards. *)
Lemma inv_move t ph i p q ups needs running pub ph' :
  inv t ph -> publishers t !! i = Some p ->
  (active p = true -> ph = Some (i, p)) ->
  ph' = (match q with Some q => if active q then Some (i, q) else if active p then None else ph
                    | None => if active p then None else ph end) ->
  match q with Some q => active q = true -> active p = false -> ph = None | None => True end ->
  (running = match ph' with Some _ => true | None => false end) ->
  (exists taken, updates t = taken ++ ups) ->
  (ups <> [] -> running = true \/ mu t <> Free \/ (exists q', q = Some q' /\ active q' = false) \/
     exists j q', j <> i /\ publishers t !! j = Some q' /\ active q' = false) ->
  let t' := at_place t i q ups needs running pub in
  (~ dirty t' -> synced t' (snd <$> ph')) ->
  inv t' ph'.
Proof.
  intros [H1 H2 H3 H4 H5 H6 H7] Hi Hp Hph' Hone Hrun [taken Htaken] Hwake t' Hsync. constructor; simpl; try done.
  - subst ph'. destruct q as [q|]; simpl.
    + destruct (active q) eqn:Eq; [split_and!; [by rewrite lookup_partial_alter_eq|done|by rewrite Hrun]|].
      destruct (active p) eqn:Ep; [by rewrite Hrun|]. destruct ph as [[j p']|]; [|by rewrite Hrun].
      destruct H2 as (Hj & Ha & _). split_and!; [|done|by rewrite Hrun].
      rewrite lookup_partial_alter_ne; [done|]. intros ->. congruence.
    + destruct (active p) eqn:Ep; [by rewrite Hrun|]. destruct ph as [[j p']|]; [|by rewrite Hrun].
      destruct H2 as (Hj & Ha & _). split_and!; [|done|by rewrite Hrun].
      rewrite lookup_partial_alter_ne; [done|]. intros ->. congruence.
  - intros j q'. destruct (decide (i = j)) as [<-|Hne].
    + rewrite lookup_partial_alter_eq. intros -> Ha. subst ph'. by rewrite Ha.
    + rewrite lookup_partial_alter_ne by done. intros Hj Ha. specialize (H3 j q' Hj Ha). subst ph ph'.
      assert (active p = false) as Ep by (destruct (active p); [by specialize (Hp eq_refl); simplify_eq|done]).
      destruct q as [q|]; rewrite Ep; [|done]. destruct (active q) eqn:Eq; [|done]. by specialize (Hone eq_refl Ep).
  - intros j q'. destruct (decide (i = j)) as [<-|Hne]; [intros _; by eapply H4|].
    rewrite lookup_partial_alter_ne by done. by apply H4.
  - intros Hu. destruct (Hwake Hu) as [?|[?|[(q' & -> & ?)|(j & q' & ? & ? & ?)]]]; [by left|by right; left| |]; right; right.
    + exists i, q'. by rewrite lookup_partial_alter_eq.
    + exists j, q'. by rewrite lookup_partial_alter_ne.
  - rewrite Htaken in H6. by apply Forall_app in H6 as [_ ?].
Qed.

(** *** A snapshot *)

Lemma snapshot_view reqs v id : keys_ok reqs ->
  apply_op v (op (Current tierNames reqs)) !! id = (fun req => copyInflightEntry (entry req)) <$> reqs !! id.
Proof.
  intros Hk. cbn [op Current withCountsLocked apply_op]. unfold snapshotLocked.
  set (entries := (fun req => copyInflightEntry (entry req)) <$> (map_to_list reqs).*2).
  assert ((fun x => (ID x, x)) <$> entries =
          (fun kv => (kv.1, copyInflightEntry (entry kv.2))) <$> map_to_list reqs) as Heq.
  { subst entries. rewrite <-!list_fmap_compose. apply list_fmap_ext. intros i [k req] Hi. simpl.
    f_equal. apply Hk. apply elem_of_map_to_list. by eapply list_elem_of_lookup_2. }
  assert (NoDup ((fun x => (ID x, x)) <$> entries).*1) as Hnd.
  { rewrite Heq, <-list_fmap_compose. apply NoDup_fst_map_to_list. }
  rewrite (list_to_map_proper _ ((fun x => (ID x, x)) <$> entries)).
  - rewrite Heq. change (fun kv : string * inflightRequest => (kv.1, copyInflightEntry (entry kv.2)))
      with (prod_map (@Datatypes.id string) (fun req => copyInflightEntry (entry req))). 
    rewrite list_to_map_fmap, list_to_map_to_list, lookup_fmap. done.
  - by rewrite merge_sort_Permutation.
  - by rewrite merge_sort_Permutation.
Qed.

Lemma agrees_self reqs id : agrees reqs id ((fun req => copyInflightEntry (entry req)) <$> reqs !! id).
Proof. unfold agrees. destruct (reqs !! id) as [req|] eqn:E; [|done]. simpl. by exists req. Qed.

Lemma dirty_place t i q ups running pub :
  dirty (at_place t i q ups (needsSnapshot t) running pub) <-> dirty t.
Proof. done. Qed.

(** The active publisher goes on to another active place, with the outbox and
    what is on its way as they were. *)
Lemma inv_go t i p q ups needs pub :
  inv t (Some (i, p)) -> active q = true -> (exists taken, updates t = taken ++ ups) ->
  (~ (needs = true \/ mu t = Overflow) ->
   synced (at_place t i (Some q) ups needs (publisherRunning t) pub) (Some q)) ->
  inv (at_place t i (Some q) ups needs (publisherRunning t) pub) (Some (i, q)).
Proof.
  intros H Hq Ht Hs. destruct (i_active _ _ H) as (Hi & Hp & Hr).
  eapply (inv_move t (Some (i, p)) i p (Some q)); [exact H|exact Hi|done|by rewrite Hq|by rewrite Hp| | |by left|].
  - by rewrite Hr.
  - exact Ht.
  - exact Hs.
Qed.

Lemma inv_active_step t i p t' :
  inv t (Some (i, p)) -> publisher_step t i = Some t' -> exists ph', inv t' ph'.
Proof.
  intros H Hstep. destruct (i_active _ _ H) as (Hi & Hp & Hr). pose proof (i_sync _ _ H) as Hs. simpl in Hs.
  unfold Inflight.publisher_step in Hstep. rewrite Hi in Hstep. unfold dirty in Hs. unfold synced, coming in *.
  destruct p as [|e| | | |e| | |]; try done.
  - destruct (updates t) as [|e ups] eqn:Eu; simplify_eq.
    + exists (Some (i, Stopping)). by apply (inv_go t i Selecting); [| |by exists []|].
    + exists (Some (i, Publishing e)). by apply (inv_go t i Selecting); [| |by exists [e]|].
  - simplify_eq. exists (Some (i, Recovering)). apply (inv_go t i (Publishing e)); [done|done|by exists []|].
    unfold synced, coming. simpl. by rewrite <-app_assoc.
  - simplify_eq. destruct (needsSnapshot t) eqn:En.
    + exists (Some (i, Discarding)). by apply (inv_go t i Recovering); [| |by exists []|].
    + exists (Some (i, Selecting)). apply (inv_go t i Recovering); [done|done|by exists []|].
      exact Hs.
  - destruct (updates t) as [|e ups] eqn:Eu; simplify_eq.
    + exists (Some (i, Snapshotting)). by apply (inv_go t i Discarding); [| |by exists []|].
    + exists (Some (i, Discarding)). by apply (inv_go t i Discarding); [| |by exists [e]|].
  - destruct (mu t) eqn:Em; simplify_eq.
    exists (Some (i, PublishingSnapshot (Current tierNames (requests (tbl t))))).
    apply (inv_go t i Snapshotting); [done|done|by exists []|]. intros Hd. unfold synced, coming. cbn [hand at_place published updates tbl]. intros id.
    rewrite app_assoc, receive_app, receive_app, receive_overlay by apply (i_plain _ _ H). cbn [receive foldl].
    rewrite Em in Hd. specialize (Hs Hd id). destruct (overlay (updates t) id) as [v|]; [by apply Hs|].
    rewrite snapshot_view by apply (i_keys _ _ H). apply agrees_self.
  - simplify_eq. exists (Some (i, Recovering)). apply (inv_go t i (PublishingSnapshot e)); [done|done|by exists []|].
    unfold synced, coming. simpl. by rewrite <-app_assoc.
  - simplify_eq. exists None. eapply (inv_move t _ i Stopping (Some Checking)); [exact H|exact Hi|done|done|done|done|by exists []| |exact Hs].
    intros _. right. right. left. by exists Checking.
Qed.

Lemma running_ph t ph : inv t ph -> publisherRunning t = match ph with Some _ => true | None => false end.
Proof. intros H. pose proof (i_active _ _ H) as Ha. destruct ph as [[]|]; [by destruct Ha as (_ & _ & ?)|done]. Qed.

Lemma inv_idle_step t ph i p t' :
  inv t ph -> publishers t !! i = Some p -> active p = false -> publisher_step t i = Some t' -> exists ph', inv t' ph'.
Proof.
  intros H Hi Hp Hstep. pose proof (running_ph t ph H) as Hr. pose proof (i_sync _ _ H) as Hs.
  unfold Inflight.publisher_step in Hstep. rewrite Hi in Hstep. destruct p; try done.
  - destruct (updates t) as [|e ups] eqn:Eu; simplify_eq.
    + exists ph. eapply (inv_move t ph i Checking None); [done|done|done|done|done|done|by exists []|done|].
      rewrite <-Eu. exact Hs.
    + rewrite <-Eu. exists ph.
      eapply (inv_move t ph i Checking (Some Claiming)); [done|done|done|done|done|done|by exists []| |exact Hs].
      intros _. right. right. left. by exists Claiming.
  - destruct (publisherRunning t) eqn:Er; simplify_eq.
    + exists ph. eapply (inv_move t ph i Claiming None); [done|done|done|done|done|done|by exists []|by left|exact Hs].
    + destruct ph as [[]|]; [done|]. exists (Some (i, Selecting)).
      eapply (inv_move t None i Claiming (Some Selecting)); [done|done|done|done|done|done|by exists []|by left|exact Hs].
Qed.

Lemma inv_publisher_step t ph i t' : inv t ph -> publisher_step t i = Some t' -> exists ph', inv t' ph'.
Proof.
  intros H Hstep. destruct (publishers t !! i) as [p|] eqn:Hi.
  - destruct (active p) eqn:Hp; [|by eapply inv_idle_step].
    rewrite (i_one _ _ H i p Hi Hp) in H. by eapply inv_active_step.
  - unfold Inflight.publisher_step in Hstep. by rewrite Hi in Hstep.
Qed.

(** *** The lock *)

Lemma inv_overflow t ph : inv t ph -> mu t = Overflow ->
  inv (mkTracker (tbl t) (updates t) true (publisherRunning t) Start (publishers t) (spawned t) (published t)) ph.
Proof.
  intros [H1 H2 H3 H4 H5 H6 H7] Hm. constructor; simpl; try done; [by right; left|]. intros Hd. destruct Hd. by left.
Qed.

Lemma inv_start t ph : inv t ph -> mu t = Start -> exists ph',
  inv (if publisherRunning t
       then mkTracker (tbl t) (updates t) (needsSnapshot t) true Free (publishers t) (spawned t) (published t)
       else mkTracker (tbl t) (updates t) (needsSnapshot t) true Free (<[spawned t := Selecting]> (publishers t))
              (spawned t + 1) (published t)) ph'.
Proof.
  intros H Hm. pose proof (running_ph t ph H) as Hr. destruct H as [H1 H2 H3 H4 H5 H6 H7].
  assert (~ needsSnapshot t = true -> synced t (snd <$> ph)) as H7' by (intros Hn; apply H7; intros [|]; congruence).
  destruct (publisherRunning t) eqn:Er.
  - exists ph. destruct ph as [[i p]|]; [|done]. constructor; simpl; try done; [by left|].
    intros Hd. apply H7'. intros Hn. apply Hd. by left.
  - destruct ph as [[]|]; [done|]. exists (Some (spawned t, Selecting)). constructor; simpl; try done.
    + by rewrite lookup_insert_eq.
    + intros j q [[<- <-]|[_ Hj]]%lookup_insert_Some Ha; [done|]. by specialize (H3 j q Hj Ha).
    + intros j q [[<- _]|[_ Hj]]%lookup_insert_Some; [lia|]. specialize (H4 j q Hj). lia.
    + by left.
    + intros Hd. apply H7'. intros Hn. apply Hd. by left.
Qed.

Lemma inv_step t ph a t' : inv t ph -> act t a = Some t' -> exists ph', inv t' ph'.
Proof.
  intros H Ha. pose proof (i_keys _ _ H) as Hk.
  assert (forall r, tells (tbl t) r -> (match mu t with Free => Some (operate t r) | _ => None end) = Some t' ->
            exists ph', inv t' ph') as Hop.
  { intros r Hr Ho. destruct (mu t) eqn:Em; [|done|done]. simplify_eq. exists ph. by apply inv_operate. }
  destruct a; cbv beta iota zeta delta [Inflight.act] in Ha.
  - eapply Hop; [apply tells_Add|done].
  - eapply Hop; [apply tells_Remove|done].
  - eapply Hop; [by apply tells_SetSlotID|done].
  - eapply Hop; [by apply tells_SetMetadata|done].
  - eapply Hop; [by apply tells_SetResponseHeaders|done].
  - eapply Hop; [by apply tells_AddResponseBytes|done].
  - destruct (requests (tbl t) !! id) as [req|]; [destruct (timer req) as [at_|]; [|done]; destruct (at_ <=? now); [|done]|];
      (eapply Hop; [by apply tells_emitPending|done]).
  - destruct (mu t) eqn:Em; try done. simplify_eq. exists ph. by apply inv_overflow.
  - destruct (mu t) eqn:Em; try done. simplify_eq. by apply (inv_start t ph).
  - by eapply inv_publisher_step.
Qed.

Lemma inv_run acts t ph t' : inv t ph -> run t acts = Some t' -> exists ph', inv t' ph'.
Proof.
  revert t ph. induction acts as [|a acts IH]; intros t ph H Hr; simpl in Hr; [simplify_eq; by exists ph|].
  destruct (act t a) as [t1|] eqn:E; [|done]. destruct (inv_step t ph a t1 H E) as [ph1 H1]. by eapply IH.
Qed.

Lemma tracker_inv_new l : inv (new_tracker l) None.
Proof. constructor; simpl; try done; constructor. Qed.

(** C20. The updates of the table reach a subscriber.  In every interleaving of
    the handlers, the timers and the publisher goroutines: while the outbox holds
    an update, a publisher runs, or is looking at the outbox again, or the holder
    of the lock is about to start one; and once no publisher is left, no update
    waits, and a subscriber that received everything holds exactly the requests of
    the table, each with its entry unless a timer is armed to send it, provided no
    overflow was recorded after the last publisher looked. *)
Theorem updates_reach_subscriber l acts t :
  run (new_tracker l) acts = Some t ->
  (updates t <> [] -> mu t <> Free \/ exists i p, publishers t !! i = Some p) /\
  (publishers t = ∅ -> mu t = Free ->
   updates t = [] /\
   (needsSnapshot t = false -> forall id, agrees (requests (tbl t)) id (receive ∅ (published t) !! id))).
Proof.
  intros Hr. destruct (inv_run acts _ _ t (tracker_inv_new l) Hr) as [ph H]. pose proof (i_active _ _ H) as Ha.
  assert (updates t <> [] -> mu t <> Free \/ exists i p, publishers t !! i = Some p) as Hw.
  { intros Hu. destruct (i_wake _ _ H Hu) as [Hrun|[?|(j & q & ? & _)]]; [|by left|by right; exists j, q].
    destruct ph as [[i p]|]; [|congruence]. right. exists i, p. apply Ha. }
  split; [done|]. intros Hp Hm. destruct (updates t) as [|e ups] eqn:Eu.
  2:{ destruct (Hw ltac:(done)) as [?|(i & p & Hi)]; [done|]. by rewrite Hp, lookup_empty in Hi. }
  split; [done|]. intros Hn id. destruct ph as [[i p]|]; [destruct Ha as [Hi _]; by rewrite Hp, lookup_empty in Hi|].
  pose proof (i_sync _ _ H) as Hs. simpl in Hs. unfold coming in Hs. rewrite Eu, app_nil_r in Hs. simpl in Hs.
  apply Hs. unfold dirty. rewrite Hn, Hm. by intros [].
Qed.

End machine.

(** ** Model output *)

(** A line is being read; [n] deltas were counted before. *)
Lemma scan_lines_count buf line n : scan_lines buf line n = (n + (scan_lines buf line 0).1, (scan_lines buf line 0).2).
Proof.
  revert line n. induction buf as [|b buf IH]; intros line n; simpl; [by rewrite Z.add_0_r|].
  destruct (b =? AdmissionScan.LF); [|apply IH]. destruct (is_delta_line line); [|apply IH].
  rewrite IH, (IH [] (0 + 1)). simpl. f_equal. lia.
Qed.

Lemma scan_lines_app a b line n :
  scan_lines (a ++ b) line n = scan_lines b (scan_lines a line n).2 (scan_lines a line n).1.
Proof.
  revert line n. induction a as [|x a IH]; intros line n; simpl; [done|].
  destruct (x =? AdmissionScan.LF); apply IH.
Qed.

(** The line that is being read holds no line feed. *)
Lemma scan_lines_rest buf line n : AdmissionScan.LF ∉ line -> AdmissionScan.LF ∉ (scan_lines buf line n).2.
Proof.
  revert line n. induction buf as [|b buf IH]; intros line n Hl; simpl; [done|].
  destruct (Z.eqb_spec b AdmissionScan.LF) as [->|Hb]; apply IH; [apply not_elem_of_nil|].
  rewrite not_elem_of_app, list_elem_of_singleton. split; [done|]. intros H. by apply Hb.
Qed.

Lemma scan_lines_carry carry data : AdmissionScan.LF ∉ carry -> scan_lines (carry ++ data) [] 0 = scan_lines data carry 0.
Proof.
  intros Hc. rewrite scan_lines_app.
  assert (forall l, scan_lines carry l 0 = (0, l ++ carry)) as H; [|by rewrite H].
  induction carry as [|b carry IH]; intros l; simpl; [by rewrite app_nil_r|].
  rewrite not_elem_of_cons in Hc. destruct Hc as [Hb Hc]. destruct (Z.eqb_spec b AdmissionScan.LF); [congruence|].
  rewrite IH by done. by rewrite <-app_assoc.
Qed.

(** No line of the stream outgrows the carry. *)
Definition short_lines (stream : list Z) : Prop :=
  forall read, read `prefix_of` stream -> Z.of_nat (length (scan_lines read [] 0).2) <= respCarryMax.

(** The chunks of a response, as [AddResponseBytes] takes them. *)
Definition add_chunks (t : table) (id : string) (chunks : list (list Z * Z)) : table :=
  foldl (fun t c => (AddResponseBytes t id c.1 c.2).1) t chunks.

Lemma add_chunk t id req data now :
  requests t !! id = Some req ->
  exists req', requests (AddResponseBytes t id data now).1 !! id = Some req' /\
    RespBytes (entry req') = RespBytes (entry req) + Z.of_nat (length data) /\
    RespTokens (entry req') =
      RespTokens (entry req) + (if (length data =? 0)%nat then 0 else (scanRealOutputDeltas (respCarry req) data).1) /\
    respCarry req' = if (length data =? 0)%nat then respCarry req else (scanRealOutputDeltas (respCarry req) data).2.
Proof.
  intros Hr. unfold AddResponseBytes. destruct (Nat.eqb_spec (length data) 0) as [->|Hn].
  { exists req. by rewrite !Z.add_0_r. }
  rewrite Hr. destruct (scanRealOutputDeltas (respCarry req) data) as [deltas carry].
  destruct (timer req); [|destruct (_ <=? 0)]; simpl; rewrite lookup_insert_eq; by eexists.
Qed.

Lemma add_chunks_counted chunks t id req read :
  requests t !! id = Some req -> respCarry req = (scan_lines read [] 0).2 ->
  short_lines (read ++ concat chunks.*1) ->
  exists req', requests (add_chunks t id chunks) !! id = Some req' /\
    RespBytes (entry req') = RespBytes (entry req) + Z.of_nat (length (concat chunks.*1)) /\
    RespTokens (entry req') = RespTokens (entry req) +
      ((scan_lines (read ++ concat chunks.*1) [] 0).1 - (scan_lines read [] 0).1).
Proof.
  revert t req read. induction chunks as [|[data now] chunks IH]; intros t req read Hr Hc Hs.
  { exists req. simpl. rewrite app_nil_r. split_and!; [done|lia|lia]. }
  destruct (add_chunk t id req data now Hr) as (req1 & Hr1 & Hb1 & Ht1 & Hc1).
  assert (AdmissionScan.LF ∉ respCarry req) as Hlf by (rewrite Hc; apply scan_lines_rest, not_elem_of_nil).
  assert (scanRealOutputDeltas (respCarry req) data =
          ((scan_lines (read ++ data) [] 0).1 - (scan_lines read [] 0).1, (scan_lines (read ++ data) [] 0).2)) as Hscan.
  { unfold scanRealOutputDeltas. rewrite scan_lines_carry by done.
    pose proof (Hs (read ++ data)) as Hlen. rewrite scan_lines_app, <-Hc in Hlen |- *.
    rewrite (scan_lines_count data (respCarry req) (scan_lines read [] 0).1) in Hlen |- *.
    destruct (scan_lines data (respCarry req) 0) as [n l]. cbn [fst snd] in *.
    rewrite (proj2 (Z.ltb_ge _ _)); [f_equal; lia|]. apply Hlen. cbn [fmap list_fmap concat fst].
    rewrite app_assoc. by apply prefix_app_r. }
  assert (respCarry req1 = (scan_lines (read ++ data) [] 0).2) as Hc1'.
  { rewrite Hc1, Hscan. destruct (Nat.eqb_spec (length data) 0) as [E|]; [|done].
    apply nil_length_inv in E as ->. by rewrite app_nil_r. }
  destruct (IH _ req1 (read ++ data) Hr1 Hc1') as (req' & Hr' & Hb' & Ht'); [by rewrite <-app_assoc|].
  assert (concat ((data, now) :: chunks).*1 = data ++ concat chunks.*1) as -> by done.
  exists req'. rewrite (app_assoc read). split_and!; [exact Hr'|rewrite Hb', Hb1, length_app; lia|].
  rewrite Ht', Ht1, Hscan. simpl. destruct (Nat.eqb_spec (length data) 0) as [E|]; [|lia].
  apply nil_length_inv in E as ->. rewrite app_nil_r. lia.
Qed.

(** The bytes and the model output of a response are counted exactly: however
    the proxy cuts the stream into chunks, the entry gains its length and one
    token for every finished [event: content_block_delta] line of the whole
    stream, if no line outgrows the carry. *)
Theorem response_counted t id req chunks :
  requests t !! id = Some req -> respCarry req = [] -> short_lines (concat chunks.*1) ->
  exists req', requests (add_chunks t id chunks) !! id = Some req' /\
    RespBytes (entry req') = RespBytes (entry req) + Z.of_nat (length (concat chunks.*1)) /\
    RespTokens (entry req') = RespTokens (entry req) + (scan_lines (concat chunks.*1) [] 0).1.
Proof.
  intros Hr Hc Hs. destruct (add_chunks_counted chunks t id req [] Hr Hc Hs) as (req' & ? & ? & Ht).
  exists req'. split_and!; [done|done|]. rewrite Ht. simpl. lia.
Qed.

(** ** The counts of an update *)

Definition tier_of (req : inflightRequest) : string :=
  if String.eqb (tier req) "" then Tier.Name Tier.DefaultTier else tier req.

Lemma count_tiers reqs counts name :
  get0 (foldl count_tier counts reqs) name =
  get0 counts name + Z.of_nat (length (filter (fun req => tier_of req = name) reqs)).
Proof.
  revert counts. induction reqs as [|req reqs IH]; intros counts; simpl; [lia|]. rewrite IH. unfold count_tier at 1.
  fold (tier_of req). rewrite filter_cons. destruct (decide (tier_of req = name)) as [<-|Hne].
  - rewrite get0_insert_eq. simpl. lia.
  - by rewrite get0_insert_ne by done.
Qed.

Lemma zero_tiers (names : list string) name (c : gmap string Z) : get0 c name = 0 -> get0 (foldl (fun c n => <[n := 0]> c) c names) name = 0.
Proof.
  revert c. induction names as [|n names IH]; intros c Hc; simpl; [done|]. apply IH.
  destruct (decide (n = name)) as [->|Hne]; [apply get0_insert_eq|by rewrite get0_insert_ne].
Qed.

(** Every update carries the size of the table and, for each tier, the number
    of its requests; requests without a tier count for the default one. *)
Theorem counts_exact tierNames reqs o :
  let ev := withCountsLocked tierNames reqs o in
  Total ev = Z.of_nat (size reqs) /\
  (forall name, get0 (tierSnapshotLocked tierNames reqs) name =
     Z.of_nat (length (filter (fun req => tier_of req = name) (map_to_list reqs).*2))) /\
  (ByTier ev = None \/ ByTier ev = Some (tierSnapshotLocked tierNames reqs)).
Proof.
  split_and!; simpl; [done| |].
  - intros name. unfold tierSnapshotLocked. rewrite count_tiers, zero_tiers; [done|].
    unfold get0.
    destruct (decide (Tier.Name Tier.DefaultTier = name)) as [<-|Hne]; [by rewrite lookup_singleton_eq|by rewrite lookup_singleton_ne].
  - unfold byTierOrNil. destruct (_ <=? _)%nat; [by left|by right].
Qed.

(** ** Concrete runs *)

Definition ex_arrival : arrival :=
  mkArrival 1000 "/v1/messages" "POST" ∅ "10.0.0.1" (Some ("m", Some {["session_id" := "A"]})) "".

(** What the only publisher does with [k] updates in the outbox, to its end. *)
Definition drain (k : nat) (i : Z) : list action :=
  concat (repeat [Publisher i; Publisher i; Publisher i] k) ++ [Publisher i; Publisher i; Publisher i].

(** A request arrives, its response begins, a timer is armed and fires, it ends. *)
Definition ex_stream : list Z := bytes_of_string "event: content_block_delta" ++ [AdmissionScan.LF].

Definition ex_run : list action :=
  [DoAdd ex_arrival 1000; StartPublisher; DoAddResponseBytes "1" (take 10 ex_stream) 2000;
   DoAddResponseBytes "1" (drop 10 ex_stream) 3000; TimerFires "1" 250001000; StartPublisher] ++ drain 2 0.

Lemma updates_reach_subscriber_witness :
  exists t, run [] inflightOutboxSize (new_tracker None) ex_run = Some t /\ publishers t = ∅ /\
    (RespTokens ∘ entry) <$> requests (tbl t) !! "1" = Some 1 /\
    agrees (requests (tbl t)) "1" (receive ∅ (published t) !! "1").
Proof.
  assert (exists t, run [] inflightOutboxSize (new_tracker None) ex_run = Some t /\ publishers t = ∅ /\
    (RespTokens ∘ entry) <$> requests (tbl t) !! "1" = Some 1 /\ mu t = Free /\ needsSnapshot t = false)
    as (t & Hr & Hp & Ht & Hm & Hn) by (vm_compute; eexists; repeat split).
  exists t. split; [exact Hr|]. split; [exact Hp|]. split; [exact Ht|].
  exact (proj2 (proj2 (updates_reach_subscriber [] inflightOutboxSize None ex_run t Hr) Hp Hm) Hn "1").
Defined.

Definition ex_table : table := (Add (mkTable 0 ∅ None) ex_arrival 1000).1.

Lemma response_counted_witness :
  exists req', requests (add_chunks ex_table "1" [(take 10 ex_stream, 2000); (drop 10 ex_stream, 3000)])
      !! "1" = Some req' /\ RespTokens (entry req') = 1.
Proof.
  assert (short_lines (concat [(take 10 ex_stream, 2000); (drop 10 ex_stream, 3000)].*1)) as Hs.
  { intros read [rest Hrest]. assert (length read <= 27)%nat as Hlen.
    { apply (f_equal length) in Hrest. rewrite length_app in Hrest. vm_compute (length (concat _)) in Hrest. lia. }
    assert (forall b l n, (length (scan_lines b l n).2 <= length l + length b)%nat) as Hle.
    { clear. induction b as [|x b IH]; intros l n; simpl; [lia|]. destruct (_ =? _); [etrans; [apply IH|simpl; lia]|].
      etrans; [apply IH|]. rewrite length_app. simpl. lia. }
    specialize (Hle read [] 0). simpl in Hle. unfold respCarryMax. lia. }
  destruct (response_counted ex_table "1"
    (mkRequest (add_entry "1" ex_arrival) 1000 None "" [] 0) [(take 10 ex_stream, 2000); (drop 10 ex_stream, 3000)]
    ltac:(vm_compute; reflexivity) ltac:(reflexivity) Hs) as (req' & Hr & _ & Ht).
  exists req'. split; [exact Hr|]. rewrite Ht. vm_compute. reflexivity.
Defined.

(** An overflow recorded too late: the handler of the end of a request finds the
    outbox full, the publisher empties it and goes, and only then the handler sets
    the flag; the publisher it starts finds an empty outbox and goes without
    looking at the flag.  The request has ended and the subscriber still holds
    it. *)
Definition late_overflow : list action :=
  [DoAdd ex_arrival 1000; StartPublisher] ++
  concat ((fun k => [DoSetMetadata "1" "k" (pretty (Z.of_nat k)) 2000; StartPublisher]) <$> seq 0 127) ++
  [DoRemove "1" 3000] ++ drain 128 0 ++ [SetNeedsSnapshot; StartPublisher] ++ drain 0 1.

Lemma overflow_flag_left_behind :
  match run [] inflightOutboxSize (new_tracker None) late_overflow with
  | Some t => publishers t = ∅ /\ mu t = Free /\ updates t = [] /\ requests (tbl t) = ∅ /\ needsSnapshot t = true /\
      ID <$> receive ∅ (published t) !! "1" = Some "1"
  | None => False
  end.
Proof. vm_compute. by repeat split. Qed.

End InflightView.
