(* ===== verification/RecordSet.v ===== *)
(** Updating one field of a record: [r <| f ::= v |>] is [r] with the field [f]
    set to [v].  A record type takes part by an instance of [Fields] that builds
    it again from its fields. *)

From S2P Require Import Prelude.

Class Fields (R : Type) := rebuild : R -> R.

Class Setter {R T : Type} (f : R -> T) := set_to : T -> R -> R.

Ltac derive_setter f :=
  let v := fresh "v" in let r := fresh "r" in
  intros v r;
  let e := eval hnf in (rebuild r) in
  let e := eval pattern (f r) in e in
  lazymatch e with ?g _ => let e := eval cbv beta in (g v) in exact e end.

#[export] Hint Extern 1 (Setter ?f) => derive_setter f : typeclass_instances.

Notation "r '<|' f '::=' v '|>'" := (set_to (f := f) v r)
  (at level 14, f at level 0, v at level 200, left associativity, format "r  <| f  ::=  v |>").
