(* ===== verification/SessionRows.v ===== *)
(** The rows of the session table ([internal/server/sessions.go]): what one
    request, one hot slot and one session at rest show, and the stamps that each
    build puts on a row from the memory of the builds before.

    Rates and progress are [float64] (Float64.v).  The menu text [Line] of a row is
    left out; [WindowSeconds] of a rate is always [sessionsRateWindow] and is left
    out too. *)

From S2P Require Import Prelude RecordSet Float64 Tier SchedTypes LoopTrack SlotAffinity Inflight.
From Stdlib Require Import SpecFloat.
From stdpp Require Import pretty.

Module SessionRows.
Import Float64 Sched.
Open Scope string_scope.
Open Scope list_scope.
Open Scope Z_scope.

Definition sessionsRateWindow : Z := 30 * nsec_second.
Definition sessionsIdleRetention : Z := 60 * nsec_second.
Definition sessionsDecodeRetention : Z := 8 * nsec_second.

Definition phaseParked := "PARKED".
Definition phaseLoading := "LOADING".
Definition phasePrefill := "PREFILL".
Definition phaseDecode := "DECODE".
Definition phaseHot := "HOT".
Definition phaseIdle := "IDLE".
Definition phasePenalized := "PENALIZED".

(** ** Data *)

Record sessionContext := mkContext {
  Used : Z; Cached : Z; Processed : Z; Decoded : Z; PromptTotal : Z; Window : Z;
}.

Record sessionRate := mkRate { Kind : option string; TokensPerSecond : option float64 }.

Record sessionDisplay := mkDisplay { d_Phase : string; ContextUsed : option Z; d_Rate : option sessionRate }.

Record waitingFor := mkWaiting { w_Session : string; w_Until : string }.

Record sessionPenalty := mkPenalty {
  sp_Reason : string; sp_Strike : Z; sp_Strikes : Z; RemainingSeconds : option Z; sp_UniformRun : Z;
  sp_TypicalTokens : Z; sp_Held : bool;
}.

Record sessionEntry := mkSession {
  SessionID : string;
  SessionShort : string;
  RequestID : option string;
  Model : string;
  Alias : string;
  Tier : string;
  Priority : Z;
  Phase : string;
  ParkReason : option string;
  Slot : option Z;
  Context : sessionContext;
  Progress : option float64;
  Rate : sessionRate;
  ElapsedMs : Z;
  PhaseSinceMs : Z;
  RespTokens : Z;
  SlotWarmUntil : string;
  ParentSessionId : string;
  ParentSessionShort : string;
  Looping : bool;
  UniformRun : Z;
  Penalty : option sessionPenalty;
  WaitingFor : option waitingFor;
  Display : option sessionDisplay;
}.

#[export] Instance context_fields : Fields sessionContext :=
  fun c => mkContext (Used c) (Cached c) (Processed c) (Decoded c) (PromptTotal c) (Window c).
#[export] Instance session_fields : Fields sessionEntry :=
  fun r => mkSession (SessionID r) (SessionShort r) (RequestID r) (Model r) (Alias r) (Tier r) (Priority r) (Phase r)
    (ParkReason r) (Slot r) (Context r) (Progress r) (Rate r) (ElapsedMs r) (PhaseSinceMs r) (RespTokens r)
    (SlotWarmUntil r) (ParentSessionId r) (ParentSessionShort r) (Looping r) (UniformRun r) (Penalty r) (WaitingFor r)
    (Display r).

(** One row of a child's [/slots]. *)
Record childSlot := mkChildSlot {
  cs_ID : Z; NCtx : Z; IsProcessing : bool; NPromptTokens : Z; NPromptTokensCache : Z;
  NPromptTokensProcessed : Z; NDecoded : Z;
}.

(** What the configuration says of a model; a tier is its rank. *)
Record modelConfig := mkModel { Aliases : list string; ConcurrencyLimit : Z }.

Record config := mkConfig {
  Models : gmap string modelConfig; Tiers : gmap string Z; DecodeRetentionSeconds : Z;
}.

(** What one build folds.  [LoopNow] is the clock of the loop tracker. *)
Record sessionsInput := mkInput {
  Now : Z;
  Running : gmap string ProcessState;
  Requests : list Inflight.InflightRequestEntry;
  Slots : gmap string (list childSlot);
  Hot : gmap string (list SlotAffinity.HotSlot);
  i_SlotWarmUntil : gmap string string;
  LoopNow : Z;
}.

Record phaseMark := mkPhase { m_phase : string; m_since : Z }.
Record rateSample := mkSample { s_at : Z; s_request : string; s_kind : string; s_processed : Z; s_decoded : Z }.
Record idleMark := mkIdle { i_since : Z; i_entry : sessionEntry }.
Record decodeReadout := mkReadout { ro_used : Z; ro_rate : sessionRate }.

(** The memory between builds.  [lastRate] is keyed by session and kind (the code
    joins the two with a NUL, which no id contains). *)
Record sessionsBuilder := mkBuilder {
  phases : gmap string phaseMark;
  rates : gmap string (list rateSample);
  known : gmap string sessionEntry;
  idle : gmap string idleMark;
  slotWarmUntil : gmap string string;
  lastDecode : gmap string Z;
  lastDecodeReadout : gmap string decodeReadout;
  lastUsed : gmap string Z;
  lastRate : gmap (string * string) sessionRate;
}.

#[export] Instance builder_fields : Fields sessionsBuilder :=
  fun b => mkBuilder (phases b) (rates b) (known b) (idle b) (slotWarmUntil b) (lastDecode b) (lastDecodeReadout b)
    (lastUsed b) (lastRate b).

Definition newSessionsBuilder : sessionsBuilder := mkBuilder ∅ ∅ ∅ ∅ ∅ ∅ ∅ ∅ ∅.

Definition rateMeasured (r : sessionRate) : bool :=
  bool_decide (is_Some (Kind r)) && bool_decide (is_Some (TokensPerSecond r)).

Definition get (m : gmap string string) (k : string) : string := default "" (m !! k).

Definition shortOf (s : string) : string := if (8 <? String.length s)%nat then String.substring 0 8 s else s.

(** [math.Round]: to the nearest integer, halves away from zero. *)
Definition math_round (x : float64) : float64 :=
  match x with
  | S754_finite s m e =>
    if 0 <=? e then x
    else
      let n := (Z.pos m + 2 ^ (- e - 1)) / 2 ^ (- e) in
      binary_normalize 53 1024 (if s then - n else n) 0 s
  | _ => x
  end.

(** [round]; [math.Pow(10, places)] is exact for the places used. *)
Definition round (v : float64) (places : Z) : float64 :=
  let p := of_int (10 ^ places) in fdiv (math_round (fmul v p)) p.

Definition residentStateName (st : ProcessState) : string :=
  match st with
  | StateReady => "ready" | StateStarting => "loading" | StateStopping => "stopping"
  | StateStopped => "stopped" | StateShutdown => "shutdown"
  end.

Definition resident_rank (st : ProcessState) : option Z :=
  match st with StateReady => Some 0 | StateStarting => Some 1 | StateStopping => Some 2 | _ => None end.

Definition pick_step (best : option (string * ProcessState * Z)) (kv : string * ProcessState) : option (string * ProcessState * Z) :=
  let '(id, st) := kv in
  match resident_rank st with
  | None => best
  | Some r =>
    match best with
    | None => if r <? 99 then Some (id, st, r) else None
    | Some (bid, _, brank) =>
      if (r <? brank) || (r =? brank) && String.ltb id bid then Some (id, st, r) else best
    end
  end.

(** In the order in which the map is ranged over. *)
Definition pickResident (running : list (string * ProcessState)) : option (string * ProcessState) :=
  match foldl pick_step None running with Some (id, st, _) => Some (id, st) | None => None end.

Definition window (input : sessionsInput) (model : string) : Z :=
  match find (fun sl => 0 <? NCtx sl) (default [] (Slots input !! model)) with Some sl => NCtx sl | None => 0 end.

Definition findSlot (slots : list childSlot) (id : Z) : option childSlot := find (fun sl => cs_ID sl =? id) slots.

Definition requestRank (m : gmap string string) : Z :=
  if String.eqb (get m "slot_granted") "1" && negb (String.eqb (get m "kv_parked") "1") then 0 else 1.

Definition slotAffinityMetadataKey : string := "slot_affinity".

(** The slot a request names, and whom the model's slots belong to. *)
Definition slot_string (m : gmap string string) : string :=
  if String.eqb (get m "slot_id") "" then get m slotAffinityMetadataKey else get m "slot_id".

Definition slot_key (model slot : string) : string := model +:+ "/" +:+ slot.

Definition request_key (r : Inflight.InflightRequestEntry) : string :=
  let sid := get (Inflight.meta r) "session_id" in
  if String.eqb sid "" then "req:" +:+ Inflight.ID r else sid.

Definition model_ready (input : sessionsInput) (model : string) : bool :=
  bool_decide (Running input !! model = Some StateReady).

(** [max 0 (d.Milliseconds())] *)
Definition elapsed_ms (now t : Z) : Z := Z.max 0 (Z.quot (time_sub now t) 1000000).

(** [d.Round(time.Second)] in seconds, of a positive duration. *)
Definition round_seconds (d : Z) : Z := (d + nsec_second / 2) / nsec_second.

Section builder.
Variable cfg : config.

Definition decodeWindow : Z :=
  if 0 <? DecodeRetentionSeconds cfg then DecodeRetentionSeconds cfg * nsec_second
  else if DecodeRetentionSeconds cfg <? 0 then sessionsDecodeRetention
  else 0.

Definition alias (model : string) : string :=
  match Models cfg !! model with Some mc => default "" (head (Aliases mc)) | None => "" end.

Definition tierRank (tier : string) : Z := get0 (Tiers cfg) tier.

(** ** Rows *)

Definition baseRow (model sessionID tier : string) : sessionEntry :=
  let tier := if String.eqb tier "" then Tier.Name Tier.DefaultTier else tier in
  mkSession sessionID (shortOf sessionID) None model (alias model) tier (tierRank tier) "" None None
    (mkContext 0 0 0 0 0 0) None (mkRate None None) 0 0 0 "" "" "" false 0 None None None.

(** Whether a request bound to a slot reads its counters. *)
Definition may_read (slotOwner : gmap string string) (r : Inflight.InflightRequestEntry) : bool :=
  match slotOwner !! slot_key (Inflight.Model r) (slot_string (Inflight.meta r)) with
  | Some owner => String.eqb owner (request_key r)
  | None => true
  end.

(** The counters of a slot that works on the request of the row. *)
Definition read_slot (c : sessionContext) (sl : childSlot) : sessionContext :=
  let w := if 0 <? NCtx sl then NCtx sl else Window c in
  if IsProcessing sl
  then mkContext (Used c) (NPromptTokensCache sl) (NPromptTokensProcessed sl) (NDecoded sl) (NPromptTokens sl) w
  else c <| Window ::= w |>.

(** The slot the request names, and its counters if they are the request's. *)
Definition bind_slot (input : sessionsInput) (r : Inflight.InflightRequestEntry) (slotOwner : gmap string string)
  (row : sessionEntry) : sessionEntry :=
  match SlotAffinity.Atoi (slot_string (Inflight.meta r)) with
  | None => row
  | Some n =>
    let row := row <| Slot ::= Some n |> in
    match findSlot (default [] (Slots input !! Inflight.Model r)) n with
    | Some sl => if may_read slotOwner r then row <| Context ::= read_slot (Context row) sl |> else row
    | None => row
    end
  end.

(** The estimate of the whole prompt, until the child's count has passed it. *)
Definition with_estimate (m : gmap string string) (c : sessionContext) : sessionContext :=
  match SlotAffinity.Atoi (get m "est_tokens") with
  | Some est => if PromptTotal c <? est then c <| PromptTotal ::= est |> else c
  | None => c
  end.

Definition progress (c : sessionContext) : float64 :=
  let p := round (fdiv (of_int (Cached c + Processed c)) (of_int (PromptTotal c))) 4 in
  if fltb (of_int 1) p then of_int 1 else p.

(** A request on a slot of a ready model. *)
Definition admittedRow (input : sessionsInput) (r : Inflight.InflightRequestEntry) (slotOwner : gmap string string)
  (row : sessionEntry) : sessionEntry :=
  let row := bind_slot input r slotOwner (row <| Phase ::= phasePrefill |>) in
  let c := with_estimate (Inflight.meta r) (Context row) in
  let c := c <| Used ::= Cached c + Processed c + Decoded c |> in
  let row := row <| Context ::= c |> in
  if 0 <? Decoded c then row <| Phase ::= phaseDecode |>
  else if 0 <? PromptTotal c then row <| Progress ::= Some (progress c) |>
  else row.

Definition parkedRow (m : gmap string string) (row : sessionEntry) : sessionEntry :=
  let reason := get m "park_reason" in
  let reason := if String.eqb reason "" && String.eqb (get m "kv_parked") "1" then "kv" else reason in
  row <| Phase ::= phaseParked |>
      <| ParkReason ::= if String.eqb reason "" then None else Some reason |>
      <| WaitingFor ::= Some (mkWaiting (get m "waiting_for_session") (get m "waiting_for_until")) |>.

(** What a row shows of its request whatever its phase. *)
Definition arrivedRow (input : sessionsInput) (r : Inflight.InflightRequestEntry) : sessionEntry :=
  let m := Inflight.meta r in
  let row := baseRow (Inflight.Model r) (get m "session_id") (get m "tier") in
  let pid := get m "parent_session_id" in
  row <| RequestID ::= Some (Inflight.ID r) |>
      <| SessionShort ::= if String.eqb (SessionShort row) "" then shortOf (Inflight.ID r) else SessionShort row |>
      <| ElapsedMs ::= elapsed_ms (Now input) (Inflight.Timestamp r) |>
      <| RespTokens ::= Inflight.RespTokens r |>
      <| Context ::= Context row <| Window ::= window input (Inflight.Model r) |> |>
      <| ParentSessionId ::= pid |>
      <| ParentSessionShort ::= shortOf pid |>.

Definition requestRow (input : sessionsInput) (r : Inflight.InflightRequestEntry) (slotOwner : gmap string string) : sessionEntry :=
  let row := arrivedRow input r in
  if negb (requestRank (Inflight.meta r) =? 0) then parkedRow (Inflight.meta r) row
  else if negb (model_ready input (Inflight.Model r)) then row <| Phase ::= phaseLoading |>
  else admittedRow input r slotOwner row.

Definition hotRow (input : sessionsInput) (prev : option sessionEntry) (model : string) (h : SlotAffinity.HotSlot)
  (copyPrompt : bool) : sessionEntry :=
  let row := baseRow model (SlotAffinity.hs_SessionID h) (match prev with Some p => Tier p | None => "" end) in
  let row := match prev with
             | Some p => row <| ParentSessionId ::= ParentSessionId p |> <| ParentSessionShort ::= ParentSessionShort p |>
             | None => row
             end in
  let row := row <| Phase ::= phaseHot |> <| Slot ::= Some (SlotAffinity.hs_Slot h) |>
                 <| PhaseSinceMs ::= SlotAffinity.IdleSeconds h * 1000 |> in
  let c := Context row <| Window ::= window input model |> in
  match findSlot (default [] (Slots input !! model)) (SlotAffinity.hs_Slot h) with
  | None => row <| Context ::= c |>
  | Some sl =>
    let c := if 0 <? NCtx sl then c <| Window ::= NCtx sl |> else c in
    row <| Context ::= if copyPrompt
                       then c <| Cached ::= NPromptTokens sl |> <| PromptTotal ::= NPromptTokens sl |>
                              <| Used ::= NPromptTokens sl |>
                       else c |>
  end.

Definition idleRow (input : sessionsInput) (m : idleMark) : sessionEntry :=
  let e := i_entry m in
  let row := baseRow (Model e) (SessionID e) (Tier e) in
  row <| ParentSessionId ::= ParentSessionId e |> <| ParentSessionShort ::= ParentSessionShort e |>
      <| Phase ::= phaseIdle |>
      <| PhaseSinceMs ::= Z.quot (time_sub (Now input) (i_since m)) 1000000 |>
      <| Context ::= Context row <| Window ::= window input (Model e) |> |>.

(** ** Stamps *)

(** The sessions with a request that is parked by the loop guard. *)
Definition heldNow (input : sessionsInput) : gset string :=
  foldl (fun held r =>
    let m := Inflight.meta r in
    if negb (String.eqb (get m "session_id") "") && String.eqb (get m "park_reason") "penalized"
    then {[get m "session_id"]} ∪ held else held) ∅ (Requests input).

(** The loop tracker is threaded: reading a penalty ends a hold whose time is up.
    The events this gives its observer are left out. *)
Definition sessionPenalized (input : sessionsInput) (l : option LoopTrack.LoopTracker) (sessionID : string) :
  bool * option LoopTrack.LoopTracker :=
  if bool_decide (l = None) || String.eqb sessionID "" then (false, l)
  else let '(p, l, _) := LoopTrack.Penalty l (LoopNow input) sessionID in (bool_decide (is_Some p), l).

Definition remaining_seconds (input : sessionsInput) (p : LoopTrack.PenaltyState) : option Z :=
  if LoopTrack.ps_HeldForever p then None
  else
    let d := time_sub (LoopTrack.ps_Until p) (Now input) in
    Some (if negb (is_zero_time (LoopTrack.ps_Until p)) && (0 <? d) then round_seconds d else 0).

Definition applyLoopState (input : sessionsInput) (l : option LoopTrack.LoopTracker) (row : sessionEntry)
  (held : gset string) : sessionEntry * option LoopTrack.LoopTracker :=
  if bool_decide (l = None) || String.eqb (SessionID row) "" then (row, l)
  else
    let row := row <| UniformRun ::= LoopTrack.Run l (SessionID row) |>
                   <| Looping ::= LoopTrack.Looping l (SessionID row) |> in
    let '(p, l, _) := LoopTrack.Penalty l (LoopNow input) (SessionID row) in
    match p with
    | None => (row, l)
    | Some p =>
      let h := bool_decide (SessionID row ∈ held) in
      let row := row <| Penalty ::= Some (mkPenalty (LoopTrack.ps_Reason p) (LoopTrack.ps_Strike p)
                          (LoopTrack.ps_Strikes p) (remaining_seconds input p) (LoopTrack.ps_UniformRun p)
                          (LoopTrack.ps_TypicalTokens p) h) |> in
      (if h then row <| Phase ::= phasePenalized |> <| ParkReason ::= None |> else row, l)
    end.

Definition stampPhaseSince (b : sessionsBuilder) (key : string) (row : sessionEntry) (now arrival : Z) :
  sessionsBuilder * sessionEntry :=
  let mark := match phases b !! key with
              | None => mkPhase (Phase row) arrival
              | Some mark => if String.eqb (m_phase mark) (Phase row) then mark else mkPhase (Phase row) now
              end in
  let b := b <| phases ::= <[key := mark]> (phases b) |> in
  let row := row <| PhaseSinceMs ::= elapsed_ms now (m_since mark) |> in
  (if String.eqb (Phase row) phaseDecode then b <| lastDecode ::= <[key := now]> (lastDecode b) |> else b, row).

(** *** The rate *)

Definition rate_kind (row : sessionEntry) : option string :=
  if String.eqb (Phase row) phasePrefill then Some "prefill"
  else if String.eqb (Phase row) phaseDecode then Some "decode"
  else None.

(** The samples kept before [s] is appended. *)
Definition continue_hist (hist : list rateSample) (s : rateSample) : list rateSample :=
  match last hist with
  | None => hist
  | Some p =>
    if negb (String.eqb (s_request p) (s_request s)) || negb (String.eqb (s_kind p) (s_kind s)) ||
       (s_processed s <? s_processed p) || (s_decoded s <? s_decoded p)
    then []
    else if negb (after (s_at s) (s_at p)) then removelast hist
    else hist
  end.

Fixpoint trim_more (cutoff : Z) (hist : list rateSample) : list rateSample :=
  match hist with
  | x :: ((_ :: _ :: _) as rest) => if before (s_at x) cutoff then trim_more cutoff rest else hist
  | _ => hist
  end.

Definition trim_hist (cutoff : Z) (hist : list rateSample) : list rateSample :=
  match trim_more cutoff hist with
  | x :: ((_ :: _) as rest) => if before (s_at x) cutoff then rest else x :: rest
  | hist => hist
  end.

(** The rate over the samples of the window, the last of which is [s]. *)
Definition rate_of (hist : list rateSample) (s : rateSample) (kind : string) : option float64 :=
  match hist with
  | first :: _ :: _ =>
    let dt := seconds (time_sub (s_at s) (s_at first)) in
    if fleb dt (of_int 0) then None
    else
      let delta := if String.eqb kind "decode" then s_decoded s - s_decoded first else s_processed s - s_processed first in
      Some (round (fdiv (of_int delta) dt) 1)
  | _ => None
  end.

Definition stampRate (b : sessionsBuilder) (key : string) (row : sessionEntry) (now : Z)
  (r : Inflight.InflightRequestEntry) : sessionsBuilder * sessionEntry :=
  let forget := (b <| rates ::= delete key (rates b) |>, row) in
  match rate_kind row with
  | None => forget
  | Some kind =>
    if bool_decide (Slot row = None) || (PromptTotal (Context row) =? 0) && (Decoded (Context row) =? 0) then forget
    else
      let s := mkSample now (Inflight.ID r) kind (Processed (Context row)) (Decoded (Context row)) in
      let hist := trim_hist (now - sessionsRateWindow) (continue_hist (default [] (rates b !! key)) s ++ [s]) in
      (b <| rates ::= <[key := hist]> (rates b) |>, row <| Rate ::= mkRate (Some kind) (rate_of hist s kind) |>)
  end.

(** *** What a menu shows *)

Definition stampDecodeReadout (b : sessionsBuilder) (key : string) (row : sessionEntry) : sessionsBuilder :=
  if String.eqb (SessionID row) "" || negb (String.eqb (Phase row) phaseDecode) then b
  else
    let rate := if rateMeasured (Rate row) then Rate row
                else match lastDecodeReadout b !! key with
                     | Some prev => if rateMeasured (ro_rate prev) then ro_rate prev else Rate row
                     | None => Rate row
                     end in
    b <| lastDecodeReadout ::= <[key := mkReadout (Used (Context row)) rate]> (lastDecodeReadout b) |>.

Definition stampSlotWarmUntil (b : sessionsBuilder) (row : sessionEntry) : sessionEntry :=
  let v := get (slotWarmUntil b) (SessionID row) in
  if String.eqb v "" then row else row <| SlotWarmUntil ::= v |>.

(** The phases whose row keeps showing DECODE for a while. *)
Definition retained_phase (p : string) : bool :=
  String.eqb p phasePrefill || String.eqb p phaseIdle || String.eqb p phaseParked || String.eqb p phaseHot.

Definition stampDecodeDisplay (b : sessionsBuilder) (key : string) (row : sessionEntry) (now : Z) : sessionEntry :=
  if String.eqb (SessionID row) "" || bool_decide (Display row <> None) then row
  else if decodeWindow <=? 0 then row
  else if String.eqb (Phase row) phaseDecode then
    if rateMeasured (Rate row) || bool_decide (Penalty row <> None) then row
    else match lastDecodeReadout b !! key with
         | Some snap =>
           if rateMeasured (ro_rate snap)
           then row <| Display ::= Some (mkDisplay phaseDecode (Some (Used (Context row))) (Some (ro_rate snap))) |>
           else row
         | None => row
         end
  else if negb (retained_phase (Phase row)) || bool_decide (Penalty row <> None) then row
  else match lastDecode b !! key, lastDecodeReadout b !! key with
       | Some at_, Some snap =>
         if decodeWindow <=? time_sub now at_ then row
         else row <| Display ::= Some (mkDisplay phaseDecode (Some (ro_used snap))
                       (if rateMeasured (ro_rate snap) then Some (ro_rate snap) else None)) |>
       | _, _ => row
       end.

Definition is_zero_rate (r : sessionRate) : bool :=
  match TokensPerSecond r with Some v => SFeqb v (of_int 0) | None => false end.

Definition positive_rate (r : sessionRate) : bool :=
  match TokensPerSecond r with Some v => fltb (of_int 0) v | None => false end.

(** What [ensure] leaves in [Display]. *)
Definition ensured (row : sessionEntry) : sessionDisplay := default (mkDisplay (Phase row) None None) (Display row).

Definition shown_used (row : sessionEntry) : Z :=
  match Display row with
  | Some d => default (Used (Context row)) (ContextUsed d)
  | None => Used (Context row)
  end.

Definition shown_rate (row : sessionEntry) : sessionRate :=
  match Display row with Some d => default (Rate row) (d_Rate d) | None => Rate row end.

#[export] Instance display_fields : Fields sessionDisplay := fun d => mkDisplay (d_Phase d) (ContextUsed d) (d_Rate d).

(** The memory of [stampNoZero]. *)
Definition remember_nonzero (b : sessionsBuilder) (key : string) (row : sessionEntry) : sessionsBuilder :=
  let b := if 0 <? Used (Context row) then b <| lastUsed ::= <[key := Used (Context row)]> (lastUsed b) |> else b in
  if rateMeasured (Rate row) && positive_rate (Rate row)
  then b <| lastRate ::= <[(key, default "" (Kind (Rate row))) := Rate row]> (lastRate b) |> else b.

Definition stampNoZero (b : sessionsBuilder) (key : string) (row : sessionEntry) : sessionsBuilder * sessionEntry :=
  if String.eqb (SessionID row) "" then (b, row)
  else
    let b := remember_nonzero b key row in
    let row := match lastUsed b !! key with
               | Some v => if shown_used row =? 0 then row <| Display ::= Some (ensured row <| ContextUsed ::= Some v |>) |> else row
               | None => row
               end in
    let shown := shown_rate row in
    let row :=
      if is_zero_rate shown then
        let repl := match Kind shown with
                    | Some k => default (mkRate (Kind shown) None) (lastRate b !! (key, k))
                    | None => mkRate None None
                    end in
        row <| Display ::= Some (ensured row <| d_Rate ::= Some repl |>) |>
      else row in
    (b, row).

End builder.
End SessionRows.
