(* ===== verification/Sessions.v ===== *)
(** The session table ([internal/server/sessions.go]): one build folds the
    requests in flight, the hot slots and the memory of the builds before into the
    rows that every menu renders, and the throttle that pushes them.

    Go ranges over maps in any order: [range] gives that order, for each map. *)

From S2P Require Import Prelude RecordSet Float64 Tier SchedTypes LoopTrack SlotAffinity Inflight SessionRows.
From stdpp Require Import pretty.

Module Sessions.
Import Float64 Sched SessionRows.
Open Scope string_scope.
Open Scope list_scope.
Open Scope Z_scope.

Record sessionsResident := mkResident { r_Model : string; r_Alias : string; r_State : string; r_Window : Z; r_Slots : Z }.

Record sessionsQueue := mkQueue { Waiting : Z; ByTier : gmap string Z }.

(** The moment of the build, the cooldown and the state of the memory brake are
    passed through and left out. *)
Record sessionsBody := mkBody { Resident : option sessionsResident; Queue : sessionsQueue; Sessions : list sessionEntry }.

(** ** The order of the rows *)

Definition shownPhase (row : sessionEntry) : string :=
  match Display row with
  | Some d => if String.eqb (d_Phase d) "" then Phase row else d_Phase d
  | None => Phase row
  end.

Definition phaseSortRank (phase : string) : Z :=
  if String.eqb phase phaseDecode then 0
  else if String.eqb phase phasePrefill || String.eqb phase phaseLoading then 1
  else if String.eqb phase phaseParked then 2
  else if String.eqb phase phasePenalized then 3
  else if String.eqb phase phaseHot then 4
  else if String.eqb phase phaseIdle then 5
  else 6.

Definition row_less (a c : sessionEntry) : bool :=
  let ra := phaseSortRank (shownPhase a) in
  let rc := phaseSortRank (shownPhase c) in
  if negb (ra =? rc) then ra <? rc
  else if negb (Priority a =? Priority c) then Priority c <? Priority a
  else if negb (ElapsedMs a =? ElapsedMs c) then ElapsedMs c <? ElapsedMs a
  else String.ltb (SessionShort a) (SessionShort c).

(** [sort.SliceStable]: a row goes behind the rows that are less. *)
Fixpoint insert_row (x : sessionEntry) (l : list sessionEntry) : list sessionEntry :=
  match l with
  | [] => [x]
  | y :: l => if row_less y x then y :: insert_row x l else x :: y :: l
  end.

Definition sort_rows (l : list sessionEntry) : list sessionEntry := foldr insert_row [] l.

Section build.
Variable cfg : config.
Variable range : forall A : Type, gmap string A -> list (string * A).

(** ** The requests *)

(** The request that represents each key, and the keys in the order seen. *)
Definition choose_step (acc : gmap string Inflight.InflightRequestEntry * list string) (r : Inflight.InflightRequestEntry) :
  gmap string Inflight.InflightRequestEntry * list string :=
  let '(chosen, order) := acc in
  let key := request_key r in
  match chosen !! key with
  | None => (<[key := r]> chosen, order ++ [key])
  | Some cur =>
    let ra := requestRank (Inflight.meta r) in
    let rb := requestRank (Inflight.meta cur) in
    if (ra <? rb) || (ra =? rb) && before (Inflight.Timestamp r) (Inflight.Timestamp cur)
    then (<[key := r]> chosen, order) else (chosen, order)
  end.

Definition choose (requests : list Inflight.InflightRequestEntry) : list (string * Inflight.InflightRequestEntry) :=
  let '(chosen, order) := foldl choose_step (∅, []) requests in
  omap (fun key => (fun r => (key, r)) <$> chosen !! key) order.

Definition is_admitted (input : sessionsInput) (r : Inflight.InflightRequestEntry) : bool :=
  (requestRank (Inflight.meta r) =? 0) && model_ready input (Inflight.Model r).

Definition admitted (input : sessionsInput) (rows : list (string * Inflight.InflightRequestEntry)) : gmap string (list string) :=
  foldl (fun m kr => if is_admitted input kr.2
                     then <[Inflight.Model kr.2 := default [] (m !! Inflight.Model kr.2) ++ [kr.1]]> m else m) ∅ rows.

(** The only admitted session of a model with one slot is on that slot. *)
Definition bind_lane (input : sessionsInput) (adm : gmap string (list string)) (kr : string * Inflight.InflightRequestEntry) :
  string * Inflight.InflightRequestEntry :=
  let '(key, r) := kr in
  let m := Inflight.meta r in
  match adm !! Inflight.Model r, Slots input !! Inflight.Model r with
  | Some [k], Some [sl] =>
    if String.eqb k key && String.eqb (get m "slot_id") "" && String.eqb (get m slotAffinityMetadataKey) ""
    then (key, Inflight.set_metadata r (Some (<["slot_id" := pretty (cs_ID sl)]> m)))
    else kr
  | _, _ => kr
  end.

(** Whom each slot belongs to: nobody when two admitted requests name it. *)
Definition owner_step (input : sessionsInput) (owners : gmap string string) (kr : string * Inflight.InflightRequestEntry) : gmap string string :=
  let '(key, r) := kr in
  if negb (is_admitted input r) then owners
  else
    let slotStr := slot_string (Inflight.meta r) in
    match SlotAffinity.Atoi slotStr with
    | None => owners
    | Some _ =>
      let ms := slot_key (Inflight.Model r) slotStr in
      match owners !! ms with
      | Some prev => if String.eqb prev "" then owners else <[ms := ""]> owners
      | None => <[ms := key]> owners
      end
    end.

Definition slot_owners (input : sessionsInput) (rows : list (string * Inflight.InflightRequestEntry)) : gmap string string :=
  foldl (owner_step input) ∅ rows.

(** ** The rows *)

Record building := mkBuilding {
  b_builder : sessionsBuilder; b_loops : option LoopTrack.LoopTracker; b_present : gset string; b_rows : list sessionEntry;
}.

(** The stamps of a request's row, in the order of the code. *)
Definition stamp_request (input : sessionsInput) (held : gset string) (b : sessionsBuilder) (l : option LoopTrack.LoopTracker)
  (key : string) (r : Inflight.InflightRequestEntry) (row : sessionEntry) :
  sessionsBuilder * option LoopTrack.LoopTracker * sessionEntry :=
  let '(row, l) := applyLoopState input l row held in
  let '(b, row) := stampPhaseSince b key row (Now input) (Inflight.Timestamp r) in
  let '(b, row) := stampRate b key row (Now input) r in
  let b := stampDecodeReadout b key row in
  let row := stampSlotWarmUntil b row in
  let row := stampDecodeDisplay cfg b key row (Now input) in
  let '(b, row) := stampNoZero b key row in
  (b, l, row).

(** The stamps of a row without a request. *)
Definition stamp_rest (input : sessionsInput) (held : gset string) (b : sessionsBuilder) (l : option LoopTrack.LoopTracker)
  (key : string) (row : sessionEntry) : sessionsBuilder * option LoopTrack.LoopTracker * sessionEntry :=
  let '(row, l) := applyLoopState input l row held in
  let row := stampSlotWarmUntil b row in
  let row := stampDecodeDisplay cfg b key row (Now input) in
  let '(b, row) := stampNoZero b key row in
  (b, l, row).

Definition request_step (input : sessionsInput) (held : gset string) (owners : gmap string string) (s : building)
  (kr : string * Inflight.InflightRequestEntry) : building :=
  let '(key, r) := kr in
  let '(b, l, row) := stamp_request input held (b_builder s) (b_loops s) key r (requestRow cfg input r owners) in
  mkBuilding b l ({[key]} ∪ b_present s) (b_rows s ++ [row]).

Definition hot_step (input : sessionsInput) (held : gset string) (owners : gmap string string) (model : string)
  (s : building) (h : SlotAffinity.HotSlot) : building :=
  let key := SlotAffinity.hs_SessionID h in
  if String.eqb key "" || bool_decide (key ∈ b_present s) then s
  else
    let hotOwner := bool_decide (owners !! slot_key model (pretty (SlotAffinity.hs_Slot h)) = None) in
    let row := hotRow cfg input (known (b_builder s) !! key) model h hotOwner in
    let b := b_builder s <| phases ::= delete key (phases (b_builder s)) |> <| rates ::= delete key (rates (b_builder s)) |> in
    let '(b, l, row) := stamp_rest input held b (b_loops s) key row in
    mkBuilding b l ({[key]} ∪ b_present s) (b_rows s ++ [row]).

Definition hot_model_step (input : sessionsInput) (held : gset string) (owners : gmap string string) (s : building)
  (mh : string * list SlotAffinity.HotSlot) : building := foldl (hot_step input held owners mh.1) s mh.2.

(** The sessions known from the last build that hold nothing any more start to
    idle; the rows of this build are known and do not idle. *)
Definition start_idle (now : Z) (present : gset string) (idle : gmap string idleMark) (ke : string * sessionEntry) : gmap string idleMark :=
  if bool_decide (ke.1 ∈ present) || bool_decide (is_Some (idle !! ke.1)) then idle
  else <[ke.1 := mkIdle now ke.2]> idle.

Definition know_row (b : sessionsBuilder) (row : sessionEntry) : sessionsBuilder :=
  if String.eqb (SessionID row) "" then b
  else b <| known ::= <[SessionID row := row]> (known b) |> <| idle ::= delete (SessionID row) (idle b) |>.

Definition remember_rows (input : sessionsInput) (s : building) : sessionsBuilder :=
  let b := b_builder s in
  let b := b <| idle ::= foldl (start_idle (Now input) (b_present s)) (idle b) (range _ (known b)) |> in
  foldl know_row (b <| known ::= ∅ |>) (b_rows s).

Definition idle_step (input : sessionsInput) (held : gset string) (s : building) (km : string * idleMark) : building :=
  let '(key, m) := km in
  let b := b_builder s in
  let '(gone, l) :=
    if sessionsIdleRetention <=? time_sub (Now input) (i_since m)
    then let '(p, l) := sessionPenalized input (b_loops s) key in (negb p, l)
    else (false, b_loops s) in
  if gone then mkBuilding (b <| idle ::= delete key (idle b) |>) l (b_present s) (b_rows s)
  else
    let '(b, l, row) := stamp_rest input held b l key (idleRow cfg input m) in
    mkBuilding b l (b_present s) (b_rows s ++ [row]).

(** What is known of rows that are gone is dropped. *)
Definition listed (rows : list sessionEntry) : gset string :=
  list_to_set (List.filter (fun sid => negb (String.eqb sid "")) (SessionID <$> rows)).

Definition decode_expired (now : Z) (at_ : Z) : bool :=
  (decodeWindow cfg <=? 0) || (decodeWindow cfg + sessionsIdleRetention <=? time_sub now at_).

Definition forget_gone (input : sessionsInput) (s : building) : sessionsBuilder :=
  let b := b_builder s in
  let has := listed (b_rows s) in
  let keep := filter (fun kv : string * Z => kv.1 ∈ has /\ decode_expired (Now input) kv.2 = false) (lastDecode b) in
  b <| phases ::= filter (fun kv => kv.1 ∈ b_present s) (phases b) |>
    <| rates ::= filter (fun kv => kv.1 ∈ b_present s) (rates b) |>
    <| lastDecode ::= keep |>
    <| lastDecodeReadout ::= filter (fun kv => lastDecode b !! kv.1 = None \/ is_Some (keep !! kv.1)) (lastDecodeReadout b) |>
    <| lastUsed ::= filter (fun kv => kv.1 ∈ has) (lastUsed b) |>
    <| lastRate ::= filter (fun kv => kv.1.1 ∈ has) (lastRate b) |>.

Definition count_parked (q : sessionsQueue) (row : sessionEntry) : sessionsQueue :=
  if String.eqb (Phase row) phaseParked
  then mkQueue (Waiting q + 1) (<[Tier row := get0 (ByTier q) (Tier row) + 1]> (ByTier q)) else q.

Definition empty_queue : sessionsQueue :=
  mkQueue 0 (foldl (fun m name => <[name := 0]> m) {[ Tier.Name Tier.DefaultTier := 0 ]} (range _ (Tiers cfg)).*1).

Definition resident (input : sessionsInput) : option sessionsResident :=
  match pickResident (range _ (Running input)) with
  | None => None
  | Some (id, st) =>
    let n := match Models cfg !! id with Some mc => ConcurrencyLimit mc | None => 0 end in
    let n := if n <=? 0 then Z.of_nat (length (default [] (Slots input !! id))) else n in
    Some (mkResident id (alias cfg id) (residentStateName st) (window input id) n)
  end.

(** The rows of the requests and hot slots. *)
Definition live_rows (b : sessionsBuilder) (l : option LoopTrack.LoopTracker) (input : sessionsInput) : building :=
  let b := b <| slotWarmUntil ::= i_SlotWarmUntil input |> in
  let held := heldNow input in
  let chosen := choose (Requests input) in
  let chosen := bind_lane input (admitted input chosen) <$> chosen in
  let owners := slot_owners input chosen in
  let s := foldl (request_step input held owners) (mkBuilding b l ∅ []) chosen in
  foldl (hot_model_step input held owners) s (range _ (Hot input)).

(** All rows, before they are sorted. *)
Definition all_rows (b : sessionsBuilder) (l : option LoopTrack.LoopTracker) (input : sessionsInput) : building :=
  let s := live_rows b l input in
  let b := remember_rows input s in
  foldl (idle_step input (heldNow input)) (mkBuilding b (b_loops s) (b_present s) (b_rows s)) (range _ (idle b)).

Definition build (b : sessionsBuilder) (l : option LoopTrack.LoopTracker) (input : sessionsInput) :
  sessionsBuilder * option LoopTrack.LoopTracker * sessionsBody :=
  let s := all_rows b l input in
  (forget_gone input s, b_loops s,
   mkBody (resident input) (foldl count_parked empty_queue (b_rows s)) (sort_rows (b_rows s))).

End build.

(** ** The throttle; [key] is the body without its moment, as JSON *)

Record sessionsThrottle := mkThrottle { minInterval : Z; lastAt : Z; lastKey : string; sent : bool }.

Definition offer (t : sessionsThrottle) (now : Z) (key : string) : sessionsThrottle * bool :=
  if sent t && String.eqb key (lastKey t) then (t, false)
  else if sent t && (time_sub now (lastAt t) <? minInterval t) then (t, false)
  else (mkThrottle (minInterval t) now key true, true).

End Sessions.
