(* ===== verification/SessionsBase.v ===== *)
(** What the stamps of Sessions.v leave alone, and the induction over one build
    that the properties of the session table rest on. *)

From S2P Require Import Prelude RecordSet Float64 Tier SchedTypes LoopTrack SlotAffinity Inflight SessionRows Sessions.
From stdpp Require Import pretty.

Module SessionsBase.
Import Float64 Sched SessionRows Sessions.
Open Scope string_scope.
Open Scope list_scope.
Open Scope Z_scope.

Lemma filterb_perm {A} (f : A -> bool) (l k : list A) : l ≡ₚ k -> List.filter f l ≡ₚ List.filter f k.
Proof.
  induction 1 as [|x l k H IH|x y l|l1 l2 l3 _ IH1 _ IH2]; simpl; [done| | |by etrans].
  - destruct (f x); [by constructor|done].
  - destruct (f x), (f y); try done. apply Permutation_swap.
Qed.

(** What no stamp of a row changes. *)
Definition core (row : sessionEntry) :=
  (SessionID row, SessionShort row, RequestID row, Model row, Alias row, Tier row, Priority row, Slot row, Context row,
   ElapsedMs row, RespTokens row, (ParentSessionId row, ParentSessionShort row, WaitingFor row, Progress row)).

Ltac row_cases :=
  repeat match goal with
  | |- context [match ?x with _ => _ end] => destruct x eqn:?
  end; try done.

Lemma applyLoopState_core input l row held : core (applyLoopState input l row held).1 = core row.
Proof. unfold applyLoopState. row_cases. Qed.

Lemma stampPhaseSince_core b key row now arrival : core (stampPhaseSince b key row now arrival).2 = core row.
Proof. unfold stampPhaseSince. row_cases. Qed.

Lemma stampRate_core b key row now r : core (stampRate b key row now r).2 = core row.
Proof. unfold stampRate. row_cases. Qed.

Lemma stampSlotWarmUntil_core b row : core (stampSlotWarmUntil b row) = core row.
Proof. unfold stampSlotWarmUntil. row_cases. Qed.

Lemma stampDecodeDisplay_core cfg b key row now : core (stampDecodeDisplay cfg b key row now) = core row.
Proof. unfold stampDecodeDisplay. row_cases. Qed.

Lemma stampNoZero_core b key row : core (stampNoZero b key row).2 = core row.
Proof. unfold stampNoZero. row_cases. Qed.

Lemma stamp_request_core cfg input held b l key r row :
  core (stamp_request cfg input held b l key r row).2 = core row.
Proof.
  unfold stamp_request.
  pose proof (applyLoopState_core input l row held). destruct (applyLoopState _ _ _ _) as [row1 l1].
  pose proof (stampPhaseSince_core b key row1 (Now input) (Inflight.Timestamp r)).
  destruct (stampPhaseSince _ _ _ _ _) as [b2 row2].
  pose proof (stampRate_core b2 key row2 (Now input) r). destruct (stampRate _ _ _ _ _) as [b3 row3].
  match goal with |- context [stampNoZero ?b ?k ?row] => pose proof (stampNoZero_core b k row) as Hz; destruct (stampNoZero b k row) end.
  rewrite stampDecodeDisplay_core, stampSlotWarmUntil_core in Hz. simpl in *. congruence.
Qed.

Lemma stamp_rest_core cfg input held b l key row : core (stamp_rest cfg input held b l key row).2 = core row.
Proof.
  unfold stamp_rest.
  pose proof (applyLoopState_core input l row held). destruct (applyLoopState _ _ _ _) as [row1 l1].
  match goal with |- context [stampNoZero ?b ?k ?row] => pose proof (stampNoZero_core b k row) as Hz; destruct (stampNoZero b k row) end.
  rewrite stampDecodeDisplay_core, stampSlotWarmUntil_core in Hz. simpl in *. congruence.
Qed.

(** ** The memory of the builder *)

(** The sessions of the last build are not touched by a stamp. *)
Definition roster (b : sessionsBuilder) := (known b, idle b, slotWarmUntil b).

Lemma stampRate_roster b key row now r : roster (stampRate b key row now r).1 = roster b.
Proof. unfold stampRate. row_cases. Qed.

Lemma stampDecodeReadout_roster b key row : roster (stampDecodeReadout b key row) = roster b.
Proof. unfold stampDecodeReadout. row_cases. Qed.

Lemma remember_nonzero_roster b key row : roster (remember_nonzero b key row) = roster b.
Proof. unfold remember_nonzero. row_cases. Qed.

Lemma stampNoZero_builder b key row :
  (stampNoZero b key row).1 = if String.eqb (SessionID row) "" then b else remember_nonzero b key row.
Proof. unfold stampNoZero. by destruct (String.eqb _ _). Qed.

Lemma stampNoZero_roster b key row : roster (stampNoZero b key row).1 = roster b.
Proof. rewrite stampNoZero_builder. destruct (String.eqb _ _); [done|apply remember_nonzero_roster]. Qed.

Lemma stamp_request_roster cfg input held b l key r row :
  roster (stamp_request cfg input held b l key r row).1.1 = roster b.
Proof.
  unfold stamp_request. destruct (applyLoopState _ _ _ _) as [row1 l1].
  assert (roster (stampPhaseSince b key row1 (Now input) (Inflight.Timestamp r)).1 = roster b) as Hp
    by (unfold stampPhaseSince; row_cases).
  destruct (stampPhaseSince _ _ _ _ _) as [b2 row2].
  pose proof (stampRate_roster b2 key row2 (Now input) r). destruct (stampRate _ _ _ _ _) as [b3 row3].
  match goal with |- context [stampNoZero ?b ?k ?row] => pose proof (stampNoZero_roster b k row) as Hz; destruct (stampNoZero b k row) end.
  rewrite stampDecodeReadout_roster in Hz. simpl in *. congruence.
Qed.

Lemma stamp_rest_builder cfg input held b l key row : exists row',
  core row' = core row /\ (stamp_rest cfg input held b l key row).1.1 = (stampNoZero b key row').1.
Proof.
  unfold stamp_rest.
  pose proof (applyLoopState_core input l row held). destruct (applyLoopState _ _ _ _) as [row1 l1].
  match goal with |- context [stampNoZero ?b ?k ?row] => exists row; destruct (stampNoZero b k row) end.
  split; [|done]. by rewrite stampDecodeDisplay_core, stampSlotWarmUntil_core.
Qed.

Lemma stamp_rest_roster cfg input held b l key row : roster (stamp_rest cfg input held b l key row).1.1 = roster b.
Proof. destruct (stamp_rest_builder cfg input held b l key row) as (row' & _ & ->). apply stampNoZero_roster. Qed.

(** ** Strikes of a session are not changed by reading them *)

Definition struck (l : option LoopTrack.LoopTracker) (sid : string) : Prop :=
  exists t h, l = Some t /\ LoopTrack.sessions t !! sid = Some h /\ LoopTrack.strike h <> 0.

Lemma Penalty_struck l now key sid : struck (LoopTrack.Penalty l now key).1.2 sid <-> struck l sid.
Proof.
  unfold LoopTrack.Penalty. destruct l as [t|]; [|done]. destruct (String.eqb key ""); [done|].
  destruct (LoopTrack.sessions t !! key) as [h|] eqn:Eh; [|done]. destruct (LoopTrack.strike h =? 0) eqn:Es; [done|].
  assert (LoopTrack.strike (LoopTrack.expireHoldLocked key h now).1 = LoopTrack.strike h) as Hs
    by (unfold LoopTrack.expireHoldLocked; by destruct (_ || _ || _)).
  destruct (LoopTrack.expireHoldLocked key h now) as [h' ev]. simpl in *. apply Z.eqb_neq in Es.
  destruct (decide (key = sid)) as [<-|Hne]; split; intros (t' & h0 & [= <-] & Hl & H0).
  - exists t, h. done.
  - eexists _, h'. split_and!; [done|apply lookup_insert_eq|]. congruence.
  - simpl in Hl. rewrite lookup_insert_ne in Hl by done. by exists t, h0.
  - eexists _, h0. split_and!; [done| |done]. simpl. by rewrite lookup_insert_ne.
Qed.

Lemma sessionPenalized_struck input l key sid : struck (sessionPenalized input l key).2 sid <-> struck l sid.
Proof.
  unfold sessionPenalized. destruct (_ || _); [done|]. pose proof (Penalty_struck l (LoopNow input) key sid).
  by destruct (LoopTrack.Penalty _ _ _) as [[? ?] ?].
Qed.

Lemma sessionPenalized_spec input l key : key <> "" -> (sessionPenalized input l key).1 = true <-> struck l key.
Proof.
  intros Hk. unfold sessionPenalized. rewrite (proj2 (String.eqb_neq key "") Hk), orb_false_r.
  destruct (decide (l = None)) as [->|Hl]; [rewrite bool_decide_true by done; split; [done|by intros (? & ? & ? & _)]|].
  rewrite bool_decide_false by done. destruct l as [t|]; [|done]. unfold LoopTrack.Penalty.
  rewrite (proj2 (String.eqb_neq key "") Hk).
  destruct (LoopTrack.sessions t !! key) as [h|] eqn:Eh.
  - destruct (LoopTrack.strike h =? 0) eqn:Es.
    + split; [done|]. intros (t' & h' & [= <-] & Hh' & Hs). apply Z.eqb_eq in Es. congruence.
    + apply Z.eqb_neq in Es. destruct (LoopTrack.expireHoldLocked _ _ _). simpl. split; [|done]. intros _. by exists t, h.
  - split; [done|]. intros (t' & h' & [= <-] & Hh' & _). congruence.
Qed.

Lemma applyLoopState_struck input l row held sid : struck (applyLoopState input l row held).2 sid <-> struck l sid.
Proof.
  unfold applyLoopState. destruct (_ || _); [done|].
  match goal with |- context [LoopTrack.Penalty l ?n ?k] => pose proof (Penalty_struck l n k sid); destruct (LoopTrack.Penalty l n k) as [[p l'] ev] end.
  destruct p as [p|]; [|done]. by destruct (bool_decide _).
Qed.

Lemma stamp_request_struck cfg input held b l key r row sid :
  struck (stamp_request cfg input held b l key r row).1.2 sid <-> struck l sid.
Proof.
  unfold stamp_request. rewrite <- (applyLoopState_struck input l row held). destruct (applyLoopState _ _ _ _) as [row1 l1].
  destruct (stampPhaseSince _ _ _ _ _) as [b2 row2]. destruct (stampRate _ _ _ _ _) as [b3 row3]. by destruct (stampNoZero _ _ _).
Qed.

Lemma stamp_rest_struck cfg input held b l key row sid :
  struck (stamp_rest cfg input held b l key row).1.2 sid <-> struck l sid.
Proof.
  unfold stamp_rest. rewrite <- (applyLoopState_struck input l row held). destruct (applyLoopState _ _ _ _) as [row1 l1].
  by destruct (stampNoZero _ _ _).
Qed.

(** ** The request that stands for a session *)

Definition chose (rs : list Inflight.InflightRequestEntry) (acc : gmap string Inflight.InflightRequestEntry * list string) : Prop :=
  (forall key r, acc.1 !! key = Some r -> request_key r = key /\ r ∈ rs) /\
  (forall r, r ∈ rs -> is_Some (acc.1 !! request_key r)) /\
  NoDup acc.2 /\ (forall key, key ∈ acc.2 <-> is_Some (acc.1 !! key)).

Lemma choose_step_chose rs acc r : chose rs acc -> chose (rs ++ [r]) (choose_step acc r).
Proof.
  destruct acc as [chosen order]. intros (Hk & Hall & Hnd & Hord). simpl in *. unfold choose_step, chose.
  assert (forall key r0, <[request_key r := r]> chosen !! key = Some r0 -> request_key r0 = key /\ r0 ∈ rs ++ [r]) as Hk'.
  { intros key r0 [[<- <-]|[_ Hr]]%lookup_insert_Some; [set_solver|]. apply Hk in Hr as [? ?]. set_solver. }
  assert (forall r0, r0 ∈ rs ++ [r] -> is_Some (<[request_key r := r]> chosen !! request_key r0)) as Hall'.
  { intros r0 [Hr| ->%list_elem_of_singleton]%elem_of_app; apply lookup_insert_is_Some'; [|by left]. right. by apply Hall. }
  destruct (chosen !! request_key r) as [cur|] eqn:Ec.
  - destruct (_ || _); split_and!; simpl; try done.
    + intros key. rewrite Hord, lookup_insert_is_Some'. naive_solver.
    + intros key r0 Hr. apply Hk in Hr as [? ?]. set_solver.
    + intros r0 [Hr| ->%list_elem_of_singleton]%elem_of_app; [by apply Hall|by rewrite Ec].
  - split_and!; simpl; [done|done| |].
    + apply NoDup_app. split_and!; [done| |apply NoDup_singleton]. intros key Hkey ->%list_elem_of_singleton.
      apply Hord in Hkey. rewrite Ec in Hkey. by destruct Hkey.
    + intros key. rewrite elem_of_app, list_elem_of_singleton, Hord, lookup_insert_is_Some'. naive_solver.
Qed.

Lemma choose_spec rs :
  NoDup (choose rs).*1 /\
  (forall key r, (key, r) ∈ choose rs -> request_key r = key /\ r ∈ rs) /\
  (forall r, r ∈ rs -> request_key r ∈ (choose rs).*1).
Proof.
  unfold choose. assert (chose rs (foldl choose_step (∅, []) rs)) as H.
  { induction rs as [|r rs IH] using rev_ind.
    { split_and!; simpl; [done|set_solver|constructor|]. intros key. rewrite lookup_empty. split; [set_solver|by intros []]. }
    rewrite foldl_app. simpl. by apply choose_step_chose. }
  destruct (foldl _ _ _) as [chosen order]. destruct H as (Hk & Hall & Hnd & Hord). simpl in *.
  assert ((omap (fun key => (fun r => (key, r)) <$> chosen !! key) order).*1 = order) as He.
  { clear Hnd. assert (forall key, key ∈ order -> is_Some (chosen !! key)) as Ho by (intros key; apply Hord). clear Hord.
    induction order as [|key order IH]; [done|]. destruct (Ho key ltac:(set_solver)) as [r Hr]. simpl. rewrite Hr. simpl.
    f_equal. apply IH. set_solver. }
  rewrite He. split_and!; [done| |].
  - intros key r. rewrite list_elem_of_omap. intros (key' & _ & (r' & Hr & [= <- <-])%fmap_Some). by apply Hk.
  - intros r Hr. by apply Hord, Hall.
Qed.

Lemma bind_lane_entry input adm kr :
  (bind_lane input adm kr).1 = kr.1 /\
  (exists m, (bind_lane input adm kr).2 = Inflight.set_metadata kr.2 m) /\
  forall k, k <> "slot_id" -> Inflight.meta (bind_lane input adm kr).2 !! k = Inflight.meta kr.2 !! k.
Proof.
  unfold bind_lane. destruct kr as [key r]. simpl.
  destruct (adm !! _) as [[|k [|]]|]; try (split_and!; [done|exists (Inflight.Metadata r); by destruct r|done]).
  destruct (Slots input !! _) as [[|sl [|]]|]; try (split_and!; [done|exists (Inflight.Metadata r); by destruct r|done]).
  destruct (_ && _ && _); [|split_and!; [done|exists (Inflight.Metadata r); by destruct r|done]].
  split_and!; [done|by eexists|]. intros k' Hk. unfold Inflight.meta at 1. simpl. by rewrite lookup_insert_ne.
Qed.

End SessionsBase.
