(* ===== verification/SessionsListed.v ===== *)
(** Who is listed in the session table: every session that holds something, once,
    and for a minute after it let go. *)

From S2P Require Import Prelude RecordSet Float64 Tier SchedTypes LoopTrack SlotAffinity Inflight SessionRows Sessions SessionsBase.
From stdpp Require Import pretty.

Module SessionsListed.
Import Float64 Sched SessionRows Sessions SessionsBase.
Open Scope string_scope.
Open Scope list_scope.
Open Scope Z_scope.

#[local] Arguments idle_step : simpl never.

(** ** The sessions of some rows *)

Definition sids (rows : list sessionEntry) : list string :=
  List.filter (fun sid => negb (String.eqb sid "")) (SessionID <$> rows).

Lemma elem_of_sids sid rows : sid ∈ sids rows <-> sid <> "" /\ sid ∈ SessionID <$> rows.
Proof. unfold sids. rewrite elem_of_filterb, negb_true_iff, String.eqb_neq. tauto. Qed.

Lemma sids_snoc rows row : sids (rows ++ [row]) = sids rows ++ (if String.eqb (SessionID row) "" then [] else [SessionID row]).
Proof. unfold sids. rewrite fmap_app, List.filter_app. simpl. by destruct (String.eqb _ _). Qed.

Lemma sids_core rows rows' : core <$> rows = core <$> rows' -> sids rows = sids rows'.
Proof.
  intros H. unfold sids. f_equal. apply (f_equal (fmap (fun c => c.1.1.1.1.1.1.1.1.1.1.1))) in H.
  by rewrite <- !list_fmap_compose in H.
Qed.

Lemma SessionID_core row row' : core row = core row' -> SessionID row = SessionID row'.
Proof. unfold core. congruence. Qed.

Lemma baseRow_id cfg model sid tier : SessionID (baseRow cfg model sid tier) = sid.
Proof. done. Qed.

Lemma requestRow_id cfg input r owners :
  SessionID (requestRow cfg input r owners) = get (Inflight.meta r) "session_id" /\
  RequestID (requestRow cfg input r owners) = Some (Inflight.ID r).
Proof.
  unfold requestRow. destruct (negb _); [done|]. destruct (negb _); [done|]. unfold admittedRow.
  assert (forall row, SessionID (bind_slot input r owners row) = SessionID row /\
    RequestID (bind_slot input r owners row) = RequestID row) as Hb by (intros row; unfold bind_slot; row_cases).
  destruct (Hb (arrivedRow cfg input r <| Phase ::= phasePrefill |>)) as [H1 H2].
  destruct (bind_slot _ _ _ _) as [] eqn:E. simpl in *. subst. by repeat destruct (_ <? _).
Qed.

Lemma hotRow_id cfg input prev model h copy : SessionID (hotRow cfg input prev model h copy) = SlotAffinity.hs_SessionID h.
Proof. unfold hotRow. row_cases. Qed.

(** An id that is not the key of a request without a session. *)
Definition plain (sid : string) : Prop := sid <> "" /\ forall id, sid <> "req:" +:+ id.

Definition session_of (r : Inflight.InflightRequestEntry) : string := get (Inflight.meta r) "session_id".

Lemma request_key_plain r sid : plain sid -> request_key r = sid <-> session_of r = sid.
Proof.
  intros [Hne Hp]. unfold request_key. fold (session_of r). destruct (String.eqb_spec (session_of r) "") as [E|E].
  - rewrite E. split; [|congruence]. intros H. by destruct (Hp (Inflight.ID r)).
  - done.
Qed.

Lemma request_key_session r : session_of r <> "" -> request_key r = session_of r.
Proof. intros H. unfold request_key. fold (session_of r). by rewrite (proj2 (String.eqb_neq _ _) H). Qed.

Section build.
Variable cfg : config.

(** ** The rows of the requests *)

Lemma request_fold input held owners chosen s :
  let s' := foldl (request_step cfg input held owners) s chosen in
  roster (b_builder s') = roster (b_builder s) /\
  (forall sid, struck (b_loops s') sid <-> struck (b_loops s) sid) /\
  core <$> b_rows s' = (core <$> b_rows s) ++ ((fun kr => core (requestRow cfg input kr.2 owners)) <$> chosen) /\
  (forall k, k ∈ b_present s' <-> k ∈ b_present s \/ k ∈ chosen.*1).
Proof.
  revert s. induction chosen as [|[key r] chosen IH]; intros s; simpl.
  { rewrite app_nil_r. split_and!; [done..|]. set_solver. }
  specialize (IH (request_step cfg input held owners s (key, r))). simpl in IH. destruct IH as (Hb & Hl & Hr & Hp).
  unfold request_step in Hb, Hl, Hr, Hp |- *.
  pose proof (stamp_request_core cfg input held (b_builder s) (b_loops s) key r (requestRow cfg input r owners)) as Hc.
  pose proof (stamp_request_roster cfg input held (b_builder s) (b_loops s) key r (requestRow cfg input r owners)) as Hro.
  pose proof (fun sid => stamp_request_struck cfg input held (b_builder s) (b_loops s) key r (requestRow cfg input r owners) sid) as Hst.
  destruct (stamp_request _ _ _ _ _ _ _ _) as [[b' l'] row']. simpl in *.
  split_and!; [congruence| | |].
  - intros sid. by rewrite Hl, Hst.
  - rewrite Hr, fmap_app. simpl. by rewrite <- app_assoc, Hc.
  - intros k. rewrite Hp. set_solver.
Qed.

(** ** The rows of the hot slots *)

Definition flat_hot (hots : list (string * list SlotAffinity.HotSlot)) : list (string * SlotAffinity.HotSlot) :=
  flat_map (fun mh => map (pair mh.1) mh.2) hots.

Lemma hot_fold_flat input held owners hots s :
  foldl (hot_model_step cfg input held owners) s hots =
  foldl (fun s mh => hot_step cfg input held owners mh.1 s mh.2) s (flat_hot hots).
Proof.
  revert s. induction hots as [|[model hs] hots IH]; intros s; [done|]. simpl. rewrite IH.
  unfold flat_hot. simpl. rewrite foldl_app. f_equal. unfold hot_model_step. simpl. clear.
  revert s. induction hs as [|h hs IH]; intros s; [done|]. simpl. apply IH.
Qed.

(** The state after the hot slots in [seen]. *)
Record hot_inv (s0 : building) (seen : list (string * SlotAffinity.HotSlot)) (s : building) : Prop := {
  h_roster : roster (b_builder s) = roster (b_builder s0);
  h_struck : forall sid, struck (b_loops s) sid <-> struck (b_loops s0) sid;
  h_present : forall k, k ∈ b_present s <-> k ∈ b_present s0 \/ k <> "" /\ k ∈ (SlotAffinity.hs_SessionID ∘ snd) <$> seen;
  h_rows : forall k, k <> "" -> k ∈ SessionID <$> b_rows s <-> k ∈ SessionID <$> b_rows s0 \/ k ∈ b_present s /\ k ∉ b_present s0;
  h_nodup : NoDup (sids (b_rows s));
  h_prefix : exists rows, b_rows s = b_rows s0 ++ rows;
}.

Lemma hot_fold input held owners hots s :
  NoDup (sids (b_rows s)) -> (forall k, k ∈ sids (b_rows s) -> k ∈ b_present s) ->
  hot_inv s hots (foldl (fun s mh => hot_step cfg input held owners mh.1 s mh.2) s hots).
Proof.
  intros Hnd Hsub. induction hots as [|[model h] hots IH] using rev_ind.
  { split; simpl; [done|done|set_solver|set_solver|done|]. exists []. by rewrite app_nil_r. }
  rewrite foldl_app. simpl. destruct IH as [Hr Hs Hp Hrows Hnd' [rows Hpre]].
  set (s1 := foldl _ s hots) in *.
  assert (forall k, k ∈ (SlotAffinity.hs_SessionID ∘ snd) <$> hots ++ [(model, h)] <->
    k ∈ (SlotAffinity.hs_SessionID ∘ snd) <$> hots \/ k = SlotAffinity.hs_SessionID h) as Hsn
    by (intros k; rewrite fmap_app, elem_of_app; simpl; by rewrite list_elem_of_singleton).
  unfold hot_step. destruct (String.eqb_spec (SlotAffinity.hs_SessionID h) "") as [E|E]; simpl.
  { split; try done; [|by exists rows]. intros k. rewrite Hp, Hsn. split; [naive_solver|].
    intros [?|[? [?| ->]]]; [by left|by right|]. by rewrite E in *. }
  destruct (decide (SlotAffinity.hs_SessionID h ∈ b_present s1)) as [Hin|Hin].
  { rewrite bool_decide_true by done. split; try done; [|by exists rows]. intros k.
    rewrite Hp, Hsn. split; [naive_solver|].
    intros [?|[? [?| ->]]]; [by left|by right|]. by apply Hp. }
  rewrite bool_decide_false by done.
  match goal with |- context [stamp_rest ?c ?i ?hd ?b ?l ?k ?row] =>
    pose proof (stamp_rest_core c i hd b l k row) as Hc; pose proof (stamp_rest_roster c i hd b l k row) as Hro;
    pose proof (stamp_rest_struck c i hd b l k row) as Hst; destruct (stamp_rest c i hd b l k row) as [[b' l'] row'] end.
  simpl in *. apply SessionID_core in Hc. rewrite hotRow_id in Hc. split; simpl.
  - rewrite Hro. etrans; [|exact Hr]. done.
  - intros sid. by rewrite Hst.
  - intros k. rewrite Hsn, elem_of_union, elem_of_singleton, Hp. naive_solver.
  - intros k Hk. rewrite fmap_app, elem_of_app, elem_of_union, (Hrows k Hk). simpl.
    rewrite list_elem_of_singleton, elem_of_singleton, Hc. split; [intros [[?|?]| ->]|].
    + by left.
    + naive_solver.
    + right. split; [by left|]. intros Hk0. apply Hin, Hp. by left.
    + naive_solver.
  - rewrite sids_snoc, Hc, (proj2 (String.eqb_neq _ _) E). apply NoDup_app. split_and!; [done| |apply NoDup_singleton].
    intros k Hk ->%list_elem_of_singleton. apply elem_of_sids in Hk as [_ Hk]. apply (Hrows _ E) in Hk as [Hk|[Hk _]]; [|done].
    apply Hin, Hp. left. apply Hsub, elem_of_sids. done.
  - exists (rows ++ [row']). by rewrite Hpre, app_assoc.
Qed.

(** ** The sessions that idle *)

(** The sessions known and idling after a build are apart and carry their own id. *)
Record kept_ok (b : sessionsBuilder) : Prop := {
  k_known : forall k e, known b !! k = Some e -> SessionID e = k /\ k <> "";
  k_idle : forall k m, idle b !! k = Some m -> SessionID (i_entry m) = k /\ k <> "";
  k_apart : forall k, is_Some (known b !! k) -> idle b !! k = None;
}.

Lemma start_idle_fold now present kes idle0 k :
  NoDup kes.*1 ->
  foldl (start_idle now present) idle0 kes !! k =
  match idle0 !! k with
  | Some m => Some m
  | None => if bool_decide (k ∈ present) then None
            else mkIdle now <$> (list_to_map kes : gmap string sessionEntry) !! k
  end.
Proof.
  revert idle0. induction kes as [|[k1 e1] kes IH]; intros idle0 Hnd; simpl.
  { rewrite lookup_empty. destruct (idle0 !! k); [done|]. by destruct (bool_decide (k ∈ present)). }
  inversion_clear Hnd as [|? ? Hk1 Hnd']. rewrite IH by done. unfold start_idle. simpl.
  destruct (decide (k1 = k)) as [->|Hne].
  - rewrite lookup_insert_eq. simpl. destruct (idle0 !! k) as [m|] eqn:Ei.
    + by rewrite (bool_decide_true (is_Some _)), orb_true_r, Ei.
    + rewrite (bool_decide_false (is_Some _)) by (by intros []). rewrite orb_false_r.
      destruct (bool_decide (k ∈ present)) eqn:Ep; [by rewrite Ei|]. by rewrite lookup_insert_eq.
  - rewrite (lookup_insert_ne _ k1 k) by done. destruct (_ || _); [done|]. by rewrite lookup_insert_ne.
Qed.

Lemma know_rows rows b k :
  (known (foldl know_row b rows) !! k =
   match find (fun row => String.eqb (SessionID row) k) (rev rows) with
   | Some row => if String.eqb k "" then known b !! k else Some row
   | None => known b !! k
   end) /\
  (idle (foldl know_row b rows) !! k = if bool_decide (k ∈ sids rows) then None else idle b !! k).
Proof.
  induction rows as [|row rows IH] using rev_ind; [done|]. rewrite foldl_app, rev_app_distr, sids_snoc. simpl.
  destruct IH as [IHk IHi]. set (b' := foldl know_row b rows) in *. unfold know_row. destruct (String.eqb_spec (SessionID row) "") as [E|E].
  - rewrite app_nil_r. split; [|exact IHi]. rewrite IHk. destruct (String.eqb_spec (SessionID row) k) as [Ek|Ek]; [|done].
    subst k. rewrite E. simpl. clear. by destruct (List.find _ _).
  - simpl. destruct (String.eqb_spec (SessionID row) k) as [Ek|Ek].
    + subst k. rewrite lookup_insert_eq, lookup_delete_eq, (proj2 (String.eqb_neq _ _) E).
      by rewrite bool_decide_true by set_solver.
    + rewrite lookup_insert_ne, lookup_delete_ne by done. split; [done|]. rewrite IHi.
      apply (f_equal (fun b : bool => if b then _ else _)), bool_decide_ext. set_solver.
Qed.

(** What happens to an idling session: it goes after a minute without a strike. *)
Definition idles (input : sessionsInput) (l : option LoopTrack.LoopTracker) (km : string * idleMark) : bool :=
  negb ((sessionsIdleRetention <=? time_sub (Now input) (i_since km.2)) && negb (sessionPenalized input l km.1).1).

Lemma idles_struck input l l' km : km.1 <> "" ->
  (forall sid, struck l sid <-> struck l' sid) -> idles input l km = idles input l' km.
Proof.
  intros Hk Hs. unfold idles. f_equal. f_equal. f_equal.
  apply eq_true_iff_eq. by rewrite !sessionPenalized_spec.
Qed.

Lemma idle_fold input held kms s :
  NoDup kms.*1 -> (forall k m, (k, m) ∈ kms -> SessionID (i_entry m) = k /\ k <> "") ->
  let s' := foldl (idle_step cfg input held) s kms in
  known (b_builder s') = known (b_builder s) /\
  (forall sid, struck (b_loops s') sid <-> struck (b_loops s) sid) /\
  SessionID <$> b_rows s' = (SessionID <$> b_rows s) ++ (List.filter (idles input (b_loops s)) kms).*1 /\
  (forall k m, idle (b_builder s') !! k = Some m <->
    idle (b_builder s) !! k = Some m /\ (forall m', (k, m') ∈ kms -> idles input (b_loops s) (k, m') = true)).
Proof.
  revert s. induction kms as [|[k m] kms IH]; intros s Hnd Hid; simpl.
  { rewrite app_nil_r. split_and!; [done..|]. set_solver. }
  inversion_clear Hnd as [|? ? Hk Hnd']. destruct (Hid k m ltac:(set_solver)) as [Hm Hne].
  specialize (IH (idle_step cfg input held s (k, m)) Hnd' ltac:(set_solver)). simpl in IH. destruct IH as (Hkn & Hst & Hrow & Hidl).
  assert (forall sid, struck (b_loops (idle_step cfg input held s (k, m))) sid <-> struck (b_loops s) sid) as Hst1.
  { intros sid. unfold idle_step. pose proof (sessionPenalized_struck input (b_loops s) k sid) as Hp.
    destruct (sessionPenalized input (b_loops s) k) as [p l1]. simpl in Hp.
    destruct (_ <=? _); [destruct p; simpl|]; [..|].
    3: match goal with |- context [stamp_rest ?c ?i ?hd ?b ?l ?k ?row] => pose proof (stamp_rest_struck c i hd b l k row sid); by destruct (stamp_rest c i hd b l k row) as [[? ?] ?] end.
    1: match goal with |- context [stamp_rest ?c ?i ?hd ?b ?l ?k ?row] => pose proof (stamp_rest_struck c i hd b l k row sid) as Hq; destruct (stamp_rest c i hd b l k row) as [[? ?] ?] end; simpl in *; tauto.
    tauto. }
  assert (forall kms', (forall k' m', (k', m') ∈ kms' -> k' <> "") ->
    List.filter (idles input (b_loops (idle_step cfg input held s (k, m)))) kms' = List.filter (idles input (b_loops s)) kms') as Hfl.
  { intros kms' Hk'. apply filterb_ext. intros [k' m'] Hin. apply idles_struck; [by eapply Hk'|done]. }
  assert (known (b_builder (idle_step cfg input held s (k, m))) = known (b_builder s) /\
    SessionID <$> b_rows (idle_step cfg input held s (k, m)) =
      (SessionID <$> b_rows s) ++ (if idles input (b_loops s) (k, m) then [k] else []) /\
    idle (b_builder (idle_step cfg input held s (k, m))) =
      (if idles input (b_loops s) (k, m) then idle (b_builder s) else delete k (idle (b_builder s)))) as (Hk1 & Hr1 & Hi1).
  { unfold idle_step, idles. simpl.
    assert (forall l, let '(b', l', row') := stamp_rest cfg input held (b_builder s) l k (idleRow cfg input m) in
      roster b' = roster (b_builder s) /\ SessionID row' = k) as Hrest.
    { intros l. pose proof (stamp_rest_core cfg input held (b_builder s) l k (idleRow cfg input m)) as Hc.
      pose proof (stamp_rest_roster cfg input held (b_builder s) l k (idleRow cfg input m)) as Hro.
      destruct (stamp_rest _ _ _ _ _ _ _) as [[b' l'] row']. simpl in *. split; [done|].
      apply SessionID_core in Hc. by rewrite Hc. }
    destruct (_ <=? _); simpl.
    - destruct (sessionPenalized input (b_loops s) k) as [[] l1]; simpl; [|by rewrite app_nil_r].
      specialize (Hrest l1). destruct (stamp_rest _ _ _ _ _ _ _) as [[b' l'] row']. destruct Hrest as [[= ? ? ?] <-].
      simpl. by rewrite fmap_app.
    - specialize (Hrest (b_loops s)). destruct (stamp_rest _ _ _ _ _ _ _) as [[b' l'] row']. destruct Hrest as [[= ? ? ?] <-].
      simpl. by rewrite fmap_app. }
  split_and!; [exact (eq_trans Hkn Hk1)|intros sid; exact (iff_trans (Hst sid) (Hst1 sid))| |].
  - etrans; [exact Hrow|]. rewrite Hr1, Hfl, <- app_assoc by (intros k' m' Hin; apply (Hid k' m'); by right). f_equal. by destruct (idles _ _ (k, m)).
  - intros k' m'. etrans; [exact (Hidl k' m')|]. rewrite Hi1.
    assert (forall m0, (k', m0) ∈ kms -> idles input (b_loops (idle_step cfg input held s (k, m))) (k', m0) = idles input (b_loops s) (k', m0)) as He.
    { intros m0 Hin. apply idles_struck; [|done]. apply (Hid k' m0). by right. }
    split.
    + intros [Hi Hall]. split.
      * destruct (idles _ _ (k, m)); [done|]. by apply lookup_delete_Some in Hi as [_ ?].
      * intros m0 [[= -> ->]|Hin]%elem_of_cons; [|rewrite <- He by done; by apply Hall].
        destruct (idles _ _ (k, m)); [done|]. by rewrite lookup_delete_eq in Hi.
    + intros [Hi Hall]. split; [|intros m0 Hin; rewrite He by done; apply Hall; set_solver].
      destruct (idles _ _ (k, m)) eqn:Ei; [done|]. rewrite lookup_delete_ne; [done|]. intros ->.
      rewrite (Hall m ltac:(set_solver)) in Ei. done.
Qed.

(** ** The rows of one build *)

(** A session holds something: a request in flight or a hot slot. *)
Definition holds (input : sessionsInput) (sid : string) : Prop :=
  (exists r, r ∈ Requests input /\ session_of r = sid) \/
  (exists model hs h, Hot input !! model = Some hs /\ h ∈ hs /\ SlotAffinity.hs_SessionID h = sid).

Lemma sids_requests input owners chosen rows :
  core <$> rows = (fun kr => core (requestRow cfg input kr.2 owners)) <$> chosen ->
  (forall kr, kr ∈ chosen -> session_of kr.2 <> "" -> kr.1 = session_of kr.2) ->
  sids rows = (List.filter (fun kr => negb (String.eqb (session_of kr.2) "")) chosen).*1.
Proof.
  revert rows. induction chosen as [|[key r] chosen IH]; intros [|row rows] Hc Hk; try done. simpl in Hc.
  pose proof (f_equal (hd (core row)) Hc) as Hrow. pose proof (f_equal (@tl _) Hc) as Hrows. cbn [hd tl] in Hrow, Hrows. unfold sids. simpl.
  pose proof (requestRow_id cfg input r owners) as [Hid _].
  assert (SessionID row = session_of r) as -> by (unfold session_of; rewrite <- Hid; by apply SessionID_core).
  fold (sids rows). specialize (IH rows). destruct (String.eqb_spec (session_of r) "") as [E|E]; simpl.
  - apply IH; [done|]. intros kr Hin. apply Hk. by right.
  - f_equal; [|apply IH; [done|intros kr Hin; apply Hk; by right]]. symmetry. apply (Hk (key, r)); [by left|done].
Qed.

Lemma NoDup_filterb_keys {A} (f : string * A -> bool) (l : list (string * A)) : NoDup l.*1 -> NoDup (List.filter f l).*1.
Proof.
  induction l as [|[k a] l IH]; simpl; [done|]. intros Hnd. inversion_clear Hnd as [|? ? Hk Hnd'].
  destruct (f (k, a)); [|by apply IH]. constructor; [|by apply IH]. intros ([k' a'] & ? & Hin)%list_elem_of_fmap.
  simpl in *. subst k'. apply elem_of_filterb in Hin as [Hin _]. apply Hk, list_elem_of_fmap. by exists (k, a').
Qed.

Lemma bound_requests input adm rs kr : kr ∈ bind_lane input adm <$> choose rs ->
  exists r, r ∈ rs /\ kr.1 = request_key r /\ session_of kr.2 = session_of r.
Proof.
  intros (kr0 & -> & Hin)%list_elem_of_fmap. destruct (choose_spec rs) as (_ & Hk & _). destruct kr0 as [key r].
  destruct (Hk _ _ Hin) as [<- Hr]. destruct (bind_lane_entry input adm (request_key r, r)) as (H1 & _ & Hm).
  exists r. split_and!; [done|by rewrite H1|]. unfold session_of, get. by rewrite Hm.
Qed.

Lemma bound_keys input adm rs : (bind_lane input adm <$> choose rs).*1 = (choose rs).*1.
Proof. rewrite <- list_fmap_compose. apply list_fmap_ext. intros i kr _. apply bind_lane_entry. Qed.

(** Go ranges over each map in some order. *)
Variable range : forall A : Type, gmap string A -> list (string * A).
Hypothesis range_perm : forall A (m : gmap string A), range A m ≡ₚ map_to_list m.

Lemma range_keys {A} (m : gmap string A) : NoDup (range A m).*1.
Proof. rewrite range_perm. apply NoDup_fst_map_to_list. Qed.

Lemma elem_of_range {A} (m : gmap string A) k x : (k, x) ∈ range A m <-> m !! k = Some x.
Proof. rewrite range_perm. apply elem_of_map_to_list. Qed.

Lemma live_listed b l input :
  let s := live_rows cfg range b l input in
  known (b_builder s) = known b /\ idle (b_builder s) = idle b /\
  (forall sid, struck (b_loops s) sid <-> struck l sid) /\
  NoDup (sids (b_rows s)) /\
  (forall sid, sid ∈ sids (b_rows s) -> sid ∈ b_present s /\ holds input sid) /\
  (forall sid, plain sid -> (sid ∈ sids (b_rows s) <-> sid ∈ b_present s) /\ (sid ∈ sids (b_rows s) <-> holds input sid)).
Proof.
  unfold live_rows. set (chosen := bind_lane _ _ <$> choose _). set (owners := slot_owners input chosen).
  match goal with |- context [foldl (request_step cfg input ?h owners) ?s0 chosen] => set (held := h); set (s := s0) end.
  destruct (request_fold input held owners chosen s) as (Hro & Hst & Hrows & Hp).
  set (s1 := foldl _ s chosen) in *. simpl in Hrows.
  assert (forall kr, kr ∈ chosen -> session_of kr.2 <> "" -> kr.1 = session_of kr.2) as Hkey.
  { intros kr Hin Hne. destruct (bound_requests _ _ _ _ Hin) as (r & _ & -> & Hs). rewrite Hs in Hne |- *. by apply request_key_session. }
  pose proof (sids_requests input owners chosen (b_rows s1) Hrows Hkey) as Hsids.
  destruct (choose_spec (Requests input)) as (Hnd & Hch & Hall).
  assert (NoDup chosen.*1) as Hndc by (unfold chosen; by rewrite bound_keys).
  assert (forall k, k ∈ sids (b_rows s1) -> k ∈ b_present s1 /\ exists r, r ∈ Requests input /\ session_of r = k) as Hsub.
  { intros k. rewrite Hsids. intros (kr & -> & [Hin Hne]%elem_of_filterb)%list_elem_of_fmap.
    apply negb_true_iff, String.eqb_neq in Hne. rewrite (Hkey kr Hin Hne). split.
    - apply Hp. right. apply list_elem_of_fmap. exists kr. split; [by rewrite (Hkey kr Hin Hne)|done].
    - destruct (bound_requests _ _ _ _ Hin) as (r & Hr & _ & ->). by exists r. }
  assert (forall sid, plain sid -> sid ∈ b_present s1 -> sid ∈ sids (b_rows s1)) as Hback.
  { intros sid Hpl Hin. apply Hp in Hin as [Hin|Hin]; [by apply elem_of_empty in Hin|].
    apply list_elem_of_fmap in Hin as (kr & -> & Hin). rewrite Hsids.
    destruct (bound_requests _ _ _ _ Hin) as (r & Hr & Hk & Hs). rewrite Hk in Hpl.
    pose proof (proj1 (request_key_plain r _ Hpl) eq_refl) as Hsr.
    apply list_elem_of_fmap. exists kr. split; [done|]. apply elem_of_filterb. split; [done|].
    rewrite Hs, Hsr. apply negb_true_iff, String.eqb_neq, Hpl. }
  rewrite hot_fold_flat.
  destruct (hot_fold input held owners (flat_hot (range (list SlotAffinity.HotSlot) (Hot input))) s1) as [Hr2 Hs2 Hp2 Hrows2 Hnd2 _].
  { rewrite Hsids. by apply NoDup_filterb_keys. }
  { intros k Hk. by apply Hsub. }
  set (s2 := foldl _ s1 _) in *. rewrite Hro in Hr2. injection Hr2 as Hkn Hid Hw.
  assert (forall k, k ∈ (SlotAffinity.hs_SessionID ∘ snd) <$> flat_hot (range (list SlotAffinity.HotSlot) (Hot input)) <->
    exists model hs h, Hot input !! model = Some hs /\ h ∈ hs /\ SlotAffinity.hs_SessionID h = k) as Hflat.
  { intros k. rewrite list_elem_of_fmap. unfold flat_hot. split.
    - intros ([model h] & -> & Hin). apply list_elem_of_In, in_flat_map in Hin as ([m hs] & Hm & Hh).
      apply in_map_iff in Hh as (h' & [= -> ->] & Hh). exists model, hs, h. apply list_elem_of_In, elem_of_range in Hm.
      split_and!; [done|by apply list_elem_of_In|done].
    - intros (model & hs & h & Hm & Hh & <-). exists (model, h). split; [done|]. apply list_elem_of_In, in_flat_map.
      exists (model, hs). split; [by apply list_elem_of_In, elem_of_range|]. apply in_map, list_elem_of_In. done. }
  assert (forall sid, sid ∈ sids (b_rows s2) -> sid ∈ b_present s2 /\ holds input sid) as Hfwd.
  { intros sid [Hne Hin]%elem_of_sids. apply (Hrows2 sid Hne) in Hin as [Hin|[Hin Hnin]].
    - destruct (Hsub sid) as [? ?]; [by apply elem_of_sids|]. split; [apply Hp2; by left|by left].
    - split; [done|]. apply Hp2 in Hin as [?|[_ Hin]]; [done|]. right. by apply Hflat. }
  split_and!; [done|done|intros sid; by rewrite Hs2, Hst|done|done|].
  intros sid Hpl. assert (sid ∈ b_present s2 -> sid ∈ sids (b_rows s2)) as Hb2.
  { intros Hin. apply elem_of_sids. split; [apply Hpl|]. apply (Hrows2 sid (proj1 Hpl)).
    destruct (decide (sid ∈ b_present s1)) as [Hin1|Hin1]; [left; by apply elem_of_sids, Hback|by right]. }
  split; [split; [intros Hin; apply (Hfwd sid Hin)|exact Hb2]|]. split; [intros Hin; apply (Hfwd sid Hin)|]. intros [(r & Hr & Hs)|Hhot]; apply Hb2, Hp2.
  - left. apply Hp. right. unfold chosen. rewrite bound_keys.
    rewrite <- (proj2 (request_key_plain r sid Hpl) Hs). by apply Hall.
  - right. split; [apply Hpl|by apply Hflat].
Qed.

Lemma list_to_map_range {A} (m : gmap string A) k : (list_to_map (range A m) : gmap string A) !! k = m !! k.
Proof.
  apply option_eq. intros x. rewrite <- elem_of_list_to_map by apply range_keys. apply elem_of_range.
Qed.

Lemma known_find rows k : k <> "" ->
  is_Some (find (fun row => String.eqb (SessionID row) k) (rev rows)) <-> k ∈ sids rows.
Proof.
  intros Hk. rewrite elem_of_sids, list_elem_of_fmap. split.
  - intros [row [Hin He]%find_some]. apply in_rev, list_elem_of_In in Hin. apply String.eqb_eq in He.
    split; [done|]. by exists row.
  - intros [_ (row & -> & Hin)]. destruct (find _ _) eqn:E; [done|].
    apply list_elem_of_In, in_rev in Hin. pose proof (find_none _ _ E _ Hin) as Hf. simpl in Hf. by rewrite String.eqb_refl in Hf.
Qed.

(** The sessions that idle once the live rows are made. *)
Definition resting (now : Z) (b : sessionsBuilder) (sid : string) : option idleMark :=
  match idle b !! sid with Some m => Some m | None => mkIdle now <$> known b !! sid end.

Lemma remembered b l input : kept_ok b ->
  let s := live_rows cfg range b l input in
  let b' := remember_rows range input s in
  kept_ok b' /\
  (forall sid, sid <> "" -> is_Some (known b' !! sid) <-> sid ∈ sids (b_rows s)) /\
  (forall sid m, idle b' !! sid = Some m -> resting (Now input) b sid = Some m /\ sid ∉ sids (b_rows s)) /\
  (forall sid, plain sid -> ~ holds input sid -> idle b' !! sid = resting (Now input) b sid).
Proof.
  intros Hok. destruct (live_listed b l input) as (Hkn & Hid & _ & _ & Hsub & Hpl).
  set (s := live_rows _ _ _ _ _) in *. unfold remember_rows.
  set (b1 := b_builder s <| idle ::= _ |> <| known ::= ∅ |>).
  assert (forall k, known (foldl know_row b1 (b_rows s)) !! k =
    if String.eqb k "" then None else find (fun row => String.eqb (SessionID row) k) (rev (b_rows s))) as Hk.
  { intros k. rewrite (proj1 (know_rows (b_rows s) b1 k)). simpl. rewrite lookup_empty.
    destruct (List.find _ _), (String.eqb k ""); done. }
  assert (forall k, idle (foldl know_row b1 (b_rows s)) !! k = if bool_decide (k ∈ sids (b_rows s)) then None else
     match idle b !! k with
     | Some m => Some m
     | None => if bool_decide (k ∈ b_present s) then None else mkIdle (Now input) <$> known b !! k
     end) as Hi.
  { intros k. rewrite (proj2 (know_rows (b_rows s) b1 k)). simpl. destruct (bool_decide (k ∈ sids _)); [done|].
    by rewrite start_idle_fold, list_to_map_range, Hid, Hkn by apply range_keys. }
  split_and!.
  - destruct Hok as [H1 H2 H3]. split.
    + intros k e. rewrite Hk. destruct (String.eqb_spec k "") as [->|Hne]; [done|].
      intros [_ He]%find_some. by apply String.eqb_eq in He.
    + intros k m. rewrite Hi. destruct (bool_decide _); [done|]. destruct (idle b !! k) eqn:E; [intros [= <-]; by apply H2|].
      destruct (bool_decide _); [done|]. intros (e & He & ->)%fmap_Some. by apply H1.
    + intros k. rewrite Hk, Hi. destruct (String.eqb_spec k "") as [->|Hne]; [by intros []|]. intros Hs%known_find; [|done].
      by rewrite bool_decide_true.
  - intros sid Hne. rewrite Hk, (proj2 (String.eqb_neq _ _) Hne). by apply known_find.
  - intros sid m. rewrite Hi. unfold resting. destruct (bool_decide_reflect (sid ∈ sids (b_rows s))); [done|].
    destruct (idle b !! sid); [done|]. destruct (bool_decide _); [done|]. done.
  - intros sid Hp Hh. destruct (Hpl sid Hp) as [H1 H2]. rewrite Hi. unfold resting.
    rewrite !bool_decide_false by tauto. done.
Qed.

(** A session at rest stays for a minute, or as long as it has a strike. *)
Definition stays (input : sessionsInput) (l : option LoopTrack.LoopTracker) (sid : string) (m : idleMark) : Prop :=
  time_sub (Now input) (i_since m) < sessionsIdleRetention \/ struck l sid.

Lemma idles_stays input l sid m : sid <> "" -> idles input l (sid, m) = true <-> stays input l sid m.
Proof.
  intros Hne. unfold idles, stays. simpl. rewrite negb_true_iff, andb_false_iff, negb_false_iff, Z.leb_gt, sessionPenalized_spec by done.
  done.
Qed.

Lemma stays_struck input l l' sid m : (forall k, struck l k <-> struck l' k) -> stays input l sid m <-> stays input l' sid m.
Proof. intros H. unfold stays. by rewrite H. Qed.

Lemma all_listed b l input : kept_ok b ->
  let s := all_rows cfg range b l input in
  NoDup (sids (b_rows s)) /\ kept_ok (b_builder s) /\
  (forall sid, struck (b_loops s) sid <-> struck l sid) /\
  (forall sid, plain sid -> is_Some (known (b_builder s) !! sid) <-> holds input sid) /\
  (forall sid, plain sid -> sid ∈ sids (b_rows s) <->
     holds input sid \/ exists m, resting (Now input) b sid = Some m /\ stays input l sid m) /\
  (forall sid m, plain sid -> ~ holds input sid ->
     idle (b_builder s) !! sid = Some m <-> resting (Now input) b sid = Some m /\ stays input l sid m).
Proof.
  intros Hok. unfold all_rows.
  destruct (live_listed b l input) as (_ & _ & Hst & Hnd & Hsub & Hpl). destruct (remembered b l input Hok) as ([H1 H2 H3] & Hkn & Hid & Hid').
  set (s := live_rows cfg range b l input) in *. set (b1 := remember_rows range input s) in *.
  destruct (idle_fold input (heldNow input) (range _ (idle b1)) (mkBuilding b1 (b_loops s) (b_present s) (b_rows s))) as (Hk2 & Hs2 & Hr2 & Hi2).
  { apply range_keys. }
  { intros k m Hin%elem_of_range. by apply H2. }
  set (s2 := foldl _ _ (range _ (idle b1))) in *. simpl in Hk2, Hs2, Hr2, Hi2.
  assert (forall k m, k <> "" -> idles input (b_loops s) (k, m) = true <-> stays input l k m) as Hstay.
  { intros k m Hne. rewrite idles_stays by done. by apply stays_struck. }
  set (kept := (List.filter (idles input (b_loops s)) (range idleMark (idle b1))).*1) in *.
  assert (forall k, k ∈ kept <-> exists m, idle b1 !! k = Some m /\ stays input l k m) as Hkept.
  { intros k. unfold kept. rewrite list_elem_of_fmap. split.
    - intros ([k' m] & -> & [Hin Hf]%elem_of_filterb). apply elem_of_range in Hin. exists m. split; [done|].
      apply Hstay in Hf; [done|]. by apply H2 in Hin as [_ ?].
    - intros (m & Hm & Hs). exists (k, m). split; [done|]. apply elem_of_filterb. split; [by apply elem_of_range|].
      apply Hstay; [|done]. by apply H2 in Hm as [_ ?]. }
  assert (forall k, k ∈ sids (b_rows s2) <-> k ∈ sids (b_rows s) \/ k ∈ kept) as Hsids.
  { intros k. rewrite !elem_of_sids, Hr2, elem_of_app. split; [naive_solver|]. intros [[? ?]|Hk]; [tauto|].
    split; [|by right]. apply Hkept in Hk as (m & Hm & _). by apply H2 in Hm as [_ ?]. }
  assert (forall k m, idle (b_builder s2) !! k = Some m <-> idle b1 !! k = Some m /\ stays input l k m) as Hi2'.
  { intros k m. rewrite Hi2. split.
    - intros [Hi Hall]. split; [done|]. apply Hstay; [by apply H2 in Hi as [_ ?]|]. by apply Hall, elem_of_range.
    - intros [Hi Hs]. split; [done|]. intros m' Hin%elem_of_range. rewrite Hi in Hin. injection Hin as <-.
      apply Hstay; [by apply H2 in Hi as [_ ?]|done]. }
  split_and!.
  - unfold sids at 1. rewrite Hr2, List.filter_app. fold (sids (b_rows s)). apply NoDup_app. split_and!; [done| |].
    + intros k Hk [Hin _]%elem_of_filterb. apply Hkept in Hin as (m & Hm & _). by apply Hid in Hm as [_ ?].
    + apply NoDup_ListNoDup, List.NoDup_filter, NoDup_ListNoDup, NoDup_filterb_keys, range_keys.
  - split.
    + intros k e. rewrite Hk2. apply H1.
    + intros k m [Hi _]%Hi2'. by apply H2.
    + intros k Hk. rewrite Hk2 in Hk. destruct (idle (b_builder s2) !! k) eqn:E; [|done]. apply Hi2' in E as [E _].
      by rewrite H3 in E.
  - intros sid. by rewrite Hs2.
  - intros sid Hp. rewrite Hk2, (Hkn sid (proj1 Hp)). apply Hpl, Hp.
  - intros sid Hp. rewrite Hsids, (proj2 (Hpl sid Hp)), Hkept. split.
    + intros [?|(m & Hm & ?)]; [by left|]. right. exists m. split; [|done]. by apply Hid in Hm as [? _].
    + intros [?|(m & Hm & ?)]; [by left|]. destruct (decide (sid ∈ sids (b_rows s))) as [Hin|Hin]; [left; by apply (Hpl sid Hp)|].
      right. exists m. split; [|done]. rewrite Hid'; [done|done|]. intros Hh. by apply Hin, (Hpl sid Hp).
  - intros sid m Hp Hh. by rewrite Hi2', Hid'.
Qed.

(** ** The standing of a session, over all builds *)

Inductive standing : Type := Absent | Holding | Resting (since : Z).

Definition standing_of (b : sessionsBuilder) (sid : string) : standing :=
  match known b !! sid, idle b !! sid with
  | Some _, _ => Holding
  | None, Some m => Resting (i_since m)
  | None, None => Absent
  end.

(** How one build moves a session: whoever holds something is [Holding]; the
    others rest from the first build that misses them, for a minute or as long as
    they have a strike. *)
Definition moves (l : option LoopTrack.LoopTracker) (input : sessionsInput) (sid : string) (st st' : standing) : Prop :=
  holds input sid /\ st' = Holding \/
  ~ holds input sid /\
  match st with
  | Absent => st' = Absent
  | Holding => st' = Resting (Now input)
  | Resting t =>
    (time_sub (Now input) t < sessionsIdleRetention \/ struck l sid) /\ st' = Resting t \/
    ~ (time_sub (Now input) t < sessionsIdleRetention \/ struck l sid) /\ st' = Absent
  end.

(** The builder after the builds of [hist]; other parts use the loop tracker
    between builds, so each build is given with the tracker it finds. *)
Definition after_builds (hist : list (option LoopTrack.LoopTracker * sessionsInput)) : sessionsBuilder :=
  foldl (fun b li => (build cfg range b li.1 li.2).1.1) newSessionsBuilder hist.

Lemma after_builds_snoc hist l input :
  after_builds (hist ++ [(l, input)]) = (build cfg range (after_builds hist) l input).1.1.
Proof. unfold after_builds. by rewrite foldl_app. Qed.

Lemma forget_gone_kept input s :
  known (forget_gone cfg input s) = known (b_builder s) /\ idle (forget_gone cfg input s) = idle (b_builder s).
Proof. done. Qed.

Lemma kept_after hist : kept_ok (after_builds hist).
Proof.
  unfold after_builds. induction hist as [|[l input] hist IH] using rev_ind; simpl.
  { split; simpl; intros k; [intros ? H|intros ? H|]; try by rewrite lookup_empty in H. by rewrite lookup_empty. }
  fold (after_builds (hist ++ [(l, input)])). rewrite after_builds_snoc. destruct (all_listed _ l input IH) as (_ & [H1 H2 H3] & _). split; done.
Qed.

Lemma insert_row_perm x l : insert_row x l ≡ₚ x :: l.
Proof. induction l as [|y l IH]; simpl; [done|]. destruct (row_less y x); [|done]. rewrite IH. apply Permutation_swap. Qed.

Lemma sort_rows_perm l : sort_rows l ≡ₚ l.
Proof. induction l as [|x l IH]; simpl; [done|]. by rewrite insert_row_perm, IH. Qed.

Lemma sids_perm rows rows' : rows ≡ₚ rows' -> sids rows ≡ₚ sids rows'.
Proof.
  intros H. apply filterb_perm. by rewrite H.
Qed.

Lemma time_sub_self t : time_sub t t = 0.
Proof. unfold time_sub, max_int64, min_int64. rewrite Z.sub_diag. by vm_compute. Qed.

Lemma build_moves b l input sid : kept_ok b -> plain sid ->
  let '(b', _, body) := build cfg range b l input in
  NoDup (sids (Sessions body)) /\
  (sid ∈ sids (Sessions body) <-> standing_of b' sid <> Absent) /\
  moves l input sid (standing_of b sid) (standing_of b' sid).
Proof.
  intros Hok Hp. unfold build. destruct (all_listed b l input Hok) as (Hnd & [_ _ Hap] & _ & Hkn & Hin & Hid).
  set (s := all_rows cfg range b l input) in *. simpl. rewrite sids_perm by apply sort_rows_perm.
  split; [done|]. specialize (Hkn sid Hp). specialize (Hin sid Hp).
  assert (resting (Now input) b sid = match standing_of b sid with
    | Absent => None | Holding => mkIdle (Now input) <$> known b !! sid | Resting _ => idle b !! sid end) as Hrest.
  { unfold resting, standing_of. destruct (known b !! sid) as [e|] eqn:Ek.
    - by rewrite (k_apart b Hok sid) by eauto.
    - by destruct (idle b !! sid). }
  unfold standing_of at 1 3. rewrite !(proj1 (forget_gone_kept input s)), !(proj2 (forget_gone_kept input s)).
  unfold moves. destruct (known (b_builder s) !! sid) as [e|] eqn:Ek.
  { assert (holds input sid) as Hh by (by apply Hkn). rewrite Hin. split; [|by left]. split; [done|by left]. }
  assert (~ holds input sid) as Hh by (intros Hh; apply Hkn in Hh as [? ?]; done).
  specialize (fun m => Hid sid m Hp Hh). rewrite Hin. rewrite Hrest in Hin, Hid |- *. unfold standing_of in *.
  destruct (known b !! sid) as [e|] eqn:Eb; simpl in *.
  { assert (idle (b_builder s) !! sid = Some (mkIdle (Now input) e)) as ->.
    { apply Hid. split; [done|]. left. simpl. rewrite time_sub_self. done. }
    split; [|right; done]. split; [done|]. intros _. right. eexists. split; [done|]. left. simpl. by rewrite time_sub_self. }
  destruct (idle b !! sid) as [m|] eqn:Ei; simpl in *.
  - destruct (idle (b_builder s) !! sid) as [m'|] eqn:Es; simpl.
    + destruct (proj1 (Hid m') eq_refl) as [[= <-] Hst]. split; [|right; split; [done|]; by left].
      split; [done|]. intros _. right. by exists m.
    + assert (~ stays input l sid m) as Hns by (intros Hst; by pose proof (proj2 (Hid m) (conj eq_refl Hst))).
      split; [|right; split; [done|]; by right]. split; [|done]. intros [?|(m' & [= <-] & ?)]; done.
  - destruct (idle (b_builder s) !! sid) as [m'|] eqn:Es; simpl.
    + by destruct (proj1 (Hid m') eq_refl) as [? _].
    + split; [|right; done]. split; [|done]. by intros [?|(m' & ? & _)].
Qed.

(** C18. The session table lists every session once, and exactly the sessions that
    hold something and those that rest: after any builds, the next one moves each
    session as [moves] says, whatever the orders in which maps are ranged over. *)
Theorem sessions_listed hist l input sid : plain sid ->
  let '(b', _, body) := build cfg range (after_builds hist) l input in
  NoDup (sids (Sessions body)) /\
  (sid ∈ sids (Sessions body) <-> standing_of b' sid <> Absent) /\
  moves l input sid (standing_of (after_builds hist) sid) (standing_of b' sid).
Proof. apply build_moves, kept_after. Qed.

(** A session stays listed for a minute: after a build in which it held
    something, every build earlier than a minute after the following ones lists
    it. *)
Theorem listed_for_a_minute hist l0 input0 rest l input sid t :
  plain sid -> holds input0 sid -> Forall (fun li => t <= Now li.2) rest -> t <= Now input ->
  Now input - t < sessionsIdleRetention ->
  Forall (fun li => Now li.2 <= Now input) rest ->
  sid ∈ sids (Sessions (build cfg range (after_builds (hist ++ (l0, input0) :: rest)) l input).2).
Proof.
  intros Hp Hh Hlow Ht Hnow Hup.
  assert (exists st, standing_of (after_builds (hist ++ (l0, input0) :: rest)) sid = st /\
    (st = Holding \/ exists u, st = Resting u /\ t <= u)) as (st & Hst & Hs).
  { eexists. split; [done|]. clear l. induction rest as [|[l1 i1] rest IH] using rev_ind.
    - rewrite after_builds_snoc.
      pose proof (build_moves (after_builds hist) l0 input0 sid (kept_after hist) Hp) as Hm.
      destruct (build _ _ _ _ _) as [[b' l'] body]. simpl. destruct Hm as (_ & _ & [[_ ->]|[? _]]); [by left|done].
    - apply Forall_app in Hlow as [Hlow Hlow1], Hup as [Hup Hup1]. specialize (IH Hlow Hup).
      rewrite app_comm_cons, app_assoc, after_builds_snoc.
      pose proof (build_moves (after_builds (hist ++ (l0, input0) :: rest)) l1 i1 sid (kept_after _) Hp) as Hm.
      destruct (build _ _ _ l1 i1) as [[b' l'] body]. rewrite Forall_singleton in Hlow1, Hup1. simpl in *.
      destruct Hm as (_ & _ & [[_ ->]|[_ Hm]]); [by left|].
      destruct IH as [E|(u & E & Hu)]; rewrite E in Hm.
      + right. by exists (Now i1).
      + right. exists u. split; [|done]. destruct Hm as [[_ ->]|[Hn _]]; [done|]. exfalso. apply Hn. left.
        apply Z.ltb_lt. rewrite time_sub_ltb by (by vm_compute). apply Z.ltb_lt. lia. }
  pose proof (build_moves _ l input sid (kept_after (hist ++ (l0, input0) :: rest)) Hp) as Hm.
  destruct (build _ _ _ l input) as [[b' l'] body]. destruct Hm as (_ & -> & Hm). rewrite Hst in Hm.
  destruct Hm as [[_ ->]|[_ Hm]]; [done|]. destruct Hs as [-> | (u & -> & Hu)]; [by rewrite Hm|].
  destruct Hm as [[_ ->]|[Hn _]]; [done|]. exfalso. apply Hn. left.
  apply Z.ltb_lt. rewrite time_sub_ltb by (by vm_compute). apply Z.ltb_lt. lia.
Qed.

End build.
End SessionsListed.
