(* ===== verification/SessionsSlots.v ===== *)
(** A child's slot counters appear on one row of the session table at most, and on
    a row of the slot they were read from. *)

From S2P Require Import Prelude RecordSet Float64 Tier SchedTypes LoopTrack SlotAffinity Inflight SessionRows Sessions SessionsBase SessionsListed.
From stdpp Require Import pretty.

Module SessionsSlots.
Import Float64 Sched SessionRows Sessions SessionsBase SessionsListed.
Open Scope string_scope.
Open Scope list_scope.
Open Scope Z_scope.

(** ** Reading back a printed number *)

Lemma parse_digits_char acc x s : (x < 10)%N ->
  SlotAffinity.parse_digits acc (String (pretty_N_char x) s) = SlotAffinity.parse_digits (10 * acc + Z.of_N x) s.
Proof.
  intros Hx. assert (x = 0 \/ x = 1 \/ x = 2 \/ x = 3 \/ x = 4 \/ x = 5 \/ x = 6 \/ x = 7 \/ x = 8 \/ x = 9)%N as H by lia.
  by repeat destruct H as [->|H]; subst.
Qed.

Lemma parse_digits_go x s : SlotAffinity.parse_digits 0 (pretty_N_go x s) = SlotAffinity.parse_digits (Z.of_N x) s.
Proof.
  revert s. induction (N.lt_wf_0 x) as [x _ IH]; intros s. destruct (decide (x = 0)%N) as [->|Hx]; [done|].
  rewrite pretty_N_go_step by lia. rewrite IH by (apply N.div_lt; lia).
  rewrite parse_digits_char by (apply N.mod_lt; lia). f_equal.
  rewrite (N.div_mod x 10) at 3 by lia. lia.
Qed.

Lemma parse_digits_pretty x : SlotAffinity.parse_digits 0 (pretty x) = Some (Z.of_N x).
Proof. unfold pretty, pretty_N. destruct (decide _) as [->|]; [done|]. by rewrite parse_digits_go. Qed.

Lemma Atoi_unsigned s x : SlotAffinity.parse_digits 0 s = Some x -> s <> "" ->
  SlotAffinity.Atoi s = if (min_int64 <=? x) && (x <=? max_int64) then Some x else None.
Proof.
  intros Hs Hne. destruct s as [|c s]; [done|]. unfold SlotAffinity.Atoi, SlotAffinity.parse_unsigned.
  assert (48 <= Z.of_nat (Ascii.nat_of_ascii c)) as Hc.
  { cbn [SlotAffinity.parse_digits] in Hs. destruct (0 <=? _) eqn:E; [apply Z.leb_le in E; lia|done]. }
  rewrite !(proj2 (Nat.eqb_neq _ _)) by lia. by rewrite Hs.
Qed.

Lemma pretty_ne_empty (x : N) : pretty x <> "".
Proof. intros E. pose proof (parse_digits_pretty x) as H. rewrite E in H. destruct x; [|done]. by vm_compute in E. Qed.

Lemma Atoi_pretty (z n : Z) : SlotAffinity.Atoi (pretty z) = Some n -> n = z.
Proof.
  destruct z as [|p|p].
  - by intros [= <-].
  - change (pretty (Z.pos p)) with (pretty (N.pos p)).
    rewrite (Atoi_unsigned _ _ (parse_digits_pretty _) (pretty_ne_empty _)). by destruct (_ && _); intros [= <-].
  - change (pretty (Z.neg p)) with ("-" +:+ pretty (N.pos p)). pose proof (parse_digits_pretty (N.pos p)) as Hp.
    pose proof (pretty_ne_empty (N.pos p)) as Hne. destruct (pretty (N.pos p)) as [|c s]; [done|].
    change ("-" +:+ String c s) with (String (Ascii.ascii_of_nat 45) (String c s)). unfold SlotAffinity.Atoi.
    change (Ascii.nat_of_ascii (Ascii.ascii_of_nat 45) =? 45)%nat with true. unfold SlotAffinity.parse_unsigned.
    rewrite Hp. simpl. by destruct (_ && _); intros [= <-].
Qed.

Lemma Forall2_partner {A B} (P : A -> B -> Prop) l k x : Forall2 P l k -> x ∈ l -> exists y, y ∈ k /\ P x y.
Proof.
  induction 1 as [|a b l k Hab H IH]; [by intros ?%elem_of_nil|]. intros [->|Hin]%elem_of_cons.
  - exists b. split; [by left|done].
  - destruct (IH Hin) as (y & ? & ?). exists y. split; [by right|done].
Qed.

(** ** What rows show *)

Definition shows (row : sessionEntry) : bool :=
  negb ((Cached (Context row) =? 0) && (Processed (Context row) =? 0) && (Decoded (Context row) =? 0)).

Definition place_of (row : sessionEntry) : string * option Z := (Model row, Slot row).

(** The slots whose counters some rows show. *)
Definition slots_shown (rows : list sessionEntry) : list (string * option Z) := place_of <$> List.filter shows rows.

Lemma core_fields row row' : core row = core row' ->
  Model row = Model row' /\ Slot row = Slot row' /\ Context row = Context row' /\ SessionID row = SessionID row'.
Proof. unfold core. intros [= ]. done. Qed.

Lemma slots_shown_core rows rows' : core <$> rows = core <$> rows' -> slots_shown rows = slots_shown rows'.
Proof.
  revert rows'. induction rows as [|row rows IH]; intros [|row' rows'] Hc; try done.
  pose proof (f_equal (hd (core row)) Hc) as Hrow. pose proof (f_equal (@tl _) Hc) as Hrows. cbn [hd tl fmap list_fmap] in Hrow, Hrows.
  apply core_fields in Hrow as (Hm & Hs & Hx & _). unfold slots_shown. simpl.
  assert (shows row = shows row') as -> by (unfold shows; by rewrite Hx).
  specialize (IH rows' Hrows).
  destruct (shows row'); simpl; [|exact IH]. f_equal; [unfold place_of; congruence|exact IH].
Qed.

Lemma slots_shown_app rows rows' : slots_shown (rows ++ rows') = slots_shown rows ++ slots_shown rows'.
Proof. unfold slots_shown. by rewrite List.filter_app, fmap_app. Qed.

Lemma elem_of_slots_shown p rows : p ∈ slots_shown rows <-> exists row, row ∈ rows /\ shows row = true /\ place_of row = p.
Proof.
  unfold slots_shown. rewrite list_elem_of_fmap. split.
  - intros (row & -> & [Hin Hs]%elem_of_filterb). by exists row.
  - intros (row & Hin & Hs & <-). exists row. split; [done|]. by apply elem_of_filterb.
Qed.

Lemma slots_shown_perm rows rows' : rows ≡ₚ rows' -> slots_shown rows ≡ₚ slots_shown rows'.
Proof.
  intros H. apply fmap_Permutation, filterb_perm, H.
Qed.

Lemma slots_shown_inj {X} (f : X -> sessionEntry) l : NoDup l ->
  (forall x y, x ∈ l -> y ∈ l -> shows (f x) = true -> shows (f y) = true -> place_of (f x) = place_of (f y) -> x = y) ->
  NoDup (slots_shown (f <$> l)).
Proof.
  induction l as [|x l IH]; intros Hnd Hinj; [constructor|]. inversion_clear Hnd as [|? ? Hx Hnd'].
  assert (NoDup (slots_shown (f <$> l))) as Hl by (apply IH; [done|]; intros; apply Hinj; by try right).
  unfold slots_shown. simpl. destruct (shows (f x)) eqn:Es; [|done]. simpl. constructor; [|done].
  intros (row & (y & -> & Hy)%list_elem_of_fmap & Hsy & Hp)%elem_of_slots_shown. apply Hx.
  rewrite (Hinj x y); [done|by left|by right|done|done|done].
Qed.

Lemma requestRow_shows cfg input r owners : shows (requestRow cfg input r owners) = true ->
  is_admitted input r = true /\ may_read owners r = true /\ Model (requestRow cfg input r owners) = Inflight.Model r /\
  exists n sl, SlotAffinity.Atoi (slot_string (Inflight.meta r)) = Some n /\ Slot (requestRow cfg input r owners) = Some n /\
    findSlot (default [] (Slots input !! Inflight.Model r)) n = Some sl /\
    (let c := Context (requestRow cfg input r owners) in
     (Cached c, Processed c, Decoded c) = (NPromptTokensCache sl, NPromptTokensProcessed sl, NDecoded sl)).
Proof.
  unfold requestRow, is_admitted. destruct (requestRank _ =? 0); [|done]. destruct (model_ready _ _); [|done]. simpl.
  set (row0 := arrivedRow cfg input r <| Phase ::= phasePrefill |>).
  assert (forall row c, (Cached (with_estimate (Inflight.meta r) c), Processed (with_estimate (Inflight.meta r) c),
      Decoded (with_estimate (Inflight.meta r) c)) = (Cached c, Processed c, Decoded c) /\
    let row' := admittedRow input r owners row in
    Model row' = Model (bind_slot input r owners (row <| Phase ::= phasePrefill |>)) /\
    Slot row' = Slot (bind_slot input r owners (row <| Phase ::= phasePrefill |>)) /\
    (Cached (Context row'), Processed (Context row'), Decoded (Context row')) =
    (let c := with_estimate (Inflight.meta r) (Context (bind_slot input r owners (row <| Phase ::= phasePrefill |>))) in
     (Cached c, Processed c, Decoded c))) as Ha.
  { intros row c. split; [unfold with_estimate; row_cases|]. unfold admittedRow.
    destruct (bind_slot _ _ _ _). simpl. destruct (0 <? _); [done|]. by destruct (0 <? _). }
  destruct (Ha (arrivedRow cfg input r) (Context (bind_slot input r owners row0))) as (He & Hm & Hs & Hc).
  fold row0 in Hm, Hs, Hc. set (row' := admittedRow input r owners (arrivedRow cfg input r)) in *. cbn zeta in Hc. rewrite He in Hc.
  intros Hsh. assert (exists n sl, SlotAffinity.Atoi (slot_string (Inflight.meta r)) = Some n /\
    findSlot (default [] (Slots input !! Inflight.Model r)) n = Some sl /\ may_read owners r = true /\ IsProcessing sl = true)
    as (n & sl & Hn & Hf & Hr & Hp).
  { unfold shows in Hsh. injection Hc as E1 E2 E3. rewrite E1, E2, E3 in Hsh. unfold bind_slot in Hsh.
    destruct (SlotAffinity.Atoi _) as [n|]; [|done]. destruct (findSlot _ n) as [sl|] eqn:Ef; [|done].
    destruct (may_read owners r); [|done]. exists n, sl. split_and!; [done|done|done|].
    destruct (IsProcessing sl) eqn:Ep; [done|]. unfold read_slot in Hsh. simpl in Hsh. by rewrite Ep in Hsh. }
  unfold bind_slot in Hm, Hs, Hc. rewrite Hn, Hf, Hr in Hm, Hs, Hc. unfold read_slot in Hc. rewrite Hp in Hc. simpl in *.
  split_and!; [done|done|done|]. by exists n, sl.
Qed.

Lemma hotRow_shows cfg input prev model h copy :
  let row := hotRow cfg input prev model h copy in
  Model row = model /\ Slot row = Some (SlotAffinity.hs_Slot h) /\ (shows row = true -> copy = true).
Proof. unfold hotRow, shows. destruct prev, (findSlot _ _) as [sl|], copy; try destruct (0 <? _); done. Qed.

(** ** Whom a slot belongs to *)

Definition claims (input : sessionsInput) (ms : string) (kr : string * Inflight.InflightRequestEntry) : bool :=
  is_admitted input kr.2 && bool_decide (is_Some (SlotAffinity.Atoi (slot_string (Inflight.meta kr.2)))) &&
  String.eqb (slot_key (Inflight.Model kr.2) (slot_string (Inflight.meta kr.2))) ms.

Lemma slot_owners_claims input chosen ms : (forall kr, kr ∈ chosen -> kr.1 <> "") ->
  slot_owners input chosen !! ms =
  match List.filter (claims input ms) chosen with [] => None | [kr] => Some kr.1 | _ => Some "" end.
Proof.
  unfold slot_owners. induction chosen as [|[key r] chosen IH] using rev_ind; intros Hne; [apply lookup_empty|].
  rewrite foldl_app, List.filter_app. simpl. specialize (IH ltac:(intros; apply Hne, elem_of_app; by left)).
  assert (key <> "") as Hk by (apply (Hne (key, r)), elem_of_app; right; by left).
  unfold claims at 2. simpl. destruct (is_admitted input r); simpl; [|by rewrite app_nil_r].
  destruct (SlotAffinity.Atoi _) as [n|]; simpl; [|by rewrite app_nil_r].
  set (ms' := slot_key _ _). set (owners := foldl _ _ chosen) in *.
  destruct (String.eqb_spec ms' ms) as [->|Hms]; simpl; [|rewrite app_nil_r, <- IH; destruct (owners !! ms') as [prev|]; [destruct (String.eqb prev "")|]; by rewrite ?lookup_insert_ne].
  rewrite IH. destruct (List.filter _ chosen) as [|kr1 [|kr2 l]] eqn:Ef; simpl.
  - by rewrite lookup_insert_eq.
  - assert (kr1.1 <> "") as Hk1 by (apply Hne, elem_of_app; left; apply (elem_of_filterb (claims input ms)); rewrite Ef; by left).
    rewrite (proj2 (String.eqb_neq _ _) Hk1). by rewrite lookup_insert_eq.
  - exact IH.
Qed.

(** ** The rows of one build *)

Section build.
Variable cfg : config.
Variable range : forall A : Type, gmap string A -> list (string * A).
Hypothesis range_perm : forall A (m : gmap string A), range A m ≡ₚ map_to_list m.

Definition hot_source (input : sessionsInput) (owners : gmap string string) (row : sessionEntry)
  (mh : string * SlotAffinity.HotSlot) : Prop :=
  exists prev, core row = core (hotRow cfg input prev mh.1 mh.2
    (bool_decide (owners !! slot_key mh.1 (pretty (SlotAffinity.hs_Slot mh.2)) = None))).

Lemma hot_fold_cores input held owners hots s : exists hots' rows,
  hots' `sublist_of` hots /\
  b_rows (foldl (fun s mh => hot_step cfg input held owners mh.1 s mh.2) s hots) = b_rows s ++ rows /\
  Forall2 (hot_source input owners) rows hots'.
Proof.
  induction hots as [|[model h] hots IH] using rev_ind; [exists [], []; by rewrite app_nil_r|].
  destruct IH as (hots' & rows & Hsub & Hrows & Hc). rewrite foldl_app. simpl. set (s1 := foldl _ s hots) in *.
  unfold hot_step. destruct (_ || _).
  { exists hots', rows. split_and!; [by apply sublist_inserts_r|done|done]. }
  match goal with |- context [stamp_rest ?c ?i ?hd ?b ?l ?k ?row] =>
    pose proof (stamp_rest_core c i hd b l k row) as Hcr; destruct (stamp_rest c i hd b l k row) as [[b' l'] row'] end.
  simpl in *. exists (hots' ++ [(model, h)]), (rows ++ [row']). rewrite Hrows, app_assoc. split_and!; [by apply sublist_app|done|].
  apply Forall2_app; [done|]. constructor; [|done]. eexists. exact Hcr.
Qed.

Lemma idle_fold_cores input held kms s : exists rows,
  b_rows (foldl (idle_step cfg input held) s kms) = b_rows s ++ rows /\ slots_shown rows = [].
Proof.
  induction kms as [|[k m] kms IH] using rev_ind; [exists []; by rewrite app_nil_r|].
  destruct IH as (rows & Hrows & Hc). rewrite foldl_app. simpl. set (s1 := foldl _ s kms) in *. unfold idle_step.
  destruct (if _ <=? _ then _ else _) as [[] l]; [by exists rows|].
  pose proof (stamp_rest_core cfg input held (b_builder s1) l k (idleRow cfg input m)) as Hr.
  destruct (stamp_rest _ _ _ _ _ _ _) as [[b' l'] row']. simpl in *. exists (rows ++ [row']).
  rewrite Hrows, app_assoc. split; [done|]. rewrite slots_shown_app, Hc. unfold slots_shown. simpl.
  apply core_fields in Hr as (_ & _ & Hx & _). assert (shows row' = false) as -> by (unfold shows; by rewrite Hx). done.
Qed.

(** Requests name their slot in the form in which the proxy writes it, and the hot
    slots of a model are listed once each ([hot_slots_once]). *)
Definition canonical (input : sessionsInput) : Prop :=
  (forall r n, r ∈ Requests input -> SlotAffinity.Atoi (slot_string (Inflight.meta r)) = Some n -> slot_string (Inflight.meta r) = pretty n) /\
  (forall model hs, Hot input !! model = Some hs -> NoDup (SlotAffinity.hs_Slot <$> hs)).

Lemma bind_lane_slot input adm key r n :
  (forall n, SlotAffinity.Atoi (slot_string (Inflight.meta r)) = Some n -> slot_string (Inflight.meta r) = pretty n) ->
  let r' := (bind_lane input adm (key, r)).2 in
  SlotAffinity.Atoi (slot_string (Inflight.meta r')) = Some n -> slot_string (Inflight.meta r') = pretty n.
Proof.
  intros Hr. unfold bind_lane. destruct (adm !! _) as [[|k [|]]|]; try apply Hr.
  destruct (Slots input !! _) as [[|sl [|]]|]; try apply Hr. destruct (_ && _ && _); [|apply Hr].
  simpl. set (m := <["slot_id" := _]> _). assert (slot_string m = pretty (cs_ID sl)) as E.
  { unfold slot_string, get, m. rewrite lookup_insert_eq. simpl.
    destruct (String.eqb_spec (pretty (cs_ID sl)) "") as [E|]; [|done].
    destruct (cs_ID sl) as [|p|p]; [done|by destruct (pretty_ne_empty (N.pos p))|done]. }
  change (Inflight.meta (Inflight.set_metadata r (Some m))) with m. rewrite E. intros H. by rewrite (Atoi_pretty _ _ H).
Qed.

Lemma chosen_slot input rs kr n :
  (forall r n, r ∈ rs -> SlotAffinity.Atoi (slot_string (Inflight.meta r)) = Some n -> slot_string (Inflight.meta r) = pretty n) ->
  kr ∈ bind_lane input (admitted input (choose rs)) <$> choose rs ->
  SlotAffinity.Atoi (slot_string (Inflight.meta kr.2)) = Some n -> slot_string (Inflight.meta kr.2) = pretty n.
Proof.
  intros Hr ([key r] & -> & Hin)%list_elem_of_fmap. apply bind_lane_slot. intros n'. apply Hr.
  by apply (proj1 (proj2 (choose_spec rs))) in Hin as [_ ?].
Qed.

Lemma request_key_ne r : request_key r <> "".
Proof. unfold request_key. by destruct (String.eqb_spec (get (Inflight.meta r) "session_id") ""). Qed.

Lemma bind_lane_key input adm kr : request_key (bind_lane input adm kr).2 = request_key kr.2.
Proof.
  destruct (bind_lane_entry input adm kr) as (_ & [m Hm] & Hk). unfold request_key, get.
  rewrite Hk by done. by rewrite Hm.
Qed.

Lemma live_slots b l input : canonical input ->
  NoDup (slots_shown (b_rows (live_rows cfg range b l input))).
Proof.
  intros [Hcan Hhot]. unfold live_rows. set (chosen := bind_lane _ _ <$> choose _). set (owners := slot_owners input chosen).
  match goal with |- context [foldl (request_step cfg input ?h owners) ?s0 chosen] => set (held := h); set (s := s0) end.
  destruct (request_fold cfg input held owners chosen s) as (_ & _ & Hrows & _). set (s1 := foldl _ s chosen) in *.
  rewrite hot_fold_flat. set (flat := flat_hot _).
  destruct (hot_fold_cores input held owners flat s1) as (hots & rows & Hsub & -> & Hsrc).
  destruct (choose_spec (Requests input)) as (Hnd & Hch & _).
  assert (forall kr, kr ∈ chosen -> kr.1 = request_key kr.2) as Hkey.
  { intros kr (kr0 & -> & Hin)%list_elem_of_fmap. rewrite bind_lane_key, (proj1 (bind_lane_entry _ _ _)). destruct kr0. symmetry. by apply Hch. }
  assert (forall kr, kr ∈ chosen -> kr.1 <> "") as Hne by (intros kr Hin; rewrite (Hkey kr Hin); apply request_key_ne).
  assert (NoDup chosen.*1) as Hndc.
  { unfold chosen. rewrite bound_keys. done. }
  assert (forall kr, kr ∈ chosen -> shows (requestRow cfg input kr.2 owners) = true -> exists n,
    place_of (requestRow cfg input kr.2 owners) = (Inflight.Model kr.2, Some n) /\
    claims input (slot_key (Inflight.Model kr.2) (pretty n)) kr = true /\
    List.filter (claims input (slot_key (Inflight.Model kr.2) (pretty n))) chosen = [kr]) as Hshow.
  { intros kr Hin Hsh. apply requestRow_shows in Hsh as (Had & Hmr & Hm & n & sl & Hn & Hs & _). exists n.
    assert (slot_string (Inflight.meta kr.2) = pretty n) as Hstr by (by apply (chosen_slot input (Requests input))).
    assert (claims input (slot_key (Inflight.Model kr.2) (pretty n)) kr = true) as Hcl.
    { unfold claims. rewrite Had, Hn, Hstr, bool_decide_true, String.eqb_refl by done. done. }
    split; [unfold place_of; by rewrite Hm, Hs|]. split; [done|].
    unfold may_read, owners in Hmr. rewrite Hstr, slot_owners_claims in Hmr by done.
    assert (kr ∈ List.filter (claims input (slot_key (Inflight.Model kr.2) (pretty n))) chosen) as Hf by (by apply elem_of_filterb).
    destruct (List.filter _ chosen) as [|kr1 [|kr2 rest]]; [by apply elem_of_nil in Hf| |].
    - apply list_elem_of_singleton in Hf. by subst.
    - apply String.eqb_eq in Hmr. by destruct (request_key_ne kr.2). }
  rewrite slots_shown_app. apply NoDup_app. split_and!.
  - rewrite (slots_shown_core (b_rows s1) ((fun kr => requestRow cfg input kr.2 owners) <$> chosen)).
    2:{ rewrite Hrows. simpl. by rewrite <- list_fmap_compose. }
    apply (slots_shown_inj (fun kr => requestRow cfg input kr.2 owners)); [by eapply NoDup_fmap_1|].
    intros x y Hx Hy Hsx Hsy Hp. destruct (Hshow x Hx Hsx) as (n & Hpx & Hcx & Hfx), (Hshow y Hy Hsy) as (n' & Hpy & Hcy & Hfy).
    rewrite Hpx, Hpy in Hp. injection Hp as Hmm <-. rewrite <- Hmm, Hfx in Hfy. congruence.
  - intros p (row & Hin & Hs & Hp)%elem_of_slots_shown (row' & Hin' & Hs' & Hp')%elem_of_slots_shown.
    assert (exists kr, kr ∈ chosen /\ core row = core (requestRow cfg input kr.2 owners)) as (kr & Hkr & Hc).
    { apply (list_elem_of_fmap_2 core) in Hin. rewrite Hrows in Hin. simpl in Hin.
      apply list_elem_of_fmap in Hin as (kr & ? & ?). by exists kr. }
    apply (Forall2_partner _ _ _ _ Hsrc) in Hin' as ([model h] & Hh & prev & Hc'). simpl in Hc'.
    destruct (hotRow_shows cfg input prev model h (bool_decide (owners !! slot_key model (pretty (SlotAffinity.hs_Slot h)) = None)))
      as (Hm2 & Hs2 & Hcopy).
    apply core_fields in Hc as (Hm & Hsl & Hx & _), Hc' as (Hm' & Hsl' & Hx' & _).
    destruct (Hshow kr Hkr) as (n & Hpk & Hcl & Hf); [unfold shows in *; by rewrite <- Hx|].
    unfold shows in Hs'. rewrite Hx' in Hs'. specialize (Hcopy Hs'). apply bool_decide_eq_true in Hcopy.
    assert (place_of row = (Inflight.Model kr.2, Some n)) as Hpr by (rewrite <- Hpk; unfold place_of; by rewrite Hm, Hsl).
    unfold place_of in Hp'. rewrite Hm', Hsl', Hm2, Hs2 in Hp'. rewrite <- Hp' in Hp. rewrite Hpr in Hp. injection Hp as E1 E2. rewrite <- E1, <- E2 in Hcopy.
    unfold owners in Hcopy. rewrite slot_owners_claims, Hf in Hcopy by done. done.
  - assert (NoDup ((fun mh => (mh.1, SlotAffinity.hs_Slot mh.2)) <$> hots)) as Hndh.
    { eapply sublist_NoDup; [|apply fmap_sublist, Hsub]. unfold flat, flat_hot.
      assert (forall m hs, (m, hs) ∈ range _ (Hot input) -> NoDup (SlotAffinity.hs_Slot <$> hs)) as Hok
        by (intros m hs Hin; apply (elem_of_range range range_perm) in Hin; by eapply Hhot).
      pose proof (range_keys range range_perm (Hot input)) as Hk. revert Hok Hk. generalize (range (list SlotAffinity.HotSlot) (Hot input)). clear.
      induction l as [|[m hs] l IH]; intros Hok Hk; [constructor|]. simpl. rewrite fmap_app. inversion_clear Hk as [|? ? Hm Hk'].
      apply NoDup_app. split_and!; [| |apply IH; [|done]; intros m' hs' Hin; apply (Hok m'); by right].
      - specialize (Hok m hs ltac:(by left)). clear -Hok. induction hs as [|h hs IH]; [constructor|]. simpl in *.
        inversion_clear Hok as [|? ? Hh Hok']. constructor; [|by apply IH]. intros (x & Hx & Hin)%list_elem_of_fmap.
        apply list_elem_of_In, in_map_iff in Hin as (h' & <- & Hin). injection Hx as He.
        apply Hh. apply list_elem_of_fmap. exists h'. split; [exact He|by apply list_elem_of_In].
      - intros [m' n] (mh & [= -> ->] & Hin)%list_elem_of_fmap (mh' & [= He _] & Hin')%list_elem_of_fmap.
        apply list_elem_of_In, in_map_iff in Hin as (h & <- & _). apply list_elem_of_In, in_flat_map in Hin' as ([m2 hs2] & Hin2 & Hh2).
        apply in_map_iff in Hh2 as (h2 & <- & _). simpl in He. subst m2. apply Hm, list_elem_of_fmap. exists (m, hs2). split; [done|].
        by apply list_elem_of_In. }
    clear -Hndh Hsrc. induction Hsrc as [|row [m h] rows hots (prev & Hc) Hall IH]; [constructor|]. simpl in Hndh.
    inversion_clear Hndh as [|? ? Hh Hnd']. specialize (IH Hnd'). unfold slots_shown. simpl. destruct (shows row); [|exact IH].
    simpl. constructor; [|exact IH]. intros (row' & Hin & Hs & Hp)%elem_of_slots_shown. apply Hh, list_elem_of_fmap.
    apply (Forall2_partner _ _ _ _ Hall) in Hin as ([m' h'] & Hh' & prev' & Hc'). exists (m', h'). split; [|done].
    apply core_fields in Hc as (Hm & Hsl & _), Hc' as (Hm' & Hsl' & _). unfold place_of in Hp. rewrite Hm, Hsl, Hm', Hsl' in Hp. simpl in *.
    destruct (hotRow_shows cfg input prev m h (bool_decide (owners !! slot_key m (pretty (SlotAffinity.hs_Slot h)) = None))) as (E1 & E2 & _).
    destruct (hotRow_shows cfg input prev' m' h' (bool_decide (owners !! slot_key m' (pretty (SlotAffinity.hs_Slot h')) = None))) as (E3 & E4 & _).
    rewrite E1, E2, E3, E4 in Hp. by injection Hp as -> ->.
Qed.

(** The counters of a child's slot are shown by one row at most, whoever names
    the slot, whatever was built before. *)
Theorem slot_counters_once b l input : canonical input ->
  NoDup (slots_shown (Sessions (build cfg range b l input).2)).
Proof.
  intros Hcan. unfold build. simpl. rewrite slots_shown_perm by apply sort_rows_perm. unfold all_rows.
  match goal with |- context [foldl (idle_step cfg input ?h) ?s ?kms] => destruct (idle_fold_cores input h kms s) as (rows & -> & Hr) end.
  rewrite slots_shown_app, Hr, app_nil_r. by apply live_slots.
Qed.

End build.
End SessionsSlots.
