(* ===== verification/SessionsZero.v ===== *)
(** One build as a sequence of steps, each of which makes one row or drops memory: the
    induction that the theorems on the stamps use; and the stamp of the numbers a
    session shows. *)

From stdpp Require Import pretty.
From Stdlib Require Import SpecFloat.
From S2P Require Import Prelude RecordSet Float64 Tier SchedTypes LoopTrack SlotAffinity Inflight SessionRows Sessions SessionsBase SessionsListed.

Module SessionsSteps.
Import Float64 Sched SessionRows Sessions SessionsBase SessionsListed.
Open Scope string_scope.
Open Scope list_scope.
Open Scope Z_scope.

(** What is remembered of decoding and of the numbers shown. *)
Definition memory (b : sessionsBuilder) := (lastDecode b, lastDecodeReadout b, lastUsed b, lastRate b).

(** The rate samples of [b'] are those of [b], or fewer. *)
Definition fewer_samples (b b' : sessionsBuilder) : Prop := forall key hist, rates b' !! key = Some hist -> rates b !! key = Some hist.

Section build.
Variable cfg : config.

Inductive row_step (input : sessionsInput) (s : building) : building -> Prop :=
| StepSkip b l p : memory b = memory (b_builder s) -> fewer_samples (b_builder s) b ->
    row_step input s (mkBuilding b l p (b_rows s))
| StepRequest held key r row b l row' p :
    (SessionID row <> "" -> key = SessionID row) -> (plain key -> SessionID row = key) -> RequestID row = Some (Inflight.ID r) ->
    stamp_request cfg input held (b_builder s) (b_loops s) key r row = (b, l, row') -> Display row = None ->
    Rate row = mkRate None None ->
    row_step input s (mkBuilding b l p (b_rows s ++ [row']))
| StepRest held key row b1 l1 b l row' p :
    (SessionID row <> "" -> key = SessionID row) -> Phase row <> phaseDecode ->
    memory b1 = memory (b_builder s) -> fewer_samples (b_builder s) b1 ->
    stamp_rest cfg input held b1 l1 key row = (b, l, row') -> Display row = None -> Rate row = mkRate None None ->
    row_step input s (mkBuilding b l p (b_rows s ++ [row'])).

Lemma fewer_refl b : fewer_samples b b.
Proof. by intros key hist. Qed.

Lemma requestRow_blank input r owners :
  Display (requestRow cfg input r owners) = None /\ Rate (requestRow cfg input r owners) = mkRate None None.
Proof.
  unfold requestRow. destruct (negb _); [done|]. destruct (negb _); [done|]. unfold admittedRow.
  assert (forall row, Display (bind_slot input r owners row) = Display row /\ Rate (bind_slot input r owners row) = Rate row)
    as Hb by (intros row; unfold bind_slot; row_cases).
  destruct (Hb (arrivedRow cfg input r <| Phase ::= phasePrefill |>)) as [H1 H2].
  destruct (bind_slot _ _ _ _) as [] eqn:E. simpl in *. subst. by repeat destruct (_ <? _).
Qed.

Lemma request_step_row input held owners s kr :
  (session_of kr.2 <> "" -> kr.1 = session_of kr.2) -> (plain kr.1 -> session_of kr.2 = kr.1) -> row_step input s (request_step cfg input held owners s kr).
Proof.
  destruct kr as [key r]. simpl. intros Hk Hp. unfold request_step.
  destruct (stamp_request _ _ _ _ _ _ _ _) as [[b l] row'] eqn:E.
  destruct (requestRow_id cfg input r owners) as [H1 H2], (requestRow_blank input r owners) as [H3 H4].
  eapply StepRequest; [| |exact H2|exact E|exact H3|exact H4]; by rewrite H1.
Qed.

Lemma hot_step_row input held owners model s h : row_step input s (hot_step cfg input held owners model s h).
Proof.
  unfold hot_step. destruct (_ || _); [destruct s; by apply (StepSkip _ (mkBuilding _ _ _ _)); [|apply fewer_refl]|].
  match goal with |- context [stamp_rest ?c ?i ?hd ?b ?l ?k ?row] => destruct (stamp_rest c i hd b l k row) as [[b' l'] row'] eqn:E end.
  eapply StepRest; [| | | |exact E| |].
  - by rewrite hotRow_id.
  - unfold hotRow. row_cases.
  - done.
  - intros key hist H. simpl in H. by apply lookup_delete_Some in H as [_ ?].
  - unfold hotRow. row_cases.
  - unfold hotRow. row_cases.
Qed.

Lemma idle_step_row input held s km :
  SessionID (i_entry km.2) = km.1 -> row_step input s (idle_step cfg input held s km).
Proof.
  destruct km as [key m]. simpl. intros Hk. unfold idle_step.
  destruct (if _ <=? _ then _ else _) as [[] l]; [apply StepSkip; [done|by intros ? ?]|].
  destruct (stamp_rest _ _ _ _ _ _ _) as [[b' l'] row'] eqn:E.
  eapply StepRest; [| | | |exact E| |]; [done|done|done|apply fewer_refl|done|done].
Qed.

Lemma know_rows_memory b rows : memory (foldl know_row b rows) = memory b /\ rates (foldl know_row b rows) = rates b.
Proof.
  revert b. induction rows as [|row rows IH]; intros b; [done|]. simpl. destruct (IH (know_row b row)) as [-> ->].
  unfold know_row. by destruct (String.eqb _ _).
Qed.

Lemma fold_steps {A} input (f : building -> A -> building) l s :
  (forall s x, x ∈ l -> row_step input s (f s x)) -> rtc (row_step input) s (foldl f s l).
Proof.
  revert s. induction l as [|x l IH]; intros s Hf; simpl; [done|]. eapply rtc_l; [apply Hf; by left|].
  apply IH. intros s' y Hy. apply Hf. by right.
Qed.

Variable range : forall A : Type, gmap string A -> list (string * A).
Hypothesis range_perm : forall A (m : gmap string A), range A m ≡ₚ map_to_list m.

Lemma all_rows_steps b l input : kept_ok b ->
  rtc (row_step input) (mkBuilding (b <| slotWarmUntil ::= i_SlotWarmUntil input |>) l ∅ []) (all_rows cfg range b l input).
Proof.
  intros Hok. unfold all_rows. destruct (remembered cfg range range_perm b l input Hok) as ([_ H2 _] & _).
  etrans; [|etrans; [apply rtc_once; eapply (StepSkip input (live_rows cfg range b l input))|apply fold_steps]].
  - unfold live_rows. rewrite hot_fold_flat. etrans; [eapply fold_steps|eapply fold_steps].
    + intros s kr Hin. destruct (bound_requests _ _ _ _ Hin) as (r & _ & Hk & Hs).
      apply request_step_row; rewrite Hs, Hk; [apply request_key_session|]. intros Hp. by apply request_key_plain.
    + intros s mh _. apply hot_step_row.
  - unfold remember_rows. by destruct (know_rows_memory (b_builder (live_rows cfg range b l input) <| idle ::=
      foldl (start_idle (Now input) (b_present (live_rows cfg range b l input))) (idle (b_builder (live_rows cfg range b l input)))
      (range _ (known (b_builder (live_rows cfg range b l input)))) |> <| known ::= ∅ |>) (b_rows (live_rows cfg range b l input))) as [-> _].
  - unfold remember_rows. intros key hist. by destruct (know_rows_memory (b_builder (live_rows cfg range b l input) <| idle ::=
      foldl (start_idle (Now input) (b_present (live_rows cfg range b l input))) (idle (b_builder (live_rows cfg range b l input)))
      (range _ (known (b_builder (live_rows cfg range b l input)))) |> <| known ::= ∅ |>) (b_rows (live_rows cfg range b l input))) as [_ ->].
  - intros s [key m] Hin. apply idle_step_row. simpl. apply (elem_of_range range range_perm) in Hin. by apply H2.
Qed.

(** Whatever the steps preserve holds of the rows and the memory of a build. *)
Lemma build_ind (P : building -> Prop) b l input : kept_ok b ->
  P (mkBuilding (b <| slotWarmUntil ::= i_SlotWarmUntil input |>) l ∅ []) ->
  (forall s s', row_step input s s' -> P s -> P s') -> P (all_rows cfg range b l input).
Proof.
  intros Hok H0 Hs. pose proof (all_rows_steps b l input Hok) as Hr.
  revert H0. induction Hr as [|s1 s2 s3 H12 H23 IH]; [done|]. intros H1. apply IH. by eapply Hs.
Qed.

End build.
End SessionsSteps.

(** ** No menu shows a zero that was not measured: the numbers a session shows once
    it had context, and the rates. *)

Module SessionsZero.
Import Float64 Sched SessionRows Sessions SessionsBase SessionsListed SessionsSteps.
Open Scope string_scope.
Open Scope list_scope.
Open Scope Z_scope.

Lemma positive_not_zero r : positive_rate r = true -> is_zero_rate r = false.
Proof.
  unfold positive_rate, is_zero_rate. destruct (TokensPerSecond r) as [v|]; [|done].
  unfold fltb, SFltb, SFeqb, of_int. destruct v as [|s| |s m e]; try destruct s; done.
Qed.

(** ** The last stamp *)

(** The numbers remembered are no zeros. *)
Record numbers_ok (b : sessionsBuilder) : Prop := {
  n_used : forall k v, lastUsed b !! k = Some v -> 0 < v;
  n_rate : forall k r, lastRate b !! k = Some r -> is_zero_rate r = false;
}.

Lemma remember_nonzero_ok b key row : numbers_ok b -> numbers_ok (remember_nonzero b key row).
Proof.
  intros [H1 H2]. unfold remember_nonzero. destruct (Z.ltb_spec 0 (Used (Context row))), (rateMeasured _ && positive_rate _) eqn:E; split; simpl;
    repeat match goal with
    | |- forall k v, <[_ := _]> _ !! k = Some v -> _ => intros k v [[_ <-]|[_ ?]]%lookup_insert_Some
    end; eauto; by apply andb_true_iff in E as [_ ?%positive_not_zero].
Qed.

Lemma remember_nonzero_used b key row :
  lastUsed (remember_nonzero b key row) = if 0 <? Used (Context row) then <[key := Used (Context row)]> (lastUsed b) else lastUsed b.
Proof. unfold remember_nonzero. by destruct (0 <? _), (_ && _). Qed.

Lemma stampNoZero_shown b key row : numbers_ok b -> SessionID row <> "" ->
  let '(b', row') := stampNoZero b key row in
  b' = remember_nonzero b key row /\ is_zero_rate (shown_rate row') = false /\
  (is_Some (lastUsed b' !! key) -> shown_used row' <> 0).
Proof.
  intros Hok Hid. unfold stampNoZero. rewrite (proj2 (String.eqb_neq _ _) Hid).
  pose proof (remember_nonzero_ok b key row Hok) as [Hu Hr]. set (b' := remember_nonzero b key row) in *. clearbody b'.
  set (row1 := match lastUsed b' !! key with Some _ => _ | None => row end).
  assert (is_Some (lastUsed b' !! key) -> shown_used row1 <> 0) as H1.
  { intros [v Hv]. unfold row1. rewrite Hv. apply Hu in Hv. destruct (Z.eqb_spec (shown_used row) 0); [|done].
    unfold shown_used. simpl. lia. }
  clearbody row1. split; [done|]. destruct (is_zero_rate (shown_rate row1)) eqn:Ez; [|by split]. split.
  - set (shown := shown_rate row1) in *. clearbody shown. unfold shown_rate. simpl. destruct (Kind shown) as [k|]; [|done].
    destruct (lastRate b' !! (key, k)) as [r|] eqn:Er; [|done]. by eapply Hr.
  - intros Hs. specialize (H1 Hs). revert H1. unfold shown_used, ensured. simpl. by destruct (Display row1).
Qed.

Lemma stamp_request_last cfg input held b l key r row : exists b1 row1,
  lastUsed b1 = lastUsed b /\ lastRate b1 = lastRate b /\ core row1 = core row /\
  let '(b', _, row') := stamp_request cfg input held b l key r row in (b', row') = stampNoZero b1 key row1.
Proof.
  unfold stamp_request.
  pose proof (applyLoopState_core input l row held) as H1. destruct (applyLoopState _ _ _ _) as [row1 l1].
  pose proof (stampPhaseSince_core b key row1 (Now input) (Inflight.Timestamp r)) as H2.
  assert (lastUsed (stampPhaseSince b key row1 (Now input) (Inflight.Timestamp r)).1 = lastUsed b /\
    lastRate (stampPhaseSince b key row1 (Now input) (Inflight.Timestamp r)).1 = lastRate b) as [U2 R2]
    by (unfold stampPhaseSince; row_cases).
  destruct (stampPhaseSince _ _ _ _ _) as [b2 row2].
  pose proof (stampRate_core b2 key row2 (Now input) r) as H3.
  assert (lastUsed (stampRate b2 key row2 (Now input) r).1 = lastUsed b2 /\
    lastRate (stampRate b2 key row2 (Now input) r).1 = lastRate b2) as [U3 R3] by (unfold stampRate; row_cases).
  destruct (stampRate _ _ _ _ _) as [b3 row3].
  assert (lastUsed (stampDecodeReadout b3 key row3) = lastUsed b3 /\ lastRate (stampDecodeReadout b3 key row3) = lastRate b3)
    as [U4 R4] by (unfold stampDecodeReadout; row_cases).
  match goal with |- context [stampNoZero ?b ?k ?row] => exists b, row; destruct (stampNoZero b k row) end.
  rewrite stampDecodeDisplay_core, stampSlotWarmUntil_core. simpl in *. split_and!; [congruence|congruence|congruence|done].
Qed.

Lemma stamp_rest_last cfg input held b l key row : exists row1, core row1 = core row /\
  let '(b', _, row') := stamp_rest cfg input held b l key row in (b', row') = stampNoZero b key row1.
Proof.
  unfold stamp_rest.
  pose proof (applyLoopState_core input l row held). destruct (applyLoopState _ _ _ _) as [row1 l1].
  match goal with |- context [stampNoZero ?b ?k ?row] => exists row; destruct (stampNoZero b k row) end.
  split; [|done]. by rewrite stampDecodeDisplay_core, stampSlotWarmUntil_core.
Qed.

(** ** One build *)

Definition shows_no_zero (b0 b : sessionsBuilder) (row : sessionEntry) : Prop :=
  SessionID row <> "" ->
  is_zero_rate (shown_rate row) = false /\
  (0 < Used (Context row) -> is_Some (lastUsed b !! SessionID row)) /\
  (is_Some (lastUsed b0 !! SessionID row) \/ 0 < Used (Context row) -> shown_used row <> 0).

Record zero_inv (b0 : sessionsBuilder) (s : building) : Prop := {
  z_ok : numbers_ok (b_builder s);
  z_keep : forall k, is_Some (lastUsed b0 !! k) -> is_Some (lastUsed (b_builder s) !! k);
  z_rows : Forall (shows_no_zero b0 (b_builder s)) (b_rows s);
}.

Lemma zero_last b0 s b1 key row1 b' row' l p :
  zero_inv b0 s -> lastUsed b1 = lastUsed (b_builder s) -> lastRate b1 = lastRate (b_builder s) ->
  (SessionID row1 <> "" -> key = SessionID row1) -> (b', row') = stampNoZero b1 key row1 ->
  zero_inv b0 (mkBuilding b' l p (b_rows s ++ [row'])).
Proof.
  intros [Hok Hkeep Hrows] HU HR Hkey E.
  assert (numbers_ok b1) as Hok1 by (destruct Hok; split; [rewrite HU|rewrite HR]; done).
  pose proof (stampNoZero_core b1 key row1) as Hc. pose proof (stampNoZero_builder b1 key row1) as Hb.
  rewrite <- E in Hc, Hb. simpl in Hc, Hb.
  assert (forall k, is_Some (lastUsed (b_builder s) !! k) -> is_Some (lastUsed b' !! k)) as Hmono.
  { intros k Hk. rewrite Hb. destruct (String.eqb _ _); [by rewrite HU|]. rewrite remember_nonzero_used.
    destruct (0 <? _); [|by rewrite HU]. rewrite lookup_insert_is_Some', HU. by right. }
  split; simpl.
  - rewrite Hb. destruct (String.eqb _ _); [done|by apply remember_nonzero_ok].
  - intros k Hk. by apply Hmono, Hkeep.
  - apply Forall_app. split.
    + eapply Forall_impl; [exact Hrows|]. intros row Hrow Hne. destruct (Hrow Hne) as (? & ? & ?). split_and!; [done| |done].
      intros Hu. by apply Hmono; auto.
    + constructor; [|constructor]. intros Hne. pose proof (SessionID_core _ _ Hc) as Hid.
      assert (Context row' = Context row1) as Hx by (unfold core in Hc; congruence).
      rewrite Hid in Hne. specialize (Hkey Hne). pose proof (stampNoZero_shown b1 key row1 Hok1 Hne) as Hs.
      rewrite <- E in Hs. destruct Hs as (Hb' & Hz & Hu).
      assert (0 < Used (Context row1) -> is_Some (lastUsed b' !! key)) as Hnew.
      { intros Hpos. rewrite Hb', remember_nonzero_used, (proj2 (Z.ltb_lt 0 _) Hpos), lookup_insert_eq. by eexists. }
      rewrite Hid, <- Hkey, Hx. split_and!; [done|done|]. intros [Hk|Hpos]; apply Hu; [by apply Hmono, Hkeep|by apply Hnew].
Qed.

Section build.
Variable cfg : config.

Lemma zero_step b0 input s s' : row_step cfg input s s' -> zero_inv b0 s -> zero_inv b0 s'.
Proof.
  intros [b l p Hm Hf|held key r row b l row' p Hk Hpk Hr E Hd Hra|held key row b1 l1 b l row' p Hk Hp Hm Hf E Hd Hra] Hi.
  - injection Hm as _ _ Hu Hr. destruct Hi as [[H1 H1'] H2 H3]. split; simpl.
    + split; [rewrite Hu|rewrite Hr]; done.
    + intros k. rewrite Hu. apply H2.
    + eapply Forall_impl; [exact H3|]. intros row Hrow. unfold shows_no_zero. by rewrite Hu.
  - destruct (stamp_request_last cfg input held (b_builder s) (b_loops s) key r row) as (b1 & row1 & HU & HR & Hc & HE).
    rewrite E in HE. eapply zero_last; [exact Hi|exact HU|exact HR| |exact HE]. rewrite (SessionID_core _ _ Hc). done.
  - destruct (stamp_rest_last cfg input held b1 l1 key row) as (row1 & Hc & HE). rewrite E in HE.
    injection Hm as _ _ HU HR. eapply zero_last; [exact Hi|exact HU|exact HR| |exact HE]. rewrite (SessionID_core _ _ Hc). done.
Qed.

Variable range : forall A : Type, gmap string A -> list (string * A).
Hypothesis range_perm : forall A (m : gmap string A), range A m ≡ₚ map_to_list m.

Lemma zero_build b l input : kept_ok b -> numbers_ok b -> zero_inv b (all_rows cfg range b l input).
Proof.
  intros Hk [H1 H2]. apply (build_ind cfg range range_perm); [done| |intros s s'; apply zero_step].
  split; [by split|done|constructor].
Qed.

Lemma numbers_after hist : numbers_ok (after_builds cfg range hist).
Proof.
  induction hist as [|[l input] hist IH] using rev_ind; [split; intros ? ? H; simpl in H; by rewrite lookup_empty in H|].
  rewrite after_builds_snoc. destruct (zero_build _ l input (kept_after cfg range range_perm hist) IH) as [[H1 H2] _ _].
  split; simpl; intros k v [Hv _]%map_lookup_filter_Some; [by eapply H1|by eapply H2].
Qed.

Definition body_of (hist : list (option LoopTrack.LoopTracker * sessionsInput)) (li : option LoopTrack.LoopTracker * sessionsInput) :
  sessionsBody := (build cfg range (after_builds cfg range hist) li.1 li.2).2.

Lemma body_rows hist li row : row ∈ Sessions (body_of hist li) <->
  row ∈ b_rows (all_rows cfg range (after_builds cfg range hist) li.1 li.2).
Proof. unfold body_of, build. simpl. by rewrite sort_rows_perm. Qed.

Lemma used_kept hist li sid :
  sid ∈ sids (Sessions (body_of hist li)) ->
  is_Some (lastUsed (b_builder (all_rows cfg range (after_builds cfg range hist) li.1 li.2)) !! sid) ->
  is_Some (lastUsed (after_builds cfg range (hist ++ [li])) !! sid).
Proof.
  destruct li as [l input]. rewrite after_builds_snoc. unfold body_of. simpl. intros Hin [v Hv]. exists v.
  apply map_lookup_filter_Some. split; [done|]. simpl. unfold listed.
  apply elem_of_list_to_set. rewrite sids_perm in Hin by apply sort_rows_perm. exact Hin.
Qed.


End build.
End SessionsZero.
