(* ===== verification/SessionsSpec.v ===== *)
(** What a row of the session table shows beyond its own reading: a DECODE that
    is kept on screen between two turns, and the rate of a request. *)

From Stdlib Require Import SpecFloat.
From S2P Require Import Prelude RecordSet Float64 Tier SchedTypes LoopTrack SlotAffinity Inflight SessionRows Sessions SessionsBase SessionsListed SessionsZero.

Module SessionsSpec.
Import Float64 Sched SessionRows Sessions SessionsBase SessionsListed SessionsSteps SessionsZero.
Open Scope string_scope.
Open Scope list_scope.
Open Scope Z_scope.

(** ** What the last stamps leave alone *)

Definition looks (row : sessionEntry) := (core row, Phase row, Penalty row, Rate row).

Lemma stampSlotWarmUntil_looks b row : looks (stampSlotWarmUntil b row) = looks row /\ Display (stampSlotWarmUntil b row) = Display row.
Proof. unfold stampSlotWarmUntil. row_cases. Qed.

Lemma stampDecodeDisplay_looks cfg b key row now : looks (stampDecodeDisplay cfg b key row now) = looks row.
Proof. unfold stampDecodeDisplay. row_cases. Qed.

Lemma stampNoZero_looks b key row : looks (stampNoZero b key row).2 = looks row.
Proof. unfold stampNoZero. row_cases. Qed.

Lemma shownPhase_ensured row d : d_Phase d = d_Phase (ensured row) -> shownPhase (row <| Display ::= Some d |>) = shownPhase row.
Proof.
  unfold shownPhase, ensured. simpl. intros ->. destruct (Display row) as [d'|]; simpl; [done|]. by destruct (String.eqb _ _).
Qed.

(** The last stamp changes no phase shown, and no context but a zero. *)
Lemma stampNoZero_phase b key row :
  let row' := (stampNoZero b key row).2 in
  shownPhase row' = shownPhase row /\ (shown_used row' = shown_used row \/ shown_used row = 0).
Proof.
  unfold stampNoZero. destruct (String.eqb _ _); [split; [done|by left]|]. simpl. set (b' := remember_nonzero b key row). clearbody b'.
  set (row1 := match lastUsed b' !! key with Some _ => _ | None => row end).
  assert (shownPhase row1 = shownPhase row /\ (shown_used row1 = shown_used row \/ shown_used row = 0)) as [H1 H2].
  { unfold row1. destruct (lastUsed b' !! key) as [v|]; [|split; [done|by left]]. destruct (Z.eqb_spec (shown_used row) 0); [|split; [done|by left]].
    split; [by apply shownPhase_ensured|by right]. }
  clearbody row1. destruct (is_zero_rate (shown_rate row1)); [|done].
  split; [rewrite <- H1; by apply shownPhase_ensured|].
  assert (forall repl, shown_used (row1 <| Display ::= Some (ensured row1 <| d_Rate ::= Some repl |>) |>) = shown_used row1) as Hq
    by (intros repl; unfold shown_used, ensured; simpl; by destruct (Display row1)).
  destruct H2 as [H2|H2]; [left|by right]. etrans; [apply Hq|exact H2].
Qed.

(** What [stampDecodeDisplay] puts over a phase. *)
Lemma stampDecodeDisplay_shown cfg b key row now : Display row = None ->
  let row' := stampDecodeDisplay cfg b key row now in
  shownPhase row' <> Phase row ->
  shownPhase row' = phaseDecode /\ retained_phase (Phase row) = true /\ Penalty row = None /\
  exists at_ snap, lastDecode b !! key = Some at_ /\ lastDecodeReadout b !! key = Some snap /\
    time_sub now at_ < decodeWindow cfg /\ shown_used row' = ro_used snap.
Proof.
  intros Hd. simpl. unfold stampDecodeDisplay, shownPhase. rewrite Hd.
  destruct (_ || _); [by rewrite Hd|]. destruct (_ <=? 0); [by rewrite Hd|].
  destruct (String.eqb_spec (Phase row) phaseDecode) as [Ep|Ep].
  - destruct (_ || _); [by rewrite Hd|]. destruct (lastDecodeReadout b !! key) as [snap|]; [|by rewrite Hd].
    destruct (rateMeasured _); [|by rewrite Hd]. simpl. by rewrite Ep.
  - destruct (retained_phase (Phase row)); simpl; [|by rewrite Hd]. destruct (decide (Penalty row = None)) as [Hp|Hp].
    2:{ rewrite bool_decide_true by done. by rewrite Hd. }
    rewrite bool_decide_false by (intros H; by apply H). destruct (lastDecode b !! key) as [at_|]; [|by rewrite Hd].
    destruct (lastDecodeReadout b !! key) as [snap|]; [|by rewrite Hd]. destruct (Z.leb_spec (decodeWindow cfg) (time_sub now at_)); [by rewrite Hd|].
    simpl. intros _. split_and!; [done|done|done|]. by exists at_, snap.
Qed.

(** ** The samples of a rate *)

(** The counters of one request in one phase do not go back. *)
Definition grows (p q : rateSample) : Prop :=
  s_request p = s_request q /\ s_kind p = s_kind q /\ s_processed p <= s_processed q /\ s_decoded p <= s_decoded q.

Lemma grows_trans p q r : grows p q -> grows q r -> grows p r.
Proof. unfold grows. intuition (congruence || lia). Qed.

Lemma StronglySorted_snoc {A} (R : A -> A -> Prop) l x : StronglySorted R l -> Forall (fun y => R y x) l -> StronglySorted R (l ++ [x]).
Proof.
  induction 1 as [|y l Hl IH Hy]; intros Hx; [repeat constructor|]. inversion_clear Hx. simpl. constructor; [by apply IH|].
  apply Forall_app. by split; [|constructor].
Qed.

Lemma StronglySorted_before {A} (R : A -> A -> Prop) l x : StronglySorted R (l ++ [x]) -> StronglySorted R l /\ Forall (fun y => R y x) l.
Proof.
  induction l as [|y l IH]; simpl; [split; constructor|]. intros H. inversion_clear H as [|? ? Hl Hy].
  apply Forall_app in Hy as [Hy Hyx]. rewrite Forall_singleton in Hyx. destruct (IH Hl) as [? ?]. split; by constructor.
Qed.

Lemma continue_grows hist s : StronglySorted grows hist -> StronglySorted grows (continue_hist hist s ++ [s]).
Proof.
  intros Hs. unfold continue_hist. destruct (last hist) as [p|] eqn:El; [|apply last_None in El as ->; repeat constructor].
  apply last_Some in El as [l ->]. apply StronglySorted_before in Hs as [Hl Hp].
  destruct (String.eqb_spec (s_request p) (s_request s)) as [E1|]; [|repeat constructor].
  destruct (String.eqb_spec (s_kind p) (s_kind s)) as [E2|]; [|repeat constructor]. simpl.
  destruct (Z.ltb_spec (s_processed s) (s_processed p)); [repeat constructor|].
  destruct (Z.ltb_spec (s_decoded s) (s_decoded p)); [repeat constructor|]. simpl.
  assert (grows p s) as Hps by (by repeat split).
  assert (Forall (fun y => grows y s) l) as Hls by (eapply Forall_impl; [exact Hp|]; intros y Hy; exact (grows_trans _ _ _ Hy Hps)).
  destruct (negb _).
  - rewrite removelast_last. by apply StronglySorted_snoc.
  - apply StronglySorted_snoc; [by apply StronglySorted_snoc|]. apply Forall_app. split; [done|by constructor].
Qed.

Lemma continue_elem hist s x : x ∈ continue_hist hist s ++ [s] -> x ∈ hist \/ x = s.
Proof.
  rewrite elem_of_app, list_elem_of_singleton. intros [H|H]; [left|by right]. unfold continue_hist in H.
  destruct (last hist) as [p|] eqn:El; [|done]. apply last_Some in El as [l ->].
  destruct (_ || _); [by apply elem_of_nil in H|]. destruct (negb _); [|done]. rewrite removelast_last in H. apply elem_of_app. by left.
Qed.

Lemma trim_more_suffix cutoff hist : exists pre, hist = pre ++ trim_more cutoff hist.
Proof.
  induction hist as [|x hist IH]; [by exists []|]. destruct hist as [|y [|z hist]]; [by exists []|by exists []|].
  cbn [trim_more]. destruct (before _ _); [|by exists []]. destruct IH as [pre IH]. exists (x :: pre). by rewrite IH at 1.
Qed.

Lemma trim_more_head cutoff hist x y z rest : trim_more cutoff hist = x :: y :: z :: rest -> cutoff <= s_at x.
Proof.
  induction hist as [|a hist IH]; [done|]. destruct hist as [|b [|c hist]]; [done|done|]. cbn [trim_more].
  destruct (Z.ltb_spec (s_at a) cutoff) as [Hb|Hb]; unfold before; [rewrite (proj2 (Z.ltb_lt _ _) Hb); exact IH|].
  rewrite (proj2 (Z.ltb_ge _ _) Hb). by intros [= <- _ _ _].
Qed.

Lemma trim_hist_spec cutoff hist :
  (exists pre, hist = pre ++ trim_hist cutoff hist) /\
  (forall x y rest, trim_hist cutoff hist = x :: y :: rest -> cutoff <= s_at x).
Proof.
  unfold trim_hist. destruct (trim_more_suffix cutoff hist) as [pre Hpre].
  destruct (trim_more cutoff hist) as [|x [|y rest]] eqn:E; [by split; [exists pre|]|by split; [exists pre|]|].
  unfold before. destruct (Z.ltb_spec (s_at x) cutoff).
  - split; [exists (pre ++ [x]); by rewrite <- app_assoc|]. intros x' y' rest' [= <- ->].
    apply trim_more_head in E. lia.
  - split; [by exists pre|]. by intros x' y' rest' [= <- _ _].
Qed.

Lemma StronglySorted_suffix {A} (R : A -> A -> Prop) pre l : StronglySorted R (pre ++ l) -> StronglySorted R l.
Proof. induction pre as [|x pre IH]; simpl; [done|]. intros H. inversion_clear H. by apply IH. Qed.

Lemma suffix_last {A} (pre l k : list A) x : k ++ [x] = pre ++ l -> l <> [] -> exists l', l = l' ++ [x].
Proof.
  intros H Hl. destruct (exists_last Hl) as (l' & y & ->). exists l'. rewrite app_assoc in H. by apply app_inj_tail in H as [_ <-].
Qed.

(** ** What the stamps of one row do *)

Lemma applyLoopState_blank input l row held :
  Display (applyLoopState input l row held).1 = Display row /\ Rate (applyLoopState input l row held).1 = Rate row.
Proof. unfold applyLoopState. row_cases. Qed.

Lemma looks_fields row row' : looks row = looks row' ->
  core row = core row' /\ Phase row = Phase row' /\ Penalty row = Penalty row' /\ Rate row = Rate row'.
Proof. unfold looks. intros H. split_and!; congruence. Qed.

Lemma core_ids row row' : core row = core row' ->
  SessionID row = SessionID row' /\ RequestID row = RequestID row' /\ Context row = Context row'.
Proof. unfold core. by intros [= ]. Qed.

(** A phase kept on screen: what is remembered of the session's last DECODE. *)
Definition retained (cfg : config) (b : sessionsBuilder) (key : string) (now : Z) (row : sessionEntry) : Prop :=
  shownPhase row <> Phase row ->
  shownPhase row = phaseDecode /\ retained_phase (Phase row) = true /\ Penalty row = None /\
  exists at_ snap, lastDecode b !! key = Some at_ /\ lastDecodeReadout b !! key = Some snap /\
    time_sub now at_ < decodeWindow cfg /\ (shown_used row = ro_used snap \/ ro_used snap = 0).

Lemma show_retained cfg b key row now b' row' : Display row = None ->
  (b', row') = stampNoZero b key (stampDecodeDisplay cfg b key (stampSlotWarmUntil b row) now) ->
  looks row' = looks row /\ lastDecode b' = lastDecode b /\ lastDecodeReadout b' = lastDecodeReadout b /\ rates b' = rates b /\
  retained cfg b' key now row'.
Proof.
  intros Hd E. destruct (stampSlotWarmUntil_looks b row) as [Hw Hdw]. set (row1 := stampSlotWarmUntil b row) in *.
  pose proof (stampDecodeDisplay_looks cfg b key row1 now) as Hdl.
  pose proof (stampDecodeDisplay_shown cfg b key row1 now ltac:(by rewrite Hdw)) as Hs.
  set (row2 := stampDecodeDisplay cfg b key row1 now) in *.
  pose proof (stampNoZero_looks b key row2) as Hnl. pose proof (stampNoZero_phase b key row2) as [Hph Hu].
  pose proof (stampNoZero_builder b key row2) as Hb. rewrite <- E in Hnl, Hph, Hu, Hb. simpl in *.
  assert (lastDecode b' = lastDecode b /\ lastDecodeReadout b' = lastDecodeReadout b /\ rates b' = rates b) as (H1 & H2 & H3).
  { rewrite Hb. destruct (String.eqb _ _); [done|]. unfold remember_nonzero. by destruct (0 <? _), (_ && _). }
  assert (looks row' = looks row1) as Hl by congruence. apply looks_fields in Hl as (_ & Hp & Hpen & _).
  split_and!; [congruence|done|done|done|]. intros Hne. rewrite Hph, Hp in Hne. destruct (Hs Hne) as (E1 & E2 & E3 & at_ & snap & E4 & E5 & E6 & E7).
  rewrite Hph, Hp, Hpen, H1, H2. split_and!; [done|done|done|]. exists at_, snap. split_and!; [done..|]. rewrite E7 in Hu. exact Hu.
Qed.

(** The rate of a row that was measured, or none. *)
Definition rated (b b' : sessionsBuilder) (key : string) (now : Z) (id : string) (row : sessionEntry) : Prop :=
  rates b' = delete key (rates b) /\ Rate row = mkRate None None \/
  exists kind, rate_kind row = Some kind /\
    let s := mkSample now id kind (Processed (Context row)) (Decoded (Context row)) in
    let hist := trim_hist (now - sessionsRateWindow) (continue_hist (default [] (rates b !! key)) s ++ [s]) in
    rates b' = <[key := hist]> (rates b) /\ Rate row = mkRate (Some kind) (rate_of hist s kind).

Lemma stamp_rest_effect cfg input held b l key row b' l' row' :
  stamp_rest cfg input held b l key row = (b', l', row') -> Display row = None ->
  core row' = core row /\ Rate row' = Rate row /\ lastDecode b' = lastDecode b /\ lastDecodeReadout b' = lastDecodeReadout b /\
  rates b' = rates b /\ retained cfg b' key (Now input) row'.
Proof.
  unfold stamp_rest. intros E Hd. pose proof (applyLoopState_core input l row held) as Hc.
  destruct (applyLoopState_blank input l row held) as [Hd1 Hr1]. destruct (applyLoopState _ _ _ _) as [row1 l1]. simpl in *.
  destruct (stampNoZero _ _ _) as [b2 row2] eqn:Ez. injection E as <- _ <-. symmetry in Ez.
  destruct (show_retained cfg b key row1 (Now input) b2 row2) as (Hl & H1 & H2 & H3 & H4); [congruence|exact Ez|].
  apply looks_fields in Hl as (Hc2 & _ & _ & Hr2). split_and!; [congruence|congruence|done|done|done|done].
Qed.

Lemma stamp_request_effect cfg input held b l key r row b' l' row' :
  stamp_request cfg input held b l key r row = (b', l', row') -> Display row = None -> Rate row = mkRate None None ->
  core row' = core row /\
  lastDecode b' = (if String.eqb (Phase row') phaseDecode then <[key := Now input]> (lastDecode b) else lastDecode b) /\
  (if String.eqb (SessionID row') "" || negb (String.eqb (Phase row') phaseDecode) then lastDecodeReadout b' = lastDecodeReadout b
   else exists ro, lastDecodeReadout b' = <[key := ro]> (lastDecodeReadout b) /\ ro_used ro = Used (Context row')) /\
  rated b b' key (Now input) (Inflight.ID r) row' /\ retained cfg b' key (Now input) row'.
Proof.
  unfold stamp_request. intros E Hd Hra. pose proof (applyLoopState_core input l row held) as Hc.
  destruct (applyLoopState_blank input l row held) as [Hd1 Hr1]. destruct (applyLoopState _ _ _ _) as [row1 l1]. simpl in Hc, Hd1, Hr1.
  assert (let '(b2, row2) := stampPhaseSince b key row1 (Now input) (Inflight.Timestamp r) in
    looks row2 = looks row1 /\ Display row2 = Display row1 /\ rates b2 = rates b /\ lastDecodeReadout b2 = lastDecodeReadout b /\
    lastDecode b2 = (if String.eqb (Phase row1) phaseDecode then <[key := Now input]> (lastDecode b) else lastDecode b)) as H2.
  { unfold stampPhaseSince. simpl. by destruct (String.eqb (Phase row1) phaseDecode). }
  destruct (stampPhaseSince _ _ _ _ _) as [b2 row2]. destruct H2 as (L2 & D2 & R2 & O2 & T2).
  assert (let '(b3, row3) := stampRate b2 key row2 (Now input) r in
    core row3 = core row2 /\ Phase row3 = Phase row2 /\ Penalty row3 = Penalty row2 /\ Display row3 = Display row2 /\
    lastDecode b3 = lastDecode b2 /\ lastDecodeReadout b3 = lastDecodeReadout b2 /\
    (rates b3 = delete key (rates b2) /\ Rate row3 = Rate row2 \/
     exists kind, rate_kind row2 = Some kind /\
      let s := mkSample (Now input) (Inflight.ID r) kind (Processed (Context row2)) (Decoded (Context row2)) in
      let hist := trim_hist (Now input - sessionsRateWindow) (continue_hist (default [] (rates b2 !! key)) s ++ [s]) in
      rates b3 = <[key := hist]> (rates b2) /\ Rate row3 = mkRate (Some kind) (rate_of hist s kind))) as H3.
  { unfold stampRate. destruct (rate_kind row2) as [kind|]; [|simpl; split_and!; [done..|by left]].
    destruct (_ || _); simpl; split_and!; try done; [by left|]. right. by exists kind. }
  destruct (stampRate b2 key row2 (Now input) r) as [b3 row3] in E, H3. destruct H3 as (C3 & P3 & N3 & D3 & T3 & O3 & R3).
  assert (let b4 := stampDecodeReadout b3 key row3 in
    rates b4 = rates b3 /\ lastDecode b4 = lastDecode b3 /\
    (if String.eqb (SessionID row3) "" || negb (String.eqb (Phase row3) phaseDecode) then lastDecodeReadout b4 = lastDecodeReadout b3
     else exists ro, lastDecodeReadout b4 = <[key := ro]> (lastDecodeReadout b3) /\ ro_used ro = Used (Context row3))) as (R4 & T4 & O4).
  { unfold stampDecodeReadout. destruct (_ || _); [done|]. simpl. split_and!; [done|done|]. eexists. by split. }
  set (b4 := stampDecodeReadout b3 key row3) in *.
  destruct (stampNoZero _ _ _) as [b5 row5] eqn:Ez. injection E as <- _ <-. symmetry in Ez.
  destruct (show_retained cfg b4 key row3 (Now input) b5 row5) as (Hl & H1 & H2 & H3 & H4); [congruence|exact Ez|].
  apply looks_fields in Hl as (Hc5 & Hp5 & _ & Hr5). apply looks_fields in L2 as (Hc2 & Hp2 & _ & Hr2).
  destruct (core_ids _ _ Hc5) as (Hid & _ & Hx), (core_ids _ _ C3) as (_ & _ & Hx3).
  split_and!; [congruence| | | |done].
  - rewrite H1, T4, T3, T2, Hp5, P3, Hp2. done.
  - rewrite Hid, Hp5, H2, Hx. rewrite <- O2, <- O3. exact O4.
  - unfold rated. rewrite H3, R4, Hr5, Hx, Hx3. destruct R3 as [[-> ->]|(kind & Hk & Hra3)]; [left; split; congruence|].
    right. exists kind. split; [|by rewrite <- R2].
    unfold rate_kind in *. by rewrite Hp5, P3.
Qed.

(** ** One build *)

Section step.
Variable cfg : config.
Variable input : sessionsInput.
Variable Old : Z -> sessionEntry -> Prop.     (* the rows of the builds before, with their moments *)

(** A row of an earlier build, or of this one. *)
Definition seen_row (rows : list sessionEntry) (at_ : Z) (row : sessionEntry) : Prop :=
  Old at_ row \/ at_ = Now input /\ row ∈ rows.

Lemma seen_row_app rows rows' at_ row : seen_row rows at_ row -> seen_row (rows ++ rows') at_ row.
Proof. intros [?|[? ?]]; [by left|right]. split; [done|]. apply elem_of_app. by left. Qed.

Definition sampled (rows : list sessionEntry) (s : rateSample) : Prop :=
  exists row, seen_row rows (s_at s) row /\ RequestID row = Some (s_request s) /\ rate_kind row = Some (s_kind s) /\
    Processed (Context row) = s_processed s /\ Decoded (Context row) = s_decoded s.

(** The last DECODE of a session and its readout. *)
Definition decoded_at (b : sessionsBuilder) (rows : list sessionEntry) (sid : string) (at_ : Z) : Prop :=
  exists row ro, seen_row rows at_ row /\ SessionID row = sid /\ Phase row = phaseDecode /\
    lastDecodeReadout b !! sid = Some ro /\ ro_used ro = Used (Context row).

(** What a row shows of the past is of the past. *)
Definition phase_true (rows : list sessionEntry) (row : sessionEntry) : Prop :=
  plain (SessionID row) -> shownPhase row <> Phase row ->
  shownPhase row = phaseDecode /\ retained_phase (Phase row) = true /\ Penalty row = None /\
  exists at_ row0, seen_row rows at_ row0 /\ SessionID row0 = SessionID row /\ Phase row0 = phaseDecode /\
    time_sub (Now input) at_ < decodeWindow cfg /\ (shown_used row = Used (Context row0) \/ Used (Context row0) = 0).

Definition growth (kind : string) (row0 row : sessionEntry) : Z :=
  if String.eqb kind "decode" then Decoded (Context row) - Decoded (Context row0)
  else Processed (Context row) - Processed (Context row0).

Definition rate_true (rows : list sessionEntry) (row : sessionEntry) : Prop :=
  forall v, TokensPerSecond (Rate row) = Some v ->
  exists kind at_ row0, rate_kind row = Some kind /\ seen_row rows at_ row0 /\
    RequestID row0 = RequestID row /\ is_Some (RequestID row) /\ rate_kind row0 = Some kind /\
    Now input - sessionsRateWindow <= at_ /\ 0 <= growth kind row0 row /\
    v = round (fdiv (of_int (growth kind row0 row)) (seconds (time_sub (Now input) at_))) 1.

Record past_inv (s : building) : Prop := {
  p_decode : forall sid at_, plain sid -> lastDecode (b_builder s) !! sid = Some at_ ->
    decoded_at (b_builder s) (b_rows s) sid at_;
  p_samples : forall key hist, rates (b_builder s) !! key = Some hist ->
    StronglySorted grows hist /\ Forall (sampled (b_rows s)) hist;
  p_phase : Forall (phase_true (b_rows s)) (b_rows s);
  p_rate : Forall (rate_true (b_rows s)) (b_rows s);
}.

Lemma sampled_app rows rows' s : sampled rows s -> sampled (rows ++ rows') s.
Proof. intros (row & H & ?). exists row. split; [by apply seen_row_app|done]. Qed.

Lemma phase_true_app rows rows' row : phase_true rows row -> phase_true (rows ++ rows') row.
Proof.
  intros H Hp Hne. destruct (H Hp Hne) as (? & ? & ? & at_ & row0 & Hs & ?). split_and!; [done..|].
  exists at_, row0. split; [by apply seen_row_app|done].
Qed.

Lemma rate_true_app rows rows' row : rate_true rows row -> rate_true (rows ++ rows') row.
Proof.
  intros H v Hv. destruct (H v Hv) as (kind & at_ & row0 & Hk & Hs & ?). exists kind, at_, row0.
  split; [done|]. split; [by apply seen_row_app|done].
Qed.

Lemma decoded_at_app b rows rows' sid at_ : decoded_at b rows sid at_ -> decoded_at b (rows ++ rows') sid at_.
Proof. intros (row & ro & H & ?). exists row, ro. split; [by apply seen_row_app|done]. Qed.

(** A row that keeps a phase on screen, from the memory that is true. *)
Lemma retained_true b rows key row :
  (forall sid at_, plain sid -> lastDecode b !! sid = Some at_ -> decoded_at b rows sid at_) ->
  (SessionID row <> "" -> key = SessionID row) -> retained cfg b key (Now input) row -> phase_true rows row.
Proof.
  intros Hd Hk Hr Hp Hne. destruct (Hr Hne) as (E1 & E2 & E3 & at_ & snap & E4 & E5 & E6 & E7).
  rewrite (Hk (proj1 Hp)) in E4, E5. destruct (Hd _ _ Hp E4) as (row0 & ro & Hs & Hid & Hph & Hro & Hu).
  rewrite E5 in Hro. injection Hro as <-. split_and!; [done..|]. exists at_, row0. by rewrite <- Hu.
Qed.

Lemma past_skip s b l p : memory b = memory (b_builder s) -> fewer_samples (b_builder s) b ->
  past_inv s -> past_inv (mkBuilding b l p (b_rows s)).
Proof.
  intros Hm Hf [H1 H2 H3 H4]. injection Hm as HT HO _ _. split; simpl; [|intros key hist Hh; by eapply H2, Hf|done|done].
  intros sid at_ Hp. rewrite HT. intros Ha. destruct (H1 sid at_ Hp Ha) as (row & ro & H). exists row, ro. by rewrite HO.
Qed.

(** The samples of a row that was rated. *)
Lemma rated_samples b b' key id row rows :
  (forall key hist, rates b !! key = Some hist -> StronglySorted grows hist /\ Forall (sampled rows) hist) ->
  RequestID row = Some id -> rated b b' key (Now input) id row ->
  (forall key hist, rates b' !! key = Some hist -> StronglySorted grows hist /\ Forall (sampled (rows ++ [row])) hist) /\
  rate_true (rows ++ [row]) row.
Proof.
  intros Hs Hid Hr. assert (forall key hist, rates b !! key = Some hist -> StronglySorted grows hist /\ Forall (sampled (rows ++ [row])) hist) as Hs'.
  { intros k hist Hk. destruct (Hs k hist Hk) as [? Hf]. split; [done|]. eapply Forall_impl; [exact Hf|]. intros s. apply sampled_app. }
  destruct Hr as [[HR Hrate]|(kind & Hkind & Hr)].
  { unfold rate_true. rewrite HR, Hrate. split; [|done]. intros k hist [_ Hk]%lookup_delete_Some. by apply (Hs' k). }
  set (s := mkSample _ _ _ _ _) in Hr. cbv zeta in Hr.
  set (before := continue_hist (default [] (rates b !! key)) s ++ [s]) in Hr.
  destruct (trim_hist_spec (Now input - sessionsRateWindow) before) as [[pre Hpre] Hcut].
  set (hist := trim_hist _ _) in *. destruct Hr as [HR Hrate].
  assert (sampled (rows ++ [row]) s) as Hsam.
  { exists row. split; [right; split; [done|apply elem_of_app; right; by left]|done]. }
  assert (StronglySorted grows before /\ Forall (sampled (rows ++ [row])) before) as [Hbs Hbf].
  { assert (StronglySorted grows (default [] (rates b !! key)) /\ Forall (sampled (rows ++ [row])) (default [] (rates b !! key))) as [H1 H2].
    { destruct (rates b !! key) as [h|] eqn:E; [by apply (Hs' key)|]. split; constructor. }
    split; [by apply continue_grows|]. apply Forall_forall. intros x [Hx| ->]%continue_elem; [|done].
    rewrite Forall_forall in H2. by apply H2. }
  assert (StronglySorted grows hist) as Hhs by (apply (StronglySorted_suffix _ pre); by rewrite <- Hpre).
  assert (Forall (sampled (rows ++ [row])) hist) as Hhf by (rewrite Hpre in Hbf; by apply Forall_app in Hbf as [_ ?]).
  split.
  - rewrite HR. intros k h [[_ <-]|[_ Hk]]%lookup_insert_Some; [done|]. by apply (Hs' k).
  - intros v Hv. rewrite Hrate in Hv. simpl in Hv. unfold rate_of in Hv. destruct hist as [|first [|second rest]] eqn:Eh; [done|done|].
    destruct (fleb _ _); [done|]. injection Hv as <-.
    destruct (suffix_last pre (first :: second :: rest) (continue_hist (default [] (rates b !! key)) s) s Hpre) as [l' Hl']; [done|].
    destruct l' as [|f' l']; [done|]. simpl in Hl'. injection Hl' as <- Hl'.
    inversion_clear Hhs as [|? ? _ Hg]. rewrite Hl' in Hg. apply Forall_app in Hg as [_ Hg]. rewrite Forall_singleton in Hg.
    destruct Hg as (Gr & Gk & Gp & Gd). inversion_clear Hhf as [|? ? Hf _]. destruct Hf as (row0 & Hseen & Hr0 & Hk0 & Hp0 & Hd0).
    simpl in *. exists kind, (s_at first), row0. split; [done|]. split; [done|]. rewrite Hr0, Hid, Gr. split; [done|]. split; [by eexists|].
    rewrite Hk0, Gk. split; [done|]. split; [by eapply Hcut|]. unfold growth. rewrite Hp0, Hd0.
    destruct (String.eqb kind "decode"); split; [lia|done|lia|done].
Qed.

Lemma past_step s s' : row_step cfg input s s' -> past_inv s -> past_inv s'.
Proof.
  intros [b l p Hm Hf|held key r row b l row' p Hk Hpk Hr E Hd Hra|held key row b1 l1 b l row' p Hk Hp Hm Hf E Hd Hra] Hi.
  - by apply past_skip.
  - destruct (stamp_request_effect _ _ _ _ _ _ _ _ _ _ _ E Hd Hra) as (Hc & HT & HO & Hrated & Hret). destruct Hi as [H1 H2 H3 H4].
    destruct (core_ids _ _ Hc) as (Hid & Hrq & _). rewrite <- Hid in Hk, Hpk. rewrite <- Hrq in Hr.
    destruct (rated_samples _ _ _ _ _ _ H2 Hr Hrated) as [H2' Hrt].
    assert (forall sid at_, plain sid -> lastDecode b !! sid = Some at_ -> decoded_at b (b_rows s ++ [row']) sid at_) as H1'.
    { intros sid at_ Hp Ha. rewrite HT in Ha. destruct (String.eqb_spec (Phase row') phaseDecode) as [Ep|Ep].
      - destruct (decide (key = sid)) as [<-|Hne].
        + rewrite lookup_insert_eq in Ha. injection Ha as <-. rewrite (proj2 (String.eqb_neq (SessionID row') "")) in HO
            by (rewrite (Hpk Hp); apply Hp). simpl in HO. destruct HO as (ro & HO & Hu). exists row', ro.
          split; [right; split; [done|apply elem_of_app; right; by left]|]. split_and!; [by apply Hpk|done|by rewrite HO, lookup_insert_eq|done].
        + rewrite lookup_insert_ne in Ha by done. apply decoded_at_app. destruct (H1 sid at_ Hp Ha) as (row0 & ro & H). exists row0, ro.
          destruct (String.eqb_spec (SessionID row') ""); simpl in HO; [by rewrite HO|]. destruct HO as (ro' & -> & _). by rewrite lookup_insert_ne.
      - apply decoded_at_app. destruct (H1 sid at_ Hp Ha) as (row0 & ro & H). exists row0, ro. rewrite orb_true_r in HO. by rewrite HO. }
    split; simpl; [done|done| |].
    + apply Forall_app. split; [eapply Forall_impl; [exact H3|]; intros x; apply phase_true_app|]. apply Forall_singleton.
      by eapply retained_true.
    + apply Forall_app. split; [eapply Forall_impl; [exact H4|]; intros x; apply rate_true_app|]. by apply Forall_singleton.
  - destruct (stamp_rest_effect _ _ _ _ _ _ _ _ _ _ E Hd) as (Hc & Hrate & HT & HO & HR & Hret).
    apply (past_skip s b1 l p Hm Hf) in Hi as [H1 H2 H3 H4]. simpl in *. destruct (core_ids _ _ Hc) as (Hid & _). rewrite <- Hid in Hk.
    assert (forall sid at_, plain sid -> lastDecode b !! sid = Some at_ -> decoded_at b (b_rows s ++ [row']) sid at_) as H1'.
    { intros sid at_ Hpl Ha. apply decoded_at_app. rewrite HT in Ha. destruct (H1 sid at_ Hpl Ha) as (row0 & ro & H). exists row0, ro. by rewrite HO. }
    split; simpl; [done| | |].
    + rewrite HR. intros k hist Hh. destruct (H2 k hist Hh) as [? Hfs]. split; [done|]. eapply Forall_impl; [exact Hfs|]. intros x. apply sampled_app.
    + apply Forall_app. split; [eapply Forall_impl; [exact H3|]; intros x; apply phase_true_app|]. apply Forall_singleton.
      by eapply retained_true.
    + apply Forall_app. split; [eapply Forall_impl; [exact H4|]; intros x; apply rate_true_app|]. apply Forall_singleton.
      intros v Hv. rewrite Hrate, Hra in Hv. done.
Qed.

End step.

(** ** All builds *)

Section build.
Variable cfg : config.
Variable range : forall A : Type, gmap string A -> list (string * A).
Hypothesis range_perm : forall A (m : gmap string A), range A m ≡ₚ map_to_list m.

(** A build of [hist] at the moment [at_] listed the row. *)
Definition recorded (hist : list (option LoopTrack.LoopTracker * sessionsInput)) (at_ : Z) (row : sessionEntry) : Prop :=
  exists h li rest, hist = h ++ li :: rest /\ Now li.2 = at_ /\ row ∈ Sessions (body_of cfg range h li).

Lemma recorded_snoc hist l input at_ row :
  seen_row input (recorded hist) (b_rows (all_rows cfg range (after_builds cfg range hist) l input)) at_ row ->
  recorded (hist ++ [(l, input)]) at_ row.
Proof.
  intros [(h & li & rest & -> & Ha & Hr)|[-> Hr]].
  - exists h, li, (rest ++ [(l, input)]). by rewrite <- app_assoc.
  - exists hist, (l, input), []. split_and!; [done|done|]. by apply body_rows.
Qed.

Lemma past_build hist l input :
  past_inv cfg input (recorded hist) (mkBuilding (after_builds cfg range hist) None ∅ []) ->
  past_inv cfg input (recorded hist) (all_rows cfg range (after_builds cfg range hist) l input).
Proof.
  intros [H1 H2 _ _]. apply (build_ind cfg range range_perm); [by apply kept_after| |intros s s'; apply past_step].
  split; [exact H1|exact H2|constructor|constructor].
Qed.

Lemma past_after hist input : past_inv cfg input (recorded hist) (mkBuilding (after_builds cfg range hist) None ∅ []).
Proof.
  revert input. induction hist as [|[l input0] hist IH] using rev_ind; intros input.
  { split; simpl; [|intros key hist H; by rewrite lookup_empty in H|constructor|constructor].
    intros sid at_ _ H. by rewrite lookup_empty in H. }
  destruct (past_build hist l input0 (IH input0)) as [H1 H2 _ _]. rewrite after_builds_snoc.
  split; simpl; [| |constructor|constructor].
  - intros sid at_ Hp [Ha [Hin Hex]]%map_lookup_filter_Some. destruct (H1 sid at_ Hp Ha) as (row & ro & Hs & Hid & Hph & Hro & Hu).
    exists row, ro. split; [left; by apply recorded_snoc in Hs|]. split_and!; [done|done| |done].
    simpl. apply map_lookup_filter_Some. split; [done|]. right. exists at_. by apply map_lookup_filter_Some.
  - intros key hist' [Hh _]%map_lookup_filter_Some. destruct (H2 key hist' Hh) as [? Hf]. split; [done|].
    eapply Forall_impl; [exact Hf|]. intros s (row & Hs & ?). exists row. split; [left; by apply recorded_snoc in Hs|done].
Qed.

Lemma past_body hist l input row : row ∈ Sessions (body_of cfg range hist (l, input)) ->
  let s := all_rows cfg range (after_builds cfg range hist) l input in
  phase_true cfg input (recorded hist) (b_rows s) row /\ rate_true input (recorded hist) (b_rows s) row.
Proof.
  intros Hin%body_rows. destruct (past_build hist l input (past_after hist input)) as [_ _ H3 H4].
  rewrite Forall_forall in H3, H4. split; [by apply H3|by apply H4].
Qed.

(** The table shows another phase than a session is in only as a DECODE kept
    on screen: the session decoded in a build within the window, it is between two
    turns and has no strike, and the context shown is that of its last DECODE. *)
Theorem shown_decode_was_real hist l input row :
  row ∈ Sessions (body_of cfg range hist (l, input)) -> plain (SessionID row) -> shownPhase row <> Phase row ->
  shownPhase row = phaseDecode /\ retained_phase (Phase row) = true /\ Penalty row = None /\
  exists at_ row0, recorded (hist ++ [(l, input)]) at_ row0 /\ SessionID row0 = SessionID row /\ Phase row0 = phaseDecode /\
    time_sub (Now input) at_ < decodeWindow cfg /\ (shown_used row = Used (Context row0) \/ Used (Context row0) = 0).
Proof.
  intros Hin Hp Hne. destruct (past_body hist l input row Hin) as [H _].
  destruct (H Hp Hne) as (E1 & E2 & E3 & at_ & row0 & Hs & Hrest). split_and!; [done..|].
  exists at_, row0. split; [by apply recorded_snoc|done].
Qed.

(** A rate is the growth of one counter of one request in one phase, between two
    builds at most thirty seconds apart, and is never negative. *)
Theorem rate_was_measured hist l input row v :
  row ∈ Sessions (body_of cfg range hist (l, input)) -> TokensPerSecond (Rate row) = Some v ->
  exists kind at_ row0, rate_kind row = Some kind /\ recorded (hist ++ [(l, input)]) at_ row0 /\
    RequestID row0 = RequestID row /\ is_Some (RequestID row) /\ rate_kind row0 = Some kind /\
    Now input - sessionsRateWindow <= at_ /\ 0 <= growth kind row0 row /\
    v = round (fdiv (of_int (growth kind row0 row)) (seconds (time_sub (Now input) at_))) 1.
Proof.
  intros Hin Hv. destruct (past_body hist l input row Hin) as [_ H].
  destruct (H v Hv) as (kind & at_ & row0 & Hk & Hs & Hrest). exists kind, at_, row0. split; [done|].
  split; [by apply recorded_snoc|done].
Qed.

End build.

End SessionsSpec.
