(* ===== verification/SessionsView.v ===== *)
(** The order of the session table, its queue and its throttle; and concrete builds
    at which the theorems on the table are instantiated. *)

From Stdlib Require Import SpecFloat.
From S2P Require Import Prelude RecordSet Float64 Tier SchedTypes LoopTrack SlotAffinity Inflight InflightView SessionRows Sessions SessionsBase SessionsListed SessionsSlots SessionsZero SessionsSpec.

Module SessionsView.
Import Float64 Sched SessionRows Sessions SessionsBase SessionsListed SessionsSlots SessionsZero SessionsSpec.
Open Scope string_scope.
Open Scope list_scope.
Open Scope Z_scope.

(** ** The order *)

(** [row_less] as an order on four keys. *)
Definition lex (a c : sessionEntry) : Prop :=
  let ra := phaseSortRank (shownPhase a) in
  let rc := phaseSortRank (shownPhase c) in
  ra < rc \/ ra = rc /\ (Priority c < Priority a \/ Priority a = Priority c /\
    (ElapsedMs c < ElapsedMs a \/ ElapsedMs a = ElapsedMs c /\ String.le (SessionShort a) (SessionShort c))).

Lemma ltb_leb s t : String.ltb s t = negb (String.leb t s).
Proof. unfold String.ltb, String.leb. rewrite (String.compare_antisym s t). by destruct (String.compare t s). Qed.

Lemma row_less_lex a c : row_less c a = false <-> lex a c.
Proof.
  unfold row_less, lex. cbv zeta. generalize (phaseSortRank (shownPhase a)), (phaseSortRank (shownPhase c)). intros ra rc.
  rewrite ltb_leb. unfold String.le. rewrite Is_true_true. destruct (Z.eqb_spec rc ra), (Z.eqb_spec (Priority c) (Priority a)), (Z.eqb_spec (ElapsedMs c) (ElapsedMs a));
    simpl; rewrite ?Z.ltb_ge, ?negb_false_iff; (split; [intros H|intros [H|[? [H|[? [H|[? H]]]]]]; (assumption || lia || (exfalso; lia))]);
    try (left; lia); right; (split; [lia|]); try (left; lia); right; (split; [lia|]); try (left; lia); right; by split.
Qed.

#[export] Instance lex_trans : Transitive lex.
Proof.
  unfold lex. intros a b c H1 H2. cbv zeta in *.
  destruct H1 as [?|[? [?|[? [?|[? ?]]]]]], H2 as [?|[? [?|[? [?|[? ?]]]]]]; try (left; lia);
    right; (split; [lia|]); try (left; lia); right; (split; [lia|]); try (left; lia); right; (split; [lia|]). by etrans.
Qed.

Lemma lex_total a c : lex a c \/ lex c a.
Proof.
  unfold lex. cbv zeta. destruct (total String.le (SessionShort a) (SessionShort c)); lia || idtac.
  all: destruct (Z.lt_trichotomy (phaseSortRank (shownPhase a)) (phaseSortRank (shownPhase c))) as [?|[?|?]]; [by left; left| |by right; left].
  all: destruct (Z.lt_trichotomy (Priority a) (Priority c)) as [?|[?|?]]; [right; right; split; [done|]; by left| |left; right; split; [done|]; by left].
  all: destruct (Z.lt_trichotomy (ElapsedMs a) (ElapsedMs c)) as [?|[?|?]];
    [right; right; split; [done|]; right; split; [done|]; by left| |left; right; split; [done|]; right; split; [done|]; by left].
  - left. right. split; [done|]. right. split; [done|]. by right.
  - right. right. split; [done|]. right. split; [done|]. by right.
Qed.

Lemma insert_row_sorted x l : StronglySorted lex l -> StronglySorted lex (insert_row x l).
Proof.
  induction 1 as [|y l Hl IH Hy]; simpl; [repeat constructor|]. destruct (row_less y x) eqn:E.
  - constructor; [exact IH|]. rewrite insert_row_perm. constructor; [|exact Hy].
    destruct (lex_total y x) as [?|H]; [done|]. apply row_less_lex in H. congruence.
  - apply row_less_lex in E. constructor; [by constructor|]. constructor; [done|].
    eapply Forall_impl; [exact Hy|]. intros z Hz. by etrans.
Qed.

Lemma sort_rows_sorted l : StronglySorted lex (sort_rows l).
Proof. induction l; simpl; [constructor|by apply insert_row_sorted]. Qed.

(** ** The queue *)

Definition parked_in (tier : option string) (row : sessionEntry) : bool :=
  String.eqb (Phase row) phaseParked && match tier with Some t => String.eqb (Tier row) t | None => true end.

Lemma count_parked_fold rows q :
  Waiting (foldl count_parked q rows) = Waiting q + Z.of_nat (length (List.filter (parked_in None) rows)) /\
  forall t, get0 (ByTier (foldl count_parked q rows)) t = get0 (ByTier q) t + Z.of_nat (length (List.filter (parked_in (Some t)) rows)).
Proof.
  revert q. induction rows as [|row rows IH]; intros q; simpl; [split; [|intros t]; lia|].
  destruct (IH (count_parked q row)) as [-> Ht]. split; [|intros t; rewrite Ht]; unfold count_parked, parked_in;
    destruct (String.eqb (Phase row) phaseParked); simpl; try lia.
  destruct (String.eqb_spec (Tier row) t) as [<-|Hne]; [rewrite get0_insert_eq; simpl; lia|by rewrite get0_insert_ne].
Qed.

Section build.
Variable cfg : config.
Variable range : forall A : Type, gmap string A -> list (string * A).

Lemma empty_queue_zero t : get0 (ByTier (empty_queue cfg range)) t = 0.
Proof.
  apply InflightView.zero_tiers. unfold get0.
  destruct (decide (Tier.Name Tier.DefaultTier = t)) as [<-|]; [by rewrite lookup_singleton_eq|by rewrite lookup_singleton_ne].
Qed.

(** The rows come sorted by the phase shown, active ones first, then by
    priority, age and id; and the queue counts exactly the parked rows, overall and
    by tier. *)
Theorem table_ordered b l input :
  let body := (build cfg range b l input).2 in
  StronglySorted lex (Sessions body) /\
  Waiting (Queue body) = Z.of_nat (length (List.filter (parked_in None) (Sessions body))) /\
  forall t, get0 (ByTier (Queue body)) t = Z.of_nat (length (List.filter (parked_in (Some t)) (Sessions body))).
Proof.
  simpl. split; [apply sort_rows_sorted|]. destruct (count_parked_fold (b_rows (all_rows cfg range b l input)) (empty_queue cfg range)) as [-> Ht].
  assert (forall f, length (List.filter f (sort_rows (b_rows (all_rows cfg range b l input)))) =
    length (List.filter f (b_rows (all_rows cfg range b l input)))) as Hlen.
  { intros f. apply Permutation_length, filterb_perm, sort_rows_perm. }
  split; [rewrite Hlen; simpl; lia|]. intros t. rewrite Ht, empty_queue_zero, Hlen. lia.
Qed.

End build.

(** ** The throttle *)

Fixpoint offers (t : sessionsThrottle) (os : list (Z * string)) : list (Z * string) :=
  match os with
  | [] => []
  | (now, key) :: os => let '(t, emitted) := offer t now key in (if emitted then [(now, key)] else []) ++ offers t os
  end.

(** Each push brings another body than the one before, after the interval. *)
Fixpoint spaced (interval : Z) (prev : option (Z * string)) (es : list (Z * string)) : Prop :=
  match es with
  | [] => True
  | (now, key) :: es =>
    match prev with Some (at_, k) => key <> k /\ interval <= time_sub now at_ | None => True end /\ spaced interval (Some (now, key)) es
  end.

Definition last_push (t : sessionsThrottle) : option (Z * string) := if sent t then Some (lastAt t, lastKey t) else None.

(** Pushes are spaced: whatever is offered and when, two pushes that follow each
    other differ and are the interval apart; and a body that differs from the last
    push is pushed as soon as the interval is over. *)
Theorem pushes_spaced t os :
  spaced (minInterval t) (last_push t) (offers t os) /\
  forall now key, match last_push t with Some (at_, k) => key <> k /\ minInterval t <= time_sub now at_ | None => True end <->
    (offer t now key).2 = true.
Proof.
  split.
  - revert t. induction os as [|[now key] os IH]; intros t; [done|]. cbn [offers]. unfold offer.
    destruct (sent t) eqn:Es; simpl.
    + destruct (String.eqb_spec key (lastKey t)) as [|Hk]; [apply IH|].
      destruct (Z.ltb_spec (time_sub now (lastAt t)) (minInterval t)); [apply IH|]. simpl. unfold last_push. rewrite Es.
      split; [done|]. apply (IH (mkThrottle (minInterval t) now key true)).
    + unfold last_push. rewrite Es. split; [done|]. apply (IH (mkThrottle (minInterval t) now key true)).
  - intros now key. unfold last_push, offer. destruct (sent t); simpl; [|done].
    destruct (String.eqb_spec key (lastKey t)); simpl; [split; [by intros [? _]|done]|].
    destruct (Z.ltb_spec (time_sub now (lastAt t)) (minInterval t)); simpl; [split; [intros; lia|done]|]. done.
Qed.

(** ** Concrete builds *)

Definition in_order : forall A : Type, gmap string A -> list (string * A) := fun A m => map_to_list m.

Lemma in_order_perm : forall A (m : gmap string A), in_order A m ≡ₚ map_to_list m.
Proof. done. Qed.

Definition ex_cfg : config := mkConfig {["m" := mkModel ["the model"] 2]} ∅ 10.

Definition at_second (n : Z) : Z := (1000 + n) * nsec_second.

Definition ex_req (id sid : string) (arrival : Z) (m : gmap string string) : Inflight.InflightRequestEntry :=
  Inflight.mkEntry id arrival "m" "/v1/messages" "POST" ∅ "" ∅ 0 0 (Some (<["session_id" := sid]> m)).

Definition on_slot (n : string) : gmap string string := <["slot_granted" := "1"]> {["slot_id" := n]}.

Definition ex_input (n : Z) (reqs : list Inflight.InflightRequestEntry) (slots : list childSlot) (hot : list SlotAffinity.HotSlot) :
  sessionsInput :=
  mkInput (at_second n) {["m" := StateReady]} reqs {["m" := slots]} {["m" := hot]} ∅ (at_second n).

(** Session A decodes on slot 0 for two seconds, then holds nothing; B is hot on
    slot 1. *)
Definition ex_slot0 (decoded : Z) : childSlot := mkChildSlot 0 4096 true 100 40 60 decoded.
Definition ex_slot1 : childSlot := mkChildSlot 1 4096 false 300 300 0 0.
Definition ex_reqA := ex_req "1" "A" (at_second 0) (on_slot "0").
Definition ex_hotB := SlotAffinity.mkHotSlot 1 "B" 7.

Definition ex_build1 := ex_input 1 [ex_reqA] [ex_slot0 5; ex_slot1] [ex_hotB].
Definition ex_build2 := ex_input 2 [ex_reqA] [ex_slot0 25; ex_slot1] [ex_hotB].
Definition ex_build3 := ex_input 3 [] [ex_slot0 25; ex_slot1] [ex_hotB].
Definition ex_build4 := ex_input 50 [] [ex_slot0 25; ex_slot1] [].

Definition ex_hist : list (option LoopTrack.LoopTracker * sessionsInput) := [(None, ex_build1); (None, ex_build2)].

Definition summary (row : sessionEntry) := (SessionID row, Phase row, shownPhase row, shown_used row, TokensPerSecond (shown_rate row)).

Lemma ex_summaries :
  summary <$> Sessions (body_of ex_cfg in_order [(None, ex_build1)] (None, ex_build2)) =
    [("A", "DECODE", "DECODE", 125, Some (of_int 20)); ("B", "HOT", "HOT", 300, None)] /\
  summary <$> Sessions (body_of ex_cfg in_order ex_hist (None, ex_build3)) =
    [("A", "IDLE", "DECODE", 125, Some (of_int 20)); ("B", "HOT", "HOT", 300, None)] /\
  summary <$> Sessions (body_of ex_cfg in_order (ex_hist ++ [(None, ex_build3)]) (None, ex_build4)) =
    [("A", "IDLE", "IDLE", 125, None); ("B", "IDLE", "IDLE", 300, None)].
Proof. vm_compute. by repeat split. Qed.

Lemma plain_A : plain "A".
Proof. by split. Qed.

Lemma sessions_listed_witness :
  exists b' body, (b', body) = ((build ex_cfg in_order (after_builds ex_cfg in_order ex_hist) None ex_build3).1.1,
      (build ex_cfg in_order (after_builds ex_cfg in_order ex_hist) None ex_build3).2) /\
    "A" ∈ sids (Sessions body) /\ moves None ex_build3 "A" Holding (standing_of b' "A").
Proof.
  pose proof (SessionsListed.sessions_listed ex_cfg in_order in_order_perm ex_hist None ex_build3 "A" plain_A) as H.
  assert (standing_of (after_builds ex_cfg in_order ex_hist) "A" = Holding) as E0 by (vm_compute; reflexivity).
  assert (standing_of (build ex_cfg in_order (after_builds ex_cfg in_order ex_hist) None ex_build3).1.1 "A" = Resting (at_second 3)) as E1
    by (vm_compute; reflexivity).
  rewrite E0 in H. destruct (build ex_cfg in_order (after_builds ex_cfg in_order ex_hist) None ex_build3) as [[b' l'] body].
  exists b', body. split; [reflexivity|]. split; [apply (proj1 (proj2 H)); simpl in E1; rewrite E1; discriminate|exact (proj2 (proj2 H))].
Defined.

Lemma listed_for_a_minute_witness :
  "A" ∈ sids (Sessions (build ex_cfg in_order (after_builds ex_cfg in_order ([(None, ex_build1)] ++ (None, ex_build2) :: [(None, ex_build3)]))
    None ex_build4).2).
Proof.
  apply (SessionsListed.listed_for_a_minute ex_cfg in_order in_order_perm [(None, ex_build1)] None ex_build2 [(None, ex_build3)] None ex_build4
    "A" (at_second 3) plain_A).
  - left. exists ex_reqA. split; [by left|reflexivity].
  - repeat constructor. done.
  - by vm_compute.
  - by vm_compute.
  - repeat constructor. by vm_compute.
Defined.

Lemma slot_counters_once_witness :
  slots_shown (Sessions (build ex_cfg in_order newSessionsBuilder None ex_build1).2) = [("m", Some 0); ("m", Some 1)] /\
  NoDup (slots_shown (Sessions (build ex_cfg in_order newSessionsBuilder None ex_build1).2)).
Proof.
  split; [vm_compute; reflexivity|]. apply (SessionsSlots.slot_counters_once ex_cfg in_order in_order_perm). split.
  - intros r n ->%list_elem_of_singleton. vm_compute. by intros [= <-].
  - intros model hs Hh. apply (lookup_singleton_Some (M := gmap string) "m" model [ex_hotB] hs) in Hh as [_ <-]. apply NoDup_singleton.
Defined.


Lemma shown_decode_was_real_witness :
  exists row at_ row0, row ∈ Sessions (body_of ex_cfg in_order ex_hist (None, ex_build3)) /\ Phase row = phaseIdle /\
    shownPhase row = phaseDecode /\ recorded ex_cfg in_order (ex_hist ++ [(None, ex_build3)]) at_ row0 /\ Phase row0 = phaseDecode.
Proof.
  destruct (Sessions (body_of ex_cfg in_order ex_hist (None, ex_build3))) as [|row rest] eqn:E; [vm_compute in E; discriminate|].
  assert (row ∈ Sessions (body_of ex_cfg in_order ex_hist (None, ex_build3))) as Hin by (rewrite E; by left).
  assert (SessionID row = "A" /\ Phase row = phaseIdle /\ shownPhase row = phaseDecode) as (Hid & Hp & Hs)
    by (vm_compute in E; injection E as <- _; by repeat split).
  destruct (SessionsSpec.shown_decode_was_real ex_cfg in_order in_order_perm ex_hist None ex_build3 row Hin) as (_ & _ & _ & at_ & row0 & Hr & _ & Hd & _).
  - rewrite Hid. exact plain_A.
  - rewrite Hs, Hp. discriminate.
  - exists row, at_, row0. split_and!; [by rewrite <- E|done|done|exact Hr|exact Hd].
Defined.

Lemma rate_was_measured_witness :
  exists row kind at_ row0, row ∈ Sessions (body_of ex_cfg in_order [(None, ex_build1)] (None, ex_build2)) /\
    TokensPerSecond (Rate row) = Some (of_int 20) /\
    recorded ex_cfg in_order ([(None, ex_build1)] ++ [(None, ex_build2)]) at_ row0 /\ 0 <= growth kind row0 row.
Proof.
  destruct (Sessions (body_of ex_cfg in_order [(None, ex_build1)] (None, ex_build2))) as [|row rest] eqn:E; [vm_compute in E; discriminate|].
  assert (row ∈ Sessions (body_of ex_cfg in_order [(None, ex_build1)] (None, ex_build2))) as Hin by (rewrite E; by left).
  assert (TokensPerSecond (Rate row) = Some (of_int 20)) as Hv by (vm_compute in E; injection E as <- _; reflexivity).
  destruct (SessionsSpec.rate_was_measured ex_cfg in_order in_order_perm [(None, ex_build1)] None ex_build2 row _ Hin Hv)
    as (kind & at_ & row0 & _ & Hr & _ & _ & _ & _ & Hg & _).
  exists row, kind, at_, row0. split_and!; [by rewrite <- E|exact Hv|exact Hr|exact Hg].
Defined.

(** ** Two builds that the comments of the code do not expect *)

(** A session with two requests on two slots shows the older one; nothing marks the
    other slot as taken, so another session that is hot there shows the counters of
    the newer request. *)
Definition two_requests : sessionsInput :=
  ex_input 1 [ex_reqA; ex_req "2" "A" (at_second 1) (on_slot "1")] [ex_slot0 5; mkChildSlot 1 4096 true 300 0 300 0] [ex_hotB].

Lemma hot_row_shows_taken_slot :
  (fun row => (SessionID row, Phase row, Slot row, Used (Context row))) <$> Sessions (body_of ex_cfg in_order [] (None, two_requests)) =
    [("A", "DECODE", Some 0, 105); ("B", "HOT", Some 1, 300)].
Proof. vm_compute. reflexivity. Qed.

(** A struck session with one request decoding and another one held back by the
    loop guard reads PENALIZED, although it decodes. *)
Definition struck_A : option LoopTrack.LoopTracker :=
  Some (LoopTrack.mkTracker LoopTrack.DefaultLoopGuard 64 {["A" := LoopTrack.set_penalty LoopTrack.new_history 2 (at_second 900) false]}).

Definition one_held : sessionsInput :=
  ex_input 1 [ex_reqA; ex_req "2" "A" (at_second 1) {["park_reason" := "penalized"]}] [ex_slot0 5; ex_slot1] [].

Lemma decoding_row_reads_penalized :
  (fun row => (SessionID row, RequestID row, Phase row, Slot row, Decoded (Context row))) <$>
    Sessions (body_of ex_cfg in_order [] (struck_A, one_held)) = [("A", Some "1", "PENALIZED", Some 0, 5)].
Proof. vm_compute. reflexivity. Qed.

End SessionsView.
