(* ===== verification/SessionLine.v ===== *)
(** The text of a row ([internal/server/sessions_line.go]), which every menu prints
    as it is, and what it keeps of the no-zero rule. *)

From Stdlib Require Import SpecFloat.
From S2P Require Import Prelude RecordSet Float64 Tier SchedTypes LoopTrack SlotAffinity Inflight SessionRows Sessions SessionsBase SessionsListed SessionsZero SessionsView.
From stdpp Require Import pretty.

Module SessionLine.
Import Float64 Sched SessionRows Sessions SessionsListed SessionsZero SessionsView.
Open Scope string_scope.
Open Scope list_scope.
Open Scope Z_scope.

(** [fmt]'s ["%.1f"] of a finite number: the exact value to one decimal, ties to
    even. *)
Definition tenths (m : positive) (e : Z) : Z :=
  let n := Z.pos m * 10 in
  if 0 <=? e then n * 2 ^ e
  else
    let d := 2 ^ (- e) in
    let q := n / d in
    let r := 2 * (n mod d) in
    if (d <? r) || (r =? d) && Z.odd q then q + 1 else q.

Definition fmt_1f (x : float64) : string :=
  let print (s : bool) (n : Z) := (if s then "-" else "") +:+ pretty (n / 10) +:+ "." +:+ pretty (n mod 10) in
  match x with
  | S754_finite s m e => print s (tenths m e)
  | S754_zero s => print s 0
  | S754_infinity s => if s then "-Inf" else "+Inf"
  | S754_nan => "NaN"
  end.

(** ["%02d"] of a number that is not negative. *)
Definition fmt_02d (n : Z) : string := (if n <? 10 then "0" else "") +:+ pretty n.

Definition parkPhrase (reason : option string) : string :=
  match reason with
  | None => ""
  | Some r =>
    if String.eqb r "cap" then "slots full"
    else if String.eqb r "kv" then "kv pool"
    else if String.eqb r "busy" then "resident busy"
    else if String.eqb r "cooldown" then "cooldown"
    else if String.eqb r "loading" then "loading"
    else if String.eqb r "rank" then "behind higher rank"
    else if String.eqb r "swap-collision" then "another swap in flight"
    else if String.eqb r "memory-brake" then "memory brake"
    else r
  end.

Definition compactTokens (n : Z) : string :=
  if 1000000 <=? n then fmt_1f (fdiv (of_int n) (of_int 1000000)) +:+ "M"
  else if 1000 <=? n then fmt_1f (fdiv (of_int n) (of_int 1000)) +:+ "k"
  else pretty n.

Definition compactCountdown (seconds : Z) : string :=
  let s := Z.max 0 seconds in pretty (s / 60) +:+ ":" +:+ fmt_02d (s mod 60).

Definition separator : string := " · ".

Definition idAndAlias (row : sessionEntry) : string :=
  let bracket := if String.eqb (SessionShort row) "" then "-" else SessionShort row in
  let bracket := if String.eqb (ParentSessionShort row) "" then bracket else ParentSessionShort row +:+ " > " +:+ bracket in
  let name := if String.eqb (Alias row) "" then Model row else Alias row in
  "[" +:+ bracket +:+ "] " +:+ name.

Definition tierText (row : sessionEntry) : string :=
  (if String.eqb (Tier row) "" then "-" else Tier row) +:+ " P" +:+ pretty (Priority row).

Definition phaseSegment (row : sessionEntry) : string :=
  let shown := shownPhase row in
  let phrase := parkPhrase (ParkReason row) in
  if String.eqb shown phaseParked && negb (String.eqb phrase "") then shown +:+ " (" +:+ phrase +:+ ")" else shown.

(** The rate of the line: a readout without one shows no rate. *)
Definition line_rate (row : sessionEntry) : option sessionRate :=
  match Display row with
  | Some d => match d_Rate d with
              | Some r => Some r
              | None => if String.eqb (d_Phase d) phaseDecode then None else Some (Rate row)
              end
  | None => Some (Rate row)
  end.

Definition segments (row : sessionEntry) : list string :=
  let window := compactTokens (Window (Context row)) in
  match Penalty row with
  | Some p =>
    [idAndAlias row;
     "PENALIZED (" +:+ sp_Reason p +:+ " " +:+ pretty (sp_Strike p) +:+ "/" +:+ pretty (sp_Strikes p) +:+ ")";
     compactTokens (Used (Context row)) +:+ "/" +:+ window;
     match RemainingSeconds p with Some s => compactCountdown s | None => "held" end;
     tierText row]
  | None =>
    [idAndAlias row; phaseSegment row; compactTokens (shown_used row) +:+ "/" +:+ window] ++
    match Progress row with
    | Some p => if String.eqb (shownPhase row) phasePrefill then [fmt_1f (fmul p (of_int 100)) +:+ "%"] else []
    | None => []
    end ++
    match line_rate row with
    | Some r => match TokensPerSecond r with Some v => [fmt_1f v +:+ " t/s"] | None => [] end
    | None => []
    end ++
    [tierText row]
  end.

Definition rowLine (row : sessionEntry) : string := String.concat separator (segments row).

Definition lines (body : sessionsBody) : list string := rowLine <$> Sessions body.

Lemma ex_lines :
  lines (body_of ex_cfg in_order [(None, ex_build1)] (None, ex_build2)) =
    ["[A] the model · DECODE · 125/4.1k · 20.0 t/s · default P0"; "[B] the model · HOT · 300/4.1k · default P0"] /\
  lines (body_of ex_cfg in_order ex_hist (None, ex_build3)) =
    ["[A] the model · DECODE · 125/4.1k · 20.0 t/s · default P0"; "[B] the model · HOT · 300/4.1k · default P0"].
Proof. vm_compute. by split. Qed.

(** The line of a struck session prints the context of the row and not the one
    shown: a session that had context reads 0 once it rests with a strike. *)
Lemma struck_line_shows_zero :
  shown_used <$> Sessions (body_of ex_cfg in_order ex_hist (struck_A, ex_input 3 [] [] [])) = [125; 300] /\
  lines (body_of ex_cfg in_order ex_hist (struck_A, ex_input 3 [] [] [])) =
    ["[A] the model · PENALIZED (loop 2/3) · 0/0 · 14:57 · default P0"; "[B] the model · IDLE · 300/0 · default P0"].
Proof. vm_compute. by split. Qed.

End SessionLine.
