(* ===== verification/SessionsHub.v ===== *)
(** The hub of the session table ([sessionsHub] in [internal/server/sessions.go]):
    the tick of every second, which reads the children, hands fresh readings to the
    slot table, strikes slow streams, builds the table and offers it.

    The answer of a child to [/slots], already parsed, is an input; so is the body
    as JSON, which the throttle compares. *)

From S2P Require Import Prelude RecordSet Float64 Tier SchedTypes LoopTrack SlotAffinity Inflight SessionRows Sessions SessionsListed SessionsSlots SessionsZero SessionsView.

Module SessionsHub.
Import Sched SessionRows Sessions SessionsListed SessionsSlots SessionsZero SessionsView.
Open Scope string_scope.
Open Scope list_scope.
Open Scope Z_scope.

(** ** The readings *)

Abbreviation readings := (gmap string (list childSlot)).

(** [busy] of a fresh reading, up to the largest slot id. *)
Definition busy_map (slots : list childSlot) : list bool :=
  let n := foldl (fun n sl => if n <? cs_ID sl + 1 then cs_ID sl + 1 else n) 0 slots in
  foldl (fun busy sl => if 0 <=? cs_ID sl then <[Z.to_nat (cs_ID sl) := IsProcessing sl]> busy else busy)
    (replicate (Z.to_nat n) false) slots.

Section hub.
Variable cfg : config.
Variable range : forall A : Type, gmap string A -> list (string * A).
Variable polled : string -> bool.        (* the model has a slots endpoint and a URL *)
Variable json : sessionsBody -> string.

(** A model that is ready and polled: its answer, or the reading kept over. *)
Definition poll_step (answers prev : readings) (out : readings) (kv : string * ProcessState) : readings :=
  let '(id, st) := kv in
  if negb (is_ready st) || negb (polled id) then out
  else match answers !! id with
       | Some slots => <[id := slots]> out
       | None => match prev !! id with Some slots => <[id := slots]> out | None => out end
       end.

Definition pollSlots (running : gmap string ProcessState) (answers prev : readings) : readings :=
  foldl (poll_step answers prev) ∅ (range _ running).

(** What the slot table is told, in the order of [range]: fresh readings only. *)
Definition observations (running : gmap string ProcessState) (answers : readings) : list (string * list bool) :=
  omap (fun kv => if negb (is_ready kv.2) || negb (polled kv.1) then None
                  else (fun slots => (kv.1, busy_map slots)) <$> answers !! kv.1) (range _ running).

(** ** The tick *)

Record sessionsHub := mkHub {
  h_builder : sessionsBuilder; h_throttle : sessionsThrottle; h_cur : option sessionsBody; h_lastPoll : option readings;
}.

Definition newSessionsHub : sessionsHub := mkHub newSessionsBuilder (mkThrottle nsec_second 0 "" false) None None.

(** What one tick finds outside. *)
Record second := mkSecond {
  s_now : Z; s_poll : bool; s_running : gmap string ProcessState; s_answers : readings;
  s_lanes : option SlotAffinity.slotAffinityStore; s_lanes_range : gmap string SlotAffinity.slotAffinityEntry -> list (string * SlotAffinity.slotAffinityEntry);
  s_warm : gmap string string;
}.

(** The yield floor of every request, under the lock of the loop tracker only. *)
Definition yield_pass (t : Inflight.table) (now : Z) : Inflight.table * list string * list LoopTrack.LoopPenaltyEvent :=
  foldl (fun acc c =>
    let '(t, cancelled, events) := acc in
    let '(t, id, ev) := Inflight.yield_check t c now in
    (t, cancelled ++ option_list id, events ++ option_list ev))
    (t, [], []) (Inflight.yield_candidates (range _ (Inflight.requests t)) now).

Definition hot_of (s : second) : gmap string (list SlotAffinity.HotSlot) :=
  match s_lanes s with
  | None => ∅
  | Some store =>
    foldl (fun hot kv =>
      match Models cfg !! kv.1 with
      | Some mc =>
        if (0 <? ConcurrencyLimit mc) && SlotAffinity.enabled store kv.1
        then <[kv.1 := SlotAffinity.hotSlots (s_lanes_range s) store kv.1 (ConcurrencyLimit mc) (s_now s)]> hot else hot
      | None => hot
      end) ∅ (range _ (s_running s))
  end.

Definition tick_polls (h : sessionsHub) (s : second) : readings :=
  if s_poll s then pollSlots (s_running s) (s_answers s) (default ∅ (h_lastPoll h)) else default ∅ (h_lastPoll h).

Definition tick_input (h : sessionsHub) (t : Inflight.table) (s : second) : sessionsInput :=
  mkInput (s_now s) (s_running s) (Inflight.snapshotLocked (Inflight.requests t)) (tick_polls h s) (hot_of s) (s_warm s) (s_now s).

(** The hub, the table of requests, the cancelled requests and the strikes, what
    the slot table is told, and whether the body is pushed. *)
Definition tick (h : sessionsHub) (t : Inflight.table) (s : second) :
  sessionsHub * Inflight.table * (list string * list LoopTrack.LoopPenaltyEvent) * list (string * list bool) * bool :=
  let '(t, cancelled, events) := yield_pass t (s_now s) in
  let '(b, l, body) := build cfg range (h_builder h) (Inflight.loops t) (tick_input h t s) in
  let '(th, pushed) := offer (h_throttle h) (s_now s) (json body) in
  (mkHub b th (Some body) (Some (tick_polls h s)), Inflight.mkTable (Inflight.nextID t) (Inflight.requests t) l,
   (cancelled, events), if s_poll s then observations (s_running s) (s_answers s) else [], pushed).

(** ** Readings are the latest *)

Hypothesis range_perm : forall A (m : gmap string A), range A m ≡ₚ map_to_list m.

Definition reads (running : gmap string ProcessState) (id : string) : bool :=
  polled id && bool_decide (running !! id = Some StateReady).

Lemma pollSlots_lookup running answers prev id :
  pollSlots running answers prev !! id =
  if reads running id then match answers !! id with Some slots => Some slots | None => prev !! id end else None.
Proof.
  unfold pollSlots, reads.
  assert (forall l out, NoDup l.*1 -> foldl (poll_step answers prev) out l !! id =
    match (list_to_map l : gmap string ProcessState) !! id with
    | Some st => if negb (is_ready st) || negb (polled id) then out !! id
                 else match answers !! id with Some slots => Some slots
                      | None => match prev !! id with Some slots => Some slots | None => out !! id end end
    | None => out !! id
    end) as H.
  { induction l as [|[id' st] l IH]; intros out Hnd; simpl; [by rewrite lookup_empty|]. inversion_clear Hnd as [|? ? Hid Hnd'].
    rewrite IH by done. destruct (decide (id' = id)) as [->|Hne].
    - rewrite lookup_insert_eq, (not_elem_of_list_to_map_1 l id Hid). simpl.
      destruct (_ || _); [done|]. destruct (answers !! id) as [slots|]; [by rewrite lookup_insert_eq|].
      destruct (prev !! id) as [slots|] eqn:E; [by rewrite lookup_insert_eq|done].
    - rewrite (lookup_insert_ne _ id' id) by done.
      assert ((if negb (is_ready st) || negb (polled id') then out else match answers !! id' with
        | Some slots => <[id':=slots]> out | None => match prev !! id' with Some slots => <[id':=slots]> out | None => out end end) !! id = out !! id) as ->; [|done].
      destruct (_ || _); [done|]. destruct (answers !! id'); [by rewrite lookup_insert_ne|]. destruct (prev !! id'); [by rewrite lookup_insert_ne|done]. }
  rewrite H by (apply (range_keys range range_perm)). rewrite (list_to_map_range range range_perm), lookup_empty.
  unfold is_ready. destruct (running !! id) as [st|]; [|rewrite bool_decide_false by done; by rewrite andb_false_r].
  destruct (polled id); simpl; [|by rewrite orb_true_r]. rewrite orb_false_r.
  destruct (decide (st = StateReady)) as [->|Hst]; [rewrite !bool_decide_true by done|rewrite !bool_decide_false by congruence; done].
  simpl. destruct (answers !! id); [done|]. by destruct (prev !! id).
Qed.

(** The hub after some ticks; other parts use the table of requests in between. *)
Definition after_ticks (ticks : list (Inflight.table * second)) : sessionsHub :=
  foldl (fun h ts => (tick h ts.1 ts.2).1.1.1.1) newSessionsHub ticks.

Lemma tick_lastPoll h t s : h_lastPoll (tick h t s).1.1.1.1 = Some (tick_polls h s).
Proof.
  unfold tick. destruct (yield_pass _ _) as [[t' c] e]. destruct (build _ _ _ _ _) as [[b l] body]. by destruct (offer _ _ _).
Qed.

(** The reading of a child that the table is built from is its latest: the child
    gave it in a tick that polled it, and in every poll since then the model was
    ready and the child did not answer. *)
Theorem reading_is_latest ticks id slots :
  default ∅ (h_lastPoll (after_ticks ticks)) !! id = Some slots ->
  exists before at_ since, ticks = before ++ at_ :: since /\
    s_poll at_.2 = true /\ s_answers at_.2 !! id = Some slots /\ reads (s_running at_.2) id = true /\
    Forall (fun ts => s_poll ts.2 = true -> s_answers ts.2 !! id = None /\ reads (s_running ts.2) id = true) since.
Proof.
  revert slots. induction ticks as [|[t s] ticks IH] using rev_ind; intros slots Hr; [simpl in Hr; by rewrite lookup_empty in Hr|].
  unfold after_ticks in Hr. rewrite foldl_app in Hr. simpl in Hr. fold (after_ticks ticks) in Hr. rewrite tick_lastPoll in Hr.
  simpl in Hr. unfold tick_polls in Hr.
  assert (default ∅ (h_lastPoll (after_ticks ticks)) !! id = Some slots ->
    (s_poll s = true -> s_answers s !! id = None /\ reads (s_running s) id = true) ->
    exists before at_ since, ticks ++ [(t, s)] = before ++ at_ :: since /\
      s_poll at_.2 = true /\ s_answers at_.2 !! id = Some slots /\ reads (s_running at_.2) id = true /\
      Forall (fun ts => s_poll ts.2 = true -> s_answers ts.2 !! id = None /\ reads (s_running ts.2) id = true) since) as Hkeep.
  { intros Hold Hs. destruct (IH slots Hold) as (before & at_ & since & -> & H1 & H2 & H3 & H4).
    exists before, at_, (since ++ [(t, s)]). rewrite <- app_assoc. split_and!; [done..|]. apply Forall_app. by split; [|constructor]. }
  destruct (s_poll s) eqn:Ep; [|by apply Hkeep].
  rewrite pollSlots_lookup in Hr. destruct (reads (s_running s) id) eqn:Er; [|done].
  destruct (s_answers s !! id) as [a|] eqn:Ea; [|by apply Hkeep]. injection Hr as ->. exists ticks, (t, s), []. by split_and!.
Qed.

(** ** One row for each slot *)

Lemma hot_step_slots nSlots cutoff now out ke :
  SlotAffinity.hs_Slot <$> out = seqZ 0 nSlots ->
  SlotAffinity.hs_Slot <$> SlotAffinity.hot_step nSlots cutoff now out ke = seqZ 0 nSlots.
Proof.
  intros Hout. unfold SlotAffinity.hot_step. destruct ke as [sid e].
  destruct (Z.ltb_spec (SlotAffinity.slot e) 0); [done|]. destruct (Z.leb_spec nSlots (SlotAffinity.slot e)); [done|].
  destruct (negb _); [done|]. simpl. destruct (out !! Z.to_nat (SlotAffinity.slot e)) as [cur|] eqn:Ec; [|done].
  destruct (_ || _); [|done]. rewrite list_fmap_insert. rewrite <- Hout. apply list_insert_id. simpl.
  rewrite Hout. apply lookup_seqZ. lia.
Qed.

(** The hot slots of a model are listed once each. *)
Lemma hot_slots_once r store model nSlots now : NoDup (SlotAffinity.hs_Slot <$> SlotAffinity.hotSlots r store model nSlots now).
Proof.
  unfold SlotAffinity.hotSlots. destruct (_ <=? 0); [constructor|].
  assert (forall l out, SlotAffinity.hs_Slot <$> out = seqZ 0 nSlots ->
    SlotAffinity.hs_Slot <$> foldl (SlotAffinity.hot_step nSlots (now - SlotAffinity.activeWindow store) now) out l = seqZ 0 nSlots) as H.
  { induction l as [|ke l IH]; intros out Hout; [done|]. simpl. by apply IH, hot_step_slots. }
  rewrite H; [apply NoDup_seqZ|]. rewrite <- list_fmap_compose. apply list_fmap_id.
Qed.

Lemma hot_of_once s model hs : hot_of s !! model = Some hs -> NoDup (SlotAffinity.hs_Slot <$> hs).
Proof.
  unfold hot_of. destruct (s_lanes s) as [store|]; [|by rewrite lookup_empty].
  match goal with |- foldl ?f _ _ !! _ = _ -> _ => set (step := f) end.
  assert (forall l hot, (forall m hs, hot !! m = Some hs -> NoDup (SlotAffinity.hs_Slot <$> hs)) ->
    forall m hs, foldl step hot l !! m = Some hs -> NoDup (SlotAffinity.hs_Slot <$> hs)) as H.
  { induction l as [|kv l IH]; intros hot Hh m hs'; [apply Hh|]. simpl. apply IH. intros m' hs2. unfold step.
    destruct (Models cfg !! kv.1) as [mc|]; [|apply Hh]. destruct (_ && _); [|apply Hh].
    intros [[_ <-]|[_ Hm]]%lookup_insert_Some; [apply hot_slots_once|by eapply Hh]. }
  apply H. intros m hs'. by rewrite lookup_empty.
Qed.

(** In the body of every tick the counters of a slot appear on one row at most,
    if the requests in flight name their slots in the form the proxy writes. *)
Theorem tick_counters_once h t s :
  (forall id req n, Inflight.requests t !! id = Some req ->
     SlotAffinity.Atoi (slot_string (Inflight.meta (Inflight.entry req))) = Some n ->
     slot_string (Inflight.meta (Inflight.entry req)) = pretty.pretty n) ->
  exists body, h_cur (tick h t s).1.1.1.1 = Some body /\ NoDup (slots_shown (Sessions body)).
Proof.
  intros Hreq. unfold tick. destruct (yield_pass t (s_now s)) as [[t' c] e] eqn:Ey.
  assert (Inflight.requests t' = Inflight.requests t) as Hrt.
  { unfold yield_pass in Ey.
    assert (forall l acc, Inflight.requests (foldl (fun acc c => let '(t, cancelled, events) := acc in
      let '(t, id, ev) := Inflight.yield_check t c (s_now s) in
      (t, cancelled ++ option_list id, events ++ option_list ev)) acc l).1.1 = Inflight.requests acc.1.1) as H.
    { induction l as [|c' l IH]; intros [[t1 c1] e1]; [done|]. simpl. rewrite IH. unfold Inflight.yield_check.
      destruct (LoopTrack.CheckYieldFloor _ _ _ _ _) as [ev l']. done. }
    specialize (H (Inflight.yield_candidates (range _ (Inflight.requests t)) (s_now s)) (t, [], [])). by rewrite Ey in H. }
  pose proof (slot_counters_once cfg range range_perm (h_builder h) (Inflight.loops t') (tick_input h t' s)) as Hc.
  destruct (build _ _ _ _ _) as [[b l] body]. destruct (offer _ _ _). exists body. split; [done|]. apply Hc. split.
  - intros r n Hin. simpl in Hin. unfold Inflight.snapshotLocked in Hin. rewrite merge_sort_Permutation in Hin.
    apply list_elem_of_fmap in Hin as (req & -> & Hin). apply list_elem_of_fmap in Hin as ([id req'] & -> & Hin).
    apply elem_of_map_to_list in Hin. rewrite Hrt in Hin. simpl.
    assert (Inflight.meta (Inflight.copyInflightEntry (Inflight.entry req')) = Inflight.meta (Inflight.entry req')) as ->.
    { unfold Inflight.copyInflightEntry, Inflight.meta. simpl. destruct (Inflight.Metadata (Inflight.entry req')) as [m|]; [|done].
      simpl. destruct (decide (m = ∅)) as [->|]; [by rewrite bool_decide_true|by rewrite bool_decide_false]. }
    by apply (Hreq id).
  - apply hot_of_once.
Qed.

End hub.

(** ** Two ticks: the child answers the first one only *)

Definition ex_lanes (ss : gmap string SlotAffinity.slotAffinityEntry) : list (string * SlotAffinity.slotAffinityEntry) := map_to_list ss.

Definition ex_second (n : Z) (answers : readings) : second :=
  mkSecond (at_second n) true {["m" := StateReady]} answers None ex_lanes ∅.

Definition ex_requests : Inflight.table :=
  Inflight.mkTable 1 {["1" := Inflight.mkRequest ex_reqA (at_second 0) None "" [] 0]} None.

Definition ex_ticks : list (Inflight.table * second) :=
  [(ex_requests, ex_second 1 {["m" := [ex_slot0 5; ex_slot1]]}); (ex_requests, ex_second 2 ∅)].

Lemma reading_is_latest_witness :
  exists before at_ since, ex_ticks = before ++ at_ :: since /\ s_answers at_.2 !! "m" = Some [ex_slot0 5; ex_slot1].
Proof.
  destruct (reading_is_latest ex_cfg in_order (fun _ => true) (fun _ => "") in_order_perm ex_ticks "m" [ex_slot0 5; ex_slot1])
    as (before & at_ & since & E & _ & Ha & _); [vm_compute; reflexivity|].
  by exists before, at_, since.
Defined.

Lemma tick_counters_once_witness :
  exists body, h_cur (tick ex_cfg in_order (fun _ => true) (fun _ => "") newSessionsHub ex_requests (ex_second 1 {["m" := [ex_slot0 5; ex_slot1]]})).1.1.1.1 = Some body /\
    NoDup (slots_shown (Sessions body)).
Proof.
  apply (tick_counters_once ex_cfg in_order (fun _ => true) (fun _ => "") in_order_perm).
  intros id req n Hr. unfold ex_requests in Hr. cbn [Inflight.requests] in Hr. apply lookup_singleton_Some in Hr as [_ <-]. vm_compute. by intros [= <-].
Defined.

End SessionsHub.
