(* ===== verification/ModelNames.v ===== *)
(** The names of models ([internal/config/peer.go] and the lookups of
    [internal/config/config.go]): local models and their aliases, models of peers
    by their qualified or their own name, and the check that keeps them apart.

    The order in which a map is ranged over is given by [range]. *)

From S2P Require Import Prelude.

Module ModelNames.
Open Scope string_scope.
Open Scope list_scope.
Open Scope Z_scope.

(** What the configuration says of names: the models with their aliases, the real
    names of aliases, the models of each peer, the ids of selectors, and the pins of
    each profile. *)
Record names := mkNames {
  Models : gmap string (list string);
  aliases : gmap string string;
  Peers : gmap string (list string);
  SelectorIDs : gset string;
  Pins : gmap string (gset string);
}.

Definition PeerModelFQN (peerID modelID : string) : string := peerID +:+ "/" +:+ modelID.

Definition RealModelName (c : names) (search : string) : option string :=
  if bool_decide (is_Some (Models c !! search)) then Some search else aliases c !! search.

(** The models of one peer, each once: [None] as soon as a second match is found. *)
Fixpoint scan_models (p : string -> string -> bool) (id : string) (seen : gset string) (models : list string)
  (found : option (string * string)) : option (option (string * string)) :=
  match models with
  | [] => Some found
  | m :: models =>
    if bool_decide (m ∈ seen) then scan_models p id seen models found
    else
      let seen := {[m]} ∪ seen in
      if negb (p id m) then scan_models p id seen models found
      else match found with
           | Some x => if bool_decide (x = (id, m)) then scan_models p id seen models (Some (id, m)) else None
           | None => scan_models p id seen models (Some (id, m))
           end
  end.

Fixpoint scan_peers (p : string -> string -> bool) (peers : list (string * list string)) (found : option (string * string)) :
  option (option (string * string)) :=
  match peers with
  | [] => Some found
  | (id, models) :: peers =>
    match scan_models p id ∅ models found with Some found => scan_peers p peers found | None => None end
  end.

Inductive name_error : Type :=
| Ambiguous (fqn peer1 model1 peer2 model2 : string)
| IsModel (fqn : string)
| IsAliasOf (fqn model : string)
| IsAlias (fqn : string)
| IsSelector (fqn : string)
| IsPin (fqn profile : string).

(** The table of qualified names, peers in order of their ids. *)
Fixpoint add_models (peerID : string) (seen : gset string) (models : list string) (t : gmap string (string * string)) :
  result name_error (gmap string (string * string)) :=
  match models with
  | [] => Ok t
  | m :: models =>
    if bool_decide (m ∈ seen) then add_models peerID seen models t
    else
      let fqn := PeerModelFQN peerID m in
      match t !! fqn with
      | Some (p, m') => Err (Ambiguous fqn p m' peerID m)
      | None => add_models peerID ({[m]} ∪ seen) models (<[fqn := (peerID, m)]> t)
      end
  end.

Fixpoint add_peers (c : names) (ids : list string) (t : gmap string (string * string)) :
  result name_error (gmap string (string * string)) :=
  match ids with
  | [] => Ok t
  | id :: ids => rbind (add_models id ∅ (default [] (Peers c !! id)) t) (add_peers c ids)
  end.

Section names.
Variable range : forall A : Type, gmap string A -> list (string * A).

Definition qualified (search : string) (id m : string) : bool := String.eqb (PeerModelFQN id m) search.
Definition unqualified (search : string) (_ m : string) : bool := String.eqb m search.

(** Both ways to fail, not found and ambiguous, are [None]. *)
Definition ResolvePeerModel (c : names) (search : string) : option (string * string) :=
  match scan_peers (qualified search) (range _ (Peers c)) None with
  | None => None
  | Some (Some x) => Some x
  | Some None => default None (scan_peers (unqualified search) (range _ (Peers c)) None)
  end.

Definition ResolveBaseModel (c : names) (search : string) : option string :=
  match RealModelName c search with
  | Some real => Some real
  | None => match ResolvePeerModel c search with Some _ => Some search | None => None end
  end.

(** One reserved name against everything else that has a name. *)
Definition reserved_clash (c : names) (fqn : string) : option name_error :=
  if bool_decide (is_Some (Models c !! fqn)) then Some (IsModel fqn)
  else match find (fun kv => bool_decide (fqn ∈ kv.2)) (range _ (Models c)) with
       | Some (model, _) => Some (IsAliasOf fqn model)
       | None =>
         if bool_decide (is_Some (aliases c !! fqn)) then Some (IsAlias fqn)
         else if bool_decide (fqn ∈ SelectorIDs c) then Some (IsSelector fqn)
         else match find (fun kv => bool_decide (fqn ∈ kv.2)) (range _ (Pins c)) with
              | Some (profile, _) => Some (IsPin fqn profile)
              | None => None
              end
       end.

(** [None] is success. *)
Definition ValidatePeerNamespace (c : names) : option name_error :=
  match add_peers c (sort_strings (range _ (Peers c)).*1) ∅ with
  | Err e => Some e
  | Ok t => head (omap (reserved_clash c) (sort_strings (range _ t).*1))
  end.

Hypothesis range_perm : forall A (m : gmap string A), range A m ≡ₚ map_to_list m.

Lemma range_elem {A} (m : gmap string A) k x : (k, x) ∈ range A m <-> m !! k = Some x.
Proof. rewrite range_perm. apply elem_of_map_to_list. Qed.

(** ** Resolution *)

Definition provides (c : names) (id m : string) : Prop := exists ms, Peers c !! id = Some ms /\ m ∈ ms.

(** The one match among [P], if [found] counts as one. *)
Definition only (P : string -> string -> Prop) (found : option (string * string)) (r : option (option (string * string))) : Prop :=
  let Q id m := P id m \/ found = Some (id, m) in
  match r with
  | None => exists id m id' m', Q id m /\ Q id' m' /\ (id, m) <> (id', m')
  | Some None => forall id m, ~ Q id m
  | Some (Some (id, m)) => Q id m /\ forall id' m', Q id' m' -> (id', m') = (id, m)
  end.

Lemma only_start (P : string -> string -> Prop) found : (forall id m, ~ P id m) -> only P found (Some found).
Proof. intros H. destruct found as [[id m]|]; simpl; [|naive_solver]. split; [by right|]. intros id' m' [?|[= <- <-]]; [naive_solver|done]. Qed.

Lemma scan_models_only p id seen models found :
  only (fun id' m => id' = id /\ m ∈ models /\ m ∉ seen /\ p id m = true) found (scan_models p id seen models found).
Proof.
  revert seen found. induction models as [|m models IH]; intros seen found; simpl.
  { apply only_start. intros id' m' (_ & ?%elem_of_nil & _); done. }
  assert (forall P Q r, (forall id' m', P id' m' <-> Q id' m') -> only P found r -> only Q found r) as Hext.
  { intros P Q r HPQ. unfold only. destruct r as [[[i x]|]|].
    - rewrite HPQ. intros [? H]. split; [done|]. intros i' x'. rewrite <- HPQ. apply H.
    - intros H i x. rewrite <- HPQ. apply H.
    - intros (i & x & i' & x' & H). exists i, x, i', x'. by rewrite <- !HPQ. }
  destruct (decide (m ∈ seen)) as [Hs|Hs].
  { rewrite bool_decide_true by done. eapply Hext; [|apply IH]. simpl. intros id' m'. set_solver. }
  rewrite bool_decide_false by done. destruct (p id m) eqn:Ep; simpl.
  2:{ eapply Hext; [|apply IH]. simpl. intros id' m'. split; [set_solver|].
      intros (-> & [->|Hin]%elem_of_cons & Hns & Hp); [congruence|]. split_and!; [done|done| |done].
      apply not_elem_of_union. split; [|done]. intros ->%elem_of_singleton. congruence. }
  assert (forall r, only (fun id' m' => id' = id /\ m' ∈ models /\ m' ∉ {[m]} ∪ seen /\ p id m' = true) (Some (id, m)) r ->
    (found = None \/ found = Some (id, m)) ->
    only (fun id' m' => id' = id /\ m' ∈ m :: models /\ m' ∉ seen /\ p id m' = true) found r) as Hnew.
  { intros r. unfold only. set (Q := fun id' m' => (id' = id /\ m' ∈ models /\ m' ∉ {[m]} ∪ seen /\ p id m' = true) \/ Some (id, m) = Some (id', m')).
    intros Hr Hf. change (match r with None => exists i x i' x', Q i x /\ Q i' x' /\ (i, x) <> (i', x') | Some None => forall i x, ~ Q i x
      | Some (Some (i, x)) => Q i x /\ forall i' x', Q i' x' -> (i', x') = (i, x) end) in Hr.
    assert (forall id' m', (id' = id /\ m' ∈ m :: models /\ m' ∉ seen /\ p id m' = true) \/ found = Some (id', m') <-> Q id' m') as HQ.
    { intros id' m'. unfold Q. split.
      - intros [(-> & [->|Hin]%elem_of_cons & Hns & Hp)|E]; [by right| |destruct Hf as [->| ->]; [done|by right]].
        destruct (decide (m' = m)) as [->|Hne]; [by right|left]. split_and!; [done|done|set_solver|done].
      - intros [(-> & Hin & Hns & Hp)|[= <- <-]]; left; split_and!; try done; [by right|set_solver|by left]. }
    destruct r as [[[i x]|]|].
    - rewrite HQ. destruct Hr as [? H]. split; [done|]. intros i' x'. rewrite HQ. apply H.
    - intros i x. rewrite HQ. apply Hr.
    - destruct Hr as (i & x & i' & x' & H). exists i, x, i', x'. by rewrite !HQ. }
  destruct found as [x|]; [|apply Hnew; [apply IH|by left]].
  destruct (decide (x = (id, m))) as [->|Hne]; [rewrite bool_decide_true by done; apply Hnew; [apply IH|by right]|].
  rewrite bool_decide_false by done. destruct x as [i y]. exists i, y, id, m. split_and!; [by right| |done].
  left. split_and!; [done|by left|done|done].
Qed.

Lemma scan_peers_only p peers found :
  only (fun id m => exists ms, (id, ms) ∈ peers /\ m ∈ ms /\ p id m = true) found (scan_peers p peers found).
Proof.
  revert found. induction peers as [|[id ms] peers IH]; intros found; simpl.
  { apply only_start. intros id m (ms & ?%elem_of_nil & _); done. }
  pose proof (scan_models_only p id ∅ ms found) as H.
  destruct (scan_models p id ∅ ms found) as [found'|]; unfold only in H |- *.
  2:{ destruct H as (i & x & i' & x' & H1 & H2 & Hne).
      assert (forall i x, (i = id /\ x ∈ ms /\ x ∉ (∅ : gset string) /\ p id x = true) \/ found = Some (i, x) ->
        (exists ms0, (i, ms0) ∈ (id, ms) :: peers /\ x ∈ ms0 /\ p i x = true) \/ found = Some (i, x)) as Hi.
      { intros i0 x0 [(-> & ? & _ & ?)|?]; [left; exists ms; split; [by left|done]|by right]. }
      exists i, x, i', x'. split_and!; [by apply Hi|by apply Hi|done]. }
  specialize (IH found'). unfold only in IH.
  assert (forall i x, (exists ms0, (i, ms0) ∈ (id, ms) :: peers /\ x ∈ ms0 /\ p i x = true) \/ found = Some (i, x) <->
    (exists ms0, (i, ms0) ∈ peers /\ x ∈ ms0 /\ p i x = true) \/ ((i = id /\ x ∈ ms /\ x ∉ (∅ : gset string) /\ p id x = true) \/ found = Some (i, x))) as Hsplit.
  { intros i x. split.
    - intros [(ms0 & [[= -> ->]|Hin]%elem_of_cons & Hx & Hp)|?]; [right; left; set_solver|left; by exists ms0|by right; right].
    - intros [(ms0 & Hin & Hx & Hp)|[(-> & Hx & _ & Hp)|?]]; [left; exists ms0; split; [by right|done]|left; exists ms; split; [by left|done]|by right]. }
  assert (forall i x, ((i = id /\ x ∈ ms /\ x ∉ (∅ : gset string) /\ p id x = true) \/ found = Some (i, x)) -> found' = Some (i, x)) as Hf.
  { intros i x Hq. destruct found' as [[i' x']|]; [|by destruct (H i x)]. destruct H as [_ H]. by rewrite (H i x Hq). }
  assert (forall i x, found' = Some (i, x) -> ((i = id /\ x ∈ ms /\ x ∉ (∅ : gset string) /\ p id x = true) \/ found = Some (i, x))) as Hb.
  { intros i x ->. apply H. }
  assert (forall i x, (exists ms0, (i, ms0) ∈ (id, ms) :: peers /\ x ∈ ms0 /\ p i x = true) \/ found = Some (i, x) <->
    (exists ms0, (i, ms0) ∈ peers /\ x ∈ ms0 /\ p i x = true) \/ found' = Some (i, x)) as Heq.
  { intros i x. rewrite Hsplit. split; (intros [?|?]; [by left|right; auto]). }
  destruct (scan_peers p peers found') as [[[i x]|]|].
  - rewrite Heq. destruct IH as [? IH]. split; [done|]. intros i' x'. rewrite Heq. apply IH.
  - intros i x. rewrite Heq. apply IH.
  - destruct IH as (i & x & i' & x' & H1 & H2 & Hne). exists i, x, i', x'. by rewrite !Heq.
Qed.

Lemma scan_range_only c p : only (fun id m => provides c id m /\ p id m = true) None (scan_peers p (range _ (Peers c)) None).
Proof.
  pose proof (scan_peers_only p (range _ (Peers c)) None) as H. unfold only in H |- *.
  assert (forall id m, ((exists ms, (id, ms) ∈ range _ (Peers c) /\ m ∈ ms /\ p id m = true) \/ None = Some (id, m)) <->
    ((provides c id m /\ p id m = true) \/ None = Some (id, m))) as He.
  { intros id m. unfold provides. split; (intros [H0|?]; [left|done]).
    - destruct H0 as (ms & Hin%range_elem & ? & ?). split; [by exists ms|done].
    - destruct H0 as [(ms & Hin & ?) ?]. exists ms. by rewrite range_elem. }
  destruct (scan_peers _ _ _) as [[[i x]|]|].
  - rewrite <- He. destruct H as [? H]. split; [done|]. intros i' x'. rewrite <- He. apply H.
  - intros i x. rewrite <- He. apply H.
  - destruct H as (i & x & i' & x' & H). exists i, x, i', x'. by rewrite <- !He.
Qed.

Lemma ResolvePeerModel_spec c search id m :
  ResolvePeerModel c search = Some (id, m) <->
  provides c id m /\
  ((PeerModelFQN id m = search /\ forall id' m', provides c id' m' -> PeerModelFQN id' m' = search -> (id', m') = (id, m)) \/
   ((forall id' m', provides c id' m' -> PeerModelFQN id' m' <> search) /\
    m = search /\ forall id', provides c id' search -> id' = id)).
Proof.
  unfold ResolvePeerModel. pose proof (scan_range_only c (qualified search)) as Hq. unfold only in Hq; cbv zeta beta in Hq.
  pose proof (scan_range_only c (unqualified search)) as Hu. unfold only in Hu; cbv zeta beta in Hu.
  destruct (scan_peers (qualified search) _ None) as [[[i x]|]|].
  - destruct Hq as [[[Hp E%String.eqb_eq]|?] Honly]; [|done].
    assert (forall i' x', provides c i' x' -> PeerModelFQN i' x' = search -> (i', x') = (i, x)) as Ho
      by (intros i' x' ? ?; apply Honly; left; split; [done|by apply String.eqb_eq]).
    split; [intros [= <- <-]; split; [done|]; by left|]. intros [Hpm [[Em Hom]|[Hno _]]]; [|by destruct (Hno i x)].
    by rewrite (Ho id m).
  - assert (forall i' x', provides c i' x' -> PeerModelFQN i' x' <> search) as Hno.
    { intros i' x' Hp E. apply (Hq i' x'). left. split; [done|by apply String.eqb_eq]. }
    destruct (scan_peers (unqualified search) _ None) as [[[i x]|]|]; simpl.
    + destruct Hu as [[[Hp E%String.eqb_eq]|?] Honly]; [subst x|done].
      assert (forall i', provides c i' search -> i' = i) as Ho.
      { intros i' Hi. assert ((i', search) = (i, search)) as [= ->]; [|done]. apply Honly. left. split; [done|by apply String.eqb_eq]. }
      split; [intros [= <- <-]; split; [done|right; by split_and!]|].
      intros [Hpm [[Em _]|(_ & -> & _)]]; [by destruct (Hno id m)|]. by rewrite (Ho id).
    + split; [done|]. intros [Hpm [[Em _]|(_ & -> & _)]]; [by destruct (Hno id m)|].
      destruct (Hu id search). left. split; [done|by apply String.eqb_eq].
    + destruct Hu as (i & x & i' & x' & [[H1 E1%String.eqb_eq]|?] & [[H2 E2%String.eqb_eq]|?] & Hne); try done. subst x x'.
      split; [done|]. intros [Hpm [[Em _]|(_ & -> & Ho)]]; [by destruct (Hno id m)|]. by rewrite (Ho i), (Ho i') in Hne.
  - destruct Hq as (i & x & i' & x' & [[H1 E1%String.eqb_eq]|?] & [[H2 E2%String.eqb_eq]|?] & Hne); try done.
    split; [done|]. intros [Hpm [[Em Ho]|(Hno & _)]]; [|by destruct (Hno i x)]. by rewrite (Ho i x), (Ho i' x') in Hne.
Qed.

(** A name resolves to a model of a peer exactly when it is that model's
    qualified name and no other's, or nobody's qualified name and the own name of a
    model of one peer alone; in whatever order the peers are looked at. *)
Theorem ResolvePeerModel_correct c search id m :
  ResolvePeerModel c search = Some (id, m) <->
  provides c id m /\
  ((PeerModelFQN id m = search /\ forall id' m', provides c id' m' -> PeerModelFQN id' m' = search -> (id', m') = (id, m)) \/
   ((forall id' m', provides c id' m' -> PeerModelFQN id' m' <> search) /\
    m = search /\ forall id', provides c id' search -> id' = id)).
Proof. exact (ResolvePeerModel_spec c search id m). Qed.

(** ** The name space *)

(** What the check demands: a qualified name belongs to one model, and to nothing else. *)
Definition reserved (c : names) (n : string) : Prop :=
  Models c !! n = None /\ (forall model ms, Models c !! model = Some ms -> n ∉ ms) /\ aliases c !! n = None /\
  n ∉ SelectorIDs c /\ forall profile pins, Pins c !! profile = Some pins -> n ∉ pins.

Definition clash (c : names) (e : name_error) : Prop :=
  match e with
  | Ambiguous n p m p' m' => provides c p m /\ provides c p' m' /\ PeerModelFQN p m = n /\ PeerModelFQN p' m' = n /\ (p, m) <> (p', m')
  | IsModel n => is_Some (Models c !! n)
  | IsAliasOf n model => exists ms, Models c !! model = Some ms /\ n ∈ ms
  | IsAlias n => is_Some (aliases c !! n)
  | IsSelector n => n ∈ SelectorIDs c
  | IsPin n profile => exists pins, Pins c !! profile = Some pins /\ n ∈ pins
  end.

Definition name_of (e : name_error) : string :=
  match e with Ambiguous n _ _ _ _ | IsModel n | IsAliasOf n _ | IsAlias n | IsSelector n | IsPin n _ => n end.

Definition covers (S : string -> string -> Prop) (t : gmap string (string * string)) : Prop :=
  forall n p m, t !! n = Some (p, m) <-> S p m /\ PeerModelFQN p m = n.

Lemma covers_ext (S S' : string -> string -> Prop) t : (forall p m, S p m <-> S' p m) -> covers S t -> covers S' t.
Proof. intros H Hc n p m. by rewrite <- H. Qed.

Lemma covers_insert S t id m :
  covers S t -> t !! PeerModelFQN id m = None ->
  covers (fun p m' => S p m' \/ (p = id /\ m' = m)) (<[PeerModelFQN id m := (id, m)]> t).
Proof.
  intros Hc Hn n p m'. destruct (decide (n = PeerModelFQN id m)) as [->|Hne].
  - rewrite lookup_insert_eq. split; [intros [= -> ->]; split; [by right|done]|].
    intros [[HS|[-> ->]] E]; [|done]. assert (t !! PeerModelFQN id m = Some (p, m')) by (by apply Hc). congruence.
  - rewrite lookup_insert_ne by done. rewrite (Hc n p m'). split; [intros [? ?]; split; [by left|done]|].
    intros [[?|[-> ->]] E]; [done|congruence].
Qed.

Lemma add_models_spec id seen models t (S : string -> string -> Prop) :
  covers S t -> (forall m, m ∈ seen <-> S id m) ->
  let S' p m := S p m \/ (p = id /\ m ∈ models) in
  match add_models id seen models t with
  | Ok t' => covers S' t'
  | Err e => exists p m m', e = Ambiguous (PeerModelFQN id m') p m id m' /\ S' p m /\ S' id m' /\
      PeerModelFQN p m = PeerModelFQN id m' /\ (p, m) <> (id, m')
  end.
Proof.
  revert seen t S. induction models as [|x models IH]; intros seen t S Hc Hs; simpl.
  { eapply covers_ext; [|exact Hc]. intros p m. rewrite elem_of_nil. tauto. }
  destruct (decide (x ∈ seen)) as [Hx|Hx].
  { rewrite bool_decide_true by done. specialize (IH seen t S Hc Hs). simpl in IH. apply Hs in Hx.
    assert (forall p m, (S p m \/ (p = id /\ m ∈ models)) <-> (S p m \/ (p = id /\ m ∈ x :: models))) as He.
    { intros p m. rewrite elem_of_cons. split; [tauto|]. intros [?|[-> [->|?]]]; auto. }
    destruct (add_models _ _ _ _) as [t'|e]; [by apply (covers_ext _ _ _ He)|].
    destruct IH as (p & m & m' & H). exists p, m, m'. rewrite <- !He. exact H. }
  rewrite bool_decide_false by done. destruct (t !! PeerModelFQN id x) as [[p m]|] eqn:Et.
  { apply Hc in Et as [HS E]. exists p, m, x. split_and!; [done|by left|right; split; [done|by left]|done|].
    intros [= -> ->]. by apply Hx, Hs. }
  pose proof (covers_insert S t id x Hc Et) as Hc'. specialize (IH ({[x]} ∪ seen) _ _ Hc'). simpl in IH.
  assert (forall p m, ((S p m \/ (p = id /\ m = x)) \/ (p = id /\ m ∈ models)) <-> (S p m \/ (p = id /\ m ∈ x :: models))) as He
    by (intros p m; rewrite elem_of_cons; tauto).
  assert (forall m, m ∈ {[x]} ∪ seen <-> S id m \/ (id = id /\ m = x)) as Hs'.
  { intros m. rewrite elem_of_union, elem_of_singleton, Hs. tauto. }
  specialize (IH Hs'). destruct (add_models _ _ _ _) as [t'|e]; [by apply (covers_ext _ _ _ He)|].
  destruct IH as (p & m & m' & H). exists p, m, m'. rewrite <- !He. exact H.
Qed.

Lemma add_peers_spec c ids visited t :
  NoDup ids -> (forall id, id ∈ ids -> id ∉ visited) -> covers (fun p m => p ∈ visited /\ provides c p m) t ->
  match add_peers c ids t with
  | Ok t' => covers (fun p m => p ∈ visited ++ ids /\ provides c p m) t'
  | Err e => clash c e /\ exists p m, provides c p m /\ PeerModelFQN p m = name_of e
  end.
Proof.
  revert visited t. induction ids as [|id ids IH]; intros visited t Hnd Hdis Hc; simpl.
  { eapply covers_ext; [|exact Hc]. intros p m. by rewrite app_nil_r. }
  apply NoDup_cons in Hnd as [Hni Hnd].
  pose proof (add_models_spec id ∅ (default [] (Peers c !! id)) t _ Hc) as H. simpl in H.
  assert (forall m, m ∈ default [] (Peers c !! id) <-> provides c id m) as Hp.
  { intros m. unfold provides. destruct (Peers c !! id) as [ms|]; simpl; [naive_solver|].
    rewrite elem_of_nil. naive_solver. }
  assert (forall p m, ((p ∈ visited /\ provides c p m) \/ (p = id /\ m ∈ default [] (Peers c !! id))) <-> p ∈ visited ++ [id] /\ provides c p m) as He.
  { intros p m. rewrite elem_of_app, list_elem_of_singleton, Hp. split; [intros [?|[-> ?]]; tauto|].
    intros [[?| ->] ?]; [by left|by right]. }
  assert (forall m, m ∈ (∅ : gset string) <-> id ∈ visited /\ provides c id m) as Hs.
  { intros m. split; [by intros ?%elem_of_empty|]. intros [Hv _]. exfalso. by apply (Hdis id); [left|]. }
  specialize (H Hs). destruct (add_models _ _ _ _) as [t'|e]; simpl.
  - apply (covers_ext _ (fun p m => p ∈ visited ++ [id] /\ provides c p m)) in H; [|done].
    specialize (IH (visited ++ [id]) t' Hnd). rewrite <- app_assoc in IH. apply IH; [|done].
    intros i Hi. rewrite elem_of_app, list_elem_of_singleton. intros [Hv| ->]; [|done]. apply (Hdis i); [by right|done].
  - destruct H as (p & m & m' & -> & H1 & H2 & E & Hne). apply He in H1, H2. destruct H1 as [_ H1], H2 as [_ H2].
    split; [by split_and!|by exists id, m'].
Qed.

Lemma find_spec {A} (f : A -> bool) l : match find f l with Some x => x ∈ l /\ f x = true | None => forall x, x ∈ l -> f x = false end.
Proof.
  destruct (find f l) as [x|] eqn:E; [apply List.find_some in E as [H ?]; by apply list_elem_of_In in H|].
  intros x Hx. apply list_elem_of_In in Hx. by eapply List.find_none.
Qed.

Lemma reserved_clash_spec c n : match reserved_clash c n with Some e => clash c e /\ name_of e = n | None => reserved c n end.
Proof.
  unfold reserved_clash. case_bool_decide as HM; [done|].
  pose proof (find_spec (fun kv : string * list string => bool_decide (n ∈ kv.2)) (range _ (Models c))) as HA.
  destruct (find _ (range _ (Models c))) as [[model ms]|].
  { destruct HA as [?%range_elem ?%bool_decide_eq_true]. split; [by exists ms|done]. }
  case_bool_decide as Ha; [done|]. case_bool_decide as Hs; [done|].
  pose proof (find_spec (fun kv : string * gset string => bool_decide (n ∈ kv.2)) (range _ (Pins c))) as HP.
  destruct (find _ (range _ (Pins c))) as [[profile pins]|].
  { destruct HP as [?%range_elem ?%bool_decide_eq_true]. split; [by exists pins|done]. }
  split_and!; [by apply eq_None_not_Some| |by apply eq_None_not_Some|done|].
  - intros model ms Hm%range_elem Hin. specialize (HA _ Hm). by apply bool_decide_eq_false in HA.
  - intros profile pins Hm%range_elem Hin. specialize (HP _ Hm). by apply bool_decide_eq_false in HP.
Qed.

Lemma range_names {A} (m : gmap string A) k : k ∈ (range A m).*1 <-> is_Some (m !! k).
Proof.
  rewrite list_elem_of_fmap. split.
  - intros ([k' x] & -> & H%range_elem). by exists x.
  - intros [x H%range_elem]. by exists (k, x).
Qed.

Lemma range_names_nodup {A} (m : gmap string A) : NoDup (range A m).*1.
Proof. rewrite range_perm. apply NoDup_fst_map_to_list. Qed.

Lemma head_omap {A B} (f : A -> option B) l :
  match head (omap f l) with Some y => exists x, x ∈ l /\ f x = Some y | None => forall x, x ∈ l -> f x = None end.
Proof.
  induction l as [|x l IH]; simpl; [by intros ? ?%elem_of_nil|]. destruct (f x) as [y|] eqn:E; simpl; [exists x; split; [by left|done]|].
  change (list_omap A B f l) with (omap f l). destruct (head (omap f l)); [destruct IH as (x' & ? & ?); exists x'; split; [by right|done]|].
  intros x' [->|?]%elem_of_cons; auto.
Qed.

Lemma ValidatePeerNamespace_spec c :
  match ValidatePeerNamespace c with
  | None => forall id m, provides c id m ->
      reserved c (PeerModelFQN id m) /\
      forall id' m', provides c id' m' -> PeerModelFQN id' m' = PeerModelFQN id m -> (id', m') = (id, m)
  | Some e => clash c e /\ exists id m, provides c id m /\ PeerModelFQN id m = name_of e
  end.
Proof.
  unfold ValidatePeerNamespace.
  pose proof (add_peers_spec c (sort_strings (range _ (Peers c)).*1) [] ∅) as H.
  assert (NoDup (sort_strings (range _ (Peers c)).*1)) as Hnd by (rewrite sort_strings_perm; apply range_names_nodup).
  specialize (H Hnd ltac:(set_solver)). destruct (add_peers _ _ _) as [t|e].
  2:{ apply H. intros n p m. rewrite lookup_empty. set_solver. }
  assert (covers (provides c) t) as Ht.
  { eapply covers_ext; [|apply H; intros n p m; rewrite lookup_empty; set_solver].
    intros p m. simpl. rewrite sort_strings_elem, range_names. unfold provides. naive_solver. }
  pose proof (head_omap (reserved_clash c) (sort_strings (range _ t).*1)) as Hh.
  destruct (head _) as [e|].
  - destruct Hh as (n & [[p m] [Hp En]%Ht]%sort_strings_elem%range_names & He).
    pose proof (reserved_clash_spec c n) as Hr. rewrite He in Hr. destruct Hr as [? <-]. split; [done|by exists p, m].
  - intros id m Hp. assert (t !! PeerModelFQN id m = Some (id, m)) as Et by (by apply Ht). split.
    + pose proof (reserved_clash_spec c (PeerModelFQN id m)) as Hr. rewrite (Hh (PeerModelFQN id m)) in Hr; [done|].
      apply sort_strings_elem, range_names. by exists (id, m).
    + intros id' m' Hp' E. assert (t !! PeerModelFQN id m = Some (id', m')) by (by apply Ht). congruence.
Qed.

(** The check of the name space accepts exactly when the qualified name of every
    peer model is that model's alone and is no model, alias, selector or pin; and the
    error it reports names a real clash over the qualified name of a peer model. *)
Theorem ValidatePeerNamespace_correct c :
  match ValidatePeerNamespace c with
  | None => forall id m, provides c id m ->
      reserved c (PeerModelFQN id m) /\
      forall id' m', provides c id' m' -> PeerModelFQN id' m' = PeerModelFQN id m -> (id', m') = (id, m)
  | Some e => clash c e /\ exists id m, provides c id m /\ PeerModelFQN id m = name_of e
  end.
Proof. exact (ValidatePeerNamespace_spec c). Qed.

(** Under a name space that was accepted every qualified name leads to its model. *)
Lemma qualified_resolves c id m :
  ValidatePeerNamespace c = None -> provides c id m ->
  ResolvePeerModel c (PeerModelFQN id m) = Some (id, m) /\ ResolveBaseModel c (PeerModelFQN id m) = Some (PeerModelFQN id m).
Proof.
  intros Hv Hp. pose proof (ValidatePeerNamespace_spec c) as H. rewrite Hv in H. destruct (H id m Hp) as [(HM & _ & Ha & _) Hone].
  assert (ResolvePeerModel c (PeerModelFQN id m) = Some (id, m)) as Hr.
  { apply ResolvePeerModel_spec. split; [done|]. by left. }
  split; [done|]. unfold ResolveBaseModel, RealModelName. by rewrite HM, Ha, Hr.
Qed.

End names.

(** ** Witnesses *)

Definition range_list (A : Type) (m : gmap string A) : list (string * A) := map_to_list m.

Definition sample : names :=
  mkNames {["qwen" := ["small"]]} {["small" := "qwen"]}
    {["a" := ["b/c"; "llama"; "llama"]; "d" := ["llama"; "phi"]]} {["fast"]} ∅.

Definition twice : names := mkNames ∅ ∅ {["a" := ["b/c"]; "a/b" := ["c"]]} ∅ ∅.

Lemma ResolvePeerModel_correct_witness :
  (ResolvePeerModel range_list sample "phi" = Some ("d", "phi") /\ ResolvePeerModel range_list sample "llama" = None /\
   ResolvePeerModel range_list sample "d/llama" = Some ("d", "llama") /\ ResolvePeerModel range_list twice "a/b/c" = None) /\
  provides sample "d" "phi".
Proof.
  split; [split_and!; vm_compute; reflexivity|].
  exact (proj1 (proj1 (ResolvePeerModel_correct range_list (fun A m => reflexivity _) sample "phi" "d" "phi") eq_refl)).
Defined.

Lemma ValidatePeerNamespace_correct_witness :
  ValidatePeerNamespace range_list sample = None /\
  ValidatePeerNamespace range_list twice = Some (Ambiguous "a/b/c" "a" "b/c" "a/b" "c") /\
  clash twice (Ambiguous "a/b/c" "a" "b/c" "a/b" "c").
Proof.
  split_and!; [vm_compute; reflexivity|vm_compute; reflexivity|].
  exact (proj1 (ValidatePeerNamespace_correct range_list (fun A m => reflexivity _) twice)).
Defined.

End ModelNames.
