(* ===== verification/Selectors.v ===== *)
(** Selectors: virtual model names that stand for one of several targets.  Their
    checks ([internal/config/selectors.go]) and the strategies that choose a target
    ([internal/server/selector.go]).  The requests that hold a target are in
    SelectorSpill.v. *)

From S2P Require Import Prelude Runes SchedTypes MatrixDsl MatrixProgram ModelNames.

Module Selectors.
Import Sched ModelNames.
Open Scope string_scope.
Open Scope list_scope.
Open Scope Z_scope.

Definition SelectorStrategyWarm : string := "warm".
Definition SelectorStrategyPin : string := "pin".
Definition SelectorStrategySpillover : string := "spillover".

(** [SelectorConfig], less what is only displayed. *)
Record SelectorConfig := mkSelector { Strategy : string; Targets : list string; Spillover : Z }.

Record GroupConfig := mkGroup { Swap : bool; Members : list string }.

(** What the checks and the middleware read of the configuration; [matrix] is the
    compiled program of the matrix, when there is one. *)
Record Config := mkConfig {
  cfg_names : names;
  cfg_Selectors : gmap string SelectorConfig;
  use_matrix : bool;
  matrix : option Matrix.Program;
  Groups : gmap string GroupConfig;
  IgnoreWebsockets : gset string;
}.

Inductive selector_error : Type :=
| EmptyName
| ConflictsModel (id : string)
| ConflictsAlias (id : string)
| StrategyRequired (id : string)
| UnknownStrategy (id strategy : string)
| NoTargets (id : string)
| ReferencesSelector (id : string) (i : nat) (target : string)
| ReferencesUnknown (id : string) (i : nat) (target : string)
| MustBeLocal (id : string) (i : nat) (target strategy : string)
| SpilloverTooSmall (id : string)
| DuplicateTarget (id target : string)
| NotTogether (id : string)
| NoQuery (id : string)
| NotInGroup (id target : string)
| GroupSwaps (id : string)
| NotOneGroup (id : string).

Section selectors.
Context `{UnicodeTables}.
Variable range : forall A : Type, gmap string A -> list (string * A).

(** Which group a model is in: the last group that names it wins. *)
Definition group_of (c : Config) : gmap string string :=
  foldl (fun g kv => foldl (fun g member => <[member := kv.1]> g) g (Members kv.2)) ∅ (range _ (Groups c)).

Definition groupOf (c : Config) (m : string) : string := default "" (group_of c !! m).
Definition group_swaps (c : Config) (id : string) : bool := default false (Swap <$> Groups c !! id).

(** [None] is success, as below.  A query the program does not answer ([NoQuery])
    does not happen for a program that was compiled. *)
Definition validateSpilloverCoexistence (c : Config) (id : string) (targets : list string) : option selector_error :=
  match targets with
  | [] | [_] => None
  | first :: rest =>
    if use_matrix c then
      match matrix c with
      | None => Some (NotTogether id)
      | Some p =>
        match Matrix.CanContainAll p targets with
        | Some true => None
        | Some false => Some (NotTogether id)
        | None => Some (NoQuery id)
        end
      end
    else
      let groupID := groupOf c first in
      if String.eqb groupID "" then Some (NotInGroup id first)
      else if group_swaps c groupID then Some (GroupSwaps id)
      else if forallb (fun t => String.eqb (groupOf c t) groupID) rest then None
      else Some (NotOneGroup id)
  end.

(** The model a target stands for: the local one, or the qualified name of a peer's. *)
Definition real_target (c : Config) (target : string) : string * bool :=
  match RealModelName (cfg_names c) target with
  | Some real => (real, true)
  | None =>
    let '(peer, model) := default ("", "") (ResolvePeerModel range (cfg_names c) target) in
    (PeerModelFQN peer model, false)
  end.

Definition check_target (c : Config) (id : string) (sel : SelectorConfig) (i : nat) (target : string) : option selector_error :=
  if bool_decide (is_Some (cfg_Selectors c !! target)) then Some (ReferencesSelector id i target)
  else if bool_decide (ResolveBaseModel range (cfg_names c) target = None) then Some (ReferencesUnknown id i target)
  else if String.eqb (Strategy sel) SelectorStrategyWarm && negb (bool_decide (is_Some (RealModelName (cfg_names c) target)))
  then Some (MustBeLocal id i target (Strategy sel))
  else None.

Definition check_targets (c : Config) (id : string) (sel : SelectorConfig) : option selector_error :=
  head (omap (fun it => check_target c id sel it.1 it.2) (zip (seq 0 (length (Targets sel))) (Targets sel))).

Fixpoint first_duplicate (seen : gset string) (l : list string) : option string :=
  match l with
  | [] => None
  | x :: l => if bool_decide (x ∈ seen) then Some x else first_duplicate ({[x]} ∪ seen) l
  end.

Definition check_selector (c : Config) (id : string) (sel : SelectorConfig) : option selector_error :=
  if bool_decide (trim_space (runes_of_string id) = []) then Some EmptyName
  else if bool_decide (is_Some (Models (cfg_names c) !! id)) then Some (ConflictsModel id)
  else if bool_decide (is_Some (aliases (cfg_names c) !! id)) then Some (ConflictsAlias id)
  else if String.eqb (Strategy sel) "" then Some (StrategyRequired id)
  else if negb (bool_decide (Strategy sel ∈ [SelectorStrategyPin; SelectorStrategyWarm; SelectorStrategySpillover]))
  then Some (UnknownStrategy id (Strategy sel))
  else if bool_decide (Targets sel = []) then Some (NoTargets id)
  else match check_targets c id sel with
  | Some e => Some e
  | None =>
    if negb (String.eqb (Strategy sel) SelectorStrategySpillover) then None
    else if Spillover sel <? 1 then Some (SpilloverTooSmall id)
    else
      let resolved := real_target c <$> Targets sel in
      match first_duplicate ∅ resolved.*1 with
      | Some t => Some (DuplicateTarget id t)
      | None => validateSpilloverCoexistence c id (filter (fun r => r.2 = true) resolved).*1
      end
  end.

Definition validateSelectors (c : Config) : option selector_error :=
  head (omap (fun kv => check_selector c kv.1 kv.2) (range _ (cfg_Selectors c))).

(** ** The strategies *)

Record spilloverTarget := mkTarget { target : string; modelID : string; local : bool }.

Record selectorSpilloverState := mkState {
  spillover : Z;
  targets : list spilloverTarget;
  inflight : gmap string Z;
  rr : Z;
}.

Abbreviation tracker := (gmap string selectorSpilloverState).

Definition count (s : selectorSpilloverState) (m : string) : Z := default 0 (inflight s !! m).

Definition set_count (s : selectorSpilloverState) (m : string) (n : Z) : selectorSpilloverState :=
  mkState (spillover s) (targets s) (<[m := n]> (inflight s)) (rr s).

Definition newSelectorSpilloverTracker (c : Config) : tracker :=
  omap (fun sel =>
    if negb (String.eqb (Strategy sel) SelectorStrategySpillover) then None
    else Some (mkState (Spillover sel)
      ((fun t => let '(m, l) := real_target c t in mkTarget t m l) <$> Targets sel) ∅ 0)) (cfg_Selectors c).

(** [None]: the selector has no targets. *)
Definition strategyPin (sel : SelectorConfig) : option string := head (Targets sel).

Definition running_is (c : Config) (running : gmap string ProcessState) (st : ProcessState) (t : string) : bool :=
  bool_decide (running !! default "" (RealModelName (cfg_names c) t) = Some st).

Definition strategyWarm (c : Config) (sel : SelectorConfig) (running : gmap string ProcessState) : option string :=
  match Targets sel with
  | [] => None
  | first :: _ =>
    match find (running_is c running StateReady) (Targets sel) with
    | Some t => Some t
    | None => match find (running_is c running StateStarting) (Targets sel) with Some t => Some t | None => Some first end
    end
  end.

(** Where the loop puts a target: among the active ones, the cold ones, or nowhere. *)
Inductive place := Active | Cold | Unavailable.

#[export] Instance place_eq_dec : EqDecision place.
Proof. solve_decision. Defined.

Definition place_of (s : selectorSpilloverState) (running : gmap string ProcessState) (t : spilloverTarget) : place :=
  if negb (local t) then if 0 <? count s (modelID t) then Active else Cold
  else match running !! modelID t with
       | Some StateStopping | Some StateShutdown => Unavailable
       | Some StateReady | Some StateStarting => Active
       | Some StateStopped | None => if 0 <? count s (modelID t) then Active else Cold
       end.

Definition reserve (s : selectorSpilloverState) (t : spilloverTarget) : selectorSpilloverState * string :=
  (set_count s (modelID t) (i64 (count s (modelID t) + 1)), target t).

Definition minimum (s : selectorSpilloverState) (ts : list spilloverTarget) : Z :=
  foldl (fun m t => if (m <? 0) || (count s (modelID t) <? m) then count s (modelID t) else m) (-1) ts.

(** [None]: the index is out of range, which a tie of no targets would be. *)
Definition reserveLeastBusy (s : selectorSpilloverState) (ts : list spilloverTarget) : option (selectorSpilloverState * string) :=
  let tied := filter (fun t => count s (modelID t) = minimum s ts) ts in
  match tied !! Z.to_nat (rr s mod Z.of_nat (length tied)) with
  | Some t => Some (reserve (mkState (spillover s) (targets s) (inflight s) ((rr s + 1) mod 2 ^ 64)) t)
  | None => None
  end.

(** The choice under the lock of the state.  [Some (Err _)]: no target is available. *)
Definition choose (s : selectorSpilloverState) (running : gmap string ProcessState) :
  option (result unit (selectorSpilloverState * string)) :=
  let active := filter (fun t => place_of s running t = Active) (targets s) in
  let cold := filter (fun t => place_of s running t = Cold) (targets s) in
  match active, cold with
  | [], [] => Some (Err tt)
  | [], t :: _ => Some (Ok (reserve s t))
  | _, _ =>
    if minimum s active <? spillover s then Ok <$> reserveLeastBusy s active
    else match cold with
         | t :: _ => Some (Ok (reserve s t))
         | [] => Ok <$> reserveLeastBusy s active
         end
  end.

Definition strategySpillover (id : string) (tr : tracker) (running : gmap string ProcessState) :
  option (result unit (tracker * string)) :=
  match tr !! id with
  | None => Some (Err tt)
  | Some s =>
    match choose s running with
    | None => None
    | Some (Err e) => Some (Err e)
    | Some (Ok (s, t)) => Some (Ok (<[id := s]> tr, t))
    end
  end.

Definition release_in (s : selectorSpilloverState) (t : string) : selectorSpilloverState :=
  match find (fun x => String.eqb (target x) t && (0 <? count s (modelID x))) (targets s) with
  | Some x => set_count s (modelID x) (count s (modelID x) - 1)
  | None => s
  end.

Definition release (tr : tracker) (id t : string) : tracker :=
  match tr !! id with Some s => <[id := release_in s t]> tr | None => tr end.

(** ** What the checks promise *)

Hypothesis range_perm : forall A (m : gmap string A), range A m ≡ₚ map_to_list m.

Lemma first_duplicate_none seen l : first_duplicate seen l = None <-> NoDup l /\ forall x, x ∈ l -> x ∉ seen.
Proof.
  revert seen. induction l as [|x l IH]; intros seen; simpl.
  { split; [intros _; split; [constructor|by intros ? ?%elem_of_nil]|done]. }
  case_bool_decide as Hx.
  - split; [done|]. intros [_ Hs]. by destruct (Hs x); [left|].
  - rewrite IH, NoDup_cons. split.
    + intros [Hn Hs]. split_and!; [|done|].
      * intros Hin. apply (Hs x Hin). set_solver.
      * intros y [->|Hy]%elem_of_cons; [done|]. specialize (Hs y Hy). set_solver.
    + intros [[Hni Hn] Hs]. split; [done|]. intros y Hy. assert (y ∉ seen) by (apply Hs; by right). set_solver.
Qed.

(** A selector that passed the check: its name is free, and each of its targets stands
    for something that is not a selector. *)
Record selector_ok (c : Config) (id : string) (sel : SelectorConfig) : Prop := {
  sok_model : Models (cfg_names c) !! id = None;
  sok_alias : aliases (cfg_names c) !! id = None;
  sok_strategy : Strategy sel ∈ [SelectorStrategyPin; SelectorStrategyWarm; SelectorStrategySpillover];
  sok_targets : Targets sel <> [];
  sok_target : forall t, t ∈ Targets sel -> cfg_Selectors c !! t = None /\ is_Some (ResolveBaseModel range (cfg_names c) t) /\
    (Strategy sel = SelectorStrategyWarm -> is_Some (RealModelName (cfg_names c) t));
  sok_spill : Strategy sel = SelectorStrategySpillover ->
    1 <= Spillover sel /\ NoDup (real_target c <$> Targets sel).*1 /\
    validateSpilloverCoexistence c id (filter (fun r => r.2 = true) (real_target c <$> Targets sel)).*1 = None;
}.

Lemma check_targets_none c id sel :
  check_targets c id sel = None <-> forall i t, Targets sel !! i = Some t -> check_target c id sel i t = None.
Proof.
  unfold check_targets.
  pose proof (head_omap (fun it : nat * string => check_target c id sel it.1 it.2) (zip (seq 0 (length (Targets sel))) (Targets sel))) as Hh.
  assert (forall i t, (i, t) ∈ zip (seq 0 (length (Targets sel))) (Targets sel) <-> Targets sel !! i = Some t) as Hz.
  { intros i t. rewrite list_elem_of_lookup. split.
    - intros (k & Hk%lookup_zip_Some). simpl in Hk. destruct Hk as [[-> _]%lookup_seq ?]. done.
    - intros Ht. exists i. apply lookup_zip_Some. split; [|done]. apply lookup_seq. split; [done|]. by apply lookup_lt_Some in Ht. }
  destruct (head _) as [e|].
  - destruct Hh as ([i t] & Hin%Hz & He). split; [done|]. intros Hall. simpl in He. rewrite Hall in He; done.
  - split; [|done]. intros _ i t Ht. by apply (Hh (i, t)), Hz.
Qed.

Lemma check_target_none c id sel i t :
  check_target c id sel i t = None <->
  cfg_Selectors c !! t = None /\ is_Some (ResolveBaseModel range (cfg_names c) t) /\
  (Strategy sel = SelectorStrategyWarm -> is_Some (RealModelName (cfg_names c) t)).
Proof.
  unfold check_target. case_bool_decide as Hs; [split; [done|]; intros [E _]; rewrite E in Hs; by destruct Hs|].
  apply eq_None_not_Some in Hs. case_bool_decide as Hr; [rewrite Hr; split; [done|]; by intros (_ & [? ?] & _)|].
  destruct (String.eqb_spec (Strategy sel) SelectorStrategyWarm) as [E|E]; simpl.
  - case_bool_decide as Hl; simpl; (split; [|try done]).
    + intros _. split_and!; [done|by apply not_eq_None_Some|done].
    + done.
    + by intros (_ & _ & H0); destruct Hl; apply H0.
  - split; [|done]. intros _. split_and!; [done|by apply not_eq_None_Some|done].
Qed.

Lemma check_selector_none c id sel :
  check_selector c id sel = None <-> trim_space (runes_of_string id) <> [] /\ selector_ok c id sel.
Proof.
  unfold check_selector. case_bool_decide as Ht; [naive_solver|].
  case_bool_decide as Hm; [split; [done|]; intros [_ []]; rewrite sok_model0 in Hm; by destruct Hm|].
  case_bool_decide as Ha; [split; [done|]; intros [_ []]; rewrite sok_alias0 in Ha; by destruct Ha|].
  apply eq_None_not_Some in Hm, Ha.
  destruct (String.eqb_spec (Strategy sel) "") as [Ee|_].
  { split; [done|]. intros [_ []]. rewrite Ee in sok_strategy0. exfalso. revert sok_strategy0.
    rewrite !elem_of_cons, elem_of_nil. by intros [?|[?|[?|?]]]. }
  case_bool_decide as Hs; simpl; [|split; [done|]; by intros [_ []]].
  case_bool_decide as Hts; [split; [done|]; by intros [_ []]|].
  destruct (check_targets c id sel) as [e|] eqn:Ec.
  { split; [done|]. intros [_ Hok]. assert (check_targets c id sel = None); [|congruence].
    apply check_targets_none. intros i t Hi. apply check_target_none, (sok_target _ _ _ Hok). by eapply list_elem_of_lookup_2. }
  pose proof (proj1 (check_targets_none c id sel) Ec) as Hc.
  assert (forall t, t ∈ Targets sel -> cfg_Selectors c !! t = None /\ is_Some (ResolveBaseModel range (cfg_names c) t) /\
    (Strategy sel = SelectorStrategyWarm -> is_Some (RealModelName (cfg_names c) t))) as Htg.
  { intros t [i Hi]%list_elem_of_lookup. by eapply check_target_none, Hc. }
  destruct (String.eqb_spec (Strategy sel) SelectorStrategySpillover) as [Ep|Ep]; simpl.
  2:{ split; [|done]. intros _. split; [done|]. by constructor. }
  assert (forall P : Prop, (Spillover sel <? 1 = false -> NoDup (real_target c <$> Targets sel).*1 ->
    validateSpilloverCoexistence c id (filter (fun r => r.2 = true) (real_target c <$> Targets sel)).*1 = None -> P) ->
    trim_space (runes_of_string id) <> [] /\ selector_ok c id sel -> P) as Hback.
  { intros P HP [_ Hok]. destruct (sok_spill _ _ _ Hok Ep) as (? & ? & ?). apply HP; [lia|done|done]. }
  destruct (Spillover sel <? 1) eqn:El; [split; [done|by apply Hback]|].
  pose proof (first_duplicate_none ∅ (real_target c <$> Targets sel).*1) as Hd.
  destruct (first_duplicate ∅ _) as [d|].
  { split; [done|]. apply Hback. intros _ Hn _. assert (Some d = None); [|done]. apply Hd. split; [done|set_solver]. }
  destruct (proj1 Hd eq_refl) as [Hn _]. split; [|by apply Hback].
  intros Hco. split; [done|]. constructor; try done. intros _. split_and!; [lia|done|done].
Qed.

Lemma validateSelectors_none c :
  validateSelectors c = None <->
  forall id sel, cfg_Selectors c !! id = Some sel -> trim_space (runes_of_string id) <> [] /\ selector_ok c id sel.
Proof.
  unfold validateSelectors.
  pose proof (head_omap (fun kv : string * SelectorConfig => check_selector c kv.1 kv.2) (range _ (cfg_Selectors c))) as Hh.
  destruct (head _) as [e|].
  - destruct Hh as ([id sel] & Hin & He). apply range_elem in Hin; [|done]. split; [done|]. intros Hall.
    simpl in He. by rewrite (proj2 (check_selector_none c id sel) (Hall id sel Hin)) in He.
  - split; [|done]. intros _ id sel Hin. apply check_selector_none, (Hh (id, sel)). by apply range_elem.
Qed.

(** ** The choice *)

Definition counts_nonneg (s : selectorSpilloverState) : Prop := forall m, 0 <= count s m.

Lemma minimum_from s ts m :
  (forall t, t ∈ ts -> 0 <= count s (modelID t)) ->
  let r := foldl (fun m t => if (m <? 0) || (count s (modelID t) <? m) then count s (modelID t) else m) m ts in
  (0 <= m -> r <= m) /\ (0 <= m \/ ts <> [] -> 0 <= r) /\ (forall t, t ∈ ts -> r <= count s (modelID t)) /\
  (r = m \/ exists t, t ∈ ts /\ r = count s (modelID t)).
Proof.
  revert m. induction ts as [|t ts IH]; intros m Hn; simpl.
  { split_and!; [done|intros [?|?]; done|by intros ? ?%elem_of_nil|by left]. }
  assert (0 <= count s (modelID t)) as Ht by (apply Hn; by left).
  destruct (IH (if (m <? 0) || (count s (modelID t) <? m) then count s (modelID t) else m)) as (H1 & H2 & H3 & H4).
  { intros u Hu. apply Hn. by right. }
  destruct ((m <? 0) || (count s (modelID t) <? m)) eqn:E; split_and!.
  - intros Hm. specialize (H1 Ht). lia.
  - intros _. apply H2. by left.
  - intros u [->|Hu]%elem_of_cons; [by apply H1|by apply H3].
  - right. destruct H4 as [E4|(u & ? & E4)]; [exists t; split; [by left|exact E4]|exists u; split; [by right|exact E4]].
  - done.
  - intros _. apply H2. left. lia.
  - intros u [->|Hu]%elem_of_cons; [etrans; [apply H1; lia|lia]|by apply H3].
  - destruct H4 as [E4|(u & ? & E4)]; [by left|right; exists u; split; [by right|exact E4]].
Qed.

Lemma minimum_spec s ts :
  counts_nonneg s -> ts <> [] ->
  (forall t, t ∈ ts -> minimum s ts <= count s (modelID t)) /\ exists t, t ∈ ts /\ minimum s ts = count s (modelID t).
Proof.
  intros Hn Hts. destruct (minimum_from s ts (-1)) as (_ & H2 & H3 & H4); [intros t _; apply Hn|].
  fold (minimum s ts) in *. specialize (H2 (or_intror Hts)). split; [done|]. destruct H4 as [E|?]; [lia|done].
Qed.

Lemma filter_first {A} (P : A -> Prop) `{forall x, Decision (P x)} l x r :
  filter P l = x :: r -> exists i, l !! i = Some x /\ P x /\ forall j y, (j < i)%nat -> l !! j = Some y -> ~ P y.
Proof.
  induction l as [|y l IH]; [done|]. rewrite filter_cons. destruct (decide (P y)) as [Hy|Hy].
  - intros [= -> _]. exists 0%nat. split_and!; [done|done|lia].
  - intros (i & Hi & Hx & Hb)%IH. exists (S i). split_and!; [done|done|]. intros [|j] z Hj; simpl; [by intros [= <-]|].
    apply Hb. lia.
Qed.

(** The state after a target is reserved. *)
Definition reserved_as (s s' : selectorSpilloverState) (t : spilloverTarget) : Prop :=
  spillover s' = spillover s /\ targets s' = targets s /\
  inflight s' = <[modelID t := i64 (count s (modelID t) + 1)]> (inflight s).

Definition fair_choice (s : selectorSpilloverState) (running : gmap string ProcessState) (t : spilloverTarget) : Prop :=
  (place_of s running t = Cold /\
     (exists i, targets s !! i = Some t /\ forall j u, (j < i)%nat -> targets s !! j = Some u -> place_of s running u <> Cold) /\
     forall u, u ∈ targets s -> place_of s running u = Active -> spillover s <= count s (modelID u)) \/
  (place_of s running t = Active /\
     (forall u, u ∈ targets s -> place_of s running u = Active -> count s (modelID t) <= count s (modelID u)) /\
     (count s (modelID t) < spillover s \/ forall u, u ∈ targets s -> place_of s running u <> Cold)).

Lemma reserveLeastBusy_spec s ts :
  counts_nonneg s -> ts <> [] ->
  exists s' t, reserveLeastBusy s ts = Some (s', target t) /\ t ∈ ts /\ count s (modelID t) = minimum s ts /\ reserved_as s s' t.
Proof.
  intros Hn Hts. destruct (minimum_spec s ts Hn Hts) as [_ (t0 & Ht0 & E0)]. unfold reserveLeastBusy.
  set (tied := filter (fun t => count s (modelID t) = minimum s ts) ts).
  assert (tied <> []) as Htied.
  { assert (t0 ∈ tied) as Hin by (by apply list_elem_of_filter). intros E. rewrite E in Hin. by apply elem_of_nil in Hin. }
  destruct (lookup_lt_is_Some_2 tied (Z.to_nat (rr s mod Z.of_nat (length tied)))) as [t Et].
  { assert (0 < length tied)%nat by (destruct tied; simpl; [done|lia]).
    pose proof (Z.mod_pos_bound (rr s) (Z.of_nat (length tied))). lia. }
  rewrite Et. assert (t ∈ tied) as [Hc Hin]%list_elem_of_filter by (by eapply list_elem_of_lookup_2).
  eexists _, t. split_and!; [done|done|done|]. done.
Qed.

(** A choice is made, and fails only when no target is available. *)
Definition well_chosen (s : selectorSpilloverState) (running : gmap string ProcessState)
  (r : option (result unit (selectorSpilloverState * string))) : Prop :=
  match r with
  | None => False
  | Some (Err _) => forall t, t ∈ targets s -> place_of s running t = Unavailable
  | Some (Ok (s', name)) => exists t, t ∈ targets s /\ target t = name /\ reserved_as s s' t /\ fair_choice s running t
  end.

Lemma spill_choose_spec s running : counts_nonneg s -> well_chosen s running (choose s running).
Proof.
  intros Hn. unfold choose.
  set (active := filter (fun t => place_of s running t = Active) (targets s)).
  set (cold := filter (fun t => place_of s running t = Cold) (targets s)).
  assert (forall u, u ∈ active <-> place_of s running u = Active /\ u ∈ targets s) as Ha by (intros u; unfold active; by rewrite list_elem_of_filter).
  assert (forall u, u ∈ cold <-> place_of s running u = Cold /\ u ∈ targets s) as Hc by (intros u; unfold cold; by rewrite list_elem_of_filter).
  assert (forall t r, cold = t :: r -> (forall u, u ∈ active -> spillover s <= count s (modelID u)) ->
    exists t', t' ∈ targets s /\ target t' = target t /\ reserved_as s (reserve s t).1 t' /\ fair_choice s running t') as Hcold.
  { intros t r E Hb. destruct (filter_first _ _ _ _ E) as (i & Hi & Hp & Hf). exists t.
    split_and!; [by eapply list_elem_of_lookup_2|done|done|]. left. split_and!; [done|by exists i|].
    intros u Hu Hpu. apply Hb. by apply Ha. }
  assert (active <> [] -> (minimum s active < spillover s \/ cold = []) ->
    well_chosen s running (Ok <$> reserveLeastBusy s active)) as Hact.
  { intros Hne Hm. destruct (reserveLeastBusy_spec s active Hn Hne) as (s' & t & -> & Hin & Et & Hr). simpl.
    destruct (minimum_spec s active Hn Hne) as [Hmin _].
    apply Ha in Hin as [Hp Hin]. exists t. split_and!; [done|done|done|]. right. split_and!; [done| |].
    - intros u Hu Hpu. rewrite Et. apply Hmin, Ha. done.
    - destruct Hm as [?|Ec]; [left; lia|right]. intros u Hu Hpu. assert (u ∈ cold) as Hi by (by apply Hc).
      rewrite Ec in Hi. by apply elem_of_nil in Hi. }
  destruct active as [|a active'] eqn:Ea.
  - destruct cold as [|t r] eqn:Ec.
    + intros t Ht. destruct (place_of s running t) eqn:Ep; [| |done].
      * assert (t ∈ []) as ?%elem_of_nil by (by apply Ha). done.
      * assert (t ∈ []) as ?%elem_of_nil by (by apply Hc). done.
    + apply (Hcold t r eq_refl). by intros u ?%elem_of_nil.
  - destruct (minimum s (a :: active') <? spillover s) eqn:El.
    + specialize (Hact ltac:(done) ltac:(left; lia)). by destruct cold.
    + destruct cold as [|t r] eqn:Ec.
      * exact (Hact ltac:(done) ltac:(by right)).
      * apply (Hcold t r eq_refl). intros u Hu. destruct (minimum_spec s (a :: active') Hn) as [Hmin _]; [done|].
        specialize (Hmin u Hu). lia.
Qed.
End selectors.
End Selectors.
