(* ===== verification/SelectorSpill.v ===== *)
(** The selector middleware ([CreateSelectorMiddleware] of
    [internal/server/selector.go]): between the choice of a target, the rewrite of the
    request and the end of its handler other requests run, so each is a step. *)

From S2P Require Import Prelude Runes SchedTypes ModelNames Selectors.

Module SelectorSpill.
Import Sched ModelNames Selectors.
Open Scope string_scope.
Open Scope list_scope.
Open Scope Z_scope.

Abbreviation tracker := (gmap string selectorSpilloverState).

(** Where a request is between the steps: its target is chosen, or it is being served;
    [deferred] says that the release is still to come. *)
Inductive stage := Chosen | Serving (deferred : bool).

Record passage := mkPassage { p_selector : string; p_target : string; p_spill : bool; p_stage : stage }.

Record middleware := mkMiddleware { spillovers : tracker; live : gmap nat passage }.

Inductive outcome := Through (req : nat) | Routed (req : nat) (selector target : string) | Refused (req : nat) (status : Z).

Inductive event :=
| Arrive (req : nat) (model : option string) (running : gmap string ProcessState)
| Rewritten (req : nat) (ok websocket : bool)
| Done (req : nat).

Section spill.
Context `{UnicodeTables}.
Variable range : forall A : Type, gmap string A -> list (string * A).
Variable c : Config.

(** [None] is a call that does not return, [Some (Err _)] one that fails. *)
Definition pick_target (tr : tracker) (id : string) (sel : SelectorConfig) (running : gmap string ProcessState) :
  option (result unit (tracker * string)) :=
  let plain (o : option string) := Some (match o with Some t => Ok (tr, t) | None => Err tt end) in
  if String.eqb (Strategy sel) SelectorStrategyPin then plain (strategyPin sel)
  else if String.eqb (Strategy sel) SelectorStrategyWarm then plain (strategyWarm c sel running)
  else if String.eqb (Strategy sel) SelectorStrategySpillover then strategySpillover id tr running
  else Some (Err tt).

Definition is_spill (sel : SelectorConfig) : bool := String.eqb (Strategy sel) SelectorStrategySpillover.

(** A websocket whose model asks that websockets do not count. *)
Definition ignored (target : string) (websocket : bool) : bool :=
  match RealModelName (cfg_names c) target with
  | Some real => bool_decide (real ∈ IgnoreWebsockets c) && websocket
  | None => false
  end.

Definition mw_step (s : middleware) (e : event) : option (middleware * outcome) :=
  match e with
  | Arrive req model running =>
    if bool_decide (is_Some (live s !! req)) then None
    else
      let model := default "" model in
      match (if String.eqb model "" then None else cfg_Selectors c !! model) with
      | None => Some (s, Through req)
      | Some sel =>
        match pick_target (spillovers s) model sel running with
        | None => None
        | Some (Err _) => Some (s, Refused req 503)
        | Some (Ok (tr, t)) =>
          Some (mkMiddleware tr (<[req := mkPassage model t (is_spill sel) Chosen]> (live s)), Routed req model t)
        end
      end
  | Rewritten req ok websocket =>
    match live s !! req with
    | Some (mkPassage id t spill Chosen) =>
      if negb ok then
        Some (mkMiddleware (if spill then release (spillovers s) id t else spillovers s) (delete req (live s)), Refused req 400)
      else if spill && ignored t websocket then
        Some (mkMiddleware (release (spillovers s) id t) (<[req := mkPassage id t spill (Serving false)]> (live s)), Routed req id t)
      else Some (mkMiddleware (spillovers s) (<[req := mkPassage id t spill (Serving spill)]> (live s)), Routed req id t)
    | _ => None
    end
  | Done req =>
    match live s !! req with
    | Some (mkPassage id t _ (Serving deferred)) =>
      Some (mkMiddleware (if deferred then release (spillovers s) id t else spillovers s) (delete req (live s)), Through req)
    | _ => None
    end
  end.

Definition init : middleware := mkMiddleware (newSelectorSpilloverTracker range c) ∅.

Inductive run : list event -> middleware -> Prop :=
| run_init : run [] init
| run_step es s e s' o : run es s -> mw_step s e = Some (s', o) -> run (es ++ [e]) s'.

(** ** The requests that count *)

(** The reservation a request holds: from the choice to its release. *)
Definition holding (p : passage) : option (string * string) :=
  match p with
  | mkPassage id t true Chosen | mkPassage id t _ (Serving true) => Some (id, t)
  | _ => None
  end.

Definition holders (l : gmap nat passage) (id t : string) : nat :=
  size (filter (fun kv => holding kv.2 = Some (id, t)) l).

Definition one (p : passage) (id t : string) : nat := if decide (holding p = Some (id, t)) then 1 else 0.

Lemma holders_new l r p id t : l !! r = None -> holders (<[r := p]> l) id t = (one p id t + holders l id t)%nat.
Proof.
  intros Hr. unfold holders, one. destruct (decide _) as [Hp|Hp].
  - rewrite map_filter_insert_True by done. rewrite map_size_insert_None; [done|].
    apply map_lookup_filter_None. by left.
  - rewrite map_filter_insert_False by done. by rewrite delete_id.
Qed.

Lemma holders_del l r p id t : l !! r = Some p -> holders l id t = (one p id t + holders (delete r l) id t)%nat.
Proof. intros Hr. rewrite <- (insert_delete_id l r p Hr) at 1. apply holders_new, lookup_delete_eq. Qed.

Lemma holders_set l r p p' id t :
  l !! r = Some p -> (one p id t + holders (<[r := p']> l) id t)%nat = (one p' id t + holders l id t)%nat.
Proof.
  intros Hr. rewrite (holders_del l r p id t Hr), <- (insert_delete_eq l r p'), holders_new by apply lookup_delete_eq. lia.
Qed.

Lemma holders_le l id t : (holders l id t <= size l)%nat.
Proof. apply map_subseteq_size, map_filter_subseteq. Qed.

Definition tracked (sel : SelectorConfig) : list spilloverTarget :=
  (fun t => let '(m, l) := real_target range c t in mkTarget t m l) <$> Targets sel.

(** The state of one selector counts the requests that hold its targets. *)
Record counts_ok (l : gmap nat passage) (id : string) (sel : SelectorConfig) (st : selectorSpilloverState) : Prop := {
  co_targets : targets st = tracked sel;
  co_limit : spillover st = Spillover sel;
  co_count : forall t, t ∈ Targets sel -> count st (real_target range c t).1 = Z.of_nat (holders l id t);
  co_other : forall m, m ∉ (real_target range c <$> Targets sel).*1 -> count st m = 0;
}.

Record inv (n : nat) (s : middleware) : Prop := {
  inv_size : (size (live s) <= n)%nat;
  inv_sel : forall id sel, cfg_Selectors c !! id = Some sel -> is_spill sel = true ->
    exists st, spillovers s !! id = Some st /\ counts_ok (live s) id sel st;
  inv_live : forall r p, live s !! r = Some p -> exists sel, cfg_Selectors c !! p_selector p = Some sel /\
    p_spill p = is_spill sel /\ (is_spill sel = true -> p_target p ∈ Targets sel) /\
    (p_stage p = Serving true -> is_spill sel = true);
}.

Lemma real_target_inj sel t t' :
  NoDup (real_target range c <$> Targets sel).*1 -> t ∈ Targets sel -> t' ∈ Targets sel ->
  (real_target range c t).1 = (real_target range c t').1 -> t = t'.
Proof.
  intros Hn [i Hi]%list_elem_of_lookup [j Hj]%list_elem_of_lookup E. rewrite <- list_fmap_compose in Hn.
  assert (i = j) as ->; [|congruence].
  eapply (NoDup_lookup _ i j (real_target range c t).1); [exact Hn| |]; rewrite list_lookup_fmap; [by rewrite Hi|rewrite Hj; simpl; by rewrite E].
Qed.

Lemma tracked_elem sel x :
  x ∈ tracked sel <-> exists t, t ∈ Targets sel /\ x = mkTarget t (real_target range c t).1 (real_target range c t).2.
Proof.
  unfold tracked. rewrite list_elem_of_fmap. split.
  - intros (t & -> & Ht). exists t. split; [done|]. by destruct (real_target range c t).
  - intros (t & Ht & ->). exists t. split; [|done]. by destruct (real_target range c t).
Qed.

Lemma counts_ext l l' id sel st :
  (forall t, holders l' id t = holders l id t) -> counts_ok l id sel st -> counts_ok l' id sel st.
Proof. intros He []. split; try done. intros t Ht. rewrite He. auto. Qed.

Lemma counts_at l id sel st : counts_ok l id sel st -> counts_nonneg st.
Proof.
  intros Hc m. destruct (decide (m ∈ (real_target range c <$> Targets sel).*1)) as [Hin|Hin]; [|rewrite (co_other _ _ _ _ Hc m Hin); lia].
  apply list_elem_of_fmap in Hin as (x & -> & Hx). apply list_elem_of_fmap in Hx as (t & -> & Ht).
  rewrite (co_count _ _ _ _ Hc t Ht). lia.
Qed.

Lemma real_in sel t : t ∈ Targets sel -> (real_target range c t).1 ∈ (real_target range c <$> Targets sel).*1.
Proof. intros Ht. by apply list_elem_of_fmap_2, list_elem_of_fmap_2. Qed.

Lemma counts_reserve l l' id sel st st' x :
  NoDup (real_target range c <$> Targets sel).*1 -> Z.of_nat (size l) + 1 < 2 ^ 63 ->
  counts_ok l id sel st -> x ∈ targets st -> reserved_as st st' x ->
  (forall t, holders l' id t = ((if decide (t = target x) then 1 else 0) + holders l id t)%nat) -> counts_ok l' id sel st'.
Proof.
  intros Hn Hsz Hc Hx (E1 & E2 & E3) Hh. rewrite (co_targets _ _ _ _ Hc) in Hx. apply tracked_elem in Hx as (t0 & Ht0 & ->). simpl in *.
  assert (forall m, count st' m = if decide (m = (real_target range c t0).1) then count st m + 1 else count st m) as Hcount.
  { intros m. unfold count at 1. rewrite E3. destruct (decide _) as [->|Hne]; [|by rewrite lookup_insert_ne by done].
    rewrite lookup_insert_eq. simpl. apply i64_id. rewrite (co_count _ _ _ _ Hc t0 Ht0). pose proof (holders_le l id t0). unfold min_int64, max_int64. lia. }
  split; [by rewrite E2; apply Hc|by rewrite E1; apply Hc| |].
  - intros t Ht. rewrite Hcount, Hh, (co_count _ _ _ _ Hc t Ht).
    destruct (decide _) as [E|Hne]; [apply (real_target_inj sel) in E; [|done..]; rewrite decide_True by done; lia|].
    rewrite decide_False; [done|congruence].
  - intros m Hm. rewrite Hcount, decide_False; [by apply Hc|]. intros ->. by apply Hm, real_in.
Qed.

Lemma counts_release l l' id sel st t :
  NoDup (real_target range c <$> Targets sel).*1 -> counts_ok l id sel st -> t ∈ Targets sel ->
  (forall t', holders l id t' = ((if decide (t' = t) then 1 else 0) + holders l' id t')%nat) -> counts_ok l' id sel (release_in st t).
Proof.
  intros Hn Hc Ht Hh.
  assert (0 < count st (real_target range c t).1) as Hpos.
  { rewrite (co_count _ _ _ _ Hc t Ht), Hh, decide_True by done. lia. }
  unfold release_in.
  destruct (find _ (targets st)) as [x|] eqn:Ef.
  2:{ exfalso. pose proof (List.find_none _ _ Ef (mkTarget t (real_target range c t).1 (real_target range c t).2)) as Hno.
      simpl in Hno. rewrite String.eqb_refl in Hno. assert (0 <? count st (real_target range c t).1 = false) by (apply Hno; apply list_elem_of_In;
        rewrite (co_targets _ _ _ _ Hc); apply tracked_elem; eauto). lia. }
  apply List.find_some in Ef as [Hx Ex]. apply list_elem_of_In in Hx. rewrite (co_targets _ _ _ _ Hc) in Hx.
  apply tracked_elem in Hx as (t0 & Ht0 & ->). simpl in *. apply andb_prop in Ex as [->%String.eqb_eq _].
  assert (forall m, count (set_count st (real_target range c t).1 (count st (real_target range c t).1 - 1)) m =
    if decide (m = (real_target range c t).1) then count st m - 1 else count st m) as Hcount.
  { intros m. unfold count at 1, set_count. simpl. destruct (decide _) as [->|Hne]; [by rewrite lookup_insert_eq|by rewrite lookup_insert_ne by done]. }
  split; [apply Hc|apply Hc| |].
  - intros t' Ht'. rewrite Hcount, (co_count _ _ _ _ Hc t' Ht'), Hh.
    destruct (decide _) as [E|Hne]; [apply (real_target_inj sel) in E; [|done..]; rewrite decide_True by done; lia|].
    rewrite decide_False; [done|congruence].
  - intros m Hm. rewrite Hcount, decide_False; [by apply Hc|]. intros ->. by apply Hm, real_in.
Qed.

(** ** Each step keeps the counts *)

Hypothesis distinct : forall id sel, cfg_Selectors c !! id = Some sel -> is_spill sel = true -> NoDup (real_target range c <$> Targets sel).*1.

Definition passage_ok (p : passage) : Prop :=
  exists sel, cfg_Selectors c !! p_selector p = Some sel /\ p_spill p = is_spill sel /\
    (is_spill sel = true -> p_target p ∈ Targets sel) /\ (p_stage p = Serving true -> is_spill sel = true).

Lemma inv_change n n' s s' id0 :
  inv n s -> (size (live s') <= n')%nat -> (forall id, id <> id0 -> spillovers s' !! id = spillovers s !! id) ->
  (forall id t, id <> id0 -> holders (live s') id t = holders (live s) id t) ->
  (forall sel st, cfg_Selectors c !! id0 = Some sel -> is_spill sel = true -> spillovers s !! id0 = Some st -> counts_ok (live s) id0 sel st ->
    exists st', spillovers s' !! id0 = Some st' /\ counts_ok (live s') id0 sel st') ->
  (forall r p, live s' !! r = Some p -> live s !! r = Some p \/ passage_ok p) -> inv n' s'.
Proof.
  intros Hi Hsz Htr Hh H0 Hl. split; [done| |].
  - intros id sel Hid Hsp. destruct (inv_sel _ _ Hi id sel Hid Hsp) as (st & Hst & Hc).
    destruct (decide (id = id0)) as [->|Hne]; [by apply (H0 sel st)|].
    exists st. rewrite Htr by done. split; [done|]. eapply counts_ext; [|exact Hc]. intros t. by apply Hh.
  - intros r p [Hr|Hp]%Hl; [by apply (inv_live _ _ Hi r)|done].
Qed.

Lemma one_other p id t : id <> p_selector p -> one p id t = 0%nat.
Proof. intros Hne. unfold one. apply decide_False. destruct p as [i u [] [|[]]]; simpl in *; congruence. Qed.

Lemma one_held p id t : holding p = Some (p_selector p, p_target p) -> id = p_selector p -> one p id t = if decide (t = p_target p) then 1%nat else 0%nat.
Proof. intros Hp ->. unfold one. rewrite Hp. repeat destruct (decide _); congruence. Qed.

Lemma one_free p id t : holding p = None -> one p id t = 0%nat.
Proof. intros Hp. unfold one. by rewrite Hp. Qed.

Lemma arrive_inv n s req id sel tr t running :
  inv n s -> Z.of_nat n + 1 < 2 ^ 63 -> live s !! req = None -> cfg_Selectors c !! id = Some sel ->
  pick_target (spillovers s) id sel running = Some (Ok (tr, t)) ->
  inv (S n) (mkMiddleware tr (<[req := mkPassage id t (is_spill sel) Chosen]> (live s))).
Proof.
  intros Hi Hn Hr Hid Hp. set (p := mkPassage id t (is_spill sel) Chosen).
  assert (size (<[req := p]> (live s)) <= S n)%nat as Hsz by (rewrite map_size_insert_None by done; pose proof (inv_size _ _ Hi); lia).
  assert (forall id' t', id' <> id -> holders (<[req := p]> (live s)) id' t' = holders (live s) id' t') as Hh
    by (intros id' t' Hne; by rewrite holders_new, one_other).
  assert (forall r q, <[req := p]> (live s) !! r = Some q -> passage_ok p -> live s !! r = Some q \/ passage_ok q) as Hl.
  { intros r q Hq Hok. destruct (decide (r = req)) as [->|Hne]; [rewrite lookup_insert_eq in Hq; injection Hq as <-; by right|].
    rewrite lookup_insert_ne in Hq by done. by left. }
  destruct (is_spill sel) eqn:Es.
  - pose proof (proj1 (String.eqb_eq _ _) Es) as Est. unfold pick_target in Hp. rewrite Est in Hp. simpl in Hp.
    destruct (inv_sel _ _ Hi id sel Hid Es) as (st & Hst & Hc).
    unfold strategySpillover in Hp. rewrite Hst in Hp.
    pose proof (spill_choose_spec st running (counts_at _ _ _ _ Hc)) as Hw.
    destruct (choose st running) as [[[st' t']|?]|]; simplify_eq/=.
    destruct Hw as (x & Hx & <- & Hres & _).
    assert (target x ∈ Targets sel) as Hin.
    { rewrite (co_targets _ _ _ _ Hc) in Hx. by apply tracked_elem in Hx as (t0 & Ht0 & ->). }
    apply (inv_change n _ s _ id); try done; simpl.
    + intros i Hne. by rewrite lookup_insert_ne.
    + intros sel' st0 Hid' _ Hst0 Hc'. simplify_eq. exists st'. rewrite lookup_insert_eq. split; [done|].
      eapply (counts_reserve (live s) _ id sel st st' x); try done; [by eapply distinct|pose proof (inv_size _ _ Hi); lia|].
      intros t'. rewrite holders_new by done. rewrite one_held; [done|done|done].
    + intros r q Hq. apply Hl; [done|]. exists sel. by split_and!.
  - assert (tr = spillovers s) as ->.
    { unfold pick_target in Hp. unfold is_spill in Es. rewrite Es in Hp. repeat case_match; simplify_eq; done. }
    apply (inv_change n _ s _ id); try done; simpl.
    + intros sel' st0 Hid' Hsp. congruence.
    + intros r q Hq. apply Hl; [done|]. exists sel. split_and!; [done|done|by rewrite Es|done].
Qed.

Lemma release_inv n s req p l' :
  inv n s -> live s !! req = Some p -> holding p = Some (p_selector p, p_target p) ->
  (forall id t, holders (live s) id t = (one p id t + holders l' id t)%nat) -> (size l' <= n)%nat ->
  (forall r q, l' !! r = Some q -> live s !! r = Some q \/ passage_ok q) ->
  inv n (mkMiddleware (release (spillovers s) (p_selector p) (p_target p)) l').
Proof.
  intros Hi Hr Hp Hh Hsz Hl. destruct (inv_live _ _ Hi _ _ Hr) as (sel & Hid & Hsp & Hin & Hstage).
  assert (is_spill sel = true) as Es.
  { rewrite <- Hsp. destruct p as [i u [] [|[]]]; simpl in *; try done. rewrite Hsp. by apply Hstage. }
  destruct (inv_sel _ _ Hi _ _ Hid Es) as (st & Hst & Hc).
  apply (inv_change n _ s _ (p_selector p)); try done; simpl.
  - intros i Hne. unfold release. rewrite Hst. by rewrite lookup_insert_ne.
  - intros i t Hne. rewrite Hh, one_other; done.
  - intros sel' st0 Hid' _ Hst0 Hc'. simplify_eq. exists (release_in st (p_target p)). unfold release. rewrite Hst, lookup_insert_eq.
    split; [done|]. eapply counts_release; [by eapply distinct|exact Hc|by apply Hin|].
    intros t'. by rewrite Hh, one_held.
Qed.

Lemma keep_inv n s l' :
  inv n s -> (forall id t, holders l' id t = holders (live s) id t) -> (size l' <= n)%nat ->
  (forall r q, l' !! r = Some q -> live s !! r = Some q \/ passage_ok q) -> inv n (mkMiddleware (spillovers s) l').
Proof.
  intros Hi Hh Hsz Hl. apply (inv_change n _ s _ ""); try done. intros sel st _ _ Hst Hc. exists st. split; [done|].
  eapply counts_ext; [|exact Hc]. intros t. apply Hh.
Qed.

Lemma delete_size (l : gmap nat passage) r n : (size l <= n)%nat -> (size (delete r l) <= n)%nat.
Proof. intros Hn. etrans; [apply map_subseteq_size, delete_subseteq|done]. Qed.

Lemma set_size (l : gmap nat passage) r p p' : l !! r = Some p -> size (<[r := p']> l) = size l.
Proof. intros Hr. by rewrite map_size_insert_Some by eauto. Qed.

Lemma step_inv n s e s' o : inv n s -> Z.of_nat n + 1 < 2 ^ 63 -> mw_step s e = Some (s', o) -> inv (S n) s'.
Proof.
  intros Hi Hn. assert (forall m, inv n m -> inv (S n) m) as Hw by (intros m []; split; [lia|done|done]).
  destruct e as [req model running|req ok ws|req]; cbn [mw_step].
  - case_bool_decide as Hr; [done|]. apply eq_None_not_Some in Hr.
    destruct (if String.eqb _ _ then None else _) as [sel|] eqn:Es; [|intros [= <- _]; by apply Hw].
    destruct (String.eqb (default "" model) ""); [done|].
    destruct (pick_target _ _ _ _) as [[[tr t]|[]]|] eqn:Ep; [|intros [= <- _]; by apply Hw|done].
    intros [= <- _]. by eapply arrive_inv.
  - destruct (live s !! req) as [[id t spill [|]]|] eqn:Hr; try done.
    pose proof (inv_size _ _ Hi) as Hsz. pose proof (holders_del (live s) req) as Hd.
    assert (forall p' id' t', (one (mkPassage id t spill Chosen) id' t' + holders (<[req := p']> (live s)) id' t')%nat = (one p' id' t' + holders (live s) id' t')%nat) as Hset
      by (intros p' id' t'; by apply holders_set).
    assert (forall (b : bool) r q, (b = true -> spill = true) -> <[req := mkPassage id t spill (Serving b)]> (live s) !! r = Some q -> live s !! r = Some q \/ passage_ok q) as Hl.
    { intros b r q Hb Hq. destruct (decide (r = req)) as [->|Hne]; [|rewrite lookup_insert_ne in Hq by done; by left].
      rewrite lookup_insert_eq in Hq. injection Hq as <-. right. destruct (inv_live _ _ Hi _ _ Hr) as (sel & ? & E & ? & _).
      exists sel. split_and!; [done|done|done|]. intros [= ->]. simpl in E. rewrite <- E. by apply Hb. }
    destruct ok; cbn [negb].
    + destruct spill eqn:Esp; cbn [andb].
      * destruct (ignored t ws).
        -- intros [= <- _]. apply Hw. apply (release_inv n s req (mkPassage id t true Chosen)); try done.
           ++ by rewrite (set_size _ _ _ _ Hr).
           ++ intros r q Hq. by apply (Hl false).
        -- intros [= <- _]. apply Hw, keep_inv; [done| |by rewrite (set_size _ _ _ _ Hr)|intros r q Hq; by apply (Hl true)].
           intros i u. specialize (Hset (mkPassage id t true (Serving true)) i u). unfold one in Hset. simpl in Hset. lia.
      * intros [= <- _]. apply Hw, keep_inv; [done| |by rewrite (set_size _ _ _ _ Hr)|intros r q Hq; by apply (Hl false)].
        intros i u. specialize (Hset (mkPassage id t false (Serving false)) i u). rewrite !one_free in Hset by done. done.
    + intros [= <- _]. apply Hw. destruct spill.
      * apply (release_inv n s req (mkPassage id t true Chosen)); try done; [intros i u; by apply Hd|by apply delete_size|].
        intros r q [_ Hq]%lookup_delete_Some. by left.
      * apply keep_inv; [done| |by apply delete_size|intros r q [_ Hq]%lookup_delete_Some; by left].
        intros i u. by rewrite (Hd _ _ _ Hr), one_free.
  - destruct (live s !! req) as [[id t spill [|deferred]]|] eqn:Hr; try done. intros [= <- _]. apply Hw.
    pose proof (inv_size _ _ Hi) as Hsz. destruct deferred.
    + apply (release_inv n s req (mkPassage id t spill (Serving true))); try done; [by destruct spill|intros i u; by apply holders_del|by apply delete_size|].
      intros r q [_ Hq]%lookup_delete_Some. by left.
    + apply keep_inv; [done| |by apply delete_size|intros r q [_ Hq]%lookup_delete_Some; by left].
      intros i u. rewrite (holders_del (live s) req _ i u Hr), one_free; [done|by destruct spill].
Qed.

Lemma init_inv : inv 0 init.
Proof.
  split; [done| |done]. intros id sel Hid Hs. unfold init, newSelectorSpilloverTracker. simpl.
  rewrite lookup_omap, Hid. simpl. unfold is_spill in Hs. rewrite Hs. simpl. eexists. split; [done|].
  split; [done|done| |done]. intros t Ht. simpl. unfold count, holders. simpl. by rewrite lookup_empty, map_filter_empty, map_size_empty.
Qed.

Lemma middleware_run_inv es s : run es s -> Z.of_nat (length es) < 2 ^ 63 -> inv (length es) s.
Proof.
  induction 1 as [|es s e s' o Hrun IH Hstep]; intros Hn; [exact init_inv|].
  rewrite length_app in *. simpl in *. rewrite Nat.add_1_r in *. eapply step_inv; [apply IH; lia|lia|done].
Qed.
End spill.

(** ** What holds of every run over a configuration that passed its checks *)

Section checked.
Context `{UnicodeTables}.
Variable range : forall A : Type, gmap string A -> list (string * A).
Variable c : Config.
Hypothesis range_perm : forall A (m : gmap string A), range A m ≡ₚ map_to_list m.
Hypothesis checked : validateSelectors range c = None.

Lemma checked_distinct id sel :
  cfg_Selectors c !! id = Some sel -> is_spill sel = true -> NoDup (real_target range c <$> Targets sel).*1.
Proof.
  intros Hid Hs. destruct (proj1 (validateSelectors_none range range_perm c) checked id sel Hid) as [_ Hok].
  by apply (sok_spill _ _ _ _ Hok), String.eqb_eq.
Qed.

Lemma checked_not_empty id sel : cfg_Selectors c !! id = Some sel -> id <> "".
Proof.
  intros Hid ->. destruct (proj1 (validateSelectors_none range range_perm c) checked "" sel Hid) as [Hne _]. by destruct Hne.
Qed.

Lemma run_counts es s id sel :
  run range c es s -> Z.of_nat (length es) < 2 ^ 63 -> cfg_Selectors c !! id = Some sel -> is_spill sel = true ->
  exists st, spillovers s !! id = Some st /\ counts_ok range c (live s) id sel st.
Proof. intros Hr Hn Hid Hs. by apply (inv_sel _ _ _ _ (middleware_run_inv range c checked_distinct es s Hr Hn)). Qed.

(** C27. At every moment, however the choices, rewrites and ends of requests
    interleave, the count a spillover selector keeps for a target is the number of
    requests that hold a reservation of it: none is lost on a failed rewrite, and none
    is released twice. *)
Theorem reservations_exact es s id sel :
  run range c es s -> Z.of_nat (length es) < 2 ^ 63 -> cfg_Selectors c !! id = Some sel -> is_spill sel = true ->
  exists st, spillovers s !! id = Some st /\
    forall t, t ∈ Targets sel -> count st (real_target range c t).1 = Z.of_nat (holders (live s) id t).
Proof.
  intros Hr Hn Hid Hs. destruct (run_counts es s id sel Hr Hn Hid Hs) as (st & Hst & Hc). exists st. split; [done|]. apply Hc.
Qed.

(** Where a target is, from the requests that hold it. *)
Definition standing (s : middleware) (id : string) (running : gmap string ProcessState) (t : string) : place :=
  let '(m, local) := real_target range c t in
  let held := if (0 <? holders (live s) id t)%nat then Active else Cold in
  if negb local then held
  else match running !! m with
       | Some StateStopping | Some StateShutdown => Unavailable
       | Some StateReady | Some StateStarting => Active
       | Some StateStopped | None => held
       end.

Lemma standing_place s id sel st running t :
  counts_ok range c (live s) id sel st -> t ∈ Targets sel ->
  place_of st running (mkTarget t (real_target range c t).1 (real_target range c t).2) = standing s id running t.
Proof.
  intros Hc Ht. unfold place_of, standing. simpl. rewrite (co_count _ _ _ _ _ _ Hc t Ht). destruct (real_target range c t) as [m l]. simpl.
  assert ((0 <? Z.of_nat (holders (live s) id t)) = (0 <? holders (live s) id t)%nat) as -> by (destruct (holders _ _ _); done).
  done.
Qed.

(** A cold target, the first one, when everything in service is at the limit; or the
    least busy target in service, below the limit or with nothing left to start. *)
Definition spreads (s : middleware) (id : string) (sel : SelectorConfig) (running : gmap string ProcessState) (t : string) : Prop :=
  let place := standing s id running in
  let n t := Z.of_nat (holders (live s) id t) in
  (place t = Cold /\
     (exists i, Targets sel !! i = Some t /\ forall j u, (j < i)%nat -> Targets sel !! j = Some u -> place u <> Cold) /\
     forall u, u ∈ Targets sel -> place u = Active -> Spillover sel <= n u) \/
  (place t = Active /\ (forall u, u ∈ Targets sel -> place u = Active -> n t <= n u) /\
     (n t < Spillover sel \/ forall u, u ∈ Targets sel -> place u <> Cold)).

Definition as_target (t : string) : spilloverTarget := mkTarget t (real_target range c t).1 (real_target range c t).2.

Lemma tracked_as_target sel : tracked range c sel = as_target <$> Targets sel.
Proof. apply list_fmap_ext. intros _ t _. unfold as_target. by destruct (real_target range c t). Qed.

Lemma fair_spreads s id sel st running t :
  counts_ok range c (live s) id sel st -> t ∈ Targets sel -> fair_choice st running (as_target t) -> spreads s id sel running t.
Proof.
  intros Hc Ht Hf.
  assert (forall u, u ∈ Targets sel -> place_of st running (as_target u) = standing s id running u) as Hp
    by (intros u Hu; by apply (standing_place s id sel)).
  assert (forall u, u ∈ Targets sel -> count st (modelID (as_target u)) = Z.of_nat (holders (live s) id u)) as Hn
    by (intros u Hu; by apply (co_count _ _ _ _ _ _ Hc)).
  assert (forall u, u ∈ Targets sel -> as_target u ∈ targets st) as Hu.
  { intros u Hu. rewrite (co_targets _ _ _ _ _ _ Hc), tracked_as_target. by apply list_elem_of_fmap_2. }
  unfold fair_choice in Hf. rewrite (Hp t Ht), (Hn t Ht), (co_limit _ _ _ _ _ _ Hc) in Hf. unfold spreads.
  destruct Hf as [(Hpt & (i & Hi & Hfirst) & Hb)|(Hpt & Hmin & Hlim)]; [left|right]; split_and!; try done.
  - rewrite (co_targets _ _ _ _ _ _ Hc), tracked_as_target, list_lookup_fmap in Hi.
    destruct (Targets sel !! i) as [t'|] eqn:Ei; [|done]. injection Hi as -> _ _. exists i. split; [done|].
    intros j u Hj Eu. rewrite <- Hp by (by eapply list_elem_of_lookup_2). apply (Hfirst j _ Hj).
    by rewrite (co_targets _ _ _ _ _ _ Hc), tracked_as_target, list_lookup_fmap, Eu.
  - intros u Hin Hpu. rewrite <- (Hn u) by done. apply (Hb (as_target u)); [by apply Hu|by rewrite Hp].
  - intros u Hin Hpu. rewrite <- (Hn u) by done. apply (Hmin (as_target u)); [by apply Hu|by rewrite Hp].
  - destruct Hlim as [?|Hc0]; [by left|right]. intros u Hin. rewrite <- (Hp u) by done. by apply (Hc0 (as_target u)), Hu.
Qed.

Lemma arrive_spill s id sel req running :
  cfg_Selectors c !! id = Some sel -> is_spill sel = true -> live s !! req = None ->
  mw_step c s (Arrive req (Some id) running) =
    match strategySpillover id (spillovers s) running with
    | None => None
    | Some (Err _) => Some (s, Refused req 503)
    | Some (Ok (tr, t)) => Some (mkMiddleware tr (<[req := mkPassage id t (is_spill sel) Chosen]> (live s)), Routed req id t)
    end.
Proof.
  intros Hid Hs Hreq. cbn [mw_step]. rewrite bool_decide_false by (rewrite Hreq; by intros [? ?]). simpl.
  destruct (String.eqb_spec id "") as [E|_]; [by destruct (checked_not_empty id sel Hid)|]. rewrite Hid. unfold pick_target.
  apply String.eqb_eq in Hs. by rewrite Hs.
Qed.

(** A request for a spillover selector goes to a target in service with the fewest
    requests, as long as that one is below the limit or nothing else can be started;
    otherwise to the first target not in service.  It is refused only when every
    target is going down, and the choice always returns. *)
Theorem spillover_choice es s id sel req running :
  run range c es s -> Z.of_nat (length es) < 2 ^ 63 -> cfg_Selectors c !! id = Some sel -> is_spill sel = true ->
  live s !! req = None ->
  exists s' o, mw_step c s (Arrive req (Some id) running) = Some (s', o) /\
  ((exists t, o = Routed req id t /\ t ∈ Targets sel /\ spreads s id sel running t) \/
   (o = Refused req 503 /\ s' = s /\ forall t, t ∈ Targets sel -> standing s id running t = Unavailable)).
Proof.
  intros Hr Hn Hid Hs Hreq. destruct (run_counts es s id sel Hr Hn Hid Hs) as (st & Hst & Hc).
  pose proof (spill_choose_spec st running (counts_at _ _ _ _ _ _ Hc)) as Hw.
  rewrite (arrive_spill s id sel req running Hid Hs Hreq). unfold strategySpillover. rewrite Hst.
  destruct (choose st running) as [[[st' t]|[]]|]; [| |done].
  - destruct Hw as (x & Hx & <- & _ & Hf). rewrite (co_targets _ _ _ _ _ _ Hc), tracked_as_target in Hx.
    apply list_elem_of_fmap in Hx as (t & -> & Ht). eexists _, _. split; [done|]. left. exists t. split_and!; [done|done|].
    by eapply fair_spreads.
  - eexists _, _. split; [done|]. right. split_and!; [done|done|]. intros t Ht.
    rewrite <- (standing_place s id sel st running t Hc Ht). apply Hw.
    rewrite (co_targets _ _ _ _ _ _ Hc), tracked_as_target. by apply (list_elem_of_fmap_2 as_target).
Qed.

End checked.

(** ** Witnesses *)

Definition ex_names : names :=
  mkNames {["big" := []]} ∅ {["p" := ["far"]]} {["any"]} ∅.
Definition ex_sel : SelectorConfig := mkSelector SelectorStrategySpillover ["big"; "far"] 1.
Definition ex_cfg : Config := mkConfig ex_names {["any" := ex_sel]} false None ∅ ∅.
Definition ex_events : list event := [Arrive 0 (Some "any") {["big" := StateReady]}; Rewritten 0 true false; Arrive 1 (Some "any") ∅].
Definition run_of (es : list event) : option middleware :=
  foldl (fun s e => s ≫= fun s => fst <$> mw_step ex_cfg s e) (Some (init range_list ex_cfg)) es.

Lemma ex_checked : validateSelectors range_list ex_cfg = None.
Proof. vm_compute. reflexivity. Qed.

Lemma run_of_run es s : run_of es = Some s -> run range_list ex_cfg es s.
Proof.
  revert s. induction es as [|e es IH] using rev_ind; intros s; unfold run_of; [intros [= <-]; constructor|].
  rewrite foldl_app. simpl. fold (run_of es). destruct (run_of es) as [s0|] eqn:E; [|done]. simpl.
  destruct (mw_step ex_cfg s0 e) as [[s1 o]|] eqn:Es; [|done]. intros [= <-]. econstructor; [by apply IH|done].
Qed.

Definition ex_state : middleware := default (init range_list ex_cfg) (run_of ex_events).

Lemma ex_run : run range_list ex_cfg ex_events ex_state.
Proof. apply run_of_run. vm_compute. reflexivity. Qed.

Lemma reservations_exact_witness :
  (holders (live ex_state) "any" "big", holders (live ex_state) "any" "far") = (1%nat, 1%nat) /\
  exists st, spillovers ex_state !! "any" = Some st /\
    forall t, t ∈ ["big"; "far"] -> count st (real_target range_list ex_cfg t).1 = Z.of_nat (holders (live ex_state) "any" t).
Proof.
  split; [vm_compute; reflexivity|].
  exact (reservations_exact range_list ex_cfg (fun A m => reflexivity _) ex_checked ex_events ex_state "any" ex_sel ex_run eq_refl eq_refl eq_refl).
Defined.

Lemma spillover_choice_witness :
  exists s' o, mw_step ex_cfg ex_state (Arrive 2 (Some "any") {["big" := StateReady]}) = Some (s', o) /\
  ((exists t, o = Routed 2 "any" t /\ t ∈ Targets ex_sel /\ spreads range_list ex_cfg ex_state "any" ex_sel {["big" := StateReady]} t) \/
   (o = Refused 2 503 /\ s' = ex_state /\
    forall t, t ∈ Targets ex_sel -> standing range_list ex_cfg ex_state "any" {["big" := StateReady]} t = Unavailable)).
Proof.
  exact (spillover_choice range_list ex_cfg (fun A m => reflexivity _) ex_checked ex_events ex_state "any" ex_sel 2 {["big" := StateReady]}
    ex_run eq_refl eq_refl eq_refl eq_refl).
Defined.
End SelectorSpill.
