(* ===== verification/Macros.v ===== *)
(** Macros of the configuration ([internal/config/macros.go]): their checks, their
    substitution in a tree of YAML values, the ports handed out with them, and the
    check that none is left.

    The tree is what the YAML library decoded; a map is a list of entries in the
    order in which it is ranged over. *)

From S2P Require Import Prelude Runes.
From Stdlib Require Import Ascii.
From stdpp Require Import pretty.

Module Macros.
Open Scope string_scope.
Open Scope list_scope.
Open Scope Z_scope.

(** Scalars other than strings.  A float is its bits; [SOther] is a value the checks
    do not accept for a macro, such as a date. *)
Inductive scalar := SInt (z : Z) | SBool (b : bool) | SFloat (bits : Z) | SNull | SOther (k : nat).

Unset Elimination Schemes.

Inductive value := VString (s : string) | VScalar (c : scalar) | VList (l : list value) | VMap (m : list (string * value)).

Set Elimination Schemes.

(** Induction through the lists of a value. *)
Definition value_ind (P : value -> Prop) (Hs : forall s, P (VString s)) (Hc : forall c, P (VScalar c))
  (Hl : forall l, Forall P l -> P (VList l)) (Hm : forall m, Forall (fun kv => P kv.2) m -> P (VMap m)) : forall v, P v :=
  fix F v := match v with
  | VString s => Hs s
  | VScalar c => Hc c
  | VList l => Hl l ((fix G l := match l return Forall P l with [] => Forall_nil_2 P | x :: l => Forall_cons_2 P x l (F x) (G l) end) l)
  | VMap m => Hm m ((fix G m := match m return Forall (fun kv => P kv.2) m with
      | [] => Forall_nil_2 _ | x :: m => Forall_cons_2 (fun kv => P kv.2) x m (F x.2) (G m) end) m)
  end.

(** ** Strings *)

Definition slug (name : string) : string := "${" +:+ name +:+ "}".

Fixpoint Contains (sub s : string) : bool :=
  String.prefix sub s || match s with EmptyString => false | String _ s => Contains sub s end.

(** [strings.ReplaceAll] for an [old] that is not empty; [skip] is what is left of a
    match already replaced. *)
Fixpoint replace_from (old new : string) (skip : nat) (s : string) : string :=
  match s with
  | EmptyString => EmptyString
  | String c s' =>
    match skip with
    | S k => replace_from old new k s'
    | O => if String.prefix old s then new +:+ replace_from old new (String.length old - 1) s'
           else String c (replace_from old new 0 s')
    end
  end.
Definition ReplaceAll (s old new : string) : string := replace_from old new 0 s.

Definition in_range (lo hi : nat) (c : ascii) : bool := (lo <=? nat_of_ascii c)%nat && (nat_of_ascii c <=? hi)%nat.

(** [a-zA-Z0-9_-] *)
Definition name_char (c : ascii) : bool :=
  in_range 97 122 c || in_range 65 90 c || in_range 48 57 c || Ascii.eqb c "_" || Ascii.eqb c "-".

Fixpoint all_chars (f : ascii -> bool) (s : string) : bool :=
  match s with EmptyString => true | String c s => f c && all_chars f s end.

(** [macroNameRegex] *)
Definition name_ok (s : string) : bool := negb (String.eqb s "") && all_chars name_char s.

(** The longest run of characters that satisfy [f], and what follows. *)
Fixpoint run_of (f : ascii -> bool) (s : string) : string * string :=
  match s with
  | EmptyString => (EmptyString, EmptyString)
  | String c s' => if f c then let '(n, r) := run_of f s' in (String c n, r) else (EmptyString, s)
  end.

Fixpoint strip_prefix (p s : string) : option string :=
  match p, s with
  | EmptyString, _ => Some s
  | String a p, String b s => if Ascii.eqb a b then strip_prefix p s else None
  | _, EmptyString => None
  end.

(** What [f] accepts of a run of characters between [pre] and a closing brace that
    starts here. *)
Definition braced (pre : string) (f : ascii -> bool) (ok : string -> bool) (s : string) : option string :=
  match strip_prefix pre s with
  | Some s =>
    let '(n, r) := run_of f s in
    match strip_prefix "}" r with Some _ => if ok n then Some n else None | None => None end
  | None => None
  end.

(** The name of the match of [macroPatternRegex] that starts here. *)
Definition match_here (s : string) : option string := braced "${" name_char (fun n => negb (String.eqb n "")) s.

(** [macroPatternRegex.FindAllStringSubmatch]: the names.  A match holds one [$], its
    first byte, so none starts inside another. *)
Fixpoint find_macros (s : string) : list string :=
  match s with
  | EmptyString => []
  | String _ s' => match match_here s with Some n => n :: find_macros s' | None => find_macros s' end
  end.

(** ** Declarations *)

Record MacroEntry := mkMacro { Name : string; Value : value }.

Abbreviation MacroList := (list MacroEntry).

Inductive macro_error :=
| NameTooLong (name : string)
| NameInvalid (name : string)
| SelfReference (name : string)
| InvalidType (name : string)
| Reserved (name : string).

(** [None] is success, as below. *)
Definition validateMacro (name : string) (v : value) : option macro_error :=
  if (64 <=? String.length name)%nat then Some (NameTooLong name)
  else if negb (name_ok name) then Some (NameInvalid name)
  else
    let typed := match v with
      | VString s => if Contains (slug name) s then Some (SelfReference name) else None
      | VScalar (SInt _) | VScalar (SBool _) | VScalar (SFloat _) => None
      | _ => Some (InvalidType name)
      end in
    match typed with
    | Some e => Some e
    | None => if bool_decide (name ∈ ["PID"; "PORT"; "MODEL_ID"]) then Some (Reserved name) else None
    end.

(** The entry of that name is replaced where it stands. *)
Fixpoint overlay (merged : MacroList) (e : MacroEntry) : MacroList :=
  match merged with
  | [] => [e]
  | x :: merged => if String.eqb (Name x) (Name e) then e :: merged else x :: overlay merged e
  end.

Definition mergeModelMacros (modelID : string) (global model : MacroList) : MacroList :=
  foldl overlay (mkMacro "MODEL_ID" (VString modelID) :: global) model.

(** ** Maps as lists of entries *)

Definition aget (k : string) (m : list (string * value)) : option value := snd <$> List.find (fun kv => String.eqb kv.1 k) m.
Definition adelete (k : string) (m : list (string * value)) : list (string * value) := List.filter (fun kv => negb (String.eqb kv.1 k)) m.

(** An entry is changed in place, a new one comes last. *)
Fixpoint aset (k : string) (v : value) (m : list (string * value)) : list (string * value) :=
  match m with
  | [] => [(k, v)]
  | (k', v') :: m => if String.eqb k' k then (k, v) :: m else (k', v') :: aset k v m
  end.

Definition as_map (v : option value) : option (list (string * value)) := match v with Some (VMap m) => Some m | _ => None end.
Definition as_string (v : option value) : string := match v with Some (VString s) => s | _ => "" end.

(** ** Comments of commands *)

Definition NL : ascii := "010".

Fixpoint split_lines (s : string) : list string :=
  match s with
  | EmptyString => [EmptyString]
  | String c s =>
    if Ascii.eqb c NL then EmptyString :: split_lines s
    else match split_lines s with l :: ls => String c l :: ls | [] => [String c EmptyString] end
  end.

Fixpoint join_lines (ls : list string) : string :=
  match ls with [] => EmptyString | [l] => l | l :: ls => l +:+ String NL (join_lines ls) end.

Definition is_comment (line : string) : bool :=
  match trim_space (runes_of_string line) with r :: _ => r =? 35 | [] => false end.

Definition StripComments (cmdStr : string) : string := join_lines (List.filter (fun l => negb (is_comment l)) (split_lines cmdStr)).

Definition strip_field (field : string) (model : list (string * value)) : list (string * value) :=
  match aget field model with Some (VString s) => aset field (VString (StripComments s)) model | _ => model end.

Definition stripRawCommandComments (model : list (string * value)) : list (string * value) :=
  strip_field "cmdStop" (strip_field "cmd" model).

Definition MODEL_CONFIG_DEFAULT_PROXY : string := "http://localhost:${PORT}".

(** ** What is wrong with a configuration *)

Inductive config_error :=
| BadMacro (e : macro_error)
| BadModelMacro (model : string) (e : macro_error)
| BadStartPort
| KeysCollide (model key : string)
| PortNotInCmd (model : string)
| UnknownKeyMacro (name model : string)
| UnknownMacro (path model field name : string)
| EnvNotSet (path name : string).

Fixpoint first_error {A E} (f : A -> option E) (l : list A) : option E :=
  match l with [] => None | x :: l => match f x with Some e => Some e | None => first_error f l end end.

(** Each element with its index. *)
Fixpoint first_error_at {A E} (f : nat -> A -> option E) (i : nat) (l : list A) : option E :=
  match l with [] => None | x :: l => match f i x with Some e => Some e | None => first_error_at f (S i) l end end.

(** [envMacroRegex]: [env.], a letter or underscore, then letters, digits and underscores. *)
Definition env_start (c : ascii) : bool := in_range 97 122 c || in_range 65 90 c || Ascii.eqb c "_".
Definition env_char (c : ascii) : bool := env_start c || in_range 48 57 c.

Definition env_here (s : string) : option string :=
  braced "${env." env_char (fun n => match n with String c _ => env_start c | EmptyString => false end) s.

Fixpoint find_env (s : string) : list string :=
  match s with
  | EmptyString => []
  | String _ s' => match env_here s with Some n => n :: find_env s' | None => find_env s' end
  end.

(** [PID] is let through where [allowPID] says so. *)
Fixpoint validateMacroUses (v : value) (path modelID fieldPath : string) (allowPID : bool) : option config_error :=
  match v with
  | VString s =>
    match first_error (fun n => if String.eqb n "PID" && allowPID then None else Some (UnknownMacro path modelID fieldPath n)) (find_macros s) with
    | Some e => Some e
    | None => EnvNotSet path <$> head (find_env s)
    end
  | VMap m =>
    first_error (fun kv => validateMacroUses kv.2 (path +:+ "." +:+ kv.1) modelID
      (if String.eqb modelID "" then fieldPath else fieldPath +:+ "." +:+ kv.1) allowPID) m
  | VList l => first_error_at (fun i x => validateMacroUses x (path +:+ "[" +:+ pretty i +:+ "]") modelID fieldPath allowPID) 0 l
  | VScalar _ => None
  end.

(** The yaml names of the exported fields of [Config]. *)
Definition knownFields : list string :=
  ["tailcat"; "healthCheckTimeout"; "logRequests"; "logLevel"; "logTimeFormat"; "logToStdout";
   "metricsMaxInMemory"; "captureBuffer"; "store"; "ui"; "performance"; "globalTTL"; "unloadTimeout";
   "swapGraceSeconds"; "swapStarvationSeconds"; "memoryBrake"; "debugHistory"; "loopGuard"; "sessions";
   "models"; "profiles"; "selectors"; "globalConcurrencyLimit"; "routing"; "groups"; "matrix";
   "transcriptionEndpoint"; "transcriptionModel"; "macros"; "startPort"; "hooks"; "sendLoadingState";
   "includeAliasesInList"; "residentAliases"; "residentAliasGraceSeconds"; "menu_bar"; "apiKeys"; "peers";
   "upstream"; "peerStall"; "slotStall"; "prefillStall"; "tiers"].

Definition validateConfigMacroUses (raw : list (string * value)) : option config_error :=
  first_error (fun kv =>
    if negb (bool_decide (kv.1 ∈ knownFields)) then None
    else if negb (String.eqb kv.1 "models") then validateMacroUses kv.2 kv.1 "" "" false
    else match kv.2 with
         | VMap models =>
           first_error (fun mv =>
             match mv.2 with
             | VMap model =>
               first_error (fun fv => validateMacroUses fv.2 ("models." +:+ mv.1 +:+ "." +:+ fv.1) mv.1 fv.1 (String.eqb fv.1 "cmdStop")) model
             | _ => None
             end) models
         | _ => None
         end) raw.

(** ** The keys of setParamsByID *)

Definition params_by_id (model : list (string * value)) : option (list (string * value) * list (string * value)) :=
  match as_map (aget "filters" model) with
  | Some filters => (fun params => (filters, params)) <$> as_map (aget "setParamsByID" filters)
  | None => None
  end.

Fixpoint rename_keys (f : string -> string) (seen : gset string) (m : list (string * value)) : result string (list (string * value)) :=
  match m with
  | [] => Ok []
  | (k, v) :: m =>
    if bool_decide (f k ∈ seen) then Err k
    else rbind (rename_keys f ({[f k]} ∪ seen) m) (fun m => Ok ((f k, v) :: m))
  end.

Definition validateSetParamsByIDKeys (model : list (string * value)) (modelID : string) : option config_error :=
  match params_by_id model with
  | None => None
  | Some (_, params) => first_error (fun kv => (fun n => UnknownKeyMacro n modelID) <$> head (find_macros kv.1)) params
  end.

(** ** Substitution *)

Section macros.
(** The text [%v] gives a float or a value of another type. *)
Variable format : scalar -> string.

Definition show_scalar (c : scalar) : string :=
  match c with
  | SInt z => pretty z
  | SBool b => if b then "true" else "false"
  | SFloat _ | SOther _ => format c
  | SNull => "<nil>"
  end.

(** [fmt.Sprintf("%v", macroValue)], for the scalars that macros are. *)
Definition macro_text (v : value) : string :=
  match v with VString s => s | VScalar c => show_scalar c | VList _ | VMap _ => "" end.

Fixpoint substituteMacroInValue (v : value) (name : string) (mv : value) : value :=
  match v with
  | VString s =>
    if String.eqb s (slug name) then mv
    else if Contains (slug name) s then VString (ReplaceAll s (slug name) (macro_text mv))
    else VString s
  | VScalar c => VScalar c
  | VList l => VList (map (fun x => substituteMacroInValue x name mv) l)
  | VMap m => VMap (map (fun kv => (kv.1, substituteMacroInValue kv.2 name mv)) m)
  end.

(** From the last macro to the first. *)
Definition substituteMacroList (v : value) (macros : MacroList) : value :=
  foldr (fun e v => substituteMacroInValue v (Name e) (Value e)) v macros.

Definition substitute_key (k : string) (macros : MacroList) : string :=
  foldr (fun e k => ReplaceAll k (slug (Name e)) (macro_text (Value e))) k macros.
Definition rename_params (model : list (string * value)) (id : string) (f : string -> string) : result config_error (list (string * value)) :=
  match params_by_id model with
  | None => Ok model
  | Some (filters, params) =>
    match rename_keys f ∅ params with
    | Err k => Err (KeysCollide id k)
    | Ok params => Ok (aset "filters" (VMap (aset "setParamsByID" (VMap params) filters)) model)
    end
  end.

Definition substituteSetParamsByIDKeys (model : list (string * value)) (id : string) (macros : MacroList) :=
  rename_params model id (fun k => substitute_key k macros).

(** ** The whole resolution *)

Record configMacroConfig := mkDeclarations { Macros_ : MacroList; ModelMacros : list (string * MacroList) }.

Definition model_macros (d : configMacroConfig) (id : string) : MacroList := default [] (snd <$> List.find (fun kv => String.eqb kv.1 id) (ModelMacros d)).

Definition validate_declarations (d : configMacroConfig) : option config_error :=
  match first_error (fun e => BadMacro <$> validateMacro (Name e) (Value e)) (Macros_ d) with
  | Some e => Some e
  | None => first_error (fun kv => first_error (fun e => BadModelMacro kv.1 <$> validateMacro (Name e) (Value e)) kv.2) (ModelMacros d)
  end.

(** A model before the expansion: no declarations, no comments in its commands, and the
    default proxy. *)
Definition prepare_model (v : value) : value :=
  match v with
  | VMap model =>
    let model := stripRawCommandComments (adelete "macros" model) in
    VMap (match aget "proxy" model with
          | None | Some (VScalar SNull) => aset "proxy" (VString MODEL_CONFIG_DEFAULT_PROXY) model
          | _ => model
          end)
  | v => v
  end.

Definition entries_of (v : value) : list (string * value) := match v with VMap m => m | _ => [] end.

Definition uses_port (field : string) (model : list (string * value)) : bool := Contains (slug "PORT") (as_string (aget field model)).

(** One pass of a list of macros over a model and the keys of its setParamsByID. *)
Definition expand_model (id : string) (macros : MacroList) (model : list (string * value)) : result config_error (list (string * value)) :=
  substituteSetParamsByIDKeys (entries_of (substituteMacroList (VMap model) macros)) id macros.

Definition resolve_model (d : configMacroConfig) (id : string) (model : list (string * value)) (nextPort : Z) :
  result config_error (list (string * value) * Z) :=
  rbind (expand_model id (mergeModelMacros id (Macros_ d) (model_macros d id)) model) (fun model =>
  rbind (if uses_port "cmd" model || uses_port "proxy" model then
           if negb (uses_port "cmd" model) then Err (PortNotInCmd id)
           else rbind (expand_model id [mkMacro "PORT" (VScalar (SInt nextPort))] model) (fun model => Ok (model, i64 (nextPort + 1)))
         else Ok (model, nextPort)) (fun '(model, nextPort) =>
  match validateSetParamsByIDKeys model id with Some e => Err e | None => Ok (model, nextPort) end)).

Fixpoint resolve_models (d : configMacroConfig) (ids : list string) (models : list (string * value)) (nextPort : Z) :
  result config_error (list (string * value)) :=
  match ids with
  | [] => Ok models
  | id :: ids =>
    match aget id models with
    | Some (VMap model) =>
      rbind (resolve_model d id model nextPort) (fun '(model, nextPort) => resolve_models d ids (aset id (VMap model) models) nextPort)
    | _ => resolve_models d ids models nextPort
    end
  end.

(** What the YAML library reads as [startPort], the default included; [None] when it
    cannot. *)
Variable decode_start : list (string * value) -> option Z.

Definition rawStartPort (raw : list (string * value)) : result config_error Z :=
  match decode_start raw with
  | Some p => if p <? 1 then Err BadStartPort else Ok p
  | None => Err BadStartPort
  end.

Definition global_pass (d : configMacroConfig) (raw : list (string * value)) : list (string * value) :=
  map (fun kv => if String.eqb kv.1 "models" then kv else (kv.1, substituteMacroList kv.2 (Macros_ d))) raw.

(** [d] and [raw] are the two readings of one text. *)
Definition resolveConfigMacros (d : configMacroConfig) (raw : list (string * value)) : result config_error (list (string * value)) :=
  match validate_declarations d with
  | Some e => Err e
  | None =>
    let raw := adelete "macros" raw in
    let models := map (fun kv => (kv.1, prepare_model kv.2)) (default [] (as_map (aget "models" raw))) in
    let raw := global_pass d raw in
    rbind (rawStartPort raw) (fun startPort =>
    rbind (resolve_models d (sort_strings models.*1) models startPort) (fun models =>
    let raw := aset "models" (VMap models) raw in
    match validateConfigMacroUses raw with Some e => Err e | None => Ok raw end))
  end.
End macros.
End Macros.
