(* ===== verification/MacroSpec.v ===== *)
(** Macros (Macros.v): substituting a list of macros from the last to the first is
    expanding each macro with those before it; and an accepted configuration holds
    no macro any more. *)

From Stdlib Require Import Ascii.
From stdpp Require Import pretty.
From S2P Require Import Prelude Macros.

Module MacroSpec.
Import Macros.
Open Scope string_scope.
Open Scope list_scope.
Open Scope Z_scope.

(** ** Strings *)

Definition no_dollar (s : string) : bool := all_chars (fun c => negb (Ascii.eqb c "$")) s.

Lemma name_char_plain c : name_char c = true -> c <> "$"%char /\ c <> "{"%char /\ c <> "}"%char.
Proof. intros H. split_and!; intros ->; discriminate H. Qed.

Lemma name_ok_cons c n : all_chars name_char (String c n) = true -> name_char c = true /\ all_chars name_char n = true.
Proof. intros [? ?]%andb_prop. done. Qed.

Lemma names_no_dollar n : all_chars name_char n = true -> no_dollar n = true.
Proof.
  induction n as [|c n IH]; [done|]. intros [Hc Hn]%name_ok_cons. unfold no_dollar. simpl. fold (no_dollar n).
  rewrite (IH Hn), andb_true_r. apply name_char_plain in Hc as (Hc & _). destruct (Ascii.eqb_spec c "$"); [done|done].
Qed.

Lemma app_nil_r' s : s +:+ "" = s.
Proof. induction s as [|c s IH]; [done|]. exact (f_equal (String c) IH). Qed.

Lemma app_assoc' a b c : (a +:+ b) +:+ c = a +:+ (b +:+ c).
Proof. induction a as [|x a IH]; [done|]. exact (f_equal (String x) IH). Qed.

Lemma length_app' a b : String.length (a +:+ b) = (String.length a + String.length b)%nat.
Proof. induction a as [|x a IH]; [done|]. exact (f_equal S IH). Qed.

Lemma prefix_cons a s b t : String.prefix (String a s) (String b t) = Ascii.eqb a b && String.prefix s t.
Proof. simpl. destruct (Ascii.ascii_dec a b) as [->|Hne]; [by rewrite Ascii.eqb_refl|]. by destruct (Ascii.eqb_spec a b). Qed.

Lemma prefix_nil s : String.prefix "" s = true.
Proof. by destruct s. Qed.

Lemma prefix_spec u s : String.prefix u s = true <-> exists r, s = u +:+ r.
Proof.
  revert s. induction u as [|a u IH]; intros s; [rewrite prefix_nil; split; [intros _; by exists s|done]|].
  destruct s as [|b s]; [split; [done|intros [r Hr]; discriminate Hr]|].
  rewrite prefix_cons, andb_true_iff, Ascii.eqb_eq, IH. split.
  - intros [-> [r ->]]. by exists r.
  - intros [r [= -> ->]]. split; [done|by exists r].
Qed.

Lemma replace_skip old new u s : replace_from old new (String.length u) (u +:+ s) = replace_from old new 0 s.
Proof. induction u as [|c u IH]; [done|]. exact IH. Qed.

Lemma replace_cons old new c s :
  replace_from old new 0 (String c s) =
  if String.prefix old (String c s) then new +:+ replace_from old new (String.length old - 1) s else String c (replace_from old new 0 s).
Proof. reflexivity. Qed.

Lemma replace_plain name new u s :
  no_dollar u = true -> replace_from (slug name) new 0 (u +:+ s) = u +:+ replace_from (slug name) new 0 s.
Proof.
  induction u as [|c u IH]; [done|]. intros [Hc Hu]%andb_prop. change (String c u +:+ s) with (String c (u +:+ s)).
  assert (String.prefix (slug name) (String c (u +:+ s)) = false) as Hp.
  { unfold slug. change ("${" +:+ name +:+ "}") with (String "$" (String "{" (name +:+ "}"))). rewrite prefix_cons.
    by destruct (Ascii.eqb_spec "$" c) as [<-|_]. }
  rewrite replace_cons, Hp. exact (f_equal (String c) (IH Hu)).
Qed.

Lemma slug_cons n r : slug n +:+ r = String "$" (String "{" (n +:+ String "}" r)).
Proof. exact (f_equal (fun x => String "$" (String "{" x)) (app_assoc' n "}" r)). Qed.

(** A name is over where the brace is. *)
Lemma names_differ m n s :
  all_chars name_char m = true -> all_chars name_char n = true ->
  String.prefix (m +:+ "}") (n +:+ String "}" s) = String.eqb m n.
Proof.
  revert n. induction m as [|a m IH]; intros n Hm Hn.
  - destruct n as [|b n]; [by destruct s|]. apply name_ok_cons in Hn as [Hb _]. change ("" +:+ "}") with (String "}" "").
    change (String b n +:+ String "}" s) with (String b (n +:+ String "}" s)). rewrite prefix_cons.
    destruct (Ascii.eqb_spec "}" b) as [<-|_]; [discriminate Hb|done].
  - apply name_ok_cons in Hm as [Ha Hm]. destruct n as [|b n].
    + change (String a m +:+ "}") with (String a (m +:+ "}")). change ("" +:+ String "}" s) with (String "}" s). rewrite prefix_cons.
      destruct (Ascii.eqb_spec a "}") as [->|_]; [discriminate Ha|done].
    + apply name_ok_cons in Hn as [_ Hn]. change (String a m +:+ "}") with (String a (m +:+ "}")).
      change (String b n +:+ String "}" s) with (String b (n +:+ String "}" s)). rewrite prefix_cons, IH by done.
      simpl. by destruct (Ascii.eqb a b).
Qed.

Lemma prefix_slug m n s :
  all_chars name_char m = true -> all_chars name_char n = true ->
  String.prefix (slug m) (slug n +:+ s) = String.eqb m n.
Proof.
  intros Hm Hn. rewrite slug_cons. unfold slug. change ("${" +:+ m +:+ "}") with (String "$" (String "{" (m +:+ "}"))).
  rewrite !prefix_cons. simpl. by apply names_differ.
Qed.

(** The placeholder itself is replaced, another one is left. *)
Lemma replace_slug m n new s :
  all_chars name_char m = true -> all_chars name_char n = true ->
  replace_from (slug m) new 0 (slug n +:+ s) = (if String.eqb m n then new else slug n) +:+ replace_from (slug m) new 0 s.
Proof.
  intros Hm Hn. pose proof (prefix_slug m n s Hm Hn) as Hp. rewrite slug_cons in Hp |- *. rewrite replace_cons, Hp.
  destruct (String.eqb_spec m n) as [->|Hne].
  - f_equal. rewrite <- (replace_skip (slug n) new (String "{" (n +:+ "}")) s).
    change (String "{" (n +:+ "}") +:+ s) with (String "{" ((n +:+ "}") +:+ s)). rewrite app_assoc'. f_equal.
  - rewrite slug_cons. f_equal.
    change (String "{" (n +:+ String "}" s)) with (("{" +:+ n) +:+ ("}" +:+ s)).
    change (String "{" (n +:+ String "}" (replace_from (slug m) new 0 s))) with (("{" +:+ n) +:+ ("}" +:+ replace_from (slug m) new 0 s)).
    rewrite <- !app_assoc'. apply replace_plain. unfold no_dollar. simpl.
    pose proof (names_no_dollar n Hn) as Hd. clear -Hd. unfold no_dollar in Hd. induction n as [|c n IH]; [done|].
    simpl in *. apply andb_prop in Hd as [-> Hd]. by apply IH.
Qed.

Lemma replace_absent old new s : Contains old s = false -> replace_from old new 0 s = s.
Proof.
  induction s as [|c s IH]; [done|]. intros [Hp Hc]%orb_false_elim. rewrite replace_cons, Hp. by rewrite IH.
Qed.

(** Decimal digits hold no dollar. *)
Lemma pretty_N_go_plain (n : N) s : no_dollar s = true -> no_dollar (pretty_N_go n s) = true.
Proof.
  revert s. induction (N.lt_wf_0 n) as [n _ IH]; intros s Hs. destruct (decide (0 < n)%N) as [Hn|Hn].
  - rewrite pretty_N_go_step by done. apply IH; [by apply N.div_lt|]. unfold no_dollar. simpl. fold (no_dollar s). rewrite Hs, andb_true_r.
    unfold pretty_N_char. by repeat case_match.
  - assert (n = 0%N) as -> by lia. by rewrite pretty_N_go_0.
Qed.

Lemma pretty_N_go_length (n : N) s : (String.length s <= String.length (pretty_N_go n s))%nat.
Proof.
  revert s. induction (N.lt_wf_0 n) as [n _ IH]; intros s. destruct (decide (0 < n)%N) as [Hn|Hn].
  - rewrite pretty_N_go_step by done. etrans; [|apply IH; by apply N.div_lt]. simpl. lia.
  - assert (n = 0%N) as -> by lia. by rewrite pretty_N_go_0.
Qed.

Lemma pretty_N_plain (n : N) : pretty n <> "" /\ no_dollar (pretty n) = true.
Proof.
  unfold pretty, pretty_N. destruct (decide (n = 0%N)) as [->|Hn]; [done|]. split; [|by apply pretty_N_go_plain].
  rewrite pretty_N_go_step by lia. pose proof (pretty_N_go_length (n `div` 10) (String (pretty_N_char (n `mod` 10)) "")) as Hl.
  intros E. rewrite E in Hl. simpl in Hl. lia.
Qed.

Lemma pretty_Z_plain (z : Z) : pretty z <> "" /\ no_dollar (pretty z) = true.
Proof. destruct z as [|p|p]; [done|apply (pretty_N_plain (N.pos p))|]. split; [done|]. apply (pretty_N_plain (N.pos p)). Qed.

(** ** Templates *)

Inductive token := Lit (s : string) | Ref (n : string).

#[export] Instance token_eq_dec : EqDecision token.
Proof. solve_decision. Defined.

Definition token_ok (t : token) : Prop :=
  match t with Lit s => s <> "" /\ no_dollar s = true | Ref n => name_ok n = true end.

Definition render1 (t : token) : string := match t with Lit s => s | Ref n => slug n end.
Definition render (ts : list token) : string := foldr (fun t s => render1 t +:+ s) "" ts.

Lemma render_app ts us : render (ts ++ us) = render ts +:+ render us.
Proof. induction ts as [|t ts IH]; [done|]. simpl. by rewrite IH, app_assoc'. Qed.

Lemma name_ok_chars n : name_ok n = true -> all_chars name_char n = true.
Proof. by intros [_ ?]%andb_prop. Qed.

Lemma token_nonempty t : token_ok t -> render1 t <> "".
Proof. destruct t as [s|n]; [by intros [? _]|done]. Qed.

Lemma render_nonempty ts : Forall token_ok ts -> render ts = "" -> ts = [].
Proof.
  destruct 1 as [|t ts Ht _]; [done|]. simpl. intros E. destruct (token_nonempty t Ht). by destruct (render1 t).
Qed.

Lemma render_slug m ts : Forall token_ok ts -> all_chars name_char m = true -> render ts = slug m <-> ts = [Ref m].
Proof.
  intros Hts Hm. split; [|intros ->; simpl; by rewrite app_nil_r'].
  destruct Hts as [|[s|n] ts Ht Hts]; [done| |]; simpl; intros E.
  - destruct Ht as [Hne Hd]. destruct s as [|c s]; [done|]. unfold slug in E. injection E as -> _. discriminate Hd.
  - apply name_ok_chars in Ht. assert (String.prefix (slug m) (slug n +:+ render ts) = true) as Hp by (rewrite E; apply prefix_spec; exists ""; by rewrite app_nil_r').
    rewrite prefix_slug in Hp by done. apply String.eqb_eq in Hp as <-.
    assert (render ts = "") as Er.
    { apply (f_equal String.length) in E. rewrite length_app' in E. destruct (render ts); [done|]. simpl in E. lia. }
    by rewrite (render_nonempty ts Hts Er).
Qed.

(** Replacing in a template: each reference to [m] becomes [new]. *)
Lemma replace_template m new ts : Forall token_ok ts -> all_chars name_char m = true ->
  replace_from (slug m) new 0 (render ts) = foldr (fun t s => (if decide (t = Ref m) then new else render1 t) +:+ s) "" ts.
Proof.
  intros Hts Hm. induction Hts as [|t ts Ht Hts IH]; [done|]. simpl render. simpl foldr. rewrite <- IH.
  destruct t as [s|n]; cbn [render1].
  - rewrite decide_False by done. by apply replace_plain, Ht.
  - rewrite replace_slug by (try done; by apply name_ok_chars).
    destruct (String.eqb_spec m n) as [->|Hne]; [by rewrite decide_True|]. rewrite decide_False by congruence. done.
Qed.
(** ** Finding placeholders *)

Lemma run_of_spec f s n r : run_of f s = (n, r) -> s = n +:+ r /\ all_chars f n = true.
Proof.
  revert n r. induction s as [|c s IH]; intros n r; simpl; [by intros [= <- <-]|].
  destruct (f c) eqn:Ef; [|by intros [= <- <-]]. destruct (run_of f s) as [n' r'] eqn:E. intros [= <- <-].
  destruct (IH n' r' eq_refl) as [-> Hn]. split; [done|]. simpl. by rewrite Ef.
Qed.

Lemma run_of_name f n c r : all_chars f n = true -> f c = false -> run_of f (n +:+ String c r) = (n, String c r).
Proof.
  intros Hn Hc. induction n as [|x n IH].
  - change ("" +:+ String c r) with (String c r). simpl. by rewrite Hc.
  - apply andb_prop in Hn as [Hx Hn]. change (String x n +:+ String c r) with (String x (n +:+ String c r)). simpl. by rewrite Hx, IH.
Qed.

Lemma strip_prefix_spec p s r : strip_prefix p s = Some r <-> s = p +:+ r.
Proof.
  revert s. induction p as [|a p IH]; intros s; simpl; [split; [by intros [= ->]|by intros ->]|].
  destruct s as [|b s]; [split; [done|intros E; discriminate E]|]. destruct (Ascii.eqb_spec a b) as [->|Hne].
  - rewrite IH. split; [by intros ->|]. by intros [= ->].
  - split; [done|]. intros E. by injection E as <- _.
Qed.

Lemma braced_spec pre f ok s n : f "}"%char = false ->
  braced pre f ok s = Some n <-> all_chars f n = true /\ ok n = true /\ exists b, s = pre +:+ n +:+ String "}" b.
Proof.
  intros Hf. unfold braced. split.
  - destruct (strip_prefix pre s) as [t|] eqn:Et; [|done]. apply strip_prefix_spec in Et as ->.
    destruct (run_of f t) as [m r] eqn:E. apply run_of_spec in E as [-> Hm].
    destruct (strip_prefix "}" r) as [b|] eqn:Er; [|done]. apply strip_prefix_spec in Er as ->.
    destruct (ok m) eqn:Eo; [|done]. intros [= <-]. split_and!; [done|done|by exists b].
  - intros (Hn & Ho & b & ->). rewrite (proj2 (strip_prefix_spec pre _ (n +:+ String "}" b)) eq_refl), run_of_name by done.
    change (String "}" b) with ("}" +:+ b). assert (strip_prefix "}" ("}" +:+ b) = Some b) as -> by (by apply strip_prefix_spec). by rewrite Ho.
Qed.

Lemma match_here_spec s n : match_here s = Some n <-> name_ok n = true /\ exists b, s = slug n +:+ b.
Proof.
  unfold match_here. rewrite braced_spec by done. unfold name_ok. rewrite andb_true_iff. setoid_rewrite slug_cons. tauto.
Qed.

(** A placeholder stands in a string. *)
Definition occurs (ph s : string) : Prop := exists a b, s = a +:+ ph +:+ b.

Lemma occurs_cons ph c s : occurs ph (String c s) <-> (exists b, String c s = ph +:+ b) \/ occurs ph s.
Proof.
  split.
  - intros ([|x a] & b & E); [left; by exists b|]. right. injection E as -> E. by exists a, b.
  - intros [[b E]|(a & b & ->)]; [by exists "", b|by exists (String c a), b].
Qed.

(** Collecting what is found at each place finds every occurrence. *)
Lemma found_spec (here : string -> option string) (ok : string -> bool) (ph : string -> string) :
  (forall s n, here s = Some n <-> ok n = true /\ exists b, s = ph n +:+ b) -> (forall n, ph n <> "") ->
  forall s n, n ∈ (fix find s := match s with EmptyString => [] | String _ s' => match here s with Some n => n :: find s' | None => find s' end end) s
    <-> ok n = true /\ occurs (ph n) s.
Proof.
  intros Hh Hne. induction s as [|c s IH]; intros n.
  - rewrite elem_of_nil. split; [done|]. intros [_ ([|x a] & b & E)]; [|discriminate E]. destruct (Hne n). by destruct (ph n).
  - rewrite occurs_cons. destruct (here (String c s)) as [m|] eqn:Em.
    + destruct (proj1 (Hh _ _) Em) as [Hm [b Eb]]. rewrite elem_of_cons, IH. split.
      * intros [->|[? ?]]; [split; [done|left; by exists b]|by split; [|right]].
      * intros [Hn [Hb|?]]; [left|by right]. assert (here (String c s) = Some n) by (by apply Hh). congruence.
    + rewrite IH. split; [intros [? ?]; by split; [|right]|]. intros [Hn [Hb|?]]; [|done].
      assert (here (String c s) = Some n) by (by apply Hh). congruence.
Qed.

Lemma find_macros_spec s n : n ∈ find_macros s <-> name_ok n = true /\ occurs (slug n) s.
Proof. by apply (found_spec match_here name_ok slug match_here_spec). Qed.

(** The name of a variable of the environment, and its placeholder. *)
Definition env_name_ok (n : string) : bool := match n with String c n => env_start c && all_chars env_char n | EmptyString => false end.
Definition env_slug (n : string) : string := slug ("env." +:+ n).

Lemma env_here_spec s n : env_here s = Some n <-> env_name_ok n = true /\ exists b, s = env_slug n +:+ b.
Proof.
  unfold env_here. rewrite braced_spec by done.
  assert (forall b, env_slug n +:+ b = "${env." +:+ n +:+ String "}" b) as He.
  { intros b. unfold env_slug. rewrite slug_cons. by rewrite app_assoc'. }
  setoid_rewrite He. unfold env_name_ok. destruct n as [|c n]; [split; [by intros (_ & ? & _)|by intros [? _]]|].
  assert (env_start c = true -> env_char c = true) as Hc by (unfold env_char; by intros ->). cbn [all_chars].
  rewrite !andb_true_iff. tauto.
Qed.

Lemma find_env_spec s n : n ∈ find_env s <-> env_name_ok n = true /\ occurs (env_slug n) s.
Proof. by apply (found_spec env_here env_name_ok env_slug env_here_spec). Qed.

(** ** Expansion *)

(** What a macro stands for: a text, or another scalar. *)
Inductive meaning := Text (ts : list token) | Typed (c : scalar).

Section expansion.
Variable format : scalar -> string.
(** A float is printed without a dollar, and not as nothing. *)
Hypothesis format_float : forall c, format c <> "" /\ no_dollar (format c) = true.

Lemma format_plain c : show_scalar format c <> "" /\ no_dollar (show_scalar format c) = true.
Proof. destruct c as [z|[]|b| |k]; simpl; [apply pretty_Z_plain|done|done|apply format_float|done|apply format_float]. Qed.

Definition value_of (d : meaning) : value := match d with Text ts => VString (render ts) | Typed c => VScalar c end.
Definition tokens_of (d : meaning) : list token := match d with Text ts => ts | Typed c => [Lit (show_scalar format c)] end.

(** A reference alone has the meaning of its macro, its type included; inside a text it
    is replaced by the macro's text.  A reference to nothing is left. *)
Definition expand_token (env : gmap string meaning) (t : token) : list token :=
  match t with
  | Lit s => [Lit s]
  | Ref n => match env !! n with Some d => tokens_of d | None => [Ref n] end
  end.

Definition expand (env : gmap string meaning) (ts : list token) : meaning :=
  match ts with
  | [Ref n] => default (Text ts) (env !! n)
  | _ => Text (flat_map (expand_token env) ts)
  end.

Definition expand_meaning (env : gmap string meaning) (d : meaning) : meaning :=
  match d with Text ts => expand env ts | Typed c => Typed c end.

(** The macros in force: each is expanded with those declared before it. *)
Definition env_of (ms : list (string * meaning)) : gmap string meaning :=
  foldl (fun env m => <[m.1 := expand_meaning env m.2]> env) ∅ ms.

Definition meaning_ok (d : meaning) : Prop := match d with Text ts => ts <> [] /\ Forall token_ok ts | Typed _ => True end.
Definition macro_ok (m : string * meaning) : Prop := name_ok m.1 = true /\ meaning_ok m.2.

Definition declare (ms : list (string * meaning)) : MacroList := (fun m => mkMacro m.1 (value_of m.2)) <$> ms.

Definition put_token (m : string) (d : meaning) (t : token) : list token := if decide (t = Ref m) then tokens_of d else [t].

Lemma macro_text_tokens d : macro_text format (value_of d) = render (tokens_of d).
Proof. destruct d as [ts|c]; [done|]. simpl. by rewrite app_nil_r'. Qed.

Lemma render_put m d ts :
  foldr (fun t s => (if decide (t = Ref m) then render (tokens_of d) else render1 t) +:+ s) "" ts = render (flat_map (put_token m d) ts).
Proof.
  induction ts as [|t ts IH]; [done|]. cbn [foldr flat_map]. rewrite render_app, <- IH. f_equal. unfold put_token.
  destruct (decide (t = Ref m)); [done|]. simpl. by rewrite app_nil_r'.
Qed.

Lemma substitute_template m d ts : Forall token_ok ts -> name_ok m = true ->
  substituteMacroInValue format (VString (render ts)) m (value_of d) =
  if decide (ts = [Ref m]) then value_of d else VString (render (flat_map (put_token m d) ts)).
Proof.
  intros Hts Hm%name_ok_chars. simpl. pose proof (render_slug m ts Hts Hm) as Hr.
  pose proof (replace_template m (render (tokens_of d)) ts Hts Hm) as Ht. rewrite render_put in Ht.
  destruct (String.eqb_spec (render ts) (slug m)) as [E|Hne].
  - rewrite decide_True by (by apply Hr). done.
  - rewrite decide_False by (by intros ?%Hr). rewrite macro_text_tokens, <- Ht. unfold ReplaceAll.
    destruct (Contains _ _) eqn:Ec; [done|]. by rewrite replace_absent.
Qed.

Lemma put_token_ok m d t : meaning_ok d -> token_ok t -> put_token m d t <> [] /\ Forall token_ok (put_token m d t).
Proof.
  intros Hd Ht. unfold put_token. destruct (decide _); [|split; [done|by apply Forall_singleton]].
  destruct d as [ts|c]; [done|]. split; [done|]. apply Forall_singleton. apply format_plain.
Qed.

Lemma put_tokens_ok m d ts : meaning_ok d -> Forall token_ok ts -> Forall token_ok (flat_map (put_token m d) ts).
Proof.
  intros Hd. induction 1 as [|t ts Ht Hts IH]; [constructor|]. simpl. apply Forall_app. split; [by apply put_token_ok|done].
Qed.

Lemma put_tokens_length m d ts : meaning_ok d -> Forall token_ok ts -> (length ts <= length (flat_map (put_token m d) ts))%nat.
Proof.
  intros Hd. induction 1 as [|t ts Ht Hts IH]; [done|]. simpl. rewrite length_app.
  destruct (put_token_ok m d t Hd Ht) as [Hne _]. destruct (put_token m d t); [done|]. simpl. lia.
Qed.

Lemma expand_many env ts : (forall n, ts <> [Ref n]) -> expand env ts = Text (flat_map (expand_token env) ts).
Proof. intros H. destruct ts as [|[s|n] [|u ts]]; try done. by destruct (H n). Qed.

Lemma tokens_expand env d : tokens_of (expand_meaning env d) = flat_map (expand_token env) (tokens_of d).
Proof.
  destruct d as [ts|c]; [|done]. simpl. destruct ts as [|[s|n] [|u ts]]; try done. simpl. rewrite app_nil_r. by destruct (env !! n).
Qed.

(** Replacing the last macro first is looking it up in what was in force before it. *)
Lemma expand_put env m d ts : meaning_ok d -> Forall token_ok ts -> ts <> [Ref m] ->
  expand (<[m := expand_meaning env d]> env) ts = expand env (flat_map (put_token m d) ts).
Proof.
  intros Hd Hts Hne.
  assert (flat_map (expand_token (<[m := expand_meaning env d]> env)) ts = flat_map (expand_token env) (flat_map (put_token m d) ts)) as Hf.
  { induction ts as [|t ts IH]; [done|]. clear Hne. inversion Hts as [|? ? Ht Hts']; subst. simpl. rewrite flat_map_app.
    assert (flat_map (expand_token (<[m := expand_meaning env d]> env)) ts = flat_map (expand_token env) (flat_map (put_token m d) ts)) as <-.
    { destruct (decide (ts = [Ref m])) as [->|Hne]; [|by apply IH]. simpl. unfold put_token. rewrite decide_True by done.
      by rewrite lookup_insert_eq, !app_nil_r, tokens_expand. }
    f_equal. unfold put_token. destruct (decide (t = Ref m)) as [->|Hnt].
    - simpl. by rewrite lookup_insert_eq, tokens_expand.
    - destruct t as [s|n]; simpl; [done|]. rewrite lookup_insert_ne by congruence. by rewrite app_nil_r. }
  destruct ts as [|t1 [|t2 ts]]; [done| |].
  - destruct t1 as [s|n]; [done|]. assert (n <> m) by congruence. simpl. unfold put_token. rewrite decide_False by congruence.
    simpl. by rewrite lookup_insert_ne.
  - rewrite !expand_many; [by rewrite Hf| |by intros n]. intros n E.
    pose proof (put_tokens_length m d (t1 :: t2 :: ts) Hd Hts) as Hl. rewrite E in Hl. simpl in Hl. lia.
Qed.

Lemma substitute_scalar c ms : substituteMacroList format (VScalar c) ms = VScalar c.
Proof. unfold substituteMacroList. induction ms as [|m ms IH]; [done|]. simpl. by rewrite IH. Qed.

Lemma expand_string ms ts : Forall macro_ok ms -> Forall token_ok ts ->
  substituteMacroList format (VString (render ts)) (declare ms) = value_of (expand (env_of ms) ts).
Proof.
  revert ts. induction ms as [|[m d] ms IH] using rev_ind; intros ts Hms Hts.
  - assert (expand (env_of []) ts = Text ts) as ->; [|done]. unfold env_of. simpl.
    assert (flat_map (expand_token ∅) ts = ts) as E.
    { clear. induction ts as [|[s|n] ts IH]; [done|by simpl; rewrite IH|]. simpl. by rewrite lookup_empty, IH. }
    destruct ts as [|[s|n] [|u ts]]; cbn [expand]; rewrite ?lookup_empty; try (by rewrite E); done.
  - apply Forall_app in Hms as [Hms [[Hm Hd] _]%Forall_cons]. simpl in Hm, Hd. unfold declare, substituteMacroList, env_of.
    rewrite fmap_app, foldr_app, foldl_app. fold (env_of ms). cbn [fmap list_fmap foldr foldl Name Value fst snd].
    rewrite substitute_template by done. destruct (decide (ts = [Ref m])) as [->|Hne].
    + simpl. rewrite lookup_insert_eq. simpl. destruct d as [us|c]; [by apply IH; [|apply Hd]|].
      exact (substitute_scalar c (declare ms)).
    + rewrite expand_put by done. by apply IH; [|apply put_tokens_ok].
Qed.
(** Every string of a value, replaced by a value. *)
Fixpoint map_strings (f : string -> value) (v : value) : value :=
  match v with
  | VString s => f s
  | VScalar c => VScalar c
  | VList l => VList (map (map_strings f) l)
  | VMap m => VMap (map (fun kv => (kv.1, map_strings f kv.2)) m)
  end.

Lemma map_ext_Forall {A B} (f g : A -> B) l : Forall (fun x => f x = g x) l -> map f l = map g l.
Proof. induction 1 as [|x l Hx Hl IH]; [done|]. simpl. by rewrite Hx, IH. Qed.

Lemma substitute_map_strings f v m mv :
  substituteMacroInValue format (map_strings f v) m mv = map_strings (fun s => substituteMacroInValue format (f s) m mv) v.
Proof.
  induction v as [s|c|l IH|l IH]; [done|done| |]; simpl; rewrite map_map; f_equal; apply map_ext_Forall.
  - exact IH.
  - eapply Forall_impl; [exact IH|]. simpl. by intros [k x] ->.
Qed.

Lemma substitute_list_strings v ms :
  substituteMacroList format v ms = map_strings (fun s => substituteMacroList format (VString s) ms) v.
Proof.
  unfold substituteMacroList. induction ms as [|m ms IH]; simpl.
  - induction v as [s|c|l IHl|l IHl]; [done|done| |]; simpl; f_equal; symmetry.
    + rewrite <- (map_id l) at 2. apply map_ext_Forall. eapply Forall_impl; [exact IHl|]. by intros x <-.
    + rewrite <- (map_id l) at 2. apply map_ext_Forall. eapply Forall_impl; [exact IHl|]. simpl. by intros [k x] <-.
  - rewrite IH. apply substitute_map_strings.
Qed.

(** Substituting a list of macros, the last one first, is expanding: each macro is
    expanded with the macros declared before it, a string that is one reference takes
    the meaning and the type of its macro, references inside a text are replaced by
    texts, and references to nothing in force stay; and a tree is substituted string
    by string. *)
Theorem substitution_is_expansion ms : Forall macro_ok ms ->
  (forall ts, Forall token_ok ts -> substituteMacroList format (VString (render ts)) (declare ms) = value_of (expand (env_of ms) ts)) /\
  forall v, substituteMacroList format v (declare ms) = map_strings (fun s => substituteMacroList format (VString s) (declare ms)) v.
Proof. intros Hms. split; [intros ts; by apply expand_string|intros v; apply substitute_list_strings]. Qed.
End expansion.

Lemma substitution_is_expansion_witness :
  substituteMacroList (fun _ => "x") (VString "${cmd} ${none}") (declare [("port", Typed (SInt 80)); ("cmd", Text [Lit "run "; Ref "port"])]) =
    VString "run 80 ${none}" /\
  value_of (expand (fun _ => "x") (env_of (fun _ => "x") [("port", Typed (SInt 80)); ("cmd", Text [Lit "run "; Ref "port"])]) [Ref "cmd"; Lit " "; Ref "none"]) =
    VString "run 80 ${none}".
Proof.
  assert (Forall macro_ok [("port", Typed (SInt 80)); ("cmd", Text [Lit "run "; Ref "port"])]) as Hms.
  { repeat constructor; discriminate. }
  rewrite <- (proj1 (substitution_is_expansion (fun _ => "x") (fun c => conj (fun e => eq_ind "x" (fun s => match s with "" => False | _ => True end) I "" e) eq_refl) _ Hms)
    [Ref "cmd"; Lit " "; Ref "none"]); [split; vm_compute; reflexivity|].
  repeat constructor; discriminate.
Defined.
End MacroSpec.

(** ** The resolution of a configuration (Macros.v): what an accepted one still holds, the
    ports it hands out, and the macros of a model. *)

Module MacroResolve.
Import Macros MacroSpec.
Open Scope string_scope.
Open Scope list_scope.
Open Scope Z_scope.

(** ** The check of the uses *)

Fixpoint strings_of (v : value) : list string :=
  match v with
  | VString s => [s]
  | VScalar _ => []
  | VList l => flat_map strings_of l
  | VMap m => flat_map (fun kv => strings_of kv.2) m
  end.

(** No placeholder is left in a string, [${PID}] excepted where that is allowed. *)
Definition closed (pid : bool) (s : string) : Prop :=
  (forall n, name_ok n = true -> occurs (slug n) s -> pid = true /\ n = "PID") /\
  forall n, env_name_ok n = true -> ~ occurs (env_slug n) s.

Lemma first_error_none {A E} (f : A -> option E) l : first_error f l = None <-> Forall (fun x => f x = None) l.
Proof.
  induction l as [|x l IH]; simpl; [split; [constructor|done]|]. rewrite Forall_cons, <- IH. destruct (f x); naive_solver.
Qed.

Lemma first_error_at_none {A E} (f : nat -> A -> option E) i l :
  first_error_at f i l = None <-> forall j x, l !! j = Some x -> f (i + j)%nat x = None.
Proof.
  revert i. induction l as [|x l IH]; intros i; simpl; [split; [intros _ j x; by rewrite lookup_nil|done]|].
  destruct (f i x) eqn:Hfx; [split; [done|]; intros H; specialize (H 0%nat x eq_refl); rewrite Nat.add_0_r in H; congruence|].
  rewrite IH. split.
  - intros H [|j] y; simpl; [intros [= <-]; by rewrite Nat.add_0_r|]. intros Hj. rewrite <- Nat.add_succ_comm. by apply H.
  - intros H j y Hj. rewrite Nat.add_succ_comm. by apply (H (S j)).
Qed.

Lemma find_env_none s : head (find_env s) = None <-> forall n, env_name_ok n = true -> ~ occurs (env_slug n) s.
Proof.
  split.
  - intros Hh n Hn Ho. assert (n ∈ find_env s) as Hin by (by apply find_env_spec). destruct (find_env s); [by apply elem_of_nil in Hin|done].
  - intros H. destruct (find_env s) as [|n l] eqn:E; [done|]. assert (n ∈ find_env s) as [Hn Ho]%find_env_spec by (rewrite E; by left).
    by destruct (H n Hn).
Qed.

Lemma closed_spec pid s path id field : validateMacroUses (VString s) path id field pid = None <-> closed pid s.
Proof.
  cbn [validateMacroUses]. set (f := fun n => if String.eqb n "PID" && pid then None else Some (UnknownMacro path id field n)).
  pose proof (first_error_none f (find_macros s)) as Hf. unfold closed.
  assert (Forall (fun n => f n = None) (find_macros s) <-> forall n, name_ok n = true -> occurs (slug n) s -> pid = true /\ n = "PID") as Hi.
  { rewrite Forall_forall. setoid_rewrite find_macros_spec. unfold f. split.
    - intros H n Hn Ho. specialize (H n (conj Hn Ho)). destruct (String.eqb_spec n "PID"), pid; done.
    - intros H n [Hn Ho]. destruct (H n Hn Ho) as [-> ->]. done. }
  rewrite <- Hi, <- find_env_none. destruct (first_error f (find_macros s)); [split; [done|]; by intros [?%Hf _]|].
  destruct (head (find_env s)); simpl; [split; [done|]; by intros [_ ?]|]. split; [|done]. intros _. split; [by apply Hf|done].
Qed.

Lemma elem_flat_map {A B} (f : A -> list B) l y : y ∈ flat_map f l <-> exists x, x ∈ l /\ y ∈ f x.
Proof. rewrite list_elem_of_In, in_flat_map. by setoid_rewrite list_elem_of_In. Qed.

Lemma validateMacroUses_none v path id field pid :
  validateMacroUses v path id field pid = None <-> forall s, s ∈ strings_of v -> closed pid s.
Proof.
  revert path field. induction v as [s|c|l IH|m IH]; intros path field.
  - rewrite closed_spec. simpl. split; [by intros H s' ->%list_elem_of_singleton|]. intros H. apply H. by left.
  - split; [|done]. intros _ s Hs. by apply elem_of_nil in Hs.
  - cbn [validateMacroUses strings_of]. rewrite first_error_at_none. rewrite Forall_forall in IH. setoid_rewrite elem_flat_map. split.
    + intros H s (x & Hx & Hs). destruct (proj1 (list_elem_of_lookup _ _) Hx) as [j Hj].
      exact (proj1 (IH x Hx _ _) (H j x Hj) s Hs).
    + intros H j x Hj. assert (x ∈ l) as Hx by (by eapply list_elem_of_lookup_2). apply (IH x Hx). intros s Hs. apply H. by exists x.
  - cbn [validateMacroUses strings_of]. rewrite first_error_none, Forall_forall. rewrite Forall_forall in IH. setoid_rewrite elem_flat_map. split.
    + intros H s (x & Hx & Hs). exact (proj1 (IH x Hx _ _) (H x Hx) s Hs).
    + intros H x Hx. apply (IH x Hx). intros s Hs. apply H. by exists x.
Qed.

(** ** Entries of a map *)

Lemma aget_aset k k' v m : aget k (aset k' v m) = if String.eqb k' k then Some v else aget k m.
Proof.
  unfold aget. induction m as [|[k0 v0] m IH]; simpl.
  - by destruct (String.eqb_spec k' k).
  - destruct (String.eqb_spec k0 k') as [->|Hne]; simpl; [by destruct (String.eqb_spec k' k)|].
    destruct (String.eqb_spec k0 k) as [->|Hk]; [by destruct (String.eqb_spec k' k)|exact IH].
Qed.

Lemma aset_elem k v m k' v' : (k', v') ∈ aset k v m -> (k', v') = (k, v) \/ (k', v') ∈ m.
Proof.
  induction m as [|[k0 v0] m IH]; simpl; [intros ?%list_elem_of_singleton; by left|].
  destruct (String.eqb k0 k).
  - intros [?|?]%elem_of_cons; [by left|right; by right].
  - intros [->|[?|?]%IH]%elem_of_cons; [right; by left|by left|right; by right].
Qed.

Section resolve.
Variable format : scalar -> string.
Variable decode_start : list (string * value) -> option Z.

(** ** One model *)

(** What becomes of one model at the port [p]. *)
Definition resolves (d : configMacroConfig) (id : string) (p : Z) (before after : list (string * value)) : Prop :=
  exists expanded, expand_model format id (mergeModelMacros id (Macros_ d) (model_macros d id)) before = Ok expanded /\
    (if uses_port "cmd" expanded then expand_model format id [mkMacro "PORT" (VScalar (SInt p))] expanded = Ok after
     else after = expanded /\ uses_port "proxy" expanded = false) /\
    validateSetParamsByIDKeys after id = None.

(** The command of the model asks for a port. *)
Definition wants_port (d : configMacroConfig) (id : string) (before : list (string * value)) : Prop :=
  exists expanded, expand_model format id (mergeModelMacros id (Macros_ d) (model_macros d id)) before = Ok expanded /\
    uses_port "cmd" expanded = true.

Lemma resolve_model_spec d id before p after p' :
  resolve_model format d id before p = Ok (after, p') ->
  resolves d id p before after /\ ((wants_port d id before /\ p' = i64 (p + 1)) \/ (~ wants_port d id before /\ p' = p)).
Proof.
  unfold resolve_model, resolves, wants_port. destruct (expand_model _ _ _ before) as [m|e]; [|done]. simpl.
  destruct (uses_port "cmd" m) eqn:Ec; simpl.
  - destruct (expand_model _ _ _ m) as [m'|e] eqn:Ee; [|done]. simpl. destruct (validateSetParamsByIDKeys m' id) eqn:Ev; [done|].
    intros [= <- <-]. split; [exists m; by rewrite Ec|]. left. split; [by exists m|done].
  - destruct (uses_port "proxy" m) eqn:Ep; simpl; [done|]. destruct (validateSetParamsByIDKeys m id) eqn:Ev; [done|].
    intros [= <- <-]. split; [exists m; rewrite Ec; by split_and!|]. right. split; [|done]. by intros (m' & [= <-] & ?); congruence.
Qed.

(** ** All models, in the order of their names *)

Lemma resolve_models_spec d ids models p models' :
  NoDup ids -> 1 <= p -> p + Z.of_nat (length ids) < 2 ^ 63 -> resolve_models format d ids models p = Ok models' ->
  exists port : string -> Z,
    (forall id before, id ∈ ids -> aget id models = Some (VMap before) ->
       exists after, aget id models' = Some (VMap after) /\ resolves d id (port id) before after) /\
    (forall id, ~ (id ∈ ids /\ exists before, aget id models = Some (VMap before)) -> aget id models' = aget id models) /\
    (forall id before, id ∈ ids -> aget id models = Some (VMap before) -> p <= port id < p + Z.of_nat (length ids)) /\
    (forall id1 id2 b1 b2, id1 ∈ ids -> id2 ∈ ids -> aget id1 models = Some (VMap b1) -> aget id2 models = Some (VMap b2) ->
       wants_port d id1 b1 -> wants_port d id2 b2 -> port id1 = port id2 -> id1 = id2).
Proof.
  revert models p. induction ids as [|id ids IH]; intros models p Hnd Hp Hb; simpl.
  { intros [= <-]. exists (fun _ => p). split_and!; [by intros ? ? ?%elem_of_nil|done|by intros ? ? ?%elem_of_nil|by intros ? ? ? ? ?%elem_of_nil]. }
  apply NoDup_cons in Hnd as [Hni Hnd].
  destruct (aget id models) as [[s|c|l|before]|] eqn:Eid.
  4:{ destruct (resolve_model format d id before p) as [[after p']|e] eqn:Er; [|done]. simpl. intros Hm.
      apply resolve_model_spec in Er as [Hres Hport].
      assert (p <= p' <= p + 1) as Hp'.
      { destruct Hport as [[_ ->]|[_ ->]]; [|lia]. simpl in Hb. rewrite i64_id; [lia|]. unfold min_int64, max_int64. lia. }
      simpl in Hb. destruct (IH _ p' Hnd ltac:(lia) ltac:(lia) Hm) as (port & H1 & H2 & H3 & H4).
      assert (forall i, i ∈ ids -> aget i (aset id (VMap after) models) = aget i models) as Hsame.
      { intros i Hi. rewrite aget_aset. destruct (String.eqb_spec id i) as [->|_]; [done|done]. }
      exists (fun i => if String.eqb i id then p else port i). split_and!.
      - intros i b [->|Hi]%elem_of_cons Hb'.
        + rewrite String.eqb_refl. exists after. split; [|congruence]. rewrite H2; [|by intros [? _]]. by rewrite aget_aset, String.eqb_refl.
        + destruct (String.eqb_spec i id) as [->|Hne]; [done|]. apply H1; [done|by rewrite Hsame].
      - intros i Hn. rewrite H2.
        + rewrite aget_aset. destruct (String.eqb_spec id i) as [<-|_]; [|done]. destruct Hn. split; [by left|by exists before].
        + intros [Hi [b Hb']]. apply Hn. split; [by right|]. exists b. by rewrite <- Hsame.
      - intros i b [->|Hi]%elem_of_cons Hb'; [rewrite String.eqb_refl; lia|]. destruct (String.eqb_spec i id) as [->|_]; [lia|].
        specialize (H3 i b Hi ltac:(by rewrite Hsame)). lia.
      - intros i1 i2 b1 b2 Hi1 Hi2 Hb1 Hb2 Hw1 Hw2.
        assert (forall i b, i ∈ ids -> aget i models = Some (VMap b) -> wants_port d id before -> p + 1 <= port i) as Hlater.
        { intros i b Hi Hb' Hw. specialize (H3 i b Hi ltac:(by rewrite Hsame)). destruct Hport as [[_ E]|[Hn _]]; [|done].
          rewrite i64_id in E; [lia|]. unfold min_int64, max_int64. lia. }
        apply elem_of_cons in Hi1, Hi2. destruct Hi1 as [->|Hi1], Hi2 as [->|Hi2]; rewrite ?String.eqb_refl.
        + done.
        + destruct (String.eqb_spec i2 id) as [->|_]; [done|]. intros E. assert (b1 = before) as -> by congruence.
          specialize (Hlater i2 b2 Hi2 Hb2 Hw1). lia.
        + destruct (String.eqb_spec i1 id) as [->|_]; [done|]. intros E. assert (b2 = before) as -> by congruence.
          specialize (Hlater i1 b1 Hi1 Hb1 Hw2). lia.
        + destruct (String.eqb_spec i1 id) as [->|_]; [done|]. destruct (String.eqb_spec i2 id) as [->|_]; [done|]. intros E.
          apply (H4 i1 i2 b1 b2 Hi1 Hi2); [by rewrite Hsame|by rewrite Hsame|done|done|done]. }
  all: intros Hm; simpl in Hb; destruct (IH _ p Hnd Hp ltac:(lia) Hm) as (port & H1 & H2 & H3 & H4); exists port; split_and!.
  all: try (intros i b [->|Hi]%elem_of_cons Hb'; [congruence|]; first [by apply H1|specialize (H3 i b Hi Hb'); lia]).
  all: try (intros i Hn; apply H2; intros [Hi ?]; apply Hn; split; [by right|done]).
  all: intros i1 i2 b1 b2 [->|Hi1]%elem_of_cons [->|Hi2]%elem_of_cons Hb1 Hb2; first [congruence|by eapply H4].
Qed.

(** ** The whole configuration *)

(** The models as the loop over them finds them. *)
Definition prepared (raw : list (string * value)) : list (string * value) :=
  map (fun kv => (kv.1, prepare_model kv.2)) (default [] (as_map (aget "models" (adelete "macros" raw)))).

Lemma resolve_inv d raw out :
  resolveConfigMacros format decode_start d raw = Ok out ->
  exists start models, decode_start (global_pass format d (adelete "macros" raw)) = Some start /\ 1 <= start /\
    resolve_models format d (sort_strings (prepared raw).*1) (prepared raw) start = Ok models /\
    out = aset "models" (VMap models) (global_pass format d (adelete "macros" raw)) /\ validateConfigMacroUses out = None.
Proof.
  unfold resolveConfigMacros. destruct (validate_declarations d); [done|]. fold (prepared raw). unfold rawStartPort.
  destruct (decode_start _) as [start|]; [|done]. destruct (start <? 1) eqn:Es; [done|]. simpl.
  destruct (resolve_models _ _ _ _ _) as [models|e] eqn:Em; [|done]. simpl.
  destruct (validateConfigMacroUses _) eqn:Ev; [done|]. intros [= <-]. exists start, models. split_and!; try done. lia.
Qed.

Lemma uses_closed raw : validateConfigMacroUses raw = None ->
  (forall k v s, (k, v) ∈ raw -> k ∈ knownFields -> k <> "models" -> s ∈ strings_of v -> closed false s) /\
  (forall models id model field v s, ("models", VMap models) ∈ raw -> (id, VMap model) ∈ models -> (field, v) ∈ model ->
     s ∈ strings_of v -> closed (String.eqb field "cmdStop") s).
Proof.
  unfold validateConfigMacroUses. rewrite first_error_none, Forall_forall. intros H. split.
  - intros k v s Hin Hk Hne Hs. specialize (H (k, v) Hin). cbn [fst snd] in H. rewrite bool_decide_true in H by done. cbn [negb] in H.
    destruct (String.eqb_spec k "models"); [done|]. cbn [negb] in H. by eapply validateMacroUses_none.
  - intros models id model field v s Hin Hid Hf Hs. specialize (H ("models", VMap models) Hin). cbn [fst snd] in H.
    rewrite bool_decide_true in H by (apply (bool_decide_unpack _); vm_compute; exact I). cbn [negb String.eqb] in H. simpl in H.
    pose proof (proj1 (Forall_forall _ _) (proj1 (first_error_none _ _) H) (id, VMap model) Hid) as H1. simpl in H1.
    pose proof (proj1 (Forall_forall _ _) (proj1 (first_error_none _ _) H1) (field, v) Hf) as H2. cbn [fst snd] in H2.
    by eapply validateMacroUses_none.
Qed.

(** C28. A configuration that is accepted holds no macro any more: no string of a known
    field has a placeholder of a macro or of an environment variable, except [${PID}]
    in the command that stops a model. *)
Theorem resolved_closed d raw out :
  resolveConfigMacros format decode_start d raw = Ok out ->
  (forall k v s, (k, v) ∈ out -> k ∈ knownFields -> k <> "models" -> s ∈ strings_of v -> closed false s) /\
  (forall models id model field v s, ("models", VMap models) ∈ out -> (id, VMap model) ∈ models -> (field, v) ∈ model ->
     s ∈ strings_of v -> closed (String.eqb field "cmdStop") s).
Proof. intros (start & models & _ & _ & _ & _ & Hv)%resolve_inv. by apply uses_closed. Qed.

Lemma aget_elem k v m : NoDup m.*1 -> (k, v) ∈ m <-> aget k m = Some v.
Proof.
  unfold aget. induction m as [|[k0 v0] m IH]; [intros _; simpl; rewrite elem_of_nil; done|].
  intros [Hni Hnd]%NoDup_cons. rewrite elem_of_cons. simpl. destruct (String.eqb_spec k0 k) as [->|Hne].
  - simpl. split; [|by intros [= ->]; left]. intros [[= ->]|Hin]; [done|]. destruct Hni. apply list_elem_of_fmap. by exists (k, v).
  - rewrite <- IH by done. split; [|by right]. intros [[= -> _]|?]; done.
Qed.

(** In an accepted configuration every model was expanded with its own macros over
    the global ones, and with a port of its own if its command asks for one: ports
    count up from the first one in the order of the names, and no two models that ask
    get the same. *)
Theorem resolved_ports d raw out start :
  resolveConfigMacros format decode_start d raw = Ok out ->
  decode_start (global_pass format d (adelete "macros" raw)) = Some start ->
  NoDup (prepared raw).*1 -> start + Z.of_nat (length (prepared raw)) < 2 ^ 63 ->
  exists (models : list (string * value)) (port : string -> Z), aget "models" out = Some (VMap models) /\
    (forall id before, (id, VMap before) ∈ prepared raw -> start <= port id < start + Z.of_nat (length (prepared raw)) /\
       exists after, aget id models = Some (VMap after) /\ resolves d id (port id) before after) /\
    (forall id1 id2 b1 b2, (id1, VMap b1) ∈ prepared raw -> (id2, VMap b2) ∈ prepared raw ->
       wants_port d id1 b1 -> wants_port d id2 b2 -> port id1 = port id2 -> id1 = id2).
Proof.
  intros (start' & models & Hs & H1 & Hm & -> & _)%resolve_inv Hs' Hnd Hb. rewrite Hs in Hs'. injection Hs' as ->.
  assert (length (sort_strings (prepared raw).*1) = length (prepared raw)) as Hl by (by rewrite sort_strings_perm, length_fmap).
  destruct (resolve_models_spec d (sort_strings (prepared raw).*1) (prepared raw) start models) as (port & Ha & _ & Hr & Hi);
    [by apply sort_strings_NoDup|done|by rewrite Hl|done|].
  assert (forall id b, (id, VMap b) ∈ prepared raw -> id ∈ sort_strings (prepared raw).*1 /\ aget id (prepared raw) = Some (VMap b)) as Hin.
  { intros id b Hb'. split; [|by apply aget_elem]. apply sort_strings_elem, list_elem_of_fmap. by exists (id, VMap b). }
  exists models, port. split_and!.
  - by rewrite aget_aset.
  - intros id b [Hin1 Hin2]%Hin. split; [rewrite <- Hl; by eapply Hr|by apply Ha].
  - intros id1 id2 b1 b2 [Hi1 Hb1]%Hin [Hi2 Hb2]%Hin. by apply (Hi id1 id2 b1 b2).
Qed.
End resolve.

(** ** The macros of a model *)

Definition Get (ml : MacroList) (name : string) : option value := Value <$> List.find (fun e => String.eqb (Name e) name) ml.

Lemma get_overlay ml e n : Get (overlay ml e) n = if String.eqb (Name e) n then Some (Value e) else Get ml n.
Proof.
  unfold Get. induction ml as [|x ml IH]; simpl; [by destruct (String.eqb (Name e) n)|].
  destruct (String.eqb_spec (Name x) (Name e)) as [E|Hne]; simpl.
  - rewrite E. by destruct (String.eqb (Name e) n).
  - destruct (String.eqb_spec (Name x) n) as [<-|Hx]; [|exact IH]. by destruct (String.eqb_spec (Name e) (Name x)).
Qed.

(** A macro of the model wins, the last one of a name; then the global one; and
    [MODEL_ID] is the model. *)
Lemma merged_get id global model n :
  Get (mergeModelMacros id global model) n =
  match Get (rev model) n with
  | Some v => Some v
  | None => if String.eqb "MODEL_ID" n then Some (VString id) else Get global n
  end.
Proof.
  assert (forall l1 l2, Get (l1 ++ l2) n = match Get l1 n with Some v => Some v | None => Get l2 n end) as Happ.
  { intros l1 l2. unfold Get. induction l1 as [|x l1 IH1]; simpl; [done|]. by destruct (String.eqb (Name x) n). }
  assert (forall base, Get (foldl overlay base model) n = match Get (rev model) n with Some v => Some v | None => Get base n end) as H.
  { induction model as [|e model IH]; intros base; [done|]. simpl. rewrite IH, get_overlay, Happ.
    destruct (Get (rev model) n); [done|]. unfold Get at 2. simpl. by destruct (String.eqb (Name e) n). }
  unfold mergeModelMacros. rewrite H. destruct (Get (rev model) n); [done|]. unfold Get. cbn [List.find Name]. by destruct (String.eqb "MODEL_ID" n).
Qed.

(** An override keeps the place of the global macro, so it cannot use a macro that the
    model declares before it: the same two declarations are resolved without the
    global one, and refused with it. *)
Definition own_macros : MacroList := [mkMacro "size" (VScalar (SInt 4096)); mkMacro "args" (VString "--ctx ${size}")].
Definition one_model (macros global : MacroList) : configMacroConfig := mkDeclarations global [("m", macros)].
Definition one_raw : list (string * value) := [("models", VMap [("m", VMap [("cmd", VString "serve ${args}"); ("proxy", VString "x")])])].
Definition plain_format (_ : scalar) : string := "x".
Definition start_at (_ : list (string * value)) : option Z := Some 5800.

Lemma override_loses_order :
  resolveConfigMacros plain_format start_at (one_model own_macros []) one_raw =
    Ok [("models", VMap [("m", VMap [("cmd", VString "serve --ctx 4096"); ("proxy", VString "x")])])] /\
  resolveConfigMacros plain_format start_at (one_model own_macros [mkMacro "args" (VString "--small")]) one_raw =
    Err (UnknownMacro "models.m.cmd" "m" "cmd" "size").
Proof. split; vm_compute; reflexivity. Qed.

(** ** Witnesses *)

Definition two_raw : list (string * value) :=
  [("logLevel", VString "${lv}"); ("models", VMap [("b", VMap [("cmd", VString "b ${PORT} ${MODEL_ID}"); ("cmdStop", VString "kill ${PID}")]);
    ("a", VMap [("cmd", VString "a --port ${PORT}")])])].
Definition two_declarations : configMacroConfig := mkDeclarations [mkMacro "lv" (VString "info")] [].
Definition two_out : list (string * value) :=
  [("logLevel", VString "info"); ("models", VMap [("b", VMap [("cmd", VString "b 5801 b"); ("cmdStop", VString "kill ${PID}"); ("proxy", VString "http://localhost:5801")]);
    ("a", VMap [("cmd", VString "a --port 5800"); ("proxy", VString "http://localhost:5800")])])].

Lemma resolved_closed_witness :
  resolveConfigMacros plain_format start_at two_declarations two_raw = Ok two_out /\ closed true "kill ${PID}" /\ closed false "a --port 5800".
Proof.
  assert (resolveConfigMacros plain_format start_at two_declarations two_raw = Ok two_out) as H by (vm_compute; reflexivity).
  split; [exact H|]. pose proof (proj2 (resolved_closed plain_format start_at two_declarations two_raw two_out H)) as Hc. split.
  - eapply (Hc _ "b" _ "cmdStop" (VString "kill ${PID}")); [right; left|left|right; left|left].
  - eapply (Hc _ "a" _ "cmd" (VString "a --port 5800")); [right; left|right; left|left|left].
Defined.

Lemma resolved_ports_witness :
  exists (models : list (string * value)) (port : string -> Z), aget "models" two_out = Some (VMap models) /\ port "a" <> port "b".
Proof.
  assert (resolveConfigMacros plain_format start_at two_declarations two_raw = Ok two_out) as H by (vm_compute; reflexivity).
  destruct (resolved_ports plain_format start_at two_declarations two_raw two_out 5800 H eq_refl) as (models & port & Hm & _ & Hi).
  - apply (bool_decide_unpack _). vm_compute. exact I.
  - vm_compute. reflexivity.
  - exists models, port. split; [exact Hm|]. intros E.
    discriminate (Hi "a" "b" _ _ (list_elem_of_further _ _ _ (list_elem_of_here _ _)) (list_elem_of_here _ _)
      (ex_intro _ _ (conj eq_refl eq_refl)) (ex_intro _ _ (conj eq_refl eq_refl)) E).
Defined.
End MacroResolve.
