(* ===== verification/ConfigMerge.v ===== *)
(** Merging configuration files ([internal/config/merge.go]): the nodes of a YAML
    document, the merge of two documents, and what the merge of many keeps. *)

From S2P Require Import Prelude.

Module ConfigMerge.
Open Scope string_scope.
Open Scope list_scope.

(** [yaml.Node], less what is only displayed: a mapping holds its keys and values in
    turn.  [NoKind] is the zero value. *)
Inductive kind := NoKind | Document | Sequence | Mapping | Scalar | Alias.

#[export] Instance kind_eq_dec : EqDecision kind.
Proof. solve_decision. Defined.

Unset Elimination Schemes.

Inductive node := Node (k : kind) (tag value : string) (content : list node).

Set Elimination Schemes.

Definition node_ind (P : node -> Prop) (H : forall k tag value content, Forall P content -> P (Node k tag value content)) : forall n, P n :=
  fix F n := match n with
  | Node k tag value content =>
    H k tag value content ((fix G l := match l return Forall P l with [] => Forall_nil_2 P | x :: l => Forall_cons_2 P x l (F x) (G l) end) content)
  end.

Definition Kind (n : node) : kind := match n with Node k _ _ _ => k end.
Definition Tag (n : node) : string := match n with Node _ t _ _ => t end.
Definition Value (n : node) : string := match n with Node _ _ v _ => v end.
Definition Content (n : node) : list node := match n with Node _ _ _ c => c end.

Definition identityMapPaths : list string :=
  ["models"; "groups"; "profiles"; "selectors"; "peers"; "matrix"; "routing.router.settings.groups"; "routing.router.settings.matrix"].

Definition joinPath (parent key : string) : string := if String.eqb parent "" then key else parent +:+ "." +:+ key.

(** Keys and values of a mapping; a key is the value of its node. *)
Fixpoint pairs (c : list node) : list (node * node) :=
  match c with k :: v :: c => (k, v) :: pairs c | _ => [] end.

(** The last value of a key. *)
Definition lookup_key (key : string) (c : list node) : option node :=
  snd <$> List.find (fun kv => String.eqb (Value kv.1) key) (rev (pairs c)).

Inductive merge_error :=
| Differs (path src : string)
| NotAMapping (path src : string)
| DuplicateEntity (mapName key src : string)
| IncompatibleKinds (path src : string) (k k' : kind).

Definition isNullScalar (n : node) : bool :=
  bool_decide (Kind n = Scalar) && (String.eqb (Tag n) "!!null" || String.eqb (Tag n) "") && String.eqb (Value n) "".

Definition isNull (n : node) : bool := bool_decide (Kind n = NoKind) || isNullScalar n.

(** The entries of [src] that [dst] does not have, in their order. *)
Definition src_only (dst src : list node) : list node :=
  flat_map (fun kv => if lookup_key (Value kv.1) dst then [] else [kv.1; kv.2]) (pairs src).

Section source.
(** The file that [src] was read from. *)
Variable srcPath : string.

Definition mergeIdentityMap (dst src : node) (path mapName : string) : result merge_error node :=
  match dst with
  | Node Mapping tag value c =>
    if bool_decide (Kind src = Mapping) then
      match List.find (fun kv => match lookup_key (Value kv.1) c with Some _ => true | None => false end) (pairs (Content src)) with
      | Some kv => Err (DuplicateEntity mapName (Value kv.1) srcPath)
      | None => Ok (Node Mapping tag value (c ++ flat_map (fun kv => [kv.1; kv.2]) (pairs (Content src))))
      end
    else Err (NotAMapping path srcPath)
  | _ => Err (NotAMapping path srcPath)
  end.

(** The first pass of [mergeNodes] over the entries of [dst]. *)
Fixpoint shared_pass (merge : node -> node -> string -> result merge_error node) (src : list node) (path : string) (c : list node) :
  result merge_error (list node) :=
  match c with
  | k :: v :: c =>
    let child := joinPath path (Value k) in
    rbind (match lookup_key (Value k) src with
           | None => Ok v
           | Some sv => if bool_decide (child ∈ identityMapPaths) then mergeIdentityMap v sv child (Value k) else merge v sv child
           end) (fun v =>
    rbind (shared_pass merge src path c) (fun c => Ok (k :: v :: c)))
  | c => Ok c
  end.

Fixpoint mergeValue (dst src : node) (path : string) : result merge_error node :=
  match dst with
  | Node kd td vd cd =>
    match kd, Kind src with
    | Mapping, Mapping =>
      rbind (shared_pass mergeValue (Content src) path cd) (fun c => Ok (Node kd td vd (c ++ src_only c (Content src))))
    | Sequence, Sequence => Ok (Node kd td vd (cd ++ Content src))
    | Scalar, Scalar =>
      if isNullScalar dst then Ok src
      else if isNullScalar src then Ok dst
      else if String.eqb vd (Value src) && String.eqb td (Tag src) then Ok dst
      else Err (Differs path srcPath)
    | _, _ =>
      if isNull dst then Ok src
      else if isNull src then Ok dst
      else Err (IncompatibleKinds path srcPath kd (Kind src))
    end
  end.

(** For two mappings, as [parseSource] makes sure. *)
Definition mergeNodes (dst src : node) (path : string) : result merge_error node :=
  rbind (shared_pass mergeValue (Content src) path (Content dst)) (fun c =>
  Ok (Node (Kind dst) (Tag dst) (Value dst) (c ++ src_only c (Content src)))).
End source.

(** The loop of [LoadConfigSources]; a file without content is [None]. *)
Fixpoint merge_sources (merged : option node) (sources : list (string * option node)) : result merge_error (option node) :=
  match sources with
  | [] => Ok merged
  | (_, None) :: sources => merge_sources merged sources
  | (path, Some n) :: sources =>
    match merged with
    | None => merge_sources (Some n) sources
    | Some m => rbind (mergeNodes path m n "") (fun m => merge_sources (Some m) sources)
    end
  end.
End ConfigMerge.

(** ** What a merge of configuration files keeps (ConfigMerge.v): everything each file
    says, nothing else, and each entity from one file. *)

Module MergeSpec.
Import ConfigMerge.
Open Scope string_scope.
Open Scope list_scope.

(** ** Entries *)

Definition flat (l : list (node * node)) : list node := flat_map (fun kv => [kv.1; kv.2]) l.
Definition keys (c : list node) : list string := (fun kv => Value kv.1) <$> pairs c.

Lemma pairs_flat l : pairs (flat l) = l.
Proof. induction l as [|[k v] l IH]; [done|]. simpl. by rewrite IH. Qed.

Lemma flat_app l l' : flat l ++ flat l' = flat (l ++ l').
Proof. unfold flat. by rewrite flat_map_app. Qed.

Lemma find_some {A} (f : A -> bool) l x : List.find f l = Some x -> x ∈ l /\ f x = true.
Proof. intros [H ?]%List.find_some. by apply list_elem_of_In in H. Qed.

Lemma find_none {A} (f : A -> bool) l : List.find f l = None -> forall x, x ∈ l -> f x = false.
Proof. intros H x Hx%list_elem_of_In. by eapply List.find_none. Qed.

Lemma lookup_key_some key c v : lookup_key key c = Some v -> exists k, (k, v) ∈ pairs c /\ Value k = key.
Proof.
  unfold lookup_key. destruct (List.find _ _) as [[k v']|] eqn:E; [|done]. simpl. intros [= <-].
  apply find_some in E as [Hin E%String.eqb_eq]. exists k. split; [|done]. by apply list_elem_of_In, in_rev, list_elem_of_In.
Qed.

Lemma lookup_key_none key c : lookup_key key c = None <-> key ∉ keys c.
Proof.
  unfold lookup_key, keys. rewrite list_elem_of_fmap. destruct (List.find _ _) as [[k v]|] eqn:E; simpl.
  - split; [done|]. intros []. apply find_some in E as [Hin E%String.eqb_eq]. exists (k, v). split; [done|].
    by apply list_elem_of_In, in_rev, list_elem_of_In.
  - split; [|done]. intros _ ([k v] & -> & Hin). pose proof (find_none _ _ E (k, v)) as H. simpl in H. rewrite String.eqb_refl in H.
    discriminate H. by apply list_elem_of_In, in_rev; rewrite rev_involutive; apply list_elem_of_In.
Qed.

Lemma lookup_key_unique c k v : NoDup (keys c) -> (k, v) ∈ pairs c -> lookup_key (Value k) c = Some v.
Proof.
  intros Hn Hin. destruct (lookup_key (Value k) c) as [v'|] eqn:E.
  - apply lookup_key_some in E as (k' & Hin' & E). unfold keys in Hn.
    apply list_elem_of_lookup in Hin as [i Hi], Hin' as [j Hj].
    assert (i = j) as ->; [|congruence].
    eapply (NoDup_lookup _ i j (Value k) Hn); rewrite list_lookup_fmap; [by rewrite Hi|by rewrite Hj; simpl; rewrite E].
  - apply lookup_key_none in E. destruct E. apply list_elem_of_fmap. by exists (k, v).
Qed.

(** Entries in which keys are kept and values changed. *)
Lemma lookup_key_flat key l : lookup_key key (flat l) = snd <$> List.find (fun kv => String.eqb (Value kv.1) key) (rev l).
Proof. unfold lookup_key. by rewrite pairs_flat. Qed.

Lemma keys_flat l : keys (flat l) = (fun kv => Value kv.1) <$> l.
Proof. unfold keys. by rewrite pairs_flat. Qed.

Lemma keys_app l l' : keys (flat (l ++ l')) = keys (flat l) ++ keys (flat l').
Proof. by rewrite !keys_flat, fmap_app. Qed.

Lemma filter_sublist {A} (f : A -> bool) l : List.filter f l `sublist_of` l.
Proof. induction l as [|x l IH]; [constructor|]. simpl. destruct (f x); [by apply sublist_skip|by apply sublist_cons]. Qed.

Lemma src_only_flat c l : src_only c (flat l) = flat (List.filter (fun kv => match lookup_key (Value kv.1) c with Some _ => false | None => true end) l).
Proof.
  unfold src_only. rewrite pairs_flat. induction l as [|kv l IH]; [done|]. simpl. rewrite IH.
  by destruct (lookup_key (Value kv.1) c).
Qed.

(** ** Documents *)

(** A mapping has whole entries and no key twice, at every depth. *)
Inductive wf : node -> Prop :=
| wf_node k t v c : (k = Mapping -> c = flat (pairs c) /\ NoDup (keys c)) -> Forall wf c -> wf (Node k t v c).

(** [m] says everything that [n] says: its entries, the items of its lists, its values;
    a null says nothing. *)
Inductive within : node -> node -> Prop :=
| within_null n m : isNull n = true -> within n m
| within_same n : within n n
| within_scalar n m : Kind n = Scalar -> Kind m = Scalar -> Tag n = Tag m -> Value n = Value m -> within n m
| within_sequence n m before after : Kind n = Sequence -> Kind m = Sequence -> Content m = before ++ Content n ++ after -> within n m
| within_mapping n m : Kind n = Mapping -> Kind m = Mapping ->
    (forall key v, lookup_key key (Content n) = Some v -> is_Some (lookup_key key (Content m))) ->
    (forall key v v', lookup_key key (Content n) = Some v -> lookup_key key (Content m) = Some v' -> within v v') -> within n m.

(** The node at the end of a path of keys. *)
Fixpoint at_path (path : list string) (n : node) : option node :=
  match path with
  | [] => Some n
  | key :: path => if bool_decide (Kind n = Mapping) then lookup_key key (Content n) ≫= at_path path else None
  end.

Section merge.
Variable srcPath : string.

(** One entry of the destination, after the first pass. *)
Definition merged_entry (src : list node) (path : string) (kv kv' : node * node) : Prop :=
  kv'.1 = kv.1 /\
  match lookup_key (Value kv.1) src with
  | None => kv'.2 = kv.2
  | Some sv =>
    let child := joinPath path (Value kv.1) in
    (if bool_decide (child ∈ identityMapPaths) then mergeIdentityMap srcPath kv.2 sv child (Value kv.1) else mergeValue srcPath kv.2 sv child) = Ok kv'.2
  end.

Lemma shared_pass_spec src path l c :
  shared_pass srcPath (mergeValue srcPath) src path (flat l) = Ok c -> exists l', c = flat l' /\ Forall2 (merged_entry src path) l l'.
Proof.
  revert c. induction l as [|[k v] l IH]; intros c; simpl; [intros [= <-]; by exists []|].
  destruct (lookup_key (Value k) src) as [sv|] eqn:Es.
  - destruct (if bool_decide _ then _ else _) as [v'|e] eqn:Ev; [|done]. simpl.
    destruct (shared_pass _ _ _ _ (flat l)) as [c'|e] eqn:Ec; [|done]. simpl. intros [= <-].
    destruct (IH c' eq_refl) as (l' & -> & H). exists ((k, v') :: l'). split; [done|]. constructor; [|done]. split; [done|]. simpl. by rewrite Es.
  - simpl. destruct (shared_pass _ _ _ _ (flat l)) as [c'|e] eqn:Ec; [|done]. simpl. intros [= <-].
    destruct (IH c' eq_refl) as (l' & -> & H). exists ((k, v) :: l'). split; [done|]. constructor; [|done]. split; [done|]. simpl. by rewrite Es.
Qed.

Lemma merged_keys src path l l' : Forall2 (merged_entry src path) l l' -> keys (flat l') = keys (flat l).
Proof. rewrite !keys_flat. induction 1 as [|kv kv' l l' [E _] _ IH]; [done|]. cbn. by rewrite E, IH. Qed.

(** The entries of a merged mapping: those of the destination, each merged, then those
    only the source has. *)
Definition merged_mapping (path : string) (d s c : list node) : Prop :=
  exists l', c = flat (l' ++ List.filter (fun kv => bool_decide (Value kv.1 ∉ keys d)) (pairs s)) /\ Forall2 (merged_entry s path) (pairs d) l'.

Lemma mapping_spec path d s c :
  d = flat (pairs d) -> s = flat (pairs s) -> shared_pass srcPath (mergeValue srcPath) s path d = Ok c ->
  merged_mapping path d s (c ++ src_only c s).
Proof.
  intros Hd Hs Hc. rewrite Hd in Hc. apply shared_pass_spec in Hc as (l' & -> & H). exists l'. split; [|done].
  rewrite Hs at 1. rewrite src_only_flat, flat_app. f_equal. f_equal. apply List.filter_ext. intros [k v]. simpl.
  pose proof (lookup_key_none (Value k) (flat l')) as Hn. rewrite (merged_keys _ _ _ _ H), <- Hd in Hn.
  destruct (lookup_key (Value k) (flat l')).
  - symmetry. apply bool_decide_eq_false. by intros ?%Hn.
  - symmetry. apply bool_decide_eq_true. by apply Hn.
Qed.

Lemma merged_lookup path d s c key :
  NoDup (keys d) -> NoDup (keys s) -> merged_mapping path d s c ->
  match lookup_key key d with
  | Some v => exists k v', Value k = key /\ lookup_key key c = Some v' /\ merged_entry s path (k, v) (k, v')
  | None => lookup_key key c = lookup_key key s
  end.
Proof.
  intros Hd Hs (l' & -> & H).
  set (rest := List.filter (fun kv => bool_decide (Value kv.1 ∉ keys d)) (pairs s)).
  assert (forall k v, (k, v) ∈ rest <-> (k, v) ∈ pairs s /\ Value k ∉ keys d) as Hrest.
  { intros k v. unfold rest. rewrite list_elem_of_In, filter_In, <- list_elem_of_In. simpl. by rewrite bool_decide_eq_true. }
  assert (NoDup (keys (flat (l' ++ rest)))) as Hnd.
  { rewrite keys_app, (merged_keys s path (pairs d) l' H). rewrite keys_flat at 1. apply NoDup_app. split_and!.
    - exact Hd.
    - intros x Hx Hr. rewrite keys_flat in Hr. apply list_elem_of_fmap in Hr as ([k v] & -> & [_ Hk]%Hrest). done.
    - rewrite keys_flat. unfold rest. clear -Hs. unfold keys in Hs. induction (pairs s) as [|kv l IH]; [constructor|].
      apply NoDup_cons in Hs as [Hni Hs]. simpl. destruct (bool_decide _); [|by apply IH]. simpl. apply NoDup_cons. split; [|by apply IH].
      intros Hin. apply Hni. apply list_elem_of_fmap in Hin as (kv' & -> & Hin). apply list_elem_of_fmap. exists kv'. split; [done|].
      apply list_elem_of_In in Hin. apply filter_In in Hin as [Hin _]. by apply list_elem_of_In. }
  destruct (lookup_key key d) as [v|] eqn:E.
  - apply lookup_key_some in E as (k & Hin & <-). apply list_elem_of_lookup in Hin as [i Hi].
    destruct (Forall2_lookup_l _ _ _ _ _ H Hi) as ([k' v'] & Hi' & [E Hm]). simpl in E. subst k'. exists k, v'. split_and!; [done| |by split].
    apply lookup_key_unique; [done|]. rewrite pairs_flat. apply elem_of_app. left. by eapply list_elem_of_lookup_2.
  - apply lookup_key_none in E. destruct (lookup_key key s) as [v|] eqn:Es.
    + apply lookup_key_some in Es as (k & Hin & <-). apply lookup_key_unique; [done|]. rewrite pairs_flat. apply elem_of_app. right. by apply Hrest.
    + apply lookup_key_none in Es. apply lookup_key_none. rewrite keys_app, (merged_keys s path (pairs d) l' H), keys_flat.
      intros [Hx|Hx]%elem_of_app; [done|]. rewrite keys_flat in Hx. apply list_elem_of_fmap in Hx as ([k v] & -> & [Hin _]%Hrest).
      apply Es. apply list_elem_of_fmap. by exists (k, v).
Qed.

Lemma wf_content n : wf n -> Forall wf (Content n).
Proof. by inversion 1. Qed.

Lemma wf_mapping n : wf n -> Kind n = Mapping -> Content n = flat (pairs (Content n)) /\ NoDup (keys (Content n)).
Proof. inversion 1; simpl; auto. Qed.

Lemma pairs_content c k v : (k, v) ∈ pairs c -> k ∈ c /\ v ∈ c.
Proof.
  assert (forall n c, (length c <= n)%nat -> (k, v) ∈ pairs c -> k ∈ c /\ v ∈ c) as H.
  { induction n as [|n IH]; intros [|a [|b l]] Hl; simpl in *; try (by intros ?%elem_of_nil); [lia|].
    intros [[= <- <-]|Hin]%elem_of_cons; [split; [by left|right; by left]|]. destruct (IH l ltac:(lia) Hin). split; by right; right. }
  by apply (H (length c)).
Qed.

Lemma wf_lookup n key v : wf n -> lookup_key key (Content n) = Some v -> wf v.
Proof.
  intros Hw%wf_content (k & [_ Hv]%pairs_content & _)%lookup_key_some. by eapply Forall_forall in Hw.
Qed.

(** What the merge of two nodes promises. *)
Definition merges (dst src m : node) : Prop :=
  wf m /\ within dst m /\ within src m /\
  forall path, is_Some (at_path path m) -> is_Some (at_path path dst) \/ is_Some (at_path path src).

Lemma flat_map_pairs l : flat_map (fun kv : node * node => [kv.1; kv.2]) l = flat l.
Proof. done. Qed.

Lemma identity_merges dst src path name m :
  wf dst -> wf src -> mergeIdentityMap srcPath dst src path name = Ok m ->
  merges dst src m /\ Kind dst = Mapping /\ Kind src = Mapping /\ keys (Content m) = keys (Content dst) ++ keys (Content src) /\
  pairs (Content m) = pairs (Content dst) ++ pairs (Content src).
Proof.
  intros Hd Hs. destruct dst as [[] tag value c]; try done. unfold mergeIdentityMap. case_bool_decide as Hk; [|done].
  destruct (List.find _ _) as [kv|] eqn:Ef; [done|]. intros [= <-]. rewrite flat_map_pairs.
  destruct (wf_mapping _ Hd eq_refl) as [Hcd Hnd], (wf_mapping _ Hs Hk) as [Hcs Hns]. simpl in Hcd, Hnd.
  assert (forall key, key ∈ keys c -> key ∉ keys (Content src)) as Hdis.
  { intros key Hin Hks. apply list_elem_of_fmap in Hks as ([k v] & -> & Hks). pose proof (find_none _ _ Ef (k, v) Hks) as H. simpl in H.
    destruct (lookup_key (Value k) c) eqn:El; [done|]. by apply lookup_key_none in El. }
  assert (c ++ flat (pairs (Content src)) = flat (pairs c ++ pairs (Content src))) as Hc by (rewrite Hcd at 1; apply flat_app).
  assert (NoDup (keys (flat (pairs c ++ pairs (Content src))))) as Hn.
  { rewrite keys_flat, fmap_app. apply NoDup_app. split_and!; [done|exact Hdis|done]. }
  assert (forall key, lookup_key key (flat (pairs c ++ pairs (Content src))) = match lookup_key key c with Some v => Some v | None => lookup_key key (Content src) end) as Hl.
  { intros key. destruct (lookup_key key c) as [v|] eqn:El; [|destruct (lookup_key key (Content src)) as [v|] eqn:Er].
    - apply lookup_key_some in El as (k & Hin & <-). apply lookup_key_unique; [done|]. rewrite pairs_flat. apply elem_of_app. by left.
    - apply lookup_key_some in Er as (k & Hin & <-). apply lookup_key_unique; [done|]. rewrite pairs_flat. apply elem_of_app. by right.
    - apply lookup_key_none. apply lookup_key_none in El, Er. rewrite keys_flat, fmap_app. by intros [?|?]%elem_of_app. }
  simpl. rewrite Hc. split_and!; [|done|done|by rewrite keys_flat, fmap_app|by rewrite pairs_flat]. split_and!.
  - constructor; [intros _; split; [by rewrite pairs_flat|done]|]. rewrite <- Hc. apply Forall_app. split; [by apply (wf_content _ Hd)|].
    rewrite <- Hcs. by apply wf_content.
  - apply within_mapping; try done; simpl; [intros key v E; rewrite Hl, E; by eexists|]. intros key v v' E. rewrite Hl, E. intros [= <-]. apply within_same.
  - apply within_mapping; try done; simpl.
    + intros key v E. rewrite Hl, E. destruct (lookup_key key c); by eexists.
    + intros key v v' E. rewrite Hl. destruct (lookup_key key c) eqn:Ec; [|intros E'; assert (v = v') as -> by congruence; apply within_same].
      exfalso. apply (Hdis key).
      * destruct (decide (key ∈ keys c)) as [?|Hno]; [done|]. apply lookup_key_none in Hno. congruence.
      * destruct (decide (key ∈ keys (Content src))) as [?|Hno]; [done|]. apply lookup_key_none in Hno. congruence.
  - intros [|key path']; [left; by eexists|]. cbn [at_path Kind Content]. rewrite !bool_decide_true by done. rewrite Hl.
    destruct (lookup_key key c); [by left|by right].
Qed.

Definition merges_at (n : node) : Prop :=
  forall src path m, wf n -> wf src -> mergeValue srcPath n src path = Ok m -> merges n src m.

(** The entries of a merged mapping, one by one. *)
Lemma entry_merges path dst src c key :
  Forall merges_at (Content dst) -> wf dst -> wf src -> Kind dst = Mapping -> Kind src = Mapping ->
  merged_mapping path (Content dst) (Content src) c ->
  match lookup_key key (Content dst), lookup_key key (Content src) with
  | Some v, Some sv => exists v', lookup_key key c = Some v' /\ merges v sv v'
  | Some v, None => lookup_key key c = Some v
  | None, o => lookup_key key c = o
  end.
Proof.
  intros IH Hd Hs Hkd Hks Hm. destruct (wf_mapping _ Hd Hkd) as [_ Hnd], (wf_mapping _ Hs Hks) as [_ Hns].
  pose proof (merged_lookup path _ _ c key Hnd Hns Hm) as Hl. destruct (lookup_key key (Content dst)) as [v|] eqn:Ed; [|done].
  destruct Hl as (k & v' & Hk & Hc & [_ He]). simpl in He. rewrite Hk in He. destruct (lookup_key key (Content src)) as [sv|] eqn:Es; [|by subst v'].
  exists v'. split; [done|]. pose proof (wf_lookup _ _ _ Hd Ed) as Hwv. pose proof (wf_lookup _ _ _ Hs Es) as Hws.
  destruct (bool_decide _); [by apply identity_merges in He as [? _]|].
  apply lookup_key_some in Ed as (k' & [_ Hin]%pairs_content & _). by eapply (proj1 (Forall_forall _ _) IH v Hin).
Qed.

Lemma mapping_children path dst src c :
  Forall merges_at (Content dst) -> wf dst -> wf src -> merged_mapping path (Content dst) (Content src) c -> Forall wf c.
Proof.
  intros IH Hd Hs (l' & -> & H). apply Forall_forall. intros x (kv & Hkv & Hx)%list_elem_of_In%in_flat_map.
  apply list_elem_of_In, elem_of_app in Hkv. assert (x = kv.1 \/ x = kv.2) as Hx' by (destruct Hx as [->|[->|[]]]; auto). clear Hx.
  destruct Hkv as [Hkv|Hkv].
  - apply list_elem_of_lookup in Hkv as [i Hi]. destruct (Forall2_lookup_r _ _ _ _ _ H Hi) as ([k v] & Hkv%list_elem_of_lookup_2 & [E He]).
    destruct kv as [k' v']. simpl in E, He. subst k'. destruct (pairs_content _ _ _ Hkv) as [Hk Hv].
    pose proof (proj1 (Forall_forall _ _) (wf_content _ Hd)) as Hw. destruct Hx' as [-> | ->]; simpl; [by apply Hw|].
    destruct (lookup_key (Value k) (Content src)) as [sv|] eqn:Es; [|subst v'; by apply Hw].
    pose proof (wf_lookup _ _ _ Hs Es) as Hws. destruct (bool_decide _).
    + apply identity_merges in He as [(? & _) _]; [done|by apply Hw|done].
    + destruct (proj1 (Forall_forall _ _) IH v Hv sv _ _ (Hw v Hv) Hws He) as (? & _). done.
  - destruct kv as [k v]. apply list_elem_of_In, filter_In in Hkv as [Hkv%list_elem_of_In _]. apply pairs_content in Hkv as [Hk Hv].
    pose proof (proj1 (Forall_forall _ _) (wf_content _ Hs)) as Hw. destruct Hx' as [-> | ->]; by apply Hw.
Qed.

Lemma mapping_merges path dst src tag value c :
  Forall merges_at (Content dst) -> wf dst -> wf src -> Kind dst = Mapping -> Kind src = Mapping ->
  merged_mapping path (Content dst) (Content src) c -> merges dst src (Node Mapping tag value c).
Proof.
  intros IH Hd Hs Hkd Hks Hm. pose proof (fun key => entry_merges path dst src c key IH Hd Hs Hkd Hks Hm) as He.
  destruct (wf_mapping _ Hd Hkd) as [_ Hnd], (wf_mapping _ Hs Hks) as [_ Hns].
  assert (c = flat (pairs c) /\ NoDup (keys c)) as Hc.
  { destruct Hm as (l' & -> & H). split; [by rewrite pairs_flat|]. rewrite keys_app, (merged_keys _ _ _ _ H). rewrite keys_flat at 1.
    apply NoDup_app. split_and!; [exact Hnd| |].
    - intros x Hx Hr. rewrite keys_flat in Hr. apply list_elem_of_fmap in Hr as ([k v] & -> & Hr). apply list_elem_of_In, filter_In in Hr as [_ Hr].
      simpl in Hr. apply bool_decide_eq_true in Hr. exact (Hr Hx).
    - rewrite keys_flat. eapply sublist_NoDup; [exact Hns|]. unfold keys. apply (fmap_sublist (fun kv : node * node => Value kv.1)).
      apply filter_sublist. }
  split_and!.
  - constructor; [by intros _|]. by eapply mapping_children.
  - apply within_mapping; [done|done| |]; simpl.
    + intros key v E. specialize (He key). rewrite E in He. destruct (lookup_key key (Content src)); [destruct He as (v' & -> & _)|rewrite He]; by eexists.
    + intros key v v' E E'. specialize (He key). rewrite E in He. destruct (lookup_key key (Content src)).
      * destruct He as (v'' & E'' & (_ & ? & _)). congruence.
      * rewrite He in E'. injection E' as <-. apply within_same.
  - apply within_mapping; [done|done| |]; simpl.
    + intros key v E. specialize (He key). rewrite E in He. destruct (lookup_key key (Content dst)); [destruct He as (v' & -> & _)|rewrite He]; by eexists.
    + intros key v v' E E'. specialize (He key). rewrite E in He. destruct (lookup_key key (Content dst)).
      * destruct He as (v'' & E'' & (_ & _ & ? & _)). congruence.
      * rewrite He in E'. injection E' as <-. apply within_same.
  - intros [|key path']; [left; by eexists|]. cbn [at_path Kind Content]. rewrite !bool_decide_true by done. specialize (He key).
    destruct (lookup_key key (Content dst)) as [v|], (lookup_key key (Content src)) as [sv|].
    + destruct He as (v' & -> & (_ & _ & _ & Hp)). apply Hp.
    + rewrite He. by left.
    + rewrite He. by right.
    + rewrite He. by left.
Qed.

Lemma null_kind n : isNull n = true -> Kind n = NoKind \/ Kind n = Scalar.
Proof.
  unfold isNull, isNullScalar. case_bool_decide; [by left|]. case_bool_decide; [by right|done].
Qed.

Lemma null_path n path : isNull n = true -> is_Some (at_path path n) -> path = [].
Proof.
  intros [Hk|Hk]%null_kind; destruct path as [|key path]; try done; cbn [at_path]; rewrite bool_decide_false by congruence; by intros [? ?].
Qed.

Lemma merges_null_dst dst src : wf src -> isNull dst = true -> merges dst src src.
Proof. intros Hs Hn. split_and!; [done|by apply within_null|apply within_same|by right]. Qed.

Lemma merges_null_src dst src : wf dst -> isNull src = true -> merges dst src dst.
Proof. intros Hs Hn. split_and!; [done|apply within_same|by apply within_null|by left]. Qed.

Lemma mergeValue_merges n : merges_at n.
Proof.
  induction n as [k tag value c IH]. intros src path m Hd Hs.
  assert (forall r, match (if isNull (Node k tag value c) then Ok src else if isNull src then Ok (Node k tag value c) else Err (IncompatibleKinds path srcPath k (Kind src))) with Ok x => r = Ok x | Err e => r = Err e end ->
    r = Ok m -> merges (Node k tag value c) src m) as Hrest.
  { intros r Hr. destruct (isNull (Node k tag value c)) eqn:Hn.
    - rewrite Hr. intros [= <-]. by apply merges_null_dst.
    - destruct (isNull src) eqn:Hns; rewrite Hr; [|done]. intros [= <-]. by apply merges_null_src. }
  destruct k, (Kind src) eqn:Ek; cbn [mergeValue]; rewrite ?Ek;
    try (apply Hrest; destruct (isNull _); [done|]; destruct (isNull src); done).
  - intros [= <-]. split_and!.
    + constructor; [done|]. apply Forall_app. split; [by apply (wf_content _ Hd)|by apply wf_content].
    + by eapply (within_sequence _ _ [] (Content src)).
    + eapply (within_sequence _ _ c []); [done|done|]. simpl. by rewrite app_nil_r.
    + intros [|key path']; [left; by eexists|]. cbn [at_path Kind]. by intros [? ?].
  - destruct (shared_pass _ _ _ _ c) as [c'|e] eqn:Ec; [|done]. simpl. intros [= <-].
    destruct (wf_mapping _ Hd eq_refl) as [Hcd _], (wf_mapping _ Hs Ek) as [Hcs _].
    by apply (mapping_merges path), mapping_spec.
  - destruct (isNullScalar (Node Scalar tag value c)) eqn:Hn; [intros [= <-]; apply merges_null_dst; [done|unfold isNull; rewrite Hn; apply orb_true_r]|].
    destruct (isNullScalar src) eqn:Hns; [intros [= <-]; apply merges_null_src; [done|unfold isNull; rewrite Hns; apply orb_true_r]|].
    destruct (String.eqb_spec value (Value src)) as [->|]; [|done]. destruct (String.eqb_spec tag (Tag src)) as [->|]; [|done]. simpl.
    intros [= <-]. split_and!; [done|apply within_same|by apply within_scalar|by left].
Qed.

Lemma mergeNodes_merges dst src path m :
  wf dst -> wf src -> Kind dst = Mapping -> Kind src = Mapping -> mergeNodes srcPath dst src path = Ok m -> merges dst src m /\ Kind m = Mapping.
Proof.
  intros Hd Hs Hkd Hks. unfold mergeNodes. destruct (shared_pass _ _ _ _ _) as [c|e] eqn:Ec; [|done]. simpl. intros [= <-]. rewrite Hkd. split; [|done].
  destruct (wf_mapping _ Hd Hkd) as [Hcd _], (wf_mapping _ Hs Hks) as [Hcs _].
  apply (mapping_merges path); try done; [|by apply mapping_spec]. apply Forall_forall. intros x _. apply mergeValue_merges.
Qed.

(** ** Entities *)

(** An entity: a child of a top-level map that is keyed by identity. *)
Definition entity (k e : string) (n : node) : option node := at_path [k; e] n.

Lemma entity_alt k e n : entity k e n =
  if bool_decide (Kind n = Mapping) then
    match lookup_key k (Content n) with
    | Some v => if bool_decide (Kind v = Mapping) then lookup_key e (Content v) else None
    | None => None
    end
  else None.
Proof.
  unfold entity. cbn [at_path]. case_bool_decide; [|done]. destruct (lookup_key k (Content n)) as [v|]; [|done]. simpl.
  case_bool_decide; [|done]. by destruct (lookup_key e (Content v)).
Qed.

Lemma lookup_pairs_app key c d s :
  pairs c = pairs d ++ pairs s -> lookup_key key c = match lookup_key key s with Some v => Some v | None => lookup_key key d end.
Proof.
  intros E. unfold lookup_key. rewrite E, rev_app_distr.
  induction (rev (pairs s)) as [|kv l IH]; [done|]. simpl. by destruct (String.eqb _ _).
Qed.

Lemma merge_entity dst src m k e :
  wf dst -> wf src -> Kind dst = Mapping -> Kind src = Mapping -> mergeNodes srcPath dst src "" = Ok m -> k ∈ identityMapPaths ->
  (entity k e dst = None /\ entity k e m = entity k e src) \/ (entity k e src = None /\ entity k e m = entity k e dst).
Proof.
  intros Hd Hs Hkd Hks Hm Hk. pose proof (mergeNodes_merges _ _ _ _ Hd Hs Hkd Hks Hm) as [_ Hkm]. revert Hm.
  unfold mergeNodes. destruct (shared_pass _ _ _ _ _) as [c|err] eqn:Ec; [|done]. simpl. intros [= <-].
  destruct (wf_mapping _ Hd Hkd) as [Hcd Hnd], (wf_mapping _ Hs Hks) as [Hcs Hns].
  pose proof (merged_lookup "" _ _ _ k Hnd Hns (mapping_spec "" _ _ _ Hcd Hcs Ec)) as Hl.
  rewrite !entity_alt. cbn [Kind Content]. rewrite !bool_decide_true by done.
  destruct (lookup_key k (Content dst)) as [v|] eqn:Ed; [|left; by rewrite Hl].
  destruct Hl as (kn & v' & Hkn & -> & [_ He]). simpl in He. rewrite Hkn in He.
  destruct (lookup_key k (Content src)) as [sv|] eqn:Es; [|right; by subst v'].
  assert (joinPath "" k = k) as Hj by done. rewrite Hj, bool_decide_true in He by done.
  destruct (identity_merges _ _ _ _ _ (wf_lookup _ _ _ Hd Ed) (wf_lookup _ _ _ Hs Es) He) as ((Hw & _) & Hkv & Hksv & Hkeys & Hpairs).
  assert (Kind v' = Mapping) as Hkv' by (destruct v as [[] ? ? ?]; try done; unfold mergeIdentityMap in He; case_bool_decide; [|done]; destruct (List.find _ _); [done|]; by injection He as <-).
  rewrite !bool_decide_true by done. rewrite (lookup_pairs_app _ _ _ _ Hpairs).
  destruct (lookup_key e (Content sv)) as [x|] eqn:Ex; [|by right]. left. split; [|done]. apply lookup_key_none. intros Hin.
  destruct (wf_mapping _ Hw Hkv') as [_ Hn]. rewrite Hkeys in Hn. apply NoDup_app in Hn as (_ & Hdis & _). apply (Hdis e Hin).
  destruct (decide (e ∈ keys (Content sv))) as [?|Hno]; [done|]. apply lookup_key_none in Hno. congruence.
Qed.
End merge.

Lemma within_trans a b c : within a b -> within b c -> within a c.
Proof.
  intros Hab. revert c. induction Hab as [a b Hn|a|a b Ha Hb Ht Hv|a b before after Ha Hb Hc|a b Ha Hb Hk Hin IH]; intros c Hbc.
  - by apply within_null.
  - done.
  - inversion Hbc as [? ? Hn|?|? ? ? ? Ht' Hv'|? ? ? ? Hs|? ? Hm]; subst; try congruence.
    + apply within_null. revert Hn. unfold isNull, isNullScalar. by rewrite Ha, Hb, Ht, Hv.
    + by apply within_scalar.
    + apply within_scalar; congruence.
  - inversion Hbc as [? ? Hn|?|? ? Hs|? ? before' after' ? Hkc Hcc|? ? Hm]; subst; try congruence.
    + apply null_kind in Hn as [?|?]; congruence.
    + by eapply within_sequence.
    + eapply (within_sequence _ _ (before' ++ before) (after ++ after')); [done|done|]. rewrite Hcc, Hc. by rewrite <- !app_assoc.
  - inversion Hbc as [? ? Hn|?|? ? Hs|? ? ? ? Hs|? ? ? Hkc Hk' Hin']; subst; try congruence.
    + apply null_kind in Hn as [?|?]; congruence.
    + by apply within_mapping.
    + apply within_mapping; [done|done| |].
      * intros key v E. destruct (Hk key v E) as [v' E']. by apply (Hk' key v').
      * intros key v v'' E E''. destruct (Hk key v E) as [v' E']. eapply IH; [done|done|]. by eapply Hin'.
Qed.

(** The documents that are merged. *)
Definition docs (merged : option node) (sources : list (string * option node)) : list node := omap id (merged :: sources.*2).

(** An entity is in one of them at most, and it is kept as it is. *)
Definition apart (n n' : node) : Prop := forall k e, k ∈ identityMapPaths -> entity k e n = None \/ entity k e n' = None.
Definition keeps (n m : node) : Prop := forall k e v, k ∈ identityMapPaths -> entity k e n = Some v -> entity k e m = Some v.

Record merge_of (ns : list node) (m : node) : Prop := {
  mo_within : Forall (fun n => within n m) ns;
  mo_paths : forall path, is_Some (at_path path m) -> Exists (fun n => is_Some (at_path path n)) ns;
  mo_apart : StronglySorted apart ns;
  mo_keeps : Forall (fun n => keeps n m) ns;
}.

Definition document (n : node) : Prop := wf n /\ Kind n = Mapping.

Lemma merge_step src m0 n m1 ns m :
  document m0 -> document n -> mergeNodes src m0 n "" = Ok m1 -> merge_of (m1 :: ns) m -> merge_of (m0 :: n :: ns) m.
Proof.
  intros [H0 K0] [Hn Kn] Hm [Hw Hp Ha Hk]. pose proof (mergeNodes_merges src _ _ _ _ H0 Hn K0 Kn Hm) as [(_ & W0 & Wn & P1) _].
  pose proof (fun k e => merge_entity src m0 n m1 k e H0 Hn K0 Kn Hm) as He.
  apply Forall_cons in Hw as [Hw1 Hw], Hk as [Hk1 Hk]. apply StronglySorted_inv in Ha as [Ha Ha1]. rewrite Forall_forall in Ha1.
  assert (keeps m0 m1 /\ keeps n m1) as [Hk0 Hkn].
  { split; intros k e v Hid E; destruct (He k e Hid) as [[? ?]|[? ?]]; congruence. }
  split.
  - repeat apply Forall_cons_2; [by eapply within_trans|by eapply within_trans|done].
  - intros path [H1|H1]%Hp%Exists_cons; [|by apply Exists_cons_tl, Exists_cons_tl].
    apply P1 in H1 as [?|?]; [by apply Exists_cons_hd|by apply Exists_cons_tl, Exists_cons_hd].
  - assert (forall x, x ∈ ns -> apart m0 x /\ apart n x) as Hx.
    { intros x Hx. split; intros k e Hid; destruct (Ha1 x Hx k e Hid) as [E|E]; try (by right); left.
      - destruct (entity k e m0) eqn:E0; [|done]. by rewrite (Hk0 _ _ _ Hid E0) in E.
      - destruct (entity k e n) eqn:E0; [|done]. by rewrite (Hkn _ _ _ Hid E0) in E. }
    constructor; [constructor; [done|]|apply Forall_cons_2].
    + apply Forall_forall. intros x ?. by apply Hx.
    + intros k e Hid. destruct (He k e Hid) as [[? ?]|[? ?]]; auto.
    + apply Forall_forall. intros x ?. by apply Hx.
  - repeat apply Forall_cons_2; [| |done]; intros k e v Hid E; apply Hk1; auto.
Qed.

Lemma merge_sources_docs merged sources m :
  Forall document (docs merged sources) -> merge_sources merged sources = Ok (Some m) -> document m /\ merge_of (docs merged sources) m.
Proof.
  revert merged. induction sources as [|[path [n|]] sources IH]; intros merged Hd; simpl.
  - intros [= ->]. change (docs (Some m) []) with [m] in *. apply Forall_cons in Hd as [Hd _]. split; [done|]. split.
    + apply Forall_singleton, within_same.
    + intros path ?. by apply Exists_cons_hd.
    + repeat constructor.
    + apply Forall_singleton. by intros k e v.
  - destruct merged as [m0|].
    + unfold docs in Hd. simpl in Hd. apply Forall_cons in Hd as [H0 [Hn Hd]%Forall_cons].
      destruct (mergeNodes path m0 n "") as [m1|err] eqn:Em; [|done]. simpl. intros Hm.
      destruct (mergeNodes_merges path m0 n "" m1 (proj1 H0) (proj1 Hn) (proj2 H0) (proj2 Hn) Em) as [(Hw1 & _) Hk1].
      destruct (IH (Some m1)) as [Hdm Hof]; [by apply Forall_cons_2|done|]. split; [done|]. by apply (merge_step path m0 n m1).
    + intros Hm. by apply (IH (Some n)).
  - intros Hm. apply IH; [|done]. by destruct merged.
Qed.

(** A null that is written out is no null for the merge, and an empty map of entities
    is refused. *)
Definition text (v : string) : node := Node Scalar "!!str" v [].
Definition mapping (l : list (string * node)) : node := Node Mapping "!!map" "" (flat ((fun kv => (text kv.1, kv.2)) <$> l)).

Lemma written_null_conflicts :
  mergeNodes "b.yaml" (mapping [("x", Node Scalar "!!null" "" [])]) (mapping [("x", text "1")]) "" = Ok (mapping [("x", text "1")]) /\
  mergeNodes "b.yaml" (mapping [("x", Node Scalar "!!null" "null" [])]) (mapping [("x", text "1")]) "" = Err (Differs "x" "b.yaml") /\
  mergeNodes "b.yaml" (mapping [("models", Node Scalar "!!null" "" [])]) (mapping [("models", mapping [("m", text "1")])]) "" =
    Err (NotAMapping "models" "b.yaml").
Proof. split_and!; vm_compute; reflexivity. Qed.

(** ** Witness *)

Definition ex_list (l : list string) : node := Node Sequence "!!seq" "" (text <$> l).
Definition ex_a : node := mapping [("models", mapping [("a", text "1")]); ("preload", ex_list ["a"])].
Definition ex_b : node := mapping [("preload", ex_list ["b"]); ("models", mapping [("b", text "2")]); ("logLevel", text "info")].
Definition ex_merged : node :=
  mapping [("models", mapping [("a", text "1"); ("b", text "2")]); ("preload", ex_list ["a"; "b"]); ("logLevel", text "info")].

Lemma text_wf v : wf (text v).
Proof. by constructor. Qed.

Lemma mapping_wf l : NoDup l.*1 -> Forall (fun kv => wf kv.2) l -> wf (mapping l).
Proof.
  intros Hn Hl. constructor.
  - intros _. rewrite keys_flat, pairs_flat, <- list_fmap_compose. split; [done|]. exact Hn.
  - clear Hn. induction Hl as [|[k v] l Hv Hl IH]; [constructor|]. simpl. repeat constructor; [done|exact IH].
Qed.

End MergeSpec.
