(* ===== verification/RefusalHold.v ===== *)
(** Holding back the refusals of a child ([internal/router/refusalhold.go], and
    [forward] of [base.go]): after a request was cut, the child may refuse the next one
    while it still holds the cut one; such an answer is withheld and the request is
    sent again under the same grant.

    One try is the list of calls the proxy makes on its writer; what reaches the writer
    behind is the [log], with the headers it is sent with. *)

From S2P Require Import Prelude Runes SlotAffinity.

Module RefusalHold.
Open Scope string_scope.
Open Scope list_scope.
Open Scope Z_scope.

Definition cutLingerWindow : Z := 60000000000.
Definition refusalRetryBudget : Z := 60000000000.
Definition refusalRetryDefault : Z := 500000000.
Definition refusalRetryMin : Z := 250000000.
Definition refusalRetryMax : Z := 2000000000.

Definition retryableRefusal (code : Z) : bool := (code =? 503) || (code =? 529).

Definition parseRetryAfter (v : string) : Z :=
  match SlotAffinity.Atoi (string_of_runes (trim_space (runes_of_string v))) with
  | Some s => if s <? 0 then 0 else i64 (s * nsec_second)
  | None => 0
  end.

Definition refusalWait (retryAfter : Z) : Z :=
  let w := if retryAfter <=? 0 then refusalRetryDefault else retryAfter in
  let w := if w <? refusalRetryMin then refusalRetryMin else w in
  if w >? refusalRetryMax then refusalRetryMax else w.

(** ** When each model was last cut *)

Abbreviation cutStamps := (gmap string Z).

Definition note (at_ : cutStamps) (model : string) (now : Z) : cutStamps := <[model := now]> at_.
Definition since (at_ : cutStamps) (model : string) (now : Z) : option Z := (fun t => time_sub now t) <$> at_ !! model.

(** ** The writer of one try *)

Abbreviation Header := (gmap string (list string)).

(** What the proxy does: it edits the client's headers, and writes. *)
Inductive call := SetHeader (k : string) (v : list string) | DelHeader (k : string) | CHeader (code : Z) | CWrite (b : list Z) | CFlush.

(** What the writer behind sees. *)
Inductive seen := SawHeader (code : Z) (h : Header) | SawWrite (b : list Z) (h : Header) | SawFlush (h : Header).

Record refusalWriter := mkWriter {
  snap : Header;
  decided : bool;
  wasRefused : bool;
  retryAfter : Z;
  status : Z;
}.

(** The client's headers and what was passed on. *)
Record client := mkClient { headers : Header; log : list seen }.

Definition newRefusalWriter (w : client) : refusalWriter := mkWriter (headers w) false false 0 0.

Definition see (w : client) (s : Header -> seen) : client := mkClient (headers w) (log w ++ [s (headers w)]).

Definition header_value (h : Header) (k : string) : string := default "" (head (default [] (h !! k))).

Definition refusal_call (rw : refusalWriter) (w : client) (c : call) : refusalWriter * client :=
  match c with
  | SetHeader k v => (rw, mkClient (<[k := v]> (headers w)) (log w))
  | DelHeader k => (rw, mkClient (delete k (headers w)) (log w))
  | CHeader code =>
    if negb (decided rw) && (200 <=? code) then
      if retryableRefusal code then
        (mkWriter (snap rw) true true (parseRetryAfter (header_value (headers w) "Retry-After")) code, mkClient (snap rw) (log w))
      else (mkWriter (snap rw) true (wasRefused rw) (retryAfter rw) (status rw), see w (SawHeader code))
    else (rw, see w (SawHeader code))
  | CWrite b =>
    if wasRefused rw then (rw, w)
    else (mkWriter (snap rw) true (wasRefused rw) (retryAfter rw) (status rw), see w (SawWrite b))
  | CFlush => if wasRefused rw then (rw, w) else (rw, see w SawFlush)
  end.

(** A call without a refusal writer in between. *)
Definition plain_call (w : client) (c : call) : client :=
  match c with
  | SetHeader k v => mkClient (<[k := v]> (headers w)) (log w)
  | DelHeader k => mkClient (delete k (headers w)) (log w)
  | CHeader code => see w (SawHeader code)
  | CWrite b => see w (SawWrite b)
  | CFlush => see w SawFlush
  end.

(** ** The loop of [forward] *)

Inductive wake := TimerFired | RequestCut | RouterDown.

(** One turn of the loop as the outside makes it: when it starts and the last cut of the
    model by then, the calls of the proxy, when they end, how and when the wait ends,
    and whether the body can be had again. *)
Record turn := mkTurn {
  t_start : Z;
  t_cut : option Z;
  t_calls : list call;
  t_done : Z;
  t_wake : wake;
  t_woke : Z;
  t_body : bool;
}.

Record hold := mkHold { first : option Z; refusals : Z; spent : bool; cl : client }.

Section forward.
(** The request holds a slot; its body, if it has one, can be had again. *)
Variable holdsSlot can_resend has_body : bool.

Definition refusalHoldArmed (first : option Z) (cut : option Z) (now : Z) : bool :=
  if has_body && negb can_resend then false
  else match first with
       | Some f => time_sub now f <? refusalRetryBudget
       | None => match cut with Some t => time_sub now t <? cutLingerWindow | None => false end
       end.

Definition armed (h : hold) (t : turn) : bool := holdsSlot && negb (spent h) && refusalHoldArmed (first h) (t_cut t) (t_start t).

(** One try: what becomes of the client, and the wait if it was refused. *)
Definition try_once (h : hold) (t : turn) : client * option Z :=
  if armed h t then
    let '(rw, w) := foldl (fun s c => refusal_call s.1 s.2 c) (newRefusalWriter (cl h), cl h) (t_calls t) in
    (w, if wasRefused rw then Some (refusalWait (retryAfter rw)) else None)
  else (foldl plain_call (cl h) (t_calls t), None).

(** What [forward] holds before its next try. *)
Definition after_refusal (h : hold) (t : turn) (w : client) : hold :=
  let first := match first h with Some f => f | None => t_done t end in
  let cut := match t_wake t with TimerFired => false | RequestCut | RouterDown => true end in
  mkHold (Some first) (i64 (refusals h + 1))
    (spent h || cut || (refusalRetryBudget <=? time_sub (t_woke t) first) || (can_resend && negb (t_body t))) w.

(** [None]: the turns are over and the loop is not. *)
Fixpoint forward (h : hold) (turns : list turn) : option hold :=
  match turns with
  | [] => None
  | t :: turns =>
    match try_once h t with
    | (w, None) => Some (mkHold (first h) (refusals h) (spent h) w)
    | (w, Some _) => forward (after_refusal h t w) turns
    end
  end.

Definition start (w : client) : hold := mkHold None 0 false w.
End forward.
End RefusalHold.

(** ** What holding a refusal back promises (RefusalHold.v): a withheld try leaves nothing
    behind, the answer goes through whole, and the loop ends. *)

Module RefusalSpec.
Import RefusalHold.
Open Scope string_scope.
Open Scope list_scope.
Open Scope Z_scope.

(** ** The calls of a proxy *)

(** Before its answer it edits headers and sends interim responses; the answer is a
    status, or a body with an implied one; after it come only the body and flushes. *)
Definition before_answer (c : call) : bool :=
  match c with SetHeader _ _ | DelHeader _ => true | CHeader code => code <? 200 | _ => false end.
Definition body_call (c : call) : bool := match c with CWrite _ | CFlush => true | _ => false end.

Definition answer_call (c : call) : bool := match c with CHeader code => 200 <=? code | CWrite _ => true | _ => false end.

Definition lawful (cs : list call) : Prop :=
  exists pre post, cs = pre ++ post /\ forallb before_answer pre = true /\
    match post with [] => True | a :: rest => answer_call a = true /\ forallb body_call rest = true end.

(** The part of a try that is always passed on. *)
Fixpoint preamble (cs : list call) : list call :=
  match cs with c :: cs => if before_answer c then c :: preamble cs else [] | [] => [] end.

Lemma preamble_app pre post : forallb before_answer pre = true ->
  match post with [] => True | a :: rest => before_answer a = false end -> preamble (pre ++ post) = pre.
Proof.
  induction pre as [|c pre IH]; simpl.
  - intros _ Hp. destruct post as [|a post]; [done|]. simpl. by rewrite Hp.
  - intros [-> Hpre]%andb_prop Hp. by rewrite IH.
Qed.

Definition calls_through (s : refusalWriter * client) (cs : list call) : refusalWriter * client :=
  foldl (fun s c => refusal_call s.1 s.2 c) s cs.

Lemma preamble_calls rw w pre : forallb before_answer pre = true -> calls_through (rw, w) pre = (rw, foldl plain_call w pre).
Proof.
  revert w. induction pre as [|c pre IH]; intros w; [done|]. intros [Hc Hpre]%andb_prop. unfold calls_through. simpl.
  destruct c as [k v|k|code|b|]; simpl in Hc |- *; try done; try (by apply IH).
  assert (200 <=? code = false) as -> by lia. rewrite andb_false_r. by apply IH.
Qed.

Lemma refused_body rw w rest : wasRefused rw = true -> forallb body_call rest = true -> calls_through (rw, w) rest = (rw, w).
Proof.
  intros Hr. induction rest as [|c rest IH]; [done|]. intros [Hc Hrest]%andb_prop. unfold calls_through. simpl.
  destruct c as [k v|k|code|b|]; try done; simpl; rewrite Hr; by apply IH.
Qed.

Lemma passed_body rw w rest : wasRefused rw = false -> decided rw = true -> forallb body_call rest = true ->
  exists rw', calls_through (rw, w) rest = (rw', foldl plain_call w rest) /\ wasRefused rw' = false.
Proof.
  revert rw w. induction rest as [|c rest IH]; intros rw w Hr Hd; [by exists rw|]. intros [Hc Hrest]%andb_prop. unfold calls_through. simpl.
  destruct c as [k v|k|code|b|]; try done; simpl; rewrite Hr; by apply IH.
Qed.

(** One armed try: refused, and then only the preamble is passed on and the headers are
    as before; or passed on whole. *)
Lemma try_cases w cs : lawful cs ->
  (exists rw, calls_through (newRefusalWriter w, w) cs = (rw, mkClient (headers w) (log (foldl plain_call w (preamble cs)))) /\ wasRefused rw = true) \/
  (exists rw, calls_through (newRefusalWriter w, w) cs = (rw, foldl plain_call w cs) /\ wasRefused rw = false).
Proof.
  intros (pre & post & -> & Hpre & Hpost). unfold calls_through. rewrite !foldl_app. fold (calls_through (newRefusalWriter w, w) pre).
  rewrite preamble_calls by done. fold (calls_through (newRefusalWriter w, foldl plain_call w pre) post).
  destruct post as [|a rest]; [right; by eexists|]. destruct Hpost as [Ha Hrest].
  rewrite preamble_app by (try done; destruct a; try done; simpl in *; lia). unfold calls_through. simpl foldl.
  destruct a as [k v|k|code|b|]; try done; simpl in Ha; cbn [refusal_call fst snd newRefusalWriter decided negb andb wasRefused].
  - rewrite Ha. destruct (retryableRefusal code).
    + left. fold (calls_through (mkWriter (headers w) true true (parseRetryAfter (header_value (headers (foldl plain_call w pre)) "Retry-After")) code,
        mkClient (headers w) (log (foldl plain_call w pre))) rest). rewrite refused_body by done. by eexists.
    + right. by apply (passed_body (mkWriter (headers w) true false 0 0)).
  - right. by apply (passed_body (mkWriter (headers w) true false 0 0)).
Qed.

(** What one try adds to the log depends on the headers only. *)
Lemma plain_log w cs : foldl plain_call w cs =
  let r := foldl plain_call (mkClient (headers w) []) cs in mkClient (headers r) (log w ++ log r).
Proof.
  revert w. induction cs as [|c cs IH] using rev_ind; intros w; [destruct w; simpl; by rewrite app_nil_r|].
  rewrite !foldl_app, IH. simpl. destruct c; simpl; unfold see; simpl; by rewrite ?app_assoc.
Qed.

Definition interim (h : Header) (t : turn) : list seen := log (foldl plain_call (mkClient h []) (preamble (t_calls t))).

Section spec.
Variable holdsSlot can_resend has_body : bool.

Notation try_once := (try_once holdsSlot can_resend has_body).
Notation forward := (forward holdsSlot can_resend has_body).

Lemma try_once_spec h t : lawful (t_calls t) ->
  match try_once h t with
  | (w, Some _) => w = mkClient (headers (cl h)) (log (cl h) ++ interim (headers (cl h)) t)
  | (w, None) => w = foldl plain_call (cl h) (t_calls t)
  end.
Proof.
  intros Hl. unfold RefusalHold.try_once. destruct (armed _ _ _ h t); [|done].
  fold (calls_through (newRefusalWriter (cl h), cl h) (t_calls t)).
  destruct (try_cases (cl h) (t_calls t) Hl) as [(rw & -> & ->)|(rw & -> & ->)]; [|done].
  unfold interim. by rewrite plain_log.
Qed.


(** ** The loop ends *)

Lemma refusalWait_bounds r : refusalRetryMin <= refusalWait r <= refusalRetryMax.
Proof. unfold refusalWait, refusalRetryMin, refusalRetryMax, refusalRetryDefault. repeat case_match; lia. Qed.

(** Times pass as the code makes them: a timer does not fire early. *)
Fixpoint timed (from : Z) (turns : list turn) : Prop :=
  match turns with
  | [] => True
  | t :: turns => from <= t_start t /\ t_start t <= t_done t /\ t_done t <= t_woke t /\
      (t_wake t = TimerFired -> t_done t + refusalRetryMin <= t_woke t) /\ timed (t_woke t) turns
  end.

Lemma spent_returns h t turns : spent h = true -> exists h', forward h (t :: turns) = Some h'.
Proof. intros Hs. cbn [RefusalHold.forward]. unfold RefusalHold.try_once, armed. rewrite Hs, andb_false_r. simpl. by eexists. Qed.

(** Each refusal after the first eats at least the shortest wait of what is left of the
    budget. *)
Lemma budget_runs_out left h f turns from :
  first h = Some f -> timed from turns -> f + refusalRetryBudget <= from + Z.of_nat left * refusalRetryMin ->
  (left < length turns)%nat -> exists h', forward h turns = Some h'.
Proof.
  revert h turns from. induction left as [|left IH]; intros h turns from Hf Ht Hb Hlen; (destruct turns as [|t turns]; [simpl in Hlen; lia|]).
  - destruct Ht as (H1 & H2 & H3 & H4 & _). cbn [RefusalHold.forward].
    assert (armed holdsSlot can_resend has_body h t = false) as Ha.
    { unfold armed, refusalHoldArmed. rewrite Hf. destruct (has_body && negb can_resend); [by rewrite andb_false_r|].
      rewrite time_sub_ltb by (unfold refusalRetryBudget, min_int64, max_int64; lia).
      assert (t_start t - f <? refusalRetryBudget = false) as -> by lia. by rewrite andb_false_r. }
    unfold RefusalHold.try_once. rewrite Ha. by eexists.
  - destruct Ht as (H1 & H2 & H3 & H4 & Ht). cbn [RefusalHold.forward].
    destruct (try_once h t) as [w [wait|]]; [|by eexists]. destruct (spent (after_refusal can_resend h t w)) eqn:Es.
    + destruct turns as [|t' turns]; [simpl in Hlen; lia|]. by apply spent_returns.
    + apply (IH _ turns (t_woke t)); [by unfold after_refusal; rewrite Hf|done| |simpl in Hlen; lia].
      unfold after_refusal in Es. simpl in Es. destruct (t_wake t); [|by rewrite orb_true_r in Es|by rewrite orb_true_r in Es].
      specialize (H4 eq_refl). unfold refusalRetryMin in *. lia.
Qed.

(** C31. [forward] comes back: whatever the child answers and however the waits end, by
    the 242nd try the answer is passed on, as no wait is shorter than the minimum and
    none starts once the budget is over. *)
Theorem forward_returns w turns from :
  timed from turns -> (242 <= length turns)%nat -> exists h, forward (start w) turns = Some h.
Proof.
  intros Ht Hlen. destruct turns as [|t turns]; [simpl in Hlen; lia|]. destruct Ht as (H1 & H2 & H3 & H4 & Ht). cbn [RefusalHold.forward].
  destruct (try_once (start w) t) as [w' [wait|]]; [|by eexists]. simpl in Hlen.
  apply (budget_runs_out 240 _ (t_done t) turns (t_woke t)); [done|done| |lia]. unfold refusalRetryBudget, refusalRetryMin. lia.
Qed.
End spec.

(** ** Witnesses *)

Definition ex_refused : turn :=
  mkTurn 1000 (Some 900) [SetHeader "Content-Length" ["12"]; SetHeader "Retry-After" ["1"]; CHeader 503; CWrite [98; 117; 115; 121]] 2000 TimerFired 1000002000 true.
Definition ex_taken : turn := mkTurn 1000002000 (Some 900) [SetHeader "Content-Type" ["text/event-stream"]; CHeader 200; CWrite [111; 107]] 1000003000 TimerFired 1000003000 true.
Definition ex_client : client := mkClient {["X-Request-Id" := ["7"]]} [].


(** A child that refuses for ever. *)
Fixpoint refusing (n : nat) (from : Z) : list turn :=
  match n with
  | O => []
  | S n => mkTurn from (Some from) [CHeader 503] from TimerFired (from + refusalRetryMin) true :: refusing n (from + refusalRetryMin)
  end.

Lemma refusing_timed n from : timed from (refusing n from).
Proof. revert from. induction n as [|n IH]; intros from; [done|]. simpl. unfold refusalRetryMin. split_and!; [lia..|apply IH]. Qed.

Lemma forward_returns_witness : exists h, forward true true true (start ex_client) (refusing 242 1000) = Some h.
Proof. exact (forward_returns true true true ex_client (refusing 242 1000) 1000 (refusing_timed 242 1000) ltac:(vm_compute; lia)). Defined.
End RefusalSpec.
