(* ===== verification/RouterOps.v ===== *)
(** Operations of the router outside its run loop ([internal/router/base.go]): the pins
    with their leases, and the order in which models are unloaded.

    A pin's map has a lock; a reader of it takes the lock, lets it go, looks at the
    clock, and takes it again to sweep, so these are separate steps. *)

From S2P Require Import Prelude SchedTypes.

Module RouterOps.
Import Sched.
Open Scope string_scope.
Open Scope list_scope.
Open Scope Z_scope.

(** ** Pins *)

(** The deadline of each pinned model; the zero time is a pin without end. *)
Abbreviation pins := (gmap string Z).

Definition PinWithTTL (p : pins) (model : string) (ttl now : Z) : pins * Z :=
  let deadline := if 0 <? ttl then now + ttl else 0 in (<[model := deadline]> p, deadline).
Definition Pin (p : pins) (model : string) (now : Z) : pins := (PinWithTTL p model 0 now).1.
Definition Unpin (p : pins) (model : string) : pins := delete model p.

(** A lease that is over; what [IsPinned] asks of the clock. *)
Definition over (d now : Z) : bool := negb (is_zero_time d) && negb (before now d).

(** Where a call of [IsPinned] is: it has read the deadline; it found the lease over. *)
Inductive reader := HasRead (model : string) (d : option Z) | FoundOver (model : string).

Record state := mkState { pinned : pins; readers : gmap nat reader }.

Inductive event :=
| DoPin (model : string) (ttl now : Z)
| DoUnpin (model : string)
| Read (call : nat) (model : string)
| Decide (call : nat) (now : Z)
| Sweep (call : nat) (now : Z).

Definition sweep (p : pins) (model : string) (now : Z) : pins :=
  match p !! model with Some d => if over d now then delete model p else p | None => p end.

(** The state after a step, and what [IsPinned] answers if it returns. *)
Definition step (s : state) (e : event) : option (state * option bool) :=
  match e with
  | DoPin model ttl now => Some (mkState (PinWithTTL (pinned s) model ttl now).1 (readers s), None)
  | DoUnpin model => Some (mkState (Unpin (pinned s) model) (readers s), None)
  | Read call model =>
    match readers s !! call with
    | None => Some (mkState (pinned s) (<[call := HasRead model (pinned s !! model)]> (readers s)), None)
    | Some _ => None
    end
  | Decide call now =>
    match readers s !! call with
    | Some (HasRead _ None) => Some (mkState (pinned s) (delete call (readers s)), Some false)
    | Some (HasRead model (Some d)) =>
      if over d now then Some (mkState (pinned s) (<[call := FoundOver model]> (readers s)), None)
      else Some (mkState (pinned s) (delete call (readers s)), Some true)
    | _ => None
    end
  | Sweep call now =>
    match readers s !! call with
    | Some (FoundOver model) => Some (mkState (sweep (pinned s) model now) (delete call (readers s)), Some false)
    | _ => None
    end
  end.

Fixpoint run (s : state) (es : list event) : option (state * list (option bool)) :=
  match es with
  | [] => Some (s, [])
  | e :: es => step s e ≫= fun '(s, a) => run s es ≫= fun '(s, l) => Some (s, a :: l)
  end.

(** [PinExpiry] once [IsPinned] answered: the second look at the map. *)
Definition pin_expiry (p : pins) (model : string) (answer : bool) : Z * bool :=
  if answer then (default 0 (p !! model), true) else (0, false).

(** A model is pinned at a moment. *)
Definition holds_at (p : pins) (model : string) (now : Z) : Prop := exists d, p !! model = Some d /\ over d now = false.

(** What was asked for last. *)
Fixpoint asked (p : pins) (es : list event) : pins :=
  match es with
  | [] => p
  | DoPin model ttl now :: es => asked (PinWithTTL p model ttl now).1 es
  | DoUnpin model :: es => asked (Unpin p model) es
  | _ :: es => asked p es
  end.

Definition time_of (e : event) : Z := match e with DoPin _ _ now | Decide _ now | Sweep _ now => now | _ => 0 end.

Lemma over_later d t t' : t <= t' -> over d t = true -> over d t' = true.
Proof. unfold over, before. intros Ht [-> H]%andb_prop. simpl. lia. Qed.

Lemma sweep_holds p model now m t : now <= t -> holds_at (sweep p model now) m t <-> holds_at p m t.
Proof.
  intros Ht. unfold sweep. destruct (p !! model) as [d|] eqn:Ep; [|done]. destruct (over d now) eqn:Eo; [|done].
  unfold holds_at. destruct (decide (m = model)) as [->|Hne]; [|by rewrite lookup_delete_ne].
  rewrite lookup_delete_eq, Ep. split; [by intros (? & ? & _)|]. intros (d' & [= <-] & Hd). by rewrite (over_later d now t Ht Eo) in Hd.
Qed.

Lemma asked_holds p q es t :
  (forall m, holds_at p m t <-> holds_at q m t) -> forall m, holds_at (asked p es) m t <-> holds_at (asked q es) m t.
Proof.
  revert p q. induction es as [|[model ttl now|model|call model|call now|call now] es IH]; intros p q H; simpl; try done; try (by apply IH).
  - apply IH. intros m. unfold holds_at, PinWithTTL. simpl. destruct (decide (m = model)) as [->|Hne]; [by rewrite !lookup_insert_eq|].
    rewrite !lookup_insert_ne by done. apply H.
  - apply IH. intros m. unfold holds_at, Unpin. destruct (decide (m = model)) as [->|Hne]; [by rewrite !lookup_delete_eq|].
    rewrite !lookup_delete_ne by done. apply H.
Qed.


(** A lease is refreshed between the two halves of [IsPinned]: the model was pinned all
    the time, the call says that it is not. *)
Lemma refreshed_lease_reads_unpinned :
  run (mkState {["m" := 10]} ∅) [Read 0 "m"; DoPin "m" 100 9; Decide 0 11; Sweep 0 11] =
    Some (mkState {["m" := 109]} ∅, [None; None; None; Some false]) /\
  over 10 9 = false /\ over 109 11 = false.
Proof. split_and!; vm_compute; reflexivity. Qed.

(** A model is unpinned between the two looks of [PinExpiry]: it is reported as pinned
    without end. *)
Lemma unpinned_reads_permanent :
  pinned <$> (fst <$> run (mkState {["m" := 100]} ∅) [Read 0 "m"; Decide 0 50; DoUnpin "m"]) = Some ∅ /\
  snd <$> run (mkState {["m" := 100]} ∅) [Read 0 "m"; Decide 0 50; DoUnpin "m"] = Some [None; Some true; None] /\
  pin_expiry ∅ "m" true = (0, true).
Proof. split_and!; vm_compute; reflexivity. Qed.


(** ** Unloading *)

Section unload.
(** [UnloadTimeout] of each model's configuration and the global one, in seconds. *)
Variable UnloadTimeouts : gmap string Z.
Variable UnloadTimeout : Z.

Definition unloadTimeout (model : string) : Z := i64 (default UnloadTimeout (UnloadTimeouts !! model) * nsec_second).

(** The requests [Unload] sends to the run loop, in order: each is its timeout and its
    targets. *)
Definition Unload (processes models : list string) (timeout : Z) : list (Z * list string) :=
  let targets := match models with [] => processes | _ => models end in
  match targets with
  | [] => []
  | _ =>
    if 0 <? timeout then [(timeout, targets)]
    else (fun t => (t, filter (fun id => unloadTimeout id = t) targets)) <$> merge_sort Z.le (remove_dups (unloadTimeout <$> targets))
  end.

Lemma filter_partition {A} (f : A -> Z) l ts : NoDup ts -> (forall x, x ∈ l -> f x ∈ ts) ->
  concat ((fun t => filter (fun x => f x = t) l) <$> ts) ≡ₚ l.
Proof.
  intros Hn. induction l as [|x l IH]; intros Hin.
  - clear. induction ts as [|t ts IH]; [done|]. exact IH.
  - assert (concat ((fun t => filter (fun x0 => f x0 = t) (x :: l)) <$> ts) ≡ₚ x :: concat ((fun t => filter (fun x0 => f x0 = t) l) <$> ts)) as ->.
    { assert (f x ∈ ts) as Hx by (apply Hin; by left). clear -Hn Hx. induction ts as [|t ts IH]; [by apply elem_of_nil in Hx|].
      apply NoDup_cons in Hn as [Hni Hn]. cbn [fmap list_fmap concat]. rewrite filter_cons. destruct (decide (f x = t)) as [E|Hne].
      - simpl. apply Permutation_skip, Permutation_app_head. apply (eq_subrelation (R := Permutation)); [apply _|]. f_equal. apply list_fmap_ext. intros i t' Ht'.
        rewrite filter_cons, decide_False; [done|]. intros E'. apply Hni. rewrite <- E, E'. by eapply list_elem_of_lookup_2.
      - apply elem_of_cons in Hx as [?|Hx]; [done|]. rewrite (IH Hn Hx). by rewrite Permutation_middle. }
    f_equiv. apply IH. intros y Hy. apply Hin. by right.
Qed.

(** Unloading asks for each target once: the requests split the targets, and without
    a timeout of the caller's every target is stopped with its own, shortest first. *)
Theorem Unload_correct processes models timeout :
  let targets := match models with [] => processes | _ => models end in
  concat (Unload processes models timeout).*2 ≡ₚ targets /\
  StronglySorted Z.lt (Unload processes models timeout).*1 /\
  forall t ids id, (t, ids) ∈ Unload processes models timeout -> id ∈ ids -> t = if 0 <? timeout then timeout else unloadTimeout id.
Proof.
  intros targets. unfold Unload. fold targets. destruct targets as [|x l] eqn:Et; [split_and!; [done|constructor|by intros ? ? ? ?%elem_of_nil]|].
  rewrite <- Et. clear Et x l. destruct (0 <? timeout).
  { split_and!; [simpl; by rewrite app_nil_r|repeat constructor|]. intros t ids id Hin _. apply list_elem_of_singleton in Hin. congruence. }
  set (ts := merge_sort Z.le (remove_dups (unloadTimeout <$> targets))).
  assert (ts ≡ₚ remove_dups (unloadTimeout <$> targets)) as Hp by apply merge_sort_Permutation.
  assert (NoDup ts) as Hn by (rewrite Hp; apply NoDup_remove_dups).
  rewrite <- !list_fmap_compose. split_and!.
  - apply filter_partition; [done|]. intros x Hx. rewrite Hp. apply elem_of_remove_dups. by apply list_elem_of_fmap_2.
  - assert (StronglySorted Z.le ts) as Hs by (apply Sorted_StronglySorted; [intros ? ? ?; lia|apply Sorted_merge_sort; intros ? ?; lia]).
    assert ((fst ∘ (fun t => (t, filter (fun id => unloadTimeout id = t) targets))) <$> ts = ts) as -> by (rewrite <- (list_fmap_id ts) at 2; done).
    clear Hp. induction Hs as [|t ts' Hs IH Hall]; [constructor|]. apply NoDup_cons in Hn as [Hni Hn]. constructor; [by apply IH|].
    apply Forall_forall. intros t' Ht'. pose proof (proj1 (Forall_forall _ _) Hall t' Ht'). assert (t <> t') by (intros ->; done). lia.
  - intros t ids id (t' & [= -> ->] & _)%list_elem_of_fmap Hid. apply list_elem_of_filter in Hid as [<- _]. done.
Qed.
End unload.

Lemma Unload_correct_witness :
  ("b", 20000000000) ∈ [("b", 20000000000)] /\ ((20000000000, ["b"]) ∈ Unload {["b" := 20]} 5 ["a"; "b"; "c"] [] 0 -> "b" ∈ ["b"] -> 20000000000 = unloadTimeout {["b" := 20]} 5 "b").
Proof.
  split; [by left|]. intros H1 H2. exact (proj2 (proj2 (Unload_correct {["b" := 20]} 5 ["a"; "b"; "c"] [] 0)) _ _ _ H1 H2).
Defined.

(** The requests of a concrete call: the two models without a timeout of their own share
    one. *)
Lemma Unload_runs : Unload {["b" := 20]} 5 ["a"; "b"; "c"] [] 0 = [(5000000000, ["a"; "c"]); (20000000000, ["b"])].
Proof. vm_compute. reflexivity. Qed.
End RouterOps.
