(* ===== verification/ConfigLoad.v ===== *)
(** Loading a configuration ([LoadConfigFromReader] of [internal/config/load.go]),
    from the decoded values on: the checks, the defaults a value inherits, the table
    of aliases, and the routing that the routers are built from.  The last check,
    of the Tailcat keys, is left out.

    [range] and [range_set] give the order in which a map is ranged over; lower case,
    the syntax of URLs and of shell patterns, and the file behind a store path are
    parameters. *)

From Stdlib Require Import Ascii SpecFloat.
From S2P Require Import Prelude Float64 Runes MonoDeque Brake LoopTrack MatrixDsl MatrixProgram ModelNames Selectors Macros RecordSet.

Module ConfigLoad.
Import Float64.
Import Macros(in_range, all_chars, Contains).
Open Scope string_scope.
Open Scope list_scope.
Open Scope Z_scope.

(** ** The configuration *)

Record ModelCapConfig := mkCap { In_ : list string; Out : list string; Context_ : Z }.

(** [ModelConfig]: what the loading looks at.  Of [SetParamsByID] only the keys are. *)
Record ModelConfig := mkModel {
  Proxy : string;
  Aliases : list string;
  UnloadAfter : Z;
  SwapGraceSeconds : Z;
  UnloadTimeout : Z;
  ConcurrencyLimit : Z;
  SetParamsByID : gmap string unit;
  SendLoadingState : option bool;
  IgnoreWebsockets : bool;
  Capabilities : ModelCapConfig;
  MaxParallelLargePrefill : Z;
  SlotGraceSeconds : Z;
  HealthCheckTimeout : Z;
}.

#[export] Instance model_fields : Fields ModelConfig := fun m =>
  mkModel (Proxy m) (Aliases m) (UnloadAfter m) (SwapGraceSeconds m) (UnloadTimeout m) (ConcurrencyLimit m) (SetParamsByID m)
    (SendLoadingState m) (IgnoreWebsockets m) (Capabilities m) (MaxParallelLargePrefill m) (SlotGraceSeconds m) (HealthCheckTimeout m).

Record GroupConfig := mkGroup { Swap : bool; Exclusive : bool; Persistent : bool; Members : list string }.

Record MatrixConfig := mkMatrix {
  Var : gmap string string;
  EvictCosts : gmap string Z;
  Sets : list Matrix.Definition_;
  program : option Matrix.Program;
}.

(** The settings that are only checked, and the few among them that are adjusted. *)
Record settings := mkSettings {
  HealthCheck : Z;
  PerformanceEvery : Z;
  StartPort : Z;
  GlobalTTL : Z;
  GlobalSwapGrace : Z;
  ResidentAliasGraceSeconds : Z;
  SessionRetention : Z;
  SwapStarvationSeconds : Z;
  MemoryBrake : MemBrake.MemoryBrakeConfig;
  ReleaseWhenModelsEvictedBelowGB : float64;
  PurgeCommand : list string;
  DebugEnabled : bool;
  DebugIntervalMs : Z;
  DebugRetainMinutes : Z;
  LoopGuard : LoopTrack.LoopGuard;
  GlobalUnloadTimeout : Z;
  GlobalConcurrencyLimit : Z;
  SessionHeaders : list string;
  StorePath : option string;
  IgnorePaths : list string;
  Bars : list string;
  TierListen : gmap string string;
  LogToStdout : string;
  GlobalLoadingState : bool;
  APIKeys : list string;
}.

#[export] Instance settings_fields : Fields settings := fun s =>
  mkSettings (HealthCheck s) (PerformanceEvery s) (StartPort s) (GlobalTTL s) (GlobalSwapGrace s) (ResidentAliasGraceSeconds s)
    (SessionRetention s) (SwapStarvationSeconds s) (MemoryBrake s) (ReleaseWhenModelsEvictedBelowGB s) (PurgeCommand s) (DebugEnabled s)
    (DebugIntervalMs s) (DebugRetainMinutes s) (LoopGuard s) (GlobalUnloadTimeout s) (GlobalConcurrencyLimit s) (SessionHeaders s)
    (StorePath s) (IgnorePaths s) (Bars s) (TierListen s) (LogToStdout s) (GlobalLoadingState s) (APIKeys s).

(** [Groups] and [MatrixOf] are the legacy keys at the top, [RouterGroups] and
    [RouterMatrix] those under [routing]. *)
Record Config := mkConfig {
  cfg : settings;
  Models : gmap string ModelConfig;
  aliases : gmap string string;
  ResidentAliases : list string;
  RouterUse : string;
  RouterGroups : gmap string GroupConfig;
  RouterMatrix : option MatrixConfig;
  Groups : gmap string GroupConfig;
  MatrixOf : option MatrixConfig;
  SchedulerUse : string;
  Priority : gmap string Z;
  FifoRetention : Z;
  Preload : list string;
  StartupProfile : string;
  Peers : gmap string (list string);
  SelectorOf : gmap string Selectors.SelectorConfig;
  Profiles : gmap string (gmap string string);
}.

#[export] Instance config_fields : Fields Config := fun c =>
  mkConfig (cfg c) (Models c) (aliases c) (ResidentAliases c) (RouterUse c) (RouterGroups c) (RouterMatrix c) (Groups c) (MatrixOf c)
    (SchedulerUse c) (Priority c) (FifoRetention c) (Preload c) (StartupProfile c) (Peers c) (SelectorOf c) (Profiles c).

Inductive load_error :=
| Performance_
| BadStartPort
| Negative (field : string)
| Starvation
| BrakeInvalid
| BrakeRelease
| BrakePurge
| DebugInvalid
| GuardInvalid
| GuardLadder
| GuardPenalty (i : nat)
| StoreInvalid
| BarsInvalid
| TierNoListen (tier : string)
| TierDuplicate (tier other : string)
| LogInvalid
| DuplicateAlias (alias model : string)
| BadPattern (pattern : string)
| PatternCollides (pattern : string)
| ModelInvalid (model field : string)
| KeyIsModel (model key : string)
| KeyIsAlias (model key other : string)
| TwoStyles
| NoMatrix
| UnknownRouter
| GroupsAndMatrix
| NoSets
| BadVar (id : string)
| VarUnknown (id : string)
| CostNotPositive (key : string)
| CostUnknown (key : string)
| BadSets (e : option Dsl.dsl_error)
| TwiceInGroup (member group : string)
| InTwoGroups (member group other : string)
| UnknownScheduler
| PriorityUnknown (model : string)
| EmptyKey
| KeyHasSpace (i : nat)
| PeerClash (e : ModelNames.name_error)
| SelectorInvalid (e : Selectors.selector_error)
| ProfileEmptyName
| ProfileNoPins (profile : string)
| ProfileEmptyPin (profile : string)
| ProfileUnknown (profile pin target : string)
| StartupProfileUnknown.

Section load.
Context `{UnicodeTables}.
Variable range : forall A : Type, gmap string A -> list (string * A).
Variable range_set : gset string -> list string.
(** [strings.ToLower]; whether [url.Parse] and [path.Match] accept; whether a store can
    be kept at a path. *)
Variable ToLower : string -> string.
Variable url_ok glob_ok store_ok : string -> bool.

Definition TrimSpace (s : string) : string := string_of_runes (trim_space (runes_of_string s)).

(** A check: [None] is success. *)
Definition check (bad : bool) (e : load_error) : option load_error := if bad then Some e else None.

(** The first error of a list of checks, in order. *)
Definition first_of (l : list (option load_error)) : option load_error := head (omap id l).

(** ** The settings *)

Definition DEFAULT_UNLOAD_TIMEOUT : Z := 10.
Definition DEFAULT_GROUP_ID : string := "(default)".
Definition MenuBarMetrics : list string := ["gpu"; "vram"; "cpu"; "ram"].
Definition DefaultUpstreamIgnorePaths : list string := [".*\.(js|json|css|png|gif|jpg|jpeg|ico|txt)$"].

Definition fzero : float64 := of_int 0.

Fixpoint normalize_names (seen : gset string) (names : list string) : list string :=
  match names with
  | [] => []
  | name :: names =>
    let name := TrimSpace name in
    if String.eqb name "" then normalize_names seen names
    else if bool_decide (ToLower name ∈ seen) then normalize_names seen names
    else name :: normalize_names ({[ToLower name]} ∪ seen) names
  end.
Definition normalizeHeaderNames (names : list string) : list string := normalize_names ∅ names.

(** [MenuBarConfig.Validate]: the bars in their normal form. *)
Fixpoint normalize_bars (seen : gset string) (bars : list string) : option (list string) :=
  match bars with
  | [] => Some []
  | bar :: bars =>
    let bar := ToLower (TrimSpace bar) in
    if bool_decide (bar ∈ MenuBarMetrics) && negb (bool_decide (bar ∈ seen)) then cons bar <$> normalize_bars ({[bar]} ∪ seen) bars
    else None
  end.
Definition Validate_bars (bars : list string) : option (list string) :=
  if ((length bars <? 1) || (2 <? length bars))%nat then None else normalize_bars ∅ bars.

Fixpoint check_tiers (seen : gmap string string) (tiers : list (string * string)) : option load_error :=
  match tiers with
  | [] => None
  | (name, listen) :: tiers =>
    if String.eqb (TrimSpace listen) "" then Some (TierNoListen name)
    else match seen !! listen with
         | Some other => Some (TierDuplicate name other)
         | None => check_tiers (<[listen := name]> seen) tiers
         end
  end.

(** Tiers in the order of their names. *)
Definition sorted_tiers (t : gmap string string) : list (string * string) :=
  (fun name => (name, default "" (t !! name))) <$> sort_strings (range _ t).*1.

Definition penalty_error (ps : list Z) : option load_error :=
  first_of ((fun ip => check (ip.2 <? -1) (GuardPenalty ip.1)) <$> zip (seq 0 (length ps)) ps).

(** What comes before [config.Performance.Every] is checked is done by [adjust]. *)
Definition adjust (s : settings) : settings :=
  s <| HealthCheck ::= (if HealthCheck s <? 15 then 15 else HealthCheck s) |>
    <| PerformanceEvery ::= (if PerformanceEvery s =? 0 then 5 * nsec_second else PerformanceEvery s) |>.

Definition check_brake (s : settings) : option load_error :=
  let mb := MemoryBrake s in
  first_of [
    check ((MemBrake.SampleIntervalMs mb <=? 0) || (MemBrake.WindowMinutes mb <=? 0) || fleb (MemBrake.cfg_GrowthGB mb) fzero ||
           (MemBrake.ArmAfterMinutes mb <? 0) || (MemBrake.ConfirmSamples mb <? 1) || fltb (MemBrake.DrainBelowGB mb) fzero) BrakeInvalid;
    check (negb (SFeqb (ReleaseWhenModelsEvictedBelowGB s) fzero)) BrakeRelease;
    check (MemBrake.PurgeAfterMinutes mb <? 0) BrakePurge;
    check ((0 <? MemBrake.PurgeAfterMinutes mb) && bool_decide (PurgeCommand s = [])) BrakePurge].

Definition check_guard (g : LoopTrack.LoopGuard) : option load_error :=
  first_of [
    check ((LoopTrack.RunBar g <? 2) || (LoopTrack.ToleranceTokens g <? 0)) GuardInvalid;
    check ((LoopTrack.Strikes g <? 1) || (LoopTrack.ClearRequests g <? 1)) GuardInvalid;
    check (LoopTrack.MaxLoopTokens g <? 1) GuardInvalid;
    check ((LoopTrack.MaxPeriod g <? 1) || (LoopTrack.RunBar g <? i64 (LoopTrack.MaxPeriod g * 4))) GuardInvalid;
    check (negb (Z.of_nat (length (LoopTrack.PenaltySeconds g)) =? LoopTrack.Strikes g)) GuardLadder;
    penalty_error (LoopTrack.PenaltySeconds g)].

Definition check_settings (s : settings) : option load_error :=
  first_of [
    check (PerformanceEvery s <? 5 * nsec_second) Performance_;
    check (StartPort s <? 1) BadStartPort;
    check (GlobalTTL s <? 0) (Negative "globalTTL");
    check (GlobalSwapGrace s <? 0) (Negative "swapGraceSeconds");
    check (ResidentAliasGraceSeconds s <? 0) (Negative "residentAliasGraceSeconds");
    check (SessionRetention s <? 0) (Negative "sessions.decodeRetentionSeconds");
    check (0 <? SwapStarvationSeconds s) Starvation;
    check (SwapStarvationSeconds s <? -1) Starvation;
    check_brake s;
    check (DebugEnabled s && ((DebugIntervalMs s <=? 0) || (DebugRetainMinutes s <=? 0))) DebugInvalid;
    check_guard (LoopGuard s);
    check (GlobalUnloadTimeout s <? 0) (Negative "unloadTimeout");
    check (GlobalConcurrencyLimit s <? 0) (Negative "globalConcurrencyLimit");
    check (match StorePath s with Some p => negb (store_ok p) | None => false end) StoreInvalid;
    check (bool_decide (Validate_bars (Bars s) = None)) BarsInvalid;
    check_tiers ∅ (sorted_tiers (TierListen s));
    check (negb (bool_decide (LogToStdout s ∈ ["proxy"; "upstream"; "both"; "none"]))) LogInvalid].

(** The settings as they are kept. *)
Definition normal_settings (s : settings) : settings :=
  s <| DebugIntervalMs ::= (if DebugIntervalMs s <? 1000 then 1000 else DebugIntervalMs s) |>
    <| GlobalUnloadTimeout ::= (if GlobalUnloadTimeout s =? 0 then DEFAULT_UNLOAD_TIMEOUT else GlobalUnloadTimeout s) |>
    <| SessionHeaders ::= normalizeHeaderNames (SessionHeaders s) |>
    <| IgnorePaths ::= (match IgnorePaths s with [] => DefaultUpstreamIgnorePaths | l => l end) |>
    <| Bars ::= default [] (Validate_bars (Bars s)) |>.

Definition load_settings (s : settings) : result load_error settings :=
  let s := adjust s in
  match check_settings s with Some e => Err e | None => Ok (normal_settings s) end.
(** ** Models and their names *)

Definition RealModelName (c : Config) (search : string) : option string :=
  if bool_decide (is_Some (Models c !! search)) then Some search else aliases c !! search.

Fixpoint add_aliases (model : string) (l : list string) (t : gmap string string) : result load_error (gmap string string) :=
  match l with
  | [] => Ok t
  | a :: l => if bool_decide (is_Some (t !! a)) then Err (DuplicateAlias a model) else add_aliases model l (<[a := model]> t)
  end.

(** The declared aliases of all models. *)
Fixpoint declared_aliases (l : list (string * ModelConfig)) (t : gmap string string) : result load_error (gmap string string) :=
  match l with
  | [] => Ok t
  | (model, mc) :: l => rbind (add_aliases model (Aliases mc) t) (declared_aliases l)
  end.

Definition check_resident (c : Config) (pattern : string) : option load_error :=
  if negb (glob_ok pattern) then Some (BadPattern pattern)
  else check (bool_decide (is_Some (RealModelName c pattern))) (PatternCollides pattern).

Definition ComfyUIModelID : string := "comfyui_auto".
Definition comfyUIConcurrencyLimit : Z := 50.
Definition MODEL_CONFIG_DEFAULT_TTL : Z := -1.
Definition MODEL_CONFIG_DEFAULT_SWAP_GRACE : Z := -1.
Definition validModalities : list string := ["text"; "audio"; "image"; "video"].

(** [ModelCapConfig.Validate] *)
Definition capabilities_ok (c : ModelCapConfig) : bool :=
  forallb (fun m => bool_decide (m ∈ validModalities)) (In_ c) && forallb (fun m => bool_decide (m ∈ validModalities)) (Out c) &&
  (0 <=? Context_ c).

(** What a model inherits. *)
Definition inherit (s : settings) (id : string) (m : ModelConfig) : ModelConfig :=
  let m := m <| HealthCheckTimeout ::= HealthCheck s |> in
  let m := if String.eqb id ComfyUIModelID
           then m <| ConcurrencyLimit ::= Z.max (ConcurrencyLimit m) comfyUIConcurrencyLimit |> <| IgnoreWebsockets ::= true |> else m in
  m <| UnloadAfter ::= (if UnloadAfter m =? MODEL_CONFIG_DEFAULT_TTL then GlobalTTL s else UnloadAfter m) |>
    <| SwapGraceSeconds ::= (if SwapGraceSeconds m =? MODEL_CONFIG_DEFAULT_SWAP_GRACE then GlobalSwapGrace s else SwapGraceSeconds m) |>
    <| UnloadTimeout ::= (if UnloadTimeout m =? 0 then GlobalUnloadTimeout s else UnloadTimeout m) |>.

Definition check_model (id : string) (m : ModelConfig) : option load_error :=
  first_of [
    check (UnloadAfter m <? 0) (ModelInvalid id "ttl");
    check (SwapGraceSeconds m <? 0) (ModelInvalid id "swapGraceSeconds");
    check (UnloadTimeout m <? 0) (ModelInvalid id "unloadTimeout");
    check (MaxParallelLargePrefill m <? 0) (ModelInvalid id "maxParallelLargePrefill");
    check (SlotGraceSeconds m <? 0) (ModelInvalid id "slotGraceSeconds");
    check (0 <? SlotGraceSeconds m) (ModelInvalid id "slotGraceSeconds");
    check (negb (capabilities_ok (Capabilities m))) (ModelInvalid id "capabilities")].

(** The keys of setParamsByID become aliases of their model; [l] is what is added to its
    list. *)
Fixpoint register_keys (models : gmap string ModelConfig) (id : string) (keys : list string) (t : gmap string string) (l : list string) :
  result load_error (gmap string string * list string) :=
  match keys with
  | [] => Ok (t, l)
  | key :: keys =>
    if String.eqb key id then register_keys models id keys t l
    else if bool_decide (is_Some (models !! key)) then Err (KeyIsModel id key)
    else match t !! key with
         | Some other => if String.eqb other id then register_keys models id keys t l else Err (KeyIsAlias id key other)
         | None => register_keys models id keys (<[key := id]> t) (l ++ [key])
         end
  end.

Definition load_model (c : Config) (id : string) : result load_error Config :=
  match Models c !! id with
  | None => Ok c
  | Some m =>
    let m := inherit (cfg c) id m in
    match check_model id m with
    | Some e => Err e
    | None =>
      rbind (register_keys (Models c) id (range _ (SetParamsByID m)).*1 (aliases c) []) (fun '(t, l) =>
      if negb (url_ok (Proxy m)) then Err (ModelInvalid id "proxy")
      else
        let m := m <| Aliases ::= Aliases m ++ l |>
                   <| SendLoadingState ::= Some (default (GlobalLoadingState (cfg c)) (SendLoadingState m)) |> in
        Ok (c <| aliases ::= t |> <| Models ::= <[id := m]> (Models c) |>))
    end
  end.

Fixpoint load_models (c : Config) (ids : list string) : result load_error Config :=
  match ids with
  | [] => Ok c
  | id :: ids => rbind (load_model c id) (fun c => load_models c ids)
  end.

(** From the declared aliases to the last model. *)
Definition load_names (c : Config) : result load_error Config :=
  rbind (declared_aliases (range _ (Models c)) ∅) (fun t =>
  let c := c <| aliases ::= t |> in
  match first_of (check_resident c <$> ResidentAliases c) with
  | Some e => Err e
  | None => load_models c (sort_strings (range _ (Models c)).*1)
  end).

(** ** Routing *)

(** Which of the two styles is used, and what it says. *)
Definition choose_style (c : Config) : result load_error Config :=
  let hasTopLevel := bool_decide (is_Some (MatrixOf c)) || negb (bool_decide (Groups c = ∅)) in
  let hasRouting := negb (String.eqb (RouterUse c) "") || bool_decide (is_Some (RouterMatrix c)) || negb (bool_decide (RouterGroups c = ∅)) in
  if hasTopLevel && hasRouting then Err TwoStyles
  else if hasTopLevel then Ok c
  else if String.eqb (RouterUse c) "matrix" then
    match RouterMatrix c with None => Err NoMatrix | Some m => Ok (c <| MatrixOf ::= Some m |>) end
  else if bool_decide (RouterUse c ∈ ["group"; ""]) then Ok (c <| Groups ::= RouterGroups c |>)
  else Err UnknownRouter.

Definition resolveMatrixModel (vars : gmap string string) (models : gmap string ModelConfig) (ident : string) : option string :=
  match vars !! ident with
  | Some model => Some model
  | None => if bool_decide (is_Some (models !! ident)) then Some ident else None
  end.

(** [varKeyPattern]: one to thirty-two letters, digits, dots and dashes. *)
Definition var_char (c : ascii) : bool :=
  in_range 97 122 c || in_range 65 90 c || in_range 48 57 c || Ascii.eqb c "." || Ascii.eqb c "-".
Definition var_ok (id : string) : bool :=
  ((1 <=? String.length id) && (String.length id <=? 32))%nat && all_chars var_char id.

Definition check_var (models : gmap string ModelConfig) (kv : string * string) : option load_error :=
  if negb (var_ok kv.1) then Some (BadVar kv.1)
  else check (negb (bool_decide (is_Some (models !! kv.2)))) (VarUnknown kv.1).

Definition check_cost (m : MatrixConfig) (models : gmap string ModelConfig) (kv : string * Z) : option load_error :=
  if kv.2 <=? 0 then Some (CostNotPositive kv.1)
  else check (bool_decide (resolveMatrixModel (Var m) models kv.1 = None)) (CostUnknown kv.1).

(** A compilation that does not answer ([BadSets None]) does not happen. *)
Definition ValidateMatrix (m : MatrixConfig) (models : gmap string ModelConfig) : result load_error MatrixConfig :=
  if bool_decide (Sets m = []) then Err NoSets
  else match first_of (check_var models <$> range _ (Var m)) with
  | Some e => Err e
  | None =>
    match first_of (check_cost m models <$> range _ (EvictCosts m)) with
    | Some e => Err e
    | None =>
      match Matrix.Compile (resolveMatrixModel (Var m) models) range_set (Sets m) with
      | Some (Ok p) => Ok (mkMatrix (Var m) (EvictCosts m) (Sets m) (Some p))
      | Some (Err e) => Err (BadSets (Some e))
      | None => Err (BadSets None)
      end
    end
  end.

(** [ResolvedEvictCosts] *)
Definition ResolvedEvictCosts (m : MatrixConfig) : gmap string Z :=
  foldl (fun costs kv => <[default kv.1 (Var m !! kv.1) := kv.2]> costs) ∅ (range _ (EvictCosts m)).

Definition AddDefaultGroupToConfig (models : gmap string ModelConfig) (groups : gmap string GroupConfig) : gmap string GroupConfig :=
  let ids := (range _ models).*1 in
  let rest := if bool_decide (groups = ∅) then ids
              else filter (fun id => Forall (fun kv => id ∉ Members kv.2) (range _ groups)) ids in
  <[DEFAULT_GROUP_ID := mkGroup true true false (sort_strings rest)]> groups.

Fixpoint use_members (group : string) (seen : gset string) (members : list string) (usage : gmap string string) :
  result load_error (gmap string string) :=
  match members with
  | [] => Ok usage
  | m :: members =>
    if bool_decide (m ∈ seen) then Err (TwiceInGroup m group)
    else match usage !! m with
         | Some other => Err (InTwoGroups m group other)
         | None => use_members group ({[m]} ∪ seen) members (<[m := group]> usage)
         end
  end.

Fixpoint check_members (l : list (string * GroupConfig)) (usage : gmap string string) : result load_error (gmap string string) :=
  match l with
  | [] => Ok usage
  | (id, g) :: l => rbind (use_members id ∅ (Members g) usage) (check_members l)
  end.

Definition load_groups (c : Config) : result load_error Config :=
  if bool_decide (is_Some (MatrixOf c)) && negb (bool_decide (Groups c = ∅)) then Err GroupsAndMatrix
  else match MatrixOf c with
  | Some m => rbind (ValidateMatrix m (Models c)) (fun m => Ok (c <| MatrixOf ::= Some m |>))
  | None =>
    let c := c <| Groups ::= AddDefaultGroupToConfig (Models c) (Groups c) |> in
    rbind (check_members (range _ (Groups c)) ∅) (fun _ => Ok c)
  end.

(** What the routers read. *)
Definition canonical (c : Config) : Config :=
  c <| RouterUse ::= (if MatrixOf c then "matrix" else "group") |> <| RouterMatrix ::= MatrixOf c |> <| RouterGroups ::= Groups c |>.

Definition check_scheduler (c : Config) : result load_error Config :=
  let c := c <| SchedulerUse ::= (if String.eqb (SchedulerUse c) "" then "fifo" else SchedulerUse c) |> in
  if negb (String.eqb (SchedulerUse c) "fifo") then Err UnknownScheduler
  else match first_of ((fun kv => check (bool_decide (RealModelName c kv.1 = None)) (PriorityUnknown kv.1)) <$> range _ (Priority c)) with
  | Some e => Err e
  | None => Ok c
  end.

(** ** The rest *)

(** An empty name leads nowhere, and an unknown one is dropped. *)
Definition preload (c : Config) : list string :=
  omap (fun id => let id := TrimSpace id in if String.eqb id "" then None else RealModelName c id) (Preload c).

Definition check_key (ik : nat * string) : option load_error :=
  if String.eqb ik.2 "" then Some EmptyKey else check (Contains " " ik.2) (KeyHasSpace ik.1).

(** The configuration as names and selectors are checked against. *)
Definition names_of (c : Config) : ModelNames.names :=
  ModelNames.mkNames (Aliases <$> Models c) (aliases c) (Peers c) (dom (SelectorOf c)) (dom <$> Profiles c).

Definition selectors_of (c : Config) : Selectors.Config :=
  Selectors.mkConfig (names_of c) (SelectorOf c) (String.eqb (RouterUse c) "matrix") (RouterMatrix c ≫= program)
    ((fun g => Selectors.mkGroup (Swap g) (Members g)) <$> RouterGroups c)
    (dom (filter (fun kv => IgnoreWebsockets kv.2 = true) (Models c))).

Definition check_pin (c : Config) (profile : string) (kv : string * string) : option load_error :=
  if String.eqb (TrimSpace kv.1) "" then Some (ProfileEmptyPin profile)
  else if String.eqb kv.2 "" then None
  else check (bool_decide (ModelNames.ResolveBaseModel range (names_of c) kv.2 = None) && bool_decide (SelectorOf c !! kv.2 = None))
         (ProfileUnknown profile kv.1 kv.2).

Definition check_profile (c : Config) (kv : string * gmap string string) : option load_error :=
  if String.eqb (TrimSpace kv.1) "" then Some ProfileEmptyName
  else if bool_decide (kv.2 = ∅) then Some (ProfileNoPins kv.1)
  else first_of (check_pin c kv.1 <$> range _ kv.2).

Definition validateProfiles (c : Config) : option load_error :=
  first_of [
    first_of (check_profile c <$> range _ (Profiles c));
    check (negb (String.eqb (StartupProfile c) "") && bool_decide (Profiles c !! StartupProfile c = None)) StartupProfileUnknown].

Definition check_rest (c : Config) : option load_error :=
  first_of [
    first_of (check_key <$> zip (seq 0 (length (APIKeys (cfg c)))) (APIKeys (cfg c)));
    PeerClash <$> ModelNames.ValidatePeerNamespace range (names_of c);
    SelectorInvalid <$> Selectors.validateSelectors range (selectors_of c);
    validateProfiles c].

(** [config] is what the file decodes to. *)
Definition LoadConfigFromReader (config : Config) : result load_error Config :=
  rbind (load_settings (cfg config)) (fun s =>
  let c := config <| cfg ::= s |> <| FifoRetention ::= SessionRetention s |> in
  rbind (load_names c) (fun c =>
  rbind (choose_style c) (fun c =>
  rbind (load_groups c) (fun c =>
  rbind (check_scheduler (canonical c)) (fun c =>
  let c := c <| Preload ::= preload c |> in
  match check_rest c with Some e => Err e | None => Ok c end))))).
End load.
End ConfigLoad.
