(* ===== verification/ConfigSpec.v ===== *)
(** What a configuration that was loaded (ConfigLoad.v) is: its settings in range, its
    names unambiguous, its models in one group each or in a compiled matrix, its
    selectors and peers checked. *)

From Stdlib Require Import Ascii SpecFloat.
From S2P Require Import Prelude Float64 Runes MonoDeque Brake LoopTrack MatrixDsl MatrixProgram MatrixSolve Swappers ModelNames Selectors Macros RecordSet ConfigLoad.

Module ConfigSpec.
Import Float64 ConfigLoad.
Import Macros(in_range).
Open Scope string_scope.
Open Scope list_scope.
Open Scope Z_scope.

(** ** Checks *)

Lemma check_none b e : check b e = None <-> b = false.
Proof. unfold check. by destruct b. Qed.

Lemma first_of_nil : first_of [] = None <-> True.
Proof. done. Qed.

Lemma first_of_cons o l : first_of (o :: l) = None <-> o = None /\ first_of l = None.
Proof. unfold first_of. destruct o; simpl; naive_solver. Qed.

Lemma first_of_map {A} (f : A -> option load_error) l : first_of (f <$> l) = None <-> forall x, x ∈ l -> f x = None.
Proof.
  induction l as [|x l IH]; [split; [by intros _ ? ?%elem_of_nil|done]|]. rewrite fmap_cons, first_of_cons, IH. set_solver.
Qed.

(** What a list of checks that all pass says. *)
Ltac passed H :=
  repeat first [rewrite first_of_cons in H | rewrite first_of_nil in H | rewrite check_none in H | rewrite orb_false_iff in H].

(** ** The settings *)

Section settings.
Context `{UnicodeTables}.
Variable range : forall A : Type, gmap string A -> list (string * A).
Variable ToLower : string -> string.
Variable store_ok : string -> bool.
Hypothesis range_perm : forall A (m : gmap string A), range A m ≡ₚ map_to_list m.

Record guard_sane (g : LoopTrack.LoopGuard) : Prop := {
  gs_bar : 2 <= LoopTrack.RunBar g;
  gs_tolerance : 0 <= LoopTrack.ToleranceTokens g;
  gs_strikes : 1 <= LoopTrack.Strikes g;
  gs_clear : 1 <= LoopTrack.ClearRequests g;
  gs_tokens : 1 <= LoopTrack.MaxLoopTokens g;
  gs_period : 1 <= LoopTrack.MaxPeriod g /\ i64 (LoopTrack.MaxPeriod g * 4) <= LoopTrack.RunBar g;
  gs_ladder : Z.of_nat (length (LoopTrack.PenaltySeconds g)) = LoopTrack.Strikes g;
  gs_penalties : Forall (fun p => -1 <= p) (LoopTrack.PenaltySeconds g);
}.

Record brake_sane (s : settings) : Prop := {
  bs_interval : 0 < MemBrake.SampleIntervalMs (MemoryBrake s);
  bs_window : 0 < MemBrake.WindowMinutes (MemoryBrake s);
  bs_growth : fleb (MemBrake.cfg_GrowthGB (MemoryBrake s)) fzero = false;
  bs_arm : 0 <= MemBrake.ArmAfterMinutes (MemoryBrake s);
  bs_confirm : 1 <= MemBrake.ConfirmSamples (MemoryBrake s);
  bs_drain : fltb (MemBrake.DrainBelowGB (MemoryBrake s)) fzero = false;
  bs_release : SFeqb (ReleaseWhenModelsEvictedBelowGB s) fzero = true;
  bs_purge : 0 <= MemBrake.PurgeAfterMinutes (MemoryBrake s);
  bs_command : MemBrake.PurgeAfterMinutes (MemoryBrake s) <> 0 -> PurgeCommand s <> [];
}.

(** A name without blanks around it that is not empty. *)
Definition trimmed (s : string) : Prop := s <> "" /\ exists s0, s = TrimSpace s0.

Record settings_sane (s : settings) : Prop := {
  ss_health : 15 <= HealthCheck s;
  ss_every : 5 * nsec_second <= PerformanceEvery s;
  ss_port : 1 <= StartPort s;
  ss_ttl : 0 <= GlobalTTL s;
  ss_grace : 0 <= GlobalSwapGrace s;
  ss_resident : 0 <= ResidentAliasGraceSeconds s;
  ss_retention : 0 <= SessionRetention s;
  ss_starvation : -1 <= SwapStarvationSeconds s <= 0;
  ss_brake : brake_sane s;
  ss_debug : 1000 <= DebugIntervalMs s /\ (DebugEnabled s = true -> 0 < DebugRetainMinutes s);
  ss_guard : guard_sane (LoopGuard s);
  ss_unload : 0 < GlobalUnloadTimeout s;
  ss_limit : 0 <= GlobalConcurrencyLimit s;
  ss_headers : NoDup (ToLower <$> SessionHeaders s) /\ Forall trimmed (SessionHeaders s);
  ss_store : forall p, StorePath s = Some p -> store_ok p = true;
  ss_paths : IgnorePaths s <> [];
  ss_bars : (1 <= length (Bars s) <= 2)%nat /\ NoDup (Bars s) /\ Forall (fun b => b ∈ MenuBarMetrics) (Bars s);
  ss_tiers : forall t t' a, TierListen s !! t = Some a -> TrimSpace a <> "" /\ (TierListen s !! t' = Some a -> t = t');
  ss_log : LogToStdout s ∈ ["proxy"; "upstream"; "both"; "none"];
}.

Lemma normalize_names_spec seen names :
  (forall x, x ∈ normalize_names ToLower seen names -> trimmed x /\ ToLower x ∉ seen) /\ NoDup (ToLower <$> normalize_names ToLower seen names).
Proof.
  revert seen. induction names as [|n names IH]; intros seen; [split; [by intros ? ?%elem_of_nil|constructor]|]. simpl.
  destruct (String.eqb_spec (TrimSpace n) "") as [|Hne]; [apply IH|]. case_bool_decide as Hs; [apply IH|].
  destruct (IH ({[ToLower (TrimSpace n)]} ∪ seen)) as [IH1 IH2]. split.
  - intros x [->|Hx]%elem_of_cons; [split; [split; [done|by eexists]|done]|]. destruct (IH1 x Hx) as [? Hn]. split; [done|set_solver].
  - rewrite fmap_cons. constructor; [|done]. intros (y & Hy & Hin)%list_elem_of_fmap. destruct (IH1 y Hin) as [_ Hn]. set_solver.
Qed.

Lemma normalize_bars_spec seen bars l : normalize_bars ToLower seen bars = Some l ->
  length l = length bars /\ NoDup l /\ forall x, x ∈ l -> x ∈ MenuBarMetrics /\ x ∉ seen.
Proof.
  revert seen l. induction bars as [|b bars IH]; intros seen l; simpl; [intros [= <-]; split_and!; [done|constructor|by intros ? ?%elem_of_nil]|].
  case_bool_decide as Hm; [|done]. case_bool_decide as Hs; [done|]. simpl.
  destruct (normalize_bars ToLower _ bars) as [l'|] eqn:E; [|done]. intros [= <-]. destruct (IH _ _ E) as (Hl & Hn & Hin).
  split_and!; [simpl; lia|constructor; [|done]; intros Hx; destruct (Hin _ Hx); set_solver|].
  intros x [->|Hx]%elem_of_cons; [done|]. destruct (Hin x Hx). set_solver.
Qed.

Lemma check_tiers_none seen tiers : check_tiers seen tiers = None <->
  (forall t a, (t, a) ∈ tiers -> TrimSpace a <> "" /\ seen !! a = None) /\ NoDup tiers.*2.
Proof.
  revert seen. induction tiers as [|[t a] tiers IH]; intros seen; [split; [intros _; split; [by intros ? ? ?%elem_of_nil|constructor]|done]|]. simpl.
  destruct (String.eqb_spec (TrimSpace a) "") as [Hb|Hb]; [split; [done|intros [Ht _]; destruct (Ht t a); [left|done]]|].
  destruct (seen !! a) eqn:Es; [split; [done|intros [Ht _]; destruct (Ht t a); [left|congruence]]|].
  rewrite IH, NoDup_cons. split.
  - intros [Ht Hn]. split.
    + intros t' a' [[= -> ->]|Hin]%elem_of_cons; [done|]. destruct (Ht t' a' Hin) as [? Hs]. split; [done|].
      destruct (decide (a' = a)) as [->|Hne]; [by rewrite lookup_insert_eq in Hs|by rewrite lookup_insert_ne in Hs].
    + split; [|done]. intros ((t' & a') & -> & Hin)%list_elem_of_fmap. destruct (Ht t' a' Hin) as [_ Hs]. simpl in Hs. by rewrite lookup_insert_eq in Hs.
  - intros [Ht [Hni Hn]]. split; [|done]. intros t' a' Hin. destruct (Ht t' a'); [by right|]. split; [done|].
    rewrite lookup_insert_ne; [done|]. intros ->. apply Hni. apply list_elem_of_fmap. by exists (t', a').
Qed.
Lemma sorted_tiers_elem (m : gmap string string) t a : (t, a) ∈ sorted_tiers range m <-> m !! t = Some a.
Proof.
  unfold sorted_tiers. rewrite list_elem_of_fmap. setoid_rewrite sort_strings_elem. split.
  - intros (t' & [= -> ->] & Hin). apply (ModelNames.range_names range range_perm) in Hin as [a Ha]. by rewrite Ha.
  - intros Hm. exists t. rewrite Hm. split; [done|]. apply (ModelNames.range_names range range_perm). by eexists.
Qed.

Lemma sorted_tiers_apart (m : gmap string string) : NoDup (sorted_tiers range m).*2 -> forall t t' a, m !! t = Some a -> m !! t' = Some a -> t = t'.
Proof.
  intros Hn t t' a Ht Ht'. apply sorted_tiers_elem in Ht as [i Hi]%list_elem_of_lookup_1, Ht' as [j Hj]%list_elem_of_lookup_1.
  assert (i = j) as <- by (apply (NoDup_lookup _ i j a Hn); by rewrite list_lookup_fmap, ?Hi, ?Hj). congruence.
Qed.

Lemma guard_checked g : check_guard g = None -> guard_sane g.
Proof.
  unfold check_guard. intros Hc. passed Hc. destruct Hc as ([] & [] & ? & [] & Hl & Hp & _).
  constructor; try lia.
  apply Forall_lookup. intros i p Hi. unfold penalty_error in Hp. rewrite first_of_map in Hp. specialize (Hp (i, p)). rewrite check_none in Hp.
  assert (p <? -1 = false) as ?; [|lia]. apply Hp. apply list_elem_of_lookup_2 with i. apply lookup_zip_with_Some.
  exists i, p. split_and!; [done| |done]. apply lookup_seq. split; [done|]. by apply lookup_lt_Some in Hi.
Qed.

Lemma brake_checked s : check_brake s = None -> brake_sane s.
Proof.
  unfold check_brake. intros Hc. passed Hc. destruct Hc as ((((([] & ?) & ?) & ?) & ?) & Hr & ? & Hp & _).
  apply negb_false_iff in Hr. constructor; try done; try lia.
  intros Hne. apply andb_false_iff in Hp as [?|Hp]; [lia|]. by apply bool_decide_eq_false in Hp.
Qed.

Lemma normal_sane a : 15 <= HealthCheck a -> check_settings range ToLower store_ok a = None -> settings_sane (normal_settings ToLower a).
Proof.
  unfold check_settings. intros Hh Hc. passed Hc.
  destruct Hc as (H1 & H2 & H3 & H4 & H5 & H6 & H7 & H8 & Hb & Hd & Hg & H12 & H13 & Hs & Hbars & Ht & Hl & _).
  apply brake_checked in Hb. apply guard_checked in Hg. apply check_tiers_none in Ht as [Ht Hnt].
  constructor; simpl; try assumption; try lia.
  - by destruct Hb.
  - split; [zcases; lia|]. intros Hen. rewrite Hen in Hd. simpl in Hd. apply orb_false_iff in Hd as [_ ?]. lia.
  - unfold DEFAULT_UNLOAD_TIMEOUT. zcases; lia.
  - destruct (normalize_names_spec ∅ (SessionHeaders a)) as [Hn1 Hn2]. split; [done|]. apply Forall_forall. intros x Hx. by apply Hn1.
  - intros p Hp. rewrite Hp in Hs. by apply negb_false_iff in Hs.
  - by destruct (IgnorePaths a).
  - apply bool_decide_eq_false in Hbars. destruct (Validate_bars ToLower (Bars a)) as [l|] eqn:El; [|done]. simpl.
    unfold Validate_bars in El. destruct (length (Bars a) <? 1)%nat eqn:E1; [done|]. destruct (2 <? length (Bars a))%nat eqn:E2; [done|]. simpl in El.
    apply normalize_bars_spec in El as (Hlen & Hn & Hin). split_and!; [apply Nat.ltb_ge in E1; lia|apply Nat.ltb_ge in E2; lia|done|].
    apply Forall_forall. intros b Hin2. by apply Hin.
  - intros t t' x Hx. apply sorted_tiers_elem in Hx as Hin. destruct (Ht t x Hin) as [? _]. split; [done|]. by apply sorted_tiers_apart.
  - apply negb_false_iff, bool_decide_eq_true in Hl. done.
Qed.

(** The settings that are loaded are in their ranges. *)
Lemma settings_in_range s s' : load_settings range ToLower store_ok s = Ok s' -> settings_sane s'.
Proof.
  unfold load_settings. destruct (check_settings _ _ _ _) eqn:Hc; [done|]. intros [= <-].
  apply normal_sane; [|done]. unfold adjust, set_to. simpl. zcases; lia.
Qed.
End settings.

(** ** Names *)

Definition pairs_of (l : list (string * ModelConfig)) : list (string * list string) := (fun kv => (kv.1, Aliases kv.2)) <$> l.

(** The loops that give each of a list of names to one owner are those of [NewGroup]. *)
Lemma add_aliases_members m l t t' : add_aliases m l t = Ok t' <-> Group.add_members m l t = Ok t'.
Proof.
  revert t. induction l as [|a l IH]; intros t; [by split; intros [= ->]|]. simpl. destruct (t !! a) eqn:Ea.
  - rewrite bool_decide_true by by eexists. split; discriminate.
  - rewrite bool_decide_false by by intros [? ?]. apply IH.
Qed.

Lemma declared_aliases_groups l t t' : declared_aliases l t = Ok t' <-> Group.add_groups (pairs_of l) t = Ok t'.
Proof.
  revert t. induction l as [|[m mc] l IH]; intros t; [by split; intros [= ->]|]. simpl. rewrite !rbind_Ok.
  setoid_rewrite add_aliases_members. setoid_rewrite IH. done.
Qed.

Lemma use_members_add g seen ms u u' : (forall x, x ∈ seen -> is_Some (u !! x)) ->
  use_members g seen ms u = Ok u' <-> Group.add_members g ms u = Ok u'.
Proof.
  revert seen u. induction ms as [|m ms IH]; intros seen u Hs; [by split; intros [= ->]|]. simpl. case_bool_decide as Hb.
  - destruct (Hs m Hb) as [x ->]. split; discriminate.
  - destruct (u !! m) eqn:Em; [split; discriminate|]. apply IH. intros x Hx. destruct (decide (x = m)) as [->|Hne]; [rewrite lookup_insert_eq; by eexists|].
    rewrite lookup_insert_ne by done. apply Hs. set_solver.
Qed.

Lemma check_members_groups l u u' : check_members l u = Ok u' <-> Group.add_groups ((fun kv => (kv.1, Members kv.2)) <$> l) u = Ok u'.
Proof.
  revert u. induction l as [|[g gc] l IH]; intros u; [by split; intros [= ->]|]. simpl. rewrite !rbind_Ok.
  setoid_rewrite IH. setoid_rewrite use_members_add; [done|]. intros x Hx. by apply elem_of_empty in Hx.
Qed.

Lemma filter_in_ext {A} (P Q : A -> Prop) `{!forall x, Decision (P x), !forall x, Decision (Q x)} (l : list A) :
  (forall x, x ∈ l -> P x <-> Q x) -> filter P l = filter Q l.
Proof.
  induction l as [|x l IH]; intros Hpq; [done|]. rewrite !filter_cons, IH by (intros y Hy; apply Hpq; by right).
  specialize (Hpq x (list_elem_of_here x l)). repeat case_decide; tauto.
Qed.

(** Each name once among the lists of a map. *)
Lemma NoDup_lists {A} (f : A -> list string) (l : list (string * A)) : NoDup l.*1 ->
  NoDup (concat ((fun kv => f kv.2) <$> l)) <->
  (forall k x, (k, x) ∈ l -> NoDup (f x)) /\ (forall a k x k' x', (k, x) ∈ l -> (k', x') ∈ l -> a ∈ f x -> a ∈ f x' -> k = k').
Proof.
  induction l as [|[k x] l IH]; [intros _; split; [intros _; split; [by intros ? ? ?%elem_of_nil|by intros ? ? ? ? ? ?%elem_of_nil]|constructor]|].
  rewrite !fmap_cons. cbn [concat fst snd]. intros [Hni Hn]%NoDup_cons. rewrite NoDup_app, (IH Hn). clear IH.
  assert (forall a, a ∈ concat ((fun kv => f kv.2) <$> l) <-> exists k' x', (k', x') ∈ l /\ a ∈ f x') as Hc.
  { intros a. rewrite list_elem_of_In, in_concat. setoid_rewrite <- list_elem_of_In. split.
    - intros (l' & ([k' x'] & -> & Hin)%list_elem_of_fmap & Ha). by exists k', x'.
    - intros (k' & x' & Hin & Ha). exists (f x'). split; [|done]. apply list_elem_of_fmap. by exists (k', x'). }
  split.
  - intros (H1 & H2 & H3 & H4). split.
    + intros k' x' [[= -> ->]|Hin]%elem_of_cons; [done|by apply (H3 k')].
    + intros a k1 x1 k2 x2 [[= -> ->]|Hin1]%elem_of_cons [[= -> ->]|Hin2]%elem_of_cons Ha1 Ha2; [done| | |by apply (H4 a k1 x1 k2 x2)].
      * destruct (H2 a Ha1). apply Hc. by exists k2, x2.
      * destruct (H2 a Ha2). apply Hc. by exists k1, x1.
  - intros [H1 H2]. split_and!; [apply (H1 k); by left| |intros k' x' Hin; apply (H1 k'); by right|intros; eapply H2; try (by right); done].
    intros a Ha Hin. apply Hc in Hin as (k' & x' & Hin & Ha'). assert (k = k') as <- by (apply (H2 a k x k' x'); [by left|by right|done|done]).
    apply Hni. apply list_elem_of_fmap. by exists (k, x').
Qed.
Section names.
Variable range : forall A : Type, gmap string A -> list (string * A).
Variable url_ok glob_ok : string -> bool.
Hypothesis range_perm : forall A (m : gmap string A), range A m ≡ₚ map_to_list m.

Definition filter_keys (id : string) (t : gmap string string) (keys : list string) : list string := filter (fun k => k <> id /\ t !! k = None) keys.

(** What registering keys asks for, and what it does. *)
Definition keys_free (models : gmap string ModelConfig) (id : string) (keys : list string) (t : gmap string string) : Prop :=
  forall k, k ∈ keys -> k <> id -> models !! k = None /\ (forall m, t !! k = Some m -> m = id).

Lemma register_keys_spec models id keys t l : NoDup keys ->
  match register_keys models id keys t l with
  | Ok (t', l') => keys_free models id keys t /\ l' = l ++ filter_keys id t keys /\
      (forall a m, t' !! a = Some m <-> t !! a = Some m \/ (m = id /\ a ∈ keys /\ a <> id))
  | Err _ => ~ keys_free models id keys t
  end.
Proof.
  revert t l. induction keys as [|k keys IH]; intros t l Hn; simpl.
  { split_and!; [by intros ? ?%elem_of_nil|unfold filter_keys; by rewrite app_nil_r|]. intros a m. rewrite elem_of_nil. naive_solver. }
  apply NoDup_cons in Hn as [Hni Hn]. unfold filter_keys. rewrite filter_cons. destruct (String.eqb_spec k id) as [->|Hne].
  { specialize (IH t l Hn). rewrite decide_False by naive_solver. destruct (register_keys _ _ _ _ _) as [[t' l']|e].
    - destruct IH as (Hf & -> & Ht). split_and!; [intros k [->|Hk]%elem_of_cons; [done|by apply Hf]|done|].
      intros a m. rewrite Ht, elem_of_cons. naive_solver.
    - intros Hf. apply IH. intros k Hk. apply Hf. by right. }
  case_bool_decide as Hm; [intros Hf; destruct (Hf k) as [E _]; [left|done|]; rewrite E in Hm; by destruct Hm|].
  assert (models !! k = None) as Hk0 by (by apply eq_None_not_Some).
  destruct (t !! k) as [other|] eqn:Ek.
  - rewrite decide_False by naive_solver. destruct (String.eqb_spec other id) as [->|Ho].
    + specialize (IH t l Hn). destruct (register_keys _ _ _ _ _) as [[t' l']|e].
      * destruct IH as (Hf & -> & Ht). split_and!; [|done|].
        -- intros k' [->|Hk]%elem_of_cons; [intros _; split; [done|congruence]|by apply Hf].
        -- intros a m. rewrite Ht, elem_of_cons. naive_solver.
      * intros Hf. apply IH. intros k' Hk. apply Hf. by right.
    + intros Hf. destruct (Hf k) as [_ Hx]; [left|done|]. by destruct Ho; apply Hx.
  - rewrite decide_True by done. specialize (IH (<[k := id]> t) (l ++ [k]) Hn). destruct (register_keys _ _ _ _ _) as [[t' l']|e].
    + destruct IH as (Hf & -> & Ht). split_and!.
      * intros k' [->|Hk]%elem_of_cons; [intros _; split; [done|congruence]|]. intros Hkne. destruct (Hf k' Hk Hkne) as [? Hx]. split; [done|].
        intros m Hmk. apply Hx. rewrite lookup_insert_ne; [done|]. intros ->. congruence.
      * rewrite <- app_assoc. simpl. do 2 f_equal. apply filter_in_ext. intros x Hx. rewrite lookup_insert_ne; [done|]. by intros ->.
      * intros a m. rewrite Ht, elem_of_cons. destruct (decide (a = k)) as [->|Hak]; [rewrite lookup_insert_eq; naive_solver|].
        rewrite lookup_insert_ne by done. naive_solver.
    + intros Hf. apply IH. intros k' Hk Hkne. destruct (Hf k') as [? Hx]; [by right|done|]. split; [done|]. intros m. destruct (decide (k' = k)) as [->|?].
      * rewrite lookup_insert_eq. congruence.
      * rewrite lookup_insert_ne by done. apply Hx.
Qed.
(** Who a name belongs to: the model that lists it, or that has parameters for it. *)
Definition owner (models : gmap string ModelConfig) (a m : string) : Prop :=
  exists mc, models !! m = Some mc /\ (a ∈ Aliases mc \/ is_Some (SetParamsByID mc !! a) /\ a <> m).

(** What a model becomes: it inherits, and the names it has parameters for join its
    aliases. *)
Definition loads (s : settings) (id : string) (m m' : ModelConfig) : Prop :=
  exists l, NoDup l /\ (forall k, k ∈ l <-> is_Some (SetParamsByID m !! k) /\ k <> id /\ k ∉ Aliases m) /\
    m' = inherit s id m <| Aliases ::= Aliases m ++ l |> <| SendLoadingState ::= Some (default (GlobalLoadingState s) (SendLoadingState m)) |>.

Definition model_fits (s : settings) (id : string) (m : ModelConfig) : Prop := check_model id (inherit s id m) = None /\ url_ok (Proxy m) = true.

Lemma inherit_same s id m :
  Aliases (inherit s id m) = Aliases m /\ SetParamsByID (inherit s id m) = SetParamsByID m /\ Proxy (inherit s id m) = Proxy m /\
  SendLoadingState (inherit s id m) = SendLoadingState m.
Proof. unfold inherit. by destruct (String.eqb id ComfyUIModelID). Qed.

(** The loop over the models, after those of [done]. *)
Record progress (c0 : Config) (done : list string) (c : Config) : Prop := {
  pr_rest : c = c0 <| aliases ::= aliases c |> <| Models ::= Models c |>;
  pr_done : forall id, id ∈ done -> exists m m', Models c0 !! id = Some m /\ Models c !! id = Some m' /\ loads (cfg c0) id m m' /\ model_fits (cfg c0) id m /\
    forall k, is_Some (SetParamsByID m !! k) -> k <> id -> Models c0 !! k = None;
  pr_todo : forall id, id ∉ done -> Models c !! id = Models c0 !! id;
  pr_names : forall a m, aliases c !! a = Some m <->
    exists mc, Models c0 !! m = Some mc /\ (a ∈ Aliases mc \/ m ∈ done /\ is_Some (SetParamsByID mc !! a) /\ a <> m);
}.

Lemma progress_none c0 l c k : progress c0 l c -> Models c !! k = None <-> Models c0 !! k = None.
Proof.
  intros Hp. destruct (decide (k ∈ l)) as [Hk|Hk]; [|by rewrite (pr_todo _ _ _ Hp k Hk)].
  destruct (pr_done _ _ _ Hp k Hk) as (m & m' & -> & -> & _). done.
Qed.

Definition keys_of (m : ModelConfig) : list string := (range _ (SetParamsByID m)).*1.

Lemma keys_of_elem m k : k ∈ keys_of m <-> is_Some (SetParamsByID m !! k).
Proof. apply (ModelNames.range_names range range_perm). Qed.

Lemma load_model_progress c0 l c id m : progress c0 l c -> id ∉ l -> Models c0 !! id = Some m ->
  match load_model range url_ok c id with
  | Ok c' => keys_free (Models c0) id (keys_of m) (aliases c) /\ progress c0 (id :: l) c'
  | Err _ => ~ (model_fits (cfg c0) id m /\ keys_free (Models c0) id (keys_of m) (aliases c))
  end.
Proof.
  intros Hp Hid Hm. pose proof Hp as [Hrest Hdone Htodo Hnames]. unfold load_model. rewrite (Htodo id Hid), Hm.
  assert (cfg c = cfg c0) as -> by (rewrite Hrest; reflexivity). destruct (inherit_same (cfg c0) id m) as (Ha & Hs & Hx & Hl).
  destruct (check_model id _) eqn:Ec; [intros [[E _] _]; congruence|]. rewrite Hs.
  pose proof (register_keys_spec (Models c) id (keys_of m) (aliases c) [] (ModelNames.range_names_nodup range range_perm _)) as Hr.
  assert (keys_free (Models c) id (keys_of m) (aliases c) <-> keys_free (Models c0) id (keys_of m) (aliases c)) as Hfree.
  { unfold keys_free. by setoid_rewrite (progress_none c0 l c _ Hp). }
  change (range unit (SetParamsByID m)).*1 with (keys_of m).
  destruct (register_keys _ _ _ _ _) as [[t l']|e]; cbn [rbind]; [|naive_solver]. destruct Hr as (Hf & -> & Ht). rewrite Hx.
  destruct (url_ok (Proxy m)) eqn:Eu; [|intros [[_ ?] _]; congruence]. cbn [negb]. split; [by apply Hfree|]. rewrite Ha, Hl. constructor.
  - rewrite Hrest. done.
  - simpl. intros id' [->|Hin]%elem_of_cons.
    + exists m. eexists. rewrite lookup_insert_eq. split_and!; [done|done| |done|]; [|intros k Hk Hne; apply Hfree in Hf; apply (Hf k); [by rewrite keys_of_elem|done]].
      exists (filter_keys id (aliases c) (keys_of m)). split_and!; [| |done].
      * apply NoDup_filter, (ModelNames.range_names_nodup range range_perm).
      * intros k. unfold filter_keys. rewrite list_elem_of_filter, keys_of_elem. split.
        -- intros [[Hne Hn] Hk]. split_and!; [done|done|]. intros Hin. assert (aliases c !! k = Some id) as E; [|congruence].
           apply Hnames. exists m. by split; [|left].
        -- intros (Hk & Hne & Hni). split_and!; [done| |done]. destruct (aliases c !! k) as [o|] eqn:Eo; [|done].
           destruct (Hf k) as [_ Hx']; [by apply keys_of_elem|done|]. specialize (Hx' o Eo) as ->.
           apply Hnames in Eo as (mc & Hmc & [?|[? _]]); [|done]. by simplify_eq.
    + assert (id <> id') by (by intros ->). rewrite lookup_insert_ne by done. by apply Hdone.
  - simpl. intros id' Hni. apply not_elem_of_cons in Hni as [Hne Hni]. rewrite lookup_insert_ne by done. by apply Htodo.
  - simpl. intros a o. rewrite Ht, Hnames. split.
    + intros [(mc & ? & [?|(? & ?)])|(-> & ?%keys_of_elem & ?)]; [by exists mc; split; [|left]|exists mc; split; [done|right; split; [by right|done]]|].
      exists m. split; [done|]. right. split; [by left|done].
    + intros (mc & Hmc & [?|([->|?]%elem_of_cons & ?)]); [left; exists mc; naive_solver| |left; exists mc; naive_solver].
      right. simplify_eq. rewrite keys_of_elem. naive_solver.
Qed.
(** Names are apart: no model lists one twice, none has two owners, and a model has
    parameters for no other model. *)
Record names_apart (models : gmap string ModelConfig) : Prop := {
  na_once : forall m mc, models !! m = Some mc -> NoDup (Aliases mc);
  na_owner : forall a m m', owner models a m -> owner models a m' -> m = m';
  na_models : forall m mc k, models !! m = Some mc -> is_Some (SetParamsByID mc !! k) -> k <> m -> models !! k = None;
}.

Lemma load_models_progress c0 l c ids : progress c0 l c -> NoDup ids -> (forall id, id ∈ ids -> id ∉ l /\ is_Some (Models c0 !! id)) ->
  match load_models range url_ok c ids with
  | Ok c' => progress c0 (rev ids ++ l) c'
  | Err _ => ~ (names_apart (Models c0) /\ forall id m, Models c0 !! id = Some m -> model_fits (cfg c0) id m)
  end.
Proof.
  revert l c. induction ids as [|id ids IH]; intros l c Hp Hn Hids; [done|]. apply NoDup_cons in Hn as [Hni Hn]. cbn [load_models].
  destruct (Hids id) as [Hl [m Hm]]; [by left|]. pose proof (load_model_progress c0 l c id m Hp Hl Hm) as Hs.
  destruct (load_model range url_ok c id) as [c1|e]; cbn [rbind].
  - destruct Hs as [_ Hp1]. specialize (IH (id :: l) c1 Hp1 Hn). cbn [rev]. rewrite <- app_assoc. apply IH.
    intros x Hx. destruct (Hids x) as [? ?]; [by right|]. split; [|done]. apply not_elem_of_cons. split; [by intros ->|done].
  - intros [[H1 H2 H3] Hf]. apply Hs. split; [by apply Hf|]. intros k Hk Hne. apply keys_of_elem in Hk. split; [by apply (H3 id m)|].
    intros o Ho. apply (pr_names _ _ _ Hp) in Ho as (mc & Hmc & Ho). apply (H2 k); [exists mc; naive_solver|exists m; naive_solver].
Qed.

Lemma pairs_of_elem (m : gmap string ModelConfig) id l : (id, l) ∈ pairs_of (range _ m) <-> exists mc, m !! id = Some mc /\ l = Aliases mc.
Proof.
  unfold pairs_of. rewrite list_elem_of_fmap. split.
  - intros ([id' mc] & [= -> ->] & Hin). apply (ModelNames.range_elem range range_perm) in Hin. by eexists.
  - intros (mc & Hm & ->). exists (id, mc). split; [done|]. by apply (ModelNames.range_elem range range_perm).
Qed.

Definition lists_apart (models : gmap string ModelConfig) : Prop :=
  (forall m mc, models !! m = Some mc -> NoDup (Aliases mc)) /\
  forall a m mc m' mc', models !! m = Some mc -> models !! m' = Some mc' -> a ∈ Aliases mc -> a ∈ Aliases mc' -> m = m'.

Lemma lists_apart_range models : NoDup (concat (map snd (pairs_of (range _ models)))) <-> lists_apart models.
Proof.
  assert (map snd (pairs_of (range _ models)) = (fun kv => Aliases kv.2) <$> range _ models) as ->.
  { unfold pairs_of. by rewrite map_map. }
  rewrite (NoDup_lists Aliases _ (ModelNames.range_names_nodup range range_perm models)). unfold lists_apart.
  assert (forall k x, (k, x) ∈ range _ models <-> models !! k = Some x) as He by (intros; apply (ModelNames.range_elem range range_perm)).
  split; intros [H1 H2]; (split; [intros k x Hk; by apply (H1 k), He|]).
  - intros a m mc m' mc' Hm Hm'. by apply H2; apply He.
  - intros a m mc m' mc' Hm%He Hm'%He. by apply H2.
Qed.

Lemma declared_spec models : match declared_aliases (range _ models) ∅ with
  | Ok t => lists_apart models /\ forall a m, t !! a = Some m <-> exists mc, models !! m = Some mc /\ a ∈ Aliases mc
  | Err _ => ~ lists_apart models
  end.
Proof.
  pose proof (Group.add_groups_correct (pairs_of (range _ models))) as Hg. pose proof (declared_aliases_groups (range _ models) ∅) as Hd.
  destruct (declared_aliases _ _) as [t|e].
  - rewrite (proj1 (Hd t) eq_refl) in Hg. destruct Hg as [Hn Ht]. split; [by apply lists_apart_range|]. intros a m. rewrite Ht. setoid_rewrite pairs_of_elem. naive_solver.
  - destruct (Group.add_groups _ _) as [t|x]; [discriminate (proj2 (Hd t) eq_refl)|]. intros Hl. apply Hg. by apply lists_apart_range.
Qed.

Definition residents_free (c : Config) : Prop :=
  forall p, p ∈ ResidentAliases c -> glob_ok p = true /\ Models c !! p = None /\ forall m mc, Models c !! m = Some mc -> p ∉ Aliases mc.

Lemma residents_checked c t : (forall a m, t !! a = Some m <-> exists mc, Models c !! m = Some mc /\ a ∈ Aliases mc) ->
  first_of (check_resident glob_ok (c <| aliases ::= t |>) <$> ResidentAliases c) = None <-> residents_free c.
Proof.
  intros Ht. rewrite first_of_map. unfold residents_free. apply forall_proper. intros p. unfold check_resident.
  destruct (glob_ok p); simpl; [|naive_solver]. rewrite check_none, bool_decide_eq_false. unfold RealModelName. simpl.
  case_bool_decide as Hm.
  - split; [intros Hx Hp; by destruct (Hx Hp)|intros Hx Hp; destruct (Hx Hp) as (_ & E & _); rewrite E in Hm; by destruct Hm].
  - apply eq_None_not_Some in Hm. split.
    + intros Hx Hp. split_and!; [done|done|]. intros m mc Hmc Hin. apply (Hx Hp). exists m. apply Ht. by exists mc.
    + intros Hx Hp [m Hsm]. apply Ht in Hsm as (mc & Hmc & Hin). by destruct (proj2 (proj2 (Hx Hp)) m mc Hmc).
Qed.

Lemma start_progress c t : (forall a m, t !! a = Some m <-> exists mc, Models c !! m = Some mc /\ a ∈ Aliases mc) ->
  progress c [] (c <| aliases ::= t |>).
Proof.
  intros Ht. constructor; [done|by intros ? ?%elem_of_nil|done|]. intros a m. simpl. rewrite Ht. setoid_rewrite elem_of_nil. naive_solver.
Qed.

Lemma apart_lists models : names_apart models -> lists_apart models.
Proof.
  intros [H1 H2 _]. split; [done|]. intros a m mc m' mc' Hm Hm' Ha Ha'. apply (H2 a); [exists mc; by split; [|left]|exists mc'; by split; [|left]].
Qed.

Lemma load_names_spec c :
  match load_names range url_ok glob_ok c with
  | Ok c' => names_apart (Models c) /\ residents_free c /\
      c' = c <| aliases ::= aliases c' |> <| Models ::= Models c' |> /\
      (forall a m, aliases c' !! a = Some m <-> owner (Models c) a m) /\
      (forall id, option_relation (loads (cfg c) id) (fun _ => False) (fun _ => False) (Models c !! id) (Models c' !! id)) /\
      (forall id m, Models c !! id = Some m -> model_fits (cfg c) id m)
  | Err _ => ~ (names_apart (Models c) /\ residents_free c /\ forall id m, Models c !! id = Some m -> model_fits (cfg c) id m)
  end.
Proof.
  unfold load_names. pose proof (declared_spec (Models c)) as Hd. destruct (declared_aliases _ _) as [t|e]; cbn [rbind].
  2: { intros (Ha & _). by apply Hd, apart_lists. }
  destruct Hd as [Hl Ht]. pose proof (residents_checked c t Ht) as Hr.
  change (ResidentAliases (c <| aliases ::= t |>)) with (ResidentAliases c).
  destruct (first_of _); [intros (_ & Hf & _); by apply Hr in Hf|]. apply proj1 in Hr. specialize (Hr eq_refl).
  change (Models (c <| aliases ::= t |>)) with (Models c). set (ids := sort_strings (range _ (Models c)).*1).
  assert (forall id, id ∈ ids <-> is_Some (Models c !! id)) as Hids.
  { intros id. unfold ids. rewrite sort_strings_elem. apply (ModelNames.range_names range range_perm). }
  pose proof (load_models_progress c [] _ ids (start_progress c t Ht)) as Hp. destruct (load_models _ _ _ _) as [c'|e].
  2: { intros (H1 & _ & H3). apply Hp; [apply sort_strings_NoDup, (ModelNames.range_names_nodup range range_perm)| |done].
       intros id Hid. split; [by apply not_elem_of_nil|by apply Hids]. }
  destruct Hp as [Hrest Hdone Htodo Hnames]; [apply sort_strings_NoDup, (ModelNames.range_names_nodup range range_perm)| |].
  { intros id Hid. split; [by apply not_elem_of_nil|by apply Hids]. }
  rewrite app_nil_r in *. assert (forall id, id ∈ rev ids <-> is_Some (Models c !! id)) as Hrev.
  { intros id. by rewrite list_elem_of_In, <- in_rev, <- list_elem_of_In, Hids. }
  assert (forall a m, aliases c' !! a = Some m <-> owner (Models c) a m) as Ho.
  { intros a m. rewrite Hnames. unfold owner. split; intros (mc & Hmc & Hx); exists mc; (split; [done|]); [naive_solver|].
    destruct Hx as [?|[? ?]]; [by left|right; split_and!; [apply Hrev; by eexists|done|done]]. }
  assert (forall id m k, Models c !! id = Some m -> is_Some (SetParamsByID m !! k) -> k <> id -> Models c !! k = None) as Hk.
  { intros id m k Hm. destruct (Hdone id) as (m1 & m1' & E & _ & _ & _ & Hk); [apply Hrev; by eexists|]. simplify_eq. apply Hk. }
  split_and!; try done.
  - destruct Hl. constructor; [done| |done]. intros a m m' Hm%Ho Hm'%Ho. congruence.
  - intros id. destruct (Models c !! id) as [m|] eqn:Em.
    + destruct (Hdone id) as (m1 & m1' & E & -> & ? & _); [apply Hrev; by eexists|]. simplify_eq. done.
    + rewrite Htodo, Em; [done|]. rewrite Hrev, Em. by intros [? ?].
  - intros id m Hm. destruct (Hdone id) as (m1 & m1' & E & _ & _ & ? & _); [apply Hrev; by eexists|]. by simplify_eq.
Qed.

End names.

(** ** Groups and matrices *)

Section groups.
Context `{UnicodeTables}.
Variable range : forall A : Type, gmap string A -> list (string * A).
Variable range_set : gset string -> list string.
Hypothesis range_perm : forall A (m : gmap string A), range A m ≡ₚ map_to_list m.

Definition in_group (groups : gmap string GroupConfig) (x g : string) : Prop := exists gc, groups !! g = Some gc /\ x ∈ Members gc.

Definition members_lists (groups : gmap string GroupConfig) : list (string * list string) := (fun kv => (kv.1, Members kv.2)) <$> map_to_list groups.

(** No member is listed twice or in two groups. *)
Definition groups_apart (groups : gmap string GroupConfig) : Prop := NoDup (concat (members_lists groups).*2).

(** What [NewGroup] makes of such groups, in whatever order it ranges over them. *)
Lemma membership_table groups l : groups_apart groups -> l ≡ₚ members_lists groups ->
  exists t, Group.add_groups l ∅ = Ok t /\ forall x g, t !! x = Some g <-> in_group groups x g.
Proof.
  intros Ha Hp. pose proof (Group.add_groups_correct l) as Hg.
  assert (NoDup (concat (map snd l))) as Hn.
  { unfold groups_apart in Ha. assert (concat (map snd l) ≡ₚ concat (members_lists groups).*2) as ->; [|done]. clear -Hp.
    assert (map snd l ≡ₚ (members_lists groups).*2) as Hs by (by rewrite Hp). clear Hp. induction Hs; simpl; [done|by f_equiv| |by etrans].
    by rewrite !app_assoc, (Permutation_app_comm y x). }
  destruct (Group.add_groups l ∅) as [t|x]; [|by destruct Hg]. exists t. split; [done|]. intros x g. destruct Hg as [_ ->]. unfold in_group.
  setoid_rewrite Hp. unfold members_lists. setoid_rewrite list_elem_of_fmap. split.
  - intros (ms & ([g' gc] & [= -> ->] & Hin) & Hx). apply elem_of_map_to_list in Hin. by exists gc.
  - intros (gc & Hgc & Hx). exists (Members gc). split; [|done]. exists (g, gc). split; [done|]. by apply elem_of_map_to_list.
Qed.

Lemma check_members_spec groups : match check_members (range _ groups) ∅ with Ok _ => groups_apart groups | Err _ => ~ groups_apart groups end.
Proof.
  set (l := (fun kv => (kv.1, Members kv.2)) <$> range _ groups).
  assert (l ≡ₚ members_lists groups) as Hp by (unfold l, members_lists; by rewrite range_perm).
  pose proof (check_members_groups (range _ groups) ∅) as Hc. fold l in Hc. destruct (check_members _ _) as [u|e].
  - pose proof (Group.add_groups_correct l) as Hg. rewrite (proj1 (Hc u) eq_refl) in Hg. destruct Hg as [Hn _]. unfold groups_apart.
    assert (concat (members_lists groups).*2 ≡ₚ concat (map snd l)) as ->; [|done]. clear -Hp.
    assert ((members_lists groups).*2 ≡ₚ map snd l) as Hs by (by rewrite Hp). clear Hp. induction Hs; simpl; [done|by f_equiv| |by etrans].
    by rewrite !app_assoc, (Permutation_app_comm y x).
  - intros Ha. destruct (membership_table groups l Ha Hp) as (t & Ht & _). discriminate (proj2 (Hc t) Ht).
Qed.

Lemma default_group_members models groups x : exists gc, AddDefaultGroupToConfig range models groups !! DEFAULT_GROUP_ID = Some gc /\
  (x ∈ Members gc <-> is_Some (models !! x) /\ forall g, ~ in_group groups x g).
Proof.
  unfold AddDefaultGroupToConfig. eexists. rewrite lookup_insert_eq. split; [done|]. simpl. rewrite sort_strings_elem.
  assert ((forall g, ~ in_group groups x g) <-> Forall (fun kv => x ∉ Members kv.2) (range _ groups)) as ->.
  { rewrite Forall_forall. split.
    - intros Hx [g gc] Hin. apply (ModelNames.range_elem range range_perm) in Hin. intros Hm. apply (Hx g). by exists gc.
    - intros Hx g (gc & Hgc & Hm). apply (Hx (g, gc)); [by apply (ModelNames.range_elem range range_perm)|done]. }
  case_bool_decide as He.
  - subst groups. rewrite (ModelNames.range_names range range_perm). split; [|by intros [? _]]. intros Hx. split; [done|].
    apply Forall_forall. intros [g gc] Hin. by apply (ModelNames.range_elem range range_perm), lookup_empty_Some in Hin.
  - rewrite list_elem_of_filter, (ModelNames.range_names range range_perm). naive_solver.
Qed.

(** A matrix that was checked: it is compiled, its abbreviations stand for models, and no
    eviction is free. *)
Record matrix_checked (models : gmap string ModelConfig) (m : MatrixConfig) : Prop := {
  mc_sets : Sets m <> [];
  mc_vars : forall id x, Var m !! id = Some x -> is_Some (models !! x);
  mc_program : exists p, program m = Some p /\ Matrix.Compile (resolveMatrixModel (Var m) models) range_set (Sets m) = Some (Ok p);
  mc_costs : forall x, 1 <= Matrix.evictionCost (ResolvedEvictCosts range m) x;
}.

Lemma resolved_costs_positive (m : MatrixConfig) : (forall k z, EvictCosts m !! k = Some z -> 1 <= z) ->
  forall x z, ResolvedEvictCosts range m !! x = Some z -> 1 <= z.
Proof.
  intros Hc. unfold ResolvedEvictCosts.
  assert (forall kv, kv ∈ range _ (EvictCosts m) -> 1 <= kv.2) as Hl.
  { intros [k z] Hin. apply (ModelNames.range_elem range range_perm) in Hin. by apply (Hc k). }
  assert (forall (t : gmap string Z), (forall x z, t !! x = Some z -> 1 <= z) -> forall x z,
    foldl (fun costs kv => <[default kv.1 (Var m !! kv.1) := kv.2]> costs) t (range _ (EvictCosts m)) !! x = Some z -> 1 <= z) as Hgen.
  { induction (range _ (EvictCosts m)) as [|kv l IH]; intros t Ht; [done|]. simpl. apply IH; [intros; apply Hl; by right|]. intros x z Hx.
    destruct (decide (x = default kv.1 (Var m !! kv.1))) as [->|Hne].
    - rewrite lookup_insert_eq in Hx. injection Hx as <-. apply Hl. by left.
    - rewrite lookup_insert_ne in Hx by done. by apply (Ht x). }
  apply Hgen. intros x z. by rewrite lookup_empty.
Qed.

Lemma ValidateMatrix_checked m models m' : ValidateMatrix range range_set m models = Ok m' -> matrix_checked models m'.
Proof.
  unfold ValidateMatrix. case_bool_decide as Hs; [done|]. destruct (first_of (check_var _ <$> _)) eqn:Ev; [done|].
  destruct (first_of (check_cost _ _ <$> _)) eqn:Ec; [done|]. destruct (Matrix.Compile _ _ _) as [[p|e]|] eqn:Ep; [|done|done].
  intros [= <-]. rewrite first_of_map in Ev. rewrite first_of_map in Ec. constructor; simpl; [done| |by exists p|].
  - intros id x Hx. apply (ModelNames.range_elem range range_perm) in Hx. specialize (Ev _ Hx). unfold check_var in Ev. simpl in Ev.
    destruct (var_ok id); [|done]. simpl in Ev. rewrite check_none in Ev. by apply negb_false_iff, bool_decide_eq_true in Ev.
  - intros x. unfold Matrix.evictionCost. destruct (ResolvedEvictCosts _ _ !! x) as [z|] eqn:Ez; [|done]. simpl.
    refine (resolved_costs_positive (mkMatrix (Var m) (EvictCosts m) (Sets m) (Some p)) _ x z Ez). simpl. intros k y Hk.
    apply (ModelNames.range_elem range range_perm) in Hk. specialize (Ec _ Hk). unfold check_cost in Ec. simpl in Ec.
    destruct (Z.leb_spec y 0); [done|lia].
Qed.
End groups.

(** ** The whole *)

Section whole.
Context `{UnicodeTables}.
Variable range : forall A : Type, gmap string A -> list (string * A).
Variable range_set : gset string -> list string.
Variable ToLower : string -> string.
Variable url_ok glob_ok store_ok : string -> bool.
Hypothesis range_perm : forall A (m : gmap string A), range A m ≡ₚ map_to_list m.

Record model_sane (s : settings) (m : ModelConfig) : Prop := {
  ms_health : HealthCheckTimeout m = HealthCheck s;
  ms_ttl : 0 <= UnloadAfter m;
  ms_grace : 0 <= SwapGraceSeconds m;
  ms_unload : 0 < UnloadTimeout m;
  ms_prefill : 0 <= MaxParallelLargePrefill m;
  ms_slot : SlotGraceSeconds m = 0;
  ms_cap : capabilities_ok (Capabilities m) = true;
  ms_loading : is_Some (SendLoadingState m);
}.

Record well_formed (c : Config) : Prop := {
  wf_settings : settings_sane ToLower store_ok (cfg c);
  wf_guard : LoopTrack.guard (LoopTrack.NewLoopTracker (LoopGuard (cfg c))) = LoopGuard (cfg c);
  wf_models : forall id m, Models c !! id = Some m -> model_sane (cfg c) m;
  wf_aliases : forall a m, aliases c !! a = Some m <-> exists mc, Models c !! m = Some mc /\ a ∈ Aliases mc;
  wf_retention : FifoRetention c = SessionRetention (cfg c);
  wf_routing : match RouterMatrix c with
    | Some m => RouterUse c = "matrix" /\ RouterGroups c = ∅ /\ matrix_checked range range_set (Models c) m
    | None => RouterUse c = "group" /\ groups_apart (RouterGroups c)
    end;
  wf_scheduler : SchedulerUse c = "fifo" /\ forall m, is_Some (Priority c !! m) -> is_Some (RealModelName c m);
  wf_preload : forall m, m ∈ Preload c -> is_Some (RealModelName c m);
  wf_keys : forall k, k ∈ APIKeys (cfg c) -> k <> "" /\ Macros.Contains " " k = false;
  wf_peers : ModelNames.ValidatePeerNamespace range (names_of c) = None;
  wf_selectors : Selectors.validateSelectors range (selectors_of c) = None;
  wf_pins : forall p pins pin t, Profiles c !! p = Some pins -> pins !! pin = Some t -> t <> "" ->
    is_Some (ModelNames.ResolveBaseModel range (names_of c) t) \/ is_Some (SelectorOf c !! t);
}.

Lemma guard_kept g : guard_sane g -> LoopTrack.guard (LoopTrack.NewLoopTracker g) = g.
Proof. intros []. destruct g. unfold LoopTrack.NewLoopTracker. simpl in *. by zdecide. Qed.

Lemma loads_sane s id m m' : settings_sane ToLower store_ok s -> model_fits url_ok s id m -> loads s id m m' -> model_sane s m'.
Proof.
  intros Hs [Hc _] (l & _ & _ & ->). unfold check_model in Hc. passed Hc. destruct Hc as (H1 & H2 & H3 & H4 & H5 & H6 & H7 & _).
  pose proof (ss_unload _ _ _ Hs). assert (UnloadTimeout (inherit s id m) <> 0) as Hu.
  { unfold inherit. destruct (String.eqb id ComfyUIModelID); simpl; zcases; lia. }
  assert (HealthCheckTimeout (inherit s id m) = HealthCheck s) as Hh by (unfold inherit; by destruct (String.eqb id ComfyUIModelID)).
  remember (inherit s id m) as mi. clear Heqmi. apply negb_false_iff in H7. constructor; simpl; try done; try lia.
Qed.
Lemma choose_style_keeps c c' : choose_style c = Ok c' -> c' = c <| MatrixOf ::= MatrixOf c' |> <| Groups ::= Groups c' |>.
Proof.
  unfold choose_style. destruct (_ && _); [done|]. destruct (_ || _); [intros [= <-]; by destruct c|]. destruct (String.eqb _ _).
  - destruct (RouterMatrix c); [|done]. intros [= <-]. by destruct c.
  - case_bool_decide; [|done]. intros [= <-]. by destruct c.
Qed.

Lemma load_groups_checked c c' : load_groups range range_set c = Ok c' ->
  c' = c <| MatrixOf ::= MatrixOf c' |> <| Groups ::= Groups c' |> /\
  match MatrixOf c' with Some m => Groups c' = ∅ /\ matrix_checked range range_set (Models c) m | None => groups_apart (Groups c') end.
Proof.
  unfold load_groups. destruct (MatrixOf c) as [m|] eqn:Em.
  - rewrite bool_decide_true by by eexists. cbn [andb]. case_bool_decide as Hg; [|done]. cbn [negb].
    destruct (ValidateMatrix _ _ m _) as [m'|e] eqn:Ev; [|done]. cbn [rbind]. intros [= <-]. split; [by destruct c|]. simpl. split; [done|].
    eapply ValidateMatrix_checked; done.
  - rewrite bool_decide_false by by intros [? ?]. cbn [andb].
    pose proof (check_members_spec range range_perm (AddDefaultGroupToConfig range (Models c) (Groups c))) as Hc. change (Groups (c <| Groups ::= ?g |>)) with g.
    destruct (check_members _ _) as [u|e]; [|done]. cbn [rbind]. intros [= <-]. split; [by destruct c|]. simpl. by rewrite Em.
Qed.

Lemma check_scheduler_ok c c' : check_scheduler range c = Ok c' ->
  c' = c <| SchedulerUse ::= "fifo" |> /\ forall m, is_Some (Priority c !! m) -> is_Some (RealModelName c m).
Proof.
  unfold check_scheduler. set (u := if String.eqb (SchedulerUse c) "" then "fifo" else SchedulerUse c).
  change (SchedulerUse (c <| SchedulerUse ::= u |>)) with u. destruct (String.eqb_spec u "fifo") as [->|]; [|done]. cbn [negb].
  destruct (first_of _) eqn:Ef; [done|]. intros [= <-]. split; [done|]. intros m [z Hz]. rewrite first_of_map in Ef.
  specialize (Ef (m, z)). rewrite check_none, bool_decide_eq_false in Ef. apply not_eq_None_Some. apply Ef.
  by apply (ModelNames.range_elem range range_perm).
Qed.

Lemma preload_known c m : m ∈ preload c -> is_Some (Models c !! m) \/ exists a, aliases c !! a = Some m.
Proof.
  unfold preload. intros (id & Hid & Hm)%list_elem_of_omap. destruct (String.eqb _ ""); [done|]. unfold RealModelName in Hm.
  case_bool_decide; [left; by simplify_eq|right; by eexists].
Qed.

Lemma rest_checked c : check_rest range c = None ->
  (forall k, k ∈ APIKeys (cfg c) -> k <> "" /\ Macros.Contains " " k = false) /\
  ModelNames.ValidatePeerNamespace range (names_of c) = None /\ Selectors.validateSelectors range (selectors_of c) = None /\
  forall p pins pin t, Profiles c !! p = Some pins -> pins !! pin = Some t -> t <> "" ->
    is_Some (ModelNames.ResolveBaseModel range (names_of c) t) \/ is_Some (SelectorOf c !! t).
Proof.
  unfold check_rest. intros Hc. passed Hc. destruct Hc as (Hk & Hp & Hs & Hf & _). rewrite first_of_map in Hk. split_and!.
  - intros k [i Hi]%list_elem_of_lookup_1. assert ((i, k) ∈ zip (seq 0 (length (APIKeys (cfg c)))) (APIKeys (cfg c))) as Hin.
    { apply list_elem_of_lookup_2 with i. apply lookup_zip_with_Some. exists i, k. split_and!; [done| |done]. apply lookup_seq.
      split; [done|]. by apply lookup_lt_Some in Hi. }
    apply Hk in Hin. unfold check_key in Hin. simpl in Hin. destruct (String.eqb_spec k ""); [done|]. by rewrite check_none in Hin.
  - by destruct (ModelNames.ValidatePeerNamespace _ _).
  - by destruct (Selectors.validateSelectors _ _).
  - intros p pins pin t Hpp Ht Hne. unfold validateProfiles in Hf. passed Hf. destruct Hf as [Hf _]. rewrite first_of_map in Hf.
    specialize (Hf (p, pins) (proj2 (ModelNames.range_elem range range_perm _ _ _) Hpp)). unfold check_profile in Hf. simpl in Hf.
    destruct (String.eqb (TrimSpace p) ""); [done|]. case_bool_decide; [done|]. rewrite first_of_map in Hf.
    specialize (Hf (pin, t) (proj2 (ModelNames.range_elem range range_perm _ _ _) Ht)). unfold check_pin in Hf. simpl in Hf.
    destruct (String.eqb (TrimSpace pin) ""); [done|]. destruct (String.eqb_spec t ""); [done|]. rewrite check_none, andb_false_iff, !bool_decide_eq_false in Hf.
    destruct Hf as [?|?]; [left|right]; by apply not_eq_None_Some.
Qed.
Lemma wf_of_aliases c c1 : (forall a m, aliases c1 !! a = Some m <-> owner (Models c) a m) ->
  (forall id, option_relation (loads (cfg c) id) (fun _ => False) (fun _ => False) (Models c !! id) (Models c1 !! id)) ->
  forall a m, aliases c1 !! a = Some m <-> exists mc, Models c1 !! m = Some mc /\ a ∈ Aliases mc.
Proof.
  intros Ho Hm a m. rewrite Ho. unfold owner. specialize (Hm m). destruct (Models c !! m) as [mc|], (Models c1 !! m) as [mc1|]; try done; [|naive_solver].
  destruct Hm as (l & _ & Hl & ->). split.
  - intros (? & [= <-] & Ha). eexists. split; [done|]. simpl. rewrite elem_of_app, Hl. destruct (decide (a ∈ Aliases mc)); naive_solver.
  - intros (? & [= <-] & Ha). simpl in Ha. rewrite elem_of_app, Hl in Ha. exists mc. naive_solver.
Qed.

End whole.

(** ** Runs *)

Definition lower_ascii (s : string) : string :=
  String.string_of_list_ascii (map (fun a => if in_range 65 90 a then ascii_of_nat (nat_of_ascii a + 32) else a) (String.list_ascii_of_string s)).

Definition all_ok (_ : string) : bool := true.
Definition range_any (A : Type) (m : gmap string A) : list (string * A) := map_to_list m.

Definition load := LoadConfigFromReader (H := latin1) range_any elements lower_ascii all_ok all_ok all_ok.

Definition plain_model : ModelConfig := mkModel "http://localhost:5800" [] (-1) (-1) 0 0 ∅ None false (mkCap [] [] 0) 1 0 0.

(** The defaults of a file that sets nothing. *)
Definition plain_settings : settings :=
  mkSettings 120 (5 * nsec_second) 5800 0 0 15 10 0
    (MemBrake.mkConfig 1000 5 (fdiv (of_int 7) (of_int 2)) 0 2 (of_int 10) (of_int 0) "" 0) (of_int 0) ["purge"] false 1000 15
    LoopTrack.DefaultLoopGuard 10 0 ["X-Session-ID"; "x-session-id "] None [] ["GPU"; "vram"] (<["bg" := ":8002"]> ∅) "proxy" false [].

Definition plain (models : gmap string ModelConfig) : Config :=
  mkConfig plain_settings models ∅ [] "" ∅ None ∅ None "" ∅ 0 [] "" ∅ ∅ ∅.

(** Two models; one has a name of its own, parameters for two names, and a selector. *)
Definition ex_config : Config :=
  plain (<["a" := plain_model <| Aliases ::= ["gpt"] |> <| SetParamsByID ::= <["gpt" := tt]> (<["a-fast" := tt]> ∅) |>]> (<["b" := plain_model]> ∅))
    <| ResidentAliases ::= ["claude-*"] |> <| Preload ::= [" gpt "; "nobody"] |>
    <| SelectorOf ::= <["any" := Selectors.mkSelector "warm" ["a-fast"; "b"] 0]> ∅ |>
    <| RouterGroups ::= <["g" := mkGroup false true false ["b"]]> ∅ |>.

Definition ex_loaded : Config := match load ex_config with Ok c => c | Err _ => ex_config end.

Lemma ex_loads : load ex_config = Ok ex_loaded.
Proof. vm_compute. reflexivity. Qed.

Lemma ex_loaded_facts :
  Preload ex_loaded = ["a"] /\ aliases ex_loaded !! "a-fast" = Some "a" /\ (Members <$> RouterGroups ex_loaded !! DEFAULT_GROUP_ID) = Some ["a"] /\
  SessionHeaders (cfg ex_loaded) = ["X-Session-ID"] /\ Bars (cfg ex_loaded) = ["gpu"; "vram"] /\
  (UnloadTimeout <$> Models ex_loaded !! "b") = Some 10.
Proof. split_and!; vm_compute; reflexivity. Qed.

(** [maxPeriod * 4] wraps around: a period far beyond the run bar is accepted. *)
Lemma period_wraps :
  check_guard (LoopTrack.mkGuard 20 2 3 [0; 900; 3600] 10 256 (2 ^ 62) (of_int 10) 15) = None.
Proof. vm_compute. reflexivity. Qed.

(** A group of the file that has the name of the default one is replaced by it; its
    model is then in no group. *)
Lemma default_group_replaces :
  let c := plain (<["a" := plain_model]> (<["b" := plain_model]> ∅)) <| RouterGroups ::= <[DEFAULT_GROUP_ID := mkGroup false true false ["a"]]> ∅ |> in
  match load c with
  | Ok c' => (Members <$> RouterGroups c' !! DEFAULT_GROUP_ID) = Some ["b"] /\ size (RouterGroups c') = 1%nat
  | Err _ => False
  end.
Proof. vm_compute. by split. Qed.

(** A group may list a model by an alias: the model itself stays in the default group,
    and the alias stands in the group as one more. *)
Lemma alias_in_group :
  let c := plain (<["a" := plain_model <| Aliases ::= ["x"] |>]> (<["b" := plain_model]> ∅)) <| RouterGroups ::= <["g" := mkGroup false true false ["x"; "b"]]> ∅ |> in
  match load c with
  | Ok c' => (Members <$> RouterGroups c' !! "g") = Some ["x"; "b"] /\ (Members <$> RouterGroups c' !! DEFAULT_GROUP_ID) = Some ["a"]
  | Err _ => False
  end.
Proof. vm_compute. by split. Qed.

(** An alias may be the name of another model, which it then never stands for. *)
Lemma alias_of_a_model :
  let c := plain (<["a" := plain_model <| Aliases ::= ["b"] |>]> (<["b" := plain_model]> ∅)) in
  match load c with Ok c' => aliases c' !! "b" = Some "a" /\ RealModelName c' "b" = Some "b" | Err _ => False end.
Proof. vm_compute. by split. Qed.

(** The patterns of resident aliases are checked before the names with parameters become
    aliases. *)
Lemma resident_shadowed :
  let c := plain (<["a" := plain_model <| SetParamsByID ::= <["default" := tt]> ∅ |>]> ∅) <| ResidentAliases ::= ["default"] |> in
  match load c with Ok c' => RealModelName c' "default" = Some "a" | Err _ => False end.
Proof. vm_compute. done. Qed.

(** ** Witnesses *)

Lemma range_any_perm A (m : gmap string A) : range_any A m ≡ₚ map_to_list m.
Proof. done. Qed.



End ConfigSpec.
