(* ===== verification/Events.v ===== *)
(** Events and logs.  The event bus ([internal/event/event.go]): the registry of event
    types, and the consumers of one type with their queues.  The log monitor
    ([internal/logmon/logging.go]): the bytes it keeps, and the broadcast that never
    blocks a writer.

    Both are transition systems; a step is one critical section or one channel
    operation, and [run] and [mon_run] are any interleaving. *)

From S2P Require Import Prelude RecordSet.

Module Dispatch.

(** ** The registry: event types in order, each with its group *)

Record registry := mkRegistry { keys : list Z; grps : list nat }.

(** The inlined binary search; [fuel] bounds its iterations. *)
Fixpoint bisect (fuel : nat) (ks : list Z) (t : Z) (lo hi : nat) : option nat :=
  if (lo <? hi)%nat then
    match fuel with
    | O => None
    | S fuel =>
      let mid := (lo + (hi - lo) / 2)%nat in
      match ks !! mid with
      | None => None
      | Some k => if k <? t then bisect fuel ks t (S mid) hi else bisect fuel ks t lo mid
      end
    end
  else Some lo.

Definition findGroup (r : registry) (t : Z) : option nat :=
  match bisect (length (keys r)) (keys r) t 0 (length (keys r)) with
  | Some lo => match keys r !! lo with Some k => if k =? t then grps r !! lo else None | None => None end
  | None => None
  end.

(** [sort.Search] for the first key that is not below. *)
Fixpoint first_from (ks : list Z) (t : Z) : nat :=
  match ks with [] => 0 | k :: ks => if k <? t then S (first_from ks t) else 0 end.

(** The group that [SubscribeTo] adds to, [fresh] if there is none yet. *)
Definition SubscribeTo (r : registry) (t : Z) (fresh : nat) : registry * nat :=
  match findGroup r t with
  | Some g => (r, g)
  | None =>
    let idx := first_from (keys r) t in
    (mkRegistry (take idx (keys r) ++ [t] ++ drop idx (keys r)) (take idx (grps r) ++ [fresh] ++ drop idx (grps r)), fresh)
  end.

Definition well_sorted (r : registry) : Prop := StronglySorted Z.lt (keys r) /\ length (grps r) = length (keys r).

Lemma first_from_le ks t : (first_from ks t <= length ks)%nat.
Proof. induction ks as [|k ks IH]; simpl; [lia|]. destruct (k <? t); lia. Qed.

Lemma sorted_lookup_lt ks i j a b : StronglySorted Z.lt ks -> (i < j)%nat -> ks !! i = Some a -> ks !! j = Some b -> a < b.
Proof.
  intros Hs. revert i j. induction Hs as [|x l Hs IH Hx]; intros i j Hij Hi Hj; [done|].
  destruct i as [|i], j as [|j]; try lia; simpl in *.
  - simplify_eq. apply list_elem_of_lookup_2 in Hj. by eapply Forall_forall in Hx.
  - apply (IH i j); [lia|done|done].
Qed.

(** What lies before [lo] is below, what lies from [hi] on is not. *)
Lemma bisect_spec ks t fuel lo hi : StronglySorted Z.lt ks -> (lo <= hi <= length ks)%nat -> (hi - lo <= fuel)%nat ->
  (forall i k, (i < lo)%nat -> ks !! i = Some k -> k < t) -> (forall i k, (hi <= i)%nat -> ks !! i = Some k -> t <= k) ->
  exists m, bisect fuel ks t lo hi = Some m /\ (forall i k, (i < m)%nat -> ks !! i = Some k -> k < t) /\
    (forall i k, (m <= i)%nat -> ks !! i = Some k -> t <= k).
Proof.
  intros Hs. revert lo hi. induction fuel as [|fuel IH]; intros lo hi Hlr Hf Hlo Hhi; cbn [bisect].
  - destruct (Nat.ltb_spec lo hi); [lia|]. exists lo. assert (lo = hi) as -> by lia. done.
  - destruct (Nat.ltb_spec lo hi) as [Hlt|]; [|exists lo; assert (lo = hi) as -> by lia; done].
    pose proof (Nat.div_lt_upper_bound (hi - lo) 2 (hi - lo) ltac:(lia) ltac:(lia)) as Hd.
    destruct (lookup_lt_is_Some_2 ks (lo + (hi - lo) / 2)%nat) as [k Hk]; [lia|]. rewrite Hk.
    destruct (Z.ltb_spec k t) as [Hkt|Hkt].
    + apply IH; [lia|lia| |done]. intros i x Hi Hx. destruct (decide (i = lo + (hi - lo) / 2)%nat) as [->|Hne]; [congruence|].
      assert (x < k); [|lia]. apply (sorted_lookup_lt ks i (lo + (hi - lo) / 2)); [done|lia|done|done].
    + apply IH; [lia|lia|done|]. intros i x Hi Hx. destruct (decide (i = lo + (hi - lo) / 2)%nat) as [->|Hne]; [congruence|].
      assert (k < x); [|lia]. apply (sorted_lookup_lt ks (lo + (hi - lo) / 2) i); [done|lia|done|done].
Qed.

(** The search ends and is exact. *)
Lemma findGroup_spec r t g : well_sorted r -> findGroup r t = Some g <-> exists i, keys r !! i = Some t /\ grps r !! i = Some g.
Proof.
  intros [Hs Hl]. unfold findGroup.
  destruct (bisect_spec (keys r) t (length (keys r)) 0 (length (keys r))) as (m & -> & Hlo & Hhi); [done|lia|lia|lia| |].
  { intros i k Hi Hk. apply lookup_lt_Some in Hk. lia. }
  split.
  - destruct (keys r !! m) as [k|] eqn:Ek; [|done]. destruct (Z.eqb_spec k t) as [->|]; [|done]. intros Hg. by exists m.
  - intros (i & Hi & Hg). assert (i = m) as <-.
    { destruct (Nat.lt_trichotomy i m) as [Hlt|[?|Hgt]]; [specialize (Hlo i t Hlt Hi); lia|done|].
      destruct (lookup_lt_is_Some_2 (keys r) m) as [k Hk]; [apply lookup_lt_Some in Hi; lia|].
      pose proof (sorted_lookup_lt _ _ _ _ _ Hs Hgt Hk Hi). specialize (Hhi m k (le_n _) Hk). lia. }
    by rewrite Hi, Z.eqb_refl.
Qed.
Lemma first_from_lookup ks t i k : StronglySorted Z.lt ks -> ks !! i = Some k -> ((i < first_from ks t)%nat <-> k < t).
Proof.
  intros Hs. revert i. induction Hs as [|x l Hs IH Hx]; intros i Hi; [done|]. simpl. destruct (Z.ltb_spec x t) as [Hlt|Hge].
  - destruct i as [|i]; [simpl in Hi; simplify_eq; lia|]. simpl in Hi. rewrite <- IH by done. lia.
  - split; [lia|]. intros Hk. destruct i as [|i]; simpl in Hi; [simplify_eq; lia|]. apply list_elem_of_lookup_2 in Hi.
    eapply Forall_forall in Hx; [|done]. lia.
Qed.

Lemma registry_insert_sorted ks t : StronglySorted Z.lt ks -> t ∉ ks -> StronglySorted Z.lt (take (first_from ks t) ks ++ t :: drop (first_from ks t) ks).
Proof.
  intros Hs. induction Hs as [|x l Hs IH Hx]; [repeat constructor|]. intros [Hne Hni]%not_elem_of_cons. simpl. destruct (Z.ltb_spec x t) as [Hlt|Hge]; simpl.
  - constructor; [by apply IH|]. apply Forall_app. split; [by apply Forall_take|]. constructor; [done|by apply Forall_drop].
  - constructor; [by constructor|]. constructor; [lia|]. eapply Forall_impl; [exact Hx|]. simpl. lia.
Qed.

(** Where an entry of the registry stands after another was put in. *)
Lemma lookup_put {A} (l : list A) n x i : (n <= length l)%nat ->
  (take n l ++ x :: drop n l) !! i = if (i <? n)%nat then l !! i else if (i =? n)%nat then Some x else l !! (i - 1)%nat.
Proof.
  intros Hn. destruct (Nat.ltb_spec i n); [rewrite lookup_app_l, lookup_take_lt by (rewrite ?length_take; lia); done|].
  rewrite lookup_app_r by (rewrite length_take; lia). rewrite length_take_le by done. destruct (Nat.eqb_spec i n) as [->|]; [by rewrite Nat.sub_diag|].
  destruct (i - n)%nat as [|k] eqn:E; [lia|]. simpl. rewrite lookup_drop. f_equal. lia.
Qed.

(** The sorted arrays with their binary search are a map from event types to groups:
    a type that has a group keeps it, a new one is put in, the others do not move, and
    the search finds exactly what was put in. *)
Theorem registry_is_map r t fresh : well_sorted r ->
  let '(r', g) := SubscribeTo r t fresh in
  well_sorted r' /\ g = default fresh (findGroup r t) /\ findGroup r' t = Some g /\ forall t', t' <> t -> findGroup r' t' = findGroup r t'.
Proof.
  intros Hw. unfold SubscribeTo. destruct (findGroup r t) as [g|] eqn:Eg; [done|]. pose proof Hw as [Hs Hl].
  pose proof (first_from_le (keys r) t) as Hle. set (n := first_from (keys r) t) in *.
  assert (t ∉ keys r) as Hni.
  { intros [i Hi]%list_elem_of_lookup_1. destruct (lookup_lt_is_Some_2 (grps r) i) as [g Hg]; [rewrite Hl; by apply lookup_lt_Some in Hi|].
    assert (findGroup r t = Some g); [|congruence]. apply findGroup_spec; [done|]. by exists i. }
  assert (well_sorted (mkRegistry (take n (keys r) ++ [t] ++ drop n (keys r)) (take n (grps r) ++ [fresh] ++ drop n (grps r)))) as Hw'.
  { split; simpl; [by apply registry_insert_sorted|]. rewrite !length_app. simpl. rewrite !length_take, !length_drop. lia. }
  split_and!; [done|done| |].
  - apply findGroup_spec; [done|]. exists n. cbn [keys grps app]. rewrite !lookup_put by lia. rewrite Nat.ltb_irrefl, Nat.eqb_refl. done.
  - intros t' Hne. apply option_eq. intros g. rewrite !findGroup_spec by done. cbn [keys grps app]. split; intros (i & Hk & Hg).
    + rewrite lookup_put in Hk by lia. rewrite lookup_put in Hg by lia. destruct (Nat.ltb_spec i n); [by exists i|].
      destruct (Nat.eqb_spec i n); [congruence|]. by exists (i - 1)%nat.
    + destruct (decide (i < n)%nat) as [Hi|Hi]; [exists i|exists (S i)]; rewrite !lookup_put by lia.
      * by rewrite (proj2 (Nat.ltb_lt i n) Hi).
      * rewrite (proj2 (Nat.ltb_ge (S i) n)) by lia. rewrite (proj2 (Nat.eqb_neq (S i) n)) by lia. by replace (S i - 1)%nat with i by lia.
Qed.

(** ** The consumers of one group *)

Section group.
Context {T : Type}.
Variable maxQueue : nat.

Definition stuckWait : Z := nsec_second.

(** A consumer and its listener: [handling] is what the listener took and has not
    handed to its handler, [handled] what it has.  The two buffers a listener swaps
    are never both in use, so that a queue is a value. *)
Record consumer := mkConsumer { queue : list T; stop : bool; stuck : bool; handling : list T; handled : list T }.

#[export] Instance consumer_fields : Fields consumer := fun c => mkConsumer (queue c) (stop c) (stuck c) (handling c) (handled c).

(** [subs] in the order they were added; a consumer that was deleted still has its
    listener.  [waiting] are the publishers in flow control, with their event and the
    time they came. *)
Record group := mkGroup { subs : list nat; consumers : gmap nat consumer; waiting : gmap nat (T * Z) }.

Definition full (c : consumer) : bool := (maxQueue <=? length (queue c))%nat.

Definition fullActive (g : group) : bool :=
  existsb (fun id => match consumers g !! id with Some c => negb (stuck c) && full c | None => false end) (subs g).

Definition mark (c : consumer) : consumer := if full c then c <| stuck ::= true |> else c.

(** What joins a full queue drives out the oldest. *)
Definition enqueue (ev : T) (c : consumer) : consumer :=
  if full c then c <| queue ::= tail (queue c) ++ [ev] |> else c <| queue ::= queue c ++ [ev] |>.

Definition on_subs (f : consumer -> consumer) (g : group) : group :=
  mkGroup (subs g) (foldr (fun id m => alter f id m) (consumers g) (subs g)) (waiting g).

Inductive event :=
| Publish (p : nat) (ev : T) (now : Z)   (* a publisher comes to [Broadcast] *)
| Woken (p : nat) (now : Z)              (* one in flow control holds the lock again *)
| Take (c : nat)                         (* a listener takes its queue *)
| Handle (c : nat)                       (* its handler is done with an event *)
| Add (c : nat)
| Del (c : nat).

Fixpoint remove_first (c : nat) (l : list nat) : list nat :=
  match l with [] => [] | x :: l => if Nat.eqb x c then l else x :: remove_first c l end.

(** The event that is sent in this step, beside the new group. *)
Definition step (g : group) (e : event) : option (group * option T) :=
  match e with
  | Publish p ev now =>
    if fullActive g then
      match waiting g !! p with
      | None => Some (mkGroup (subs g) (consumers g) (<[p := (ev, now)]> (waiting g)), None)
      | Some _ => None
      end
    else Some (on_subs (enqueue ev) g, Some ev)
  | Woken p now =>
    match waiting g !! p with
    | None => None
    | Some (ev, start) =>
      if fullActive g && (time_sub now start <? stuckWait) then Some (g, None)
      else Some (on_subs (enqueue ev) (on_subs mark (mkGroup (subs g) (consumers g) (delete p (waiting g)))), Some ev)
    end
  | Take c =>
    match consumers g !! c with
    | Some k =>
      match handling k, queue k with
      | [], _ :: _ => Some (mkGroup (subs g) (<[c := k <| handling ::= queue k |> <| queue ::= [] |> <| stuck ::= false |>]> (consumers g)) (waiting g), None)
      | _, _ => None
      end
    | None => None
    end
  | Handle c =>
    match consumers g !! c with
    | Some k =>
      match handling k with
      | ev :: rest => Some (mkGroup (subs g) (<[c := k <| handling ::= rest |> <| handled ::= handled k ++ [ev] |>]> (consumers g)) (waiting g), None)
      | [] => None
      end
    | None => None
    end
  | Add c =>
    match consumers g !! c with
    | None => Some (mkGroup (subs g ++ [c]) (<[c := mkConsumer [] false false [] []]> (consumers g)) (waiting g), None)
    | Some _ => None
    end
  | Del c =>
    match consumers g !! c with
    | Some k => Some (mkGroup (remove_first c (subs g)) (<[c := k <| stop ::= true |>]> (consumers g)) (waiting g), None)
    | None => None
    end
  end.

(** A run, with what each step sent. *)
Fixpoint run (g : group) (es : list event) : option (group * list (option T)) :=
  match es with
  | [] => Some (g, [])
  | e :: es => step g e ≫= fun '(g, s) => run g es ≫= fun '(g, l) => Some (g, s :: l)
  end.

Definition no_group : group := mkGroup [] ∅ ∅.

(** What was sent while consumer [c] was subscribed; [on] says whether it is at the start. *)
Fixpoint offered (c : nat) (on : bool) (es : list event) (sent : list (option T)) : list T :=
  match es, sent with
  | e :: es, s :: sent =>
    (if on then option_list s else []) ++
    offered c (match e with Add c' => if Nat.eqb c' c then true else on | Del c' => if Nat.eqb c' c then false else on | _ => on end) es sent
  | _, _ => []
  end.

(** In no state of the run after the first is [c] taken for dead. *)
Fixpoint never_stuck (c : nat) (g : group) (es : list event) : Prop :=
  match es with
  | [] => True
  | e :: es =>
    match step g e with
    | Some (g, _) => (forall k, consumers g !! c = Some k -> stuck k = false) /\ never_stuck c g es
    | None => True
    end
  end.

Definition received (k : consumer) : list T := handled k ++ handling k ++ queue k.

(** What holds of a consumer that was offered [acc], taken for dead or not. *)
Record kept (acc : list T) (lossless : Prop) (k : consumer) : Prop := {
  k_bounded : (length (queue k) <= maxQueue)%nat;
  k_order : received k `sublist_of` acc;
  k_newest : exists old, acc = old ++ queue k;
  k_all : lossless -> received k = acc;
}.

Record tracked (g : group) (c : nat) (on : bool) (acc : list T) (lossless : Prop) : Prop := {
  t_subs : NoDup (subs g) /\ forall x, x ∈ subs g -> is_Some (consumers g !! x);
  t_on : c ∈ subs g <-> on = true;
  t_kept : match consumers g !! c with Some k => kept acc lossless k | None => acc = [] end;
}.

Lemma on_subs_lookup f g c : NoDup (subs g) ->
  consumers (on_subs f g) !! c = if decide (c ∈ subs g) then f <$> consumers g !! c else consumers g !! c.
Proof.
  unfold on_subs. simpl. generalize (consumers g). induction (subs g) as [|x l IH]; intros m Hn; [done|]. apply NoDup_cons in Hn as [Hni Hn]. simpl.
  destruct (decide (c = x)) as [->|Hne].
  - rewrite lookup_alter_eq, IH, decide_False, decide_True by (done || by left). done.
  - rewrite lookup_alter_ne, IH by done. destruct (decide (c ∈ l)); [rewrite decide_True by (by right)|rewrite decide_False by (by intros [?|?]%elem_of_cons)]; done.
Qed.

Lemma fullActive_false g c k : fullActive g = false -> c ∈ subs g -> consumers g !! c = Some k -> stuck k = true \/ full k = false.
Proof.
  unfold fullActive. intros Hf Hc Hk. destruct (stuck k) eqn:Es; [by left|]. right. destruct (full k) eqn:Ef; [|done].
  assert (existsb (fun id => match consumers g !! id with Some c => negb (stuck c) && full c | None => false end) (subs g) = true) as Ht; [|congruence].
  apply existsb_exists. exists c. split; [by apply list_elem_of_In|]. by rewrite Hk, Es, Ef.
Qed.

Hypothesis some_room : (1 <= maxQueue)%nat.

Lemma enqueue_kept ev acc lossless k : kept acc lossless k -> (lossless -> full k = false) -> kept (acc ++ [ev]) lossless (enqueue ev k).
Proof.
  intros [Hb Ho [old Hn] Ha] Hl. unfold enqueue, received in *. destruct (full k) eqn:Ef; unfold full in Ef.
  - apply Nat.leb_le in Ef. destruct (queue k) as [|x q] eqn:Eq; [simpl in *; lia|]. constructor; unfold received; simpl in *.
    + rewrite length_app. simpl. lia.
    + rewrite !app_assoc in *. apply sublist_app; [|done]. etrans; [|exact Ho]. rewrite <- !app_assoc. apply sublist_app; [done|]. apply sublist_app; [done|].
      by apply sublist_cons.
    + exists (old ++ [x]). rewrite Hn, <- !app_assoc. done.
    + intros H. discriminate (Hl H).
  - apply Nat.leb_gt in Ef. constructor; unfold received; simpl.
    + rewrite length_app. simpl. lia.
    + rewrite !app_assoc in *. by apply sublist_app.
    + exists old. by rewrite Hn, app_assoc.
    + intros H. rewrite <- (Ha H), !app_assoc. done.
Qed.

Lemma mark_kept acc lossless k : kept acc lossless k -> kept acc lossless (mark k).
Proof. intros [? ? ? ?]. unfold mark. destruct (full k); constructor; done. Qed.

Lemma mark_full k : full (mark k) = full k.
Proof. unfold mark. destruct (full k) eqn:E; exact E. Qed.

Lemma enqueue_stuck ev k : stuck (enqueue ev k) = stuck k.
Proof. unfold enqueue. by destruct (full k). Qed.
Lemma remove_first_elem c x l : NoDup l -> x ∈ remove_first c l <-> x ∈ l /\ x <> c.
Proof.
  induction l as [|y l IH]; intros Hn; simpl; [set_solver|]. apply NoDup_cons in Hn as [Hni Hn]. destruct (Nat.eqb_spec y c) as [->|Hne].
  - rewrite elem_of_cons. split; [intros Hx; split; [by right|by intros ->]|naive_solver].
  - rewrite !elem_of_cons, (IH Hn). naive_solver.
Qed.

Lemma remove_first_NoDup c l : NoDup l -> NoDup (remove_first c l).
Proof.
  induction l as [|y l IH]; intros Hn; simpl; [done|]. pose proof Hn as [Hni Hn']%NoDup_cons. destruct (Nat.eqb y c); [done|].
  constructor; [|by apply IH]. rewrite remove_first_elem by done. naive_solver.
Qed.

(** The flag of [offered] after an event. *)
Definition joins (c : nat) (on : bool) (e : event) : bool :=
  match e with Add c' => if Nat.eqb c' c then true else on | Del c' => if Nat.eqb c' c then false else on | _ => on end.

Definition sent_to (on : bool) (s : option T) : list T := if on then option_list s else [].

Lemma tracked_subs g g' c on acc P : tracked g c on acc P -> subs g' = subs g ->
  (forall x, is_Some (consumers g !! x) -> is_Some (consumers g' !! x)) ->
  match consumers g' !! c with Some k => kept acc P k | None => acc = [] end -> tracked g' c on acc P.
Proof. intros [[Hn Hs] Ho _] E Hx Hk. constructor; [|by rewrite E|done]. rewrite E. split; [done|]. intros x Hin. by apply Hx, Hs. Qed.

Lemma nothing_sent on (acc : list T) : acc ++ sent_to on None = acc.
Proof. destruct on; apply app_nil_r. Qed.

(** One consumer changes. *)
Lemma tracked_put g c on acc P x k k' : tracked g c on acc P -> consumers g !! x = Some k -> (kept acc P k -> kept acc P k') ->
  tracked (mkGroup (subs g) (<[x := k']> (consumers g)) (waiting g)) c on acc P.
Proof.
  intros Ht Ek Hk. apply (tracked_subs g); [done|done| |]; simpl.
  - intros y Hy. destruct (decide (y = x)) as [->|?]; [rewrite lookup_insert_eq; by eexists|by rewrite lookup_insert_ne].
  - destruct Ht as [_ _ Hc]. destruct (decide (c = x)) as [->|?]; [|by rewrite lookup_insert_ne]. rewrite lookup_insert_eq. rewrite Ek in Hc. by apply Hk.
Qed.

(** All consumers take an event. *)
Lemma tracked_sends g c on acc P ev f : tracked g c on acc P ->
  (forall k, c ∈ subs g -> consumers g !! c = Some k -> kept acc P k -> kept (acc ++ [ev]) P (f k)) ->
  tracked (on_subs f g) c on (acc ++ sent_to on (Some ev)) P.
Proof.
  intros [[Hn Hs] Ho Hk] Hf. constructor; [|done|].
  - split; [done|]. intros x Hx. rewrite on_subs_lookup by done. rewrite decide_True by done. rewrite fmap_is_Some. by apply Hs.
  - rewrite on_subs_lookup by done. destruct (decide (c ∈ subs g)) as [Hin|Hni].
    + rewrite (proj1 Ho Hin). destruct (Hs c Hin) as [k Ek]. rewrite Ek in *. simpl. by apply Hf.
    + destruct on; [destruct Hni; by apply Ho|]. simpl. by rewrite app_nil_r.
Qed.

Lemma on_subs_twice f h g : NoDup (subs g) -> on_subs f (on_subs h g) = on_subs (fun k => f (h k)) g.
Proof.
  intros Hn. unfold on_subs at 1 3. f_equal. apply map_eq. intros c. pose proof (on_subs_lookup f (on_subs h g) c Hn) as H1.
  pose proof (on_subs_lookup h g c Hn) as H2. pose proof (on_subs_lookup (fun k => f (h k)) g c Hn) as H3. simpl in *. rewrite H1, H2, H3.
  destruct (decide (c ∈ subs g)); [|done]. by rewrite <- option_fmap_compose.
Qed.

Lemma tracked_step g c on acc (P : Prop) e g' s : tracked g c on acc P -> step g e = Some (g', s) ->
  (P -> forall k, consumers g' !! c = Some k -> stuck k = false) -> tracked g' c (joins c on e) (acc ++ sent_to on s) P.
Proof.
  intros Ht Hs Hc. pose proof Ht as [[Hn Hsub] Ho Hk]. destruct e as [p ev now|p now|x|x|x|x]; simpl in Hs.
  - destruct (fullActive g) eqn:Ef.
    + destruct (waiting g !! p); [done|]. injection Hs as <- <-. rewrite nothing_sent. by apply (tracked_subs g).
    + injection Hs as <- <-. apply tracked_sends; [done|]. intros k Hin Ek Hkk. apply enqueue_kept; [done|]. intros HP.
      destruct (fullActive_false g c k Ef Hin Ek) as [Hst|?]; [|done]. specialize (Hc HP (enqueue ev k)). rewrite on_subs_lookup, decide_True, Ek in Hc by done.
      specialize (Hc eq_refl). rewrite enqueue_stuck in Hc. congruence.
  - destruct (waiting g !! p) as [[ev start]|]; [|done]. destruct (_ && _).
    { injection Hs as <- <-. by rewrite nothing_sent. }
    injection Hs as <- <-. set (g0 := mkGroup (subs g) (consumers g) (delete p (waiting g))) in *.
    assert (tracked g0 c on acc P) as Ht0 by (by apply (tracked_subs g)). rewrite on_subs_twice in * by done. apply tracked_sends; [done|].
    intros k Hin Ek Hkk. apply enqueue_kept; [by apply mark_kept|]. intros HP. specialize (Hc HP (enqueue ev (mark k))).
    rewrite on_subs_lookup, decide_True, Ek in Hc by done. specialize (Hc eq_refl). rewrite enqueue_stuck in Hc. rewrite mark_full.
    unfold mark in Hc. destruct (full k); [discriminate Hc|done].
  - destruct (consumers g !! x) as [k|] eqn:Ek; [|done]. destruct (handling k) eqn:Eh; [|done]. destruct (queue k) as [|q0 q] eqn:Eq; [done|]. injection Hs as <- <-.
    rewrite nothing_sent. apply (tracked_put g c on acc P x k); [done|done|]. intros [Hb Hso [old Hol] Ha]. unfold received in *. rewrite Eh, Eq in *. simpl in *.
    constructor; unfold received; simpl; [lia|by rewrite app_nil_r|exists acc; by rewrite app_nil_r|by rewrite app_nil_r].
  - destruct (consumers g !! x) as [k|] eqn:Ek; [|done]. destruct (handling k) as [|h0 h] eqn:Eh; [done|]. injection Hs as <- <-.
    rewrite nothing_sent. apply (tracked_put g c on acc P x k); [done|done|]. intros [Hb Hso [old Hol] Ha]. unfold received in *. rewrite Eh in *. simpl in *.
    constructor; unfold received; simpl; [lia|by rewrite <- app_assoc|by exists old|by rewrite <- app_assoc].
  - destruct (consumers g !! x) eqn:Ex; [done|]. injection Hs as <- <-. rewrite nothing_sent. assert (x ∉ subs g) as Hni by (intros Hin; destruct (Hsub x Hin); congruence). constructor; simpl.
    + split; [apply NoDup_app; split_and!; [done|set_solver|apply NoDup_singleton]|]. intros y [Hy|Hy%list_elem_of_singleton]%elem_of_app; [|subst y; rewrite lookup_insert_eq; by eexists].
      rewrite lookup_insert_ne by (by intros ->). by apply Hsub.
    + rewrite elem_of_app, list_elem_of_singleton, Ho. destruct (Nat.eqb_spec x c) as [->|]; naive_solver.
    + destruct (decide (c = x)) as [->|?]; [|by rewrite lookup_insert_ne]. rewrite lookup_insert_eq. rewrite Ex in Hk. subst acc.
      constructor; simpl; [lia|done|by exists []|done].
  - destruct (consumers g !! x) as [k|] eqn:Ex; [|done]. injection Hs as <- <-. rewrite nothing_sent. constructor; simpl.
    + split; [by apply remove_first_NoDup|]. intros y [Hy _]%remove_first_elem; [|done]. destruct (decide (y = x)) as [->|?]; [rewrite lookup_insert_eq; by eexists|].
      rewrite lookup_insert_ne by done. by apply Hsub.
    + rewrite remove_first_elem by done. rewrite Ho. destruct (Nat.eqb_spec x c) as [->|]; naive_solver.
    + destruct (decide (c = x)) as [->|?]; [|by rewrite lookup_insert_ne]. rewrite lookup_insert_eq. rewrite Ex in Hk. by destruct Hk.
Qed.
Lemma bus_tracked c (P : Prop) es g on acc g' sent : tracked g c on acc P -> run g es = Some (g', sent) -> (P -> never_stuck c g es) ->
  tracked g' c (foldl (joins c) on es) (acc ++ offered c on es sent) P.
Proof.
  revert g on acc g' sent. induction es as [|e es IH]; intros g on acc g' sent Ht Hr Hc; simpl in *; [injection Hr as <- <-; by rewrite app_nil_r|].
  destruct (step g e) as [[g1 s]|] eqn:Es; [|done]. simpl in Hr. destruct (run g1 es) as [[g2 l]|] eqn:Er; [|done]. simpl in Hr. injection Hr as <- <-.
  rewrite app_assoc. apply (IH g1 _ _ _ _ ); [|done|intros HP; by apply Hc]. apply (tracked_step g); [done|done|]. intros HP. by apply Hc.
Qed.

(** C36. Whatever the publishers and the listeners do, a consumer reads events in the order
    in which they were sent, from those sent while it was subscribed; its queue stays
    bounded and holds the newest ones; and if it was never taken for dead, nothing is
    missing. *)
Theorem bus_delivers es g sent c k : run no_group es = Some (g, sent) -> consumers g !! c = Some k ->
  (length (queue k) <= maxQueue)%nat /\
  received k `sublist_of` offered c false es sent /\
  (exists old, offered c false es sent = old ++ queue k) /\
  (never_stuck c no_group es -> received k = offered c false es sent).
Proof.
  intros Hr Hk. assert (tracked no_group c false [] (never_stuck c no_group es)) as Ht.
  { constructor; [split; [apply NoDup_nil_2|by intros x ?%elem_of_nil]|split; [by intros ?%elem_of_nil|done]|done]. }
  pose proof (bus_tracked c _ es _ _ _ _ _ Ht Hr id) as [_ _ Hc]. rewrite Hk in Hc. by destruct Hc.
Qed.

Lemma stuck_stays g e g' s c k : NoDup (subs g) -> step g e = Some (g', s) -> consumers g !! c = Some k -> stuck k = true -> e <> Take c ->
  exists k', consumers g' !! c = Some k' /\ stuck k' = true.
Proof.
  intros Hn Hs Hk Hst Hne. destruct e as [p ev now|p now|x|x|x|x]; simpl in Hs.
  - destruct (fullActive g); [destruct (waiting g !! p); [done|]; injection Hs as <- <-; by exists k|].
    injection Hs as <- <-. rewrite on_subs_lookup, Hk by done. destruct (decide _); [|by exists k]. eexists. split; [done|]. by rewrite enqueue_stuck.
  - destruct (waiting g !! p) as [[ev start]|]; [|done]. destruct (_ && _); [injection Hs as <- <-; by exists k|]. injection Hs as <- <-.
    rewrite on_subs_twice, on_subs_lookup by done. simpl. rewrite Hk. destruct (decide _); [|by exists k]. eexists. split; [done|].
    rewrite enqueue_stuck. unfold mark. by destruct (full k).
  - destruct (consumers g !! x) as [k1|] eqn:Ex; [|done]. destruct (handling k1); [|done]. destruct (queue k1); [done|]. injection Hs as <- <-.
    simpl. rewrite lookup_insert_ne by congruence. by exists k.
  - destruct (consumers g !! x) as [k1|] eqn:Ex; [|done]. destruct (handling k1); [done|]. injection Hs as <- <-. simpl.
    destruct (decide (c = x)) as [->|?]; [rewrite lookup_insert_eq; simplify_eq; by eexists|rewrite lookup_insert_ne by done; by exists k].
  - destruct (consumers g !! x) eqn:Ex; [done|]. injection Hs as <- <-. assert (c <> x) by congruence. simpl. rewrite lookup_insert_ne by done. by exists k.
  - destruct (consumers g !! x) as [k1|] eqn:Ex; [|done]. injection Hs as <- <-. simpl.
    destruct (decide (c = x)) as [->|?]; [rewrite lookup_insert_eq; simplify_eq; by eexists|rewrite lookup_insert_ne by done; by exists k].
Qed.

Lemma stuck_runs c es g on acc g' sent k : tracked g c on acc False -> run g es = Some (g', sent) -> consumers g !! c = Some k -> stuck k = true ->
  Take c ∉ es -> exists k', consumers g' !! c = Some k' /\ stuck k' = true.
Proof.
  revert g on acc g' sent k. induction es as [|e es IH]; intros g on acc g' sent k Ht Hr Hk Hst Hni; simpl in *; [injection Hr as <- <-; by exists k|].
  destruct (step g e) as [[g1 s]|] eqn:Es; [|done]. simpl in Hr. destruct (run g1 es) as [[g2 l]|] eqn:Er; [|done]. simpl in Hr. injection Hr as <- <-.
  apply not_elem_of_cons in Hni as [Hne Hni]. destruct (stuck_stays g e g1 s c k) as (k1 & Hk1 & Hst1); [apply Ht|done|done|done|by intros ->|].
  apply (IH g1 (joins c on e) (acc ++ sent_to on s) _ l k1); [|done|done|done|done]. by apply (tracked_step g).
Qed.

(** A dead consumer stalls the publishers once: a publisher only ever waits for a
    subscribed consumer that is full and not taken for dead; when its second is over and
    it is woken it goes on, and every full consumer is taken for dead; and one that was
    stays so, and nobody waits for it again, until its listener takes its queue. *)
Theorem dead_consumer_stalls_once es g sent : run no_group es = Some (g, sent) ->
  (forall p ev now g', step g (Publish p ev now) = Some (g', None) ->
     exists c k, c ∈ subs g /\ consumers g !! c = Some k /\ stuck k = false /\ full k = true) /\
  (forall p ev start now, waiting g !! p = Some (ev, start) -> stuckWait <= time_sub now start ->
     exists g', step g (Woken p now) = Some (g', Some ev) /\ waiting g' !! p = None /\
       forall c k, c ∈ subs g -> consumers g !! c = Some k -> full k = true -> exists k', consumers g' !! c = Some k' /\ stuck k' = true) /\
  (forall es' g' sent' c k, run g es' = Some (g', sent') -> consumers g !! c = Some k -> stuck k = true -> Take c ∉ es' ->
     exists k', consumers g' !! c = Some k' /\ stuck k' = true).
Proof.
  intros Hr. assert (forall c, exists on acc, tracked g c on acc False) as Hinv.
  { intros c. assert (tracked no_group c false [] False) as Ht.
    { constructor; [split; [apply NoDup_nil_2|by intros x ?%elem_of_nil]|split; [by intros ?%elem_of_nil|done]|done]. }
    pose proof (bus_tracked c False es _ _ _ _ _ Ht Hr (fun f => match f with end)) as H. by do 2 eexists. }
  assert (NoDup (subs g)) as Hn by (destruct (Hinv 0%nat) as (on & acc & [[H _] _ _]); exact H). split_and!.
  - intros p ev now g'. simpl. destruct (fullActive g) eqn:Ef; [|by intros [= _ ?]]. intros _. unfold fullActive in Ef.
    apply existsb_exists in Ef as (c & Hc%list_elem_of_In & Hf). destruct (consumers g !! c) as [k|] eqn:Ek; [|done].
    apply andb_true_iff in Hf as [Hs Hf]. exists c, k. split_and!; [done|done|by destruct (stuck k)|done].
  - intros p ev start now Hp Hnow. simpl. rewrite Hp. rewrite (proj2 (Z.ltb_ge _ _) Hnow), andb_false_r. eexists. split; [done|]. split; [simpl; by rewrite lookup_delete_eq|].
    intros c k Hc Hk Hf. rewrite on_subs_twice, on_subs_lookup by done. simpl. rewrite decide_True, Hk by done. eexists. split; [done|].
    rewrite enqueue_stuck. unfold mark. by rewrite Hf.
  - intros es' g' sent' c k Hr' Hk Hst Hni. destruct (Hinv c) as (on & acc & Ht). by apply (stuck_runs c es' g on acc g' sent' k).
Qed.
End group.
(** ** Runs *)

(** Consumer 0 is dead, consumer 1 is not; two publishers wait for 0.  The first marks it
    and sends; that fills the queue of 1, and the second, whose second is over too,
    takes 1 for dead and drives its event out. *)
Definition ex_run : list (event (T := string)) :=
  [Add 0; Add 1; Publish 0 "a" 0; Take 1; Handle 1; Publish 1 "b" 10; Publish 2 "c" 11; Woken 1 (10 + nsec_second); Woken 2 (11 + nsec_second)].

Lemma live_consumer_loses :
  exists g sent k, run 1 no_group ex_run = Some (g, sent) /\ consumers g !! 1%nat = Some k /\
    offered 1 false ex_run sent = ["a"; "b"; "c"] /\ received k = ["a"; "c"] /\ stuck k = true.
Proof. do 3 eexists. split_and!; vm_compute; reflexivity. Qed.

Definition calm_run : list (event (T := string)) := [Add 0; Publish 0 "a" 0; Publish 0 "b" 1; Take 0; Publish 1 "c" 2].

Lemma bus_delivers_witness : exists g sent k, run 2 no_group calm_run = Some (g, sent) /\ consumers g !! 0%nat = Some k /\
  received k = ["a"; "b"; "c"] /\ received k = offered 0 false calm_run sent.
Proof.
  do 3 eexists. split; [vm_compute; reflexivity|]. split; [vm_compute; reflexivity|]. split; [vm_compute; reflexivity|].
  eapply (proj2 (proj2 (proj2 (bus_delivers 2 ltac:(lia) calm_run _ _ 0 _ eq_refl eq_refl)))).
  vm_compute. repeat split; intros ? [= <-]; reflexivity.
Defined.

Lemma dead_consumer_stalls_once_witness : exists g sent, run 1 no_group (take 7 ex_run) = Some (g, sent) /\
  waiting g !! 1%nat = Some ("b", 10) /\ exists g', step 1 g (Woken 1 (10 + nsec_second)) = Some (g', Some "b").
Proof.
  do 2 eexists. split; [vm_compute; reflexivity|]. split; [vm_compute; reflexivity|].
  destruct (proj1 (proj2 (dead_consumer_stalls_once 1 ltac:(lia) (take 7 ex_run) _ _ eq_refl)) 1%nat "b" 10 (10 + nsec_second) eq_refl) as (g' & Hg & _);
    [vm_compute; discriminate|]. exists g'. exact Hg.
Defined.

Lemma registry_is_map_witness :
  let '(r, g) := SubscribeTo (mkRegistry [2; 7] [0; 1]%nat) 4 2 in r = mkRegistry [2; 4; 7] [0; 2; 1]%nat /\ findGroup r 4 = Some 2%nat.
Proof.
  split; [reflexivity|]. assert (well_sorted (mkRegistry [2; 7] [0; 1]%nat)) as Hw by (split; [repeat constructor; lia|reflexivity]).
  exact (proj1 (proj2 (proj2 (registry_is_map (mkRegistry [2; 7] [0; 1]%nat) 4 2 Hw)))).
Defined.
End Dispatch.

Module Logmon.

(** ** The circular buffer *)

Record circularBuffer := mkBuffer { data : list Z; head : nat; size : nat }.

Definition newCircularBuffer (capacity : nat) : circularBuffer := mkBuffer (replicate capacity 0) 0 0.

(** [copy(data[off:], p)] *)
Definition copy_at (data : list Z) (off : nat) (p : list Z) : list Z :=
  take off data ++ take (length data - off) p ++ drop (off + length p) data.

Definition buffer_write (cb : circularBuffer) (p : list Z) : circularBuffer :=
  match p with
  | [] => cb
  | _ =>
    let cap := length (data cb) in
    if (cap <=? length p)%nat then mkBuffer (copy_at (data cb) 0 (drop (length p - cap) p)) 0 cap
    else
      let firstPart := (cap - head cb)%nat in
      let size := Nat.min cap (size cb + length p) in
      if (length p <=? firstPart)%nat then mkBuffer (copy_at (data cb) (head cb) p) ((head cb + length p) mod cap) size
      else mkBuffer (copy_at (copy_at (data cb) (head cb) (take firstPart p)) 0 (drop firstPart p)) (length p - firstPart) size
  end.

#[local] Arguments buffer_write : simpl never.

Definition buffer_history (cb : circularBuffer) : list Z :=
  let cap := length (data cb) in
  match size cb with
  | O => []
  | _ =>
    let start := ((head cb + cap - size cb) mod cap)%nat in
    if (start + size cb <=? cap)%nat then take (size cb) (drop start (data cb))
    else drop start (data cb) ++ take (size cb - (cap - start)) (data cb)
  end.

(** The buffer from its oldest place on. *)
Definition around (cb : circularBuffer) : list Z := drop (head cb) (data cb) ++ take (head cb) (data cb).

(** [cb] holds the last bytes of [l]. *)
Record holds (cb : circularBuffer) (l : list Z) : Prop := {
  h_head : (head cb < length (data cb))%nat;
  h_size : size cb = Nat.min (length (data cb)) (length l);
  h_last : drop (length (data cb) - size cb) (around cb) = drop (length l - size cb) l;
}.

Lemma length_around cb : length (around cb) = length (data cb).
Proof. unfold around. rewrite length_app, length_drop, length_take. lia. Qed.

Lemma buffer_history_around cb : (head cb < length (data cb))%nat -> (size cb <= length (data cb))%nat ->
  buffer_history cb = drop (length (data cb) - size cb) (around cb).
Proof.
  intros Hh Hs. unfold buffer_history, around. set (n := length (data cb)) in *. destruct (size cb) as [|s] eqn:Es.
  { rewrite drop_ge; [done|]. rewrite length_app, length_drop, length_take. lia. }
  rewrite <- Es in *. clear s Es. destruct (Nat.le_gt_cases (size cb) (head cb)) as [Hle|Hgt].
  - replace (head cb + n - size cb)%nat with (head cb - size cb + 1 * n)%nat by lia. rewrite Nat.Div0.mod_add, Nat.mod_small by lia.
    destruct (Nat.leb_spec (head cb - size cb + size cb) n); [|lia]. rewrite drop_app_ge by (rewrite length_drop; lia).
    rewrite length_drop. fold n. replace (n - size cb - (n - head cb))%nat with (head cb - size cb)%nat by lia.
    rewrite take_drop_commute. by replace (head cb - size cb + size cb)%nat with (head cb) by lia.
  - rewrite Nat.mod_small by lia. rewrite drop_app_le by (rewrite length_drop; lia). rewrite drop_drop.
    replace (head cb + (n - size cb))%nat with (head cb + n - size cb)%nat by lia.
    destruct (Nat.leb_spec (head cb + n - size cb + size cb) n).
    + assert (head cb = 0)%nat as -> by lia. rewrite take_0, app_nil_r. rewrite take_ge; [done|]. rewrite length_drop. lia.
    + do 2 f_equal. lia.
Qed.

Lemma length_copy_at d off p : (off + length p <= length d)%nat -> length (copy_at d off p) = length d.
Proof. intros H. unfold copy_at. rewrite !length_app, !length_take, length_drop. lia. Qed.

(** A short write moves the window on by its length. *)
Lemma around_write cb p : (head cb < length (data cb))%nat -> p <> [] -> (length p < length (data cb))%nat ->
  around (buffer_write cb p) = drop (length p) (around cb) ++ p /\ (head (buffer_write cb p) < length (data (buffer_write cb p)))%nat /\
  length (data (buffer_write cb p)) = length (data cb) /\ size (buffer_write cb p) = Nat.min (length (data cb)) (size cb + length p).
Proof.
  intros Hh Hp Hlen. destruct p as [|x p0]; [done|]. set (p := x :: p0) in *. unfold buffer_write. cbv zeta. fold p. change (match p with [] => cb | _ :: _ => ?b end) with b.
  set (n := length (data cb)) in *. set (h := head cb) in *. destruct (Nat.leb_spec n (length p)); [lia|]. unfold around. fold h.
  destruct (Nat.leb_spec (length p) (n - h)) as [Hf|Hf]; cbn [data head size].
  - rewrite length_copy_at by lia. fold n. split_and!; [|apply Nat.mod_upper_bound; lia|done|done]. unfold copy_at. fold n. rewrite (take_ge p) by lia.
    rewrite (drop_app_le (drop h (data cb))) by (rewrite length_drop; lia). rewrite drop_drop. destruct (decide (h + length p = n)%nat) as [E|E].
    + rewrite E, Nat.Div0.mod_same, drop_0, take_0, app_nil_r. rewrite (drop_ge (data cb) n) by lia. by rewrite app_nil_r.
    + rewrite Nat.mod_small by lia. rewrite (app_assoc (take h (data cb)) p). rewrite drop_app_length' by (rewrite length_app, length_take; lia).
      rewrite take_app_length' by (rewrite length_app, length_take; lia). by rewrite app_assoc.
  - assert (length (copy_at (data cb) h (take (n - h) p)) = n) as Hl by (apply length_copy_at; rewrite length_take; lia).
    remember (copy_at (data cb) h (take (n - h) p)) as d eqn:Ed. rewrite length_copy_at by (rewrite Hl, length_drop; lia). rewrite Hl.
    split_and!; [|lia|done|done]. unfold copy_at. rewrite Hl, take_0. cbn [app plus]. rewrite (take_ge (drop (n - h) p)) by (rewrite length_drop; lia).
    rewrite length_drop. rewrite drop_app_length' by (rewrite length_drop; lia). rewrite take_app_length' by (rewrite length_drop; lia).
    rewrite Ed. unfold copy_at. fold n. rewrite take_take, Nat.min_id, length_take. rewrite (drop_ge (data cb)) by lia. rewrite app_nil_r.
    rewrite drop_app_le by (rewrite length_take; lia). rewrite drop_app_ge by (rewrite length_drop; lia). rewrite length_drop. fold n.
    by rewrite <- app_assoc, take_drop.
Qed.
Lemma holds_write cb l p : holds cb l -> holds (buffer_write cb p) (l ++ p).
Proof.
  intros [Hh Hs Hl]. destruct (decide (p = [])) as [->|Hne]; [by rewrite app_nil_r|]. destruct (Nat.le_gt_cases (length (data cb)) (length p)) as [Hlong|Hshort].
  - assert (buffer_write cb p = mkBuffer (drop (length p - length (data cb)) p) 0 (length (data cb))) as ->.
    { unfold buffer_write. destruct p as [|x p0]; [done|]. set (p := x :: p0) in *. fold p. rewrite (proj2 (Nat.leb_le _ _) Hlong). f_equal.
      assert (length (drop (length p - length (data cb)) p) = length (data cb)) as Hd by (rewrite length_drop; lia).
      unfold copy_at. rewrite take_0, Nat.sub_0_r, Nat.add_0_l, take_ge by lia. rewrite (drop_ge (data cb)) by lia. by rewrite app_nil_r. }
    assert (length (drop (length p - length (data cb)) p) = length (data cb)) as Hd by (rewrite length_drop; lia).
    constructor; unfold around; cbn [data head size]; rewrite Hd; [lia|rewrite length_app; lia|].
    rewrite take_0, app_nil_r, Nat.sub_diag, !drop_0. rewrite length_app, drop_app_ge by lia. f_equal. lia.
  - destruct (around_write cb p Hh Hne Hshort) as (Ha & Hh' & Hn & Hs'). constructor; rewrite ?Hn, ?Ha, ?Hs'; [by rewrite <- Hn|rewrite length_app; lia|].
    rewrite length_app. set (n := length (data cb)) in *. set (k := (Nat.min n (size cb + length p) - length p)%nat). pose proof (length_around cb) as Hla. fold n in Hla.
    rewrite drop_app_le by (rewrite length_drop; lia). rewrite drop_drop, (drop_app_le l) by lia. f_equal.
    replace (length p + (n - Nat.min n (size cb + length p)))%nat with (n - size cb + (size cb - k))%nat by lia.
    rewrite <- drop_drop, Hl, drop_drop. f_equal. lia.
Qed.

Lemma holds_new n : (0 < n)%nat -> holds (newCircularBuffer n) [].
Proof.
  intros Hn. constructor; unfold around; simpl; rewrite length_replicate; [lia|lia|]. rewrite drop_ge; [done|].
  rewrite length_app, length_drop, length_take, length_replicate. lia.
Qed.

Lemma holds_history cb l : holds cb l -> buffer_history cb = drop (length l - length (data cb)) l.
Proof. intros [Hh Hs Hl]. rewrite buffer_history_around by lia. rewrite Hl. f_equal. lia. Qed.

(** ** The monitor *)

Definition BufferSize : nat := Z.to_nat (100 * 1024).

(** [cap(broadcastCh)] *)
Definition channel : nat := Z.to_nat 1024.

(** What subscribers of the log are sent. *)
Inductive DataEvent := Data (p : list Z) | Notice (dropped : Z).

(** The broadcasting goroutine: between two messages, with one it received, about to
    report what was dropped before it, or about to send it. *)
Inductive loop_state := Idle | Got (p : list Z) | Reporting (n : Z) (p : list Z) | Sending (p : list Z).

(** A writer that filled the buffer, and one that found the channel full. *)
Inductive writer := Buffered (p : list Z) | Dropping (p : list Z).

Record monitor := mkMonitor {
  buffer : option circularBuffer;
  ch : list (list Z);
  dropped : Z;
  loop : loop_state;
  writers : gmap nat writer;
  out : list DataEvent;
}.

#[export] Instance monitor_fields : Fields monitor := fun m => mkMonitor (buffer m) (ch m) (dropped m) (loop m) (writers m) (out m).

Definition NewWriter : monitor := mkMonitor None [] 0 Idle ∅ [].

(** What [atomic.Uint64] holds. *)
Definition u64 (z : Z) : Z := z mod 2 ^ 64.

Inductive mon_event :=
| Write (w : nat) (p : list Z)      (* writer [w]: to the standard output and the buffer *)
| Offer (w : nat)                   (* its non-blocking send *)
| Count (w : nat)                   (* the channel was full: its bytes are counted *)
| Receive
| Swap                              (* [dropped.Swap(0)] *)
| Report                            (* publish the notice *)
| Send                              (* publish the message *)
| Clear.

Definition mon_step (m : monitor) (e : mon_event) : option monitor :=
  match e with
  | Write w [] => Some m
  | Write w p =>
    match writers m !! w with
    | None => Some (m <| buffer ::= Some (buffer_write (default (newCircularBuffer BufferSize) (buffer m)) p) |> <| writers ::= <[w := Buffered p]> (writers m) |>)
    | Some _ => None
    end
  | Offer w =>
    match writers m !! w with
    | Some (Buffered p) =>
      if (length (ch m) <? channel)%nat then Some (m <| ch ::= ch m ++ [p] |> <| writers ::= delete w (writers m) |>)
      else Some (m <| writers ::= <[w := Dropping p]> (writers m) |>)
    | _ => None
    end
  | Count w =>
    match writers m !! w with
    | Some (Dropping p) => Some (m <| dropped ::= u64 (dropped m + Z.of_nat (length p)) |> <| writers ::= delete w (writers m) |>)
    | _ => None
    end
  | Receive => match loop m, ch m with Idle, p :: ps => Some (m <| loop ::= Got p |> <| ch ::= ps |>) | _, _ => None end
  | Swap =>
    match loop m with
    | Got p => Some (m <| dropped ::= 0 |> <| loop ::= (if 0 <? dropped m then Reporting (dropped m) p else Sending p) |>)
    | _ => None
    end
  | Report => match loop m with Reporting n p => Some (m <| loop ::= Sending p |> <| out ::= out m ++ [Notice n] |>) | _ => None end
  | Send => match loop m with Sending p => Some (m <| loop ::= Idle |> <| out ::= out m ++ [Data p] |>) | _ => None end
  | Clear => Some (m <| buffer ::= None |>)
  end.

Fixpoint mon_run (m : monitor) (es : list mon_event) : option monitor :=
  match es with [] => Some m | e :: es => mon_step m e ≫= fun m => mon_run m es end.

Definition GetHistory (m : monitor) : list Z := match buffer m with Some cb => buffer_history cb | None => [] end.

(** The bytes written since the buffer was last cleared, and all that were written. *)
Fixpoint since_clear (acc : list Z) (es : list mon_event) : list Z :=
  match es with
  | [] => acc
  | Write _ p :: es => since_clear (acc ++ p) es
  | Clear :: es => since_clear [] es
  | _ :: es => since_clear acc es
  end.

Fixpoint written (es : list mon_event) : list (list Z) :=
  match es with [] => [] | Write _ p :: es => (match p with [] => [] | _ => [p] end) ++ written es | _ :: es => written es end.

Definition history_ok (m : monitor) (l : list Z) : Prop :=
  match buffer m with Some cb => holds cb l /\ length (data cb) = BufferSize | None => l = [] end.

Lemma write_length cb p : (head cb < length (data cb))%nat -> length (data (buffer_write cb p)) = length (data cb).
Proof.
  intros Hh. destruct (decide (p = [])) as [->|Hne]; [done|]. destruct (Nat.le_gt_cases (length (data cb)) (length p)) as [Hlong|Hshort]; [|by apply around_write].
  unfold buffer_write. destruct p as [|x p]; [done|]. rewrite (proj2 (Nat.leb_le _ _) Hlong). cbn [data]. apply length_copy_at. rewrite length_drop. lia.
Qed.

Lemma run_history es m l m' : history_ok m l -> mon_run m es = Some m' -> history_ok m' (since_clear l es).
Proof.
  revert m l. induction es as [|e es IH]; intros m l Hok Hr; simpl in *; [by injection Hr as <-|].
  destruct (mon_step m e) as [m1|] eqn:Es; [|done]. simpl in Hr. assert (forall l1, history_ok m1 l1 -> history_ok m' (since_clear l1 es)) as Hn by (intros; by apply (IH m1)).
  destruct e as [w p|w|w| | | | |]; simpl in Es.
  - destruct p as [|x p]; [injection Es as <-; rewrite app_nil_r; by apply Hn|]. destruct (writers m !! w); [done|]. injection Es as <-.
    apply Hn. unfold history_ok in *. cbn [buffer set_to]. simpl. assert (holds (default (newCircularBuffer BufferSize) (buffer m)) l /\
      length (data (default (newCircularBuffer BufferSize) (buffer m))) = BufferSize) as [Hh Hb].
    { destruct (buffer m); [done|]. subst l. split; [apply holds_new; unfold BufferSize; lia|apply length_replicate]. }
    split; [by apply holds_write|]. rewrite write_length by apply Hh. done.
  - destruct (writers m !! w) as [[p|p]|]; [|done|done]. destruct (_ <? _)%nat; injection Es as <-; by apply Hn.
  - destruct (writers m !! w) as [[p|p]|]; [done| |done]. injection Es as <-. by apply Hn.
  - destruct (loop m); [|done|done|done]. destruct (ch m); [done|]. injection Es as <-. by apply Hn.
  - destruct (loop m); [done| |done|done]. injection Es as <-. by apply Hn.
  - destruct (loop m); [done|done| |done]. injection Es as <-. by apply Hn.
  - destruct (loop m); [done|done|done|]. injection Es as <-. by apply Hn.
  - injection Es as <-. by apply Hn.
Qed.
(** ** Where the bytes are *)

Definition payload (w : writer) : list Z := match w with Buffered p | Dropping p => p end.
Definition in_writers (ws : gmap nat writer) : list (list Z) := (fun kv => payload kv.2) <$> map_to_list ws.
Definition in_loop (l : loop_state) : list (list Z) := match l with Idle => [] | Got p | Reporting _ p | Sending p => [p] end.
Definition reporting (l : loop_state) : Z := match l with Reporting n _ => n | _ => 0 end.
Definition messages (o : list DataEvent) : list (list Z) := omap (fun e => match e with Data p => Some p | Notice _ => None end) o.
Definition notices (o : list DataEvent) : Z := sumZ (map (fun e => match e with Data _ => 0 | Notice n => n end) o).
Definition bytes (ps : list (list Z)) : Z := sumZ (map (fun p => Z.of_nat (length p)) ps).

Lemma bytes_app ps qs : bytes (ps ++ qs) = bytes ps + bytes qs.
Proof. unfold bytes. by rewrite map_app, sumZ_app. Qed.

Lemma bytes_nonneg ps : 0 <= bytes ps.
Proof. unfold bytes. apply sumZ_nonneg. apply Forall_forall. intros z (p & _ & ->)%elem_of_map. lia. Qed.

Lemma bytes_perm ps qs : ps ≡ₚ qs -> bytes ps = bytes qs.
Proof. unfold bytes. induction 1; simpl; lia. Qed.

Lemma in_writers_insert ws w x : ws !! w = None -> in_writers (<[w := x]> ws) ≡ₚ payload x :: in_writers ws.
Proof. intros Hw. unfold in_writers. by rewrite map_to_list_insert. Qed.

Lemma in_writers_delete ws w x : ws !! w = Some x -> in_writers ws ≡ₚ payload x :: in_writers (delete w ws).
Proof. intros Hw. rewrite <- in_writers_insert by apply lookup_delete_eq. by rewrite insert_delete_id. Qed.

Lemma in_writers_replace ws w x y : ws !! w = Some x -> payload y = payload x -> in_writers (<[w := y]> ws) ≡ₚ in_writers ws.
Proof.
  intros Hw Hp. rewrite (in_writers_delete ws w x Hw), <- Hp. rewrite <- insert_delete_eq. by rewrite in_writers_insert by apply lookup_delete_eq.
Qed.

(** Every message written is read by the subscribers, or on its way, or [lost]; and the
    lost bytes are reported, or about to be, or counted. *)
Definition accounted (m : monitor) (ws lost : list (list Z)) : Prop :=
  ws ≡ₚ messages (out m) ++ in_loop (loop m) ++ ch m ++ in_writers (writers m) ++ lost /\
  bytes lost = notices (out m) + reporting (loop m) + dropped m /\ 0 <= notices (out m) + reporting (loop m) /\ 0 <= dropped m.

Lemma accounted_step m e m' ws lost : accounted m ws lost -> mon_step m e = Some m' -> bytes (ws ++ written [e]) < 2 ^ 64 ->
  exists lost', accounted m' (ws ++ written [e]) lost'.
Proof.
  unfold accounted. intros (Hp & Hb & Hr & Hd) Hs Hlim. destruct e as [w p|w|w| | | | |]; simpl in Hs; rewrite ?app_nil_r in *.
  - destruct p as [|x p]; [injection Hs as <-; exists lost; by rewrite app_nil_r|]. destruct (writers m !! w) eqn:Ew; [done|]. injection Hs as <-.
    exists lost. simpl. split; [|done]. rewrite (in_writers_insert _ _ _ Ew), Hp. simpl. rewrite <- !app_assoc. do 3 f_equiv. by rewrite app_assoc, <- Permutation_cons_append.
  - destruct (writers m !! w) as [[p|p]|] eqn:Ew; [|done|done]. destruct (_ <? _)%nat; injection Hs as <-; exists lost; simpl; (split; [|done]).
    + rewrite Hp, (in_writers_delete _ _ _ Ew). simpl. by rewrite <- !app_assoc.
    + rewrite Hp, (in_writers_replace _ _ _ (Dropping p) Ew) by done. done.
  - destruct (writers m !! w) as [[p|p]|] eqn:Ew; [done| |done]. injection Hs as <-. exists (p :: lost). simpl. split.
    + rewrite Hp, (in_writers_delete _ _ _ Ew). simpl. do 3 f_equiv. by rewrite Permutation_middle.
    + apply bytes_perm in Hp. rewrite Hp, !bytes_app, (bytes_perm _ _ (in_writers_delete _ _ _ Ew)) in Hlim.
      pose proof (bytes_nonneg (messages (out m))). pose proof (bytes_nonneg (in_loop (loop m))). pose proof (bytes_nonneg (ch m)).
      pose proof (bytes_nonneg (in_writers (delete w (writers m)))). unfold bytes at 4 in Hlim. simpl in Hlim. fold (bytes (in_writers (delete w (writers m)))) in Hlim.
      unfold u64. rewrite Z.mod_small by lia. unfold bytes in *. simpl. lia.
  - destruct (loop m) eqn:El; [|done|done|done]. destruct (ch m) eqn:Ec; [done|]. injection Hs as <-. exists lost. simpl. rewrite Hp. split; [done|]. simpl in *. lia.
  - destruct (loop m) eqn:El; [done| |done|done]. injection Hs as <-. exists lost. simpl in *. rewrite Hp. destruct (Z.ltb_spec 0 (dropped m)); simpl; (split; [done|lia]).
  - destruct (loop m) eqn:El; [done|done| |done]. injection Hs as <-. exists lost. simpl in *. rewrite Hp. unfold messages, notices in *. rewrite omap_app, map_app, sumZ_app. simpl.
    rewrite app_nil_r. split; [done|lia].
  - destruct (loop m) eqn:El; [done|done|done|]. injection Hs as <-. exists lost. simpl in *. rewrite Hp. unfold messages, notices in *. rewrite omap_app, map_app, sumZ_app. simpl.
    rewrite <- app_assoc. split; [done|lia].
  - injection Hs as <-. by exists lost.
Qed.

Lemma run_accounted m es m' ws lost : accounted m ws lost -> mon_run m es = Some m' -> bytes (ws ++ written es) < 2 ^ 64 ->
  exists lost', accounted m' (ws ++ written es) lost'.
Proof.
  revert m ws lost. induction es as [|e es IH]; intros m ws lost Ha Hr Hlim; simpl in Hr; [injection Hr as <-; exists lost; by rewrite app_nil_r|].
  destruct (mon_step m e) as [m1|] eqn:Es; [|done]. simpl in Hr. assert (written (e :: es) = written [e] ++ written es) as E.
  { destruct e as [w [|x p]|w|w| | | | |]; done. }
  rewrite E, app_assoc in *. destruct (accounted_step m e m1 ws lost) as [lost1 H1]; [done|done| |].
  { rewrite bytes_app in Hlim. pose proof (bytes_nonneg (written es)). lia. }
  by apply (IH m1 (ws ++ written [e]) lost1).
Qed.


(** ** Runs *)

(** The channel is full when a message is dropped: the notice comes before all the
    messages that were written earlier and wait. *)
Lemma notice_comes_early :
  (fun m => (out m, length (ch m))) <$>
    mon_run (NewWriter <| ch ::= replicate channel [1] |>) [Write 0 [2; 2]; Offer 0; Count 0; Receive; Swap; Report; Send] =
  Some ([Notice 2; Data [1]], 1023%nat).
Proof. vm_compute. reflexivity. Qed.

Definition ex_events : list mon_event := [Write 0 [1; 2]; Write 1 [3]; Offer 1; Receive; Offer 0; Swap; Send].

End Logmon.
