(* ===== verification/BodyFilters.v ===== *)
(** What the proxy changes in a request before it goes to a child
    ([internal/config/filters.go]; [internal/server/filters.go], [filters_image.go] and
    [sampling_headers.go]): the name of the model, parameters that are stripped or set,
    images for models without eyes, and sampling parameters from headers.

    A body is edited by third-party functions of the syntax tree (gjson, sjson); they
    are parameters, with their documented behaviour on objects and plain keys as
    hypotheses where a theorem needs it. *)

From Stdlib Require Import Ascii SpecFloat.
From S2P Require Import Prelude Float64 Runes ModelNames Macros.

Module BodyFilters.
Import Float64.
Import Macros(Contains).
Open Scope string_scope.
Open Scope list_scope.
Open Scope Z_scope.

(** ** JSON values *)

(** A decoded value; a scalar that is not a string is kept as it is written. *)
Inductive json :=
| JString (s : string)
| JScalar (raw : string)
| JList (l : list json)
| JMap (m : list (string * json)).

Definition field (k : string) (m : list (string * json)) : option json := snd <$> find (fun kv => String.eqb kv.1 k) m.

(** ** The settings *)

Definition ProtectedParams : list string := ["model"].

Record Filters := mkFilters {
  StripParams : string;
  SetParams : gmap string json;
  SetParamsByID : gmap string (gmap string json);
}.

Definition no_filters : Filters := mkFilters "" ∅ ∅.

(** [strings.Split] with a separator of one byte. *)
Fixpoint Split (sep : ascii) (s : string) : list string :=
  match s with
  | EmptyString => [""]
  | String c s =>
    match Split sep s with
    | part :: parts => if Ascii.eqb c sep then "" :: part :: parts else String c part :: parts
    | [] => []
    end
  end.

Definition TrimSpace (s : string) : string := string_of_runes (trim_space (runes_of_string s)).

Fixpoint clean_params (seen : gset string) (params : list string) : list string :=
  match params with
  | [] => []
  | param :: params =>
    let trimmed := TrimSpace param in
    if bool_decide (trimmed ∈ ProtectedParams) || String.eqb trimmed "" || bool_decide (trimmed ∈ seen)
    then clean_params seen params
    else trimmed :: clean_params ({[trimmed]} ∪ seen) params
  end.

Definition SanitizedStripParams (f : Filters) : list string :=
  if String.eqb (StripParams f) "" then [] else sort_strings (clean_params ∅ (Split "," (StripParams f))).

(** A key with the suffix [?], and the key without it. *)
Fixpoint soft_key (key : string) : option string :=
  match key with
  | EmptyString => None
  | String c EmptyString => if Ascii.eqb c "?" then Some "" else None
  | String c key => String c <$> soft_key key
  end.

(** The two passes over the map: [result] and [soft]. *)
Definition hard_step (result : gmap string json) (kv : string * json) : gmap string json :=
  if bool_decide (is_Some (soft_key kv.1)) || bool_decide (kv.1 ∈ ProtectedParams) then result
  else <[kv.1 := kv.2]> result.

Definition soft_step (s : gmap string json * gset string) (kv : string * json) : gmap string json * gset string :=
  match soft_key kv.1 with
  | None => s
  | Some key =>
    if String.eqb key "" || bool_decide (key ∈ ProtectedParams) then s
    else if bool_decide (is_Some (s.1 !! key)) then s
    else (<[key := kv.2]> s.1, {[key]} ∪ s.2)
  end.

Section filters.
Variable range : forall V, gmap string V -> list (string * V).

(** The parameters, their keys in order, and those that only fill. *)
Definition sanitizeParams (raw : gmap string json) : gmap string json * list string * gset string :=
  let '(result, soft) := foldl soft_step (foldl hard_step ∅ (range _ raw), ∅) (range _ raw) in
  (result, sort_strings (range _ result).*1, soft).

Definition SanitizedSetParams (f : Filters) : gmap string json * list string * gset string := sanitizeParams (SetParams f).

Definition SanitizedSetParamsByID (f : Filters) (requested : string) : gmap string json * list string * gset string :=
  match SetParamsByID f !! requested with Some params => sanitizeParams params | None => (∅, [], ∅) end.

(** ** The body *)

Context {B : Type}.
(** [gjson.GetBytes], [sjson.SetBytes], [sjson.DeleteBytes] and [gjson.ValidBytes]; and
    the bytes of a body. *)
Variable GetBytes : B -> string -> option json.
Variable SetBytes : B -> string -> json -> option B.
Variable DeleteBytes : B -> string -> option B.
Variable ValidBytes : B -> bool.
Variable bytes : B -> string.

Inductive filter_error := RewritingModel | Stripping (param : string) | SettingParam (param : string) | SettingImages | SettingHeader (name : string).

Definition edited (b : option B) (e : filter_error) : result filter_error B := match b with Some b => Ok b | None => Err e end.

Fixpoint each {A} (f : B -> A -> result filter_error B) (b : B) (l : list A) : result filter_error B :=
  match l with [] => Ok b | x :: l => rbind (f b x) (fun b => each f b l) end.

Definition set_param (params : gmap string json) (soft : gset string) (b : B) (key : string) : result filter_error B :=
  if bool_decide (key ∈ soft) && bool_decide (is_Some (GetBytes b key)) then Ok b
  else edited (SetBytes b key (default (JScalar "null") (params !! key))) (SettingParam key).

Definition applyFilters (b : B) (requested useModelName : string) (f : Filters) : result filter_error B :=
  rbind (if String.eqb useModelName "" then Ok b else edited (SetBytes b "model" (JString useModelName)) RewritingModel) (fun b =>
  rbind (each (fun b param => edited (DeleteBytes b param) (Stripping param)) b (SanitizedStripParams f)) (fun b =>
  let '(setParams, setKeys, setSoft) := SanitizedSetParams f in
  let '(byID, byIDKeys, byIDSoft) := SanitizedSetParamsByID f requested in
  rbind (each (set_param setParams setSoft) b setKeys) (fun b =>
  each (set_param byID byIDSoft) b byIDKeys))).

(** ** Images *)

Definition imageOmittedText (model : string) : string :=
  "[image omitted: model " +:+ model +:+ " accepts text only, so llama-swap replaced an image block with this note. Do not send images to this model; describe the content in text instead.]".

Definition text_block (placeholder : string) : json := JMap [("type", JString "text"); ("text", JString placeholder)].

(** A [content], with its image blocks replaced, and whether there was one. *)
Fixpoint replaceImageBlocksIn (placeholder : string) (content : json) : json * bool :=
  match content with
  | JList blocks =>
    let rs := map (fun blk =>
      match blk with
      | JMap m =>
        match field "type" m with
        | Some (JString typ) =>
          if String.eqb typ "image" || String.eqb typ "image_url" then (text_block placeholder, true)
          else if String.eqb typ "tool_result" then
            let fs := map (fun kv => if String.eqb kv.1 "content"
                                     then let r := replaceImageBlocksIn placeholder kv.2 in ((kv.1, r.1), r.2)
                                     else (kv, false)) m in
            (JMap fs.*1, existsb snd fs)
          else (blk, false)
        | _ => (blk, false)
        end
      | _ => (blk, false)
      end) blocks in
    (JList rs.*1, existsb snd rs)
  | _ => (content, false)
  end.

Definition replace_message (placeholder : string) (m : json) : json * bool :=
  match m with
  | JMap fields =>
    let fs := map (fun kv => if String.eqb kv.1 "content"
                             then let r := replaceImageBlocksIn placeholder kv.2 in ((kv.1, r.1), r.2)
                             else (kv, false)) fields in
    (JMap fs.*1, existsb snd fs)
  | _ => (m, false)
  end.

(** What the cheap check looks for: a quote and [image]. *)
Definition image_mark : string := String (ascii_of_nat 34) "image".

(** [malformed]: the array of messages is not JSON, and [json.Decode] fails. *)
Variable malformed : B -> bool.

Definition replaceImageBlocks (b : B) (model : string) : result filter_error B :=
  if negb (Contains image_mark (bytes b)) then Ok b
  else match GetBytes b "messages" with
  | Some (JList msgs) =>
    if malformed b then Ok b
    else
      let rs := map (replace_message (imageOmittedText model)) msgs in
      if negb (existsb snd rs) then Ok b else edited (SetBytes b "messages" (JList rs.*1)) SettingImages
  | _ => Ok b
  end.

(** ** Sampling headers *)

(** [strconv.ParseFloat], and how [json.Marshal] writes a float. *)
Variable ParseFloat : string -> option float64.
Variable write_float : float64 -> string.

Definition finite (x : float64) : bool := match x with S754_nan | S754_infinity _ => false | _ => true end.

Definition parseSamplingHeaderValue (raw : string) (min max : float64) (minInclusive : bool) : option float64 :=
  if String.eqb raw "" then None
  else match ParseFloat raw with
  | None => None
  | Some v =>
    if negb (finite v) then None
    else if fltb max v then None
    else if minInclusive then (if fltb v min then None else Some v)
    else if fleb v min then None else Some v
  end.

Definition fill_header (b : B) (key : string) (v : option float64) : result filter_error B :=
  match v with
  | Some v => if bool_decide (is_Some (GetBytes b key)) then Ok b else edited (SetBytes b key (JScalar (write_float v))) (SettingHeader key)
  | None => Ok b
  end.

(** The part of [applySamplingHeadersForModel] behind its gates. *)
Definition apply_headers (h : string -> string) (b : B) : result filter_error B :=
  rbind (match parseSamplingHeaderValue (h "X-Temperature") (of_int 0) (of_int 2) false with
         | Some v => edited (SetBytes b "temperature" (JScalar (write_float v))) (SettingHeader "temperature")
         | None => Ok b
         end) (fun b =>
  rbind (fill_header b "presence_penalty" (parseSamplingHeaderValue (h "X-Presence-Penalty") (of_int (-2)) (of_int 2) true)) (fun b =>
  fill_header b "repeat_penalty" (parseSamplingHeaderValue (h "X-Repetition-Penalty") (of_int 0) (of_int 3) false))).

(** ** The middleware *)

(** Of a model's configuration: its name upstream, its filters, its capabilities ([None]:
    none declared; the kinds of input otherwise) and the value of [samplingHeaders] in
    its metadata. *)
Record model_filters := mkModelFilters { UseModelName : string; filters_of : Filters; inputs : option (list string); samplingHeaders : option json }.

Record config := mkConfig { known : ModelNames.names; models : gmap string model_filters; peers : gmap string Filters }.

Definition no_model : model_filters := mkModelFilters "" no_filters None None.

Definition resolveFilters (c : config) (requested : string) : option (string * Filters) :=
  match ModelNames.RealModelName (known c) requested with
  | Some real => let m := default no_model (models c !! real) in Some (UseModelName m, filters_of m)
  | None =>
    match ModelNames.ResolvePeerModel range (known c) requested with
    | Some (peer, _) => Some ("", default no_filters (peers c !! peer))
    | None => None
    end
  end.

Definition modelRejectsImages (c : config) (requested : string) : bool :=
  match ModelNames.RealModelName (known c) requested with
  | None => false
  | Some real => match inputs (default no_model (models c !! real)) with Some ins => negb (bool_decide ("image" ∈ ins)) | None => false end
  end.

Definition modelWantsSamplingHeaders (m : model_filters) : bool :=
  match samplingHeaders m with Some (JScalar raw) => String.eqb raw "true" | _ => false end.

Definition applySamplingHeadersForModel (c : config) (requested : string) (h : string -> string) (b : B) : result filter_error B :=
  if String.eqb requested "" || String.eqb (bytes b) "" then Ok b
  else match ModelNames.RealModelName (known c) requested with
  | None => Ok b
  | Some real =>
    match models c !! real with
    | None => Ok b
    | Some m => if negb (modelWantsSamplingHeaders m) then Ok b else if negb (ValidBytes b) then Ok b else apply_headers h b
    end
  end.

Definition samplingEndpoints : list string := ["/v1/chat/completions"; "/v1/completions"; "/v1/messages"].

(** A request: its content type, path and headers, the model of its context, and its
    body as the context has it ([None]: not yet read) or as it can be read. *)
Record request := mkRequest {
  ContentType : string; Path : string; Header : string -> string;
  Model : option string; buffered : option B; ReadAll : option B }.

(** Passed on as it is; answered; or passed on with a body, which the context gets too. *)
Inductive outcome := Untouched | Answered (status : Z) | Changed (b : B).

Definition CreateFilterMiddleware (c : config) (r : request) : outcome :=
  if negb (Contains "application/json" (ContentType r)) then Untouched
  else match Model r with
  | None => Answered 404
  | Some model =>
    match resolveFilters c model with
    | None => Untouched
    | Some (useModelName, f) =>
      match match buffered r with Some b => Some b | None => ReadAll r end with
      | None => Answered 400
      | Some b =>
        match rbind (applyFilters b model useModelName f) (fun b =>
              rbind (if modelRejectsImages c model then replaceImageBlocks b model else Ok b) (fun b =>
              if bool_decide (Path r ∈ samplingEndpoints) then applySamplingHeadersForModel c model (Header r) b else Ok b)) with
        | Ok b => Changed b
        | Err _ => Answered 500
        end
      end
    end
  end.

(** ** What the settings mean *)

(** What a map of parameters says of a key: its value, and whether it only fills. *)
Definition meant (raw : gmap string json) (k : string) : option (json * bool) :=
  if bool_decide (k ∈ ProtectedParams) then None
  else match soft_key k, raw !! k with
  | None, Some v => Some (v, false)
  | _, _ => if String.eqb k "" then None else (fun v => (v, true)) <$> raw !! (k +:+ "?")
  end.

(** A parameter that is [x] in the body, after that. *)
Definition settle (m : option (json * bool)) (x : option json) : option json :=
  match m with
  | None => x
  | Some (v, fills) => match x with Some y => if fills then Some y else Some v | None => Some v end
  end.

Definition strips (f : Filters) (k : string) : bool :=
  bool_decide (k ∈ (TrimSpace <$> Split "," (StripParams f))) && negb (bool_decide (k ∈ ProtectedParams)).

Definition header_meant (h : string -> string) (k : string) : option (json * bool) :=
  if String.eqb k "temperature"
  then (fun v => (JScalar (write_float v), false)) <$> parseSamplingHeaderValue (h "X-Temperature") (of_int 0) (of_int 2) false
  else if String.eqb k "presence_penalty"
  then (fun v => (JScalar (write_float v), true)) <$> parseSamplingHeaderValue (h "X-Presence-Penalty") (of_int (-2)) (of_int 2) true
  else if String.eqb k "repeat_penalty"
  then (fun v => (JScalar (write_float v), true)) <$> parseSamplingHeaderValue (h "X-Repetition-Penalty") (of_int 0) (of_int 3) false
  else None.

Lemma soft_key_add k : soft_key (k +:+ "?") = Some k.
Proof.
  induction k as [|c k IH]; [done|]. simpl. destruct (k +:+ "?") as [|c' k'] eqn:E; [by destruct k|]. by rewrite IH.
Qed.

Lemma soft_key_spec key k : soft_key key = Some k <-> key = k +:+ "?".
Proof.
  split; [|intros ->; apply soft_key_add]. revert k. induction key as [|c key IH]; intros k; [done|]. destruct key as [|c' key'].
  - simpl. destruct (Ascii.eqb_spec c "?") as [->|]; [|done]. by intros [= <-].
  - change (soft_key (String c (String c' key'))) with (String c <$> soft_key (String c' key')).
    destruct (soft_key (String c' key')) as [k1|]; [|done]. intros [= <-]. change (String c (String c' key') = String c (k1 +:+ "?")). f_equal. by apply IH.
Qed.

Lemma hard_pass_spec l r k : NoDup l.*1 ->
  foldl hard_step r l !! k =
  if bool_decide (is_Some (soft_key k)) || bool_decide (k ∈ ProtectedParams) then r !! k
  else match (list_to_map l : gmap string json) !! k with Some v => Some v | None => r !! k end.
Proof.
  revert r. induction l as [|[key v] l IH]; intros r Hn; simpl; [rewrite lookup_empty; by destruct (_ || _)|].
  simpl in Hn. apply NoDup_cons in Hn as [Hni Hn]. rewrite (IH _ Hn). unfold hard_step at 1 2. cbn [fst snd].
  destruct (decide (k = key)) as [->|Hne].
  - destruct (bool_decide (is_Some (soft_key key)) || bool_decide (key ∈ ProtectedParams)); [done|].
    rewrite lookup_insert_eq, (not_elem_of_list_to_map_1 l key Hni). by rewrite lookup_insert_eq.
  - rewrite (lookup_insert_ne (list_to_map l)) by done.
    destruct (bool_decide (is_Some (soft_key key)) || bool_decide (key ∈ ProtectedParams)); [done|]. by rewrite lookup_insert_ne.
Qed.

(** What the second pass adds to [r] for [k]. *)
Definition filled (l : list (string * json)) (r : gmap string json) (k : string) : option json :=
  if String.eqb k "" || bool_decide (k ∈ ProtectedParams) || bool_decide (is_Some (r !! k)) then None
  else (list_to_map l : gmap string json) !! (k +:+ "?").

Lemma filled_cons l r k key v : k +:+ "?" <> key -> filled ((key, v) :: l) r k = filled l r k.
Proof. intros Hne. unfold filled. simpl. by rewrite lookup_insert_ne. Qed.

Lemma soft_add_inj k k' : k +:+ "?" = k' +:+ "?" -> k = k'.
Proof. intros E. pose proof (soft_key_add k) as H. rewrite E, soft_key_add in H. by simplify_eq. Qed.

Lemma soft_pass_spec l r s k : NoDup l.*1 ->
  (foldl soft_step (r, s) l).1 !! k = match filled l r k with Some v => Some v | None => r !! k end /\
  (k ∈ (foldl soft_step (r, s) l).2 <-> k ∈ s \/ is_Some (filled l r k)).
Proof.
  revert r s. induction l as [|[key v] l IH]; intros r s Hn.
  { assert (filled [] r k = None) as -> by (unfold filled; simpl; rewrite lookup_empty; by destruct (_ || _)).
    split; [done|]. split; [by left|intros [?|[? ?]]; done]. }
  cbn [fmap list_fmap fst] in Hn. apply NoDup_cons in Hn as [Hni Hn]. cbn [foldl]. unfold soft_step at 2 4; cbn [fst snd].
  destruct (soft_key key) as [key'|] eqn:Ek.
  2: { rewrite filled_cons by (intros <-; by rewrite soft_key_add in Ek). by apply IH. }
  apply soft_key_spec in Ek as ->. destruct (decide (k = key')) as [->|Hne].
  - assert (filled l r key' = None) as Hl.
    { unfold filled. destruct (_ || _); [done|]. by apply not_elem_of_list_to_map_1. }
    destruct (IH r s Hn) as [H1 H2]. rewrite Hl in H1, H2. unfold filled. cbn [list_to_map foldr uncurry]. simpl (list_to_map _). rewrite lookup_insert_eq.
    destruct (String.eqb key' "" || bool_decide (key' ∈ ProtectedParams)) eqn:Ex; cbn [orb]; [split; [exact H1|exact H2]|].
    destruct (bool_decide (is_Some (r !! key'))) eqn:Hr; cbn [orb]; [split; [exact H1|exact H2]|].
    destruct (IH (<[key' := v]> r) ({[key']} ∪ s) Hn) as [H3 H4].
    assert (filled l (<[key' := v]> r) key' = None) as Hl'.
    { unfold filled. rewrite lookup_insert_eq, (bool_decide_eq_true_2 (is_Some (Some v))) by (by eexists). by rewrite orb_true_r. }
    rewrite Hl' in H3, H4. rewrite H3, H4, lookup_insert_eq. split; [done|].
    split; intros _; [right; by eexists|left; set_solver].
  - rewrite filled_cons by (intros E; apply soft_add_inj in E; congruence).
    destruct (String.eqb key' "" || bool_decide (key' ∈ ProtectedParams)); [by apply IH|].
    case_bool_decide as Hr; [by apply IH|].
    destruct (IH (<[key' := v]> r) ({[key']} ∪ s) Hn) as [H1 H2].
    assert (filled l (<[key' := v]> r) k = filled l r k) as Hf by (unfold filled; by rewrite lookup_insert_ne).
    rewrite Hf in H1, H2. rewrite H1, H2, lookup_insert_ne by done. split; [done|]. set_solver.
Qed.
(** ** Images in a tree *)

(** A content that shows an image, itself or in the result of a tool. *)
Fixpoint shows_image (content : json) : bool :=
  match content with
  | JList blocks =>
    existsb (fun blk =>
      match blk with
      | JMap m =>
        match field "type" m with
        | Some (JString typ) =>
          if String.eqb typ "image" || String.eqb typ "image_url" then true
          else if String.eqb typ "tool_result" then existsb (fun kv => String.eqb kv.1 "content" && shows_image kv.2) m
          else false
        | _ => false
        end
      | _ => false
      end) blocks
  | _ => false
  end.

Definition message_shows (m : json) : bool :=
  match m with JMap fields => existsb (fun kv => String.eqb kv.1 "content" && shows_image kv.2) fields | _ => false end.

(** What may become of a content: image blocks become the note, results of tools are
    healed inside, and everything else stays. *)
Inductive healed (note : string) : json -> json -> Prop :=
| HealedSame c : healed note c c
| HealedList bs bs' : Forall2 (healed_block note) bs bs' -> healed note (JList bs) (JList bs')
with healed_block (note : string) : json -> json -> Prop :=
| BlockSame b : healed_block note b b
| BlockImage m typ : field "type" m = Some (JString typ) -> typ = "image" \/ typ = "image_url" -> healed_block note (JMap m) (text_block note)
| BlockTool m m' : field "type" m = Some (JString "tool_result") -> Forall2 (healed_field note) m m' -> healed_block note (JMap m) (JMap m')
with healed_field (note : string) : string * json -> string * json -> Prop :=
| FieldSame kv : healed_field note kv kv
| FieldContent c c' : healed note c c' -> healed_field note ("content", c) ("content", c').

Inductive healed_message (note : string) : json -> json -> Prop :=
| MessageSame m : healed_message note m m
| MessageFields fs fs' : Forall2 (healed_field note) fs fs' -> healed_message note (JMap fs) (JMap fs').

Fixpoint json_nested_ind (P : json -> Prop) (Hs : forall s, P (JString s)) (Hc : forall raw, P (JScalar raw))
  (Hl : forall l, Forall P l -> P (JList l)) (Hm : forall m, Forall (fun kv => P kv.2) m -> P (JMap m)) (v : json) : P v :=
  match v with
  | JString s => Hs s
  | JScalar raw => Hc raw
  | JList l => Hl l ((fix go l : Forall P l := match l with [] => Forall_nil_2 _ | x :: l => Forall_cons_2 _ _ _ (json_nested_ind P Hs Hc Hl Hm x) (go l) end) l)
  | JMap m => Hm m ((fix go m : Forall (fun kv => P kv.2) m :=
      match m with [] => Forall_nil_2 _ | kv :: m => Forall_cons_2 _ _ _ (json_nested_ind P Hs Hc Hl Hm kv.2) (go m) end) m)
  end.

(** What can be written as JSON: [scalar_ok] of the scalars, and whatever is made of
    it. *)
Variable scalar_ok : string -> bool.
Fixpoint encodable (v : json) : bool :=
  match v with
  | JString _ => true
  | JScalar raw => scalar_ok raw
  | JList l => forallb encodable l
  | JMap m => forallb (fun kv => encodable kv.2) m
  end.

(** [r] is [v] healed, with the flag. *)
Record heals (rel : json -> json -> Prop) (shows : json -> bool) (v : json) (r : json * bool) : Prop := {
  heals_rel : rel v r.1;
  heals_gone : shows r.1 = false;
  heals_flag : r.2 = shows v;
  heals_same : r.2 = false -> r.1 = v;
  heals_enc : encodable v = true -> encodable r.1 = true;
}.

Section heal.
Variable note : string.

Definition heal_field (kv : string * json) : string * json * bool :=
  if String.eqb kv.1 "content" then let r := replaceImageBlocksIn note kv.2 in ((kv.1, r.1), r.2) else (kv, false).

Definition field_shows (kv : string * json) : bool := String.eqb kv.1 "content" && shows_image kv.2.

Lemma heal_list {A} (rel : A -> A -> Prop) (shows enc : A -> bool) (f : A -> A * bool) (l : list A) :
  Forall (fun x => rel x (f x).1 /\ shows (f x).1 = false /\ (f x).2 = shows x /\ ((f x).2 = false -> (f x).1 = x) /\ (enc x = true -> enc (f x).1 = true)) l ->
  let rs := map f l in
  Forall2 rel l rs.*1 /\ existsb shows rs.*1 = false /\ existsb snd rs = existsb shows l /\ (existsb snd rs = false -> rs.*1 = l) /\
  (forallb enc l = true -> forallb enc rs.*1 = true).
Proof.
  induction 1 as [|x l (H1 & H2 & H3 & H4 & H5) Hl IH]; [split_and!; [constructor|done..]|]. destruct IH as (I1 & I2 & I3 & I4 & I5). cbn zeta in *.
  assert ((map f (x :: l)).*1 = (f x).1 :: (map f l).*1) as -> by done. cbn [map existsb forallb]. split_and!.
  - by constructor.
  - rewrite H2. exact I2.
  - by rewrite H3, I3.
  - intros [Hx Hr]%orb_false_iff. by rewrite H4, I4.
  - intros [Hx Hr]%andb_true_iff. rewrite H5 by done. by apply I5.
Qed.

Definition content_heals (c : json) : Prop := heals (healed note) shows_image c (replaceImageBlocksIn note c).

Lemma heal_fields m : Forall (fun kv => content_heals kv.2) m ->
  let fs := map heal_field m in
  Forall2 (healed_field note) m fs.*1 /\ existsb field_shows fs.*1 = false /\ existsb snd fs = existsb field_shows m /\
  (existsb snd fs = false -> fs.*1 = m) /\ (encodable (JMap m) = true -> encodable (JMap fs.*1) = true).
Proof.
  intros Hm. apply (heal_list (healed_field note) field_shows (fun kv => encodable kv.2)). eapply Forall_impl; [exact Hm|].
  intros [k v] [H1 H2 H3 H4 H5]. unfold heal_field, field_shows. cbn [fst snd] in *. destruct (String.eqb_spec k "content") as [->|Hk]; cbn [fst snd].
  - split_and!; [by constructor|by rewrite H2|by rewrite H3| |done]. intros Hr. by rewrite H4.
  - split_and!; [constructor|by destruct (String.eqb_spec k "content")|done|done|done].
Qed.

Lemma heal_field_type m : field "type" (map heal_field m).*1 = field "type" m.
Proof.
  unfold field. induction m as [|[k v] m IH]; [done|].
  assert ((map heal_field ((k, v) :: m)).*1 = (heal_field (k, v)).1 :: (map heal_field m).*1) as -> by done.
  assert ((heal_field (k, v)).1.1 = k) as Hk by (unfold heal_field; by destruct (String.eqb (k, v).1 "content")).
  cbn [List.find]. rewrite Hk. cbn [fst]. destruct (String.eqb_spec k "type") as [->|Hne]; [|exact IH]. done.
Qed.

Lemma content_healed c : content_heals c.
Proof.
  clear ParseFloat. enough (content_heals c /\ match c with JMap m => Forall (fun kv => content_heals kv.2) m | _ => True end) by tauto.
  induction c as [s|raw|l IH|m IH] using json_nested_ind.
  - split; [|done]. by constructor; [constructor|..].
  - split; [|done]. by constructor; [constructor|..].
  - split; [|done]. unfold content_heals.
    assert (Forall (fun blk => content_heals blk /\ match blk with JMap m => Forall (fun kv => content_heals kv.2) m | _ => True end) l) as Hl by done. clear IH.
    set (f := fun blk : json => match blk with
      | JMap m => match field "type" m with
        | Some (JString typ) => if String.eqb typ "image" || String.eqb typ "image_url" then (text_block note, true)
          else if String.eqb typ "tool_result" then (JMap (map heal_field m).*1, existsb snd (map heal_field m)) else (blk, false)
        | _ => (blk, false) end
      | _ => (blk, false) end).
    set (sh := fun blk : json => match blk with
      | JMap m => match field "type" m with
        | Some (JString typ) => if String.eqb typ "image" || String.eqb typ "image_url" then true
          else if String.eqb typ "tool_result" then existsb field_shows m else false
        | _ => false end
      | _ => false end).
    destruct (heal_list (healed_block note) sh encodable f l) as (I1 & I2 & I3 & I4 & I5).
    { eapply Forall_impl; [exact Hl|]. intros blk [_ Hm]. unfold f, sh. destruct blk as [s|raw|l'|m]; try (split_and!; [constructor|done..]).
      destruct (field "type" m) as [[typ| | |]|] eqn:Et; try (cbn [fst snd]; rewrite ?Et; split_and!; [constructor|done..]).
      destruct (String.eqb typ "image" || String.eqb typ "image_url") eqn:Ei; cbn [fst snd].
      { split_and!; [|done|done|done|done]. apply (BlockImage _ m typ Et). apply orb_true_iff in Ei as [->%String.eqb_eq| ->%String.eqb_eq]; auto. }
      destruct (String.eqb_spec typ "tool_result") as [->|Hne]; cbn [fst snd].
      - destruct (heal_fields m Hm) as (F1 & F2 & F3 & F4 & F5). rewrite heal_field_type, Et. split_and!; [by constructor|exact F2|exact F3|by intros ->%F4|exact F5].
      - rewrite Et, Ei. destruct (String.eqb_spec typ "tool_result"); [done|]. by split_and!; [constructor|..]. }
    constructor.
    + by constructor.
    + exact I2.
    + exact I3.
    + intros Hr. simpl. f_equal. by apply I4.
    + exact I5.
  - split; [by constructor; [constructor|..]|]. eapply Forall_impl; [exact IH|]. by intros kv [? _].
Qed.

Lemma message_healed m : heals (healed_message note) message_shows m (replace_message note m).
Proof.
  destruct m as [s|raw|l|m]; try (by constructor; [constructor|..]).
  destruct (heal_fields m) as (F1 & F2 & F3 & F4 & F5); [apply Forall_forall; intros kv _; apply content_healed|].
  constructor; [by constructor|exact F2|exact F3|intros Hr; simpl; f_equal; by apply F4|exact F5].
Qed.
End heal.

Section spec.
Hypothesis range_perm : forall V (m : gmap string V), range V m ≡ₚ map_to_list m.

Lemma range_nodup (raw : gmap string json) : NoDup (range _ raw).*1.
Proof. rewrite range_perm. apply NoDup_fst_map_to_list. Qed.

Lemma range_map (raw : gmap string json) : list_to_map (range _ raw) = raw.
Proof. rewrite (list_to_map_proper _ (map_to_list raw)); [apply list_to_map_to_list|apply range_nodup|apply range_perm]. Qed.

(** The sanitized parameters are what the map means. *)
Lemma sanitizeParams_spec raw params keys soft k : sanitizeParams raw = (params, keys, soft) ->
  params !! k = fst <$> meant raw k /\ (k ∈ soft <-> exists v, meant raw k = Some (v, true)).
Proof.
  unfold sanitizeParams. destruct (foldl soft_step _ _) as [r s] eqn:E. intros [= <- <- <-].
  destruct (soft_pass_spec (range _ raw) (foldl hard_step ∅ (range _ raw)) ∅ k (range_nodup raw)) as [H1 H2].
  rewrite E in H1, H2. cbn [fst snd] in H1, H2. rewrite H1, H2. unfold filled, meant.
  rewrite (hard_pass_spec _ _ _ (range_nodup raw)), range_map, lookup_empty. clear E H1 H2.
  destruct (bool_decide (k ∈ ProtectedParams)); [rewrite !orb_true_r; split; [done|]; split; [intros [?|[? ?]]; [set_solver|done]|by intros [? ?]]|].
  rewrite !orb_false_r. assert (forall o : option json,
    match o with Some v => Some v | None => None end = fst <$> ((fun v => (v, true)) <$> o) /\
    (k ∈ (∅ : gset string) \/ is_Some o <-> exists v, (fun v => (v, true)) <$> o = Some (v, true))) as Ho.
  { intros [v|]; simpl; (split; [done|]); split; [intros _; by exists v|intros _; right; by exists v|intros [?|[? ?]]; [set_solver|done]|by intros [? ?]]. }
  destruct (soft_key k) as [k'|] eqn:Ek; rewrite ?(bool_decide_eq_true_2 (is_Some (Some k'))) by (by eexists).
  2: rewrite (bool_decide_eq_false_2 (is_Some (None : option string))) by (by intros [? ?]); destruct (raw !! k) as [v|].
  2: { rewrite (bool_decide_eq_true_2 (is_Some (Some v))) by (by eexists). rewrite orb_true_r. split; [done|]. split; [intros [?|[? ?]]; [set_solver|done]|by intros [? ?]]. }
  all: rewrite (bool_decide_eq_false_2 (is_Some (None : option json))) by (by intros [? ?]); rewrite orb_false_r.
  all: destruct (String.eqb k ""); [exact (Ho None)|apply Ho].
Qed.

Lemma sanitizeParams_keys raw params keys soft : sanitizeParams raw = (params, keys, soft) ->
  NoDup keys /\ forall k, k ∈ keys <-> is_Some (params !! k).
Proof.
  unfold sanitizeParams. destruct (foldl soft_step _ _) as [r s]. intros [= <- <- <-]. split.
  - apply sort_strings_NoDup. rewrite range_perm. apply NoDup_fst_map_to_list.
  - intros k. rewrite sort_strings_elem, range_perm, list_elem_of_fmap. split.
    + intros ([k' v] & -> & Hv). exists v. by apply elem_of_map_to_list.
    + intros [v Hv]. exists (k, v). split; [done|]. by apply elem_of_map_to_list.
Qed.

Lemma clean_params_elem seen l k : k ∈ clean_params seen l <-> k ∈ (TrimSpace <$> l) /\ k ∉ ProtectedParams /\ k <> "" /\ k ∉ seen.
Proof.
  revert seen. induction l as [|p l IH]; intros seen; cbn [clean_params fmap list_fmap]; [set_solver|].
  generalize (TrimSpace p); intros t. rewrite elem_of_cons.
  destruct (bool_decide_reflect (t ∈ ProtectedParams)) as [Hp|Hp]; cbn [orb]; [rewrite IH; clear IH; naive_solver|].
  destruct (String.eqb_spec t "") as [->|Ht]; cbn [orb]; [rewrite IH; clear IH; naive_solver|].
  destruct (bool_decide_reflect (t ∈ seen)) as [Hs|Hs]; [rewrite IH; clear IH; naive_solver|].
  rewrite elem_of_cons, IH, not_elem_of_union, not_elem_of_singleton. clear IH. destruct (decide (k = t)) as [->|]; tauto.
Qed.

Lemma stripped_elem f k : k <> "" -> k ∈ SanitizedStripParams f <-> strips f k = true.
Proof.
  intros Hk. unfold SanitizedStripParams, strips. rewrite andb_true_iff, bool_decide_eq_true, negb_true_iff, bool_decide_eq_false.
  destruct (String.eqb_spec (StripParams f) "") as [->|Hf].
  - split; [by intros ?%elem_of_nil|]. intros [Hin _]. vm_compute in Hin. apply list_elem_of_singleton in Hin. done.
  - rewrite sort_strings_elem, clean_params_elem. set_solver.
Qed.

(** A key that the path syntax of gjson takes for itself. *)
Definition letter (c : ascii) : bool := let n := nat_of_ascii c in ((65 <=? n) && (n <=? 90) || (97 <=? n) && (n <=? 122))%nat.
Definition key_char (c : ascii) : bool := let n := nat_of_ascii c in letter c || ((48 <=? n) && (n <=? 57))%nat || (n =? 95)%nat || (n =? 45)%nat.
Definition plain (k : string) : bool :=
  match k with String c k => letter c && forallb key_char (String.list_ascii_of_string k) | EmptyString => false end.

(** A body that is an object without duplicate keys.  Setting and deleting a plain key
    succeeds on it, is seen under that key, and leaves the other plain keys alone. *)
Variable object : B -> Prop.
Hypothesis set_plain : forall b k v, object b -> plain k = true -> encodable v = true ->
  exists b', SetBytes b k v = Some b' /\ object b' /\ forall j, plain j = true -> GetBytes b' j = if decide (j = k) then Some v else GetBytes b j.
Hypothesis delete_plain : forall b k, object b -> plain k = true ->
  exists b', DeleteBytes b k = Some b' /\ object b' /\ forall j, plain j = true -> GetBytes b' j = if decide (j = k) then None else GetBytes b j.

Lemma in_cons (j k : string) l : bool_decide (j ∈ k :: l) = if decide (j = k) then true else bool_decide (j ∈ l).
Proof.
  destruct (decide (j = k)) as [->|Hne]; [by apply bool_decide_eq_true_2, elem_of_cons; left|]. apply bool_decide_ext. rewrite elem_of_cons. tauto.
Qed.

Lemma strip_each l b : object b -> Forall (fun k => plain k = true) l ->
  exists b', each (fun b param => edited (DeleteBytes b param) (Stripping param)) b l = Ok b' /\ object b' /\
    forall j, plain j = true -> GetBytes b' j = if bool_decide (j ∈ l) then None else GetBytes b j.
Proof.
  revert b. induction l as [|k l IH]; intros b Hb Hl; [exists b; split_and!; [done|done|]; intros j _; by rewrite bool_decide_eq_false_2 by apply not_elem_of_nil|].
  apply Forall_cons in Hl as [Hk Hl]. destruct (delete_plain b k Hb Hk) as (b1 & E & Hb1 & H1). destruct (IH b1 Hb1 Hl) as (b2 & E2 & Hb2 & H2).
  exists b2. cbn [each]. rewrite E. split_and!; [exact E2|done|]. intros j Hj. rewrite (H2 j Hj), (H1 j Hj), in_cons. destruct (decide (j = k)); [by destruct (bool_decide _)|done].
Qed.

Lemma set_each params soft l b : object b -> NoDup l -> Forall (fun k => plain k = true) l ->
  (forall k, k ∈ l -> exists v, params !! k = Some v /\ encodable v = true) ->
  exists b', each (set_param params soft) b l = Ok b' /\ object b' /\
    forall j, plain j = true ->
      GetBytes b' j = if bool_decide (j ∈ l) then settle ((fun v => (v, bool_decide (j ∈ soft))) <$> params !! j) (GetBytes b j) else GetBytes b j.
Proof.
  revert b. induction l as [|k l IH]; intros b Hb Hn Hl Hp.
  { exists b. split_and!; [done|done|]. intros j _. by rewrite bool_decide_eq_false_2 by apply not_elem_of_nil. }
  apply Forall_cons in Hl as [Hk Hl]. apply NoDup_cons in Hn as [Hni Hn]. destruct (Hp k (list_elem_of_here _ _)) as (v & Ev & Hv).
  assert (exists b1, set_param params soft b k = Ok b1 /\ object b1 /\
    forall j, plain j = true -> GetBytes b1 j = if decide (j = k) then settle (Some (v, bool_decide (k ∈ soft))) (GetBytes b k) else GetBytes b j) as (b1 & E & Hb1 & H1).
  { unfold set_param. rewrite Ev. destruct (set_plain b k v Hb Hk Hv) as (b1 & E & Hb1 & H1). unfold settle.
    destruct (bool_decide (k ∈ soft)); simpl; [|exists b1; rewrite E; split_and!; [done|done|]; intros j Hj; rewrite (H1 j Hj); destruct (decide _); [by destruct (GetBytes b k)|done]].
    destruct (GetBytes b k) as [y|] eqn:Ey; simpl.
    - exists b. split_and!; [done|done|]. intros j _. by destruct (decide (j = k)) as [->|].
    - exists b1. rewrite E. split_and!; [done|done|]. exact H1. }
  destruct (IH b1 Hb1 Hn Hl) as (b2 & E2 & Hb2 & H2); [intros; apply Hp; by right|]. exists b2. cbn [each]. rewrite E. split_and!; [exact E2|done|].
  intros j Hj. rewrite (H2 j Hj), (H1 j Hj), in_cons. destruct (decide (j = k)) as [->|Hne]; [|done]. rewrite bool_decide_eq_false_2 by done. by rewrite Ev.
Qed.

(** The keys a map of parameters means are plain, and their values can be written. *)
Definition sound_params (raw : gmap string json) : Prop :=
  forall k v s, meant raw k = Some (v, s) -> plain k = true /\ encodable v = true.

Lemma keys_sound raw :
  forallb (fun kv => plain (default kv.1 (soft_key kv.1)) && encodable kv.2) (map_to_list raw) = true -> sound_params raw.
Proof.
  rewrite forallb_forall. intros H k v s Hm.
  assert (forall key, raw !! key = Some v -> default key (soft_key key) = k -> plain k = true /\ encodable v = true) as Hk.
  { intros key Hkey <-. apply andb_true_iff, (H (key, v)), list_elem_of_In, elem_of_map_to_list, Hkey. }
  unfold meant in Hm. destruct (bool_decide _); [done|]. destruct (soft_key k) as [k'|] eqn:Ek.
  - destruct (String.eqb k ""); [done|]. destruct (raw !! (k +:+ "?")) as [v'|] eqn:E; [|done]. injection Hm as -> <-. apply (Hk _ E). by rewrite soft_key_add.
  - destruct (raw !! k) as [v'|] eqn:E1; [injection Hm as -> <-; apply (Hk k E1); by rewrite Ek|].
    destruct (String.eqb k ""); [done|]. destruct (raw !! (k +:+ "?")) as [v'|] eqn:E; [|done]. injection Hm as -> <-. apply (Hk _ E). by rewrite soft_key_add.
Qed.

Lemma set_stage raw params keys soft b : sanitizeParams raw = (params, keys, soft) -> sound_params raw -> object b ->
  exists b', each (set_param params soft) b keys = Ok b' /\ object b' /\
    forall j, plain j = true -> GetBytes b' j = settle (meant raw j) (GetBytes b j).
Proof.
  intros Es Hs Hb. pose proof (fun k => sanitizeParams_spec _ _ _ _ k Es) as Hm. destruct (sanitizeParams_keys _ _ _ _ Es) as [Hn Hk].
  assert (forall k, k ∈ keys -> exists v s, meant raw k = Some (v, s) /\ params !! k = Some v) as Hin.
  { intros k [v Hv]%Hk. destruct (Hm k) as [E _]. rewrite E in Hv. destruct (meant raw k) as [[v' s]|]; [|done]. simpl in *. eauto. }
  destruct (set_each params soft keys b Hb Hn) as (b' & E & Hb' & H).
  - apply Forall_forall. intros k (v & s & E & _)%Hin. by apply (Hs k v s).
  - intros k (v & s & E & Ev)%Hin. exists v. split; [done|]. by apply (Hs k v s).
  - exists b'. split_and!; [done|done|]. intros j Hj. rewrite (H j Hj). destruct (Hm j) as [E1 E2]. case_bool_decide as Hjk.
    + destruct (Hin j Hjk) as (v & s & Em & Ev). assert (bool_decide (j ∈ soft) = s) as Es'; [|rewrite Ev, Em; simpl; by rewrite Es'].
      destruct s; [apply bool_decide_eq_true_2; apply E2; by exists v|]. apply bool_decide_eq_false_2. rewrite E2, Em. intros (v' & [=]).
    + rewrite Hk, E1 in Hjk. destruct (meant raw j); [|done]. exfalso. apply Hjk. by eexists.
Qed.
(** ** What a request is sent with *)

(** The filters alone. *)
Lemma applyFilters_spec b requested use f : object b -> Forall (fun k => plain k = true) (SanitizedStripParams f) ->
  sound_params (SetParams f) -> (forall raw, SetParamsByID f !! requested = Some raw -> sound_params raw) ->
  exists b', applyFilters b requested use f = Ok b' /\ object b' /\
    forall j, plain j = true -> GetBytes b' j =
      settle (SetParamsByID f !! requested ≫= fun raw => meant raw j) (settle (meant (SetParams f) j)
        (if strips f j then None else if String.eqb j "model" && negb (String.eqb use "") then Some (JString use) else GetBytes b j)).
Proof.
  intros Hb Hstrip Hset Hid.
  assert (exists b1, (if String.eqb use "" then Ok b else edited (SetBytes b "model" (JString use)) RewritingModel) = Ok b1 /\ object b1 /\
    forall j, plain j = true -> GetBytes b1 j = if String.eqb j "model" && negb (String.eqb use "") then Some (JString use) else GetBytes b j) as (b1 & E1 & Hb1 & H1).
  { destruct (String.eqb_spec use ""); [exists b; split_and!; [done|done|]; intros j _; by rewrite andb_false_r|].
    destruct (set_plain b "model" (JString use) Hb eq_refl eq_refl) as (b1 & E & Hb1 & H1). exists b1. rewrite E. split_and!; [done|done|].
    intros j Hj. rewrite (H1 j Hj), andb_true_r. by destruct (String.eqb_spec j "model"), (decide (j = "model")). }
  destruct (strip_each _ b1 Hb1 Hstrip) as (b2 & E2 & Hb2 & H2).
  unfold applyFilters. rewrite E1. cbn [rbind]. rewrite E2. cbn [rbind]. unfold SanitizedSetParams.
  destruct (sanitizeParams (SetParams f)) as [[sp sk] ss] eqn:Es. destruct (set_stage _ _ _ _ b2 Es Hset Hb2) as (b3 & E3 & Hb3 & H3).
  assert (exists b4, (let '(byID, byIDKeys, byIDSoft) := SanitizedSetParamsByID f requested in each (set_param byID byIDSoft) b3 byIDKeys) = Ok b4 /\ object b4 /\
    forall j, plain j = true -> GetBytes b4 j = settle (SetParamsByID f !! requested ≫= fun raw => meant raw j) (GetBytes b3 j)) as (b4 & E4 & Hb4 & H4).
  { unfold SanitizedSetParamsByID. destruct (SetParamsByID f !! requested) as [raw|]; [|by exists b3].
    destruct (sanitizeParams raw) as [[ip ik] is_] eqn:Ei. exact (set_stage _ _ _ _ b3 Ei (Hid raw eq_refl) Hb3). }
  exists b4. destruct (SanitizedSetParamsByID f requested) as [[ip ik] is_]. rewrite E3. split_and!; [exact E4|done|].
  intros j Hj. rewrite (H4 j Hj), (H3 j Hj), (H2 j Hj), (H1 j Hj). do 2 f_equal.
  assert (bool_decide (j ∈ SanitizedStripParams f) = strips f j) as ->; [|done].
  assert (j <> "") as Hne by (by intros ->). pose proof (stripped_elem f j Hne) as Hs. destruct (strips f j).
  - by apply bool_decide_eq_true_2, Hs.
  - apply bool_decide_eq_false_2. by rewrite Hs.
Qed.

Hypothesis write_ok : forall v, finite v = true -> scalar_ok (write_float v) = true.

Lemma parse_finite raw lo hi incl v : parseSamplingHeaderValue raw lo hi incl = Some v -> finite v = true /\ fltb hi v = false.
Proof.
  unfold parseSamplingHeaderValue. destruct (String.eqb raw ""); [done|]. destruct (ParseFloat raw) as [v'|]; [|done].
  destruct (finite v') eqn:Ef; [|done]. cbn [negb]. destruct (fltb hi v') eqn:Eh; [done|].
  destruct incl; [destruct (fltb v' lo)|destruct (fleb v' lo)]; try done; by intros [= <-].
Qed.

Lemma fill_header_spec b k raw lo hi incl : object b -> plain k = true ->
  exists b', fill_header b k (parseSamplingHeaderValue raw lo hi incl) = Ok b' /\ object b' /\
    forall j, plain j = true -> GetBytes b' j =
      if decide (j = k) then settle ((fun v => (JScalar (write_float v), true)) <$> parseSamplingHeaderValue raw lo hi incl) (GetBytes b j) else GetBytes b j.
Proof.
  intros Hb Hk. destruct (parseSamplingHeaderValue raw lo hi incl) as [v|] eqn:Ep; [|exists b; split_and!; [done|done|]; intros j _; by destruct (decide _)].
  apply parse_finite in Ep as [Hf _]. unfold fill_header. destruct (GetBytes b k) as [y|] eqn:Ey.
  - rewrite bool_decide_eq_true_2 by (by eexists). exists b. split_and!; [done|done|]. intros j _. destruct (decide (j = k)) as [->|]; [by rewrite Ey|done].
  - rewrite bool_decide_eq_false_2 by (by intros [? ?]). destruct (set_plain b k (JScalar (write_float v)) Hb Hk (write_ok v Hf)) as (b' & E & Hb' & H).
    exists b'. rewrite E. split_and!; [done|done|]. intros j Hj. rewrite (H j Hj). destruct (decide (j = k)) as [->|]; [by rewrite Ey|done].
Qed.

Lemma apply_headers_spec h b : object b ->
  exists b', apply_headers h b = Ok b' /\ object b' /\ forall j, plain j = true -> GetBytes b' j = settle (header_meant h j) (GetBytes b j).
Proof.
  intros Hb. unfold apply_headers.
  assert (exists b1, match parseSamplingHeaderValue (h "X-Temperature") (of_int 0) (of_int 2) false with
                     | Some v => edited (SetBytes b "temperature" (JScalar (write_float v))) (SettingHeader "temperature") | None => Ok b end = Ok b1 /\ object b1 /\
    forall j, plain j = true -> GetBytes b1 j = if decide (j = "temperature")
      then settle ((fun v => (JScalar (write_float v), false)) <$> parseSamplingHeaderValue (h "X-Temperature") (of_int 0) (of_int 2) false) (GetBytes b j)
      else GetBytes b j) as (b1 & E1 & Hb1 & H1).
  { destruct (parseSamplingHeaderValue _ _ _ _) as [v|] eqn:Ep; [|exists b; split_and!; [done|done|]; intros j _; by destruct (decide _)].
    apply parse_finite in Ep as [Hf _]. destruct (set_plain b "temperature" (JScalar (write_float v)) Hb eq_refl (write_ok v Hf)) as (b1 & E & Hb1 & H1).
    exists b1. rewrite E. split_and!; [done|done|]. intros j Hj. rewrite (H1 j Hj). destruct (decide _); [simpl; by destruct (GetBytes b j)|done]. }
  rewrite E1. cbn [rbind].
  destruct (fill_header_spec b1 "presence_penalty" (h "X-Presence-Penalty") (of_int (-2)) (of_int 2) true Hb1 eq_refl) as (b2 & E2 & Hb2 & H2).
  rewrite E2. cbn [rbind].
  destruct (fill_header_spec b2 "repeat_penalty" (h "X-Repetition-Penalty") (of_int 0) (of_int 3) false Hb2 eq_refl) as (b3 & E3 & Hb3 & H3).
  exists b3. split_and!; [exact E3|done|]. intros j Hj. rewrite (H3 j Hj), (H2 j Hj), (H1 j Hj). unfold header_meant.
  destruct (String.eqb_spec j "temperature") as [->|Ht]; [done|]. destruct (String.eqb_spec j "presence_penalty") as [->|Hp]; [done|].
  rewrite (decide_False (P := j = "presence_penalty")), (decide_False (P := j = "temperature")) by done.
  by destruct (String.eqb_spec j "repeat_penalty"), (decide (j = "repeat_penalty")).
Qed.
Hypothesis get_encodable : forall b k v, object b -> plain k = true -> GetBytes b k = Some v -> encodable v = true.

Lemma messages_healed note msgs :
  let rs := map (replace_message note) msgs in
  Forall2 (healed_message note) msgs rs.*1 /\ existsb message_shows rs.*1 = false /\ existsb snd rs = existsb message_shows msgs /\
  (existsb snd rs = false -> rs.*1 = msgs) /\ (encodable (JList msgs) = true -> encodable (JList rs.*1) = true).
Proof.
  apply (heal_list (healed_message note) message_shows encodable). apply Forall_forall. intros m _. by destruct (message_healed note m).
Qed.

(** What replacing images does to a body. *)
Lemma replaceImageBlocks_spec b model : object b ->
  exists b', replaceImageBlocks b model = Ok b' /\ object b' /\
    (forall j, plain j = true -> j <> "messages" -> GetBytes b' j = GetBytes b j) /\
    forall msgs, GetBytes b "messages" = Some (JList msgs) -> Contains image_mark (bytes b) = true -> malformed b = false ->
      exists msgs', GetBytes b' "messages" = Some (JList msgs') /\ Forall2 (healed_message (imageOmittedText model)) msgs msgs' /\
        existsb message_shows msgs' = false /\ (existsb message_shows msgs = false -> b' = b).
Proof.
  intros Hb. unfold replaceImageBlocks. destruct (Contains image_mark (bytes b)); cbn [negb]; [|exists b; by split_and!].
  destruct (GetBytes b "messages") as [[| |msgs|]|] eqn:Em; try (exists b; split_and!; [done|done|done|]; intros ? [=]).
  destruct (malformed b); [exists b; by split_and!|].
  destruct (messages_healed (imageOmittedText model) msgs) as (H1 & H2 & H3 & H4 & H5).
  destruct (existsb snd _) eqn:Ech; cbn [negb].
  - destruct (set_plain b "messages" (JList (map (replace_message (imageOmittedText model)) msgs).*1) Hb eq_refl) as (b' & E & Hb' & H).
    { apply H5. by apply (get_encodable b "messages"). }
    exists b'. rewrite E. split_and!; [done|done|intros j Hj Hne; by rewrite (H j Hj), decide_False|]. intros msgs0 [= <-] _ _.
    eexists. split_and!; [rewrite (H "messages" eq_refl), decide_True by done; reflexivity|exact H1|exact H2|]. by rewrite <- H3.
  - exists b. split_and!; [done|done|done|]. intros msgs0 [= <-] _ _. exists msgs. rewrite (H4 eq_refl) in H1, H2. by split_and!.
Qed.

(** C39. A model that takes no images is never sent one that the proxy can see: when the
    body mentions an image and its messages can be read, every image block in them, also
    in the result of a tool, becomes the note, and nothing else changes, in the messages
    or beside them; without an image the body stays as it is. *)
Theorem images_replaced b model msgs : object b -> GetBytes b "messages" = Some (JList msgs) ->
  Contains image_mark (bytes b) = true -> malformed b = false ->
  exists b' msgs', replaceImageBlocks b model = Ok b' /\ GetBytes b' "messages" = Some (JList msgs') /\
    Forall2 (healed_message (imageOmittedText model)) msgs msgs' /\ existsb message_shows msgs' = false /\
    (forall j, plain j = true -> j <> "messages" -> GetBytes b' j = GetBytes b j) /\
    (existsb message_shows msgs = false -> b' = b).
Proof.
  intros Hb Hm Hi Hok. destruct (replaceImageBlocks_spec b model Hb) as (b' & E & Hb' & Ho & H).
  destruct (H msgs Hm Hi Hok) as (msgs' & E' & H1 & H2 & H3). exists b', msgs'. by split_and!.
Qed.

Hypothesis object_valid : forall b, object b -> ValidBytes b = true /\ bytes b <> "".

(** The model wants the sampling headers. *)
Definition opted (c : config) (model : string) : bool :=
  negb (String.eqb model "") &&
  match ModelNames.RealModelName (known c) model with
  | Some real => match models c !! real with Some m => modelWantsSamplingHeaders m | None => false end
  | None => false
  end.

Lemma sampling_spec c model h b : object b ->
  exists b', applySamplingHeadersForModel c model h b = Ok b' /\ object b' /\
    forall j, plain j = true -> GetBytes b' j = settle (if opted c model then header_meant h j else None) (GetBytes b j).
Proof.
  intros Hb. destruct (object_valid b Hb) as [Hv Hne]. unfold applySamplingHeadersForModel, opted.
  destruct (String.eqb model ""); [by exists b|]. cbn [orb negb andb]. rewrite (proj2 (String.eqb_neq _ _) Hne).
  destruct (ModelNames.RealModelName (known c) model) as [real|]; [|by exists b]. destruct (models c !! real) as [m|]; [|by exists b].
  destruct (modelWantsSamplingHeaders m); [|by exists b]. cbn [negb]. rewrite Hv. exact (apply_headers_spec h b Hb).
Qed.

End spec.
End filters.

(** ** Runs *)

(** Bodies as maps, over which the hypotheses hold. *)
Definition map_get (b : gmap string json) (k : string) : option json := b !! k.
Definition map_set (b : gmap string json) (k : string) (v : json) : option (gmap string json) := Some (<[k := v]> b).
Definition map_delete (b : gmap string json) (k : string) : option (gmap string json) := Some (delete k b).
Definition map_bytes (b : gmap string json) : string := image_mark.
Definition half (s : string) : option float64 := if String.eqb s "0.5" then Some (fdiv (of_int 1) (of_int 2)) else None.

Lemma map_set_plain b k v : True -> plain k = true -> encodable (fun _ => true) v = true ->
  exists b', map_set b k v = Some b' /\ True /\ forall j, plain j = true -> map_get b' j = if decide (j = k) then Some v else map_get b j.
Proof. unfold map_get.
  intros _ _ _. eexists. split_and!; [done|done|]. intros j _. destruct (decide (j = k)) as [->|]; [apply lookup_insert_eq|by apply lookup_insert_ne].
Qed.

Lemma map_delete_plain (b : gmap string json) k : True -> plain k = true ->
  exists b', map_delete b k = Some b' /\ True /\ forall j, plain j = true -> map_get b' j = if decide (j = k) then None else map_get b j.
Proof. unfold map_get.
  intros _ _. eexists. split_and!; [done|done|]. intros j _. destruct (decide (j = k)) as [->|]; [apply lookup_delete_eq|by apply lookup_delete_ne].
Qed.

Lemma all_encodable v : encodable (fun _ => true) v = true.
Proof.
  induction v as [| |l IH|m IH] using json_nested_ind; [done|done|..]; simpl; apply forallb_forall; intros x Hx%list_elem_of_In; by eapply Forall_forall in IH.
Qed.

Definition ex_filters : Filters :=
  mkFilters "top_k, model" {["temperature?" := JScalar "1"; "max_tokens" := JScalar "64"; "model" := JString "x"]} {["fast" := {["max_tokens" := JScalar "8"]}]}.

Definition ex_config : config :=
  mkConfig (ModelNames.mkNames {["m" := ["fast"]]} {["fast" := "m"]} ∅ ∅ ∅)
    {["m" := mkModelFilters "upstream" ex_filters (Some ["text"]) (Some (JScalar "true"))]} ∅.

Definition ex_messages : list json :=
  [JMap [("role", JString "user"); ("content", JList [JMap [("type", JString "tool_result"); ("content", JList [JMap [("type", JString "image"); ("source", JString "png")]])]])]].

Definition ex_body : gmap string json := {["model" := JString "fast"; "top_k" := JScalar "3"; "messages" := JList ex_messages]}.

Definition ex_request : request :=
  mkRequest "application/json" "/v1/messages" (fun h => if String.eqb h "X-Temperature" then "0.5" else "") (Some "fast") (Some ex_body) None.

Lemma ex_sound raw : raw = SetParams ex_filters \/ SetParamsByID ex_filters !! "fast" = Some raw -> sound_params (fun _ => true) raw.
Proof. intros [->|[= <-]]; apply keys_sound; vm_compute; reflexivity. Qed.

Lemma ex_range V (m : gmap string V) : map_to_list m ≡ₚ map_to_list m.
Proof. done. Qed.

Lemma ex_object b : True -> (fun _ => true) b = true /\ map_bytes b <> "".
Proof. intros _. split; [reflexivity|]. unfold map_bytes, image_mark. intros [=]. Qed.


Lemma images_replaced_witness : exists b' msgs',
  replaceImageBlocks map_get map_set map_bytes (fun _ => false) ex_body "m" = Ok b' /\
  map_get b' "messages" = Some (JList msgs') /\ existsb message_shows ex_messages = true /\ existsb message_shows msgs' = false.
Proof.
  destruct (images_replaced map_get map_set map_bytes (fun _ => false) (fun _ => true) (fun _ => True) map_set_plain
    (fun _ _ v _ _ _ => all_encodable v) ex_body "m" ex_messages) as (b' & msgs' & E & Em & _ & Hs & _).
  - exact I.
  - vm_compute. reflexivity.
  - vm_compute. reflexivity.
  - reflexivity.
  - exists b', msgs'. split; [exact E|]. split; [exact Em|]. split; [vm_compute; reflexivity|exact Hs].
Defined.

(** A penalty set by the configuration is what the body already carries, so the header of
    the request does not win over it. *)
Lemma penalty_header_loses :
  let f := mkFilters "" {["presence_penalty" := JScalar "0.1"]} ∅ in
  let c := mkConfig (ModelNames.mkNames {["m" := []]} ∅ ∅ ∅ ∅) {["m" := mkModelFilters "" f None (Some (JScalar "true"))]} ∅ in
  let r := mkRequest "application/json" "/v1/messages" (fun h => if String.eqb h "X-Presence-Penalty" then "0.5" else "") (Some "m") (Some ∅) None in
  exists b', CreateFilterMiddleware (fun _ => map_to_list) map_get map_set map_delete (fun _ => true) map_bytes (fun _ => false) half (fun _ => "0.5") c r = Changed b' /\
    map_get b' "presence_penalty" = Some (JScalar "0.1").
Proof. eexists. split; vm_compute; reflexivity. Qed.
End BodyFilters.
