(* ===== verification/Responses.v ===== *)
(** What the proxy learns from a response ([internal/server/metrics.go]): the copy of its
    bytes, all of them or the last ones, and the tokens, rates and slot that are read
    from the events of a stream.

    JSON is read by a third-party library (gjson), whose values and lookups are
    parameters. *)

From Stdlib Require Import SpecFloat.
From S2P Require Import Prelude RecordSet Float64 Runes Macros AdmissionScan Events.

Module Responses.
Import Float64.
Import Macros(Contains).
Import AdmissionScan(strip_prefix, LF).
Open Scope string_scope.
Open Scope list_scope.
Open Scope Z_scope.

(** ** The last bytes of a stream *)

Record cappedTailBuffer := mkTail { buf : list Z; cap : nat; pos : nat; wrapped : bool }.

Definition newCappedTailBuffer (capBytes : nat) : cappedTailBuffer := mkTail [] capBytes 0 false.

(** The part of [Write] in ring mode. *)
Definition ring_write (c : cappedTailBuffer) (p : list Z) : cappedTailBuffer :=
  match p with
  | [] => c
  | _ =>
    let n := length p in
    if (cap c <=? n)%nat then mkTail (Logmon.copy_at (buf c) 0 (drop (n - cap c) p)) (cap c) 0 (wrapped c)
    else
      let end_ := (pos c + n)%nat in
      if (end_ <=? cap c)%nat then mkTail (Logmon.copy_at (buf c) (pos c) p) (cap c) (end_ mod cap c) (wrapped c)
      else
        let first := (cap c - pos c)%nat in
        mkTail (Logmon.copy_at (Logmon.copy_at (buf c) (pos c) (take first p)) 0 (drop first p)) (cap c) (n - first) (wrapped c)
  end.

Definition tail_write (c : cappedTailBuffer) (p : list Z) : cappedTailBuffer :=
  if (length p =? 0)%nat || (cap c =? 0)%nat then c
  else if wrapped c then ring_write c p
  else
    let room := (cap c - length (buf c))%nat in
    if (length p <=? room)%nat then
      let b := buf c ++ p in
      if (length b =? cap c)%nat then mkTail b (cap c) 0 true else mkTail b (cap c) (length b) false
    else ring_write (mkTail (buf c ++ take room p) (cap c) 0 true) (drop room p).

Definition tail_bytes (c : cappedTailBuffer) : list Z :=
  if wrapped c then drop (pos c) (buf c) ++ take (pos c) (buf c) else take (pos c) (buf c).

Definition tail_len (c : cappedTailBuffer) : nat := if wrapped c then cap c else pos c.

(** The buffer after writing [l]. *)
Record keeps (c : cappedTailBuffer) (l : list Z) : Prop := {
  k_grow : wrapped c = false -> buf c = l /\ pos c = length l /\ (length l < cap c)%nat;
  k_ring : wrapped c = true -> Logmon.holds (Logmon.mkBuffer (buf c) (pos c) (cap c)) l /\ length (buf c) = cap c /\ (cap c <= length l)%nat;
}.

(** In ring mode the buffer is the circular buffer of the log monitor. *)
Lemma ring_is_circular c p : length (buf c) = cap c -> (pos c < cap c)%nat ->
  let cb := Logmon.buffer_write (Logmon.mkBuffer (buf c) (pos c) (cap c)) p in
  ring_write c p = mkTail (Logmon.data cb) (cap c) (Logmon.head cb) (wrapped c) /\ Logmon.size cb = cap c.
Proof.
  intros Hl Hp. unfold ring_write, Logmon.buffer_write. destruct p as [|x p]; [by destruct c|]. cbn [Logmon.data Logmon.head Logmon.size]. rewrite Hl.
  set (q := x :: p). destruct (Nat.leb_spec (cap c) (length q)); [done|].
  destruct (Nat.leb_spec (pos c + length q) (cap c)), (Nat.leb_spec (length q) (cap c - pos c)); try lia; split; try done; cbn [Logmon.size]; lia.
Qed.

Lemma ring_keeps c l p : wrapped c = true -> keeps c l -> keeps (ring_write c p) (l ++ p).
Proof.
  intros Hw [_ Hr]. destruct (Hr Hw) as (Hh & Hl & Hc). pose proof (Logmon.h_head _ _ Hh) as Hp. cbn [Logmon.head Logmon.data] in Hp.
  destruct (ring_is_circular c p Hl ltac:(lia)) as [-> Hs]. pose proof (Logmon.holds_write _ l p Hh) as Hh'.
  assert (length (Logmon.data (Logmon.buffer_write (Logmon.mkBuffer (buf c) (pos c) (cap c)) p)) = cap c) as Hd.
  { rewrite Logmon.write_length by exact Hp. exact Hl. }
  constructor; cbn [wrapped buf pos cap]; [congruence|]. intros _. rewrite length_app. split_and!; [|exact Hd|lia].
  remember (Logmon.buffer_write _ p) as cb eqn:Ecb. clear Ecb. destruct cb. cbn [Logmon.size Logmon.data Logmon.head] in *. by subst size.
Qed.

Lemma tail_write_keeps c l p : (0 < cap c)%nat -> keeps c l -> keeps (tail_write c p) (l ++ p) /\ cap (tail_write c p) = cap c.
Proof.
  intros Hc Hk. unfold tail_write. destruct (Nat.eqb_spec (length p) 0) as [H0|H0].
  { apply nil_length_inv in H0 as ->. cbn [orb]. rewrite app_nil_r. split; [exact Hk|done]. }
  destruct (Nat.eqb_spec (cap c) 0); [lia|]. cbn [orb].
  assert (forall c q, cap (ring_write c q) = cap c) as Hcap by (intros c1 q; unfold ring_write; by repeat case_match).
  destruct (wrapped c) eqn:Hw; [split; [by apply ring_keeps|apply Hcap]|].
  destruct (k_grow c l Hk Hw) as (Hb & Hp & Hl). rewrite Hb. destruct (Nat.leb_spec (length p) (cap c - length l)) as [Hroom|Hroom].
  - destruct (Nat.eqb_spec (length (l ++ p)) (cap c)) as [E|E]; (split; [|done]); constructor; cbn [wrapped buf pos cap]; try congruence.
    + intros _. split_and!; [|done|lia]. constructor; unfold Logmon.around; cbn [Logmon.head Logmon.data Logmon.size]; [lia|lia|]. by rewrite E, !Nat.sub_diag, drop_0, take_0, app_nil_r.
    + intros _. split_and!; [done|done|]. rewrite length_app in *. lia.
  - split; [|by rewrite Hcap]. assert (l ++ p = (l ++ take (cap c - length l) p) ++ drop (cap c - length l) p) as -> by (by rewrite <- app_assoc, take_drop). apply ring_keeps; [done|].
    assert (length (l ++ take (cap c - length l) p) = cap c) as E by (rewrite length_app, length_take; lia).
    constructor; cbn [wrapped buf pos cap]; [congruence|]. intros _. split_and!; [|done|lia].
    constructor; unfold Logmon.around; cbn [Logmon.head Logmon.data Logmon.size]; [lia|lia|]. by rewrite E, !Nat.sub_diag, drop_0, take_0, app_nil_r.
Qed.

Lemma keeps_bytes c l : keeps c l -> tail_bytes c = drop (length l - cap c) l /\ tail_len c = length (tail_bytes c).
Proof.
  intros [Hg Hr]. unfold tail_bytes, tail_len. destruct (wrapped c).
  - destruct (Hr eq_refl) as (Hh & Hl & Hc). pose proof (Logmon.h_last _ _ Hh) as H. cbn [Logmon.data Logmon.size] in H. rewrite Hl, Nat.sub_diag, drop_0 in H.
    unfold Logmon.around in H. cbn [Logmon.head Logmon.data] in H. rewrite H. split; [done|]. rewrite length_drop. lia.
  - destruct (Hg eq_refl) as (-> & -> & Hl). rewrite take_ge by lia. by replace (length l - cap c)%nat with 0%nat by lia.
Qed.

(** The tail buffer is the last bytes written to it, however they were cut. *)
Lemma tail_keeps_last capBytes ps : (0 < capBytes)%nat ->
  tail_bytes (foldl tail_write (newCappedTailBuffer capBytes) ps) = drop (length (concat ps) - capBytes) (concat ps).
Proof.
  intros Hc. assert (forall ps c l, cap c = capBytes -> keeps c l -> keeps (foldl tail_write c ps) (l ++ concat ps) /\ cap (foldl tail_write c ps) = capBytes) as H.
  { clear -Hc. intros ps. induction ps as [|p ps IH]; intros c l E Hk; simpl; [by rewrite app_nil_r|].
    destruct (tail_write_keeps c l p ltac:(lia) Hk) as [H1 H2]. rewrite app_assoc. apply IH; [congruence|done]. }
  destruct (H ps (newCappedTailBuffer capBytes) []) as [Hk E]; [done|by constructor|]. destruct (keeps_bytes _ _ Hk) as [-> _]. by rewrite E.
Qed.

(** ** The writer that copies *)

Definition responseTeeCapBytes : nat := Z.to_nat (16 * 1024 * 1024).

Inductive teeBuffer := Whole (b : list Z) | Tail (c : cappedTailBuffer).

Definition tee_bytes (t : teeBuffer) : list Z := match t with Whole b => b | Tail c => tail_bytes c end.
Definition tee_write (t : teeBuffer) (p : list Z) : teeBuffer := match t with Whole b => Whole (b ++ p) | Tail c => Tail (tail_write c p) end.

(** What the writer behind is asked for. *)
Inductive sight := SawHeader (code : Z) | SawWrite (p : list Z) | SawFlush | SawMark (code : Z).

Record responseBodyCopier := mkCopier { headers : gmap string string; body : teeBuffer; status : Z; wroteHeader : bool; seen : list sight }.

#[export] Instance copier_fields : Fields responseBodyCopier := fun w => mkCopier (headers w) (body w) (status w) (wroteHeader w) (seen w).

Definition newBodyCopier (h : gmap string string) : responseBodyCopier := mkCopier h (Whole []) 200 false [].

(** What a handler does with the writer; a write reaches the client or fails. *)
Inductive call := CSet (k v : string) | CDel (k : string) | CHeader (code : Z) | CWrite (p : list Z) (delivered : bool) | CFlush | CMark (code : Z).

Section copier.
Variable teeCap : nat.

Definition streaming (h : gmap string string) : bool :=
  Contains "text/event-stream" (default "" (h !! "Content-Type")) && String.eqb (default "" (h !! "Content-Encoding")) "".

Definition selectBuffer (h : gmap string string) : teeBuffer := if streaming h then Tail (newCappedTailBuffer teeCap) else Whole [].

Definition WriteHeader (w : responseBodyCopier) (code : Z) : responseBodyCopier :=
  if wroteHeader w then w
  else mkCopier (headers w) (selectBuffer (headers w)) code true (seen w ++ [SawHeader code]).

Definition copier_call (w : responseBodyCopier) (c : call) : responseBodyCopier :=
  match c with
  | CSet k v => w <| headers ::= <[k := v]> (headers w) |>
  | CDel k => w <| headers ::= delete k (headers w) |>
  | CHeader code => WriteHeader w code
  | CWrite p delivered =>
    let w := WriteHeader w 200 in
    if negb delivered then w
    else let w := w <| seen ::= seen w ++ [SawWrite p] |> in
         if status w =? 101 then w else w <| body ::= tee_write (body w) p |>
  | CFlush => let w := WriteHeader w 200 in w <| seen ::= seen w ++ [SawFlush] |>
  | CMark code => w <| status ::= code |> <| seen ::= seen w ++ [SawMark code] |>
  end.

(** ** What the client reads *)

(** The answer net/http sends: the first status that is not informational, or 200 with
    the first byte. *)
Definition interim (code : Z) : bool := (code <? 200) && negb (code =? 101).

Definition answer_step (a : option Z * list Z) (e : sight) : option Z * list Z :=
  match e with
  | SawHeader code => if interim code then a else (Some (default code a.1), a.2)
  | SawWrite p => (Some (default 200 a.1), a.2 ++ p)
  | SawFlush => (Some (default 200 a.1), a.2)
  | SawMark _ => a
  end.
Definition answer (es : list sight) : option Z * list Z := foldl answer_step (None, []) es.

(** The calls as the writer behind would get them without the copier. *)
Definition direct (c : call) : list sight :=
  match c with
  | CSet _ _ | CDel _ => []
  | CHeader code => [SawHeader code]
  | CWrite p delivered => if delivered then [SawWrite p] else []
  | CFlush => [SawFlush]
  | CMark code => [SawMark code]
  end.

(** The headers when the answer is committed. *)
Fixpoint committed_with (h : gmap string string) (cs : list call) : gmap string string :=
  match cs with
  | CSet k v :: cs => committed_with (<[k := v]> h) cs
  | CDel k :: cs => committed_with (delete k h) cs
  | CMark _ :: cs => committed_with h cs
  | _ => h
  end.

Definition commits (c : call) : bool := match c with CHeader _ | CWrite _ _ | CFlush => true | _ => false end.

(** No informational answer, no mark, and no failed write. *)
Definition regular (c : call) : bool :=
  match c with CHeader code => negb (interim code) | CMark _ => false | CWrite _ delivered => delivered | _ => true end.

(** After the commitment: [h] are the headers it was made with. *)
Record copies (h : gmap string string) (w : responseBodyCopier) (d : list sight) : Prop := {
  c_wrote : wroteHeader w = true;
  c_answer : answer (seen w) = answer d;
  c_status : (answer d).1 = Some (status w);
  c_body : exists ps, concat ps = (answer d).2 /\
    body w = if status w =? 101 then selectBuffer h else foldl tee_write (selectBuffer h) ps;
}.

Lemma answer_app es es' : answer (es ++ es') = foldl answer_step (answer es) es'.
Proof. unfold answer. apply foldl_app. Qed.

Lemma copies_call h w d c : copies h w d -> regular c = true -> copies h (copier_call w c) (d ++ direct c).
Proof.
  intros [Hw Ha Hs (ps & Hps & Hb)] Hr. destruct c as [k v|k|code|p [|]| |code]; try done; cbn [copier_call direct].
  - rewrite app_nil_r. by constructor; [..|exists ps].
  - rewrite app_nil_r. by constructor; [..|exists ps].
  - unfold WriteHeader. rewrite Hw. simpl in Hr. apply negb_true_iff in Hr. assert (answer (d ++ [SawHeader code]) = answer d) as E.
    { rewrite answer_app. simpl. rewrite Hr. destruct (answer d) as [[s|] b]; [done|]. done. }
    constructor; rewrite ?E; try done. by exists ps.
  - unfold WriteHeader. rewrite Hw. cbn [negb]. assert (answer (d ++ [SawWrite p]) = ((answer d).1, (answer d).2 ++ p)) as E.
    { rewrite answer_app. simpl. by rewrite Hs. }
    assert (answer (seen w ++ [SawWrite p]) = ((answer d).1, (answer d).2 ++ p)) as E' by (rewrite answer_app, Ha; simpl; by rewrite Hs).
    cbn [status seen set_to]. destruct (Z.eqb_spec (status w) 101) as [E1|E1]; constructor; simpl; rewrite ?E; try done.
    + exists (ps ++ [p]). rewrite concat_app, Hps. simpl. rewrite app_nil_r. split; [done|]. rewrite Hb, E1. done.
    + exists (ps ++ [p]). rewrite concat_app, Hps. simpl. rewrite app_nil_r. split; [done|]. destruct (Z.eqb_spec (status w) 101); [done|]. rewrite Hb, foldl_app. done.
  - unfold WriteHeader. rewrite Hw. assert (answer (d ++ [SawFlush]) = answer d) as E.
    { rewrite answer_app. simpl. rewrite Hs. rewrite <- Hs. simpl. by destruct (answer d) as [[|] ?]. }
    assert (answer (seen w ++ [SawFlush]) = answer d) as E' by (rewrite answer_app, Ha, <- answer_app; exact E).
    constructor; simpl; rewrite ?E; try done. by exists ps.
Qed.
Lemma copies_run h w d cs : copies h w d -> Forall (fun c => regular c = true) cs ->
  copies h (foldl copier_call w cs) (d ++ flat_map direct cs).
Proof.
  revert w d. induction cs as [|c cs IH]; intros w d Hc Hr; simpl; [by rewrite app_nil_r|].
  apply Forall_cons in Hr as [Hr Hrs]. rewrite app_assoc. apply IH; [by apply copies_call|done].
Qed.

Lemma copies_commit h c : commits c = true -> regular c = true -> copies h (copier_call (newBodyCopier h) c) (direct c).
Proof.
  destruct c as [k v|k|code|p [|]| |code]; intros Hc Hr; try done; simpl in Hr.
  - apply negb_true_iff in Hr. constructor; cbn; try done.
    + unfold answer. simpl. by rewrite Hr.
    + exists []. unfold answer. simpl. rewrite Hr. by destruct (code =? 101).
  - constructor; try done. by exists [p]; simpl; rewrite app_nil_r.
  - constructor; try done. by exists [].
Qed.

Lemma tee_whole ps b : tee_bytes (foldl tee_write (Whole b) ps) = b ++ concat ps.
Proof. revert b. induction ps as [|p ps IH]; intros b; simpl; [by rewrite app_nil_r|]. by rewrite IH, app_assoc. Qed.

Lemma tee_tail ps c : foldl tee_write (Tail c) ps = Tail (foldl tail_write c ps).
Proof. revert c. induction ps as [|p ps IH]; intros c; simpl; [done|]. by rewrite IH. Qed.

Hypothesis teeCap_pos : (0 < teeCap)%nat.

Lemma response_copied h cs : Forall (fun c => regular c = true) cs ->
  let w := foldl copier_call (newBodyCopier h) cs in
  let '(code, bytes) := answer (flat_map direct cs) in
  answer (seen w) = (code, bytes) /\ status w = default 200 code /\
  tee_bytes (body w) = if bool_decide (code = Some 101) then []
                       else if streaming (committed_with h cs) then drop (length bytes - teeCap) bytes else bytes.
Proof.
  revert h. induction cs as [|c cs IH]; intros h Hr; [simpl; split_and!; [done|done|]; by destruct (streaming h)|].
  apply Forall_cons in Hr as [Hr Hrs]. destruct (commits c) eqn:Ec.
  - pose proof (copies_run h _ _ cs (copies_commit h c Ec Hr) Hrs) as [Hw Ha Hs (ps & Hps & Hb)].
    assert (committed_with h (c :: cs) = h) as -> by (by destruct c). cbn [foldl flat_map].
    destruct (answer (direct c ++ flat_map direct cs)) as [code bytes] eqn:Ed. cbn [fst snd] in *. rewrite Ha, Hs. split_and!; [done|done|].
    rewrite Hb. destruct (Z.eqb_spec (status (foldl copier_call (copier_call (newBodyCopier h) c) cs)) 101) as [->|Hne].
    + rewrite bool_decide_eq_true_2 by done. unfold selectBuffer. by destruct (streaming h).
    + rewrite bool_decide_eq_false_2 by congruence. unfold selectBuffer. destruct (streaming h).
      * rewrite tee_tail. simpl. rewrite tail_keeps_last by done. by rewrite Hps.
      * by rewrite tee_whole, Hps.
  - destruct c as [k v|k|code|p d| |code]; try done; cbn [foldl flat_map direct app committed_with]; by apply IH.
Qed.
End copier.

(** ** Lines and events of a stream *)

(** The encodings of the runes that [bytes.TrimSpace] cuts off. *)
Definition spaces : list (list Z) :=
  encode_rune <$> ([9; 10; 11; 12; 13; 0x20; 0x85; 0xA0; 0x1680] ++ seqZ 0x2000 11 ++ [0x2028; 0x2029; 0x202f; 0x205f; 0x3000]).

(** [skip] is what is left of an encoding that was recognized. *)
Fixpoint trim_front (encs : list (list Z)) (skip : nat) (bs : list Z) : list Z :=
  match bs with
  | [] => []
  | b :: t =>
    match skip with
    | S skip => trim_front encs skip t
    | O =>
      match List.find (fun e => bool_decide (e `prefix_of` bs)) encs with
      | Some e => trim_front encs (length e - 1) t
      | None => bs
      end
    end
  end.

Definition TrimSpace (bs : list Z) : list Z := reverse (trim_front (reverse <$> spaces) 0 (reverse (trim_front spaces 0 bs))).

Fixpoint lines (line body : list Z) : list (list Z) :=
  match body with
  | [] => match line with [] => [] | _ => [line] end
  | b :: body => if b =? LF then line :: lines [] body else lines (line ++ [b]) body
  end.

(** The data of a line, if it has any. *)
Definition data_of (line : list Z) : option (list Z) :=
  match strip_prefix (bytes_of_string "data:") (TrimSpace line) with
  | None => None
  | Some d => let d := TrimSpace d in if bool_decide (d = []) || bool_decide (d = bytes_of_string "[DONE]") then None else Some d
  end.

Section events.
Context {J : Type}.
(** A valid text's value, the value at a path, and its readings as [Int] and [Float]. *)
Variable Parse : list Z -> option J.
Variable Get : J -> string -> option J.
Variable Int : J -> Z.
Variable Float : J -> float64.

Definition get_or (u : J) (paths : list string) : option J := head (omap (Get u) paths).

(** Input, output and cached tokens, and whether there are any. *)
Definition extractUsageTokens (usage : option J) : Z * Z * Z * bool :=
  match usage with
  | None => (0, 0, -1, false)
  | Some u =>
    let input := get_or u ["prompt_tokens"; "input_tokens"] in
    let output := get_or u ["completion_tokens"; "output_tokens"] in
    let cached := get_or u ["cache_read_input_tokens"; "input_tokens_details.cached_tokens"; "prompt_tokens_details.cached_tokens"] in
    (from_option Int 0 input, from_option Int 0 output, from_option Int (-1) cached,
     bool_decide (is_Some input) || bool_decide (is_Some output) || bool_decide (is_Some cached))
  end.

Definition usagePaths : list string := ["usage"; "response.usage"; "message.usage"].

(** The variables of the loop over a stream. *)
Record readings := mkReadings {
  inputTokens : Z; outputTokens : Z; cachedTokens : Z; hasAny : bool;
  usage : option J; timings : option J; responseMetrics : option J; slotID : option J }.

#[local] Instance readings_fields : Fields readings := fun r =>
  mkReadings (inputTokens r) (outputTokens r) (cachedTokens r) (hasAny r) (usage r) (timings r) (responseMetrics r) (slotID r).

Definition no_readings : readings := mkReadings 0 0 (-1) false None None None None.

Definition usage_step (parsed : J) (r : readings) (path : string) : readings :=
  match Get parsed path with
  | None => r
  | Some u =>
    let '(i, o, c, ok) := extractUsageTokens (Some u) in
    if negb ok then r
    else mkReadings (if 0 <? i then i else inputTokens r) (if 0 <? o then o else outputTokens r)
           (if 0 <=? c then c else cachedTokens r) true (Some u) (timings r) (responseMetrics r) (slotID r)
  end.

Definition event_step (r : readings) (parsed : J) : readings :=
  let r := foldl (usage_step parsed) r usagePaths in
  let r := match Get parsed "timings" with Some t => r <| timings ::= Some t |> <| hasAny ::= true |> | None => r end in
  let r := match Get parsed "metrics" with Some m => r <| responseMetrics ::= Some m |> <| hasAny ::= true |> | None => r end in
  match Get parsed "id_slot" with Some s => r <| slotID ::= Some s |> | None => r end.

Definition events (body : list Z) : list J := omap (fun l => data_of l ≫= Parse) (lines [] body).

(** ** The entry *)

Record TokenMetrics := mkTokens {
  CachedTokens : Z; DraftTokens : Z; DraftAccTokens : Z; InputTokens : Z; OutputTokens : Z; PromptPerSecond : float64; TokensPerSecond : float64 }.

Record parsed_entry := mkEntry { Tokens : TokenMetrics; DurationMs : Z; slot : option Z }.

Definition minus_one : float64 := of_int (-1).
Definition num (v : J) (path : string) : Z := from_option Int 0 (Get v path).
Definition flt (v : J) (path : string) : float64 := from_option Float (of_int 0) (Get v path).

(** [wall] is the time the request took, in milliseconds. *)
Definition buildMetrics (wall : Z) (r : readings) : parsed_entry :=
  let '(prompt, predicted, duration) :=
    match usage r with
    | None => (minus_one, minus_one, wall)
    | Some u =>
      (from_option Float minus_one (Get u "prompt_tokens_per_sec"), from_option Float minus_one (Get u "completion_tokens_per_sec"),
       match Get u "total_time" with Some v => Z.max wall (to_int (fmul (Float v) (of_int 1000))) | None => wall end)
    end in
  let '(input, output, cached, prompt, predicted, duration, draft, accepted) :=
    match timings r with
    | None => (inputTokens r, outputTokens r, cachedTokens r, prompt, predicted, duration, -1, -1)
    | Some t =>
      let both := bool_decide (is_Some (Get t "draft_n")) && bool_decide (is_Some (Get t "draft_n_accepted")) in
      (num t "prompt_n", num t "predicted_n", from_option Int (cachedTokens r) (Get t "cache_n"),
       flt t "prompt_per_second", flt t "predicted_per_second",
       Z.max duration (to_int (fadd (flt t "prompt_ms") (flt t "predicted_ms"))),
       if both then num t "draft_n" else -1, if both then num t "draft_n_accepted" else -1)
    end in
  let '(draft, accepted) :=
    match responseMetrics r ≫= fun m => Get m "speculative_decoding" with
    | Some spec =>
      if bool_decide (is_Some (Get spec "num_draft_tokens")) && bool_decide (is_Some (Get spec "num_accepted_draft_tokens"))
      then (num spec "num_draft_tokens", num spec "num_accepted_draft_tokens") else (draft, accepted)
    | None => (draft, accepted)
    end in
  let prompt :=
    match responseMetrics r ≫= fun m => Get m "time_to_first_token_ms" with
    | Some v => if fltb (of_int 0) (Float v) then fdiv (of_int (i64 (input - Z.max 0 cached))) (fdiv (Float v) (of_int 1000)) else prompt
    | None => prompt
    end in
  let predicted :=
    match responseMetrics r ≫= fun m => Get m "mean_itl_ms" with
    | Some v => if fltb (of_int 0) (Float v) then fdiv (of_int 1000) (Float v) else predicted
    | None => predicted
    end in
  mkEntry (mkTokens cached draft accepted input output prompt predicted) duration (Int <$> slotID r).

Definition processStreamingResponse (wall : Z) (body : list Z) : option parsed_entry :=
  let r := foldl event_step no_readings (events body) in
  if hasAny r then Some (buildMetrics wall r) else None.

Definition parseMetrics (wall : Z) (u t m s : option J) : parsed_entry :=
  let '(input, output, cached, _) := extractUsageTokens u in
  buildMetrics wall (mkReadings input output cached true u t m s).

(** ** The last reading of each kind *)

(** The usage blocks of an event that count, and their tokens. *)
Definition blocks (parsed : J) : list J := filter (fun u => (extractUsageTokens (Some u)).2 = true) (omap (Get parsed) usagePaths).
Definition input_of (u : J) : Z := (extractUsageTokens (Some u)).1.1.1.
Definition output_of (u : J) : Z := (extractUsageTokens (Some u)).1.1.2.
Definition cached_of (u : J) : Z := (extractUsageTokens (Some u)).1.2.

Record newest := mkNewest {
  n_input : option Z; n_output : option Z; n_cached : option Z;
  n_usage : option J; n_timings : option J; n_metrics : option J; n_slot : option J }.

Definition newest_of (es : list J) : newest :=
  let us := flat_map blocks es in
  mkNewest (last (filter (fun n => 0 < n) (input_of <$> us))) (last (filter (fun n => 0 < n) (output_of <$> us)))
    (last (filter (fun n => 0 <= n) (cached_of <$> us))) (last us)
    (last (omap (fun e => Get e "timings") es)) (last (omap (fun e => Get e "metrics") es)) (last (omap (fun e => Get e "id_slot") es)).

(** The readings a stream ends with. *)
Definition readings_of (n : newest) : readings :=
  mkReadings (default 0 (n_input n)) (default 0 (n_output n)) (default (-1) (n_cached n))
    (bool_decide (is_Some (n_usage n)) || bool_decide (is_Some (n_timings n)) || bool_decide (is_Some (n_metrics n)))
    (n_usage n) (n_timings n) (n_metrics n) (n_slot n).

Definition newer {A} (x y : option A) : option A := match x with Some a => Some a | None => y end.

Definition over (n m : newest) : newest :=
  mkNewest (newer (n_input n) (n_input m)) (newer (n_output n) (n_output m)) (newer (n_cached n) (n_cached m)) (newer (n_usage n) (n_usage m))
    (newer (n_timings n) (n_timings m)) (newer (n_metrics n) (n_metrics m)) (newer (n_slot n) (n_slot m)).

Lemma last_newer {A} (l k : list A) : last (l ++ k) = newer (last k) (last l).
Proof. rewrite last_app. by destruct (last k). Qed.

Lemma newest_app a b : newest_of (a ++ b) = over (newest_of b) (newest_of a).
Proof.
  unfold newest_of, over. rewrite flat_map_app, !fmap_app, !filter_app, !omap_app, !last_newer. done.
Qed.

(** The blocks of one event. *)
Definition newest_blocks (us : list J) : newest :=
  mkNewest (last (filter (fun n => 0 < n) (input_of <$> us))) (last (filter (fun n => 0 < n) (output_of <$> us)))
    (last (filter (fun n => 0 <= n) (cached_of <$> us))) (last us) None None None.

Lemma over_assoc a b c : over a (over b c) = over (over a b) c.
Proof. unfold over, newer. destruct a, b; simpl. f_equal; by repeat case_match. Qed.

Lemma newest_blocks_app a b : newest_blocks (a ++ b) = over (newest_blocks b) (newest_blocks a).
Proof. unfold newest_blocks, over. by rewrite !fmap_app, !filter_app, !last_newer. Qed.

Lemma usage_step_newest parsed n path :
  usage_step parsed (readings_of n) path =
  readings_of (over (newest_blocks (filter (fun u => (extractUsageTokens (Some u)).2 = true) (option_list (Get parsed path)))) n).
Proof.
  unfold usage_step. destruct (Get parsed path) as [u|]; [|by destruct n].
  change (option_list (Some u)) with [u]. rewrite filter_cons, filter_nil. destruct (extractUsageTokens (Some u)) as [[[i o] c] ok] eqn:E. cbn [snd].
  destruct ok; cbn [negb]; [|by destruct n]. rewrite decide_True by done.
  unfold newest_blocks, readings_of, over, input_of, output_of, cached_of. cbn [fmap list_fmap last]. rewrite E. cbn [fst snd].
  rewrite !filter_cons, !filter_nil. cbn [n_input n_output n_cached n_usage n_timings n_metrics n_slot newer]. f_equal.
  - destruct (Z.ltb_spec 0 i), (decide (0 < i)); try lia; done.
  - destruct (Z.ltb_spec 0 o), (decide (0 < o)); try lia; done.
  - destruct (Z.leb_spec 0 c), (decide (0 <= c)); try lia; done.
Qed.

Lemma usage_steps_newest parsed n paths :
  foldl (usage_step parsed) (readings_of n) paths =
  readings_of (over (newest_blocks (filter (fun u => (extractUsageTokens (Some u)).2 = true) (omap (Get parsed) paths))) n).
Proof.
  revert n. induction paths as [|path paths IH]; intros n; [by destruct n|]. cbn [foldl]. rewrite usage_step_newest, IH, over_assoc, <- newest_blocks_app, <- filter_app.
  do 4 f_equal. cbn [omap list_omap]. by destruct (Get parsed path).
Qed.

Lemma event_step_newest n parsed : event_step (readings_of n) parsed = readings_of (over (newest_of [parsed]) n).
Proof.
  unfold event_step. rewrite usage_steps_newest. fold (blocks parsed).
  assert (newest_of [parsed] = mkNewest (n_input (newest_blocks (blocks parsed))) (n_output (newest_blocks (blocks parsed))) (n_cached (newest_blocks (blocks parsed)))
    (n_usage (newest_blocks (blocks parsed))) (Get parsed "timings") (Get parsed "metrics") (Get parsed "id_slot")) as ->.
  { unfold newest_of. cbn [flat_map]. rewrite app_nil_r. unfold newest_blocks. cbn [omap list_omap n_input n_output n_cached n_usage].
    by destruct (Get parsed "timings"), (Get parsed "metrics"), (Get parsed "id_slot"). }
  destruct (newest_blocks (blocks parsed)) as [ni no nc nu nt nm ns] eqn:E. assert (nt = None /\ nm = None /\ ns = None) as (-> & -> & ->) by (by injection E as _ _ _ _ <- <- <-).
  destruct (Get parsed "timings"), (Get parsed "metrics"), (Get parsed "id_slot"); unfold readings_of, over; simpl; f_equal;
    destruct (newer nu (n_usage n)); simpl; try done; by destruct (n_timings n), (n_metrics n).
Qed.

(** The loop keeps the last reading of each kind. *)
Lemma readings_newest es : foldl event_step no_readings es = readings_of (newest_of es).
Proof.
  assert (forall n, foldl event_step (readings_of n) es = readings_of (over (newest_of es) n)) as H.
  { induction es as [|e es IH]; intros n; [by destruct n|]. cbn [foldl]. rewrite event_step_newest, IH, over_assoc, <- newest_app. done. }
  change no_readings with (readings_of (newest_of [])). rewrite H. f_equal.
  by destruct (newest_of es) as [[] [] [] [] [] [] []].
Qed.

(** A stream is an error exactly when no event has usage, timings or metrics; else its
    entry is built from the last reading of each kind. *)
Lemma stream_newest wall body :
  processStreamingResponse wall body =
  let n := newest_of (events body) in
  if bool_decide (is_Some (n_usage n)) || bool_decide (is_Some (n_timings n)) || bool_decide (is_Some (n_metrics n))
  then Some (buildMetrics wall (readings_of n)) else None.
Proof. unfold processStreamingResponse. by rewrite readings_newest. Qed.

Lemma lines_app line a b : lines line (a ++ LF :: b) = lines line (a ++ [LF]) ++ lines [] b.
Proof.
  revert line. induction a as [|x a IH]; intros line; cbn [app lines].
  - by rewrite Z.eqb_refl.
  - destruct (x =? LF); [cbn [app]; by rewrite IH|apply IH].
Qed.

Lemma events_app a b : events (a ++ LF :: b) = events (a ++ [LF]) ++ events b.
Proof. unfold events. by rewrite lines_app, omap_app. Qed.

(** A kind of reading that is in the lines [r] that were kept whole, or nowhere, in the
    whole stream [w] or in what was kept [k]. *)
Definition kind_kept {A} (r w k : option A) : Prop := is_Some r \/ w = None /\ k = None.

Record all_kept (r w k : newest) : Prop := {
  ak_input : kind_kept (n_input r) (n_input w) (n_input k);
  ak_output : kind_kept (n_output r) (n_output w) (n_output k);
  ak_cached : kind_kept (n_cached r) (n_cached w) (n_cached k);
  ak_usage : kind_kept (n_usage r) (n_usage w) (n_usage k);
  ak_timings : kind_kept (n_timings r) (n_timings w) (n_timings k);
  ak_metrics : kind_kept (n_metrics r) (n_metrics w) (n_metrics k);
  ak_slot : kind_kept (n_slot r) (n_slot w) (n_slot k);
}.

Lemma kind_kept_newer {A} (r x y : option A) : kind_kept r (newer r x) (newer r y) -> newer r x = newer r y.
Proof. intros [[a ->]|[-> ->]]; done. Qed.

Lemma kept_same pre frag rest :
  all_kept (newest_of (events rest)) (newest_of (events (pre ++ frag ++ LF :: rest))) (newest_of (events (frag ++ LF :: rest))) ->
  newest_of (events (frag ++ LF :: rest)) = newest_of (events (pre ++ frag ++ LF :: rest)).
Proof.
  rewrite (app_assoc pre), (events_app (pre ++ frag) rest), (events_app frag rest), !newest_app. intros [H1 H2 H3 H4 H5 H6 H7]. unfold over in *.
  cbn [n_input n_output n_cached n_usage n_timings n_metrics n_slot] in *. symmetry. f_equal; by apply kind_kept_newer.
Qed.

(** ** The record of a request *)

(** Of the error messages only that of the child is kept as text. *)
Inductive error_msg := ClientDisconnected | DecodeFailed | FromBody (msg : string) | OnlyStatus (code : Z) | DecompressionFailed.

Section record.
(** A JSON string's value, and the last element of an array. *)
Variable Str : J -> option string.
Variable Last : J -> option J.
(** [decompressBody], and [strings.TrimSpace]. *)
Variable decompress : list Z -> string -> option (list Z).
Variable trim : string -> string.

Definition errorMessagePaths : list string := ["error.message"; "error"; "message"; "detail"].

Definition extractErrorMessage (b : list Z) : option string :=
  match Parse b with
  | None => None
  | Some parsed =>
    head (omap (fun path : string =>
      match Get parsed path with
      | Some v => match Str v with Some s => if String.eqb (trim s) "" then None else Some (trim s) | None => None end
      | None => None
      end) errorMessagePaths)
  end.

Definition maxLen : nat := 500.

(** [None] for the body is a decoding that failed. *)
Definition failedErrorMessage (code : Z) (b : option (list Z)) : error_msg :=
  match b with
  | None => DecodeFailed
  | Some b =>
    match extractErrorMessage b with
    | Some msg => FromBody (if (maxLen <? String.length msg)%nat then String.substring 0 maxLen msg +:+ "..." else msg)
    | None => OnlyStatus code
    end
  end.

(** [None]: decompression failed. *)
Definition decoded (b : list Z) (encoding : string) : option (list Z) :=
  match b with [] => Some [] | _ => if String.eqb encoding "" then Some b else decompress b encoding end.

(** A finished request, and what is recorded: [capture] is the response's part of the
    capture that is asked for, [Some None] a capture without one. *)
Record finished := mkFinished { f_status : Z; f_body : list Z; f_encoding : string; f_type : string; f_path : string; f_wall : Z }.

Record recorded := mkRecorded { ErrorMsg : option error_msg; parsed_part : option parsed_entry; learned : bool; capture : option (option (list Z)) }.

Definition read_body (f : finished) (b : list Z) : option parsed_entry :=
  if Contains "text/event-stream" (f_type f) then processStreamingResponse (f_wall f) b
  else match Parse b with
  | None => None
  | Some parsed =>
    let timings := if String.prefix "/infill" (f_path f)
                   then match Last parsed with Some e => Get e "timings" | None => Get parsed "timings" end
                   else Get parsed "timings" in
    let u := Get parsed "usage" in let m := Get parsed "metrics" in
    if bool_decide (is_Some u) || bool_decide (is_Some timings) || bool_decide (is_Some m)
    then Some (parseMetrics (f_wall f) u timings m (Get parsed "id_slot")) else None
  end.

Definition record_ (f : finished) : recorded :=
  if f_status f =? 499 then mkRecorded (Some ClientDisconnected) None false None
  else if negb (f_status f =? 200) then
    mkRecorded (Some (failedErrorMessage (f_status f) (decoded (f_body f) (f_encoding f)))) None false (Some None)
  else match f_body f with
  | [] => mkRecorded None None false None
  | _ =>
    match decoded (f_body f) (f_encoding f) with
    | None => mkRecorded (Some DecompressionFailed) None false None
    | Some b => mkRecorded None (read_body f b) true (Some (Some b))
    end
  end.

(** A request is recorded with an error exactly when it failed or its answer cannot be
    read; then nothing is learned from it, and none of its answer is kept. *)
Lemma record_errors f :
  (ErrorMsg (record_ f) = None <-> f_status f = 200 /\ is_Some (decoded (f_body f) (f_encoding f))) /\
  (is_Some (ErrorMsg (record_ f)) -> learned (record_ f) = false /\ parsed_part (record_ f) = None /\ forall b, capture (record_ f) <> Some (Some b)) /\
  (forall b, capture (record_ f) = Some (Some b) -> decoded (f_body f) (f_encoding f) = Some b /\ learned (record_ f) = true).
Proof.
  unfold record_. destruct (Z.eqb_spec (f_status f) 499) as [E|E]; [cbn; split_and!; [naive_solver lia|done|done]|].
  destruct (Z.eqb_spec (f_status f) 200) as [E2|E2]; cbn [negb]; [|cbn; split_and!; [naive_solver lia|done|done]].
  destruct (f_body f) as [|x l]; [cbn; split_and!; [naive_solver|by intros [? ?]|done]|].
  destruct (decoded (x :: l) (f_encoding f)) as [b|]; cbn; split_and!; naive_solver.
Qed.

Lemma error_message_bounded code b msg : failedErrorMessage code b = FromBody msg -> (String.length msg <= maxLen + 3)%nat.
Proof.
  unfold failedErrorMessage. destruct b as [b|]; [|done]. destruct (extractErrorMessage b) as [m|]; [|done]. intros [= <-].
  destruct (Nat.ltb_spec maxLen (String.length m)); [|lia].
  assert (forall a d, String.length (a +:+ d) = (String.length a + String.length d)%nat) as -> by (intros a d; induction a as [|c a IH]; simpl; [done|by rewrite IH]).
  assert (forall n s, (String.length (String.substring 0 n s) <= n)%nat) as H0; [|specialize (H0 maxLen m); change (String.length "...") with 3%nat; lia].
  clear. induction n as [|n IH]; intros [|c s]; simpl; try lia. specialize (IH s). lia.
Qed.
End record.

End events.

(** ** Runs *)

(** Values as numbers: [1] is an event with a usage block [2], [3] one with timings [4];
    a number is read as itself. *)
Definition toy_parse (bs : list Z) : option Z :=
  if bool_decide (bs = bytes_of_string "A") then Some 1 else if bool_decide (bs = bytes_of_string "B") then Some 3
  else if bool_decide (bs = bytes_of_string "C") then Some 5 else None.
Definition toy_get (v : Z) (path : string) : option Z :=
  if (v =? 1) && String.eqb path "message.usage" then Some 2 else if (v =? 2) && String.eqb path "input_tokens" then Some 70
  else if (v =? 3) && String.eqb path "timings" then Some 4 else if (v =? 4) && String.eqb path "predicted_n" then Some 9
  else if (v =? 5) && String.eqb path "usage" then Some 6 else if (v =? 6) && String.eqb path "output_tokens" then Some 9
  else None.

Definition line_of (s : string) : list Z := bytes_of_string s ++ [LF].

Definition sse : gmap string string := {["Content-Type" := "text/event-stream"]}.


(** A stream whose input tokens come with its first event, as those of the Anthropic API
    do: once that event is out of the window, they are gone from the entry. *)
Lemma first_event_lost :
  let bytes := line_of "data: A" ++ line_of "data: x" ++ line_of "data: C" in
  let cs := [CWrite bytes true] in
  (fun e => (InputTokens (Tokens e), OutputTokens (Tokens e))) <$> processStreamingResponse toy_parse toy_get id of_int 5 bytes = Some (70, 9) /\
  (fun e => (InputTokens (Tokens e), OutputTokens (Tokens e))) <$> processStreamingResponse toy_parse toy_get id of_int 5
    (tee_bytes (body (foldl (copier_call 20) (newBodyCopier sse) cs))) = Some (0, 9).
Proof. split; vm_compute; reflexivity. Qed.

(** An informational answer is taken for the answer: the status that follows it is not
    passed on, and the client of a failed request reads 200. *)
Lemma interim_hides_status :
  let cs := [CHeader 103; CHeader 500; CWrite [1] true] in
  answer (flat_map direct cs) = (Some 500, [1]) /\ answer (seen (foldl (copier_call 20) (newBodyCopier ∅) cs)) = (Some 200, [1]).
Proof. split; vm_compute; reflexivity. Qed.
End Responses.
